(* ===== verification/_CoqProject ===== *)
-Q . S2P
Prelude.v
RustStr.v
Utf8.v
Json.v
Store.v
Sqlite.v
SqliteSpec.v
StoreTheorems.v
StoreFindings.v
Contract.v
Cluster.v
Election.v
Quota.v
Sched.v
Auth.v
Retention.v
AuditLog.v
Proto.v
Snapcrypt.v
Backend.v
Orch.v
OrchSafety.v
OrchReaper.v
OrchClaims.v
OrchTenancy.v
OrchPause.v
Gateway.v
Text.v
F64.v
Machine.v
NetLive.v
Restore.v
Pool.v
FcBackend.v
FcSafety.v
FcSnapshots.v
FcFindings.v
GvBackend.v
Base64.v
Http.v
HttpText.v
Metrics.v
Routes.v
Api.v
ApiSafety.v
Dataplane.v
Forwarding.v
Duplex.v
Agent.v
Daemon.v
DaemonSafety.v
ApiAudit.v
FileTree.v
Oci.v
OciSafety.v
OciPull.v
Envd.v
EnvdSafety.v
Relay.v
Build.v
BuildSafety.v
BuildEnv.v
BuildPublish.v
Etcd.v
EtcdSpec.v
EtcdHistory.v
EtcdRef.v
EtcdClaims.v
Trace.v
Cli.v
CliSafety.v
NodeMain.v
GwMain.v
Nftfw.v
SelfCheck.v
NodeStore.v
