(* ===== verification/Prelude.v ===== *)
(** * sandlocker: verification development (root file)

    sandlocker runs sandboxes (Firecracker microVMs or gVisor containers) for the
    projects of an organisation, on one machine or on a cluster of replicas that share
    a store.  This library models the program's own logic and proves what makes each
    part correct.  Everything is executable; nothing is assumed but the laws of code
    that is not in the repository, which are fields of type classes.

    ** The program and the files

    - The store (crates/sl-store/src/lib.rs): keys with revisions and leases, events,
      watches.  [Store] has the trait as a class of operations, an abstract state and
      the laws of each operation as a specification on it ([StoreLaws]); [Sqlite] is
      SqliteStore as programs of SQL statements over tables, any of which may fail;
      [SqliteSpec] and [StoreTheorems] show that it implements the laws; [StoreFindings]
      shows its limits by examples.  [Contract] is the suite that tests every store
      (contract.rs), with its clock, its sleeps and its channels.
    - The store on etcd (crates/sl-store/src/etcd.rs): [Etcd] is the client of the JSON
      gateway, [EtcdSpec] the documented behaviour of the server as laws on requests and
      answers and the contract of each call, [EtcdHistory] leases and the replay of a
      watch, [EtcdRef] a server that obeys the laws, [EtcdClaims] the theorems.
    - Built on the trait, and proved against the laws alone: [Cluster] (cluster.rs: node
      registry, orphans), [Election] (election.rs), [Quota], [Sched], [Auth],
      [Retention] and [AuditLog] (the files of these names under crates/sl-node/src),
      [Gateway] (gateway.rs: one-time signed tickets).
    - [Proto] is the host/guest wire protocol (crates/sl-proto/src/lib.rs); [Snapcrypt]
      the snapshot container (snapcrypt.rs), over files with bounded room whose every call
      may fail.
    - [Backend] is the trait of sandbox backends (backend.rs) with the laws the
      orchestrator relies on; [Orch] is the orchestrator (orch.rs: creation, pause,
      resume, fork, keepalive, destruction, the reaper, tenancy) over any store and any
      backends.  [OrchSafety], [OrchReaper], [OrchClaims], [OrchTenancy] and
      [OrchPause] are its theorems.
    - [Machine] is the host: processes, inodes and directories, sockets, network
      namespaces, a clock, and an environment that decides which calls fail.  On it:
      [NetLive] (netlive.rs), [Restore] (restoring and booting microVMs, in
      crates/sl-node/src/lib.rs and fcapi.rs), [Pool] (pool.rs), [FcBackend]
      (fcbackend.rs) with [FcSafety], [FcSnapshots] and [FcFindings], and [GvBackend]
      (gvisorbackend.rs).  [FcSafety] and [GvBackend] discharge the backend laws.
    - The REST API (api.rs): [Base64], [Http] (the request reader and the client side of
      fcapi.rs), [Metrics] (metrics.rs), [Routes], [Api] (authorisation, handlers,
      placement, forwarding, tickets, audit) with [ApiSafety]; [Daemon] has one turn of
      each background thread of [serve] (heartbeat, election, reaper),
      [DaemonSafety] the runs of the daemon's threads between its locks, and [ApiAudit]
      the audit log of the API.
    - [Dataplane] is the standalone gateway and the node's end of it (dataplane.rs: the
      pool of connections the nodes park, the protocol lines, the routing of a client);
      [HttpText] has the text lemmas and [Forwarding] the theorems.  [Duplex] has the
      threads and locks of one TLS connection, [Agent] the dialling threads of a node,
      [Relay] the copying of bytes, tunnels, exposed ports (expose.rs) and commands on a
      target (backend.rs), and [GwMain] the gateway program (bin/sandlocker-gw.rs).
    - Images and templates: [FileTree] is a tree of files with links, as std::path and
      std::fs show it; on it [Oci] (oci.rs: references, the registry client, the layers
      and their whiteouts, archives, baking and the cache) with [OciSafety] and
      [OciPull].  [Build] is the template build (build.rs) on [Machine] and any store:
      the TOML, the two machines, the digests, the key, the manifest; [BuildSafety],
      [BuildEnv] and [BuildPublish] are its theorems.
    - [Envd] is the guest agent (crates/sl-envd/src/main.rs): the table of children,
      commands, streams, the identity of a clone, tunnels and terminals, on the
      connection protocol of [Proto]; [EnvdSafety] has the theorems, and [BuildEnv] what
      agent and build agree on.
    - [Trace] has the trace contexts, spans, the queue and the exporting thread of trace.rs,
      and the log sink (logsink.rs).  [Cli] is the command line client
      (crates/sandlocker/src/main.rs): arguments, sub-commands and its HTTP client;
      [CliSafety] relates it to the readers and routes of the API.
    - The node program (crates/sl-node/src/lib.rs): [NodeMain] has its arguments and the
      table of its modes, [NodeStore] the modes that work on a store, [SelfCheck] the
      self checks that need no microVM.  [Nftfw] is the firewall of a sandbox
      (nftfw.rs): the scripts, the commands, and the packets they let through.
    - Shared: this file (the state and error monad, its weakest preconditions, machine
      integers, loops), [RustStr], [Text] and [Utf8] (strings), [Json] (a JSON writer,
      a parser and the interface of serde_json), [F64] (binary64 numbers that are
      printed).

    A definition keeps the name of the function it models where that is free; a method
    that mutates is a term of [M state error value], whose state survives an error, as
    in the source.  Integers are Z with the wrap-around of their width written out
    where the source computes with them.  Randomness, clocks and iteration orders of
    hash maps are arguments.

    ** What the theorems show

    - Store: SqliteStore meets the specification of every operation whatever statement
      fails; a revision is swapped once; watches and the event log miss nothing.  On etcd a
      call that succeeds meets the same specification, but for the revisions of a
      revocation and for swaps that expect revision zero, and one that fails had its
      whole effect or none; histories that were not compacted are replayed completely; a
      migration copies everything.
    - Cluster: reclamation touches no sandbox of a live node; leadership does not change
      hands while the key exists; a node that beats in time stays registered.
    - Tenancy: quotas, scopes, listings, snapshot keys and the gate of the API: a request
      has an effect only under a key that is entitled to it, also on a store that fails,
      and a mutation by a route that is answered is in the audit log, once.
    - Lifecycle: no instance, microVM process or container outlives its entry in the
      tables that the reaper and the API work on, by invariants over step relations that
      interleave operations, errors and the store's other users; nor does a listener, but
      for a sandbox that is ended between the two locks of an exposure of it; the reaper
      ends what is due and nothing else, and no keepalive passes the hard deadline.
    - Snapshots: sealed and opened containers round trip, what decrypts is genuine,
      failure leaves no plaintext unless its removal fails too, and pausing seals.
    - Network and order: a microVM is resumed only after it was loaded stopped and, with
      a namespace, behind its gate; a gate lets through the addresses and ports that are
      open and no other, whatever command fails, and no other table changes.
    - The suite of store tests passes on every store that keeps the laws, and the self
      checks pass.
    - The node program reads its arguments as documented and runs no mode that was not
      asked for; it and the gateway use plaintext only when told by name, and TLS only
      with all of its files.
    - Connections: records of concurrent writers reach the socket in order, the locks do
      not deadlock, reads deliver the plaintext of the stream and return; relays are
      transparent, and so is an exposed port from the client to the program in the guest;
      the streams of a node are bounded.
    - Text: frames, requests, routes, base64 and the metrics text are read and written
      as specified, however the bytes arrive.
    - The command line client and the node read each other's messages; every sub-command
      reaches its route; what run creates, and is told the name of, it asks to be
      destroyed.  A trace keeps its id
      across nodes, and every span is delivered, waiting or counted as dropped.
    - Relaying an operation to another node does what the API there does, for texts that
      the query of the relayed request carries unchanged, and through the
      standalone gateway the ticket and the request arrive there whole, on a connection
      that is lent once and is the owner's.
    - Images: flattened layers are the union that OverlayFS shows, nothing outside the
      stage changes, and no layer is used whose digest differs.
    - Builds: the build machine is told the template's script in order and nothing else,
      and every answer to it is heeded, no microVM outlives a build, the merged environment is a map in which the template
      has the last word and reaches every command of the guest, and what is published
      verifies.
    - The guest: requests are answered in order, a stream delivers all output and then the
      exit code, exit statuses are kept within a bounded table, a clone gets an identity
      of its own and no key survives a wipe.

    Lemmas in StoreFindings, FcFindings, and at the ends of Gateway, OrchPause,
    GvBackend, ApiSafety (streams, relayed paths), DaemonSafety, OciSafety, OciPull, BuildEnv, BuildPublish,
    EtcdClaims, Trace, CliSafety, Snapcrypt, Duplex, Agent, NodeMain, NodeStore and Nftfw,
    and in EnvdSafety, show behaviours that differ from what comments or documents say.

    ** Fuel and bounds

    Loops over lists are structural.  [dec] recurses on the binary logarithm of the
    number plus one; the JSON parser, trimming and splitting on the length of the text;
    frame and chunk readers on the length of the input plus one; [encrypt_chunks] on the
    number of chunks; the waiting loops of [Restore] on timeout over step plus one, and
    [waits_terminate] shows that more changes nothing.  HTTP readers recurse on the list
    of reads the network delivers.  A path follows at most 40 links, as the kernel does;
    [get_manifest] has a bound on the indices it follows, because the source has none, and
    answers none beyond it; [dir_bytes] descends at most the size of the tree;
    [Envd.handle_conn] takes the length of the input plus one turns, and every request
    has four bytes at least.  A stream of a watch is the list of what its reads return
    until it ends or times out.  The polling loop of the contract suite sleeps 200 ms and
    gives up after 8 s, so that 41 turns are enough ([await_gone_finishes]); feeding a
    chunk to the TLS machine takes at most one turn per byte.  The machines of [Duplex]
    and [Agent] have no bound: their theorems are about every reachable state, and a read
    ends within the measure [to_go].

    ** What is not modelled

    On etcd the passing of time (leases that expire by themselves) and other clients
    between the two requests of one call; the TLS state machine and its certificates,
    which are parameters; the loops that accept connections at the gateway and in the
    guest agent; device-mapper pools (a driver of external tools); the mounts of the
    guest agent; the self checks, demonstrations and benchmarks of sl-node that start
    microVMs or servers and print reports; blocking waits on condition variables.
    Permissions of files are not modelled; of the messages of oci.rs the paths are left
    out; a file's length is that of its content.  Revisions of SqliteStore are unbounded
    where the source has 64 bits, a number of writes that is not reached.  The build
    takes the base image as an interface, because [Oci] and [Build] see the file system
    through different models.  A handler of the API is one function of the daemon's
    state; it takes several locks, and [DaemonSafety] also runs its sections one by one,
    with the exposures, destructions and reaper turns of other threads in between (see
    [expose_begin], [expose_end] and [move]). *)

From Stdlib Require Import ZArith Lia Bool List String Ascii.
From stdpp Require Import base tactics list gmap strings sorting.

Open Scope Z_scope.

(** ** Results and the state/error monad

    Rust's [Result<T, E>] and a computation that mutates a state of type [S]
    and may return early through the question-mark operator.  The state is
    kept on the error path, because the source's mutations are not rolled back
    by an early return. *)

Inductive result (A E : Type) : Type :=
| Ok (a : A)
| Err (e : E).
Arguments Ok {A E} a.
Arguments Err {A E} e.

Definition res_map {A B E} (f : A -> B) (r : result A E) : result B E :=
  match r with Ok a => Ok (f a) | Err e => Err e end.

Definition res_ok {A E} (r : result A E) : option A :=
  match r with Ok a => Some a | Err _ => None end.

Definition is_ok {A E} (r : result A E) : bool :=
  match r with Ok _ => true | Err _ => false end.

(** [M S E A]: a method on a state [S]. *)
Definition M (S E A : Type) : Type := S -> result A E * S.

Definition mret {S E A} (a : A) : M S E A := fun s => (Ok a, s).
Definition mfail {S E A} (e : E) : M S E A := fun s => (Err e, s).

Definition mbind {S E A B} (m : M S E A) (f : A -> M S E B) : M S E B :=
  fun s => match m s with
           | (Ok a, s') => f a s'
           | (Err e, s') => (Err e, s')
           end.

(** [m.ok()], or [match m { Ok .. Err .. }]: the error becomes a value. *)
Definition mtry {S E A} (m : M S E A) : M S E (result A E) :=
  fun s => let '(r, s') := m s in (Ok r, s').

Declare Scope rust_scope.
Delimit Scope rust_scope with rust.
Notation "'let?' x := m 'in' k" := (mbind m (fun x => k))
  (at level 200, x pattern, m at level 100, k at level 200,
   format "'[v' 'let?'  x  :=  m  'in' '/' k ']'") : rust_scope.
Open Scope rust_scope.

(** [for x in xs { body }] with early return through [?]. *)
Fixpoint mfor {S E A} (xs : list A) (body : A -> M S E unit) : M S E unit :=
  match xs with
  | [] => mret tt
  | x :: xs' => let? _ := body x in mfor xs' body
  end.

(** [for x in xs { ... acc = ... }]: a loop that threads an accumulator. *)
Fixpoint mfold {S E A B} (body : B -> A -> M S E B) (xs : list A) (b : B) : M S E B :=
  match xs with
  | [] => mret b
  | x :: xs' => let? b' := body b x in mfold body xs' b'
  end.

(** ** Machine integers *)

Definition i64_min : Z := - 2 ^ 63.
Definition i64_max : Z := 2 ^ 63 - 1.
Definition u64_max : Z := 2 ^ 64 - 1.

Definition in_i64 (z : Z) : Prop := i64_min <= z <= i64_max.
Definition in_u64 (z : Z) : Prop := 0 <= z <= u64_max.

(** [as u16], [as u32], [as u64]: truncation to the low bits. *)
Definition as_u16 (z : Z) : Z := z mod 2 ^ 16.
Definition as_u32 (z : Z) : Z := z mod 2 ^ 32.
Definition as_u64 (z : Z) : Z := z mod 2 ^ 64.
(** [as i64], and the release-profile (wrapping) result of [+] on [i64]. *)
Definition as_i64 (z : Z) : Z := (z + 2 ^ 63) mod 2 ^ 64 - 2 ^ 63.
Definition i64_add (a b : Z) : Z := as_i64 (a + b).
(** The release-profile result of [+] on [u64]. *)
Definition u64_add (a b : Z) : Z := as_u64 (a + b).
Definition u64_saturating_mul (a b : Z) : Z := Z.min u64_max (a * b).
Definition i64_saturating_add (a b : Z) : Z := Z.max i64_min (Z.min i64_max (a + b)).
Definition i64_saturating_mul (a b : Z) : Z := Z.max i64_min (Z.min i64_max (a * b)).
Definition i64_saturating_sub (a b : Z) : Z := Z.max i64_min (Z.min i64_max (a - b)).

Lemma as_i64_id z : in_i64 z -> as_i64 z = z.
Proof.
  unfold in_i64, as_i64, i64_min, i64_max; intros H.
  rewrite Z.mod_small; lia.
Qed.

Lemma as_i64_range z : in_i64 (as_i64 z).
Proof.
  unfold in_i64, as_i64, i64_min, i64_max.
  pose proof (Z.mod_pos_bound (z + 2 ^ 63) (2 ^ 64)). lia.
Qed.

Lemma i64_add_id a b : in_i64 (a + b) -> i64_add a b = a + b.
Proof. apply as_i64_id. Qed.

Lemma as_u16_id z : 0 <= z < 2 ^ 16 -> as_u16 z = z.
Proof. apply Z.mod_small. Qed.
Lemma as_u32_id z : 0 <= z < 2 ^ 32 -> as_u32 z = z.
Proof. apply Z.mod_small. Qed.
Lemma as_u64_id z : 0 <= z < 2 ^ 64 -> as_u64 z = z.
Proof. apply Z.mod_small. Qed.

(** ** Automation *)

Create HintDb rust.
#[export] Hint Resolve as_i64_id as_i64_range i64_add_id : rust.

(** Unfolds the monad and reduces. *)
Ltac mstep := unfold mbind, mret, mfail, mtry in *; simpl in *.

(** Case analysis on the discriminee of a match in the goal or a hypothesis. *)
Ltac case_match_eqn :=
  match goal with
  | |- context [match ?x with _ => _ end] => destruct x eqn:?
  | H : context [match ?x with _ => _ end] |- _ => destruct x eqn:?
  end.

(** Turns boolean comparisons of [Z], [nat] and [string] into propositions. *)
Ltac bool_prop :=
  repeat match goal with
  | H : (_ && _)%bool = true |- _ => apply andb_true_iff in H; destruct H
  | H : (_ || _)%bool = false |- _ => apply orb_false_iff in H; destruct H
  | H : negb _ = true |- _ => apply negb_true_iff in H
  | H : negb _ = false |- _ => apply negb_false_iff in H
  | H : Z.eqb _ _ = true |- _ => apply Z.eqb_eq in H
  | H : Z.eqb _ _ = false |- _ => apply Z.eqb_neq in H
  | H : Z.ltb _ _ = true |- _ => apply Z.ltb_lt in H
  | H : Z.ltb _ _ = false |- _ => apply Z.ltb_ge in H
  | H : Z.leb _ _ = true |- _ => apply Z.leb_le in H
  | H : Z.leb _ _ = false |- _ => apply Z.leb_gt in H
  | H : String.eqb _ _ = true |- _ => apply String.eqb_eq in H
  | H : String.eqb _ _ = false |- _ => apply String.eqb_neq in H
  | H : bool_decide _ = true |- _ => apply bool_decide_eq_true in H
  | H : bool_decide _ = false |- _ => apply bool_decide_eq_false in H
  end.

(** ** Generic lemmas *)

Lemma mbind_assoc {S E A B C} (m : M S E A) (f : A -> M S E B) (g : B -> M S E C) s :
  mbind (mbind m f) g s = mbind m (fun a => mbind (f a) g) s.
Proof. unfold mbind. by destruct (m s) as [[a|e] s']. Qed.

Lemma mbind_ext {S E A B} (m : M S E A) (f g : A -> M S E B) s :
  (forall a s', f a s' = g a s') -> mbind m f s = mbind m g s.
Proof. intros Hf. unfold mbind. destruct (m s) as [[a|e] s']; [apply Hf|done]. Qed.

Lemma mfor_app {S E A} (xs ys : list A) (body : A -> M S E unit) s :
  mfor (xs ++ ys) body s = (let? _ := mfor xs body in mfor ys body) s.
Proof.
  revert s; induction xs as [|x xs IH]; intros s; simpl; [reflexivity|].
  unfold mbind at 1 2 3. destruct (body x s) as [[?|?] s']; [|reflexivity].
  rewrite IH. reflexivity.
Qed.

Lemma mfold_app {S E A B} (body : B -> A -> M S E B) (xs ys : list A) b s :
  mfold body (xs ++ ys) b s = (let? b' := mfold body xs b in mfold body ys b') s.
Proof.
  revert b s; induction xs as [|x xs IH]; intros b s; simpl; [reflexivity|].
  unfold mbind at 1 2 3. destruct (body b x s) as [[?|?] s']; [|reflexivity].
  rewrite IH. reflexivity.
Qed.

(** An invariant of the body is an invariant of the loop, whether the loop ends
    or is left by an error. *)
Lemma mfor_inv {S E A} (P : S -> Prop) (xs : list A) (body : A -> M S E unit) s :
  (forall x s, In x xs -> P s -> P (snd (body x s))) ->
  P s -> P (snd (mfor xs body s)).
Proof.
  revert s; induction xs as [|x xs IH]; intros s Hb Hs; simpl; [exact Hs|].
  unfold mbind. pose proof (Hb x s (or_introl eq_refl) Hs) as H1.
  destruct (body x s) as [[?|?] s']; [|exact H1].
  apply IH; [|exact H1]. intros y s0 Hy; apply Hb; right; exact Hy.
Qed.

Lemma mfold_inv {S E A B} (P : S -> Prop) (body : B -> A -> M S E B) (xs : list A) b s :
  (forall b x s, In x xs -> P s -> P (snd (body b x s))) ->
  P s -> P (snd (mfold body xs b s)).
Proof.
  revert b s; induction xs as [|x xs IH]; intros b s Hb Hs; simpl; [exact Hs|].
  unfold mbind. pose proof (Hb b x s (or_introl eq_refl) Hs) as H1.
  destruct (body b x s) as [[?|?] s']; [|exact H1].
  apply IH; [|exact H1]. intros b0 y s0 Hy; apply Hb; right; exact Hy.
Qed.

(** ** Weakest preconditions of methods *)

Definition wp {S E A} (m : M S E A) (s : S) (Q : result A E -> S -> Prop) : Prop :=
  Q (fst (m s)) (snd (m s)).

Lemma wp_ret {S E A} (a : A) (s : S) (Q : result A E -> S -> Prop) : Q (Ok a) s -> wp (mret a) s Q.
Proof. done. Qed.

Lemma wp_fail {S E A} (e : E) (s : S) (Q : result A E -> S -> Prop) : Q (Err e) s -> wp (mfail e) s Q.
Proof. done. Qed.

Lemma wp_bind {S E A B} (m : M S E A) (f : A -> M S E B) s (Q : result B E -> S -> Prop) :
  wp m s (fun r s' => match r with Ok a => wp (f a) s' Q | Err e => Q (Err e) s' end) ->
  wp (mbind m f) s Q.
Proof. unfold wp, mbind. by destruct (m s) as [[a|e] s']. Qed.

Lemma wp_try {S E A} (m : M S E A) s (Q : result (result A E) E -> S -> Prop) :
  wp m s (fun r s' => Q (Ok r) s') -> wp (mtry m) s Q.
Proof. unfold wp, mtry. by destruct (m s). Qed.

Lemma wp_mono {S E A} (m : M S E A) s (Q Q' : result A E -> S -> Prop) :
  (forall r s', Q r s' -> Q' r s') -> wp m s Q -> wp m s Q'.
Proof. unfold wp. auto. Qed.

Lemma wp_run {S E A} (m : M S E A) s (Q : result A E -> S -> Prop) r s' :
  wp m s Q -> m s = (r, s') -> Q r s'.
Proof. unfold wp. intros H Heq. by rewrite Heq in H. Qed.

(** A loop: [I] holds of the elements done, the accumulator and the state before
    each turn; an error leaves the loop. *)
Lemma wp_fold {S E A B} (body : B -> A -> M S E B) (I : list A -> B -> S -> Prop)
    (Q : result B E -> S -> Prop) xs b s :
  I [] b s ->
  (forall pre x post b s, xs = pre ++ x :: post -> I pre b s ->
     wp (body b x) s (fun r s' => match r with Ok b' => I (pre ++ [x]) b' s' | Err e => Q (Err e) s' end)) ->
  (forall b s, I xs b s -> Q (Ok b) s) ->
  wp (mfold body xs b) s Q.
Proof.
  intros H0 Hstep Hend.
  assert (forall pre post b s, xs = pre ++ post -> I pre b s -> wp (mfold body post b) s Q) as Hgen.
  { intros pre post; revert pre; induction post as [|x post IH]; intros pre b0 s0 Hxs Hi; simpl.
    - apply wp_ret, Hend. by rewrite Hxs, app_nil_r.
    - apply wp_bind. eapply wp_mono; [|by apply (Hstep pre x post)].
      intros [b'|e] s' Hr; [|done]. apply (IH (pre ++ [x])); [by rewrite <- app_assoc|done]. }
  by apply (Hgen []).
Qed.
