(* ===== verification/RustStr.v ===== *)
(** * Rust strings

    A Rust [String], [&str] or [Vec<u8>] of the control plane is the sequence
    of its bytes, a Stdlib [string]; [as_bytes] is the identity.  The file holds
    the [str] methods the sources use (prefixes, suffixes, splitting, decimal
    printing and parsing, [String::from_utf8_lossy]) and their lemmas. *)

From Stdlib Require Import ZArith Lia Bool List String Ascii.
From stdpp Require Import base tactics list strings.
From S2P Require Import Prelude.

Open Scope Z_scope.

#[global] Arguments String.append : simpl nomatch.

Notation "a ++s b" := (String.append a b) (right associativity, at level 60) : rust_scope.

Lemma app_nil_s s : s ++s "" = s.
Proof. induction s; simpl; congruence. Qed.
Lemma app_assoc_s a b c : (a ++s b) ++s c = a ++s (b ++s c).
Proof. induction a; simpl; congruence. Qed.
Lemma app_inv_head_s a b c : a ++s b = a ++s c -> b = c.
Proof. induction a; simpl; [done|]. intros [= H]; auto. Qed.
Lemma app_length_s a b : String.length (a ++s b) = (String.length a + String.length b)%nat.
Proof. induction a; simpl; lia. Qed.
Lemma app_inv_tail_s a b c : a ++s c = b ++s c -> a = b.
Proof.
  revert b; induction a as [|x a IH]; intros [|y b] H; simpl in *; [done| | |].
  - exfalso. apply (f_equal String.length) in H. simpl in H.
    rewrite app_length_s in H. lia.
  - exfalso. apply (f_equal String.length) in H. simpl in H.
    rewrite app_length_s in H. lia.
  - injection H as -> H. f_equal. apply IH, H.
Qed.

(** ** Bytes *)

Definition byte_val (c : ascii) : Z := Z.of_N (N_of_ascii c).
Definition byte_of (z : Z) : ascii := ascii_of_N (Z.to_N (z mod 256)).

Lemma byte_val_range c : 0 <= byte_val c < 256.
Proof. unfold byte_val. pose proof (N_ascii_bounded c). lia. Qed.
Lemma byte_val_of z : 0 <= z < 256 -> byte_val (byte_of z) = z.
Proof.
  intros H. unfold byte_val, byte_of. rewrite Z.mod_small by lia.
  rewrite N_ascii_embedding by lia. lia.
Qed.
Lemma byte_of_val c : byte_of (byte_val c) = c.
Proof.
  unfold byte_of. rewrite Z.mod_small by apply byte_val_range.
  unfold byte_val. rewrite N2Z.id. apply ascii_N_embedding.
Qed.
Lemma byte_val_inj c d : byte_val c = byte_val d -> c = d.
Proof. intros H. rewrite <- (byte_of_val c), <- (byte_of_val d). congruence. Qed.

(** ** Prefixes and suffixes *)

(** [s.strip_prefix(p)] *)
Fixpoint strip_prefix (p s : string) : option string :=
  match p, s with
  | EmptyString, _ => Some s
  | String a p', String b s' => if Ascii.eqb a b then strip_prefix p' s' else None
  | String _ _, EmptyString => None
  end.

(** [s.starts_with(p)] *)
Definition starts_with (p s : string) : bool :=
  match strip_prefix p s with Some _ => true | None => false end.

(** [s.strip_suffix(x)] *)
Fixpoint strip_suffix (x s : string) : option string :=
  if String.eqb s x then Some ""%string else
  match s with
  | EmptyString => None
  | String c s' => option_map (String c) (strip_suffix x s')
  end.

(** [s.ends_with(x)] *)
Definition ends_with (x s : string) : bool :=
  match strip_suffix x s with Some _ => true | None => false end.

Lemma strip_prefix_app p r : strip_prefix p (p ++s r) = Some r.
Proof. induction p; simpl; [done|]. rewrite Ascii.eqb_refl. done. Qed.

Lemma strip_prefix_some p s r : strip_prefix p s = Some r <-> s = p ++s r.
Proof.
  split; [|intros ->; apply strip_prefix_app].
  revert s; induction p as [|a p IH]; intros s; simpl; [congruence|].
  destruct s as [|b s]; [done|].
  destruct (Ascii.eqb_spec a b) as [->|]; [|done].
  intros H. rewrite (IH _ H). done.
Qed.

Lemma starts_with_true p s : starts_with p s = true <-> exists r, s = p ++s r.
Proof.
  unfold starts_with. destruct (strip_prefix p s) as [r|] eqn:E.
  - split; [intros _|done]. exists r. by apply strip_prefix_some.
  - split; [done|]. intros [r ->]. rewrite strip_prefix_app in E. done.
Qed.

Lemma starts_with_app p r : starts_with p (p ++s r) = true.
Proof. apply starts_with_true. eauto. Qed.

Lemma starts_with_nil s : starts_with "" s = true.
Proof. done. Qed.

Lemma strip_suffix_some x s r : strip_suffix x s = Some r <-> s = r ++s x.
Proof.
  split.
  - revert r; induction s as [|c s IH]; intros r; cbn [strip_suffix];
      case (String.eqb_spec _ x); intros Heq.
    + intros [= <-]. done.
    + done.
    + intros [= <-]. exact Heq.
    + destruct (strip_suffix x s) as [r'|]; [|done]. intros [= <-].
      simpl. f_equal. by apply IH.
  - revert s; induction r as [|c r IH]; intros s Hs; subst s.
    + destruct x; cbn; [done|]. rewrite Ascii.eqb_refl, String.eqb_refl. done.
    + cbn [String.append strip_suffix]. destruct (String.eqb_spec (String c (r ++s x)) x) as [Heq|Hne].
      * exfalso. apply (f_equal String.length) in Heq. simpl in Heq.
        rewrite app_length_s in Heq. lia.
      * rewrite (IH (r ++s x) eq_refl). done.
Qed.

Lemma strip_suffix_app x r : strip_suffix x (r ++s x) = Some r.
Proof. by apply strip_suffix_some. Qed.

(** ** Characters and splitting *)

(** [s.contains(c)] *)
Fixpoint contains_char (c : ascii) (s : string) : bool :=
  match s with
  | EmptyString => false
  | String d s' => Ascii.eqb c d || contains_char c s'
  end.

(** [s.split_once(c)]: at the first occurrence. *)
Fixpoint split_once (c : ascii) (s : string) : option (string * string) :=
  match s with
  | EmptyString => None
  | String d s' =>
      if Ascii.eqb d c then Some (""%string, s')
      else match split_once c s' with
           | Some (a, b) => Some (String d a, b)
           | None => None
           end
  end.

(** [s.split(c)]: always at least one piece. *)
Fixpoint split (c : ascii) (s : string) : list string :=
  match s with
  | EmptyString => [""%string]
  | String d s' =>
      if Ascii.eqb d c then ""%string :: split c s'
      else match split c s' with
           | p :: ps => String d p :: ps
           | [] => [String d ""]
           end
  end.

(** [pieces.join(sep)] for a one-character separator. *)
Fixpoint join (c : ascii) (ps : list string) : string :=
  match ps with
  | [] => ""
  | [p] => p
  | p :: ps' => p ++s String c (join c ps')
  end.

Lemma contains_char_app c a b :
  contains_char c (a ++s b) = contains_char c a || contains_char c b.
Proof. induction a; simpl; [done|]. rewrite IHa. by rewrite orb_assoc. Qed.

Lemma split_nonempty c s : split c s <> [].
Proof. destruct s; simpl; [done|]. repeat case_match; done. Qed.

Lemma split_no_sep c s : contains_char c s = false -> split c s = [s].
Proof.
  induction s as [|d s IH]; simpl; [done|]. intros H.
  apply orb_false_iff in H as [H1 H2]. rewrite Ascii.eqb_sym, H1, (IH H2). done.
Qed.

Lemma split_sep_app c a b :
  contains_char c a = false -> split c (a ++s String c b) = a :: split c b.
Proof.
  induction a as [|d a IH]; simpl; intros H; [by rewrite Ascii.eqb_refl|].
  apply orb_false_iff in H as [H1 H2]. rewrite Ascii.eqb_sym, H1, (IH H2). done.
Qed.

(** [split] inverts [join] on pieces free of the separator. *)
Lemma split_join c ps :
  ps <> [] -> Forall (fun p => contains_char c p = false) ps -> split c (join c ps) = ps.
Proof.
  induction ps as [|p ps IH]; intros Hne HF; [done|].
  inversion HF as [|? ? Hp Hps]; subst. destruct ps as [|q ps].
  - simpl. by apply split_no_sep.
  - cbn [join]. rewrite split_sep_app by done. f_equal. apply IH; done.
Qed.

Lemma join_split c s : join c (split c s) = s.
Proof.
  induction s as [|d s IH]; [done|]. cbn [split].
  destruct (Ascii.eqb_spec d c) as [->|Hn].
  - destruct (split c s) eqn:E; [by apply split_nonempty in E|].
    cbn [join]. cbn [join] in IH. rewrite IH. done.
  - destruct (split c s) as [|p ps] eqn:E; [by apply split_nonempty in E|].
    destruct ps; cbn [join] in *; rewrite <- IH; done.
Qed.

Lemma split_once_some c s a b :
  split_once c s = Some (a, b) <-> s = a ++s String c b /\ contains_char c a = false.
Proof.
  split.
  - revert a b; induction s as [|d s IH]; intros a b; simpl; [done|].
    destruct (Ascii.eqb_spec d c) as [->|Hn]; [by intros [= <- <-]|].
    destruct (split_once c s) as [[a' b']|]; [|done]. intros [= <- <-].
    destruct (IH a' b' eq_refl) as [-> Ha]. split; [done|]. simpl.
    rewrite Ha. destruct (Ascii.eqb_spec c d); [congruence|done].
  - intros [-> Ha]. induction a as [|d a IH]; simpl in *; [by rewrite Ascii.eqb_refl|].
    apply orb_false_iff in Ha as [H1 H2]. rewrite Ascii.eqb_sym, H1, (IH H2). done.
Qed.

(** ** Decimal numbers *)

Definition digit_char (d : Z) : ascii := byte_of (48 + d).
Definition digit_val (c : ascii) : option Z :=
  let v := byte_val c in
  if (48 <=? v) && (v <=? 57) then Some (v - 48) else None.

Fixpoint dec_digits (fuel : nat) (n : Z) (acc : string) : string :=
  match fuel with
  | O => acc
  | S f => let acc' := String (digit_char (n mod 10)) acc in
           if n <? 10 then acc' else dec_digits f (n / 10) acc'
  end.

(** [n.to_string()] / [format!("{n}")] on an integer.  The fuel is the bit
    length plus one, which bounds the number of decimal digits. *)
Definition dec (n : Z) : string :=
  if n <? 0 then String "-" (dec_digits (S (Z.to_nat (Z.log2 (- n)))) (- n) "")
  else dec_digits (S (Z.to_nat (Z.log2 n))) n "".

Fixpoint parse_digits (s : string) (acc : Z) : option Z :=
  match s with
  | EmptyString => Some acc
  | String c s' => match digit_val c with
                   | Some d => parse_digits s' (10 * acc + d)
                   | None => None
                   end
  end.

(** [s.parse::<uN>()] with maximum [max]: an optional plus sign, at least one
    digit, no overflow. *)
Definition parse_uint (max : Z) (s : string) : option Z :=
  let body := match s with
              | String c r => if Ascii.eqb c "+" then r else s
              | EmptyString => s
              end in
  match body with
  | EmptyString => None
  | _ => match parse_digits body 0 with
         | Some v => if v <=? max then Some v else None
         | None => None
         end
  end.

(** [s.parse::<i64>()]. *)
Definition parse_i64 (s : string) : option Z :=
  match s with
  | String c (String _ _ as r) =>
      if Ascii.eqb c "-" then
        match parse_digits r 0 with
        | Some v => if - v <? i64_min then None else Some (- v)
        | None => None
        end
      else parse_uint i64_max s
  | _ => parse_uint i64_max s
  end.

Lemma digit_val_char d : 0 <= d < 10 -> digit_val (digit_char d) = Some d.
Proof.
  intros H. unfold digit_val, digit_char. rewrite byte_val_of by lia.
  destruct (48 <=? 48 + d) eqn:E1; destruct (48 + d <=? 57) eqn:E2; bool_prop; try lia.
  simpl. f_equal. lia.
Qed.

Lemma parse_dec_digits fuel n acc :
  0 <= n < 2 ^ Z.of_nat fuel ->
  parse_digits (dec_digits fuel n acc) 0 = parse_digits acc n.
Proof.
  revert n acc; induction fuel as [|f IH]; intros n acc Hn.
  - simpl in *. assert (n = 0) by lia. subst. done.
  - cbn [dec_digits]. rewrite Nat2Z.inj_succ, Z.pow_succ_r in Hn by lia.
    pose proof (Z.mod_pos_bound n 10 ltac:(lia)).
    pose proof (Z.div_mod n 10 ltac:(lia)).
    destruct (n <? 10) eqn:E; bool_prop.
    + cbn [parse_digits]. rewrite digit_val_char by lia. f_equal. 
      rewrite Z.mod_small by lia. lia.
    + rewrite IH by lia. cbn [parse_digits]. rewrite digit_val_char by lia. f_equal. lia.
Qed.

Lemma dec_digits_nonempty fuel n acc :
  exists c s, dec_digits (S fuel) n acc = String c s /\ (0 <= n -> digit_val c <> None).
Proof.
  revert n acc; induction fuel as [|f IH]; intros n acc.
  - cbn [dec_digits]. pose proof (Z.mod_pos_bound n 10 ltac:(lia)).
    destruct (n <? 10); eexists _, _; (split; [reflexivity|]); intros _;
      rewrite digit_val_char by lia; done.
  - change (dec_digits (S (S f)) n acc) with
      (let acc' := String (digit_char (n mod 10)) acc in
           if n <? 10 then acc' else dec_digits (S f) (n / 10) acc').
    cbv zeta. pose proof (Z.mod_pos_bound n 10 ltac:(lia)). destruct (n <? 10).
    + eexists _, _; (split; [reflexivity|]). intros _. rewrite digit_val_char by lia; done.
    + destruct (IH (n / 10) (String (digit_char (n mod 10)) acc)) as (c & s & -> & Hc).
      eexists _, _; split; [done|]. intros Hn. apply Hc. apply Z.div_pos; lia.
Qed.

Lemma log2_fuel n : 0 <= n -> 0 <= n < 2 ^ Z.of_nat (S (Z.to_nat (Z.log2 n))).
Proof.
  intros Hn. pose proof (Z.log2_nonneg n). split; [done|].
  rewrite Nat2Z.inj_succ, Z2Nat.id by lia. destruct (Z.eq_dec n 0) as [->|].
  - simpl. lia.
  - apply Z.log2_spec. lia.
Qed.

(** Printing and parsing an unsigned integer round trips. *)
Lemma parse_uint_dec max n : 0 <= n <= max -> parse_uint max (dec n) = Some n.
Proof.
  intros Hn. unfold dec. destruct (n <? 0) eqn:E; bool_prop; [lia|].
  destruct (dec_digits_nonempty (Z.to_nat (Z.log2 n)) n "") as (c & s & Heq & Hc).
  pose proof (parse_dec_digits _ n "" (log2_fuel n ltac:(lia))) as Hp.
  rewrite Heq in *. unfold parse_uint.
  destruct (Ascii.eqb_spec c "+") as [->|]; [exfalso; apply Hc; [lia|reflexivity]|].
  rewrite Hp. simpl. destruct (n <=? max) eqn:E2; bool_prop; [done|lia].
Qed.

Lemma parse_i64_dec n : in_i64 n -> parse_i64 (dec n) = Some n.
Proof.
  intros [H1 H2]. destruct (Z.ltb_spec n 0) as [Hn|Hn].
  - unfold dec. rewrite (proj2 (Z.ltb_lt _ _) Hn).
    destruct (dec_digits_nonempty (Z.to_nat (Z.log2 (- n))) (- n) "") as (c & s & Heq & Hc).
    pose proof (parse_dec_digits _ (- n) "" (log2_fuel (- n) ltac:(lia))) as Hp.
    rewrite Heq in *. unfold parse_i64. rewrite Ascii.eqb_refl, Hp. simpl.
    rewrite Z.opp_involutive. destruct (n <? i64_min) eqn:E; bool_prop; [lia|done].
  - pose proof (parse_uint_dec i64_max n ltac:(lia)) as Hp.
    unfold dec in *. rewrite (proj2 (Z.ltb_ge _ _) Hn) in *.
    destruct (dec_digits_nonempty (Z.to_nat (Z.log2 n)) n "") as (c & s & Heq & Hc).
    rewrite Heq in *. unfold parse_i64.
    destruct (Ascii.eqb_spec c "-") as [->|].
    + exfalso. apply Hc; [lia|reflexivity].
    + destruct s; exact Hp.
Qed.

Lemma dec_inj a b : 0 <= a -> 0 <= b -> dec a = dec b -> a = b.
Proof.
  intros Ha Hb H. pose proof (parse_uint_dec (Z.max a b) a ltac:(lia)) as H1.
  rewrite H, parse_uint_dec in H1 by lia. congruence.
Qed.

(** The decimal digits contain no character that is not a digit. *)
Lemma dec_digits_no_char c fuel n acc :
  0 <= n -> digit_val c = None -> contains_char c acc = false ->
  contains_char c (dec_digits fuel n acc) = false.
Proof.
  intros Hn Hc. revert n acc Hn; induction fuel as [|f IH]; intros n acc Hn Hacc; [done|].
  cbn [dec_digits]. pose proof (Z.mod_pos_bound n 10 ltac:(lia)).
  assert (contains_char c (String (digit_char (n mod 10)) acc) = false) as Hx.
  { cbn [contains_char]. rewrite Hacc, orb_false_r.
    destruct (Ascii.eqb_spec c (digit_char (n mod 10))) as [->|]; [|done].
    rewrite digit_val_char in Hc by lia. done. }
  destruct (n <? 10); [done|]. apply IH; [apply Z.div_pos; lia|done].
Qed.

Lemma dec_no_char c n : 0 <= n -> digit_val c = None -> contains_char c (dec n) = false.
Proof.
  intros Hn Hc. unfold dec. destruct (n <? 0) eqn:E; bool_prop; [lia|].
  by apply dec_digits_no_char.
Qed.
