(* ===== verification/Utf8.v ===== *)
(** * UTF-8: [String::from_utf8_lossy] and byte order

    [String::from_utf8_lossy] copies well-formed sequences and replaces each
    maximal ill-formed subpart by U+FFFD.  The decoder is a two-state machine
    over bytes: between characters, or inside one with the admissible range of
    the next byte.  The file also holds the byte-lexicographic facts about keys
    that share a prefix, which the prefix range scans rely on. *)

From Stdlib Require Import ZArith Lia Bool List String Ascii.
From stdpp Require Import base tactics list strings.
From S2P Require Import Prelude RustStr.

Open Scope Z_scope.

(** ** The decoder *)

(** [InChar acc lo hi more]: the bytes [acc] of a character have been read, the
    next one must be in [lo..hi], and [more] continuation bytes follow it. *)
Inductive ustate : Type :=
| Between
| InChar (acc : string) (lo hi : Z) (more : nat).

Definition replacement : string :=
  String (byte_of 239) (String (byte_of 191) (String (byte_of 189) "")).

Definition snoc (s : string) (c : ascii) : string := s ++s String c "".

(** A byte between characters: the output it causes and the next state. *)
Definition ustart (c : ascii) : string * ustate :=
  let b := byte_val c in
  let acc := String c "" in
  if b <? 128 then (acc, Between)
  else if b <? 194 then (replacement, Between)
  else if b <? 224 then (""%string, InChar acc 128 191 0)
  else if b =? 224 then (""%string, InChar acc 160 191 1)
  else if b =? 237 then (""%string, InChar acc 128 159 1)
  else if b <? 240 then (""%string, InChar acc 128 191 1)
  else if b =? 240 then (""%string, InChar acc 144 191 2)
  else if b <? 244 then (""%string, InChar acc 128 191 2)
  else if b =? 244 then (""%string, InChar acc 128 143 2)
  else (replacement, Between).

Definition ustep (st : ustate) (c : ascii) : string * ustate :=
  match st with
  | Between => ustart c
  | InChar acc lo hi more =>
      if (lo <=? byte_val c) && (byte_val c <=? hi) then
        match more with
        | O => (snoc acc c, Between)
        | S m => (""%string, InChar (snoc acc c) 128 191 m)
        end
      else let '(o, st') := ustart c in (replacement ++s o, st')
  end.

Fixpoint urun (st : ustate) (s : string) : string * ustate :=
  match s with
  | EmptyString => (""%string, st)
  | String c s' =>
      let '(o, st') := ustep st c in
      let '(o', st'') := urun st' s' in
      (o ++s o', st'')
  end.

(** The end of input inside a character is one more replacement. *)
Definition uflush (st : ustate) : string :=
  match st with Between => "" | InChar _ _ _ _ => replacement end.

Definition from_utf8_lossy (s : string) : string :=
  let '(o, st) := urun Between s in o ++s uflush st.

(** [std::str::from_utf8(s).is_ok()]: the decoder ends between characters and has
    copied every byte. *)
Definition valid_utf8 (s : string) : bool :=
  match urun Between s with
  | (o, Between) => String.eqb o s
  | _ => false
  end.

Definition is_ascii (s : string) : bool :=
  forallb (fun c => byte_val c <? 128) (list_ascii_of_string s).

Lemma valid_utf8_urun s : valid_utf8 s = true <-> urun Between s = (s, Between).
Proof.
  unfold valid_utf8. split.
  - destruct (urun Between s) as [o [|]]; [|done]. intros H; bool_prop; congruence.
  - intros ->. apply String.eqb_refl.
Qed.

(** Well-formed text passes through unchanged. *)
Lemma from_utf8_lossy_valid s : valid_utf8 s = true -> from_utf8_lossy s = s.
Proof.
  intros H%valid_utf8_urun. unfold from_utf8_lossy. rewrite H. apply app_nil_s.
Qed.

Lemma urun_app st a b :
  urun st (a ++s b) =
    (let '(o, st1) := urun st a in let '(o', st2) := urun st1 b in (o ++s o', st2)).
Proof.
  revert st; induction a as [|c a IH]; intros st; cbn [String.append urun].
  - destruct (urun st b). done.
  - destruct (ustep st c) as [o st']. rewrite IH.
    destruct (urun st' a) as [o1 st1], (urun st1 b) as [o2 st2].
    by rewrite app_assoc_s.
Qed.

Lemma ustart_ascii c : byte_val c < 128 -> ustart c = (String c "", Between).
Proof. intros H. unfold ustart. by rewrite (proj2 (Z.ltb_lt _ _) H). Qed.

Lemma is_ascii_urun s : is_ascii s = true -> urun Between s = (s, Between).
Proof.
  unfold is_ascii. induction s as [|c s IH]; [done|]. simpl. intros H.
  bool_prop. rewrite ustart_ascii by done. rewrite IH by done. done.
Qed.

Lemma is_ascii_valid s : is_ascii s = true -> valid_utf8 s = true.
Proof. intros H. apply valid_utf8_urun. by apply is_ascii_urun. Qed.

Lemma is_ascii_app a b : is_ascii (a ++s b) = is_ascii a && is_ascii b.
Proof.
  unfold is_ascii. induction a as [|c a IH]; simpl; [done|]. rewrite IH. by rewrite andb_assoc.
Qed.

Lemma valid_utf8_app a b :
  valid_utf8 a = true -> valid_utf8 b = true -> valid_utf8 (a ++s b) = true.
Proof.
  rewrite !valid_utf8_urun. intros Ha Hb. rewrite urun_app, Ha, Hb. done.
Qed.

(** ** Byte order

    SQLite's BINARY collation and Rust's [Ord for str] compare bytes
    lexicographically, which is [String.compare]. *)

Definition str_le (a b : string) : bool := String.leb a b.
Definition str_lt (a b : string) : bool := String.ltb a b.

Lemma ascii_compare_val a b : Ascii.compare a b = Z.compare (byte_val a) (byte_val b).
Proof. unfold Ascii.compare, byte_val. by rewrite N2Z.inj_compare. Qed.

Lemma str_le_nil s : str_le "" s = true.
Proof. by destruct s. Qed.

Lemma str_le_cons a s b t :
  str_le (String a s) (String b t) =
    (byte_val a <? byte_val b) || ((byte_val a =? byte_val b) && str_le s t).
Proof.
  unfold str_le, String.leb. cbn [String.compare]. rewrite ascii_compare_val.
  unfold Z.ltb. destruct (Z.compare_spec (byte_val a) (byte_val b)) as [H|H|H].
  - rewrite H. by rewrite Z.eqb_refl.
  - done.
  - rewrite (proj2 (Z.eqb_neq _ _)) by lia. done.
Qed.

Lemma str_lt_cons a s b t :
  str_lt (String a s) (String b t) =
    (byte_val a <? byte_val b) || ((byte_val a =? byte_val b) && str_lt s t).
Proof.
  unfold str_lt, String.ltb. cbn [String.compare]. rewrite ascii_compare_val.
  unfold Z.ltb. destruct (Z.compare_spec (byte_val a) (byte_val b)) as [H|H|H].
  - rewrite H. by rewrite Z.eqb_refl.
  - done.
  - rewrite (proj2 (Z.eqb_neq _ _)) by lia. done.
Qed.

(** The keys between [q c] and [q (c+1)] are those that start with [q c]. *)
Lemma prefix_between q c d k :
  byte_val d = byte_val c + 1 ->
  str_le (snoc q c) k && str_lt k (snoc q d) = starts_with (snoc q c) k.
Proof.
  intros Hd. unfold snoc, starts_with. revert k; induction q as [|a q IH]; intros [|b k];
    cbn [String.append strip_prefix]; try done.
  - rewrite str_le_cons, str_lt_cons, Hd, str_le_nil.
    destruct (Ascii.eqb_spec c b) as [->|Hn].
    + rewrite Z.eqb_refl. destruct (Z.ltb_spec (byte_val b) (byte_val b + 1)); [|lia].
      by rewrite orb_true_r.
    + assert (byte_val c <> byte_val b) by (intros ?%byte_val_inj; done).
      replace (str_lt k "") with false by (by destruct k).
      rewrite !andb_false_r, orb_false_r, andb_true_r.
      destruct (Z.ltb_spec (byte_val c) (byte_val b)), (Z.eqb_spec (byte_val c) (byte_val b)),
        (Z.ltb_spec (byte_val b) (byte_val c + 1)); try lia; done.
  - rewrite str_le_cons, str_lt_cons. destruct (Ascii.eqb_spec a b) as [->|Hn].
    + rewrite Z.eqb_refl, Z.ltb_irrefl. apply IH.
    + assert (byte_val a <> byte_val b) by (intros ?%byte_val_inj; done).
      rewrite (proj2 (Z.eqb_neq (byte_val a) _)), (proj2 (Z.eqb_neq (byte_val b) _)) by lia.
      rewrite !andb_false_l, !orb_false_r.
      destruct (Z.ltb_spec (byte_val a) (byte_val b)), (Z.ltb_spec (byte_val b) (byte_val a));
        try lia; done.
Qed.

Lemma str_lt_irrefl a : str_lt a a = false.
Proof.
  induction a as [|c a IH]; [done|]. rewrite str_lt_cons, IH, Z.ltb_irrefl, Z.eqb_refl. done.
Qed.

Lemma str_lt_compare a b : str_lt a b = true <-> (a ?= b)%string = Lt.
Proof. unfold str_lt, String.ltb. by destruct (a ?= b)%string. Qed.

Lemma str_lt_trans a b c : str_lt a b = true -> str_lt b c = true -> str_lt a c = true.
Proof.
  rewrite !str_lt_compare. revert b c; induction a as [|x a IH]; intros [|y b] [|z c]; cbn [String.compare]; try done.
  unfold Ascii.compare. destruct (N.compare_spec (N_of_ascii x) (N_of_ascii y)) as [Exy|Hxy|Hxy], (N.compare_spec (N_of_ascii y) (N_of_ascii z)) as [Eyz|Hyz|Hyz];
    intros H1 H2; try done; destruct (N.compare_spec (N_of_ascii x) (N_of_ascii z)); try lia; try done. by eapply IH.
Qed.
