(* ===== verification/Json.v ===== *)
(** * JSON as the control plane uses it

    The documents the sources write with [format!], the escaping function they
    use, and the interface [SerdeJson] of the part of [serde_json] they read them
    with.  [serde_json] is a library: its functions are the fields of a class,
    with the laws the sources rely on (a well-formed document parses to the
    value it denotes; the accessors).  A small parser of compact documents shows
    that the laws can hold. *)

From Stdlib Require Import ZArith Lia Bool List String Ascii.
From stdpp Require Import base tactics list strings.
From S2P Require Import Prelude RustStr Utf8.

Open Scope Z_scope.

(** ** Documents *)

Inductive json : Type :=
| JNum (n : Z)
| JStr (s : string)
| JObj (fs : list (string * json)).

Definition quote : ascii := ascii_of_nat 34.
Definition backslash : ascii := ascii_of_nat 92.

(** [s.replace(c, to)] for a character [c]. *)
Fixpoint replace_char (c : ascii) (to s : string) : string :=
  match s with
  | EmptyString => ""
  | String d s' => if Ascii.eqb d c then to ++s replace_char c to s'
                   else String d (replace_char c to s')
  end.

Definition json_escape (s : string) : string :=
  replace_char quote (String backslash (String quote ""))
    (replace_char backslash (String backslash (String backslash "")) s).

Definition quoted (s : string) : string := String quote (s ++s String quote "").

Fixpoint render (j : json) : string :=
  match j with
  | JNum n => dec n
  | JStr s => quoted (json_escape s)
  | JObj fs =>
      let fix fields (fs : list (string * json)) : string :=
        match fs with
        | [] => ""
        | [(k, v)] => quoted (json_escape k) ++s ":" ++s render v
        | (k, v) :: fs' => quoted (json_escape k) ++s ":" ++s render v ++s "," ++s fields fs'
        end in
      "{" ++s fields fs ++s "}"
  end.

(** The fields of an object, without the braces. *)
Fixpoint fields_text (fs : list (string * json)) : string :=
  match fs with
  | [] => ""
  | [(k, v)] => quoted (json_escape k) ++s ":" ++s render v
  | (k, v) :: fs' => quoted (json_escape k) ++s ":" ++s render v ++s "," ++s fields_text fs'
  end.

Lemma render_obj fs : render (JObj fs) = "{" ++s fields_text fs ++s "}".
Proof. reflexivity. Qed.

(** Text that may stand in a JSON string: well-formed UTF-8 without control
    characters, which the sources do not escape. *)
Definition plain_text (s : string) : bool :=
  valid_utf8 s && forallb (fun c => 32 <=? byte_val c) (list_ascii_of_string s).

Fixpoint wf_json (j : json) : bool :=
  match j with
  | JNum n => (i64_min <=? n) && (n <=? u64_max)
  | JStr s => plain_text s
  | JObj fs => forallb (fun kv => plain_text kv.1 && wf_json kv.2) fs
  end.

Lemma wf_num n : in_u64 n -> wf_json (JNum n) = true.
Proof.
  intros [H1 H2]. cbn [wf_json]. apply andb_true_intro. unfold i64_min, u64_max in *.
  rewrite !Z.leb_le. lia.
Qed.

(** An object of numbers. *)
Lemma wf_nums fs :
  Forall (fun kv => plain_text kv.1 = true /\ exists n, kv.2 = JNum n /\ in_u64 n) fs -> wf_json (JObj fs) = true.
Proof.
  intros HF. cbn [wf_json]. apply forallb_forall. rewrite List.Forall_forall in HF. intros [k v] Hin.
  destruct (HF _ Hin) as (Hk & n & Hv & Hn). simpl in *. subst v. rewrite Hk. by apply wf_num.
Qed.

(** A key that occurs twice keeps its last value, as in [serde_json::Map]. *)
Definition field (fs : list (string * json)) (k : string) : option json :=
  option_map snd (List.find (fun kv => String.eqb kv.1 k) (List.rev fs)).

(** ** [serde_json] *)

Class SerdeJson : Type := {
  Value : Type;
  from_slice : string -> option Value;
  Value_Null : Value;
  vget : Value -> string -> option Value;
  vas_u64 : Value -> option Z;
  vas_i64 : Value -> option Z;
  vas_str : Value -> option string
}.

(** What the sources rely on. *)
Class SerdeJsonLaws `{SerdeJson} : Type := {
  of_json : json -> Value;
  from_slice_render : forall j, wf_json j = true -> from_slice (render j) = Some (of_json j);
  vget_obj : forall fs k, vget (of_json (JObj fs)) k = option_map of_json (field fs k);
  vas_u64_num : forall n, in_i64 n \/ in_u64 n -> vas_u64 (of_json (JNum n)) = if 0 <=? n then Some n else None;
  vas_u64_range : forall v n, vas_u64 v = Some n -> in_u64 n;
  vas_i64_num : forall n, in_i64 n -> vas_i64 (of_json (JNum n)) = Some n;
  vas_str_str : forall s, vas_str (of_json (JStr s)) = Some s
}.

(** [v.get(k).and_then(|x| x.as_u64()).unwrap_or(0)] *)
Definition get_u64_or_0 `{SerdeJson} (v : Value) (k : string) : Z :=
  match vget v k with
  | Some x => match vas_u64 x with Some n => n | None => 0 end
  | None => 0
  end.

(** [v.get(k)?.as_str()?] *)
Definition get_str `{SerdeJson} (v : Value) (k : string) : option string :=
  match vget v k with Some x => vas_str x | None => None end.

Section Laws.
Context `{SerdeJsonLaws}.

Lemma get_u64_field fs k n :
  field fs k = Some (JNum n) -> in_u64 n -> get_u64_or_0 (of_json (JObj fs)) k = n.
Proof.
  intros Hf Hn. unfold get_u64_or_0. rewrite vget_obj, Hf. simpl. rewrite vas_u64_num by auto.
  destruct Hn as [Hn _]. by rewrite (proj2 (Z.leb_le _ _) Hn).
Qed.

Lemma get_u64_range v k : in_u64 (get_u64_or_0 v k).
Proof.
  unfold get_u64_or_0. destruct (vget v k) as [x|]; [|done].
  destruct (vas_u64 x) as [n|] eqn:E; [by eapply vas_u64_range|done].
Qed.

Lemma get_str_field fs k s : field fs k = Some (JStr s) -> get_str (of_json (JObj fs)) k = Some s.
Proof. intros Hf. unfold get_str. rewrite vget_obj, Hf. simpl. apply vas_str_str. Qed.
End Laws.

(** ** Escaping in one pass *)

Fixpoint esc (s : string) : string :=
  match s with
  | EmptyString => ""
  | String c s' => if Ascii.eqb c backslash || Ascii.eqb c quote then String backslash (String c (esc s'))
                   else String c (esc s')
  end.

Lemma replace_char_app c to a b :
  replace_char c to (a ++s b) = replace_char c to a ++s replace_char c to b.
Proof.
  induction a as [|d a IH]; simpl; [done|]. destruct (Ascii.eqb d c); simpl; rewrite IH; [|done].
  by rewrite app_assoc_s.
Qed.

Lemma json_escape_esc s : json_escape s = esc s.
Proof.
  unfold json_escape. induction s as [|c s IH]; [done|]. cbn [replace_char esc].
  destruct (Ascii.eqb_spec c backslash) as [->|Hb].
  - simpl. f_equal. f_equal. exact IH.
  - cbn [replace_char orb]. destruct (Ascii.eqb_spec c quote) as [->|Hq]; simpl; by rewrite IH.
Qed.

(** ** A parser of compact documents

    Enough of JSON to read what the sources write: objects, strings with the
    two escapes, integers, no white space. *)

Fixpoint p_str (s : string) : option (string * string) :=
  match s with
  | EmptyString => None
  | String c s' =>
      if Ascii.eqb c quote then Some (""%string, s')
      else if Ascii.eqb c backslash then
        match s' with
        | String d s'' =>
            if Ascii.eqb d backslash || Ascii.eqb d quote then
              option_map (fun '(x, r) => (String d x, r)) (p_str s'')
            else None
        | EmptyString => None
        end
      else option_map (fun '(x, r) => (String c x, r)) (p_str s')
  end.

Fixpoint span_digits (s : string) : string * string :=
  match s with
  | String c s' => match digit_val c with
                   | Some _ => let '(d, r) := span_digits s' in (String c d, r)
                   | None => (""%string, s)
                   end
  | EmptyString => (""%string, ""%string)
  end.

Definition p_num (s : string) : option (json * string) :=
  let '(neg, body) := match s with
                      | String c s' => if Ascii.eqb c "-" then (true, s') else (false, s)
                      | EmptyString => (false, s)
                      end in
  match span_digits body with
  | (EmptyString, _) => None
  | (ds, r) => match parse_digits ds 0 with
               | Some n => Some (JNum (if neg then - n else n), r)
               | None => None
               end
  end.

Definition expect (c : ascii) (s : string) : option string :=
  match s with
  | String d s' => if Ascii.eqb d c then Some s' else None
  | EmptyString => None
  end.

Fixpoint p_value (fuel : nat) (s : string) : option (json * string) :=
  match fuel with
  | O => None
  | S f =>
      match s with
      | String c s' =>
          if Ascii.eqb c "{" then
            match expect "}" s' with
            | Some r => Some (JObj [], r)
            | None => match p_fields f s' with
                      | Some (fs, r) => Some (JObj fs, r)
                      | None => None
                      end
            end
          else if Ascii.eqb c quote then
            match p_str s' with Some (x, r) => Some (JStr x, r) | None => None end
          else p_num s
      | EmptyString => None
      end
  end
with p_fields (fuel : nat) (s : string) : option (list (string * json) * string) :=
  match fuel with
  | O => None
  | S f =>
      match expect quote s with
      | None => None
      | Some s1 =>
          match p_str s1 with
          | None => None
          | Some (k, s2) =>
              match expect ":" s2 with
              | None => None
              | Some s3 =>
                  match p_value f s3 with
                  | None => None
                  | Some (v, s4) =>
                      match expect "," s4, expect "}" s4 with
                      | Some s5, _ => match p_fields f s5 with
                                      | Some (fs, r) => Some ((k, v) :: fs, r)
                                      | None => None
                                      end
                      | None, Some r => Some ([(k, v)], r)
                      | None, None => None
                      end
                  end
              end
          end
      end
  end.

Fixpoint jsize (j : json) : nat :=
  match j with
  | JNum _ | JStr _ => 1
  | JObj fs => S (list_sum (map (fun kv => S (jsize kv.2)) fs))
  end.

Definition fsize (fs : list (string * json)) : nat := list_sum (map (fun kv => S (jsize kv.2)) fs).

(** Induction through the fields of an object. *)
Lemma json_rec' (P : json -> Prop) :
  (forall n, P (JNum n)) -> (forall s, P (JStr s)) ->
  (forall fs, Forall (fun kv => P kv.2) fs -> P (JObj fs)) -> forall j, P j.
Proof.
  intros HN HS HO. fix IH 1. intros [n|s|fs]; [apply HN|apply HS|]. apply HO.
  induction fs as [|[k v] fs IHfs]; constructor; [apply IH|exact IHfs].
Qed.

Lemma p_str_esc s r : p_str (esc s ++s String quote r) = Some (s, r).
Proof.
  induction s as [|c s IH]; [done|]. cbn [esc].
  destruct (Ascii.eqb_spec c backslash) as [->|Hb]; [cbn; by rewrite IH|].
  destruct (Ascii.eqb_spec c quote) as [->|Hq]; [cbn; by rewrite IH|].
  cbn [orb String.append p_str]. rewrite (proj2 (Ascii.eqb_neq _ _) Hq), (proj2 (Ascii.eqb_neq _ _) Hb), IH. done.
Qed.

(** The digits of a number, followed by something that is not a digit. *)
Definition no_digit_head (r : string) : Prop :=
  match r with String c _ => digit_val c = None | EmptyString => True end.

Lemma span_dec_digits fuel n acc r :
  0 <= n -> (exists d, span_digits (acc ++s r) = (d, r) /\ d = acc) ->
  span_digits (dec_digits fuel n acc ++s r) = (dec_digits fuel n acc, r).
Proof.
  revert n acc; induction fuel as [|f IH]; intros n acc Hn (d & Hd & ->); [done|]. cbn [dec_digits].
  pose proof (Z.mod_pos_bound n 10 ltac:(lia)).
  assert (span_digits (String (digit_char (n mod 10)) acc ++s r) = (String (digit_char (n mod 10)) acc, r)) as Hx.
  { cbn [String.append span_digits]. rewrite digit_val_char by lia. by rewrite Hd. }
  destruct (n <? 10); [done|]. apply IH; [apply Z.div_pos; lia|eauto].
Qed.

Lemma p_num_nonneg n r : 0 <= n -> no_digit_head r -> p_num (dec n ++s r) = Some (JNum n, r).
Proof.
  intros Hn Hr. unfold dec. rewrite (proj2 (Z.ltb_ge _ _) Hn).
  destruct (dec_digits_nonempty (Z.to_nat (Z.log2 n)) n "") as (c & s & Heq & Hc).
  pose proof (span_dec_digits (S (Z.to_nat (Z.log2 n))) n "" r Hn) as Hsp.
  pose proof (parse_dec_digits _ n "" (log2_fuel n Hn)) as Hp. rewrite Heq in *.
  unfold p_num. cbn [String.append] in *. destruct (Ascii.eqb_spec c "-") as [->|].
  - exfalso. apply Hc; [done|reflexivity].
  - rewrite Hsp; [|exists ""%string; split; [|done]; destruct r; simpl in *; by rewrite ?Hr].
    by rewrite Hp.
Qed.

Lemma p_num_neg n r : n < 0 -> no_digit_head r -> p_num (dec n ++s r) = Some (JNum n, r).
Proof.
  intros Hn Hr. pose proof (p_num_nonneg (- n) r ltac:(lia) Hr) as Hp.
  unfold dec in *. rewrite (proj2 (Z.ltb_lt _ _) Hn). rewrite (proj2 (Z.ltb_ge (- n) 0)) in Hp by lia.
  unfold p_num in *. cbn [String.append]. rewrite Ascii.eqb_refl.
  destruct (dec_digits_nonempty (Z.to_nat (Z.log2 (- n))) (- n) "") as (c & s & Heq & Hc). rewrite Heq in *.
  cbn [String.append] in *. destruct (Ascii.eqb_spec c "-") as [->|].
  - exfalso. apply Hc; [lia|reflexivity].
  - destruct (span_digits (String c (s ++s r))) as [[|d ds] r']; [done|].
    destruct (parse_digits (String d ds) 0) as [m|]; [|done]. injection Hp as -> ->.
    by rewrite Z.opp_involutive.
Qed.

Lemma p_value_num fuel n r :
  no_digit_head r -> p_value (S fuel) (dec n ++s r) = Some (JNum n, r).
Proof.
  intros Hr.
  assert (p_num (dec n ++s r) = Some (JNum n, r)) as Hp.
  { destruct (Z.ltb_spec n 0); [by apply p_num_neg|by apply p_num_nonneg]. }
  cbn [p_value]. destruct (dec n ++s r) as [|c t] eqn:E; [done|].
  destruct (Ascii.eqb_spec c "{") as [->|]; [done|].
  destruct (Ascii.eqb_spec c quote) as [->|]; [done|]. exact Hp.
Qed.

Lemma expect_head c s : expect c (String c s) = Some s.
Proof. unfold expect. by rewrite Ascii.eqb_refl. Qed.

Definition parses (j : json) : Prop :=
  forall fuel r, (jsize j <= fuel)%nat -> no_digit_head r -> p_value fuel (render j ++s r) = Some (j, r).

Lemma fields_parse fs fuel r :
  fs <> [] -> Forall (fun kv => parses kv.2) fs -> (fsize fs <= fuel)%nat ->
  p_fields fuel (fields_text fs ++s String "}" r) = Some (fs, r).
Proof.
  revert fuel; induction fs as [|[k v] fs IH]; intros fuel Hne HF Hsz; [done|].
  inversion HF as [|? ? Hv HF']; subst. simpl in Hv. unfold fsize in Hsz. cbn [map list_sum fold_right snd] in Hsz.
  destruct fuel as [|fuel]; [lia|]. cbn [p_fields].
  destruct fs as [|kv fs].
  - cbn [fields_text]. rewrite json_escape_esc. unfold quoted. cbn [String.append].
    rewrite !app_assoc_s. cbn [String.append]. rewrite expect_head, p_str_esc, expect_head.
    rewrite Hv by (done || lia). done.
  - change (fields_text ((k, v) :: kv :: fs)) with
      (quoted (json_escape k) ++s ":" ++s render v ++s "," ++s fields_text (kv :: fs)).
    rewrite json_escape_esc. unfold quoted. cbn [String.append].
    rewrite !app_assoc_s. cbn [String.append]. rewrite expect_head, p_str_esc, expect_head.
    rewrite !app_assoc_s. rewrite Hv by (done || lia). cbn [String.append]. rewrite expect_head.
    rewrite (IH fuel); [done|done|done|]. unfold fsize. unfold list_sum in *. simpl in *. lia.
Qed.

Lemma render_parses j : parses j.
Proof.
  induction j as [n|s|fs IH] using json_rec'; intros fuel r Hf Hr.
  - destruct fuel; [simpl in Hf; lia|]. by apply p_value_num.
  - destruct fuel; [simpl in Hf; lia|]. cbn [render]. rewrite json_escape_esc. unfold quoted.
    cbn [String.append p_value]. rewrite app_assoc_s. cbn [String.append].
    replace (Ascii.eqb quote "{") with false by done. rewrite Ascii.eqb_refl, p_str_esc. done.
  - destruct fuel; [simpl in Hf; lia|]. rewrite render_obj. rewrite !app_assoc_s. cbn [String.append p_value].
    rewrite Ascii.eqb_refl. destruct fs as [|[k v] fs].
    + cbn. done.
    + assert (expect "}" (fields_text ((k, v) :: fs) ++s String "}" r) = None) as ->.
      { destruct fs; cbn [fields_text]; unfold quoted; cbn [String.append expect]; done. }
      rewrite fields_parse; [done|done|exact IH|]. unfold fsize. simpl in Hf |- *. lia.
Qed.

Lemma dec_nonempty n : (1 <= String.length (dec n))%nat.
Proof.
  unfold dec. destruct (n <? 0); [simpl; lia|].
  destruct (dec_digits_nonempty (Z.to_nat (Z.log2 n)) n "") as (c & s & -> & _). simpl. lia.
Qed.

Lemma fsize_length fs :
  Forall (fun kv => (jsize kv.2 <= String.length (render kv.2))%nat) fs ->
  (fsize fs <= String.length (fields_text fs))%nat.
Proof.
  induction 1 as [|[k v] fs Hv Hfs IH]; [done|]. simpl in Hv.
  change (fsize ((k, v) :: fs)) with (S (jsize v) + fsize fs)%nat.
  destruct fs as [|kv fs].
  - cbn [fields_text]. unfold quoted. rewrite !app_length_s. simpl. unfold fsize. simpl. lia.
  - change (fields_text ((k, v) :: kv :: fs)) with
      (quoted (json_escape k) ++s ":" ++s render v ++s "," ++s fields_text (kv :: fs)).
    unfold quoted. rewrite !app_length_s. cbn [String.length]. lia.
Qed.

Lemma jsize_length j : (jsize j <= String.length (render j))%nat.
Proof.
  induction j as [n|s|fs IH] using json_rec'.
  - apply dec_nonempty.
  - cbn [render jsize]. unfold quoted. simpl. lia.
  - rewrite render_obj, !app_length_s. apply fsize_length in IH. unfold fsize in IH. simpl. lia.
Qed.

Module RefJson.

#[export] Instance ref_json : SerdeJson := {|
  Value := option json;
  from_slice := fun s => match p_value (S (String.length s)) s with
                         | Some (j, EmptyString) => Some (Some j)
                         | _ => None
                         end;
  Value_Null := None;
  vget := fun v k => match v with Some (JObj fs) => option_map Some (field fs k) | _ => None end;
  vas_u64 := fun v => match v with
                      | Some (JNum n) => if (0 <=? n) && (n <=? u64_max) then Some n else None
                      | _ => None
                      end;
  vas_i64 := fun v => match v with Some (JNum n) => if n <=? i64_max then Some n else None | _ => None end;
  vas_str := fun v => match v with Some (JStr s) => Some s | _ => None end
|}.

#[export] Instance ref_json_laws : SerdeJsonLaws.
Proof.
  refine {| of_json := Some : json -> Value |}.
  - intros j _. unfold from_slice, ref_json.
    pose proof (render_parses j (S (String.length (render j))) "") as Hp. rewrite app_nil_s in Hp.
    rewrite Hp; [done| |done]. pose proof (jsize_length j). lia.
  - done.
  - intros n Hn. unfold vas_u64, ref_json. replace (n <=? u64_max) with true; [by rewrite andb_true_r|].
    symmetry. apply Z.leb_le. unfold in_i64, in_u64, i64_max, u64_max in *. lia.
  - intros v n. unfold vas_u64, ref_json. destruct v as [[m|?|?]|]; try done.
    destruct (_ && _) eqn:E; [|done]. intros [= <-]. bool_prop. done.
  - intros n [_ Hn]. unfold vas_i64, ref_json. by rewrite (proj2 (Z.leb_le _ _) Hn).
  - done.
Qed.

End RefJson.
