(* ===== verification/Store.v ===== *)
(** * The store interface (crates/sl-store/src/lib.rs)

    The data types of the metadata store, an abstract store (finite maps, a
    revision counter and the event log), and the [Store] trait as a class of
    operations with the class [StoreLaws] of what they promise: the exact
    effect of a successful call, the errors a call may return, and the bounds of
    the partial effect of a call that the backend interrupts.  Clients of the
    trait are proved against [StoreLaws]; [Sqlite] discharges it. *)

From Stdlib Require Import ZArith Lia Bool List String Ascii.
From stdpp Require Import base tactics list gmap strings sorting.
From S2P Require Import Prelude RustStr Utf8.

Open Scope Z_scope.

(** ** Data *)

Definition LeaseId := Z.
Definition Revision := Z.

Record KeyValue : Type := mkKv {
  kv_key : string;
  kv_value : string;
  kv_create : Z;
  kv_mod : Z;
  kv_lease : option Z
}.

Inductive EventKind : Type := Put | Delete.

Record Event : Type := mkEvent {
  ev_kind : EventKind;
  ev_key : string;
  ev_value : string;
  ev_rev : Z
}.

Record CasResult : Type := mkCas {
  cas_succeeded : bool;
  cas_revision : Z;
  cas_current : option KeyValue
}.

Inductive StoreError : Type :=
| Backend (e : string)
| NoSuchLease (id : Z).

#[global] Instance KeyValue_eq_dec : EqDecision KeyValue.
Proof. solve_decision. Defined.
#[global] Instance EventKind_eq_dec : EqDecision EventKind.
Proof. solve_decision. Defined.
#[global] Instance Event_eq_dec : EqDecision Event.
Proof. solve_decision. Defined.

(** [Display for StoreError]. *)
Definition store_error_display (e : StoreError) : string :=
  match e with
  | Backend m => "store backend: " ++s m
  | NoSuchLease id => "no such lease: " ++s dec id
  end.

(** ** The abstract store *)

Record Lease : Type := mkLease { l_ttl : Z; l_expires : Z }.

Record AStore : Type := mkA {
  a_rev : Z;
  a_kv : gmap string KeyValue;
  a_leases : gmap Z Lease;
  a_events : list Event
}.

Definition a_empty : AStore := mkA 0 ∅ ∅ [].

Definition a_write (k v : string) (l : option Z) (a : AStore) : AStore :=
  let rev := a_rev a + 1 in
  let create := match a_kv a !! k with Some kv => kv_create kv | None => rev end in
  mkA rev (<[k := mkKv k v create rev l]> (a_kv a)) (a_leases a)
      (a_events a ++ [mkEvent Put k v rev]).

Definition a_remove (k : string) (a : AStore) : AStore :=
  let rev := a_rev a + 1 in
  mkA rev (delete k (a_kv a)) (a_leases a) (a_events a ++ [mkEvent Delete k "" rev]).

Definition a_remove_all (ks : list string) (a : AStore) : AStore :=
  fold_left (fun a k => a_remove k a) ks a.

Definition a_with_leases (ls : gmap Z Lease) (a : AStore) : AStore :=
  mkA (a_rev a) (a_kv a) ls (a_events a).

(** Which leases a reap selects: one id, or those expired at a time. *)
Inductive LeaseSel : Type :=
| SelId (id : Z)
| SelExpired (now : Z).

Definition sel_lease (sel : LeaseSel) (id : Z) (l : Lease) : bool :=
  match sel with
  | SelId i => id =? i
  | SelExpired now => l_expires l <=? now
  end.

(** The key is attached to a lease that exists and is selected. *)
Definition reaped (sel : LeaseSel) (a : AStore) (k : string) : Prop :=
  exists kv id l, a_kv a !! k = Some kv /\ kv_lease kv = Some id /\
                  a_leases a !! id = Some l /\ sel_lease sel id l = true.

Definition leases_after (sel : LeaseSel) (ls : gmap Z Lease) : gmap Z Lease :=
  filter (fun p => sel_lease sel p.1 p.2 = false) ls.

(** ** Well-formed abstract stores *)

Record awf (a : AStore) : Prop := {
  awf_rev : 0 <= a_rev a;
  awf_key : forall k kv, a_kv a !! k = Some kv -> kv_key kv = k;
  awf_revs : forall k kv, a_kv a !! k = Some kv -> 0 < kv_create kv <= kv_mod kv /\ kv_mod kv <= a_rev a;
  awf_lease : forall id l, a_leases a !! id = Some l -> 0 < id;
  awf_events : StronglySorted Z.lt (map ev_rev (a_events a));
  awf_events_le : Forall (fun e => ev_rev e <= a_rev a) (a_events a)
}.

Lemma a_empty_wf : awf a_empty.
Proof.
  split; simpl; try done; try (intros *; rewrite lookup_empty; done); constructor.
Qed.

(** ** Removing several keys *)

Lemma a_remove_all_app ks1 ks2 a :
  a_remove_all (ks1 ++ ks2) a = a_remove_all ks2 (a_remove_all ks1 a).
Proof. apply fold_left_app. Qed.

Lemma a_remove_all_rev ks a : a_rev (a_remove_all ks a) = a_rev a + Z.of_nat (length ks).
Proof.
  revert a; induction ks as [|k ks IH]; intros a; cbn [a_remove_all fold_left length]; [lia|].
  unfold a_remove_all in IH. rewrite IH. simpl. lia.
Qed.

Lemma a_remove_all_leases ks a : a_leases (a_remove_all ks a) = a_leases a.
Proof. revert a; induction ks as [|k ks IH]; intros a; [done|]. exact (IH (a_remove k a)). Qed.

Lemma a_remove_all_kv ks a k :
  a_kv (a_remove_all ks a) !! k = if bool_decide (k ∈ ks) then None else a_kv a !! k.
Proof.
  revert a; induction ks as [|k' ks IH]; intros a.
  - case_bool_decide as H; [by apply not_elem_of_nil in H|done].
  - change (a_remove_all (k' :: ks) a) with (a_remove_all ks (a_remove k' a)). rewrite IH. simpl.
    destruct (decide (k = k')) as [->|Hn].
    + rewrite lookup_delete_eq. rewrite (bool_decide_eq_true_2 (k' ∈ k' :: ks)) by constructor.
      by case_bool_decide.
    + rewrite lookup_delete_ne by done.
      rewrite (bool_decide_ext (k ∈ k' :: ks) (k ∈ ks)); [done|].
      rewrite elem_of_cons. intuition.
Qed.

Lemma a_remove_with_leases k ls a : a_remove k (a_with_leases ls a) = a_with_leases ls (a_remove k a).
Proof. done. Qed.

Lemma a_remove_all_with_leases ks ls a :
  a_remove_all ks (a_with_leases ls a) = a_with_leases ls (a_remove_all ks a).
Proof. revert a; induction ks as [|k ks IH]; intros a; [done|]. exact (IH (a_remove k a)). Qed.

(** The revisions of a run of deletions. *)
Fixpoint del_log (rev : Z) (ks : list string) : list (string * Z) :=
  match ks with
  | [] => []
  | k :: ks' => (k, rev + 1) :: del_log (rev + 1) ks'
  end.

Lemma del_log_fst rev ks : map fst (del_log rev ks) = ks.
Proof. revert rev; induction ks as [|k ks IH]; intros rev; simpl; [done|]. by rewrite IH. Qed.

Lemma del_log_app rev ks1 ks2 :
  del_log rev (ks1 ++ ks2) = del_log rev ks1 ++ del_log (rev + Z.of_nat (length ks1)) ks2.
Proof.
  revert rev; induction ks1 as [|k ks1 IH]; intros rev; cbn [app del_log length].
  - f_equal. lia.
  - f_equal. rewrite IH. f_equal. f_equal. lia.
Qed.

Lemma a_remove_all_events ks a :
  a_events (a_remove_all ks a) =
    a_events a ++ map (fun p => mkEvent Delete p.1 "" p.2) (del_log (a_rev a) ks).
Proof.
  revert a; induction ks as [|k ks IH]; intros a; [by rewrite app_nil_r|].
  change (a_remove_all (k :: ks) a) with (a_remove_all ks (a_remove k a)). rewrite IH. simpl.
  by rewrite <- app_assoc.
Qed.

Lemma a_write_kv k v l a k' :
  a_kv (a_write k v l a) !! k' =
    if decide (k = k') then
      Some (mkKv k v (match a_kv a !! k with Some kv => kv_create kv | None => a_rev a + 1 end)
                 (a_rev a + 1) l)
    else a_kv a !! k'.
Proof.
  unfold a_write; simpl. destruct (decide (k = k')) as [->|].
  - by rewrite lookup_insert_eq.
  - by rewrite lookup_insert_ne.
Qed.

(** ** Post-conditions of the operations *)

(** What a write that the backend interrupted may have done, when a complete
    one leaves [new] under [k]. *)
Record partial_write (k : string) (new : option KeyValue) (a a' : AStore) : Prop := {
  pw_rev : a_rev a <= a_rev a' <= a_rev a + 1;
  pw_key : a_kv a' !! k = a_kv a !! k \/ a_kv a' !! k = new;
  pw_fresh : a_kv a' !! k <> a_kv a !! k -> new <> None -> a_rev a' = a_rev a + 1;
  pw_events : a_events a' = a_events a;
  pw_kv : forall k', k' <> k -> a_kv a' !! k' = a_kv a !! k';
  pw_leases : a_leases a' = a_leases a
}.

(** What an interrupted reap may have done: some of the selected leases and
    some of the keys attached to them are gone. *)
Record partial_reap (sel : LeaseSel) (a a' : AStore) : Prop := {
  pr_rev : a_rev a <= a_rev a';
  pr_kv : forall k, a_kv a' !! k = a_kv a !! k \/ (a_kv a' !! k = None /\ reaped sel a k);
  pr_leases : forall id, a_leases a' !! id = a_leases a !! id \/
      (a_leases a' !! id = None /\ exists l, a_leases a !! id = Some l /\ sel_lease sel id l = true)
}.

Section Posts.
Context (a : AStore).

Definition get_post (k : string) (r : result (option KeyValue) StoreError) (a' : AStore) : Prop :=
  a' = a /\ match r with
            | Ok o => o = a_kv a !! k
            | Err (Backend _) => True
            | Err (NoSuchLease _) => False
            end.

(** A prefix the range scan answers exactly: empty, or well-formed text that
    ends in an ASCII byte below DEL. *)
Definition good_prefix (p : string) : Prop :=
  p = ""%string \/ exists q c, p = snoc q c /\ valid_utf8 q = true /\ byte_val c < 127.

Definition sorted_by_key (l : list KeyValue) : Prop :=
  StronglySorted (fun x y => str_lt (kv_key x) (kv_key y) = true) l.

Definition list_post (p : string) (r : result (list KeyValue) StoreError) (a' : AStore) : Prop :=
  a' = a /\ match r with
            | Ok l => good_prefix p -> sorted_by_key l /\
                (forall kv, In kv l <->
                   a_kv a !! kv_key kv = Some kv /\ starts_with p (kv_key kv) = true)
            | Err (Backend _) => True
            | Err (NoSuchLease _) => False
            end.

Definition put_post (k v : string) (l : option Z) (r : result Z StoreError) (a' : AStore) : Prop :=
  match r with
  | Ok rev => (forall id, l = Some id -> is_Some (a_leases a !! id)) /\
              a' = a_write k v l a /\ rev = a_rev a'
  | Err (NoSuchLease id) => l = Some id /\ a_leases a !! id = None /\ a' = a
  | Err (Backend _) => partial_write k (a_kv (a_write k v l a) !! k) a a'
  end.

Definition delete_post (k : string) (r : result bool StoreError) (a' : AStore) : Prop :=
  match r with
  | Ok b => b = bool_decide (is_Some (a_kv a !! k)) /\ a' = (if b then a_remove k a else a)
  | Err (Backend _) => partial_write k None a a'
  | Err (NoSuchLease _) => False
  end.

Definition cas_post (k : string) (expect : option Z) (v : string) (l : option Z)
    (r : result CasResult StoreError) (a' : AStore) : Prop :=
  match r with
  | Ok c => cas_succeeded c = bool_decide (kv_mod <$> a_kv a !! k = expect) /\
            cas_revision c = a_rev a' /\
            cas_current c = (if cas_succeeded c then None else a_kv a !! k) /\
            a' = (if cas_succeeded c then a_write k v l a else a)
  | Err (Backend _) => partial_write k (a_kv (a_write k v l a) !! k) a a'
  | Err (NoSuchLease _) => False
  end.

Definition grant_post (now ttl : Z) (r : result Z StoreError) (a' : AStore) : Prop :=
  match r with
  | Ok id => a_leases a !! id = None /\ 0 < id /\
             a' = a_with_leases (<[id := mkLease ttl (i64_add now ttl)]> (a_leases a)) a
  | Err (Backend _) => a' = a
  | Err (NoSuchLease _) => False
  end.

Definition keepalive_post (now id : Z) (r : result Z StoreError) (a' : AStore) : Prop :=
  match r with
  | Ok exp => exists l, a_leases a !! id = Some l /\ exp = i64_add now (l_ttl l) /\
              a' = a_with_leases (<[id := mkLease (l_ttl l) exp]> (a_leases a)) a
  | Err (Backend _) => a' = a
  | Err (NoSuchLease i) => i = id /\ a_leases a !! id = None /\ a' = a
  end.

Definition reap_post (sel : LeaseSel) (r : result (list string) StoreError) (a' : AStore) : Prop :=
  match r with
  | Ok ks => NoDup ks /\ (forall k, In k ks <-> reaped sel a k) /\
             a' = a_with_leases (leases_after sel (a_leases a)) (a_remove_all ks a)
  | Err (Backend _) => partial_reap sel a a'
  | Err (NoSuchLease _) => False
  end.

Definition revision_post (r : result Z StoreError) (a' : AStore) : Prop :=
  a' = a /\ match r with
            | Ok rev => rev = a_rev a
            | Err (Backend _) => True
            | Err (NoSuchLease _) => False
            end.

Definition changes_post (since : Z) (p : string) (r : result (list Event) StoreError)
    (a' : AStore) : Prop :=
  a' = a /\ match r with
            | Ok l => good_prefix p ->
                l = List.filter (fun e => (since <? ev_rev e) && starts_with p (ev_key e)) (a_events a)
            | Err (Backend _) => True
            | Err (NoSuchLease _) => False
            end.

Definition compact_post (below : Z) (r : result nat StoreError) (a' : AStore) : Prop :=
  match r with
  | Ok n => a' = mkA (a_rev a) (a_kv a) (a_leases a)
                     (List.filter (fun e => below <? ev_rev e) (a_events a)) /\
            n = (length (a_events a) - length (a_events a'))%nat
  | Err (Backend _) => a' = a
  | Err (NoSuchLease _) => False
  end.
End Posts.

(** ** The trait *)

(** The clock ([now_unix]) is an argument of the operations that read it. *)
Class Store (S : Type) : Type := {
  get : string -> M S StoreError (option KeyValue);
  list_prefix : string -> M S StoreError (list KeyValue);
  put : string -> string -> option Z -> M S StoreError Z;
  delete_key : string -> M S StoreError bool;
  compare_and_swap : string -> option Z -> string -> option Z -> M S StoreError CasResult;
  lease_grant : Z -> Z -> M S StoreError Z;
  lease_keepalive : Z -> Z -> M S StoreError Z;
  lease_revoke : Z -> M S StoreError (list string);
  lease_sweep : Z -> M S StoreError (list string);
  current_revision : M S StoreError Z;
  changes_since : Z -> string -> M S StoreError (list Event);
  watch : string -> S -> nat * S;
  compact : Z -> M S StoreError nat
}.

Definition backend_error {A} (r : result A StoreError) : Prop :=
  exists e, r = Err (Backend e).

(** [meets inv healthy abs m post]: from a state that satisfies the
    representation invariant, [m] keeps it, relates the abstract states by
    [post], and reports a backend error only when the backend is unhealthy. *)
Definition meets {S A} (inv healthy : S -> Prop) (abs : S -> AStore)
    (m : M S StoreError A) (post : AStore -> result A StoreError -> AStore -> Prop) : Prop :=
  forall s, inv s ->
    let '(r, s') := m s in
    inv s' /\ post (abs s) r (abs s') /\ (healthy s -> healthy s' /\ ~ backend_error r).

Class StoreLaws (S : Type) `{Store S} : Type := {
  abs : S -> AStore;
  inv : S -> Prop;
  healthy : S -> Prop;
  inv_awf : forall s, inv s -> awf (abs s);
  get_meets : forall k, meets inv healthy abs (get k) (fun a => get_post a k);
  list_meets : forall p, meets inv healthy abs (list_prefix p) (fun a => list_post a p);
  put_meets : forall k v l, meets inv healthy abs (put k v l) (fun a => put_post a k v l);
  delete_meets : forall k, meets inv healthy abs (delete_key k) (fun a => delete_post a k);
  cas_meets : forall k e v l,
    meets inv healthy abs (compare_and_swap k e v l) (fun a => cas_post a k e v l);
  grant_meets : forall now ttl,
    meets inv healthy abs (lease_grant now ttl) (fun a => grant_post a now ttl);
  keepalive_meets : forall now id,
    meets inv healthy abs (lease_keepalive now id) (fun a => keepalive_post a now id);
  revoke_meets : forall id,
    meets inv healthy abs (lease_revoke id) (fun a => reap_post a (SelId id));
  sweep_meets : forall now,
    meets inv healthy abs (lease_sweep now) (fun a => reap_post a (SelExpired now));
  revision_meets : meets inv healthy abs current_revision revision_post;
  changes_meets : forall since p,
    meets inv healthy abs (changes_since since p) (fun a => changes_post a since p);
  compact_meets : forall below, meets inv healthy abs (compact below) (fun a => compact_post a below);
  watch_meets : forall p s, inv s ->
    let '(_, s') := watch p s in inv s' /\ abs s' = abs s /\ (healthy s -> healthy s')
}.

(** ** Using the laws *)

Lemma wp_meets {S A} (inv healthy : S -> Prop) (abs : S -> AStore) (m : M S StoreError A) post s Q :
  meets inv healthy abs m post -> inv s ->
  (forall r s', inv s' -> post (abs s) r (abs s') ->
     (healthy s -> healthy s' /\ ~ backend_error r) -> Q r s') ->
  wp m s Q.
Proof.
  intros Hm Hs HQ. specialize (Hm s Hs). unfold wp. destruct (m s) as [r s'].
  destruct Hm as (H1 & H2 & H3). by apply HQ.
Qed.

(** On a healthy store the only error is the one about a lease. *)
Lemma wp_meets_healthy {S A} (inv healthy : S -> Prop) (abs : S -> AStore) (m : M S StoreError A)
    (post : AStore -> result A StoreError -> AStore -> Prop) s Q :
  meets inv healthy abs m post -> inv s -> healthy s ->
  (forall a s', inv s' -> healthy s' -> post (abs s) (Ok a) (abs s') -> Q (Ok a) s') ->
  (forall i s', inv s' -> healthy s' -> post (abs s) (Err (NoSuchLease i)) (abs s') -> Q (Err (NoSuchLease i)) s') ->
  wp m s Q.
Proof.
  intros Hm Hs Hh HO HE. eapply wp_meets; [exact Hm|done|]. intros r s' H1 H2 H3.
  destruct (H3 Hh) as [H4 H5]. destruct r as [a|[e|i]]; [auto| |auto].
  exfalso. apply H5. by exists e.
Qed.

(** Prefixes that end in an ASCII character below DEL. *)
Lemma good_prefix_snoc q c : valid_utf8 q = true -> byte_val c < 127 -> good_prefix (snoc q c).
Proof. intros H1 H2. right. by exists q, c. Qed.

Lemma good_prefix_slash q : valid_utf8 q = true -> good_prefix (q ++s "/").
Proof. intros H. apply (good_prefix_snoc q "/"%char H). by vm_compute. Qed.

(** ** Callers that report errors as text *)

(** [r.map_err(|e| e.to_string())] *)
Definition err_text {A} (r : result A StoreError) : result A string :=
  match r with Ok a => Ok a | Err e => Err (store_error_display e) end.

Definition text {S A} (m : M S StoreError A) : M S string A :=
  fun s => let '(r, s') := m s in (err_text r, s').

Lemma wp_text {S A} (m : M S StoreError A) s (Q : result A string -> S -> Prop) :
  wp m s (fun r s' => Q (err_text r) s') -> wp (text m) s Q.
Proof. unfold wp, text. by destruct (m s). Qed.

(** ** [migrate_all] *)

(** The source and destination stores are two components of one state. *)
Definition on_fst {S T E A} (m : M S E A) : M (S * T) E A :=
  fun st => let '(r, s') := m st.1 in (r, (s', st.2)).
Definition on_snd {S T E A} (m : M T E A) : M (S * T) E A :=
  fun st => let '(r, t') := m st.2 in (r, (st.1, t')).

Definition migrate_all {S T} `{Store S} `{Store T} : M (S * T) StoreError nat :=
  let? kvs := on_fst (list_prefix "") in
  let n := length kvs in
  let? _ := mfor kvs (fun kv => let? _ := on_snd (put (kv_key kv) (kv_value kv) None) in mret tt) in
  mret n.
