(* ===== verification/Sqlite.v ===== *)
(** * SqliteStore (crates/sl-store/src/lib.rs)

    The SQLite backend of the store: the four tables as lists of rows in rowid
    order, each SQL statement of the source as a constructor of [Sql] with its
    effect on the tables, and each method as a program that issues statements
    (the question-mark operator ends the program at the first statement that fails).  The database
    engine may fail any statement: a fault schedule says which.  Statements are
    the unit of atomicity, as in the source, which opens no transaction. *)

From Stdlib Require Import ZArith Lia Bool List String Ascii.
From stdpp Require Import base tactics list gmap strings sorting.
From S2P Require Import Prelude RustStr Utf8 Store.

Open Scope Z_scope.

(** ** Tables *)

Record LeaseRow : Type := mkLeaseRow { lr_id : Z; lr_ttl : Z; lr_expires : Z }.

Record EventRow : Type := mkEventRow {
  er_rev : Z; er_key : string; er_kind : Z; er_value : string
}.

Record Db : Type := mkDb {
  meta_rev : Z;
  kv_rows : list KeyValue;
  lease_rows : list LeaseRow;
  event_rows : list EventRow
}.

(** The tables [init] creates. *)
Definition init_db : Db := mkDb 0 [] [] [].

(** ** Statements *)

Inductive Sql : Type -> Type :=
| UpdateBumpRev : Sql unit
| SelectRev : Sql Z
| SelectKv (k : string) : Sql (option KeyValue)
| SelectKvRange (lo : string) (hi : option string) : Sql (list KeyValue)
| UpsertKv (k v : string) (create_rev mod_rev : Z) (lease : option Z) : Sql unit
| DeleteKv (k : string) : Sql nat
| SelectLeaseExists (id : Z) : Sql bool
| SelectLeaseTtl (id : Z) : Sql (option Z)
| SelectNextLeaseId : Sql Z
| InsertLease (id ttl expires : Z) : Sql unit
| UpdateLease (expires id : Z) : Sql unit
| SelectLeaseIds (sel : LeaseSel) : Sql (list Z)
| SelectLeaseKeys (id : Z) : Sql (list string)
| DeleteLease (id : Z) : Sql unit
| InsertEvent (rev : Z) (k : string) (kind : Z) (v : string) : Sql unit
| SelectEvents (since : Z) (lo : string) (hi : option string) : Sql (list EventRow)
| DeleteEvents (below : Z) : Sql nat.

(** [INSERT INTO kv .. ON CONFLICT(key) DO UPDATE SET value, mod_rev, lease_id]. *)
Fixpoint upsert_row (k v : string) (c m : Z) (l : option Z) (rows : list KeyValue) : list KeyValue :=
  match rows with
  | [] => [mkKv k v c m l]
  | r :: rows' =>
      if String.eqb (kv_key r) k then mkKv k v (kv_create r) m l :: rows'
      else r :: upsert_row k v c m l rows'
  end.

Definition in_range (lo : string) (hi : option string) (k : string) : bool :=
  str_le lo k && match hi with Some h => str_lt k h | None => true end.

Definition kv_le (a b : KeyValue) : Prop := String.le (kv_key a) (kv_key b).
Definition er_le (a b : EventRow) : Prop := er_rev a <= er_rev b.
#[global] Instance kv_le_dec a b : Decision (kv_le a b).
Proof. unfold kv_le. apply _. Defined.
#[global] Instance er_le_dec a b : Decision (er_le a b).
Proof. unfold er_le. apply _. Defined.

Definition sel_row (sel : LeaseSel) (r : LeaseRow) : bool :=
  sel_lease sel (lr_id r) (mkLease (lr_ttl r) (lr_expires r)).

Definition has_lease (id : Z) (kv : KeyValue) : bool :=
  match kv_lease kv with Some i => i =? id | None => false end.

Definition max_lease_id (rows : list LeaseRow) : option Z :=
  match rows with
  | [] => None
  | r :: rs => Some (fold_left (fun m r => Z.max m (lr_id r)) rs (lr_id r))
  end.

Definition set_rev (z : Z) (db : Db) : Db := mkDb z (kv_rows db) (lease_rows db) (event_rows db).
Definition set_kv (l : list KeyValue) (db : Db) : Db :=
  mkDb (meta_rev db) l (lease_rows db) (event_rows db).
Definition set_lease_rows (l : list LeaseRow) (db : Db) : Db :=
  mkDb (meta_rev db) (kv_rows db) l (event_rows db).
Definition set_events (l : list EventRow) (db : Db) : Db :=
  mkDb (meta_rev db) (kv_rows db) (lease_rows db) l.

(** One statement: its rows, or the constraint it violates. *)
Definition exec {X} (st : Sql X) (db : Db) : result X string * Db :=
  match st in Sql X return result X string * Db with
  | UpdateBumpRev => (Ok tt, set_rev (meta_rev db + 1) db)
  | SelectRev => (Ok (meta_rev db), db)
  | SelectKv k => (Ok (List.find (fun r => String.eqb (kv_key r) k) (kv_rows db)), db)
  | SelectKvRange lo hi =>
      (Ok (merge_sort kv_le (List.filter (fun r => in_range lo hi (kv_key r)) (kv_rows db))), db)
  | UpsertKv k v c m l => (Ok tt, set_kv (upsert_row k v c m l (kv_rows db)) db)
  | DeleteKv k =>
      let rest := List.filter (fun r => negb (String.eqb (kv_key r) k)) (kv_rows db) in
      (Ok (length (kv_rows db) - length rest)%nat, set_kv rest db)
  | SelectLeaseExists id => (Ok (existsb (fun r => lr_id r =? id) (lease_rows db)), db)
  | SelectLeaseTtl id => (Ok (option_map lr_ttl (List.find (fun r => lr_id r =? id) (lease_rows db))), db)
  | SelectNextLeaseId =>
      (Ok (match max_lease_id (lease_rows db) with Some m => m | None => 0 end + 1), db)
  | InsertLease id ttl expires =>
      if existsb (fun r => lr_id r =? id) (lease_rows db)
      then (Err "UNIQUE constraint failed: leases.id"%string, db)
      else (Ok tt, set_lease_rows (lease_rows db ++ [mkLeaseRow id ttl expires]) db)
  | UpdateLease expires id =>
      (Ok tt, set_lease_rows (map (fun r => if lr_id r =? id then mkLeaseRow id (lr_ttl r) expires else r)
                                  (lease_rows db)) db)
  | SelectLeaseIds sel => (Ok (map lr_id (List.filter (sel_row sel) (lease_rows db))), db)
  | SelectLeaseKeys id => (Ok (map kv_key (List.filter (has_lease id) (kv_rows db))), db)
  | DeleteLease id =>
      (Ok tt, set_lease_rows (List.filter (fun r => negb (lr_id r =? id)) (lease_rows db)) db)
  | InsertEvent rev k kind v =>
      if existsb (fun r => er_rev r =? rev) (event_rows db)
      then (Err "UNIQUE constraint failed: events.rev"%string, db)
      else (Ok tt, set_events (event_rows db ++ [mkEventRow rev k kind v]) db)
  | SelectEvents since lo hi =>
      (Ok (merge_sort er_le (List.filter (fun r => (since <? er_rev r) && in_range lo hi (er_key r))
                                         (event_rows db))), db)
  | DeleteEvents below =>
      let rest := List.filter (fun r => below <? er_rev r) (event_rows db) in
      (Ok (length (event_rows db) - length rest)%nat, set_events rest db)
  end.

(** ** Programs of statements *)

Inductive prog (A : Type) : Type :=
| PRet (r : result A StoreError)
| PStmt {X : Type} (st : Sql X) (k : X -> prog A).
Arguments PRet {A} r.
Arguments PStmt {A X} st k.

Fixpoint pbind {A B} (p : prog A) (f : A -> prog B) : prog B :=
  match p with
  | PRet (Ok a) => f a
  | PRet (Err e) => PRet (Err e)
  | PStmt st k => PStmt st (fun x => pbind (k x) f)
  end.

Notation "'sql!' x := st 'in' k" := (PStmt st (fun x => k))
  (at level 200, x pattern, st at level 100, k at level 200,
   format "'[v' 'sql!'  x  :=  st  'in' '/' k ']'") : rust_scope.
Notation "'let!' x := p 'in' k" := (pbind p (fun x => k))
  (at level 200, x pattern, p at level 100, k at level 200,
   format "'[v' 'let!'  x  :=  p  'in' '/' k ']'") : rust_scope.
Notation pret a := (PRet (Ok a)).

(** The engine's faults: [Some e] fails the next statement with message [e]
    before it has an effect. *)
Definition Faults : Type := list (option string).

Fixpoint run {A} (p : prog A) (fs : Faults) (db : Db) : result A StoreError * Faults * Db :=
  match p with
  | PRet r => (r, fs, db)
  | PStmt st k =>
      match fs with
      | Some e :: fs' => (Err (Backend e), fs', db)
      | _ => match exec st db with
             | (Ok x, db') => run (k x) (List.tl fs) db'
             | (Err e, db') => (Err (Backend e), List.tl fs, db')
             end
      end
  end.

(** ** The methods *)

Definition bump_rev : prog Z :=
  sql! _ := UpdateBumpRev in
  sql! rev := SelectRev in
  pret rev.

Definition kind_code (kind : EventKind) : Z := match kind with Put => 0 | Delete => 1 end.
Definition kind_of_code (k : Z) : EventKind := if k =? 0 then Put else Delete.

Definition append_event (rev : Z) (key : string) (kind : EventKind) (value : string) : prog unit :=
  sql! _ := InsertEvent rev key (kind_code kind) value in
  pret tt.

(** The loop of [prefix_range]: drop trailing 0xFF bytes, then increment the last
    byte; the bytes are handled from the last one. *)
Fixpoint bump_last (rev_bytes : list ascii) : option (list ascii) :=
  match rev_bytes with
  | [] => None
  | last :: rest =>
      if byte_val last <? 255 then Some (byte_of (byte_val last + 1) :: rest)
      else bump_last rest
  end.

Definition prefix_range (prefix : string) : string * option string :=
  if String.eqb prefix "" then (""%string, None)
  else match bump_last (List.rev (list_ascii_of_string prefix)) with
       | Some e => (prefix, Some (from_utf8_lossy (string_of_list_ascii (List.rev e))))
       | None => (prefix, None)
       end.

Definition q_get (key : string) : prog (option KeyValue) :=
  sql! kv := SelectKv key in
  pret kv.

Definition q_list (prefix : string) : prog (list KeyValue) :=
  let '(lo, hi) := prefix_range prefix in
  sql! rows := SelectKvRange lo hi in
  pret rows.

Definition q_put (key value : string) (lease : option Z) : prog Z :=
  let write :=
    let! rev := bump_rev in
    sql! _ := UpsertKv key value rev rev lease in
    let! _ := append_event rev key Put value in
    pret rev in
  match lease with
  | Some id =>
      sql! exists_ := SelectLeaseExists id in
      if exists_ then write else PRet (Err (NoSuchLease id))
  | None => write
  end.

(** The result says whether a row was deleted, and at which revision. *)
Definition q_delete (key : string) : prog (option Z) :=
  sql! n := DeleteKv key in
  if Nat.eqb n 0 then pret None
  else
    let! rev := bump_rev in
    let! _ := append_event rev key Delete "" in
    pret (Some rev).

Definition q_cas (key : string) (expect_mod_rev : option Z) (value : string) (lease : option Z)
    : prog CasResult :=
  sql! current := SelectKv key in
  let cur_mod := option_map kv_mod current in
  if negb (bool_decide (cur_mod = expect_mod_rev)) then
    sql! cur_rev := SelectRev in
    pret (mkCas false cur_rev current)
  else
    let! rev := bump_rev in
    let create_rev := match current with Some kv => kv_create kv | None => rev end in
    sql! _ := UpsertKv key value create_rev rev lease in
    let! _ := append_event rev key Put value in
    pret (mkCas true rev None).

Definition q_lease_grant (now ttl_secs : Z) : prog Z :=
  let expires := i64_add now ttl_secs in
  sql! id := SelectNextLeaseId in
  sql! _ := InsertLease id ttl_secs expires in
  pret id.

Definition q_lease_keepalive (now id : Z) : prog Z :=
  sql! ttl := SelectLeaseTtl id in
  match ttl with
  | None => PRet (Err (NoSuchLease id))
  | Some ttl =>
      let expires := i64_add now ttl in
      sql! _ := UpdateLease expires id in
      pret expires
  end.

(** The inner loop of [reap_leases]: the keys of one lease. *)
Fixpoint reap_keys (keys : list string) (acc : list (string * Z)) : prog (list (string * Z)) :=
  match keys with
  | [] => pret acc
  | k :: ks =>
      sql! _ := DeleteKv k in
      let! rev := bump_rev in
      let! _ := append_event rev k Delete "" in
      reap_keys ks (acc ++ [(k, rev)])
  end.

Fixpoint reap_ids (ids : list Z) (acc : list (string * Z)) : prog (list (string * Z)) :=
  match ids with
  | [] => pret acc
  | id :: ids' =>
      sql! keys := SelectLeaseKeys id in
      let! acc' := reap_keys keys acc in
      sql! _ := DeleteLease id in
      reap_ids ids' acc'
  end.

Definition q_reap (sel : LeaseSel) : prog (list (string * Z)) :=
  sql! ids := SelectLeaseIds sel in
  reap_ids ids [].

Definition q_revision : prog Z :=
  sql! rev := SelectRev in
  pret rev.

Definition row_to_event (r : EventRow) : Event :=
  mkEvent (kind_of_code (er_kind r)) (er_key r) (er_value r) (er_rev r).

Definition q_changes (since : Z) (prefix : string) : prog (list Event) :=
  let '(lo, hi) := prefix_range prefix in
  sql! rows := SelectEvents since lo hi in
  pret (map row_to_event rows).

Definition q_compact (below : Z) : prog nat :=
  sql! n := DeleteEvents below in
  pret n.

(** ** Watchers *)

(** The two ends of an [mpsc] channel: what was sent and not yet received, and
    whether the receiver still exists. *)
Record Chan : Type := mkChan { ch_queue : list Event; ch_open : bool }.
Record Watcher : Type := mkWatcher { w_prefix : string; w_tx : nat }.

Record SqliteStore : Type := mkSqlite {
  conn : Db;
  faults : Faults;
  watchers : list Watcher;
  chans : list Chan
}.

Definition open_in_memory (fs : Faults) : SqliteStore := mkSqlite init_db fs [] [].

(** [tx.send(ev)]: the new channels, and whether the receiver was there. *)
Definition send (tx : nat) (ev : Event) (cs : list Chan) : bool * list Chan :=
  match cs !! tx with
  | Some (mkChan q true) => (true, <[tx := mkChan (q ++ [ev]) true]> cs)
  | _ => (false, cs)
  end.

Fixpoint broadcast_to (ev : Event) (ws : list Watcher) (cs : list Chan) : list Watcher * list Chan :=
  match ws with
  | [] => ([], cs)
  | w :: ws' =>
      let '(keep, cs1) := if starts_with (w_prefix w) (ev_key ev) then send (w_tx w) ev cs
                          else (true, cs) in
      let '(rest, cs2) := broadcast_to ev ws' cs1 in
      (if keep then w :: rest else rest, cs2)
  end.

Definition broadcast (ev : Event) (s : SqliteStore) : SqliteStore :=
  let '(ws, cs) := broadcast_to ev (watchers s) (chans s) in
  mkSqlite (conn s) (faults s) ws cs.

(** Runs a program on the locked connection. *)
Definition with_conn {A} (p : prog A) : M SqliteStore StoreError A :=
  fun s => let '(r, fs, db) := run p (faults s) (conn s) in
           (r, mkSqlite db fs (watchers s) (chans s)).

Definition notify (ev : Event) : M SqliteStore StoreError unit :=
  fun s => (Ok tt, broadcast ev s).

Definition reap_leases (sel : LeaseSel) : M SqliteStore StoreError (list string) :=
  let? deleted_keys := with_conn (q_reap sel) in
  let out := map fst deleted_keys in
  let? _ := mfor deleted_keys (fun '(k, rev) => notify (mkEvent Delete k "" rev)) in
  mret out.

Definition sqlite_put (key value : string) (lease : option Z) : M SqliteStore StoreError Z :=
  let? rev := with_conn (q_put key value lease) in
  let? _ := notify (mkEvent Put key value rev) in
  mret rev.

Definition sqlite_delete (key : string) : M SqliteStore StoreError bool :=
  let? r := with_conn (q_delete key) in
  match r with
  | None => mret false
  | Some rev => let? _ := notify (mkEvent Delete key "" rev) in mret true
  end.

Definition sqlite_cas (key : string) (expect : option Z) (value : string) (lease : option Z)
    : M SqliteStore StoreError CasResult :=
  let? result := with_conn (q_cas key expect value lease) in
  if cas_succeeded result then
    let? _ := notify (mkEvent Put key value (cas_revision result)) in
    mret result
  else mret result.

Definition sqlite_watch (prefix : string) (s : SqliteStore) : nat * SqliteStore :=
  let rx := length (chans s) in
  (rx, mkSqlite (conn s) (faults s) (watchers s ++ [mkWatcher prefix rx])
                (chans s ++ [mkChan [] true])).

#[global] Instance SqliteStore_Store : Store SqliteStore := {
  get := fun k => with_conn (q_get k);
  list_prefix := fun p => with_conn (q_list p);
  put := sqlite_put;
  delete_key := sqlite_delete;
  compare_and_swap := sqlite_cas;
  lease_grant := fun now ttl => with_conn (q_lease_grant now ttl);
  lease_keepalive := fun now id => with_conn (q_lease_keepalive now id);
  lease_revoke := fun id => reap_leases (SelId id);
  lease_sweep := fun now => reap_leases (SelExpired now);
  current_revision := with_conn q_revision;
  changes_since := fun since p => with_conn (q_changes since p);
  watch := sqlite_watch;
  compact := fun below => with_conn (q_compact below)
}.
