(* ===== verification/SqliteSpec.v ===== *)
(** * SqliteStore implements the store interface

    The abstraction from tables to the abstract store, the table invariant, and
    the proof that every method of [SqliteStore] meets its post-condition, also
    when the engine fails a statement in the middle of a method. *)

From Stdlib Require Import ZArith Lia Bool List String Ascii.
From stdpp Require Import base tactics list gmap strings sorting.
From S2P Require Import Prelude RustStr Utf8 Store Sqlite.

Open Scope Z_scope.

(** ** Abstraction and invariant *)

Definition kv_map (rows : list KeyValue) : gmap string KeyValue :=
  list_to_map (map (fun r => (kv_key r, r)) rows).
Definition lease_map (rows : list LeaseRow) : gmap Z Lease :=
  list_to_map (map (fun r => (lr_id r, mkLease (lr_ttl r) (lr_expires r))) rows).

Definition abs_db (db : Db) : AStore :=
  mkA (meta_rev db) (kv_map (kv_rows db)) (lease_map (lease_rows db))
      (map row_to_event (event_rows db)).

Definition kv_ok (rev : Z) (r : KeyValue) : Prop := 0 < kv_create r <= kv_mod r /\ kv_mod r <= rev.

Record dbwf (db : Db) : Prop := {
  wf_rev : 0 <= meta_rev db;
  wf_keys : NoDup (map kv_key (kv_rows db));
  wf_kv : Forall (kv_ok (meta_rev db)) (kv_rows db);
  wf_ids : NoDup (map lr_id (lease_rows db));
  wf_pos : Forall (fun r => 0 < lr_id r) (lease_rows db);
  wf_evs : StronglySorted Z.lt (map er_rev (event_rows db));
  wf_evs_le : Forall (fun r => er_rev r <= meta_rev db) (event_rows db)
}.

Definition no_faults (fs : Faults) : Prop := Forall (fun f => f = None) fs.

Lemma init_wf : dbwf init_db.
Proof. split; simpl; try lia; constructor. Qed.

(** ** Rows and maps *)

Lemma kv_map_cons r rows : kv_map (r :: rows) = <[kv_key r := r]> (kv_map rows).
Proof. done. Qed.

Lemma find_kv_map k rows :
  List.find (fun r => String.eqb (kv_key r) k) rows = kv_map rows !! k.
Proof.
  induction rows as [|r rows IH]; [done|]. cbn [List.find]. rewrite kv_map_cons.
  destruct (String.eqb_spec (kv_key r) k) as [->|Hn].
  - by rewrite lookup_insert_eq.
  - by rewrite lookup_insert_ne.
Qed.

Lemma kv_map_upsert k v c m l rows :
  kv_map (upsert_row k v c m l rows) =
    <[k := mkKv k v (match kv_map rows !! k with Some r => kv_create r | None => c end) m l]> (kv_map rows).
Proof.
  induction rows as [|r rows IH]; [done|]. cbn [upsert_row].
  destruct (String.eqb_spec (kv_key r) k) as [Heq|Hn].
  - rewrite !kv_map_cons, Heq. cbn [kv_key]. rewrite lookup_insert_eq, insert_insert_eq. done.
  - rewrite !kv_map_cons, IH, lookup_insert_ne by done. by rewrite insert_insert_ne.
Qed.

Lemma kv_map_filter_key k rows :
  kv_map (List.filter (fun r => negb (String.eqb (kv_key r) k)) rows) = delete k (kv_map rows).
Proof.
  induction rows as [|r rows IH]; [symmetry; apply delete_empty|]. cbn [List.filter].
  destruct (String.eqb_spec (kv_key r) k) as [Heq|Hn]; simpl; rewrite ?kv_map_cons, IH.
  - by rewrite Heq, delete_insert_eq.
  - by rewrite delete_insert_ne.
Qed.

Lemma fst_pairs {A K V} (f : A -> K) (g : A -> V) l : (map (fun r => (f r, g r)) l).*1 = map f l.
Proof. induction l as [|x l IH]; cbn; [done|]. f_equal. exact IH. Qed.

Lemma kv_map_lookup rows k r :
  NoDup (map kv_key rows) -> kv_map rows !! k = Some r <-> In r rows /\ kv_key r = k.
Proof.
  intros Hnd. unfold kv_map. rewrite <- elem_of_list_to_map.
  - rewrite list_elem_of_In, in_map_iff. split.
    + intros (x & [= <- <-] & Hx). done.
    + intros [Hr <-]. eauto.
  - rewrite fst_pairs. exact Hnd.
Qed.

Lemma lease_map_lookup rows id l :
  NoDup (map lr_id rows) ->
  lease_map rows !! id = Some l <-> In (mkLeaseRow id (l_ttl l) (l_expires l)) rows.
Proof.
  intros Hnd. unfold lease_map. rewrite <- elem_of_list_to_map.
  - rewrite list_elem_of_In, in_map_iff. split.
    + intros ([i t e] & [= <- <-] & Hx). done.
    + intros Hr. eexists; split; [|exact Hr]. by destruct l.
  - rewrite fst_pairs. exact Hnd.
Qed.

Lemma lease_map_cons r rows :
  lease_map (r :: rows) = <[lr_id r := mkLease (lr_ttl r) (lr_expires r)]> (lease_map rows).
Proof. done. Qed.

Lemma existsb_lease id rows :
  existsb (fun r => lr_id r =? id) rows = bool_decide (is_Some (lease_map rows !! id)).
Proof.
  induction rows as [|r rows IH]; [done|]. simpl. rewrite IH, lease_map_cons.
  destruct (Z.eqb_spec (lr_id r) id) as [->|Hn]; simpl.
  - rewrite bool_decide_eq_true_2; [done|]. rewrite lookup_insert_eq. eauto.
  - rewrite lookup_insert_ne by done. done.
Qed.

Lemma find_lease id rows :
  option_map lr_ttl (List.find (fun r => lr_id r =? id) rows) = l_ttl <$> lease_map rows !! id.
Proof.
  induction rows as [|r rows IH]; [done|]. cbn [List.find]. rewrite lease_map_cons.
  destruct (Z.eqb_spec (lr_id r) id) as [->|Hn].
  - by rewrite lookup_insert_eq.
  - by rewrite lookup_insert_ne.
Qed.

Lemma lease_map_snoc rows r :
  lease_map rows !! lr_id r = None ->
  lease_map (rows ++ [r]) = <[lr_id r := mkLease (lr_ttl r) (lr_expires r)]> (lease_map rows).
Proof.
  induction rows as [|x rows IH]; [done|]. rewrite lease_map_cons. intros H.
  apply lookup_insert_None in H as [H1 H2]. simpl. rewrite lease_map_cons, IH by done.
  by rewrite insert_insert_ne.
Qed.

Lemma lease_map_update id e rows :
  NoDup (map lr_id rows) ->
  lease_map (map (fun r => if lr_id r =? id then mkLeaseRow id (lr_ttl r) e else r) rows) =
    match lease_map rows !! id with
    | Some l => <[id := mkLease (l_ttl l) e]> (lease_map rows)
    | None => lease_map rows
    end.
Proof.
  induction rows as [|r rows IH]; [done|]. cbn [map]. rewrite !lease_map_cons.
  intros Hnd. apply NoDup_cons in Hnd as [Hni Hnd]. rewrite (IH Hnd).
  destruct (Z.eqb_spec (lr_id r) id) as [Heq|Hn].
  - subst id. rewrite lookup_insert_eq. cbn [lr_id lr_ttl lr_expires].
    replace (lease_map rows !! lr_id r) with (@None Lease).
    + by rewrite insert_insert_eq.
    + symmetry. apply not_elem_of_list_to_map. rewrite fst_pairs. exact Hni.
  - rewrite lookup_insert_ne by done. destruct (lease_map rows !! id); [|done].
    by rewrite insert_insert_ne.
Qed.

Lemma lease_map_filter id rows :
  lease_map (List.filter (fun r => negb (lr_id r =? id)) rows) = delete id (lease_map rows).
Proof.
  induction rows as [|r rows IH]; [symmetry; apply delete_empty|]. cbn [List.filter].
  destruct (Z.eqb_spec (lr_id r) id) as [Heq|Hn]; simpl; rewrite ?lease_map_cons, IH.
  - by rewrite Heq, delete_insert_eq.
  - by rewrite delete_insert_ne.
Qed.

Lemma max_lease_id_ge rows r :
  In r rows -> exists m, max_lease_id rows = Some m /\ lr_id r <= m.
Proof.
  assert (forall rs m, m <= fold_left (fun m r => Z.max m (lr_id r)) rs m /\
            (forall x, In x rs -> lr_id x <= fold_left (fun m r => Z.max m (lr_id r)) rs m)) as Hf.
  { induction rs as [|y rs IH]; intros m; simpl; [split; [lia|done]|].
    destruct (IH (Z.max m (lr_id y))) as [H1 H2]. split; [lia|].
    intros x [->|Hx]; [lia|auto]. }
  destruct rows as [|y rows]; [done|]. intros Hr. simpl. eexists; split; [done|].
  destruct (Hf rows (lr_id y)) as [H1 H2]. destruct Hr as [->|Hr]; auto.
Qed.

(** ** Statements keep the table invariant *)

Lemma dbwf_bump db : dbwf db -> dbwf (set_rev (meta_rev db + 1) db).
Proof.
  intros [H1 H2 H3 H4 H5 H6 H7]. split; simpl; try done; try lia.
  - eapply List.Forall_impl; [|exact H3]. unfold kv_ok; intros; simpl; lia.
  - eapply List.Forall_impl; [|exact H7]. simpl; intros; lia.
Qed.

Lemma upsert_keys k v c m l rows x :
  In x (map kv_key (upsert_row k v c m l rows)) <-> x = k \/ In x (map kv_key rows).
Proof.
  induction rows as [|r rows IH]; simpl; [intuition congruence|].
  destruct (String.eqb_spec (kv_key r) k) as [Heq|Hn]; simpl; [intuition congruence|].
  rewrite IH. intuition congruence.
Qed.

Lemma upsert_NoDup k v c m l rows :
  NoDup (map kv_key rows) -> NoDup (map kv_key (upsert_row k v c m l rows)).
Proof.
  induction rows as [|r rows IH]; simpl; intros H.
  - repeat constructor. set_solver.
  - apply NoDup_cons in H as [Hni Hnd].
    destruct (String.eqb_spec (kv_key r) k) as [Heq|Hn]; simpl; apply NoDup_cons.
    + rewrite <- Heq. done.
    + split; [|auto]. rewrite list_elem_of_In, upsert_keys. intros [Hx|Hin]; [done|].
      apply Hni. by apply list_elem_of_In.
Qed.

Lemma dbwf_upsert k v c l db :
  dbwf db -> 0 < c <= meta_rev db ->
  dbwf (set_kv (upsert_row k v c (meta_rev db) l (kv_rows db)) db).
Proof.
  intros [H1 H2 H3 H4 H5 H6 H7] Hc. split; simpl; try done.
  - by apply upsert_NoDup.
  - clear -H3 Hc. induction H3 as [|r rows Hr Hrs IH]; simpl.
    + repeat constructor; unfold kv_ok; simpl; lia.
    + destruct (String.eqb (kv_key r) k); constructor; auto.
      unfold kv_ok in *; simpl; lia.
Qed.

Lemma filter_NoDup_map {A B} (f : A -> B) (g : A -> bool) l :
  NoDup (map f l) -> NoDup (map f (List.filter g l)).
Proof.
  induction l as [|x l IH]; simpl; [done|]. intros H. apply NoDup_cons in H as [Hni Hnd].
  destruct (g x); simpl; [|auto]. apply NoDup_cons. split; [|auto].
  rewrite list_elem_of_In, in_map_iff in *. intros (y & Hy & Hin).
  apply Hni. apply filter_In in Hin as [Hin _]. eauto.
Qed.

Lemma filter_Forall {A} (P : A -> Prop) (g : A -> bool) l : Forall P l -> Forall P (List.filter g l).
Proof.
  intros H. induction H; simpl; [constructor|]. destruct (g x); [constructor|]; auto.
Qed.

Lemma dbwf_filter_kv g db : dbwf db -> dbwf (set_kv (List.filter g (kv_rows db)) db).
Proof.
  intros []. split; simpl; try done; auto using filter_NoDup_map, filter_Forall.
Qed.

Lemma dbwf_filter_lease g db : dbwf db -> dbwf (set_lease_rows (List.filter g (lease_rows db)) db).
Proof.
  intros []. split; simpl; try done; auto using filter_NoDup_map, filter_Forall.
Qed.

Lemma filter_sorted_map {A} (f : A -> Z) (g : A -> bool) l :
  StronglySorted Z.lt (map f l) -> StronglySorted Z.lt (map f (List.filter g l)).
Proof.
  induction l as [|x l IH]; simpl; [done|]. intros H.
  apply StronglySorted_inv in H as [H1 H2]. destruct (g x); simpl; [|auto].
  constructor; [auto|]. rewrite Forall_map in *. by apply filter_Forall.
Qed.

Lemma dbwf_filter_events g db : dbwf db -> dbwf (set_events (List.filter g (event_rows db)) db).
Proof.
  intros []. split; simpl; try done; auto using filter_sorted_map, filter_Forall.
Qed.

Lemma dbwf_update_lease e id db :
  dbwf db ->
  dbwf (set_lease_rows (map (fun r => if lr_id r =? id then mkLeaseRow id (lr_ttl r) e else r)
                            (lease_rows db)) db).
Proof.
  intros [H1 H2 H3 H4 H5 H6 H7].
  assert (forall rows, map lr_id (map (fun r => if lr_id r =? id then mkLeaseRow id (lr_ttl r) e else r) rows)
            = map lr_id rows) as Hm.
  { intros rows. rewrite List.map_map. apply map_ext. intros r.
    destruct (Z.eqb_spec (lr_id r) id); simpl; congruence. }
  split; simpl; try done; rewrite ?Hm; try done.
  rewrite Forall_map. eapply List.Forall_impl; [|exact H5]. simpl. intros r Hr.
  destruct (Z.eqb_spec (lr_id r) id); simpl; lia.
Qed.

Lemma dbwf_insert_lease r db :
  dbwf db -> 0 < lr_id r -> lease_map (lease_rows db) !! lr_id r = None ->
  dbwf (set_lease_rows (lease_rows db ++ [r]) db).
Proof.
  intros [H1 H2 H3 H4 H5 H6 H7] Hpos Hnone. split; simpl; try done.
  - rewrite map_app. simpl. apply NoDup_app. repeat split; [done| |repeat constructor; set_solver].
    intros x Hx Hx'. apply list_elem_of_singleton in Hx' as ->.
    revert Hnone. unfold lease_map. apply not_eq_None_Some.
    apply list_elem_of_In, in_map_iff in Hx as (y & Hy & Hin).
    rewrite <- Hy. eexists. apply elem_of_list_to_map_1; [by rewrite fst_pairs|].
    apply list_elem_of_In, in_map_iff. eauto.
  - apply Forall_app. split; [done|]. by repeat constructor.
Qed.

Lemma sorted_snoc l z :
  StronglySorted Z.lt l -> Forall (fun x => x < z) l -> StronglySorted Z.lt (l ++ [z]).
Proof.
  induction l as [|x l IH]; intros Hs Hf; simpl; [repeat constructor|].
  apply StronglySorted_inv in Hs as [Hs Hx]. inversion Hf; subst.
  constructor; [auto|]. apply Forall_app. split; [done|]. by repeat constructor.
Qed.

Lemma dbwf_insert_event rev k kind v db :
  dbwf db -> rev <= meta_rev db -> Forall (fun r => er_rev r < rev) (event_rows db) ->
  dbwf (set_events (event_rows db ++ [mkEventRow rev k kind v]) db).
Proof.
  intros [H1 H2 H3 H4 H5 H6 H7] Hle Hlt. split; simpl; try done.
  - rewrite map_app. apply sorted_snoc; [done|]. by rewrite Forall_map.
  - apply Forall_app. split; [done|]. by repeat constructor.
Qed.

Lemma event_fresh rev db :
  Forall (fun r => er_rev r < rev) (event_rows db) ->
  existsb (fun r => er_rev r =? rev) (event_rows db) = false.
Proof.
  intros H. induction H as [|x l Hx Hl IH]; simpl; [done|]. rewrite IH, orb_false_r.
  apply Z.eqb_neq. lia.
Qed.

Lemma events_before_bump db : dbwf db -> Forall (fun r => er_rev r < meta_rev db + 1) (event_rows db).
Proof. intros [H1 H2 H3 H4 H5 H6 H7]. eapply List.Forall_impl; [|exact H7]. simpl; lia. Qed.

(** ** Running programs *)

Lemma run_pbind {A B} (p : prog A) (f : A -> prog B) fs db :
  run (pbind p f) fs db =
    match run p fs db with
    | (Ok a, fs', db') => run (f a) fs' db'
    | (Err e, fs', db') => (Err e, fs', db')
    end.
Proof.
  revert fs db; induction p as [[a|e]|X st k IH]; intros fs db; cbn [pbind run]; [done|done|].
  destruct fs as [|[e|] fs]; [|done|]; destruct (exec st db) as [[x|e] db']; done || apply IH.
Qed.

(** ** A program logic for statement programs

    [out p db Q]: whatever the fault schedule, [p] started on [db] ends with a
    result and a database in [Q], and reports a backend error only if the
    schedule has a fault. *)

Definition out {A} (p : prog A) (db : Db) (Q : result A StoreError -> Db -> Prop) : Prop :=
  forall fs, let '(r, fs', db') := run p fs db in
    Q r db' /\ (no_faults fs -> no_faults fs' /\ ~ backend_error r).

Lemma no_faults_some e fs : ~ no_faults (Some e :: fs).
Proof. intros H. inversion H; done. Qed.
Lemma no_faults_tl fs : no_faults fs -> no_faults (List.tl fs).
Proof. intros H. destruct H; simpl; [constructor|done]. Qed.
Lemma ok_no_backend {A} (a : A) : ~ backend_error (Ok a).
Proof. intros [e He]; done. Qed.
Lemma nolease_no_backend {A} id : ~ backend_error (@Err A _ (NoSuchLease id)).
Proof. intros [e He]; done. Qed.

#[export] Hint Resolve ok_no_backend nolease_no_backend : rust.
#[export] Hint Resolve dbwf_bump dbwf_upsert dbwf_filter_kv dbwf_filter_lease dbwf_filter_events
  dbwf_update_lease dbwf_insert_lease dbwf_insert_event : rust.

Lemma out_ret {A} (r : result A StoreError) db Q : Q r db -> ~ backend_error r -> out (PRet r) db Q.
Proof. intros H1 H2 fs. simpl. auto. Qed.

Lemma out_stmt {A X} (st : Sql X) (k : X -> prog A) db x db' Q :
  (forall e, Q (Err (Backend e)) db) -> exec st db = (Ok x, db') -> out (k x) db' Q ->
  out (PStmt st k) db Q.
Proof.
  intros He Hex Hk fs. cbn [run]. destruct fs as [|[e|] fs].
  - rewrite Hex. exact (Hk []).
  - split; [apply He|]. by intros ?%no_faults_some.
  - rewrite Hex. specialize (Hk fs). simpl. destruct (run (k x) fs db') as [[r fs'] db''].
    destruct Hk as [H1 H2]. split; [done|]. intros Hn. apply H2. by apply (no_faults_tl (None :: fs)).
Qed.

Lemma out_bind {A B} (p : prog A) (f : A -> prog B) db Q :
  out p db (fun r db' => match r with Ok a => out (f a) db' Q | Err e => Q (Err e) db' end) ->
  out (pbind p f) db Q.
Proof.
  intros H fs. rewrite run_pbind. specialize (H fs). destruct (run p fs db) as [[[a|e] fs'] db'].
  - destruct H as [H1 H2]. specialize (H1 fs'). destruct (run (f a) fs' db') as [[r fs''] db''].
    destruct H1 as [H3 H4]. split; [done|]. intros Hn. apply H4. by apply H2.
  - destruct H as [H1 H2]. split; [done|]. intros Hn. destruct (H2 Hn) as [H3 H4].
    split; [done|]. intros [e' [= ->]]. apply H4. by exists e'.
Qed.

Lemma out_mono {A} (p : prog A) db (Q Q' : result A StoreError -> Db -> Prop) :
  (forall r db', Q r db' -> Q' r db') -> out p db Q -> out p db Q'.
Proof.
  intros HQ H fs. specialize (H fs). destruct (run p fs db) as [[r fs'] db'].
  destruct H; split; auto.
Qed.

(** A method establishes its post-condition and keeps the table invariant. *)
Definition qmeets {A} (p : prog A) (post : AStore -> result A StoreError -> AStore -> Prop) : Prop :=
  forall db, dbwf db -> out p db (fun r db' => dbwf db' /\ post (abs_db db) r (abs_db db')).

(** Steps over the next statement; leaves the obligation of its failure first. *)
Ltac stmt := eapply out_stmt; [ | cbn [exec]; reflexivity | ].
Ltac finish := apply out_ret; auto with rust.

(** ** Reads *)

Lemma read_meets {A B} (post : AStore -> result B StoreError -> AStore -> Prop) (st : Sql A) (f : A -> B)
    (val : Db -> A) :
  (forall db, exec st db = (Ok (val db), db)) ->
  (forall db, dbwf db -> post (abs_db db) (Ok (f (val db))) (abs_db db)) ->
  (forall db e, post (abs_db db) (Err (Backend e)) (abs_db db)) ->
  qmeets (PStmt st (fun y => pret (f y))) post.
Proof. intros Hex Hok Herr db Hwf. eapply out_stmt; [auto|apply Hex|finish]. Qed.

Lemma partial_write_same k new a a' :
  a_rev a <= a_rev a' <= a_rev a + 1 -> a_kv a' = a_kv a -> a_leases a' = a_leases a ->
  a_events a' = a_events a -> partial_write k new a a'.
Proof. intros H1 H2 H3 H4. split; rewrite ?H2; auto. done. Qed.

(** ** The write block: bump the revision, upsert the row, log the event *)

Section Commit.
Context {A : Type} (k v : string) (create : Z -> Z) (l : option Z) (ret : Z -> A).

Definition commit : prog A :=
  let! rev := bump_rev in
  sql! _ := UpsertKv k v (create rev) rev l in
  let! _ := append_event rev k Put v in
  pret (ret rev).

Definition commit_post (a : AStore) (r : result A StoreError) (a' : AStore) : Prop :=
  match r with
  | Ok x => a' = a_write k v l a /\ x = ret (a_rev a')
  | Err (Backend _) => partial_write k (a_kv (a_write k v l a) !! k) a a'
  | Err (NoSuchLease _) => False
  end.

Lemma commit_abs db c :
  (kv_map (kv_rows db) !! k = None -> c = meta_rev db + 1) ->
  abs_db (mkDb (meta_rev db + 1) (upsert_row k v c (meta_rev db + 1) l (kv_rows db))
               (lease_rows db) (event_rows db ++ [mkEventRow (meta_rev db + 1) k 0 v]))
    = a_write k v l (abs_db db).
Proof.
  intros Hnew. unfold abs_db, a_write; simpl. f_equal.
  - rewrite kv_map_upsert. destruct (kv_map (kv_rows db) !! k) eqn:E; [done|].
    by rewrite Hnew.
  - by rewrite map_app.
Qed.

Lemma commit_out db :
  dbwf db -> 0 < create (meta_rev db + 1) <= meta_rev db + 1 ->
  (kv_map (kv_rows db) !! k = None -> create (meta_rev db + 1) = meta_rev db + 1) ->
  out commit db (fun r db' => dbwf db' /\ commit_post (abs_db db) r (abs_db db')).
Proof.
  intros Hwf Hc Hnew. unfold commit, bump_rev, append_event. cbn [pbind].
  pose proof (dbwf_bump _ Hwf) as Hwf1. pose proof (dbwf_upsert k v _ l _ Hwf1 Hc) as Hwf2.
  stmt. { intros e. split; [done|]. apply partial_write_same; simpl; auto; lia. }
  stmt. { intros e. split; [done|]. apply partial_write_same; simpl; auto; lia. }
  stmt. { intros e. split; [done|]. apply partial_write_same; simpl; auto; lia. }
  eapply out_stmt.
  - intros e. split; [done|]. pose proof (f_equal a_kv (commit_abs db _ Hnew)) as E. simpl in E.
    split; simpl; auto; [lia|by rewrite E; right|].
    intros k' Hk. by rewrite kv_map_upsert, lookup_insert_ne.
  - cbn [exec]. simpl. rewrite event_fresh by (by apply events_before_bump). reflexivity.
  - finish. split; [|split].
    + apply (dbwf_insert_event _ k 0 v _ Hwf2); [simpl; lia|exact (events_before_bump db Hwf)].
    + exact (commit_abs db _ Hnew).
    + done.
Qed.
End Commit.

Lemma q_get_meets k : qmeets (q_get k) (fun a => get_post a k).
Proof.
  apply (read_meets _ (SelectKv k) id (fun db => kv_map (kv_rows db) !! k)).
  - intros db. cbn [exec]. by rewrite find_kv_map.
  - done.
  - done.
Qed.

Lemma q_revision_meets : qmeets q_revision revision_post.
Proof. by apply (read_meets _ SelectRev id meta_rev). Qed.

Lemma q_put_meets k v l : qmeets (q_put k v l) (fun a => put_post a k v l).
Proof.
  intros db Hwf. assert (0 <= meta_rev db) by apply Hwf. 
  assert ((forall id, l = Some id -> is_Some (lease_map (lease_rows db) !! id)) ->
    out (commit k v id l id) db (fun r db' => dbwf db' /\ put_post (abs_db db) k v l r (abs_db db'))) as Hc.
  { intros Hl. eapply out_mono; [|apply commit_out; unfold id; done || lia].
    intros [rev|[e|i]] db' [Hdb Hp]; simpl in *; intuition. }
  unfold q_put. destruct l as [i|]; [|apply Hc; done].
  eapply out_stmt; [|cbn [exec]; reflexivity|].
  - intros e. split; [done|]. apply partial_write_same; auto; lia.
  - rewrite existsb_lease. case_bool_decide as Hex.
    + apply Hc. by intros ? [= <-].
    + finish. split; [done|]. simpl. split; [done|]. split; [|done].
      by apply eq_None_not_Some.
Qed.

Lemma q_cas_meets k e v l : qmeets (q_cas k e v l) (fun a => cas_post a k e v l).
Proof.
  intros db Hwf. assert (0 <= meta_rev db) by apply Hwf. unfold q_cas.
  eapply out_stmt; [|cbn [exec]; rewrite find_kv_map; reflexivity|].
  { intros e'. split; [done|]. apply partial_write_same; auto; lia. }
  change (option_map kv_mod (kv_map (kv_rows db) !! k)) with (kv_mod <$> kv_map (kv_rows db) !! k).
  case_bool_decide as Hexp; simpl negb; cbv iota.
  - set (c := fun rev => match kv_map (kv_rows db) !! k with Some kv => kv_create kv | None => rev end).
    eapply out_mono; [|apply (commit_out k v c l (fun rev => mkCas true rev None) db Hwf)]; unfold c.
    + intros [r|[e'|i]] db' [Hdb Hp]; simpl in *; [|done|done].
      destruct Hp as [Ha ->]. split; [done|]. simpl. rewrite bool_decide_eq_true_2 by done. done.
    + destruct (kv_map (kv_rows db) !! k) as [kv|] eqn:E; [|lia].
      apply kv_map_lookup in E as [Hin _]; [|apply Hwf].
      pose proof (wf_kv _ Hwf) as Hkv. rewrite List.Forall_forall in Hkv.
      destruct (Hkv _ Hin). lia.
    + by intros ->.
  - stmt. { intros e'. split; [done|]. apply partial_write_same; auto; lia. }
    finish. split; [done|]. simpl. by rewrite bool_decide_eq_false_2.
Qed.

Lemma length_filter_key k rows :
  NoDup (map kv_key rows) ->
  (length rows - length (List.filter (fun r => negb (String.eqb (kv_key r) k)) rows) =? 0)%nat
    = negb (bool_decide (is_Some (kv_map rows !! k))).
Proof.
  intros _. induction rows as [|r rows IH]; [done|]. rewrite kv_map_cons. cbn [List.filter length].
  pose proof (List.filter_length_le (fun r => negb (String.eqb (kv_key r) k)) rows) as Hle.
  destruct (String.eqb_spec (kv_key r) k) as [->|Hn]; simpl negb; cbv iota.
  - rewrite lookup_insert_eq, bool_decide_eq_true_2 by eauto. apply Nat.eqb_neq. lia.
  - rewrite lookup_insert_ne by done. rewrite <- IH. reflexivity.
Qed.

(** The delete block: the row is gone, the revision bumped, the event logged. *)
Section Remove.
Context {A : Type} (k : string) (db : Db) (Hwf : dbwf db).
Let rows' := List.filter (fun r => negb (String.eqb (kv_key r) k)) (kv_rows db).

Definition removed_db : Db :=
  mkDb (meta_rev db + 1) rows' (lease_rows db)
       (event_rows db ++ [mkEventRow (meta_rev db + 1) k 1 ""]).

Lemma removed_abs : abs_db removed_db = a_remove k (abs_db db).
Proof.
  unfold abs_db, a_remove, removed_db; simpl. unfold rows'.
  by rewrite kv_map_filter_key, map_app.
Qed.

Lemma removed_wf : dbwf removed_db.
Proof using Hwf.
  pose proof (dbwf_bump _ (dbwf_filter_kv (fun r => negb (String.eqb (kv_key r) k)) _ Hwf)) as H1.
  apply (dbwf_insert_event (meta_rev db + 1) k 1 "" _ H1); [simpl; lia|].
  exact (events_before_bump db Hwf).
Qed.

Lemma remove_partial rev :
  meta_rev db <= rev <= meta_rev db + 1 ->
  partial_write k None (abs_db db) (abs_db (mkDb rev rows' (lease_rows db) (event_rows db))).
Proof using.
  intros Hr. split; simpl; auto; unfold rows'; rewrite ?kv_map_filter_key; try done.
  - rewrite lookup_delete_eq. auto.
  - intros k' Hk. by rewrite lookup_delete_ne.
Qed.

(** Bumping and logging after the row is deleted. *)
Lemma remove_out (f : Z -> prog A) (Q : result A StoreError -> Db -> Prop) :
  (forall e rev, meta_rev db <= rev <= meta_rev db + 1 ->
     Q (Err (Backend e)) (mkDb rev rows' (lease_rows db) (event_rows db))) ->
  out (f (meta_rev db + 1)) removed_db Q ->
  out (let! rev := bump_rev in let! _ := append_event rev k Delete "" in f rev)
      (set_kv rows' db) Q.
Proof using Hwf.
  intros Herr Hk. unfold bump_rev, append_event; cbn [pbind].
  stmt. { intros e. apply Herr. lia. }
  stmt. { intros e. apply Herr. simpl; lia. }
  eapply out_stmt.
  - intros e. apply Herr. simpl; lia.
  - cbn [exec]. simpl. rewrite event_fresh by (by apply events_before_bump). reflexivity.
  - exact Hk.
Qed.
End Remove.

Lemma q_delete_meets k : qmeets (q_delete k) (fun a r a' => delete_post a k (res_map (fun o => bool_decide (is_Some o)) r) a' /\
   match r with Ok (Some rev) => rev = a_rev a' | _ => True end).
Proof.
  intros db Hwf. unfold q_delete. stmt.
  { intros e. split; [done|]. split; [|done]. apply partial_write_same; auto; lia. }
  rewrite length_filter_key by apply Hwf. case_bool_decide as Hex; simpl negb; cbv iota.
  - apply remove_out; [done| |].
    + intros e rev Hrev. split; [|split; [|done]].
      * pose proof (dbwf_filter_kv (fun r => negb (String.eqb (kv_key r) k)) _ Hwf) as H1.
        destruct (Z.eq_dec rev (meta_rev db)) as [->|]; [exact H1|].
        replace rev with (meta_rev db + 1) by lia. apply (dbwf_bump _ H1).
      * simpl. apply remove_partial. lia.
    + finish. split; [by apply removed_wf|]. simpl. rewrite removed_abs. split; [|done].
      rewrite !bool_decide_eq_true_2 by eauto. done.
  - finish. apply eq_None_not_Some in Hex.
    split; [by apply dbwf_filter_kv|]. split; [|done]. simpl.
    split; [by rewrite Hex|]. unfold abs_db; simpl. by rewrite kv_map_filter_key, delete_id.
Qed.

(** ** Leases *)

Lemma q_lease_grant_meets now ttl : qmeets (q_lease_grant now ttl) (fun a => grant_post a now ttl).
Proof.
  intros db Hwf. unfold q_lease_grant. stmt. { done. }
  set (id := (match max_lease_id (lease_rows db) with Some m => m | None => 0 end + 1)).
  assert (0 < id) as Hpos.
  { unfold id. destruct (lease_rows db) as [|r rows] eqn:E; [done|].
    destruct (max_lease_id_ge (r :: rows) r) as (m & -> & Hm); [by left|].
    pose proof (wf_pos _ Hwf) as Hp. rewrite E in Hp. inversion Hp; subst. lia. }
  assert (lease_map (lease_rows db) !! id = None) as Hnone.
  { apply eq_None_not_Some. intros [l Hl]. apply lease_map_lookup in Hl; [|apply Hwf].
    destruct (max_lease_id_ge _ _ Hl) as (m & Hm & Hle). unfold id in *. rewrite Hm in *.
    simpl in Hle. lia. }
  eapply out_stmt; [done| |].
  - cbn [exec]. rewrite existsb_lease, Hnone. simpl. reflexivity.
  - finish. split; [apply dbwf_insert_lease; done|]. simpl. split; [done|]. split; [done|].
    unfold abs_db, a_with_leases; simpl. by rewrite lease_map_snoc.
Qed.

Lemma q_lease_keepalive_meets now id :
  qmeets (q_lease_keepalive now id) (fun a => keepalive_post a now id).
Proof.
  intros db Hwf. unfold q_lease_keepalive.
  eapply out_stmt; [done|cbn [exec]; rewrite find_lease; reflexivity|].
  destruct (lease_map (lease_rows db) !! id) as [l|] eqn:E; simpl.
  - stmt. { done. } finish. split; [by apply dbwf_update_lease|].
    exists l. split; [done|]. split; [done|]. unfold abs_db, a_with_leases; simpl.
    rewrite lease_map_update by apply Hwf. by rewrite E.
  - finish. done.
Qed.

(** Deleting the keys of one lease: all of them, or some of them before a fault. *)
Record partial_keys (ks : list string) (a a' : AStore) : Prop := {
  pk_rev : a_rev a <= a_rev a';
  pk_kv : forall k, a_kv a' !! k = a_kv a !! k \/ (a_kv a' !! k = None /\ In k ks);
  pk_leases : a_leases a' = a_leases a
}.

Lemma reap_keys_out ks acc db :
  dbwf db ->
  out (reap_keys ks acc) db (fun r db' => dbwf db' /\
    match r with
    | Ok acc' => acc' = acc ++ del_log (meta_rev db) ks /\ abs_db db' = a_remove_all ks (abs_db db)
    | Err (Backend _) => partial_keys ks (abs_db db) (abs_db db')
    | Err (NoSuchLease _) => False
    end).
Proof.
  revert acc db; induction ks as [|k ks IH]; intros acc db Hwf; cbn [reap_keys].
  - finish. by rewrite app_nil_r.
  - stmt. { intros e. split; [done|]. split; simpl; auto; lia. }
    pose proof (dbwf_filter_kv (fun r => negb (String.eqb (kv_key r) k)) _ Hwf) as Hwf1.
    apply remove_out; [done| |].
    + intros e rev Hrev. split.
      * destruct (Z.eq_dec rev (meta_rev db)) as [->|]; [exact Hwf1|].
        replace rev with (meta_rev db + 1) by lia. apply (dbwf_bump _ Hwf1).
      * split; simpl; [lia| |done]. intros k'. rewrite kv_map_filter_key.
        destruct (decide (k = k')) as [->|]; [rewrite lookup_delete_eq|rewrite lookup_delete_ne by done]; auto.
    + eapply out_mono; [|apply IH, removed_wf; done].
      intros [acc'|[e|i]] db' [Hdb Hp]; (split; [done|]); [| |done].
      * destruct Hp as [-> Ha]. split; [by rewrite <- app_assoc|].
        by rewrite Ha, removed_abs.
      * rewrite removed_abs in Hp. destruct Hp as [H1 H2 H3]. split; [simpl in *; lia| |done].
        intros k'. destruct (H2 k') as [->|[-> Hin]]; [|right; split; [done|by right]].
        simpl. destruct (decide (k = k')) as [->|]; [rewrite lookup_delete_eq|rewrite lookup_delete_ne by done]; auto.
Qed.

Definition attached (ids : list Z) (a : AStore) (k : string) : Prop :=
  exists kv id, a_kv a !! k = Some kv /\ kv_lease kv = Some id /\ In id ids.

Definition drop_ids (ids : list Z) (ls : gmap Z Lease) : gmap Z Lease :=
  fold_left (fun ls id => delete id ls) ids ls.

Record partial_ids (ids : list Z) (a a' : AStore) : Prop := {
  pi_rev : a_rev a <= a_rev a';
  pi_kv : forall k, a_kv a' !! k = a_kv a !! k \/ (a_kv a' !! k = None /\ attached ids a k);
  pi_leases : forall id, a_leases a' !! id = a_leases a !! id \/ (a_leases a' !! id = None /\ In id ids)
}.

Definition keys_of (id : Z) (db : Db) : list string :=
  map kv_key (List.filter (has_lease id) (kv_rows db)).

Lemma has_lease_true id kv : has_lease id kv = true <-> kv_lease kv = Some id.
Proof.
  unfold has_lease. destruct (kv_lease kv) as [i|]; [|done]. rewrite Z.eqb_eq. intuition congruence.
Qed.

Lemma keys_of_In id db k : dbwf db -> In k (keys_of id db) <-> attached [id] (abs_db db) k.
Proof.
  intros Hwf. unfold keys_of, attached. rewrite in_map_iff. simpl. split.
  - intros (kv & <- & [Hin Hl]%filter_In). exists kv, id.
    rewrite <- has_lease_true. rewrite kv_map_lookup by apply Hwf. auto.
  - intros (kv & i & Hk & Hl & [->|[]]). apply kv_map_lookup in Hk as [Hin Hk]; [|apply Hwf].
    exists kv. split; [done|]. apply filter_In. by rewrite has_lease_true.
Qed.

Lemma keys_of_NoDup id db : dbwf db -> NoDup (keys_of id db).
Proof. intros Hwf. apply filter_NoDup_map, Hwf. Qed.

(** After the keys of [id] are removed, the keys attached to the other ids are
    what they were. *)
Lemma attached_after id ids ks a k :
  (forall k, In k ks <-> attached [id] a k) ->
  In k ks \/ attached ids (a_remove_all ks a) k <-> attached (id :: ids) a k.
Proof.
  intros Hks. rewrite Hks. unfold attached. split.
  - intros [(kv & i & H1 & H2 & [->|[]])|(kv & i & H1 & H2 & H3)].
    + exists kv, i. simpl; auto.
    + exists kv, i. rewrite a_remove_all_kv in H1. case_bool_decide; [done|]. simpl; auto.
  - intros (kv & i & H1 & H2 & [<-|H3]).
    + left. exists kv, id. simpl; auto.
    + destruct (decide (k ∈ ks)) as [Hin|Hni].
      * left. by apply Hks, list_elem_of_In.
      * right. exists kv, i. rewrite a_remove_all_kv, bool_decide_eq_false_2 by done. auto.
Qed.

(** The keys and the lease of one id are gone. *)
Definition reaped_one (id : Z) (ks : list string) (a : AStore) : AStore :=
  a_with_leases (delete id (a_leases a)) (a_remove_all ks a).

Section ReapOne.
Context (id : Z) (ids : list Z) (ks : list string) (a : AStore).
Hypothesis Hks : forall k, In k ks <-> attached [id] a k.

Lemma partial_keys_ids a' : partial_keys ks a a' -> partial_ids (id :: ids) a a'.
Proof using Hks.
  intros [H1 H2 H3]. split; [done| |rewrite H3; auto].
  intros k. destruct (H2 k) as [|[? Hin%Hks]]; [by left|right]. split; [done|].
  destruct Hin as (kv & i & ? & ? & [->|[]]). exists kv, i. simpl; auto.
Qed.

Lemma partial_ids_keys_done : partial_ids (id :: ids) a (a_remove_all ks a).
Proof using Hks.
  split.
  - rewrite a_remove_all_rev. lia.
  - intros k. rewrite a_remove_all_kv. case_bool_decide as Hin; [right|by left]. split; [done|].
    apply (attached_after id ids ks); [done|]. left. by apply list_elem_of_In.
  - rewrite a_remove_all_leases. by left.
Qed.

Lemma partial_ids_step a' : partial_ids ids (reaped_one id ks a) a' -> partial_ids (id :: ids) a a'.
Proof using Hks.
  intros [H1 H2 H3]. destruct partial_ids_keys_done as [G1 G2 G3]. split.
  - simpl in *. lia.
  - intros k. destruct (H2 k) as [->|[-> Hat]]; [apply G2|]. right. split; [done|].
    apply (attached_after id ids ks); [done|]. by right.
  - intros i. simpl in H3. destruct (decide (i = id)) as [->|Hn].
    + right. split; [|by left]. destruct (H3 id) as [->|[-> _]]; [|done]. apply lookup_delete_eq.
    + destruct (H3 i) as [->|[-> Hin]]; [left; by rewrite lookup_delete_ne|].
      right; split; [done|by right].
Qed.

Lemma reaped_step ks2 :
  NoDup ks -> NoDup ks2 -> (forall k, In k ks2 <-> attached ids (reaped_one id ks a) k) ->
  NoDup (ks ++ ks2) /\ (forall k, In k (ks ++ ks2) <-> attached (id :: ids) a k).
Proof using Hks.
  intros Hnd Hnd2 Hks2. split.
  - apply NoDup_app. split; [done|]. split; [|done].
    intros k Hk1 (kv & i & H1 & _)%list_elem_of_In%Hks2. simpl in H1.
    rewrite a_remove_all_kv, bool_decide_eq_true_2 in H1; done.
  - intros k. rewrite in_app_iff, Hks2. by apply attached_after.
Qed.
End ReapOne.

Lemma reap_ids_out ids acc db :
  dbwf db ->
  out (reap_ids ids acc) db (fun r db' => dbwf db' /\
    match r with
    | Ok acc' => exists ks, acc' = acc ++ del_log (meta_rev db) ks /\ NoDup ks /\
        (forall k, In k ks <-> attached ids (abs_db db) k) /\
        abs_db db' = a_with_leases (drop_ids ids (a_leases (abs_db db))) (a_remove_all ks (abs_db db))
    | Err (Backend _) => partial_ids ids (abs_db db) (abs_db db')
    | Err (NoSuchLease _) => False
    end).
Proof.
  revert acc db; induction ids as [|id ids IH]; intros acc db Hwf; cbn [reap_ids].
  - finish. split; [done|]. exists []. rewrite app_nil_r. split; [done|]. split; [constructor|].
    split; [|done]. intros k. split; [done|]. intros (kv & i & _ & _ & []).
  - stmt. { intros e. split; [done|]. split; simpl; auto; lia. }
    change (map kv_key (List.filter (has_lease id) (kv_rows db))) with (keys_of id db).
    pose proof (fun k => keys_of_In id db k Hwf) as Hkeys.
    apply out_bind. eapply out_mono; [|apply (reap_keys_out (keys_of id db) acc db Hwf)].
    intros [acc1|[e|i]] db1 [Hwf1 Hp]; [| |done]; [destruct Hp as [-> Ha1]|eauto using partial_keys_ids].
    stmt. { intros e. split; [done|]. rewrite Ha1. by apply partial_ids_keys_done. }
    set (db2 := set_lease_rows _ db1).
    assert (abs_db db2 = reaped_one id (keys_of id db) (abs_db db)) as Ha2.
    { unfold reaped_one. rewrite <- Ha1. unfold abs_db, a_with_leases; simpl. f_equal.
      rewrite lease_map_filter. f_equal. pose proof (f_equal a_leases Ha1) as E.
      rewrite a_remove_all_leases in E. exact E. }
    assert (meta_rev db2 = meta_rev db + Z.of_nat (length (keys_of id db))) as Hrev2.
    { pose proof (f_equal a_rev Ha2) as E. simpl in E. rewrite a_remove_all_rev in E. exact E. }
    eapply out_mono; [|apply (IH _ db2); by apply dbwf_filter_lease].
    rewrite Ha2. intros [acc2|[e|i]] db3 [Hwf3 Hp]; (split; [done|]); [| |done].
    + destruct Hp as (ks & -> & Hnd & Hks & Ha3). exists (keys_of id db ++ ks).
      split; [by rewrite del_log_app, Hrev2, app_assoc|].
      destruct (reaped_step id ids _ _ Hkeys ks) as [? ?]; auto using keys_of_NoDup.
      split; [done|]. split; [done|]. unfold reaped_one in Ha3.
      by rewrite Ha3, a_remove_all_with_leases, a_remove_all_app.
    + by apply (partial_ids_step _ _ (keys_of id db)).
Qed.

Lemma drop_ids_lookup ids ls i : drop_ids ids ls !! i = if bool_decide (i ∈ ids) then None else ls !! i.
Proof.
  revert ls; induction ids as [|id ids IH]; intros ls.
  - case_bool_decide as H; [by apply not_elem_of_nil in H|done].
  - cbn [drop_ids fold_left]. unfold drop_ids in IH. rewrite IH.
    destruct (decide (i = id)) as [->|Hn].
    + rewrite lookup_delete_eq, (bool_decide_eq_true_2 (id ∈ id :: ids)) by constructor.
      by case_bool_decide.
    + rewrite lookup_delete_ne by done. rewrite (bool_decide_ext (i ∈ id :: ids) (i ∈ ids)); [done|].
      rewrite elem_of_cons. intuition.
Qed.

(** The ids a reap selects are those of the selected leases. *)
Lemma selected_ids sel db i :
  dbwf db -> i ∈ map lr_id (List.filter (sel_row sel) (lease_rows db)) <->
    exists l, lease_map (lease_rows db) !! i = Some l /\ sel_lease sel i l = true.
Proof.
  intros Hwf. rewrite list_elem_of_In, in_map_iff. split.
  - intros ([i' t e] & <- & [Hin Hs]%filter_In). exists (mkLease t e).
    rewrite lease_map_lookup by apply Hwf. auto.
  - intros ([t e] & Hl & Hs). apply lease_map_lookup in Hl; [|apply Hwf].
    eexists. split; [|apply filter_In; split; [exact Hl|exact Hs]]. done.
Qed.

Lemma selected_attached sel db k :
  dbwf db -> attached (map lr_id (List.filter (sel_row sel) (lease_rows db))) (abs_db db) k <->
    reaped sel (abs_db db) k.
Proof.
  intros Hwf. split.
  - intros (kv & i & H1 & H2 & H3). apply list_elem_of_In, selected_ids in H3 as (l & ? & ?); [|done].
    exists kv, i, l. auto.
  - intros (kv & i & l & H1 & H2 & H3 & H4). exists kv, i. split; [done|]. split; [done|].
    apply list_elem_of_In, selected_ids; eauto.
Qed.

Lemma drop_ids_selected sel db :
  dbwf db -> drop_ids (map lr_id (List.filter (sel_row sel) (lease_rows db))) (lease_map (lease_rows db)) =
    leases_after sel (lease_map (lease_rows db)).
Proof.
  intros Hwf. apply map_eq. intros i. rewrite drop_ids_lookup. unfold leases_after.
  case_bool_decide as Hin.
  - apply selected_ids in Hin as (l & Hl & Hs); [|done]. symmetry. apply map_lookup_filter_None.
    right. intros l' Hl'. simpl. congruence.
  - destruct (lease_map (lease_rows db) !! i) as [l|] eqn:E; symmetry.
    + apply map_lookup_filter_Some. split; [done|]. simpl.
      destruct (sel_lease sel i l) eqn:Es; [|done]. exfalso. apply Hin, selected_ids; eauto.
    + apply map_lookup_filter_None. by left.
Qed.

Lemma q_reap_meets sel : qmeets (q_reap sel) (fun a r a' =>
  reap_post a sel (res_map (map fst) r) a' /\
  match r with Ok ps => ps = del_log (a_rev a) (map fst ps) | Err _ => True end).
Proof.
  intros db Hwf. unfold q_reap. stmt.
  { intros e. split; [done|]. split; [|done]. split; simpl; auto; lia. }
  set (ids := map lr_id _). eapply out_mono; [|by apply reap_ids_out].
  intros [ps|[e|i]] db' [Hdb Hp]; (split; [done|]); [| |done].
  - destruct Hp as (ks & -> & Hnd & Hks & Ha). simpl. rewrite del_log_fst. split; [|done].
    split; [done|]. split.
    + intros k. rewrite Hks. by apply selected_attached.
    + rewrite Ha. simpl. unfold ids. by rewrite drop_ids_selected.
  - split; [|done]. destruct Hp as [H1 H2 H3]. split; [done| |].
    + intros k. destruct (H2 k) as [|[? Hat]]; [by left|right]. split; [done|]. by apply selected_attached.
    + intros id. destruct (H3 id) as [|[? Hin]]; [by left|right]. split; [done|].
      by apply selected_ids, list_elem_of_In.
Qed.

(** ** Prefix scans *)

Lemma list_ascii_app a b :
  list_ascii_of_string (a ++s b) = list_ascii_of_string a ++ list_ascii_of_string b.
Proof. induction a; simpl; congruence. Qed.

Lemma string_of_list_app a b :
  string_of_list_ascii (a ++ b) = string_of_list_ascii a ++s string_of_list_ascii b.
Proof. induction a; simpl; congruence. Qed.

Lemma prefix_range_good q c :
  valid_utf8 q = true -> byte_val c < 127 ->
  prefix_range (snoc q c) = (snoc q c, Some (snoc q (byte_of (byte_val c + 1)))).
Proof.
  intros Hq Hc. pose proof (byte_val_range c). unfold prefix_range.
  destruct (String.eqb_spec (snoc q c) "") as [Heq|_]; [by destruct q|].
  unfold snoc at 1. rewrite list_ascii_app, rev_app_distr. cbn [list_ascii_of_string List.rev app bump_last].
  destruct (byte_val c <? 255) eqn:E; bool_prop; [|lia]. cbn [List.rev].
  rewrite rev_involutive, string_of_list_app, string_of_list_ascii_of_string. cbn [string_of_list_ascii].
  f_equal. f_equal. apply from_utf8_lossy_valid. apply valid_utf8_app; [done|].
  apply is_ascii_valid. unfold is_ascii. cbn [list_ascii_of_string forallb].
  rewrite byte_val_of by lia. by rewrite (proj2 (Z.ltb_lt (byte_val c + 1) 128)) by lia.
Qed.

(** The scan of a good prefix reads exactly the keys with that prefix. *)
Lemma in_range_good p k :
  good_prefix p -> in_range (prefix_range p).1 (prefix_range p).2 k = starts_with p k.
Proof.
  intros [->|(q & c & -> & Hq & Hc)].
  - simpl. unfold in_range. by rewrite str_le_nil.
  - rewrite prefix_range_good by done. unfold in_range; simpl.
    pose proof (byte_val_range c). apply prefix_between. rewrite byte_val_of by lia. done.
Qed.

#[global] Instance kv_le_trans : Transitive kv_le.
Proof. intros x y z. unfold kv_le. apply (transitivity (R:=String.le)). Qed.
#[global] Instance kv_le_total : Total kv_le.
Proof. intros x y. unfold kv_le. apply (total String.le). Qed.
#[global] Instance er_le_trans : Transitive er_le.
Proof. intros x y z. unfold er_le. lia. Qed.
#[global] Instance er_le_total : Total er_le.
Proof. intros x y. unfold er_le. lia. Qed.

Lemma str_le_neq_lt a b : String.le a b -> a <> b -> str_lt a b = true.
Proof.
  unfold String.le, str_lt, String.leb, String.ltb. intros H Hn.
  destruct (String.compare a b) eqn:E; [|done|by destruct H].
  by apply String.compare_eq_iff in E.
Qed.

Lemma sorted_strict l :
  StronglySorted kv_le l -> NoDup (map kv_key l) -> sorted_by_key l.
Proof.
  intros Hs. induction Hs as [|x l Hs IH Hx]; simpl; intros Hnd; [constructor|].
  apply NoDup_cons in Hnd as [Hni Hnd]. constructor; [by apply IH|].
  rewrite List.Forall_forall in Hx. apply List.Forall_forall. intros y Hy.
  apply str_le_neq_lt; [by apply Hx|].
  intros Heq. apply Hni. rewrite list_elem_of_In, in_map_iff. eauto.
Qed.

Lemma q_list_meets p : qmeets (q_list p) (fun a => list_post a p).
Proof.
  unfold q_list. pose proof (fun k => in_range_good p k) as Hin.
  destruct (prefix_range p) as [lo hi]; simpl in Hin.
  apply (read_meets _ (SelectKvRange lo hi) id
    (fun db => merge_sort kv_le (List.filter (fun r => in_range lo hi (kv_key r)) (kv_rows db)))); [done| |done].
  intros db Hwf. split; [done|]. unfold id. intros Hp.
  pose proof (merge_sort_Permutation kv_le (List.filter (fun r => in_range lo hi (kv_key r)) (kv_rows db))) as Hperm.
  split.
  - apply sorted_strict; [apply StronglySorted_merge_sort; apply _|]. 
    rewrite Hperm. apply filter_NoDup_map, Hwf.
  - intros kv. rewrite <- !list_elem_of_In, Hperm, list_elem_of_In, filter_In, Hin by done. simpl.
    rewrite kv_map_lookup by apply Hwf. intuition.
Qed.

Lemma merge_sort_sorted_id (l : list EventRow) :
  StronglySorted Z.lt (map er_rev l) -> merge_sort er_le l = l.
Proof.
  intros Hs. apply (StronglySorted_unique_strong er_le).
  - intros x y Hx Hy H1 H2. assert (er_rev x = er_rev y) as Heq by (unfold er_le in *; lia).
    rewrite merge_sort_Permutation in Hx.
    clear H1 H2. induction l as [|z l IH]; [by apply not_elem_of_nil in Hy|].
    simpl in Hs. apply StronglySorted_inv in Hs as [Hs Hf].
    rewrite Forall_map, List.Forall_forall in Hf.
    apply elem_of_cons in Hx, Hy. destruct Hx as [->|Hx], Hy as [->|Hy]; [done| | |auto].
    + apply list_elem_of_In, Hf in Hy. lia.
    + apply list_elem_of_In, Hf in Hx. lia.
  - apply StronglySorted_merge_sort; apply _.
  - clear -Hs. induction l as [|x l IH]; [constructor|]. simpl in Hs.
    apply StronglySorted_inv in Hs as [Hs Hf]. constructor; [auto|].
    rewrite Forall_map in Hf. eapply List.Forall_impl; [|exact Hf]. unfold er_le. simpl. lia.
  - apply merge_sort_Permutation.
Qed.

Lemma filter_map {A B} (f : A -> B) (g : B -> bool) l :
  List.filter g (map f l) = map f (List.filter (fun x => g (f x)) l).
Proof. induction l; simpl; [done|]. destruct (g (f a)); simpl; congruence. Qed.

Lemma q_changes_meets since p : qmeets (q_changes since p) (fun a => changes_post a since p).
Proof.
  unfold q_changes. pose proof (fun k => in_range_good p k) as Hin.
  destruct (prefix_range p) as [lo hi]; simpl in Hin.
  apply (read_meets _ (SelectEvents since lo hi) (map row_to_event)
    (fun db => merge_sort er_le (List.filter (fun r => (since <? er_rev r) && in_range lo hi (er_key r))
                                             (event_rows db)))); [done| |done].
  intros db Hwf. split; [done|]. intros Hp.
  rewrite merge_sort_sorted_id by (apply filter_sorted_map, Hwf). simpl. rewrite filter_map. f_equal.
  apply List.filter_ext. intros r. by rewrite Hin.
Qed.

Lemma q_compact_meets below : qmeets (q_compact below) (fun a => compact_post a below).
Proof.
  intros db Hwf. unfold q_compact. stmt. { done. }
  finish. split; [by apply dbwf_filter_events|]. simpl. unfold abs_db; simpl. rewrite filter_map.
  split; [done|]. by rewrite !length_map.
Qed.

(** ** The instance *)

Definition sq_abs (s : SqliteStore) : AStore := abs_db (conn s).
Definition sq_inv (s : SqliteStore) : Prop := dbwf (conn s).
Definition sq_healthy (s : SqliteStore) : Prop := no_faults (faults s).

Notation sq_meets := (meets sq_inv sq_healthy sq_abs).

Lemma dbwf_awf db : dbwf db -> awf (abs_db db).
Proof.
  intros Hwf. pose proof Hwf as [H1 H2 H3 H4 H5 H6 H7]. split; simpl; [done| | | | |].
  - intros k kv Hk. by apply kv_map_lookup in Hk as [_ ?].
  - intros k kv Hk. apply kv_map_lookup in Hk as [Hin _]; [|done].
    rewrite List.Forall_forall in H3. exact (H3 _ Hin).
  - intros id l Hl. apply lease_map_lookup in Hl; [|done].
    rewrite List.Forall_forall in H5. exact (H5 _ Hl).
  - by rewrite List.map_map.
  - by rewrite Forall_map.
Qed.

Lemma with_conn_meets {A} (p : prog A) post : qmeets p post -> sq_meets (with_conn p) post.
Proof.
  intros Hq s Hs. specialize (Hq (conn s) Hs (faults s)). unfold with_conn.
  destruct (run p (faults s) (conn s)) as [[r fs'] db']. destruct Hq as [[H1 H2] H3]. auto.
Qed.

Lemma broadcast_conn ev s : conn (broadcast ev s) = conn s /\ faults (broadcast ev s) = faults s.
Proof. unfold broadcast. by destruct (broadcast_to ev (watchers s) (chans s)). Qed.

(** A step after the connection is released: it leaves tables and faults alone
    and cannot fail. *)
Definition quiet {B} (m : M SqliteStore StoreError B) (b : B) : Prop :=
  forall s, (m s).1 = Ok b /\ conn (m s).2 = conn s /\ faults (m s).2 = faults s.

Lemma quiet_ret {B} (b : B) : quiet (mret b) b.
Proof. done. Qed.
Lemma quiet_notify ev : quiet (notify ev) tt.
Proof. intros s. split; [done|]. apply broadcast_conn. Qed.
Lemma quiet_bind {A B} (m : M SqliteStore StoreError A) (f : A -> M SqliteStore StoreError B) a b :
  quiet m a -> quiet (f a) b -> quiet (mbind m f) b.
Proof.
  intros Hm Hf s. unfold mbind. destruct (Hm s) as (H1 & H2 & H3).
  destruct (m s) as [r s1]. simpl in *. subst r. destruct (Hf s1) as (H4 & H5 & H6). intuition congruence.
Qed.
Lemma quiet_for {A} (xs : list A) (body : A -> M SqliteStore StoreError unit) :
  (forall x, quiet (body x) tt) -> quiet (mfor xs body) tt.
Proof.
  intros Hb. induction xs as [|x xs IH]; [apply quiet_ret|]. simpl. by eapply quiet_bind.
Qed.

#[export] Hint Resolve quiet_ret quiet_notify quiet_for : rust.

(** A program on the connection followed by a quiet step. *)
Lemma bind_quiet_meets {A B} (p : prog A) (f : A -> M SqliteStore StoreError B) (g : A -> B)
    (post : AStore -> result A StoreError -> AStore -> Prop)
    (post' : AStore -> result B StoreError -> AStore -> Prop) :
  qmeets p post -> (forall a, quiet (f a) (g a)) ->
  (forall a0 r a1, post a0 r a1 -> post' a0 (res_map g r) a1) ->
  sq_meets (mbind (with_conn p) f) post'.
Proof.
  intros Hq Hf Hpost s Hs. unfold mbind. pose proof (with_conn_meets p post Hq s Hs) as H.
  destruct (with_conn p s) as [[a|e] s1].
  - destruct H as (H1 & H2 & H3). destruct (Hf a s1) as (G1 & G2 & G3).
    destruct (f a s1) as [r s2]. simpl in *. subst r.
    unfold sq_inv, sq_abs, sq_healthy in *. rewrite G2, G3. split; [done|]. split; [by apply Hpost in H2|].
    intros Hh. split; [by apply H3|]. auto with rust.
  - destruct H as (H1 & H2 & H3). split; [done|]. split; [by apply Hpost in H2|].
    intros Hh. destruct (H3 Hh) as [? Hb]. split; [done|]. intros [e' [= ->]]. apply Hb. by exists e'.
Qed.

Lemma sqlite_put_meets k v l : sq_meets (sqlite_put k v l) (fun a => put_post a k v l).
Proof.
  eapply (bind_quiet_meets _ _ id); [apply q_put_meets| |by intros a0 [] a1].
  intros rev. eapply quiet_bind; [apply quiet_notify|apply quiet_ret].
Qed.

Lemma sqlite_delete_meets k : sq_meets (sqlite_delete k) (fun a => delete_post a k).
Proof.
  eapply (bind_quiet_meets _ _ (fun o => bool_decide (is_Some o))); [apply q_delete_meets| |by intros a0 r a1 [H _]].
  intros [rev|]; [eapply quiet_bind; [apply quiet_notify|]|]; apply quiet_ret.
Qed.

Lemma sqlite_cas_meets k e v l : sq_meets (sqlite_cas k e v l) (fun a => cas_post a k e v l).
Proof.
  eapply (bind_quiet_meets _ _ id); [apply q_cas_meets| |by intros a0 [] a1].
  intros c. destruct (cas_succeeded c); [eapply quiet_bind; [apply quiet_notify|]|]; apply quiet_ret.
Qed.

Lemma reap_leases_meets sel : sq_meets (reap_leases sel) (fun a => reap_post a sel).
Proof.
  eapply (bind_quiet_meets _ _ (map fst)); [apply q_reap_meets| |by intros a0 r a1 [H _]].
  intros ps. eapply quiet_bind; [apply quiet_for; intros [k rev]; auto with rust|apply quiet_ret].
Qed.

#[global] Program Instance SqliteStore_Laws : StoreLaws SqliteStore := {
  abs := sq_abs; inv := sq_inv; healthy := sq_healthy
}.
Next Obligation. intros s Hs. by apply dbwf_awf. Qed.
Next Obligation. intros k. apply with_conn_meets, q_get_meets. Qed.
Next Obligation. intros p. apply with_conn_meets, q_list_meets. Qed.
Next Obligation. intros. apply sqlite_put_meets. Qed.
Next Obligation. intros. apply sqlite_delete_meets. Qed.
Next Obligation. intros. apply sqlite_cas_meets. Qed.
Next Obligation. intros. apply with_conn_meets, q_lease_grant_meets. Qed.
Next Obligation. intros. apply with_conn_meets, q_lease_keepalive_meets. Qed.
Next Obligation. intros. apply reap_leases_meets. Qed.
Next Obligation. intros. apply reap_leases_meets. Qed.
Next Obligation. intros. apply with_conn_meets, q_revision_meets. Qed.
Next Obligation. intros. apply with_conn_meets, q_changes_meets. Qed.
Next Obligation. intros. apply with_conn_meets, q_compact_meets. Qed.
Next Obligation. intros p s Hs. done. Qed.
