(* ===== verification/StoreTheorems.v ===== *)
(** * Theorems about the store

    Sequences of store calls as a trace language over the interface, the
    refinement of the abstract store by [SqliteStore] along any trace and any
    fault schedule, the replication guarantee of [changes_since], the delivery
    guarantee of [watch], and [migrate_all]. *)

From Stdlib Require Import ZArith Lia Bool List String Ascii.
From stdpp Require Import base tactics list gmap strings sorting.
From S2P Require Import Prelude RustStr Utf8 Store Sqlite SqliteSpec.

Open Scope Z_scope.

(** ** Calls and replies *)

Inductive Op : Type :=
| OGet (k : string)
| OList (p : string)
| OPut (k v : string) (l : option Z)
| ODelete (k : string)
| OCas (k : string) (e : option Z) (v : string) (l : option Z)
| OGrant (now ttl : Z)
| OKeepalive (now id : Z)
| ORevoke (id : Z)
| OSweep (now : Z)
| ORevision
| OChanges (since : Z) (p : string)
| OCompact (below : Z)
| OWatch (p : string).

Inductive Reply : Type :=
| RKv (r : result (option KeyValue) StoreError)
| RKvs (r : result (list KeyValue) StoreError)
| RNum (r : result Z StoreError)
| RBool (r : result bool StoreError)
| RCas (r : result CasResult StoreError)
| RKeys (r : result (list string) StoreError)
| REvents (r : result (list Event) StoreError)
| RCount (r : result nat StoreError)
| RRx (rx : nat).

Definition reply {S A} (f : result A StoreError -> Reply) (m : M S StoreError A) (s : S) : Reply * S :=
  let '(r, s') := m s in (f r, s').

Definition call {S} `{Store S} (op : Op) : S -> Reply * S :=
  match op with
  | OGet k => reply RKv (get k)
  | OList p => reply RKvs (list_prefix p)
  | OPut k v l => reply RNum (put k v l)
  | ODelete k => reply RBool (delete_key k)
  | OCas k e v l => reply RCas (compare_and_swap k e v l)
  | OGrant now ttl => reply RNum (lease_grant now ttl)
  | OKeepalive now id => reply RNum (lease_keepalive now id)
  | ORevoke id => reply RKeys (lease_revoke id)
  | OSweep now => reply RKeys (lease_sweep now)
  | ORevision => reply RNum current_revision
  | OChanges since p => reply REvents (changes_since since p)
  | OCompact below => reply RCount (compact below)
  | OWatch p => fun s => let '(rx, s') := watch p s in (RRx rx, s')
  end.

Fixpoint calls {S} `{Store S} (ops : list Op) (s : S) : list Reply * S :=
  match ops with
  | [] => ([], s)
  | op :: ops' => let '(r, s1) := call op s in
                  let '(rs, s2) := calls ops' s1 in (r :: rs, s2)
  end.

(** ** The specification: one abstract step per call *)

Inductive astep : Op -> AStore -> Reply -> AStore -> Prop :=
| SGet k a r a' : get_post a k r a' -> astep (OGet k) a (RKv r) a'
| SList p a r a' : list_post a p r a' -> astep (OList p) a (RKvs r) a'
| SPut k v l a r a' : put_post a k v l r a' -> astep (OPut k v l) a (RNum r) a'
| SDelete k a r a' : delete_post a k r a' -> astep (ODelete k) a (RBool r) a'
| SCas k e v l a r a' : cas_post a k e v l r a' -> astep (OCas k e v l) a (RCas r) a'
| SGrant now ttl a r a' : grant_post a now ttl r a' -> astep (OGrant now ttl) a (RNum r) a'
| SKeepalive now id a r a' : keepalive_post a now id r a' -> astep (OKeepalive now id) a (RNum r) a'
| SRevoke id a r a' : reap_post a (SelId id) r a' -> astep (ORevoke id) a (RKeys r) a'
| SSweep now a r a' : reap_post a (SelExpired now) r a' -> astep (OSweep now) a (RKeys r) a'
| SRevision a r a' : revision_post a r a' -> astep ORevision a (RNum r) a'
| SChanges since p a r a' : changes_post a since p r a' -> astep (OChanges since p) a (REvents r) a'
| SCompact below a r a' : compact_post a below r a' -> astep (OCompact below) a (RCount r) a'
| SWatch p a rx : astep (OWatch p) a (RRx rx) a.

Inductive asteps : list Op -> AStore -> list Reply -> AStore -> Prop :=
| ANil a : asteps [] a [] a
| ACons op ops a r a1 rs a2 :
    astep op a r a1 -> asteps ops a1 rs a2 -> asteps (op :: ops) a (r :: rs) a2.

Definition reply_backend_error (r : Reply) : Prop :=
  match r with
  | RKv r => backend_error r | RKvs r => backend_error r | RNum r => backend_error r
  | RBool r => backend_error r | RCas r => backend_error r | RKeys r => backend_error r
  | REvents r => backend_error r | RCount r => backend_error r | RRx _ => False
  end.

Section Interface.
Context {S : Type} `{StoreLaws S}.

Lemma call_step op s :
  inv s -> let '(r, s') := call op s in
  inv s' /\ astep op (abs s) r (abs s') /\ (healthy s -> healthy s' /\ ~ reply_backend_error r).
Proof.
  intros Hs. destruct op; unfold call, reply.
  - pose proof (get_meets k s Hs) as G. destruct (get k s). intuition (auto; by constructor).
  - pose proof (list_meets p s Hs) as G. destruct (list_prefix p s). intuition (auto; by constructor).
  - pose proof (put_meets k v l s Hs) as G. destruct (put k v l s). intuition (auto; by constructor).
  - pose proof (delete_meets k s Hs) as G. destruct (delete_key k s). intuition (auto; by constructor).
  - pose proof (cas_meets k e v l s Hs) as G. destruct (compare_and_swap k e v l s).
    intuition (auto; by constructor).
  - pose proof (grant_meets now ttl s Hs) as G. destruct (lease_grant now ttl s).
    intuition (auto; by constructor).
  - pose proof (keepalive_meets now id s Hs) as G. destruct (lease_keepalive now id s).
    intuition (auto; by constructor).
  - pose proof (revoke_meets id s Hs) as G. destruct (lease_revoke id s). intuition (auto; by constructor).
  - pose proof (sweep_meets now s Hs) as G. destruct (lease_sweep now s). intuition (auto; by constructor).
  - pose proof (revision_meets s Hs) as G. destruct (current_revision s). intuition (auto; by constructor).
  - pose proof (changes_meets since p s Hs) as G. destruct (changes_since since p s).
    intuition (auto; by constructor).
  - pose proof (compact_meets below s Hs) as G. destruct (compact below s). intuition (auto; by constructor).
  - pose proof (watch_meets p s Hs) as G. destruct (watch p s) as [rx s']. destruct G as (G1 & -> & G3).
    split; [done|]. split; [constructor|]. auto.
Qed.

Lemma calls_steps ops s :
  inv s -> let '(rs, s') := calls ops s in
  inv s' /\ asteps ops (abs s) rs (abs s') /\
  (healthy s -> healthy s' /\ Forall (fun r => ~ reply_backend_error r) rs).
Proof.
  revert s; induction ops as [|op ops IH]; intros s Hs; simpl.
  - split; [done|]. split; [constructor|]. auto.
  - pose proof (call_step op s Hs) as G. destruct (call op s) as [r s1].
    destruct G as (G1 & G2 & G3). specialize (IH s1 G1). destruct (calls ops s1) as [rs s2].
    destruct IH as (I1 & I2 & I3). split; [done|]. split; [by econstructor|].
    intros Hh. destruct (G3 Hh) as [Hh1 Hr]. destruct (I3 Hh1). auto.
Qed.
End Interface.

(** ** Refinement *)

(** C1: whatever the calls and whatever statements the engine fails, a
    [SqliteStore] opened on an empty database behaves as the abstract store: each
    reply and each resulting state is one the specification of the call allows
    (the effect of a failed call being bounded as the specification says), the
    state stays well formed, and no call reports a backend error unless the
    engine failed a statement. *)
Theorem sqlite_refines_store (ops : list Op) (fs : Faults) :
  let '(rs, s) := calls ops (open_in_memory fs) in
  asteps ops a_empty rs (sq_abs s) /\ awf (sq_abs s) /\
  (no_faults fs -> Forall (fun r => ~ reply_backend_error r) rs).
Proof.
  pose proof (calls_steps ops (open_in_memory fs) init_wf) as G.
  destruct (calls ops (open_in_memory fs)) as [rs s]. destruct G as (G1 & G2 & G3).
  split; [exact G2|]. split; [exact (inv_awf s G1)|]. intros Hf. by apply G3.
Qed.

(** The store a sequence of calls on an empty, healthy database leads to. *)
Definition store_after (ops : list Op) : SqliteStore := (calls ops (open_in_memory [])).2.

Lemma store_after_inv ops : sq_inv (store_after ops) /\ sq_healthy (store_after ops).
Proof.
  pose proof (calls_steps ops (open_in_memory []) init_wf) as G. unfold store_after.
  destruct (calls ops (open_in_memory [])) as [rs s]. destruct G as (G1 & _ & G3).
  split; [exact G1|]. apply G3. constructor.
Qed.

(** ** Revisions only grow, and a compare-and-swap does not suffer ABA *)

Lemma astep_rev op a r a' : astep op a r a' -> a_rev a <= a_rev a'.
Proof.
  intros Hs. destruct Hs;
    unfold get_post, list_post, put_post, delete_post, cas_post, grant_post, keepalive_post,
      reap_post, revision_post, changes_post, compact_post in *;
    repeat match goal with
    | H : match ?x with _ => _ end |- _ => destruct x
    | H : _ /\ _ |- _ => destruct H
    | H : exists _, _ |- _ => destruct H
    | H : partial_write _ _ _ _ |- _ => destruct H
    | H : partial_reap _ _ _ |- _ => destruct H
    end; subst; simpl in *; rewrite ?a_remove_all_rev; try lia; try done;
    repeat match goal with |- context [if ?b then _ else _] => destruct b end; simpl; lia.
Qed.

(** The key [k] is absent or has been written after revision [r]. *)
Definition newer (k : string) (r : Z) (a : AStore) : Prop :=
  r < a_rev a /\ forall kv, a_kv a !! k = Some kv -> r < kv_mod kv.

Lemma newer_write k r k' v l a : newer k r a -> newer k r (a_write k' v l a).
Proof.
  intros [H1 H2]. split; [simpl; lia|]. intros kv. rewrite a_write_kv.
  destruct (decide (k' = k)); [intros [= <-]; simpl; lia|auto].
Qed.

Lemma newer_shrink k r a a' :
  newer k r a -> a_rev a <= a_rev a' ->
  a_kv a' !! k = a_kv a !! k \/ a_kv a' !! k = None -> newer k r a'.
Proof. intros [H1 H2] Hr [E|E]; (split; [lia|]); rewrite E; [auto|done]. Qed.

Lemma newer_partial k r k' new a a' :
  newer k r a -> partial_write k' new a a' ->
  (forall kv, new = Some kv -> kv_mod kv = a_rev a + 1) -> newer k r a'.
Proof.
  intros [H1 H2] [P1 P2 P3 _ P4 P5] Hn. split; [lia|]. intros kv Hkv.
  destruct (decide (k = k')) as [->|Hne]; [|rewrite P4 in Hkv by done; auto].
  destruct P2 as [E|E]; rewrite E in Hkv; [auto|]. rewrite (Hn _ Hkv). lia.
Qed.

Lemma astep_newer k r op a rep a' : astep op a rep a' -> newer k r a -> newer k r a'.
Proof.
  intros Hs Hn. pose proof (astep_rev _ _ _ _ Hs) as Hrev.
  assert (forall k' v l kv, a_kv (a_write k' v l a) !! k' = Some kv -> kv_mod kv = a_rev a + 1) as Hw.
  { intros k' v l kv. rewrite a_write_kv, decide_True by done. by intros [= <-]. }
  destruct Hs as [? ? ? ? Hp|? ? ? ? Hp|? ? ? ? r0 ? Hp|? ? r0 ? Hp|? ? ? ? ? r0 ? Hp|? ? ? r0 ? Hp
                 |? ? ? r0 ? Hp|? ? r0 ? Hp|? ? r0 ? Hp|? ? ? Hp|? ? ? ? ? Hp|? ? r0 ? Hp|]; try (simpl in Hp).
  - destruct Hp as [-> _]. done.
  - destruct Hp as [-> _]. done.
  - destruct r0 as [rev|[e|i]]; [destruct Hp as (_ & -> & _); by apply newer_write| |by destruct Hp as (_ & _ & ->)].
    eapply newer_partial; eauto.
  - destruct r0 as [b|[e|i]]; [|by eapply newer_partial|done]. destruct Hp as [_ ->].
    destruct b; [|done]. apply (newer_shrink k r a); [done|done|]. simpl.
    destruct (decide (k = k0)) as [->|]; [rewrite lookup_delete_eq|rewrite lookup_delete_ne by done]; auto.
  - destruct r0 as [c|[e'|i]]; [|by eapply newer_partial; eauto|done].
    destruct Hp as (_ & _ & _ & ->). destruct (cas_succeeded c); [by apply newer_write|exact Hn].
  - destruct r0 as [i|[e|i]]; [destruct Hp as (_ & _ & ->)|simpl in Hp; subst|destruct Hp]; exact Hn.
  - destruct r0 as [x|[e|i]]; [destruct Hp as (? & _ & _ & ->)|simpl in Hp; subst|destruct Hp as (_ & _ & ->)]; exact Hn.
  - destruct r0 as [ks|[e|i]]; [destruct Hp as (_ & _ & ->)|destruct Hp as [_ Hk _]|done];
      apply (newer_shrink k r a); auto; [simpl; rewrite a_remove_all_kv; case_bool_decide; auto|].
    destruct (Hk k) as [|[? _]]; auto.
  - destruct r0 as [ks|[e|i]]; [destruct Hp as (_ & _ & ->)|destruct Hp as [_ Hk _]|done];
      apply (newer_shrink k r a); auto; [simpl; rewrite a_remove_all_kv; case_bool_decide; auto|].
    destruct (Hk k) as [|[? _]]; auto.
  - destruct Hp as [-> _]. done.
  - destruct Hp as [-> _]. done.
  - destruct r0 as [n|[e|i]]; [destruct Hp as [-> _]|simpl in Hp; subst|destruct Hp]; exact Hn.
  - done.
Qed.

Lemma asteps_newer k r ops a rs a' : asteps ops a rs a' -> newer k r a -> newer k r a'.
Proof. induction 1; eauto using astep_newer. Qed.

(** C28: a compare-and-swap against a revision wins at most once.  After
    [compare_and_swap(k, Some(r), ..)] has succeeded, no later one with the same
    expectation succeeds, whatever happens in between: deletions and
    re-creations of [k], lease expiry, statements the engine fails. *)
Theorem cas_wins_once (s : SqliteStore) (k : string) (r : Z) v l v' l' c c' s1 (ops : list Op) rs s2 s3 :
  sq_inv s ->
  sqlite_cas k (Some r) v l s = (Ok c, s1) -> cas_succeeded c = true ->
  calls ops s1 = (rs, s2) ->
  sqlite_cas k (Some r) v' l' s2 = (Ok c', s3) -> cas_succeeded c' = false.
Proof.
  intros Hs Hc1 Ht Hops Hc2.
  pose proof (sqlite_cas_meets k (Some r) v l s Hs) as G1. rewrite Hc1 in G1.
  destruct G1 as (I1 & (P1 & _ & _ & Ha1) & _). rewrite Ht in P1, Ha1.
  symmetry in P1. apply bool_decide_eq_true in P1.
  destruct (a_kv (sq_abs s) !! k) as [kv0|] eqn:E0; [|done]. injection P1 as Hr.
  assert (newer k r (sq_abs s1)) as Hn.
  { pose proof (awf_revs _ (dbwf_awf _ Hs) k kv0 E0) as [_ Hle]. rewrite Ha1. split.
    - simpl in *. lia.
    - intros kv. rewrite a_write_kv, decide_True by done. intros [= <-]. simpl in *. lia. }
  pose proof (calls_steps ops s1 I1) as G2. rewrite Hops in G2. destruct G2 as (I2 & G2 & _).
  pose proof (asteps_newer _ _ _ _ _ _ G2 Hn) as [_ Hn2].
  pose proof (sqlite_cas_meets k (Some r) v' l' s2 I2) as G3. rewrite Hc2 in G3.
  destruct G3 as (_ & (P3 & _) & _). rewrite P3. apply bool_decide_eq_false. intros Heq.
  destruct (a_kv (sq_abs s2) !! k) as [kv|] eqn:E; [|done]. injection Heq as Heq.
  pose proof (Hn2 kv E). lia.
Qed.

Definition cas_demo : SqliteStore := store_after [OPut "k" "a" None].

Lemma cas_wins_once_witness :
  exists c c' s1 rs s2 s3,
    sqlite_cas "k" (Some 1) "b" None cas_demo = (Ok c, s1) /\ cas_succeeded c = true /\
    calls [ODelete "k"; OPut "k" "a" None] s1 = (rs, s2) /\
    sqlite_cas "k" (Some 1) "c" None s2 = (Ok c', s3) /\ cas_succeeded c' = false.
Proof.
  do 6 eexists. split; [vm_compute; reflexivity|]. split; [reflexivity|].
  split; [vm_compute; reflexivity|]. split; [vm_compute; reflexivity|].
  eapply (cas_wins_once cas_demo "k" 1 "b" None "c" None _ _ _ [ODelete "k"; OPut "k" "a" None]);
    [|vm_compute; reflexivity|reflexivity|vm_compute; reflexivity|vm_compute; reflexivity].
  apply store_after_inv.
Defined.

(** ** Replication through [changes_since] *)

Definition apply_event (m : gmap string string) (e : Event) : gmap string string :=
  match ev_kind e with
  | Put => <[ev_key e := ev_value e]> m
  | Delete => delete (ev_key e) m
  end.

Definition values (a : AStore) : gmap string string := kv_value <$> a_kv a.

(** The part of a map under a prefix. *)
Definition under (p : string) (m : gmap string string) : gmap string string :=
  filter (fun kv => starts_with p kv.1 = true) m.

Definition events_after (r : Z) (a : AStore) : list Event :=
  List.filter (fun e => r <? ev_rev e) (a_events a).

(** [a1]'s values followed by the events after its revision give [a]'s values. *)
Definition in_sync (a1 a : AStore) : Prop :=
  a_rev a1 <= a_rev a /\ fold_left apply_event (events_after (a_rev a1) a) (values a1) = values a.

Definition compacts_up_to (r : Z) (op : Op) : Prop :=
  match op with OCompact below => below <= r | _ => True end.

Lemma in_sync_refl a : awf a -> in_sync a a.
Proof.
  intros Hwf. split; [lia|]. unfold events_after.
  replace (List.filter _ _) with (@nil Event); [done|].
  pose proof (awf_events_le _ Hwf) as Hle. induction Hle as [|e l He Hl IH]; simpl; [done|].
  rewrite (proj2 (Z.ltb_ge _ _)) by done. done.
Qed.

Lemma in_sync_event a1 a a' e :
  in_sync a1 a -> ev_rev e = a_rev a + 1 -> a_rev a' = a_rev a + 1 ->
  a_events a' = a_events a ++ [e] -> values a' = apply_event (values a) e -> in_sync a1 a'.
Proof.
  intros [H1 H2] He Hr Hev Hv. split; [lia|]. unfold events_after in *.
  rewrite Hev, List.filter_app. simpl. rewrite (proj2 (Z.ltb_lt _ _)) by lia.
  rewrite fold_left_app, H2. done.
Qed.

Lemma in_sync_write a1 a k v l : in_sync a1 a -> in_sync a1 (a_write k v l a).
Proof.
  intros H. eapply in_sync_event; [exact H|..]; try reflexivity; [done|].
  unfold values, apply_event. simpl. by rewrite fmap_insert.
Qed.

Lemma in_sync_remove a1 a k : in_sync a1 a -> in_sync a1 (a_remove k a).
Proof.
  intros H. eapply in_sync_event; [exact H|..]; try reflexivity; [done|].
  unfold values, apply_event. simpl. by rewrite fmap_delete.
Qed.

Lemma in_sync_remove_all a1 a ks : in_sync a1 a -> in_sync a1 (a_remove_all ks a).
Proof.
  revert a; induction ks as [|k ks IH]; intros a H; [done|]. apply (IH (a_remove k a)).
  by apply in_sync_remove.
Qed.

Lemma in_sync_compact a1 a below :
  below <= a_rev a1 -> in_sync a1 a ->
  in_sync a1 (mkA (a_rev a) (a_kv a) (a_leases a) (List.filter (fun e => below <? ev_rev e) (a_events a))).
Proof.
  intros Hb [H1 H2]. split; [done|]. unfold events_after in *. simpl.
  transitivity (values a); [|done]. rewrite <- H2. f_equal. clear H1 H2.
  induction (a_events a) as [|e l IH]; [done|]. simpl.
  destruct (below <? ev_rev e) eqn:E1, (a_rev a1 <? ev_rev e) eqn:E2; simpl; rewrite ?E2, ?IH; try done.
  bool_prop. lia.
Qed.

Lemma astep_in_sync a1 op a r a' :
  astep op a r a' -> ~ reply_backend_error r -> compacts_up_to (a_rev a1) op ->
  in_sync a1 a -> in_sync a1 a'.
Proof.
  intros Hs Hb Hc Hsync.
  destruct Hs; simpl in Hb;
    unfold get_post, list_post, put_post, delete_post, cas_post, grant_post, keepalive_post,
      reap_post, revision_post, changes_post, compact_post in *;
    repeat match goal with
    | H : ~ backend_error (Err (Backend ?e)) |- _ => exfalso; apply H; by exists e
    | H : match ?x with _ => _ end |- _ => destruct x
    | H : _ /\ _ |- _ => destruct H
    | H : exists _, _ |- _ => destruct H
    end; subst; try done;
    repeat match goal with |- context [if ?b then _ else _] => destruct b end;
    auto using in_sync_write, in_sync_remove, in_sync_compact;
    apply (in_sync_remove_all a1 a); done.
Qed.

Lemma asteps_in_sync a1 ops a rs a' :
  asteps ops a rs a' -> Forall (fun r => ~ reply_backend_error r) rs ->
  Forall (compacts_up_to (a_rev a1)) ops -> in_sync a1 a -> in_sync a1 a'.
Proof.
  induction 1; intros Hr Hc Hs; [done|]. inversion Hr; inversion Hc; subst.
  eauto using astep_in_sync.
Qed.

Lemma apply_event_under p m e :
  under p (apply_event m e) = if starts_with p (ev_key e) then apply_event (under p m) e else under p m.
Proof.
  unfold under, apply_event. destruct (ev_kind e), (starts_with p (ev_key e)) eqn:E.
  - by rewrite map_filter_insert_True.
  - rewrite map_filter_insert_not; [done|]. intros v. simpl. congruence.
  - by rewrite map_filter_delete.
  - rewrite map_filter_delete. apply delete_id. apply map_lookup_filter_None. right. simpl. congruence.
Qed.

Lemma fold_events_under p es m :
  under p (fold_left apply_event es m) =
    fold_left apply_event (List.filter (fun e => starts_with p (ev_key e)) es) (under p m).
Proof.
  revert m; induction es as [|e es IH]; intros m; simpl; [done|]. rewrite IH, apply_event_under.
  destruct (starts_with p (ev_key e)); done.
Qed.

Lemma filter_andb {A} (f g : A -> bool) l :
  List.filter (fun x => f x && g x) l = List.filter g (List.filter f l).
Proof. induction l as [|x l IH]; simpl; [done|]. destruct (f x), (g x) eqn:E; simpl; rewrite ?E, ?IH; done. Qed.

(**  a reader that holds the keys under a prefix as of revision [r] and applies
    the events [changes_since(r, prefix)] returns later holds exactly the keys
    and values the store then has under that prefix, whatever calls were made in
    between (puts, deletions, swaps, lease revocations and sweeps), as long as
    the log was not compacted beyond [r] and the engine reported no fault. *)
Theorem changes_since_catches_up (s : SqliteStore) (ops : list Op) (p : string) rs s' :
  sq_inv s -> sq_healthy s -> good_prefix p ->
  Forall (compacts_up_to (a_rev (sq_abs s))) ops ->
  calls ops s = (rs, s') ->
  exists evs s'', changes_since (a_rev (sq_abs s)) p s' = (Ok evs, s'') /\
    fold_left apply_event evs (under p (values (sq_abs s))) = under p (values (sq_abs s')).
Proof.
  intros Hs Hh Hp Hc Hops.
  pose proof (calls_steps ops s Hs) as G. rewrite Hops in G. destruct G as (I1 & G & Hh1).
  destruct (Hh1 Hh) as [Hh' Hr].
  pose proof (asteps_in_sync (sq_abs s) _ _ _ _ G Hr Hc (in_sync_refl _ (dbwf_awf _ Hs))) as [_ Hsync].
  pose proof (changes_meets (a_rev (sq_abs s)) p s' I1) as G2.
  destruct (changes_since (a_rev (sq_abs s)) p s') as [[evs|e] s'']; destruct G2 as (_ & [_ G2] & G3).
  - exists evs, s''. split; [done|]. rewrite (G2 Hp), filter_andb, <- fold_events_under.
    f_equal. exact Hsync.
  - destruct (G3 Hh') as [_ Hnb]. destruct e as [m|i]; [exfalso; apply Hnb; by exists m|done].
Qed.

Lemma changes_since_catches_up_witness :
  exists evs s'', changes_since 1 "sandbox/"
      (snd (calls [OPut "sandbox/b" "2" None; OPut "other" "x" None; ODelete "sandbox/a"]
              (store_after [OPut "sandbox/a" "1" None]))) = (Ok evs, s'') /\
    fold_left apply_event evs {["sandbox/a" := "1"]} = ({["sandbox/b" := "2"]} : gmap string string).
Proof.
  pose (s := store_after [OPut "sandbox/a" "1" None]).
  pose (ops := [OPut "sandbox/b" "2" None; OPut "other" "x" None; ODelete "sandbox/a"]).
  edestruct (changes_since_catches_up s ops "sandbox/" (calls ops s).1 (calls ops s).2) as (evs & s'' & H1 & H2).
  - apply store_after_inv.
  - constructor.
  - right. exists "sandbox"%string, "/"%char. split; [reflexivity|]. split; [reflexivity|]. vm_compute. reflexivity.
  - repeat constructor.
  - by destruct (calls ops s).
  - exists evs, s''. split; [exact H1|]. exact H2.
Defined.

(** ** Delivery to watchers *)

(** Several broadcasts in a row. *)
Definition bcast_all (evs : list Event) (st : list Watcher * list Chan) : list Watcher * list Chan :=
  fold_left (fun st ev => broadcast_to ev st.1 st.2) evs st.

Definition sinks (s : SqliteStore) : list Watcher * list Chan := (watchers s, chans s).

(** The subscription [rx] to [p] is registered once, its receiver is alive and
    holds [q]; senders of distinct watchers are distinct channels. *)
Record subscribed (p : string) (rx : nat) (q : list Event) (st : list Watcher * list Chan) : Prop := {
  sub_in : mkWatcher p rx ∈ st.1;
  sub_nodup : NoDup (map w_tx st.1);
  sub_bound : Forall (fun w => (w_tx w < length st.2)%nat) st.1;
  sub_queue : st.2 !! rx = Some (mkChan q true)
}.

Lemma send_other tx ev cs rx : tx <> rx -> (send tx ev cs).2 !! rx = cs !! rx.
Proof.
  intros Hn. unfold send. destruct (cs !! tx) as [[q []]|]; [|done..]. simpl.
  by rewrite list_lookup_insert_ne.
Qed.

Lemma send_length tx ev cs : length (send tx ev cs).2 = length cs.
Proof. unfold send. destruct (cs !! tx) as [[q []]|]; [|done..]. apply length_insert. Qed.

Lemma broadcast_other ev ws cs rx :
  rx ∉ map w_tx ws -> (broadcast_to ev ws cs).2 !! rx = cs !! rx.
Proof.
  revert cs; induction ws as [|w ws IH]; intros cs Hn; [done|]. simpl in *.
  apply not_elem_of_cons in Hn as [Hn1 Hn2]. 
  destruct (starts_with (w_prefix w) (ev_key ev)).
  - pose proof (send_other (w_tx w) ev cs rx) as Hs. destruct (send (w_tx w) ev cs) as [keep cs1].
    specialize (IH cs1 Hn2). destruct (broadcast_to ev ws cs1). simpl in *. rewrite IH. auto.
  - specialize (IH cs Hn2). by destruct (broadcast_to ev ws cs).
Qed.

Lemma broadcast_length ev ws cs : length (broadcast_to ev ws cs).2 = length cs.
Proof.
  revert cs; induction ws as [|w ws IH]; intros cs; [done|]. simpl.
  destruct (starts_with (w_prefix w) (ev_key ev)).
  - pose proof (send_length (w_tx w) ev cs) as Hs. destruct (send (w_tx w) ev cs) as [keep cs1].
    specialize (IH cs1). destruct (broadcast_to ev ws cs1). simpl in *. lia.
  - specialize (IH cs). by destruct (broadcast_to ev ws cs).
Qed.

Lemma broadcast_sub ev ws cs : sublist (broadcast_to ev ws cs).1 ws.
Proof.
  revert cs; induction ws as [|w ws IH]; intros cs; simpl; [constructor|].
  destruct (if starts_with (w_prefix w) (ev_key ev) then send (w_tx w) ev cs else (true, cs)) as [keep cs1].
  specialize (IH cs1). destruct (broadcast_to ev ws cs1). simpl in *. destruct keep; by constructor.
Qed.

Lemma broadcast_queue p rx q ev ws cs :
  mkWatcher p rx ∈ ws -> NoDup (map w_tx ws) -> cs !! rx = Some (mkChan q true) ->
  mkWatcher p rx ∈ (broadcast_to ev ws cs).1 /\
  (broadcast_to ev ws cs).2 !! rx =
    Some (mkChan (if starts_with p (ev_key ev) then q ++ [ev] else q) true).
Proof.
  revert cs; induction ws as [|w ws IH]; intros cs Hin Hnd Hq; [by apply not_elem_of_nil in Hin|].
  simpl in Hnd. apply NoDup_cons in Hnd as [Hni Hnd]. cbn [broadcast_to].
  apply elem_of_cons in Hin as [<-|Hin].
  - cbn [w_prefix w_tx] in *. destruct (starts_with p (ev_key ev)).
    + unfold send. rewrite Hq. pose proof (broadcast_other ev ws (<[rx:=mkChan (q ++ [ev]) true]> cs) rx Hni) as Ho.
      destruct (broadcast_to ev ws _) as [rest cs2]. simpl in *. rewrite Ho.
      rewrite list_lookup_insert_eq by (by eapply lookup_lt_Some). split; [constructor|done].
    + pose proof (broadcast_other ev ws cs rx Hni) as Ho. destruct (broadcast_to ev ws cs). simpl in *.
      rewrite Ho. split; [constructor|done].
  - assert (w_tx w <> rx) as Hne.
    { intros <-. apply Hni. apply list_elem_of_In, in_map_iff. eexists. split; [|by apply list_elem_of_In]. done. }
    destruct (starts_with (w_prefix w) (ev_key ev)).
    + pose proof (send_other (w_tx w) ev cs rx Hne) as Ho. destruct (send (w_tx w) ev cs) as [keep cs1].
      simpl in Ho. rewrite <- Ho in Hq. specialize (IH cs1 Hin Hnd Hq).
      destruct (broadcast_to ev ws cs1). simpl in *. destruct IH. split; [|done].
      destruct keep; [by constructor|done].
    + specialize (IH cs Hin Hnd Hq). destruct (broadcast_to ev ws cs). simpl in *.
      destruct IH. split; [by constructor|done].
Qed.

Lemma subscribed_broadcast p rx q ev st :
  subscribed p rx q st ->
  subscribed p rx (if starts_with p (ev_key ev) then q ++ [ev] else q) (broadcast_to ev st.1 st.2).
Proof.
  intros [H1 H2 H3 H4]. destruct (broadcast_queue p rx q ev st.1 st.2 H1 H2 H4) as [G1 G2].
  pose proof (broadcast_sub ev st.1 st.2) as Hsub. split; [done| | |done].
  - eapply sublist_NoDup; [exact H2|]. exact (fmap_sublist w_tx _ _ Hsub).
  - rewrite broadcast_length. rewrite List.Forall_forall in *. intros w Hw. apply H3.
    apply list_elem_of_In. apply list_elem_of_In in Hw. by eapply elem_of_sublist.
Qed.

Lemma subscribed_bcast_all p rx q evs st :
  subscribed p rx q st ->
  subscribed p rx (q ++ List.filter (fun e => starts_with p (ev_key e)) evs) (bcast_all evs st).
Proof.
  revert q st; induction evs as [|ev evs IH]; intros q st H; simpl; [by rewrite app_nil_r|].
  apply (subscribed_broadcast _ _ _ ev) in H. apply IH in H. simpl in *.
  destruct (starts_with p (ev_key ev)); [|done]. by rewrite <- app_assoc in H.
Qed.

(** A call broadcasts exactly the events it appends to the log, in order. *)
Definition tells (s s' : SqliteStore) : Prop :=
  exists evs, a_events (sq_abs s') = a_events (sq_abs s) ++ evs /\
    Forall (fun e => a_rev (sq_abs s) < ev_rev e) evs /\ sinks s' = bcast_all evs (sinks s).

Lemma tells_silent s s' :
  a_events (sq_abs s') = a_events (sq_abs s) -> sinks s' = sinks s -> tells s s'.
Proof. intros H1 H2. exists []. by rewrite app_nil_r. Qed.

Lemma with_conn_sinks {A} (p : prog A) s : sinks (with_conn p s).2 = sinks s.
Proof. unfold with_conn. by destruct (run p (faults s) (conn s)) as [[r fs'] db']. Qed.

Lemma notify_tells s s1 ev :
  sinks s1 = sinks s -> a_events (sq_abs s1) = a_events (sq_abs s) ++ [ev] ->
  a_rev (sq_abs s) < ev_rev ev -> tells s (broadcast ev s1).
Proof.
  intros H1 H2 H3. exists [ev]. unfold broadcast, sq_abs in *. injection H1 as Hw Hc. rewrite Hw, Hc.
  destruct (broadcast_to ev (watchers s) (chans s)) as [ws cs] eqn:E. simpl.
  split; [done|]. split; [by repeat constructor|]. unfold sinks; simpl. by rewrite E.
Qed.

Lemma notify_all evs s :
  let s' := (mfor evs (fun '(k, rev) => notify (mkEvent Delete k "" rev)) s).2 in
  sinks s' = bcast_all (map (fun p => mkEvent Delete p.1 "" p.2) evs) (sinks s) /\ conn s' = conn s /\
  (mfor evs (fun '(k, rev) => notify (mkEvent Delete k "" rev)) s).1 = Ok tt.
Proof.
  revert s; induction evs as [|[k rev] evs IH]; intros s; [done|]. cbn [mfor map bcast_all fold_left].
  unfold mbind, notify at 1 3 5. cbv beta iota. destruct (IH (broadcast (mkEvent Delete k "" rev) s)) as (H1 & H2 & H3).
  cbv zeta in *. rewrite H1, H2, H3. split; [|split; [apply broadcast_conn|done]].
  unfold bcast_all. f_equal. unfold sinks, broadcast. simpl.
  by destruct (broadcast_to _ (watchers s) (chans s)).
Qed.

Lemma del_log_gt r ks : Forall (fun p => r < p.2) (del_log r ks).
Proof.
  revert r; induction ks as [|k ks IH]; intros r; simpl; constructor; [simpl; lia|].
  eapply List.Forall_impl; [|apply IH]. simpl. intros; lia.
Qed.

Lemma sqlite_put_tells k v l s :
  sq_inv s -> sq_healthy s -> tells s (sqlite_put k v l s).2.
Proof.
  intros Hs Hh. unfold sqlite_put, mbind.
  pose proof (with_conn_meets _ _ (q_put_meets k v l) s Hs) as G. pose proof (with_conn_sinks (q_put k v l) s) as Hw.
  destruct (with_conn (q_put k v l) s) as [[rev|[e|i]] s1]; destruct G as (_ & G & Hb); simpl in *.
  - destruct G as (_ & Ha & Hr).
    assert (rev = a_rev (sq_abs s) + 1) as -> by (rewrite Hr; exact (f_equal a_rev Ha)).
    apply notify_tells; [done|by rewrite Ha|simpl; lia].
  - destruct (Hb Hh) as [_ Hn]. exfalso. apply Hn. by exists e.
  - destruct G as (_ & _ & Ha). by apply tells_silent; [rewrite Ha|].
Qed.

Lemma sqlite_delete_tells k s : sq_inv s -> sq_healthy s -> tells s (sqlite_delete k s).2.
Proof.
  intros Hs Hh. unfold sqlite_delete, mbind.
  pose proof (with_conn_meets _ _ (q_delete_meets k) s Hs) as G. pose proof (with_conn_sinks (q_delete k) s) as Hw.
  destruct (with_conn (q_delete k) s) as [[[rev|]|[e|i]] s1]; destruct G as (_ & [G Gr] & Hb); simpl in *.
  - destruct G as [_ Ha].
    assert (rev = a_rev (sq_abs s) + 1) as -> by (rewrite Gr; exact (f_equal a_rev Ha)).
    apply notify_tells; [done|by rewrite Ha|simpl; lia].
  - destruct G as [_ Ha]. by apply tells_silent; [rewrite Ha|].
  - destruct (Hb Hh) as [_ Hn]. exfalso. apply Hn. by exists e.
  - done.
Qed.

Lemma sqlite_cas_tells k e v l s : sq_inv s -> sq_healthy s -> tells s (sqlite_cas k e v l s).2.
Proof.
  intros Hs Hh. unfold sqlite_cas, mbind.
  pose proof (with_conn_meets _ _ (q_cas_meets k e v l) s Hs) as G.
  pose proof (with_conn_sinks (q_cas k e v l) s) as Hw.
  destruct (with_conn (q_cas k e v l) s) as [[c|[m|i]] s1]; destruct G as (_ & G & Hb); simpl in *.
  - destruct G as (_ & Hr & _ & Ha). destruct (cas_succeeded c).
    + assert (cas_revision c = a_rev (sq_abs s) + 1) as -> by (rewrite Hr; exact (f_equal a_rev Ha)).
      apply notify_tells; [done|by rewrite Ha|simpl; lia].
    + apply tells_silent; [exact (f_equal a_events Ha)|done].
  - destruct (Hb Hh) as [_ Hn]. exfalso. apply Hn. by exists m.
  - done.
Qed.

Lemma reap_leases_tells sel s : sq_inv s -> sq_healthy s -> tells s (reap_leases sel s).2.
Proof.
  intros Hs Hh. unfold reap_leases. unfold mbind at 1.
  pose proof (with_conn_meets _ _ (q_reap_meets sel) s Hs) as G. pose proof (with_conn_sinks (q_reap sel) s) as Hw.
  destruct (with_conn (q_reap sel) s) as [[ps|[e|i]] s1]; destruct G as (_ & [G Gp] & Hb).
  - destruct G as (_ & _ & Ha). unfold mbind. pose proof (notify_all ps s1) as (N1 & N2 & N3). cbv zeta in *.
    destruct (mfor ps _ s1) as [r s2]. simpl in *. subst r. simpl.
    exists (map (fun p => mkEvent Delete p.1 "" p.2) ps). split; [|split].
    + unfold sq_abs. rewrite N2. fold (sq_abs s1). rewrite Ha. simpl.
      rewrite a_remove_all_events. f_equal. change (a_rev (sq_abs s)) with (meta_rev (conn s)).
      by rewrite <- Gp.
    + rewrite Forall_map. rewrite Gp. exact (del_log_gt _ _).
    + by rewrite N1, Hw.
  - destruct (Hb Hh) as [_ Hn]. exfalso. apply Hn. by exists e.
  - done.
Qed.

(** What a watcher of [p] that subscribed at revision [r] should have received. *)
Definition due (p : string) (r : Z) (s : SqliteStore) : list Event :=
  List.filter (fun e => starts_with p (ev_key e)) (events_after r (sq_abs s)).

Definition served (p : string) (rx : nat) (r : Z) (s : SqliteStore) : Prop :=
  r <= a_rev (sq_abs s) /\ subscribed p rx (due p r s) (sinks s).

Lemma served_tells p rx r s s' :
  a_rev (sq_abs s) <= a_rev (sq_abs s') -> tells s s' -> served p rx r s -> served p rx r s'.
Proof.
  intros Hrev (evs & H1 & H2 & H3) [Hr Hs]. split; [lia|]. rewrite H3.
  replace (due p r s') with (due p r s ++ List.filter (fun e => starts_with p (ev_key e)) evs);
    [by apply subscribed_bcast_all|].
  unfold due, events_after. rewrite H1, !List.filter_app. f_equal. f_equal. clear H1 H3.
  induction H2 as [|e l He Hl IH]; simpl; [done|]. rewrite (proj2 (Z.ltb_lt _ _)) by lia. by rewrite <- IH.
Qed.

Lemma served_compact p rx r below s :
  below <= r -> sq_inv s -> sq_healthy s -> served p rx r s ->
  served p rx r (with_conn (q_compact below) s).2.
Proof.
  intros Hb Hs Hh [Hr Hsub].
  pose proof (with_conn_meets _ _ (q_compact_meets below) s Hs) as G.
  pose proof (with_conn_sinks (q_compact below) s) as Hw.
  destruct (with_conn (q_compact below) s) as [[n|[e|i]] s1]; destruct G as (_ & G & Hn); simpl in Hw; [| |done].
  - destruct G as [Ha _]. split; cbn [snd]; [by rewrite Ha|]. rewrite Hw.
    replace (due p r s1) with (due p r s); [done|]. unfold due, events_after. rewrite Ha. simpl.
    f_equal. rewrite <- filter_andb. apply List.filter_ext. intros e.
    destruct (r <? ev_rev e) eqn:E1, (below <? ev_rev e) eqn:E2; try done. bool_prop. lia.
  - destruct (Hn Hh) as [_ Hx]. exfalso. apply Hx. by exists e.
Qed.

Lemma served_watch p rx r p' s : served p rx r s -> served p rx r (sqlite_watch p' s).2.
Proof.
  intros [Hr [H1 H2 H3 H4]]. split; [done|]. split; simpl in *.
  - apply elem_of_app. by left.
  - rewrite map_app. apply NoDup_app. split; [done|]. split; [|repeat constructor; set_solver].
    intros x (w & <- & Hw)%list_elem_of_In%in_map_iff Hx. simpl in Hx.
    apply list_elem_of_singleton in Hx. rewrite List.Forall_forall in H3. apply H3 in Hw. lia.
  - rewrite length_app. apply Forall_app. split; [|repeat constructor; simpl; lia].
    eapply List.Forall_impl; [|exact H3]. simpl. lia.
  - rewrite lookup_app_l; [done|by eapply lookup_lt_Some].
Qed.

Definition read_only_log (op : Op) : bool :=
  match op with
  | OPut _ _ _ | ODelete _ | OCas _ _ _ _ | ORevoke _ | OSweep _ | OCompact _ | OWatch _ => false
  | _ => true
  end.

Lemma astep_log op a r a' : astep op a r a' -> read_only_log op = true -> a_events a' = a_events a.
Proof.
  intros Hs. destruct Hs; intros Hq; try done;
    unfold get_post, list_post, grant_post, keepalive_post, revision_post, changes_post in *;
    repeat match goal with
    | H : match ?x with _ => _ end |- _ => destruct x
    | H : _ /\ _ |- _ => destruct H
    | H : exists _, _ |- _ => destruct H
    end; subst; done.
Qed.

Lemma call_served p rx r op s :
  sq_inv s -> sq_healthy s -> compacts_up_to r op -> served p rx r s -> served p rx r (call op s).2.
Proof.
  intros Hs Hh Hc Hserved.
  pose proof (call_step op s Hs) as G. destruct (call op s) as [rep s'] eqn:E.
  destruct G as (_ & G & Hb). destruct (Hb Hh) as [_ Hnb]. pose proof (astep_rev _ _ _ _ G) as Hrev.
  assert (s' = (call op s).2) as Hs' by (by rewrite E). simpl. clear E Hb.
  assert (forall A (f : result A StoreError -> Reply) (m : M SqliteStore StoreError A),
            (reply f m s).2 = (m s).2) as Hrep.
  { intros A f m. unfold reply. by destruct (m s). }
  destruct op; simpl call in Hs'; rewrite ?Hrep in Hs';
    try (eapply served_tells; [exact Hrev| |exact Hserved]; apply tells_silent;
         [exact (astep_log _ _ _ _ G eq_refl)|rewrite Hs'; apply with_conn_sinks]).
  - eapply served_tells; eauto. rewrite Hs'. by apply sqlite_put_tells.
  - eapply served_tells; eauto. rewrite Hs'. by apply sqlite_delete_tells.
  - eapply served_tells; eauto. rewrite Hs'. by apply sqlite_cas_tells.
  - eapply served_tells; eauto. rewrite Hs'. by apply reap_leases_tells.
  - eapply served_tells; eauto. rewrite Hs'. by apply reap_leases_tells.
  - rewrite Hs'. by apply served_compact.
  - rewrite Hs'. by apply served_watch.
Qed.

Lemma calls_served p rx r ops s :
  sq_inv s -> sq_healthy s -> Forall (compacts_up_to r) ops -> served p rx r s ->
  served p rx r (calls ops s).2.
Proof.
  revert s; induction ops as [|op ops IH]; intros s Hs Hh Hc Hserved; [done|]. inversion Hc; subst.
  simpl. pose proof (call_step op s Hs) as G. pose proof (call_served p rx r op s) as Hcs.
  destruct (call op s) as [rep s1]. destruct G as (I1 & _ & G). destruct (G Hh) as [Hh1 _].
  specialize (IH s1 I1 Hh1). destruct (calls ops s1). simpl in *. auto.
Qed.

(**  a subscription receives every change under its prefix, once and in
    revision order, and nothing else: after any calls, the events waiting in the
    receiver that [watch(prefix)] returned are the events of the log after the
    subscription whose key starts with the prefix (for the prefixes the range
    scan answers exactly, what [changes_since] returns from then on). *)
Theorem watch_delivers (s : SqliteStore) (p : string) (ops : list Op) :
  sq_inv s -> sq_healthy s ->
  Forall (fun w => (w_tx w < length (chans s))%nat) (watchers s) -> NoDup (map w_tx (watchers s)) ->
  Forall (compacts_up_to (a_rev (sq_abs s))) ops ->
  let '(rx, s1) := sqlite_watch p s in
  chans (calls ops s1).2 !! rx = Some (mkChan (due p (a_rev (sq_abs s)) (calls ops s1).2) true).
Proof.
  intros Hs Hh Hb Hnd Hc. unfold sqlite_watch.
  set (s1 := mkSqlite _ _ _ _).
  assert (served p (length (chans s)) (a_rev (sq_abs s)) s1) as Hserved.
  { split; [done|].
    assert (due p (a_rev (sq_abs s)) s1 = []) as ->.
    { unfold due, events_after. pose proof (awf_events_le _ (dbwf_awf _ Hs)) as Hle. simpl in *.
      change (sq_abs s1) with (sq_abs s). induction Hle as [|e l He Hl IH]; simpl; [done|].
      rewrite (proj2 (Z.ltb_ge _ _)) by done. done. }
    split; simpl.
    - apply elem_of_app. right. by apply list_elem_of_singleton.
    - rewrite map_app. apply NoDup_app. split; [done|]. split; [|repeat constructor; set_solver].
      intros x (w & <- & Hw)%list_elem_of_In%in_map_iff Hx. simpl in Hx.
      apply list_elem_of_singleton in Hx. rewrite List.Forall_forall in Hb. apply Hb in Hw. lia.
    - rewrite length_app. apply Forall_app. split; [|repeat constructor; simpl; lia].
      eapply List.Forall_impl; [|exact Hb]. simpl. lia.
    - rewrite lookup_app_r by lia. by rewrite Nat.sub_diag. }
  exact (sub_queue _ _ _ _ (proj2 (calls_served p _ _ ops s1 Hs Hh Hc Hserved))).
Qed.

Lemma watch_delivers_witness :
  chans (calls [OPut "sandbox/a" "1" None; OPut "node/x" "" None; ODelete "sandbox/a"]
               (sqlite_watch "sandbox/" (open_in_memory [])).2).2 !! 0%nat
    = Some (mkChan [mkEvent Put "sandbox/a" "1" 1; mkEvent Delete "sandbox/a" "" 3] true).
Proof.
  refine (watch_delivers (open_in_memory []) "sandbox/"
            [OPut "sandbox/a" "1" None; OPut "node/x" "" None; ODelete "sandbox/a"] _ _ _ _ _).
  - exact init_wf.
  - constructor.
  - constructor.
  - constructor.
  - repeat constructor.
Defined.

(** ** Migration *)

Section Migrate.
Context {S T : Type} `{StoreLaws S} `{StoreLaws T}.

Definition copy_one (kv : KeyValue) : M (S * T) StoreError unit :=
  let? _ := on_snd (put (kv_key kv) (kv_value kv) None) in mret tt.

Definition copied (kvs : list KeyValue) (a : AStore) : AStore :=
  fold_left (fun a kv => a_write (kv_key kv) (kv_value kv) None a) kvs a.

Lemma copy_one_ok kv (s : S) (t : T) :
  inv t -> healthy t ->
  exists t', copy_one kv (s, t) = (Ok tt, (s, t')) /\ inv t' /\ healthy t' /\
             abs t' = a_write (kv_key kv) (kv_value kv) None (abs t).
Proof.
  intros Ht Hh. unfold copy_one, mbind, on_snd; simpl.
  pose proof (put_meets (kv_key kv) (kv_value kv) None t Ht) as G.
  destruct (put (kv_key kv) (kv_value kv) None t) as [r t']. destruct G as (I & G & Hb).
  destruct (Hb Hh) as [Hh' Hn]. destruct r as [rev|[e|i]]; simpl in G.
  - destruct G as (_ & Ha & _). exists t'. auto.
  - exfalso. apply Hn. by exists e.
  - by destruct G.
Qed.

Lemma copy_all_ok kvs (s : S) (t : T) :
  inv t -> healthy t ->
  exists t', mfor kvs copy_one (s, t) = (Ok tt, (s, t')) /\ inv t' /\ healthy t' /\
             abs t' = copied kvs (abs t).
Proof.
  revert t; induction kvs as [|kv kvs IH]; intros t Ht Hh; [by exists t|]. simpl. unfold mbind at 1.
  destruct (copy_one_ok kv s t Ht Hh) as (t1 & -> & I1 & Hh1 & Ha1).
  destruct (IH t1 I1 Hh1) as (t2 & -> & I2 & Hh2 & Ha2). exists t2. rewrite Ha2, Ha1. auto.
Qed.

Lemma copied_lookup kvs a k :
  NoDup (map kv_key kvs) ->
  values (copied kvs a) !! k =
    match List.find (fun kv => String.eqb (kv_key kv) k) kvs with
    | Some kv => Some (kv_value kv)
    | None => values a !! k
    end.
Proof.
  revert a; induction kvs as [|kv kvs IH]; intros a Hnd; [done|]. simpl in Hnd.
  apply NoDup_cons in Hnd as [Hni Hnd]. cbn [copied fold_left List.find].
  change (fold_left _ kvs ?x) with (copied kvs x). rewrite IH by done.
  destruct (String.eqb_spec (kv_key kv) k) as [<-|Hne].
  - replace (List.find _ kvs) with (@None KeyValue).
    + unfold values. rewrite lookup_fmap, a_write_kv, decide_True by done. done.
    + symmetry. destruct (List.find _ kvs) as [x|] eqn:E; [|done]. exfalso.
      apply find_some in E as [Hin Heq]. bool_prop. apply Hni.
      apply list_elem_of_In, in_map_iff. eauto.
  - destruct (List.find _ kvs); [done|]. unfold values.
    rewrite !lookup_fmap, a_write_kv, decide_False by done. done.
Qed.

Lemma copied_lease kvs a k kv' :
  k ∈ map kv_key kvs \/ (forall kv, a_kv a !! k = Some kv -> kv_lease kv = None) ->
  a_kv (copied kvs a) !! k = Some kv' -> kv_lease kv' = None.
Proof.
  revert a; induction kvs as [|x kvs IH]; intros a Hk Hl; simpl in *.
  - destruct Hk as [Hk|Hk]; [by apply not_elem_of_nil in Hk|auto].
  - eapply IH; [|exact Hl]. destruct (decide (kv_key x = k)) as [Heq|Hne].
    + right. intros kv. rewrite a_write_kv, decide_True by done. by intros [= <-].
    + destruct Hk as [[->|Hk]%elem_of_cons|Hk]; [done|by left|].
      right. intros kv. rewrite a_write_kv, decide_False by done. auto.
Qed.
End Migrate.

Lemma sorted_by_key_NoDup l : sorted_by_key l -> NoDup (map kv_key l).
Proof.
  induction 1 as [|x l Hs IH Hx]; simpl; constructor; [|done].
  intros (y & Hy & Hin)%list_elem_of_In%in_map_iff. rewrite List.Forall_forall in Hx.
  specialize (Hx y Hin). by rewrite Hy, str_lt_irrefl in Hx.
Qed.

(** A listing of everything, on a healthy store. *)
Lemma list_all_found {S : Type} `{StoreLaws S} (s : S) :
  inv s -> healthy s ->
  exists kvs s', list_prefix "" s = (Ok kvs, s') /\ abs s' = abs s /\ NoDup (map kv_key kvs) /\
    (forall k, List.find (fun kv => String.eqb (kv_key kv) k) kvs = a_kv (abs s) !! k) /\
    length kvs = size (a_kv (abs s)).
Proof.
  intros Hs Hhs. pose proof (list_meets "" s Hs) as G. destruct (list_prefix "" s) as [r s'].
  destruct G as (_ & [Ha G] & Hb). destruct (Hb Hhs) as [_ Hnb].
  destruct r as [kvs|[e|i]]; [|exfalso; apply Hnb; by exists e|done].
  destruct (G (or_introl eq_refl)) as [Hsort Hin]. apply sorted_by_key_NoDup in Hsort as Hnd.
  assert (forall k, List.find (fun kv => String.eqb (kv_key kv) k) kvs = a_kv (abs s) !! k) as Hfind.
  { intros k. rewrite find_kv_map. apply option_eq. intros kv. rewrite kv_map_lookup by done.
    rewrite Hin. split; [by intros [[H3 _] <-]|]. intros Hk.
    pose proof (awf_key _ (inv_awf s Hs) _ _ Hk) as <-. auto. }
  exists kvs, s'. repeat split; try done.
  assert (a_kv (abs s) = kv_map kvs) as ->.
  { apply map_eq. intros k. by rewrite <- Hfind, find_kv_map. }
  unfold kv_map. rewrite map_size_list_to_map by (by rewrite fst_pairs). by rewrite length_map.
Qed.

(** What the copies of a listing of [m] leave in the destination. *)
Lemma copied_values kvs (m : gmap string KeyValue) a :
  NoDup (map kv_key kvs) -> (forall k, List.find (fun kv => String.eqb (kv_key kv) k) kvs = m !! k) ->
  (forall k, values (copied kvs a) !! k = match (kv_value <$> m) !! k with
                                          | Some v => Some v
                                          | None => values a !! k
                                          end) /\
  (forall k kv kv', m !! k = Some kv -> a_kv (copied kvs a) !! k = Some kv' -> kv_lease kv' = None).
Proof.
  intros Hnd Hfind. split.
  - intros k. rewrite copied_lookup, Hfind, lookup_fmap by done. by destruct (m !! k).
  - intros k kv kv' Hk Hk'. rewrite <- Hfind in Hk. apply find_some in Hk as [Hkin Heq]. bool_prop. subst k.
    eapply copied_lease; [|exact Hk']. left. apply list_elem_of_In, in_map_iff. eauto.
Qed.

(**  [migrate_all] copies the whole source store.  It returns the number of
    keys of the source; afterwards the destination holds every key of the
    source with its value, detached from any lease, keeps its other keys, and
    the source is unchanged. *)
Theorem migrate_all_copies {S T : Type} `{StoreLaws S} `{StoreLaws T} (s : S) (t : T) :
  inv s -> healthy s -> inv t -> healthy t ->
  exists s' t', migrate_all (s, t) = (Ok (size (a_kv (abs s))), (s', t')) /\ abs s' = abs s /\
    (forall k, values (abs t') !! k = match values (abs s) !! k with
                                      | Some v => Some v
                                      | None => values (abs t) !! k
                                      end) /\
    (forall k kv kv', a_kv (abs s) !! k = Some kv -> a_kv (abs t') !! k = Some kv' -> kv_lease kv' = None).
Proof.
  intros Hs Hhs Ht Hht. destruct (list_all_found s Hs Hhs) as (kvs & s' & Hl & Ha & Hnd & Hfind & Hlen).
  unfold migrate_all, mbind at 1, on_fst; simpl. rewrite Hl.
  unfold mbind. change (mfor kvs _ (s', t)) with (mfor kvs copy_one (s', t)).
  destruct (copy_all_ok kvs s' t Ht Hht) as (t' & -> & I' & _ & Ha').
  exists s', t'. rewrite Ha', <- Hlen. split; [done|]. split; [done|]. by apply copied_values.
Qed.

Lemma migrate_all_copies_witness :
  exists s' t', migrate_all (cas_demo, open_in_memory []) = (Ok 1%nat, (s', t')) /\
    values (sq_abs t') !! "k"%string = Some "a"%string.
Proof.
  destruct (migrate_all_copies cas_demo (open_in_memory [])) as (s' & t' & H1 & H2 & H3 & H4).
  - apply store_after_inv.
  - constructor.
  - exact init_wf.
  - constructor.
  - exists s', t'. split; [exact H1|]. exact (H3 "k"%string).
Defined.

(** ** What a listing says about the store *)

Definition lists (a : AStore) (p : string) (kvs : list KeyValue) : Prop :=
  sorted_by_key kvs /\
  forall kv, In kv kvs <-> a_kv a !! kv_key kv = Some kv /\ starts_with p (kv_key kv) = true.

Lemma lists_find a p kvs k :
  awf a -> lists a p kvs ->
  List.find (fun kv => String.eqb (kv_key kv) k) kvs = if starts_with p k then a_kv a !! k else None.
Proof.
  intros Hwf [Hs Hin]. apply sorted_by_key_NoDup in Hs. rewrite find_kv_map. apply option_eq. intros kv.
  rewrite kv_map_lookup by done. rewrite Hin. split.
  - intros [[H1 H2] <-]. by rewrite H2.
  - destruct (starts_with p k) eqn:E; [|done]. intros Hk.
    pose proof (awf_key _ Hwf _ _ Hk) as <-. auto.
Qed.

Lemma lists_perm a p kvs (P : string -> Prop) `{!forall k, Decision (P k)} (f : KeyValue -> bool) :
  awf a -> lists a p kvs ->
  (forall kv, a_kv a !! kv_key kv = Some kv -> P (kv_key kv) <-> starts_with p (kv_key kv) = true /\ f kv = true) ->
  List.filter f kvs ≡ₚ map snd (map_to_list (filter (fun x => P x.1) (a_kv a))).
Proof.
  intros Hwf [Hs Hin] HP. apply NoDup_Permutation.
  - apply sorted_by_key_NoDup in Hs. apply (NoDup_fmap_1 kv_key). apply (filter_NoDup_map kv_key f kvs Hs).
  - apply (NoDup_fmap_1 kv_key).
    replace (kv_key <$> map snd (map_to_list (filter (fun x => P x.1) (a_kv a))))
      with ((map_to_list (filter (fun x => P x.1) (a_kv a))).*1); [apply NoDup_fst_map_to_list|].
    change (map snd ?l) with (l.*2). rewrite <- list_fmap_compose. apply list_fmap_ext.
    intros i [k kv] Hi. simpl. apply list_elem_of_lookup_2, elem_of_map_to_list in Hi.
    apply map_lookup_filter_Some in Hi as [Hi _]. symmetry. by apply (awf_key _ Hwf).
  - intros kv. rewrite !list_elem_of_In, filter_In, Hin, in_map_iff. split.
    + intros [[H1 H2] H3]. exists (kv_key kv, kv). split; [done|].
      apply list_elem_of_In, elem_of_map_to_list, map_lookup_filter_Some. split; [done|]. simpl. by apply HP.
    + intros ([k kv'] & Heq & Hk). simpl in Heq. subst kv'.
      apply list_elem_of_In, elem_of_map_to_list, map_lookup_filter_Some in Hk as [Hk HPk]. simpl in HPk.
      pose proof (awf_key _ Hwf _ _ Hk) as <-. apply HP in HPk; [|done]. intuition.
Qed.

(** ** Stores that only lose keys and leases

    The reclaiming clients delete keys and revoke leases in loops, over a listing
    taken before; [V] and [VL] say which keys and leases may go. *)

Section Shrink.
Context (V : string -> Prop) (VL : Z -> Prop) (a : AStore).

Record shrunk (a' : AStore) : Prop := {
  sh_kv : forall k, a_kv a' !! k = a_kv a !! k \/ (a_kv a' !! k = None /\ V k);
  sh_leases : forall id, a_leases a' !! id = a_leases a !! id \/ (a_leases a' !! id = None /\ VL id)
}.

Lemma shrunk_refl : shrunk a.
Proof. split; auto. Qed.

(** What remains in a shrunk store was there. *)
Lemma shrunk_kv a' k kv : shrunk a' -> a_kv a' !! k = Some kv -> a_kv a !! k = Some kv.
Proof. intros [H1 _] Hk. destruct (H1 k) as [Heq|[Hn _]]; congruence. Qed.
Lemma shrunk_lease a' id l : shrunk a' -> a_leases a' !! id = Some l -> a_leases a !! id = Some l.
Proof. intros [_ H2] Hk. destruct (H2 id) as [Heq|[Hn _]]; congruence. Qed.

Lemma shrunk_step a1 a2 :
  shrunk a1 ->
  (forall k, a_kv a2 !! k = a_kv a1 !! k \/ (a_kv a2 !! k = None /\ V k)) ->
  (forall id, a_leases a2 !! id = a_leases a1 !! id \/ (a_leases a2 !! id = None /\ VL id)) ->
  shrunk a2.
Proof.
  intros [H1 H2] K L. split.
  - intros k. destruct (K k) as [->|?]; auto.
  - intros id. destruct (L id) as [->|?]; auto.
Qed.

(** A reap, complete or interrupted, of leases that may go. *)
Lemma reap_shrinks a1 sel r a2 :
  (forall id l, a_leases a !! id = Some l -> sel_lease sel id l = true -> VL id) ->
  (forall k, reaped sel a k -> V k) ->
  shrunk a1 -> reap_post a1 sel r a2 -> shrunk a2.
Proof.
  intros HL HV Hsh Hp.
  assert (forall k, reaped sel a1 k -> V k) as HV1.
  { intros k (kv & id & l & K1 & K2 & K3 & K4). apply HV. exists kv, id, l.
    split; [by eapply shrunk_kv|]. split; [done|]. split; [by eapply shrunk_lease|done]. }
  assert (forall id l, a_leases a1 !! id = Some l -> sel_lease sel id l = true -> VL id) as HL1
    by eauto using shrunk_lease.
  eapply shrunk_step; [exact Hsh| |].
  - intros k. destruct r as [ks|[e|i]]; simpl in Hp; [|destruct Hp as [_ Hk _]|done].
    + destruct Hp as (_ & Hin & ->). simpl. rewrite a_remove_all_kv. case_bool_decide as Hk; [right|by left].
      split; [done|]. by apply HV1, Hin, list_elem_of_In.
    + destruct (Hk k) as [|[? Hr]]; [by left|right]. auto.
  - intros id. destruct r as [ks|[e|i]]; simpl in Hp; [|destruct Hp as [_ _ Hk]|done].
    + destruct Hp as (_ & Hin & ->). simpl. unfold leases_after.
      destruct (a_leases a1 !! id) as [l|] eqn:E; [|left; apply map_lookup_filter_None; by left].
      destruct (sel_lease sel id l) eqn:Es.
      * right. split; [|by eapply HL1]. apply map_lookup_filter_None. right. simpl. intros ? ?. congruence.
      * left. apply map_lookup_filter_Some. done.
    + destruct (Hk id) as [|(? & l & ? & Hs)]; [by left|right]. eauto.
Qed.

Lemma revoke_shrinks a1 id r a2 :
  VL id ->
  (forall k kv, a_kv a !! k = Some kv -> kv_lease kv = Some id -> is_Some (a_leases a !! id) -> V k) ->
  shrunk a1 -> reap_post a1 (SelId id) r a2 -> shrunk a2.
Proof.
  intros HL HV. apply reap_shrinks.
  - intros i l _ Hs. simpl in Hs. bool_prop. by subst.
  - intros k (kv & i & l & K1 & K2 & K3 & K4). simpl in K4. bool_prop. subst i. eauto.
Qed.

Lemma delete_shrinks a1 k0 r a2 : V k0 -> shrunk a1 -> delete_post a1 k0 r a2 -> shrunk a2.
Proof.
  intros HV Hsh Hp.
  eapply shrunk_step; [exact Hsh| |]; destruct r as [b|[e|i]]; simpl in Hp; try done.
  - intros k. destruct Hp as [_ ->]. destruct b; [|by left]. simpl.
    destruct (decide (k = k0)) as [->|]; [rewrite lookup_delete_eq|rewrite lookup_delete_ne by done]; auto.
  - intros k. destruct Hp as [_ Hk _ _ Hkv _].
    destruct (decide (k = k0)) as [->|]; [destruct Hk; auto|auto].
  - intros id. destruct Hp as [_ ->]. destruct b; by left.
  - intros id. destruct Hp as [_ _ _ _ _ ->]. by left.
Qed.

(** A lease that is gone took its keys with it. *)
Definition closed (a1 : AStore) : Prop :=
  forall id k kv, is_Some (a_leases a !! id) -> a_leases a1 !! id = None ->
    a_kv a !! k = Some kv -> kv_lease kv = Some id -> a_kv a1 !! k = None.

Lemma closed_refl : closed a.
Proof. intros id k kv [l Hl] Hn. congruence. Qed.

Lemma leases_after_id id ls i : leases_after (SelId id) ls !! i = if decide (i = id) then None else ls !! i.
Proof.
  unfold leases_after. destruct (decide (i = id)) as [->|Hn].
  - apply map_lookup_filter_None. right. intros l _. simpl. by rewrite Z.eqb_refl.
  - destruct (ls !! i) as [l|] eqn:E.
    + apply map_lookup_filter_Some. split; [done|]. simpl. by apply Z.eqb_neq.
    + apply map_lookup_filter_None. by left.
Qed.

Lemma revoke_closed a1 id ks a2 :
  shrunk a1 -> closed a1 -> reap_post a1 (SelId id) (Ok ks) a2 -> closed a2.
Proof.
  intros Hsh Hcl (_ & Hks & ->) i k kv Hsome Hnone Hk Hl. simpl in *. rewrite a_remove_all_kv.
  case_bool_decide as Hin; [done|]. rewrite leases_after_id in Hnone.
  destruct (decide (i = id)) as [->|]; [|by eapply Hcl].
  destruct (a_leases a1 !! id) as [l|] eqn:E; [|by eapply Hcl].
  destruct (sh_kv _ Hsh k) as [Heq|[? _]]; [|done]. rewrite Heq. exfalso. apply Hin.
  apply list_elem_of_In, Hks. exists kv, id, l. rewrite Heq. simpl. rewrite Z.eqb_refl. auto.
Qed.

Lemma delete_closed a1 k0 b a2 : closed a1 -> delete_post a1 k0 (Ok b) a2 -> closed a2.
Proof.
  intros Hcl [_ ->] i k kv H1 H2 H3 H4. destruct b; [|by eapply Hcl]. simpl in *.
  destruct (decide (k = k0)) as [->|]; [by rewrite lookup_delete_eq|]. rewrite lookup_delete_ne by done. by eapply Hcl.
Qed.
End Shrink.

(** [a2] has no key or lease that [a1] does not have. *)
Definition fewer (a1 a2 : AStore) : Prop :=
  (forall k, a_kv a2 !! k = a_kv a1 !! k \/ a_kv a2 !! k = None) /\
  (forall id, a_leases a2 !! id = a_leases a1 !! id \/ a_leases a2 !! id = None).

Lemma fewer_refl a : fewer a a.
Proof. split; auto. Qed.
Lemma fewer_trans a1 a2 a3 : fewer a1 a2 -> fewer a2 a3 -> fewer a1 a3.
Proof.
  intros [K1 L1] [K2 L2]. split.
  - intros k. destruct (K2 k) as [->|]; auto.
  - intros id. destruct (L2 id) as [->|]; auto.
Qed.
Lemma reap_fewer a1 sel r a2 : reap_post a1 sel r a2 -> fewer a1 a2.
Proof.
  intros Hp. destruct (reap_shrinks (fun _ => True) (fun _ => True) a1 a1 sel r a2) as [K L]; auto using shrunk_refl.
  split; [intros k; destruct (K k) as [|[]]|intros id; destruct (L id) as [|[]]]; auto.
Qed.
Lemma delete_fewer a1 k r a2 : delete_post a1 k r a2 -> fewer a1 a2.
Proof.
  intros Hp. destruct (delete_shrinks (fun _ => True) (fun _ => True) a1 a1 k r a2) as [K L]; auto using shrunk_refl.
  split; [intros i; destruct (K i) as [|[]]|intros id; destruct (L id) as [|[]]]; auto.
Qed.
