(* ===== verification/StoreFindings.v ===== *)
(** * Limits of the SQLite store

    Behaviours of the store that its comments and callers do not expect, each as
    a theorem on a concrete run: a prefix scan that answers with foreign keys,
    lease ids that come back, a swap that attaches a key to a lease nobody
    granted, an expiry that wraps, and two connections to one database file
    whose statements interleave. *)

From Stdlib Require Import ZArith Lia Bool List String Ascii.
From stdpp Require Import base tactics list gmap strings sorting.
From S2P Require Import Prelude RustStr Utf8 Store Sqlite SqliteSpec StoreTheorems.

Open Scope Z_scope.

(** ** Interleaving of two connections

    A statement is atomic; between the statements of one method another
    connection to the same file may run its own. *)

Definition pstep {A} (p : prog A) (db : Db) : prog A * Db :=
  match p with
  | PRet r => (PRet r, db)
  | PStmt st k => match exec st db with
                  | (Ok x, db') => (k x, db')
                  | (Err e, db') => (PRet (Err (Backend e)), db')
                  end
  end.

(** [true] schedules the first connection, [false] the second. *)
Fixpoint interleave {A B} (sched : list bool) (p : prog A) (q : prog B) (db : Db)
    : prog A * prog B * Db :=
  match sched with
  | [] => (p, q, db)
  | true :: sched' => let '(p', db') := pstep p db in interleave sched' p' q db'
  | false :: sched' => let '(q', db') := pstep q db in interleave sched' p q' db'
  end.

(** An interleaving that lets one method finish first is the sequential run. *)
Lemma interleave_sequential {A B} (p : prog A) (q : prog B) db :
  exists n, interleave (repeat true n) p q db =
    (PRet (fst (fst (run p [] db))), q, snd (run p [] db)).
Proof.
  revert db; induction p as [r|X st k IH]; intros db.
  - by exists 0%nat.
  - cbn [run List.tl]. destruct (exec st db) as [[x|e] db'] eqn:E.
    + destruct (IH x db') as [n Hn]. exists (Datatypes.S n). cbn [repeat interleave pstep]. by rewrite E.
    + exists 1%nat. cbn [repeat interleave pstep]. by rewrite E.
Qed.

(** Two connections can both win [compare_and_swap(key, None, ..)], the primitive
    leader election is built on: both read the absent key before either writes. *)
Lemma cas_race_two_winners :
  exists sched p q db,
    interleave sched (q_cas "cluster/leader" None "node-a" (Some 1))
                     (q_cas "cluster/leader" None "node-b" (Some 2)) init_db
      = (PRet (Ok (mkCas true p None)), PRet (Ok (mkCas true q None)), db) /\
    kv_value <$> kv_map (kv_rows db) !! "cluster/leader"%string = Some "node-b"%string.
Proof.
  exists [true; false; true; true; true; true; false; false; false; false], 1, 2.
  eexists. split; [vm_compute; reflexivity|]. vm_compute. reflexivity.
Qed.

(** Two writes whose increments of the revision both precede the reads of it get
    the same revision, and the second event violates the log's primary key: the
    put reports an error although its key was written. *)
Lemma put_race_lost_event :
  exists sched e db,
    interleave sched (q_put "a" "1" None) (q_put "b" "2" None) init_db
      = (PRet (Ok 2), PRet (Err (Backend e)), db) /\
    kv_value <$> kv_map (kv_rows db) !! "b"%string = Some "2"%string /\
    map er_key (event_rows db) = ["a"%string].
Proof.
  exists [true; false; true; false; true; true; false; false].
  do 2 eexists. split; [vm_compute; reflexivity|]. split; vm_compute; reflexivity.
Qed.

(** ** Prefix scans *)

(** [list] of a prefix that ends in DEL answers with keys that do not start with
    it: the incremented byte 0x80 is not well-formed UTF-8, and the lossy
    conversion makes U+FFFD of it, which is above every two-byte character. *)
Lemma list_foreign_key :
  let del := String (byte_of 127) "" in
  let e_acute := String (byte_of 195) (String (byte_of 169) "") in
  let s := snd (sqlite_put e_acute "v" None (open_in_memory [])) in
  exists kv s', list_prefix del s = (Ok [kv], s') /\ starts_with del (kv_key kv) = false.
Proof. do 2 eexists. split; vm_compute; reflexivity. Qed.

(** ** Leases *)

(** A revoked lease's id is granted again, so that a holder that still has the old
    id revokes (or keeps alive) a lease it does not own: here the key of [b]
    disappears when the stale holder of [a]'s lease revokes it. *)
Lemma lease_id_reused :
  exists s rs,
    calls [OGrant 0 60; OPut "sandbox/a/state" "" (Some 1); ORevoke 1;
           OGrant 0 60; OPut "sandbox/b/state" "" (Some 1); ORevoke 1] (open_in_memory [])
      = ([RNum (Ok 1); RNum (Ok 1); RKeys (Ok ["sandbox/a/state"%string]);
          RNum (Ok 1); RNum (Ok 3); RKeys rs], s) /\ rs = Ok ["sandbox/b/state"%string].
Proof. do 2 eexists. split; vm_compute; reflexivity. Qed.

(** [compare_and_swap] accepts a lease that does not exist, which [put] refuses;
    the key is then attached to whichever lease is granted that id next. *)
Lemma cas_unknown_lease :
  exists c s s',
    put "k" "v" (Some 7) (open_in_memory []) = (Err (NoSuchLease 7), s) /\
    compare_and_swap "k" None "v" (Some 7) (open_in_memory []) = (Ok c, s') /\
    cas_succeeded c = true.
Proof. do 3 eexists. split; [|split]; vm_compute; reflexivity. Qed.

(** The expiry of a lease is computed with a wrapping addition: a large ttl gives
    an expiry in the past, and the next sweep reaps the key at once. *)
Lemma lease_expiry_wraps :
  exists rs s,
    calls [OGrant 1700000000 i64_max; OPut "k" "v" (Some 1); OSweep 1700000000] (open_in_memory [])
      = ([RNum (Ok 1); RNum (Ok 1); RKeys rs], s) /\ rs = Ok ["k"%string].
Proof. do 2 eexists. split; vm_compute; reflexivity. Qed.

(** An engine fault in the middle of a reap leaves deletions that are in the log
    but were broadcast to no watcher. *)
Lemma reap_fault_silent :
  exists s,
    calls [OGrant 0 60; OPut "a" "" (Some 1); OPut "b" "" (Some 1); OWatch ""; ORevoke 1]
      (open_in_memory [None; None; None; None; None; None; None; None; None; None; None; None;
                       None; None; None; None; None; None; Some "disk I/O error"%string])
      = ([RNum (Ok 1); RNum (Ok 1); RNum (Ok 2); RRx 0; RKeys (Err (Backend "disk I/O error"))], s) /\
    events_after 2 (sq_abs s) = [mkEvent Delete "a" "" 3] /\
    chans s !! 0%nat = Some (mkChan [] true).
Proof. eexists. split; [vm_compute; reflexivity|]. split; vm_compute; reflexivity. Qed.
