(* ===== verification/Contract.v ===== *)
(** * The contract suite of the store (crates/sl-store/src/contract.rs)

    The seven scenarios that both implementations of [Store] are run against,
    as programs over the class [Store], with the clock, the sleeps and the
    receiving end of a watch in the state.  The theorem is the converse of a
    test: every store that satisfies [StoreLaws] and delivers its events
    ([WatchLaws]) passes the suite, whatever it already holds, and the suite
    leaves the keys outside its own namespace as they were.  [SqliteStore] is
    such a store. *)

From Stdlib Require Import ZArith Lia Bool List String Ascii.
From stdpp Require Import base tactics list gmap strings sorting.
From S2P Require Import Prelude RustStr Utf8 Store Sqlite SqliteSpec StoreTheorems.

Open Scope Z_scope.

(** ** The run of a suite *)

(** The store, the time in milliseconds, and how long each of the following
    readings of the clock takes.  [SystemTime] and [Instant] read one clock. *)
Record Run (S : Type) : Type := mkRun { r_store : S; r_time : Z; r_delays : list Z }.
Arguments mkRun {S}.
Arguments r_store {S}.
Arguments r_time {S}.
Arguments r_delays {S}.

(** What a message of a failure shows. *)
Inductive Shown : Type :=
| ShInt (z : Z)
| ShBytes (v : string)
| ShKv (kv : KeyValue)
| ShKvOpt (o : option KeyValue)
| ShKeys (ks : list string)
| ShEvents (evs : list Event)
| ShError (e : StoreError).

(** [ContractError]: the scenario, the reason and the values it shows.
    [Unfinished] is a loop that the model did not follow to its end. *)
Inductive ContractError : Type :=
| Failed (tag why : string) (shown : list Shown)
| Unfinished.

(** [rx.recv_timeout(d)]: the event that arrived, or none within the time. *)
Class Receives (S : Type) : Type := recv : nat -> S -> option Event * S.

Section Suite.
Context {S : Type} {St : Store S} {Re : Receives S}.

Definition Suite (A : Type) : Type := M (Run S) ContractError A.

Definition elapse (ms : Z) (r : Run S) : Run S :=
  mkRun (r_store r) (r_time r + ms + List.hd 0 (r_delays r)) (List.tl (r_delays r)).

Definition read_clock : Suite Z := fun r => let r' := elapse 0 r in (Ok (r_time r'), r').
Definition sleep (ms : Z) : Suite unit := fun r => (Ok tt, elapse ms r).

Definition now_unix : Suite Z :=
  let? t := read_clock in
  mret (if t <? 0 then 0 else as_i64 (t / 1000)).

(** [.map_err(|e| format!("{tag}::{why}: {e}"))?] *)
Definition expect {A} (tag why : string) (m : M S StoreError A) : Suite A :=
  fun r => let '(x, s') := m (r_store r) in
           (match x with Ok a => Ok a | Err e => Err (Failed tag why [ShError e]) end,
            mkRun s' (r_time r) (r_delays r)).

(** [if !b { return Err(format!(..)) }] *)
Definition require (b : bool) (tag why : string) (shown : list Shown) : Suite unit :=
  if b then mret tt else mfail (Failed tag why shown).

(** [.ok_or_else(|| format!(..))?] *)
Definition present {A} (o : option A) (tag why : string) : Suite A :=
  match o with Some a => mret a | None => mfail (Failed tag why []) end.

Definition recv_timeout (rx : nat) (ms : Z) : Suite (option Event) :=
  fun r => let '(o, s') := recv rx (r_store r) in
           let r' := mkRun s' (r_time r) (r_delays r) in
           (Ok o, elapse (match o with Some _ => 0 | None => ms end) r').

Definition subscribe (prefix : string) : Suite nat :=
  fun r => let '(rx, s') := watch prefix (r_store r) in (Ok rx, mkRun s' (r_time r) (r_delays r)).

Definition is_kind (k : EventKind) (e : Event) : bool := bool_decide (ev_kind e = k).

(** ** The scenarios *)

Definition clear_prefix (prefix : string) : Suite unit :=
  let? kvs := expect "setup" ("list(" ++s prefix ++s ")") (list_prefix prefix) in
  mfor kvs (fun kv =>
    let? _ := expect "setup" ("delete(" ++s kv_key kv ++s ")") (delete_key (kv_key kv)) in
    mret tt).

Definition put_get_delete_revision : Suite unit :=
  let tag := "put_get_delete_revision"%string in
  let ka := "ct/pgd/a"%string in
  let kb := "ct/pgd/b"%string in
  let? r1 := expect tag "put(a)" (put ka "1" None) in
  let? r2 := expect tag "put(b)" (put kb "2" None) in
  let? _ := require (negb (r2 <=? r1)) tag "revision 非单调" [ShInt r1; ShInt r2] in
  let? o := expect tag "get(a)" (get ka) in
  let? a := present o tag "get(a) 应存在" in
  let? _ := require (String.eqb (kv_value a) "1") tag "get(a).value" [ShBytes (kv_value a)] in
  let? _ := require (negb (negb (kv_create a =? r1) || negb (kv_mod a =? r1)))
                    tag "新键 create/mod 应=r1" [ShKv a] in
  let? r3 := expect tag "put(a 覆盖)" (put ka "1b" None) in
  let? o := expect tag "get(a2)" (get ka) in
  let? a := present o tag "get(a2) 应存在" in
  let? _ := require (kv_create a =? r1) tag "覆盖写 create_rev 变了" [ShInt (kv_create a); ShInt r1] in
  let? _ := require (kv_mod a =? r3) tag "覆盖写 mod_rev 应=r3" [ShInt (kv_mod a); ShInt r3] in
  let? d := expect tag "delete(a)" (delete_key ka) in
  let? _ := require d tag "delete(a) 首次应返回 true" [] in
  let? d := expect tag "delete(a2)" (delete_key ka) in
  let? _ := require (negb d) tag "delete(a) 再次应返回 false" [] in
  let? o := expect tag "get(a3)" (get ka) in
  require (match o with Some _ => false | None => true end) tag "delete 后 get(a) 应为空" [].

Definition list_prefix_scoped : Suite unit :=
  let tag := "list_prefix_scoped"%string in
  let? _ := expect tag "put" (put "ct/list/sandbox/a" "1" None) in
  let? _ := expect tag "put" (put "ct/list/sandbox/b" "2" None) in
  let? _ := expect tag "put" (put "ct/list/template/x" "9" None) in
  let? l := expect tag "list" (list_prefix "ct/list/sandbox/") in
  let got := map kv_key l in
  let? _ := require (bool_decide (got = ["ct/list/sandbox/a"; "ct/list/sandbox/b"]%string))
                    tag "前缀 list 越界或乱序" [ShKeys got] in
  let? all := expect tag "list all" (list_prefix "ct/list/") in
  require (Nat.eqb (length all) 3) tag "list(ct/list/) 应 3 个" [ShInt (Z.of_nat (length all))].

Definition cas_guards_transition : Suite unit :=
  let tag := "cas_guards_transition"%string in
  let k := "ct/cas/state"%string in
  let? r := expect tag "cas1" (compare_and_swap k None "creating" None) in
  let? _ := require (cas_succeeded r) tag "首次 CAS(None) 应成功" [] in
  let? o := expect tag "get" (get k) in
  let? kv := present o tag "get 应存在" in
  let mod_rev := kv_mod kv in
  let? r := expect tag "cas2" (compare_and_swap k None "running" None) in
  let? _ := require (negb (cas_succeeded r)) tag "过期 CAS(None) 应失败" [] in
  let? _ := require (match cas_current r with
                     | Some kv => String.eqb (kv_value kv) "creating"
                     | None => false
                     end) tag "失败 CAS 应回带当前值 creating" [ShKvOpt (cas_current r)] in
  let? r := expect tag "cas3" (compare_and_swap k (Some mod_rev) "running" None) in
  let? _ := require (cas_succeeded r) tag "正确 mod_rev 的 CAS 应成功" [] in
  let? o := expect tag "get2" (get k) in
  let? kv := present o tag "get2 应存在" in
  require (String.eqb (kv_value kv) "running") tag "CAS 后值应为 running" [ShBytes (kv_value kv)].

Definition changes_since_replays : Suite unit :=
  let tag := "changes_since_replays"%string in
  let? base := expect tag "base rev" current_revision in
  let? _ := expect tag "put a" (put "ct/chg/sandbox/a" "1" None) in
  let? _ := expect tag "put x" (put "ct/chg/template/x" "9" None) in
  let? _ := expect tag "del a" (delete_key "ct/chg/sandbox/a") in
  let? evs := expect tag "changes_since" (changes_since base "ct/chg/sandbox/") in
  let? _ := require (Nat.eqb (length evs) 2) tag "前缀事件应 2 个" [ShEvents evs] in
  let? e0 := present (evs !! 0%nat) tag "" in
  let? e1 := present (evs !! 1%nat) tag "" in
  let? _ := require (is_kind Put e0 && is_kind Delete e1) tag "事件类型序应 Put,Delete" [ShEvents evs] in
  let? _ := require (ev_rev e0 <? ev_rev e1) tag "事件应按 revision 升序" [ShEvents evs] in
  let? all := expect tag "changes_since all" (changes_since base "ct/chg/") in
  require (Nat.eqb (length all) 3) tag "全前缀事件应 3 个" [ShInt (Z.of_nat (length all))].

Definition watch_prefix_only : Suite unit :=
  let tag := "watch_prefix_only"%string in
  let? rx := subscribe "ct/watch/sandbox/" in
  let? _ := sleep 50 in
  let? _ := expect tag "put a" (put "ct/watch/sandbox/a" "1" None) in
  let? _ := expect tag "put x(不应收到)" (put "ct/watch/template/x" "9" None) in
  let? _ := expect tag "del a" (delete_key "ct/watch/sandbox/a") in
  let? o := recv_timeout rx 3000 in
  let? e1 := present o tag "收 Put(a) 超时" in
  let? _ := require (is_kind Put e1 && String.eqb (ev_key e1) "ct/watch/sandbox/a")
                    tag "首事件应 Put(sandbox/a)" [ShEvents [e1]] in
  let? o := recv_timeout rx 3000 in
  let? e2 := present o tag "收 Delete(a) 超时" in
  let? _ := require (is_kind Delete e2 && String.eqb (ev_key e2) "ct/watch/sandbox/a")
                    tag "次事件应 Delete(sandbox/a)" [ShEvents [e2]] in
  let? extra := recv_timeout rx 300 in
  match extra with
  | Some e => mfail (Failed tag "收到不该广播的事件" [ShEvents [e]])
  | None => mret tt
  end.

Definition compact_prunes : Suite unit :=
  let tag := "compact_prunes"%string in
  let? _ := expect tag "put a" (put "ct/compact/a" "1" None) in
  let? cut := expect tag "cut rev" current_revision in
  let? _ := expect tag "put b" (put "ct/compact/b" "2" None) in
  let? _ := expect tag "compact" (compact cut) in
  let? evs := expect tag "changes_since(cut)" (changes_since cut "ct/compact/") in
  require (existsb (fun e => String.eqb (ev_key e) "ct/compact/b" && is_kind Put e) evs)
          tag "压实后 since=cut 应仍见 put(b)" [ShEvents evs].

(** The loop of [lease_expiry_observable]: sweep, look, give up at the
    deadline, sleep. *)
Fixpoint await_gone (fuel : nat) (tag keph : string) (deadline : Z) : Suite unit :=
  match fuel with
  | O => mfail Unfinished
  | Datatypes.S fuel' =>
      let? now := now_unix in
      let? _ := expect tag "sweep" (lease_sweep (i64_add now 5)) in
      let? o := expect tag "get eph2" (get keph) in
      match o with
      | None => mret tt
      | Some _ =>
          let? t := read_clock in
          if deadline <=? t then mfail (Failed tag "ephemeral 到期后仍未消失（8s 超时）" [])
          else let? _ := sleep 200 in await_gone fuel' tag keph deadline
      end
  end.

(** The loop sleeps 200ms a turn and gives up after 8s: 41 turns. *)
Definition polls : nat := 41.

(** 7a: a renewed lease with a long time to live keeps its key. *)
Definition lease_renewed (tag kper : string) : Suite unit :=
  let? now := now_unix in
  let? big := expect tag "grant big" (lease_grant now 3600) in
  let? _ := expect tag "put persistent" (put kper "y" (Some big)) in
  let? now := now_unix in
  let? exp := expect tag "keepalive" (lease_keepalive now big) in
  let? now := now_unix in
  let? _ := require (negb (exp <? now)) tag "keepalive 到期不应早于现在" [ShInt exp] in
  let? now := now_unix in
  let? reaped := expect tag "sweep(now)" (lease_sweep now) in
  require (negb (existsb (fun k => String.eqb k kper) reaped)) tag "未到期 sweep 误回收 persistent" [].

(** 7b: the key of a short lease goes, the other stays. *)
Definition lease_runs_out (tag keph kper : string) : Suite unit :=
  let? now := now_unix in
  let? short := expect tag "grant short" (lease_grant now 1) in
  let? _ := expect tag "put ephemeral" (put keph "x" (Some short)) in
  let? o := expect tag "get eph" (get keph) in
  let? _ := require (match o with Some _ => true | None => false end) tag "put 后 ephemeral 应存在" [] in
  let? t := read_clock in
  let deadline := t + 8000 in
  let? _ := await_gone polls tag keph deadline in
  let? o := expect tag "get persistent" (get kper) in
  require (match o with Some _ => true | None => false end) tag "persistent（大 TTL）不应被回收" [].

Definition lease_expiry_observable : Suite unit :=
  let tag := "lease_expiry_observable"%string in
  let keph := "ct/lease/ephemeral"%string in
  let kper := "ct/lease/persistent"%string in
  let? _ := lease_renewed tag kper in
  lease_runs_out tag keph kper.

Definition run_all : Suite unit :=
  let? _ := clear_prefix "ct/" in
  let? _ := put_get_delete_revision in
  let? _ := list_prefix_scoped in
  let? _ := cas_guards_transition in
  let? _ := changes_since_replays in
  let? _ := watch_prefix_only in
  let? _ := compact_prunes in
  let? _ := lease_expiry_observable in
  clear_prefix "ct/".
End Suite.

(** ** What the suite needs of a watch *)

Class WatchLaws (S : Type) `{StoreLaws S} `{!Receives S} : Type := {
  (** the receiver [rx] of a watch on the prefix holds these events *)
  holds : S -> nat -> string -> list Event -> Prop;
  holds_watch : forall p s, inv s -> healthy s ->
    let '(rx, s') := watch p s in holds s' rx p [];
  holds_put : forall k v l s rx p q rev s', inv s -> healthy s -> holds s rx p q ->
    put k v l s = (Ok rev, s') ->
    holds s' rx p (q ++ (if starts_with p k then [mkEvent Put k v rev] else []));
  holds_delete : forall k s rx p q s', inv s -> healthy s -> holds s rx p q ->
    delete_key k s = (Ok true, s') ->
    holds s' rx p (q ++ (if starts_with p k then [mkEvent Delete k "" (a_rev (abs s'))] else []));
  recv_keeps : forall rx s, inv s -> healthy s ->
    let '(_, s') := recv rx s in inv s' /\ healthy s' /\ abs s' = abs s;
  recv_holds : forall rx p q s, inv s -> healthy s -> holds s rx p q ->
    let '(o, s') := recv rx s in o = head q /\ holds s' rx p (List.tl q)
}.

(** ** The suite terminates *)

Section Finish.
Context {S : Type} {St : Store S} {Re : Receives S}.

(** The clock does not run backwards. *)
Definition forward (r : Run S) : Prop := Forall (fun d => 0 <= d) (r_delays r).

Lemma elapse_forward ms (r : Run S) : 0 <= ms -> forward r -> forward (elapse ms r) /\ r_time r + ms <= r_time (elapse ms r).
Proof.
  unfold forward, elapse. destruct (r_delays r) as [|d ds]; intros Hm Hf; cbn in *; [split; [done|lia]|].
  apply Forall_cons in Hf as [Hd Hf]. split; [done|lia].
Qed.

(** Whatever the store answers, the loop has given up or is done after 41 turns. *)
Lemma await_gone_finishes fuel tag keph deadline (r : Run S) :
  forward r -> deadline <= r_time r + 200 * (Z.of_nat fuel - 1) -> (0 < fuel)%nat ->
  (await_gone fuel tag keph deadline r).1 <> Err Unfinished.
Proof.
  revert r; induction fuel as [|fuel IH]; intros r Hf Hd Hfu; [lia|]. cbn [await_gone].
  unfold now_unix, mbind at 1 2, read_clock at 1, mret at 1.
  destruct (elapse_forward 0 r ltac:(lia) Hf) as [Hf1 Ht1]. generalize dependent (elapse 0 r). intros r1 Hf1 Ht1.
  unfold mbind at 1, expect at 1. destruct (lease_sweep _ _) as [[ks|e] s1]; [|done].
  unfold mbind at 1, expect at 1. destruct (get _ _) as [[[kv|]|e] s2]; [|done..]. cbn [r_time r_delays].
  unfold mbind at 1, read_clock. cbv zeta.
  destruct (elapse_forward 0 (mkRun s2 (r_time r1) (r_delays r1)) ltac:(lia) Hf1) as [Hf2 Ht2]. cbn [r_time] in Ht2.
  generalize dependent (elapse 0 (mkRun s2 (r_time r1) (r_delays r1))). intros r2 Hf2 Ht2.
  destruct (Z.leb_spec deadline (r_time r2)) as [|Hlt]; [done|]. unfold mbind, sleep.
  destruct (elapse_forward 200 r2 ltac:(lia) Hf2) as [Hf3 Ht3].
  apply IH; [done|lia|]. destruct fuel; lia.
Qed.
End Finish.

(** ** The suite passes *)

Lemma starts_with_both p q k :
  starts_with p k = true -> starts_with q k = true -> starts_with p q || starts_with q p = true.
Proof.
  revert q k. induction p as [|c p IH]; intros q k Hp Hq; [by rewrite starts_with_nil|].
  destruct q as [|d q]; [by rewrite starts_with_nil, orb_true_r|].
  apply starts_with_true in Hp as [r1 ->]. apply starts_with_true in Hq as [r2 Hq]. cbn in Hq.
  injection Hq as <- Hq. unfold starts_with. cbn [strip_prefix]. rewrite !Ascii.eqb_refl.
  apply (IH q (p ++s r1)); apply starts_with_true; eauto.
Qed.

Lemma starts_with_sub p q k : starts_with p q = true -> starts_with q k = true -> starts_with p k = true.
Proof.
  intros (r & ->)%starts_with_true (r' & ->)%starts_with_true. rewrite app_assoc_s. apply starts_with_app.
Qed.

(** A listing is determined by its keys. *)
Lemma sorted_keys_unique (l1 l2 : list string) :
  StronglySorted (fun x y => str_lt x y = true) l1 -> StronglySorted (fun x y => str_lt x y = true) l2 ->
  (forall k, In k l1 <-> In k l2) -> l1 = l2.
Proof.
  intros H1. revert l2. induction H1 as [|x l1 Hs1 IH Hx]; intros l2 H2 Hin.
  - destruct l2 as [|y l2]; [done|]. by destruct (proj2 (Hin y) (or_introl eq_refl)).
  - destruct H2 as [|y l2 Hs2 Hy]; [by destruct (proj1 (Hin x) (or_introl eq_refl))|].
    rewrite List.Forall_forall in Hx, Hy.
    assert (x = y) as ->.
    { destruct (proj1 (Hin x) (or_introl eq_refl)) as [|Hxy]; [done|].
      destruct (proj2 (Hin y) (or_introl eq_refl)) as [|Hyx]; [done|].
      pose proof (str_lt_trans _ _ _ (Hx _ Hyx) (Hy _ Hxy)) as Hlt. by rewrite str_lt_irrefl in Hlt. }
    f_equal. apply IH; [done|]. intros k. split; intros Hk.
    + destruct (proj1 (Hin k) (or_intror Hk)) as [<-|]; [|done]. apply Hx in Hk. by rewrite str_lt_irrefl in Hk.
    + destruct (proj2 (Hin k) (or_intror Hk)) as [<-|]; [|done]. apply Hy in Hk. by rewrite str_lt_irrefl in Hk.
Qed.

Lemma sorted_by_key_keys l : sorted_by_key l -> StronglySorted (fun x y => str_lt x y = true) (map kv_key l).
Proof. induction 1 as [|x l Hs IH Hx]; cbn; constructor; [done|]. by rewrite Forall_map. Qed.

Section Passes.
Context {S : Type} {St : Store S} {La : StoreLaws S} {Re : Receives S} {Wa : WatchLaws S}.

Definition good (s : S) : Prop := inv s /\ healthy s.

(** Nothing is stored under the prefix. *)
Definition clean (p : string) (a : AStore) : Prop :=
  forall k, starts_with p k = true -> a_kv a !! k = None.

(** A lease that had run out by [h], or that did not exist. *)
Definition over (h : Z) (a : AStore) (id : Z) : Prop := forall l, a_leases a !! id = Some l -> l_expires l <= h.

(** Outside the prefix a key is unchanged, or it was attached to a lease that
    had run out by [h] and is gone; every other lease is as it was. *)
Record frame (h : Z) (p : string) (a a' : AStore) : Prop := {
  fr_key : forall k, starts_with p k = false -> a_kv a' !! k = a_kv a !! k \/
    (a_kv a' !! k = None /\ exists kv id, a_kv a !! k = Some kv /\ kv_lease kv = Some id /\ over h a id);
  fr_lease : forall id l, a_leases a !! id = Some l -> a_leases a' !! id = Some l \/ l_expires l <= h
}.

Lemma frame_refl h p a : frame h p a a.
Proof. split; intros; by left. Qed.

(** A lease that is over later was over, unless it is new. *)
Lemma frame_over h p a a' id : frame h p a a' -> over h a' id -> over h a id.
Proof. intros [_ Hl] Ho l E. destruct (Hl _ _ E) as [E'|]; [by apply Ho|done]. Qed.

Lemma frame_fresh h p a a' id : frame h p a a' -> a_leases a' !! id = None -> over h a id.
Proof. intros Hf Hn. eapply frame_over; [exact Hf|]. intros l E. congruence. Qed.

Lemma frame_trans h p a1 a2 a3 : frame h p a1 a2 -> frame h p a2 a3 -> frame h p a1 a3.
Proof.
  intros F1 F2. pose proof F1 as [H1 L1]. pose proof F2 as [H2 L2]. split.
  - intros k Hk. destruct (H1 k Hk) as [E1|[E1 V1]], (H2 k Hk) as [E2|[E2 V2]].
    + left. congruence.
    + right. split; [done|]. rewrite E1 in V2. destruct V2 as (kv & id & K & I & O). exists kv, id. split; [done|]. split; [done|].
      by eapply frame_over.
    + right. split; [congruence|done].
    + right. by split.
  - intros id l E. destruct (L1 _ _ E) as [E'|]; [by apply L2|by right].
Qed.

Lemma frame_weaken h p q a a' : starts_with p q = true -> frame h q a a' -> frame h p a a'.
Proof.
  intros Hpq [Hf Hl]. split; [|done]. intros k Hk. apply Hf. destruct (starts_with q k) eqn:E; [|done].
  apply starts_with_true in E as [r ->]. apply starts_with_true in Hpq as [r' ->].
  rewrite app_assoc_s, starts_with_app in Hk. done.
Qed.

Lemma frame_write h p k v l a a' : starts_with p k = true -> frame h p a a' -> frame h p a (a_write k v l a').
Proof.
  intros Hk [Hf Hl]. split; [|done]. intros k' Hk'. rewrite a_write_kv. destruct (decide (k = k')) as [->|]; [congruence|by apply Hf].
Qed.

Lemma frame_remove h p k a a' : starts_with p k = true -> frame h p a a' -> frame h p a (a_remove k a').
Proof.
  intros Hk [Hf Hl]. split; [|done]. intros k' Hk'. cbn. rewrite lookup_delete_ne; [by apply Hf|]. intros ->. congruence.
Qed.

(** Granting or renewing a lease of one's own. *)
Lemma frame_own h p id l a a' :
  over h a id -> frame h p a a' -> frame h p a (a_with_leases (<[id := l]> (a_leases a')) a').
Proof.
  intros Ho [Hf Hl]. split; [done|]. intros i l' E. cbn. destruct (decide (i = id)) as [->|Hn]; [right; by apply Ho|].
  rewrite lookup_insert_ne by congruence. by apply Hl.
Qed.

Lemma frame_reap h p now a a' ks a'' :
  reap_post a' (SelExpired now) (Ok ks) a'' -> now <= h -> frame h p a a' -> frame h p a a''.
Proof.
  intros (_ & Hin & ->) Hh Hf. eapply frame_trans; [exact Hf|]. split.
  - intros k _. cbn. rewrite a_remove_all_kv. case_bool_decide as E; [|by left].
    right. split; [done|]. apply list_elem_of_In, Hin in E as (kv & id & l & E1 & E2 & E3 & E4). exists kv, id.
    split; [done|]. split; [done|]. intros l' E'. assert (l' = l) as -> by congruence. cbn in E4. apply Z.leb_le in E4. lia.
  - intros id l E. cbn. destruct (decide (l_expires l <= h)); [by right|left].
    apply map_lookup_filter_Some. split; [done|]. cbn. apply Z.leb_gt. lia.
Qed.

Lemma clean_frame h p q a a' : starts_with p q || starts_with q p = false -> frame h p a a' -> clean q a -> clean q a'.
Proof.
  intros Hpq [Hf _] Hc k Hk. destruct (Hf k) as [->|[-> _]]; [|by apply Hc|done].
  destruct (starts_with p k) eqn:E; [|done]. by rewrite (starts_with_both p q k) in Hpq.
Qed.

Lemma clean_sub p q a : starts_with p q = true -> clean p a -> clean q a.
Proof.
  intros Hpq Hc k Hk. apply Hc. apply starts_with_true in Hk as [r ->]. apply starts_with_true in Hpq as [r' ->].
  rewrite app_assoc_s. apply starts_with_app.
Qed.

(** *** One step of a scenario on a healthy store *)

Lemma wp_expect {A} tag why (m : M S StoreError A) post s t ds (Q : result A ContractError -> Run S -> Prop) :
  meets inv healthy abs m post -> good s ->
  (forall a s', good s' -> post (abs s) (Ok a) (abs s') -> m s = (Ok a, s') -> Q (Ok a) (mkRun s' t ds)) ->
  (forall i a', ~ post (abs s) (Err (NoSuchLease i)) a') ->
  wp (expect tag why m) (mkRun s t ds) Q.
Proof.
  intros Hm [Hi Hh] HQ Hn. specialize (Hm s Hi). unfold wp, expect. cbn [r_store r_time r_delays].
  destruct (m s) as [x s'] eqn:E. destruct Hm as (G1 & G2 & G3). destruct (G3 Hh) as [G4 G5].
  destruct x as [a|[e|i]]; cbn.
  - by apply HQ.
  - exfalso. apply G5. by exists e.
  - by destruct (Hn i (abs s')).
Qed.

Section Steps.
Context (tag why : string) (s : S) (t : Z) (ds : list Z) (Hs : good s).

Lemma st_put k v Q :
  (forall s', good s' -> abs s' = a_write k v None (abs s) ->
     (forall rx p q, holds s rx p q ->
        holds s' rx p (q ++ (if starts_with p k then [mkEvent Put k v (a_rev (abs s) + 1)] else []))) ->
     Q (Ok (a_rev (abs s) + 1)) (mkRun s' t ds)) ->
  wp (expect tag why (put k v None)) (mkRun s t ds) Q.
Proof.
  intros HQ. eapply wp_expect; [apply put_meets|done| |].
  - intros rev s' Hg (_ & Ha & Hr) E. assert (rev = a_rev (abs s) + 1) as -> by (rewrite Hr, Ha; done).
    apply HQ; [done..|]. intros rx p q Hq. destruct Hs. by eapply holds_put.
  - by intros i a' [? _].
Qed.

Lemma st_put_lease k v id Q :
  is_Some (a_leases (abs s) !! id) ->
  (forall s', good s' -> abs s' = a_write k v (Some id) (abs s) -> Q (Ok (a_rev (abs s) + 1)) (mkRun s' t ds)) ->
  wp (expect tag why (put k v (Some id))) (mkRun s t ds) Q.
Proof.
  intros Hl HQ. eapply wp_expect; [apply put_meets|done| |].
  - intros rev s' Hg (_ & Ha & Hr) E. assert (rev = a_rev (abs s) + 1) as -> by (rewrite Hr, Ha; done). by apply HQ.
  - intros i a' ([= ->] & Hn & _). rewrite Hn in Hl. by destruct Hl.
Qed.

Lemma st_delete k Q :
  (forall b s', good s' -> b = bool_decide (is_Some (a_kv (abs s) !! k)) ->
     abs s' = (if b then a_remove k (abs s) else abs s) ->
     (b = true -> forall rx p q, holds s rx p q ->
        holds s' rx p (q ++ (if starts_with p k then [mkEvent Delete k "" (a_rev (abs s) + 1)] else []))) ->
     Q (Ok b) (mkRun s' t ds)) ->
  wp (expect tag why (delete_key k)) (mkRun s t ds) Q.
Proof.
  intros HQ. eapply wp_expect; [apply delete_meets|done| |by intros i a' []].
  intros b s' Hg (Hb & Ha) E. apply HQ; [done..|]. intros -> rx p q Hq. destruct Hs.
  replace (a_rev (abs s) + 1) with (a_rev (abs s')) by (rewrite Ha; done). by apply (holds_delete k s).
Qed.

Lemma st_get k Q :
  (forall s', good s' -> abs s' = abs s -> Q (Ok (a_kv (abs s) !! k)) (mkRun s' t ds)) ->
  wp (expect tag why (get k)) (mkRun s t ds) Q.
Proof.
  intros HQ. eapply wp_expect; [apply get_meets|done| |by intros i a' []].
  intros o s' Hg (Ha & ->) E. by apply HQ.
Qed.

Lemma st_list p Q :
  good_prefix p ->
  (forall l s', good s' -> abs s' = abs s -> sorted_by_key l ->
     (forall kv, In kv l <-> a_kv (abs s) !! kv_key kv = Some kv /\ starts_with p (kv_key kv) = true) ->
     Q (Ok l) (mkRun s' t ds)) ->
  wp (expect tag why (list_prefix p)) (mkRun s t ds) Q.
Proof.
  intros Hp HQ. eapply wp_expect; [apply list_meets|done| |by intros i a' []].
  intros l s' Hg (Ha & Hl) E. destruct (Hl Hp). by apply HQ.
Qed.

Lemma st_cas k e v Q :
  (forall c s', good s' -> cas_succeeded c = bool_decide (kv_mod <$> a_kv (abs s) !! k = e) ->
     cas_current c = (if cas_succeeded c then None else a_kv (abs s) !! k) ->
     abs s' = (if cas_succeeded c then a_write k v None (abs s) else abs s) -> Q (Ok c) (mkRun s' t ds)) ->
  wp (expect tag why (compare_and_swap k e v None)) (mkRun s t ds) Q.
Proof.
  intros HQ. eapply wp_expect; [apply cas_meets|done| |by intros i a' []].
  intros c s' Hg (H1 & _ & H3 & H4) E. by apply HQ.
Qed.

Lemma st_revision Q :
  (forall s', good s' -> abs s' = abs s -> Q (Ok (a_rev (abs s))) (mkRun s' t ds)) ->
  wp (expect tag why current_revision) (mkRun s t ds) Q.
Proof.
  intros HQ. eapply wp_expect; [apply revision_meets|done| |by intros i a' []].
  intros o s' Hg (Ha & ->) E. by apply HQ.
Qed.

Lemma st_changes since p Q :
  good_prefix p ->
  (forall s', good s' -> abs s' = abs s ->
     Q (Ok (List.filter (fun e => (since <? ev_rev e) && starts_with p (ev_key e)) (a_events (abs s)))) (mkRun s' t ds)) ->
  wp (expect tag why (changes_since since p)) (mkRun s t ds) Q.
Proof.
  intros Hp HQ. eapply wp_expect; [apply changes_meets|done| |by intros i a' []].
  intros l s' Hg (Ha & Hl) E. rewrite (Hl Hp). by apply HQ.
Qed.

Lemma st_compact below Q :
  (forall n s', good s' -> abs s' = mkA (a_rev (abs s)) (a_kv (abs s)) (a_leases (abs s))
                     (List.filter (fun e => below <? ev_rev e) (a_events (abs s))) -> Q (Ok n) (mkRun s' t ds)) ->
  wp (expect tag why (compact below)) (mkRun s t ds) Q.
Proof.
  intros HQ. eapply wp_expect; [apply compact_meets|done| |by intros i a' []].
  intros n s' Hg (Ha & _) E. by apply (HQ n).
Qed.

Lemma st_grant now ttl Q :
  (forall id s', good s' -> a_leases (abs s) !! id = None ->
     abs s' = a_with_leases (<[id := mkLease ttl (i64_add now ttl)]> (a_leases (abs s))) (abs s) ->
     Q (Ok id) (mkRun s' t ds)) ->
  wp (expect tag why (lease_grant now ttl)) (mkRun s t ds) Q.
Proof.
  intros HQ. eapply wp_expect; [apply grant_meets|done| |by intros i a' []].
  intros id s' Hg (H1 & _ & H3) E. by apply HQ.
Qed.

Lemma st_keepalive now id l Q :
  a_leases (abs s) !! id = Some l ->
  (forall s', good s' ->
     abs s' = a_with_leases (<[id := mkLease (l_ttl l) (i64_add now (l_ttl l))]> (a_leases (abs s))) (abs s) ->
     Q (Ok (i64_add now (l_ttl l))) (mkRun s' t ds)) ->
  wp (expect tag why (lease_keepalive now id)) (mkRun s t ds) Q.
Proof.
  intros Hl HQ. eapply wp_expect; [apply keepalive_meets|done| |].
  - intros exp s' Hg (l' & H1 & H2 & H3) E. rewrite Hl in H1. injection H1 as <-. subst exp. by apply HQ.
  - intros i a' (-> & Hn & _). congruence.
Qed.

Lemma st_sweep now Q :
  (forall ks s', good s' -> reap_post (abs s) (SelExpired now) (Ok ks) (abs s') -> Q (Ok ks) (mkRun s' t ds)) ->
  wp (expect tag why (lease_sweep now)) (mkRun s t ds) Q.
Proof. intros HQ. eapply wp_expect; [apply sweep_meets|done| |by intros i a' []]. intros ks s' Hg Hp E. by apply HQ. Qed.
End Steps.

Lemma listed_keys s p l k :
  good s -> (forall kv, In kv l <-> a_kv (abs s) !! kv_key kv = Some kv /\ starts_with p (kv_key kv) = true) ->
  In k (map kv_key l) <-> is_Some (a_kv (abs s) !! k) /\ starts_with p k = true.
Proof.
  intros [Hi _] Hl. rewrite in_map_iff. split.
  - intros (kv & <- & [Hk Hp]%Hl). eauto.
  - intros [[kv Hk] Hp]. pose proof (awf_key _ (inv_awf s Hi) _ _ Hk) as <-. exists kv. split; [done|]. by apply Hl.
Qed.

Lemma wp_require (b : bool) tag why shown (r : Run S) (Q : result unit ContractError -> Run S -> Prop) :
  b = true -> Q (Ok tt) r -> wp (require b tag why shown) r Q.
Proof. by intros ->. Qed.

Lemma wp_present {A} (o : option A) a tag why (r : Run S) (Q : result A ContractError -> Run S -> Prop) :
  o = Some a -> Q (Ok a) r -> wp (present o tag why) r Q.
Proof. by intros ->. Qed.

(** *** Scenarios *)

(** The clock runs forward, less than an hour of delays is left, and all of it
    is before [b]. *)
Record timed (b t : Z) (ds : list Z) : Prop := {
  td_forward : Forall (fun d => 0 <= d) ds;
  td_pos : 0 <= t;
  td_left : fold_right Z.add 0 ds <= 3590000;
  td_end : t + fold_right Z.add 0 ds <= b
}.

Definition passes (p : string) (m : Suite unit) (slack : Z) : Prop :=
  forall b h s t ds, b + 1000 * 3700 < 10 ^ 18 -> b / 1000 + 5 <= h -> good s -> clean p (abs s) -> timed b t ds ->
  wp m (mkRun s t ds) (fun x r => x = Ok tt /\ good (r_store r) /\ frame h p (abs s) (abs (r_store r)) /\
                                  timed (b + slack) (r_time r) (r_delays r)).

(** Stepping: the store's answers are values of the abstract store. *)
Ltac st lem := apply wp_bind; eapply lem; [eassumption|]; cbv beta iota.
Ltac frames :=
  repeat first [apply frame_refl | apply frame_write; [reflexivity|] | apply frame_remove; [reflexivity|]
               | apply frame_own; [done|]].

Lemma put_get_delete_revision_passes : passes "ct/pgd/" put_get_delete_revision 0.
Proof.
  intros b h s t ds Hb Hh Hg Hc Ht. unfold put_get_delete_revision.
  pose proof (Hc "ct/pgd/a"%string eq_refl) as Ha0.
  st st_put. intros s1 G1 E1 _. st st_put. intros s2 G2 E2 _.
  assert (a_kv (abs s2) !! "ct/pgd/a"%string = Some (mkKv "ct/pgd/a" "1" (a_rev (abs s) + 1) (a_rev (abs s) + 1) None)) as Ka.
  { rewrite E2, a_write_kv. case_decide; [done|]. by rewrite E1, a_write_kv, decide_True, Ha0. }
  assert (a_rev (abs s1) = a_rev (abs s) + 1) as R1 by by rewrite E1.
  apply wp_bind, wp_require; [apply negb_true_iff, Z.leb_gt; lia|]. cbv beta iota.
  st st_get. intros s3 G3 E3. rewrite Ka. apply wp_bind. eapply wp_present; [done|]. cbv beta iota.
  apply wp_bind, wp_require; [done|]. apply wp_bind, wp_require; [cbn; by rewrite Z.eqb_refl|]. cbv beta iota.
  st st_put. intros s4 G4 E4 _. st st_get. intros s5 G5 E5.
  rewrite E4, a_write_kv, decide_True, E3, Ka by done. apply wp_bind. eapply wp_present; [done|]. cbv beta iota.
  apply wp_bind, wp_require; [apply Z.eqb_refl|]. apply wp_bind, wp_require; [apply Z.eqb_refl|]. cbv beta iota.
  st st_delete. intros d s6 G6 Hd E6 _.
  rewrite E5, E4, a_write_kv, decide_True in Hd by done. subst d. cbn in E6. apply wp_bind, wp_require; [done|]. cbv beta iota.
  st st_delete. intros d s7 G7 Hd E7 _. rewrite E6 in Hd. cbn in Hd. rewrite lookup_delete_eq in Hd. subst d. cbn in E7.
  apply wp_bind, wp_require; [done|]. cbv beta iota.
  st st_get. intros s8 G8 E8. rewrite E7, E6. cbn. rewrite lookup_delete_eq. apply wp_require; [done|].
  split; [done|]. split; [done|]. split; [|by rewrite Z.add_0_r]. cbn [r_store]. rewrite E8, E7, E6, E5, E4, E3, E2, E1.
  frames.
Qed.

Lemma list_prefix_scoped_passes : passes "ct/list/" list_prefix_scoped 0.
Proof.
  intros b h s t ds Hb Hh Hg Hc Ht. unfold list_prefix_scoped.
  st st_put. intros s1 G1 E1 _. st st_put. intros s2 G2 E2 _. st st_put. intros s3 G3 E3 _.
  apply wp_bind. apply st_list; [done|by apply (good_prefix_slash "ct/list/sandbox")|]. intros l s4 G4 E4 Hl1 Hl2.
  assert (forall k, starts_with "ct/list/" k = true ->
            is_Some (a_kv (abs s3) !! k) <-> In k ["ct/list/sandbox/a"; "ct/list/sandbox/b"; "ct/list/template/x"]%string) as Hall.
  { intros k Hk. rewrite E3, E2, E1, !a_write_kv. pose proof (Hc k Hk) as Hn. cbn.
    repeat case_decide; subst; rewrite ?Hn; split; eauto; try tauto. by intros [? ?]. }
  apply wp_bind, wp_require.
  { apply bool_decide_eq_true_2. apply sorted_keys_unique; [by apply sorted_by_key_keys|by repeat constructor|].
    intros k. rewrite (listed_keys s3 "ct/list/sandbox/" l k G3 Hl2). split.
    - intros [Hs Hp]. apply Hall in Hs; [|by eapply starts_with_sub; [|exact Hp]].
      destruct Hs as [<-|[<-|[<-|[]]]]; cbn; auto. discriminate.
    - intros Hin. assert (starts_with "ct/list/sandbox/" k = true) as Hp by by destruct Hin as [<-|[<-|[]]].
      split; [|done]. apply Hall; [by eapply starts_with_sub; [|exact Hp]|]. destruct Hin as [<-|[<-|[]]]; cbn; auto. }
  cbv beta iota. apply wp_bind. apply st_list; [done|by apply (good_prefix_slash "ct/list")|]. intros l' s5 G5 E5 Hm1 Hm2.
  apply wp_require.
  { rewrite <- (length_map kv_key), (sorted_keys_unique _ ["ct/list/sandbox/a"; "ct/list/sandbox/b"; "ct/list/template/x"]%string);
      [done|by apply sorted_by_key_keys|by repeat constructor|].
    intros k. rewrite E4 in Hm2. rewrite (listed_keys s3 "ct/list/" l' k G3 Hm2). split; [intros [Hs Hp]; by apply Hall|].
    intros Hin. assert (starts_with "ct/list/" k = true) as Hp by by destruct Hin as [<-|[<-|[<-|[]]]].
    split; [by apply Hall|done]. }
  split; [done|]. split; [done|]. split; [|by rewrite Z.add_0_r]. cbn [r_store]. rewrite E5, E4, E3, E2, E1. frames.
Qed.

Lemma cas_guards_transition_passes : passes "ct/cas/" cas_guards_transition 0.
Proof.
  intros b h s t ds Hb Hh Hg Hc Ht. unfold cas_guards_transition.
  pose proof (Hc "ct/cas/state"%string eq_refl) as H0.
  st st_cas. intros c s1 G1 S1 _ E1. rewrite H0 in S1. change (cas_succeeded c = true) in S1. rewrite S1 in E1. cbv iota in E1.
  apply wp_bind, wp_require; [done|]. st st_get. intros s2 G2 E2.
  rewrite E1, a_write_kv, decide_True, H0 by done. apply wp_bind. eapply wp_present; [done|]. cbv beta iota zeta.
  assert (a_kv (abs s2) !! "ct/cas/state"%string =
            Some (mkKv "ct/cas/state" "creating" (a_rev (abs s) + 1) (a_rev (abs s) + 1) None)) as K2.
  { by rewrite E2, E1, a_write_kv, decide_True, H0. }
  st st_cas. intros c2 s3 G3 S3 C3 E3. rewrite K2 in S3, C3. change (cas_succeeded c2 = false) in S3. rewrite S3 in C3, E3. cbv iota in C3, E3.
  apply wp_bind, wp_require; [by rewrite S3|]. apply wp_bind, wp_require; [by rewrite C3|]. cbv beta iota.
  st st_cas. intros c4 s4 G4 S4 _ E4. rewrite E3, K2 in S4. cbn in S4. rewrite bool_decide_eq_true_2 in S4 by done.
  rewrite S4 in E4. cbv iota in E4. apply wp_bind, wp_require; [done|]. st st_get. intros s5 G5 E5.
  rewrite E4, a_write_kv, decide_True by done. apply wp_bind. eapply wp_present; [done|]. apply wp_require; [done|].
  split; [done|]. split; [done|]. split; [|by rewrite Z.add_0_r]. cbn [r_store]. rewrite E5, E4, E3, E2, E1. frames.
Qed.

(** The events of the log after its last revision: none. *)
Lemma no_later_events s p :
  good s -> List.filter (fun e => (a_rev (abs s) <? ev_rev e) && starts_with p (ev_key e)) (a_events (abs s)) = [].
Proof.
  intros [Hi _]. pose proof (awf_events_le _ (inv_awf s Hi)) as Hle.
  induction Hle as [|e l He Hl IH]; [done|]. cbn. by rewrite (proj2 (Z.ltb_ge _ _)) by exact He.
Qed.

Lemma changes_since_replays_passes : passes "ct/chg/" changes_since_replays 0.
Proof.
  intros b h s t ds Hb Hh Hg Hc Ht. unfold changes_since_replays.
  st st_revision. intros s0 G0 E0. st st_put. intros s1 G1 E1 _. st st_put. intros s2 G2 E2 _.
  st st_delete. intros d s3 G3 D3 E3 _. rewrite E2, a_write_kv, decide_False, E1, a_write_kv, decide_True in D3 by done.
  rewrite bool_decide_eq_true_2 in D3 by eauto. subst d. cbv iota in E3.
  assert (a_events (abs s3) = a_events (abs s) ++
     [mkEvent Put "ct/chg/sandbox/a" "1" (a_rev (abs s) + 1); mkEvent Put "ct/chg/template/x" "9" (a_rev (abs s) + 1 + 1);
      mkEvent Delete "ct/chg/sandbox/a" "" (a_rev (abs s) + 1 + 1 + 1)]) as Ev.
  { rewrite E3, E2, E1, E0. cbn. by rewrite <- !app_assoc. }
  assert (forall n, 0 < n -> a_rev (abs s) <? a_rev (abs s) + n = true) as Hlt by (intros; apply Z.ltb_lt; lia).
  apply wp_bind. apply st_changes; [done|by apply (good_prefix_slash "ct/chg/sandbox")|]. intros s4 G4 E4.
  rewrite Ev, List.filter_app, no_later_events by done. cbn [app List.filter ev_rev ev_key].
  rewrite <- !Z.add_assoc, !Hlt by lia. cbn [andb starts_with strip_prefix Ascii.eqb Bool.eqb].
  apply wp_bind, wp_require; [done|]. cbv beta iota. apply wp_bind. eapply wp_present; [done|].
  apply wp_bind. eapply wp_present; [done|]. apply wp_bind, wp_require; [done|].
  apply wp_bind, wp_require; [apply Z.ltb_lt; cbn; lia|]. cbv beta iota.
  apply wp_bind. apply st_changes; [done|by apply (good_prefix_slash "ct/chg")|]. intros s5 G5 E5.
  rewrite E4, Ev, List.filter_app, no_later_events by done. cbn [app List.filter ev_rev ev_key].
  rewrite <- !Z.add_assoc, !Hlt by lia. apply wp_require; [done|].
  split; [done|]. split; [done|]. split; [|by rewrite Z.add_0_r]. cbn [r_store]. rewrite E5, E4, E3, E2, E1, E0. frames.
Qed.

Lemma compact_prunes_passes : passes "ct/compact/" compact_prunes 0.
Proof.
  intros b h s t ds Hb Hh Hg Hc Ht. unfold compact_prunes.
  st st_put. intros s1 G1 E1 _. st st_revision. intros s2 G2 E2. st st_put. intros s3 G3 E3 _.
  st st_compact. intros n s4 G4 E4. apply wp_bind. apply st_changes; [done|by apply (good_prefix_slash "ct/compact")|].
  intros s5 G5 E5. apply wp_require.
  { apply existsb_exists. exists (mkEvent Put "ct/compact/b" "2" (a_rev (abs s1) + 1)). split; [|done].
    rewrite E4, E3, E2. cbn. rewrite !filter_In, in_app_iff. cbn.
    assert (a_rev (abs s1) <? a_rev (abs s1) + 1 = true) as -> by (apply Z.ltb_lt; lia). auto. }
  split; [done|]. split; [done|]. split; [|by rewrite Z.add_0_r]. cbn [r_store].
  assert (frame h "ct/compact/" (abs s) (abs s3)) as [F1 F2] by (rewrite E3, E2, E1; frames).
  rewrite E5, E4. by split.
Qed.

(** *** The clock *)

Lemma timed_elapse b t ds ms :
  0 <= ms -> timed b t ds ->
  timed (b + ms) (t + ms + List.hd 0 ds) (List.tl ds) /\ t + ms <= t + ms + List.hd 0 ds /\
  t + ms + List.hd 0 ds + fold_right Z.add 0 (List.tl ds) = t + ms + fold_right Z.add 0 ds.
Proof.
  intros Hm [H1 H2 H3 H4]. destruct ds as [|d ds]; cbn in *.
  - repeat split; cbn; try lia. constructor.
  - apply Forall_cons in H1 as [Hd H1]. repeat split; cbn; try lia. done.
Qed.

Lemma st_clock b s t ds (Q : result Z ContractError -> Run S -> Prop) :
  timed b t ds ->
  (forall t' ds', timed b t' ds' -> t <= t' -> t' + fold_right Z.add 0 ds' = t + fold_right Z.add 0 ds ->
     Q (Ok t') (mkRun s t' ds')) ->
  wp read_clock (mkRun s t ds) Q.
Proof.
  intros Ht HQ. destruct (timed_elapse b t ds 0 ltac:(lia) Ht) as (H1 & H2 & H3).
  rewrite !Z.add_0_r in *. unfold wp, read_clock, elapse. cbn. rewrite Z.add_0_r. by apply HQ.
Qed.

Lemma st_now b s t ds (Q : result Z ContractError -> Run S -> Prop) :
  timed b t ds -> b < 10 ^ 18 ->
  (forall t' ds', timed b t' ds' -> t <= t' -> t' + fold_right Z.add 0 ds' = t + fold_right Z.add 0 ds ->
     Q (Ok (t' / 1000)) (mkRun s t' ds')) ->
  wp now_unix (mkRun s t ds) Q.
Proof.
  intros Ht Hb HQ. unfold now_unix. apply wp_bind. eapply st_clock; [exact Ht|]. intros t' ds' Ht' Hle Heq. apply wp_ret.
  rewrite (proj2 (Z.ltb_ge _ _)) by apply Ht'. rewrite as_i64_id; [by apply HQ|].
  destruct Ht' as [F P _ E]. assert (0 <= fold_right Z.add 0 ds') by (clear -F; induction F; cbn; lia).
  unfold in_i64, i64_min, i64_max. pose proof (Z.div_pos t' 1000 P ltac:(lia)).
  assert (t' / 1000 <= t') by (apply Z.div_le_upper_bound; lia). lia.
Qed.

(** An hour is longer than what is left. *)
Lemma within_the_hour b t ds b' t' ds' :
  timed b t ds -> timed b' t' ds' -> t' + fold_right Z.add 0 ds' = t + fold_right Z.add 0 ds ->
  t' / 1000 + 5 < t / 1000 + 3600.
Proof.
  intros [_ _ L _] [F _ _ _] E. assert (0 <= fold_right Z.add 0 ds') by (clear -F; induction F; cbn; lia).
  assert (t' / 1000 <= (t + 3590 * 1000) / 1000) as Hd by (apply Z.div_le_mono; lia).
  rewrite Z.div_add in Hd by lia. lia.
Qed.

Lemma st_recv b s t ds rx p q ms (Q : result (option Event) ContractError -> Run S -> Prop) :
  good s -> holds s rx p q -> timed b t ds -> 0 <= ms ->
  (forall s' t' ds', good s' -> abs s' = abs s -> holds s' rx p (List.tl q) ->
     timed (b + (match head q with Some _ => 0 | None => ms end)) t' ds' ->
     Q (Ok (head q)) (mkRun s' t' ds')) ->
  wp (recv_timeout rx ms) (mkRun s t ds) Q.
Proof.
  intros [Hi Hh] Hq Ht Hms HQ. unfold wp, recv_timeout. cbn [r_store r_time r_delays].
  pose proof (recv_keeps rx s Hi Hh) as K. pose proof (recv_holds rx p q s Hi Hh Hq) as R.
  destruct (recv rx s) as [o s']. destruct K as (K1 & K2 & K3), R as [-> R2]. cbn [fst snd].
  apply HQ; [done..|]. cbn. apply timed_elapse; [by destruct (head q)|done].
Qed.

Lemma watch_prefix_only_passes : passes "ct/watch/" watch_prefix_only 350.
Proof.
  intros b h s t ds Hb Hh Hg Hc Ht. unfold watch_prefix_only. cbv zeta. apply wp_bind. unfold wp at 1, subscribe at 1 2. cbn [r_store r_time r_delays].
  pose proof (watch_meets "ct/watch/sandbox/" s (proj1 Hg)) as Wm.
  pose proof (holds_watch "ct/watch/sandbox/" s (proj1 Hg) (proj2 Hg)) as Wh.
  destruct (watch "ct/watch/sandbox/" s) as [rx s1]. destruct Wm as (Wi & Wa' & Whh). cbn [fst snd].
  assert (good s1) as G1 by (split; [done|by apply Whh, Hg]).
  apply wp_bind. unfold wp at 1, sleep, elapse. cbn [fst snd r_store r_time r_delays].
  destruct (timed_elapse b t ds 50 ltac:(lia) Ht) as (Ht1 & _ & _). set (t1 := t + 50 + _) in *. set (ds1 := List.tl ds) in *.
  st st_put. intros s2 G2 E2 H2. st st_put. intros s3 G3 E3 H3. st st_delete. intros d s4 G4 D4 E4 H4.
  rewrite E3, a_write_kv, decide_False, E2, a_write_kv, decide_True in D4 by done.
  rewrite bool_decide_eq_true_2 in D4 by eauto. subst d. cbv iota in E4.
  specialize (H4 eq_refl _ _ _ (H3 _ _ _ (H2 _ _ _ Wh))). cbn -[a_rev] in H4.
  apply wp_bind. eapply st_recv; [exact G4|exact H4|exact Ht1|lia|]. intros s5 t2 ds2 G5 E5 H5 Ht2. cbn [head List.tl] in *. cbv iota in Ht2.
  apply wp_bind. eapply wp_present; [done|]. apply wp_bind, wp_require; [done|]. cbv beta iota.
  apply wp_bind. eapply st_recv; [exact G5|exact H5|exact Ht2|lia|]. intros s6 t3 ds3 G6 E6 H6 Ht3. cbn [head List.tl] in *. cbv iota in Ht3.
  apply wp_bind. eapply wp_present; [done|]. apply wp_bind, wp_require; [done|]. cbv beta iota.
  apply wp_bind. eapply st_recv; [exact G6|exact H6|exact Ht3|lia|]. intros s7 t4 ds4 G7 E7 H7 Ht4. cbn [head] in *. cbv iota in *.
  apply wp_ret. split; [done|]. split; [done|]. split.
  - cbn [r_store]. rewrite E7, E6, E5, E4, E3, E2, Wa'. frames.
  - cbn. by replace (b + 350) with (b + 50 + 0 + 0 + 300) by lia.
Qed.

(** *** Leases *)

(** The key is there, attached to a lease that outlives [now]. *)
Definition attached (k : string) (id expires : Z) (a : AStore) : Prop :=
  (exists kv, a_kv a !! k = Some kv /\ kv_lease kv = Some id) /\
  (exists l, a_leases a !! id = Some l /\ l_expires l = expires).

Lemma sweep_spares k id e now a ks a' :
  attached k id e a -> now < e -> reap_post a (SelExpired now) (Ok ks) a' -> attached k id e a' /\ ~ In k ks.
Proof.
  intros [(kv & K1 & K2) (l & L1 & L2)] Hlt (_ & Hin & ->).
  assert (~ In k ks) as Hn.
  { rewrite Hin. intros (kv' & id' & l' & E1 & E2 & E3 & E4). simplify_eq. cbn in E4. bool_prop. lia. }
  split; [|done]. split.
  - exists kv. split; [|done]. cbn. rewrite a_remove_all_kv, bool_decide_eq_false_2; [done|]. by rewrite list_elem_of_In.
  - exists l. split; [|done]. cbn. apply map_lookup_filter_Some. split; [done|]. cbn. apply Z.leb_gt. lia.
Qed.

Lemma sweep_reaps k id e now a ks a' :
  attached k id e a -> e <= now -> reap_post a (SelExpired now) (Ok ks) a' -> a_kv a' !! k = None.
Proof.
  intros [(kv & K1 & K2) (l & L1 & L2)] Hle (_ & Hin & ->). cbn. rewrite a_remove_all_kv, bool_decide_eq_true_2; [done|].
  apply list_elem_of_In, Hin. exists kv, id, l. split; [done|]. split; [done|]. split; [done|]. cbn. apply Z.leb_le. lia.
Qed.

Lemma attached_write k id e k' v l a : k <> k' -> attached k id e a -> attached k id e (a_write k' v l a).
Proof. intros Hn [(kv & K1 & K2) L]. split; [|done]. exists kv. by rewrite a_write_kv, decide_False. Qed.

Lemma attached_new k v id e l a :
  a_leases a !! id = Some l -> l_expires l = e -> attached k id e (a_write k v (Some id) a).
Proof. intros L E. split; [|by exists l]. eexists. by rewrite a_write_kv, decide_True. Qed.

Lemma attached_grant k id e i l a :
  a_leases a !! i = None -> attached k id e a -> attached k id e (a_with_leases (<[i := l]> (a_leases a)) a).
Proof. intros Hn [K (l' & L1 & L2)]. split; [done|]. exists l'. cbn. rewrite lookup_insert_ne; [done|]. congruence. Qed.

Lemma seconds_add b t ds n : b + 3700000 < 10 ^ 18 -> timed b t ds -> 0 <= n <= 3700 -> i64_add (t / 1000) n = t / 1000 + n.
Proof.
  intros Hb [F P _ E] Hn. apply i64_add_id. assert (0 <= fold_right Z.add 0 ds) by (clear -F; induction F; cbn; lia).
  unfold in_i64, i64_min, i64_max. pose proof (Z.div_pos t 1000 P ltac:(lia)).
  assert (t / 1000 <= t) by (apply Z.div_le_upper_bound; lia). lia.
Qed.

(** The clock stays before [b]. *)
Lemma before_end b t ds : timed b t ds -> t / 1000 <= b / 1000.
Proof.
  intros [F _ _ E]. assert (0 <= fold_right Z.add 0 ds) by (clear -F; induction F; cbn; lia). apply Z.div_le_mono; lia.
Qed.

(** The first turn of the loop finds the short lease over. *)
Lemma await_gone_passes b h s t ds fuel tag k id e kper idp ep deadline :
  b + 3700000 < 10 ^ 18 -> b / 1000 + 5 <= h -> good s -> timed b t ds -> attached k id e (abs s) -> e <= t / 1000 + 5 ->
  attached kper idp ep (abs s) ->
  (forall t' ds', timed b t' ds' -> t' + fold_right Z.add 0 ds' = t + fold_right Z.add 0 ds -> t' / 1000 + 5 < ep) ->
  wp (await_gone (Datatypes.S fuel) tag k deadline) (mkRun s t ds) (fun x r =>
    x = Ok tt /\ good (r_store r) /\ timed b (r_time r) (r_delays r) /\ attached kper idp ep (abs (r_store r)) /\
    (forall p a0, frame h p a0 (abs s) -> frame h p a0 (abs (r_store r)))).
Proof.
  intros Hb Hh Hg Ht Ha He Hp Hep. cbn [await_gone]. apply wp_bind. eapply st_now; [exact Ht|lia|]. intros t1 ds1 Ht1 Hle Heq.
  rewrite (seconds_add b t1 ds1) by (done || lia).
  assert (t / 1000 <= t1 / 1000) by (apply Z.div_le_mono; lia).
  st st_sweep. intros ks s1 G1 R1. destruct (sweep_spares _ _ _ _ _ _ _ Hp (Hep _ _ Ht1 Heq) R1) as [Hp1 _].
  assert (a_kv (abs s1) !! k = None) as Hgone by (eapply sweep_reaps; [exact Ha| |exact R1]; lia).
  st st_get. intros s2 G2 E2. rewrite Hgone. apply wp_ret. cbn [r_store r_time r_delays]. rewrite E2.
  split; [done|]. split; [done|]. split; [done|]. split; [done|]. intros p a0 Hf.
  eapply frame_reap; [exact R1| |exact Hf]. pose proof (before_end _ _ _ Ht1). lia.
Qed.

(** Between the two parts: the long lease was renewed at [t2], and an hour
    from then is after everything that follows. *)
Record renewed (h : Z) (p kper : string) (b : Z) (s0 s : S) (t : Z) (ds : list Z) (big e : Z) : Prop := {
  rn_good : good s;
  rn_timed : timed b t ds;
  rn_frame : frame h p (abs s0) (abs s);
  rn_key : attached kper big e (abs s);
  rn_hour : forall t' ds', timed b t' ds' -> t' + fold_right Z.add 0 ds' = t + fold_right Z.add 0 ds -> t' / 1000 + 5 < e
}.

Lemma lease_renewed_passes h p kper tag b s t ds :
  b + 3700000 < 10 ^ 18 -> b / 1000 + 5 <= h -> good s -> timed b t ds -> starts_with p kper = true ->
  wp (lease_renewed tag kper) (mkRun s t ds) (fun x r => x = Ok tt /\
    exists big e, renewed h p kper b s (r_store r) (r_time r) (r_delays r) big e).
Proof.
  intros Hb Hh Hg Ht Hp. unfold lease_renewed.
  apply wp_bind. eapply st_now; [exact Ht|lia|]. intros t1 ds1 Ht1 L1 _. st st_grant. intros big s1 G1 N1 E1.
  apply wp_bind. eapply st_put_lease; [done|rewrite E1; cbn; rewrite lookup_insert_eq; eauto|]. intros s2 G2 E2.
  apply wp_bind. eapply st_now; [exact Ht1|lia|]. intros t2 ds2 Ht2 L2 _. rewrite (seconds_add b t1 ds1) in E1 by (done || lia).
  apply wp_bind. eapply st_keepalive with (l := mkLease 3600 (t1 / 1000 + 3600)); [done| |].
  { rewrite E2, E1. cbn. by rewrite lookup_insert_eq. }
  cbn [l_ttl]. rewrite (seconds_add b t2 ds2) by (done || lia). intros s3 G3 E3.
  assert (attached kper big (t2 / 1000 + 3600) (abs s3)) as A3.
  { rewrite E3, E2. split; [|exists (mkLease 3600 (t2 / 1000 + 3600)); split; [|done]; cbn; by rewrite lookup_insert_eq].
    eexists. cbn [a_kv a_with_leases]. rewrite a_write_kv, decide_True by done. done. }
  apply wp_bind. eapply st_now; [exact Ht2|lia|]. intros t3 ds3 Ht3 L3 Q3.
  pose proof (within_the_hour _ _ _ _ _ _ Ht2 Ht3 Q3) as W3.
  apply wp_bind, wp_require; [apply negb_true_iff, Z.ltb_ge; lia|]. cbv beta iota.
  apply wp_bind. eapply st_now; [exact Ht3|lia|]. intros t4 ds4 Ht4 L4 Q4. rewrite Q3 in Q4.
  pose proof (within_the_hour _ _ _ _ _ _ Ht2 Ht4 Q4) as W4. assert (t4 / 1000 < t2 / 1000 + 3600) as W by lia.
  st st_sweep. intros ks s4 G4 R4. destruct (sweep_spares _ _ _ _ _ _ _ A3 W R4) as [A4 Hks].
  apply wp_require.
  { apply negb_true_iff, not_true_iff_false. intros (k & Hk & ->%String.eqb_eq)%existsb_exists. done. }
  split; [done|]. exists big, (t2 / 1000 + 3600). cbn [r_store r_time r_delays]. split; [done..| |done|].
  - assert (over h (abs s) big) as Ho by (intros l E; congruence).
    eapply frame_reap; [exact R4|pose proof (before_end _ _ _ Ht4); lia|]. rewrite E3, E2, E1.
    apply frame_own; [done|]. apply frame_write; [done|]. frames.
  - intros t' ds' Ht' Q'. rewrite Q4 in Q'. exact (within_the_hour _ _ _ _ _ _ Ht2 Ht' Q').
Qed.

Lemma lease_runs_out_passes h p keph kper tag b s0 s t ds big e :
  b + 3700000 < 10 ^ 18 -> b / 1000 + 5 <= h -> renewed h p kper b s0 s t ds big e -> starts_with p keph = true -> kper <> keph ->
  wp (lease_runs_out tag keph kper) (mkRun s t ds) (fun x r => x = Ok tt /\ good (r_store r) /\
    frame h p (abs s0) (abs (r_store r)) /\ timed b (r_time r) (r_delays r)).
Proof.
  intros Hb Hend [Hg Ht Hf A Hh] Hp Hne. unfold lease_runs_out. cbv zeta.
  apply wp_bind. eapply st_now; [exact Ht|lia|]. intros t5 ds5 Ht5 L5 Q5.
  st st_grant. intros short s5 G5 N5 E5. rewrite (seconds_add b t5 ds5) in E5 by (done || lia).
  apply (attached_grant _ _ _ short (mkLease 1 (t5 / 1000 + 1))) in A; [|done]. rewrite <- E5 in A.
  apply wp_bind. eapply st_put_lease; [done|rewrite E5; cbn; rewrite lookup_insert_eq; eauto|]. intros s6 G6 E6.
  apply (attached_write _ _ _ keph "x" (Some short)) in A; [|done]. rewrite <- E6 in A.
  assert (attached keph short (t5 / 1000 + 1) (abs s6)) as A6.
  { rewrite E6. apply (attached_new _ _ _ _ (mkLease 1 (t5 / 1000 + 1))); [|done]. rewrite E5. cbn. by rewrite lookup_insert_eq. }
  st st_get. intros s7 G7 E7. destruct A6 as [(kv6 & K6 & K6') L6']. rewrite K6. apply wp_bind, wp_require; [done|]. cbv beta iota.
  apply wp_bind. eapply st_clock; [exact Ht5|]. intros t6 ds6 Ht6 L6 Q6. rewrite <- E7 in A, K6, L6'.
  assert (t5 / 1000 <= t6 / 1000) by (apply Z.div_le_mono; lia). rewrite Q5 in Q6.
  apply wp_bind. eapply wp_mono; [|apply (await_gone_passes b h s7 t6 ds6 40 _ _ short (t5 / 1000 + 1) kper big e);
    [lia|done|done|done|by split; eauto|lia|done|intros t' ds' Ht' Q'; rewrite Q6 in Q'; by eapply Hh]].
  intros x [s8 t8 ds8] (-> & G8 & Ht8 & A8 & F8). cbn [r_store r_time r_delays] in *.
  st st_get. intros s9 G9 E9. destruct A8 as [(kv8 & K8 & _) _]. rewrite K8. apply wp_require; [done|].
  split; [done|]. split; [done|]. split; [|done]. cbn [r_store]. rewrite E9. apply F8. rewrite E7, E6, E5.
  apply frame_write; [done|]. apply frame_own; [by eapply frame_fresh|done].
Qed.

Lemma lease_expiry_observable_passes : passes "ct/lease/" lease_expiry_observable 0.
Proof.
  intros b h s t ds Hb Hh Hg Hc Ht. unfold lease_expiry_observable. cbv zeta. rewrite Z.add_0_r. apply wp_bind.
  eapply wp_mono; [|by apply (lease_renewed_passes h "ct/lease/")].
  intros x [s1 t1 ds1] (-> & big & e & Hr). by eapply lease_runs_out_passes.
Qed.

(** *** The whole suite *)

Lemma clear_loop kvs s t ds :
  good s ->
  wp (mfor kvs (fun kv =>
        let? _ := expect "setup" ("delete(" ++s kv_key kv ++s ")") (delete_key (kv_key kv)) in mret tt)) (mkRun s t ds)
     (fun x r => x = Ok tt /\ exists s', r = mkRun s' t ds /\ good s' /\
        a_leases (abs s') = a_leases (abs s) /\
        forall k, a_kv (abs s') !! k = if bool_decide (k ∈ map kv_key kvs) then None else a_kv (abs s) !! k).
Proof.
  revert s; induction kvs as [|kv kvs IH]; intros s Hg; cbn [mfor].
  - apply wp_ret. split; [done|]. exists s. by split.
  - apply wp_bind, wp_bind. apply st_delete; [done|]. intros d s1 G1 D1 E1 _. apply wp_ret. eapply wp_mono; [|by apply IH].
    intros x r (-> & s' & -> & G' & Hle & Hl). split; [done|]. exists s'. split; [done|]. split; [done|].
    split; [rewrite Hle, E1; by destruct d|]. intros k. rewrite Hl.
    assert (a_kv (abs s1) !! k = if decide (kv_key kv = k) then None else a_kv (abs s) !! k) as ->.
    { rewrite E1, D1. case_bool_decide as Hs; cbn.
      - destruct (decide (kv_key kv = k)) as [->|]; [by rewrite lookup_delete_eq|by rewrite lookup_delete_ne].
      - destruct (decide (kv_key kv = k)) as [<-|]; [|done]. by apply eq_None_not_Some. }
    rewrite (bool_decide_ext (k ∈ map kv_key (kv :: kvs)) (k = kv_key kv \/ k ∈ map kv_key kvs)) by apply elem_of_cons.
    clear D1. destruct (decide (kv_key kv = k)) as [<-|Hne]; repeat case_bool_decide; naive_solver.
Qed.

Lemma clear_prefix_ok p s t ds :
  good_prefix p -> good s ->
  wp (clear_prefix p) (mkRun s t ds) (fun x r => x = Ok tt /\ exists s', r = mkRun s' t ds /\ good s' /\
    clean p (abs s') /\ a_leases (abs s') = a_leases (abs s) /\ forall k, starts_with p k = false -> a_kv (abs s') !! k = a_kv (abs s) !! k).
Proof.
  intros Hp Hg. unfold clear_prefix. apply wp_bind. apply st_list; [done|done|]. intros l s1 G1 E1 _ Hl.
  pose proof (fun k => listed_keys s p l k Hg Hl) as Hk. eapply wp_mono; [|by apply clear_loop].
  intros x r (-> & s' & -> & G' & Hle & Hs'). split; [done|]. exists s'. split; [done|]. split; [done|]. rewrite E1 in Hs'. split; [|split].
  - intros k Hpk. rewrite Hs'. case_bool_decide as Hin; [done|]. rewrite list_elem_of_In, Hk in Hin.
    apply eq_None_not_Some. tauto.
  - by rewrite Hle, E1.
  - intros k Hpk. rewrite Hs'. case_bool_decide as Hin; [|done]. apply list_elem_of_In, Hk in Hin as [_ Hin]. congruence.
Qed.

(** A scenario in its own prefix, inside a run that started at [s0]. *)
Lemma then_passes p q m slack (K : unit -> Suite unit) (Q : result unit ContractError -> Run S -> Prop) (later : list string) b h s0 s t ds :
  passes p m slack -> good s -> timed b t ds -> b + 3700000 < 10 ^ 18 -> b / 1000 + 5 <= h -> frame h q s0 (abs s) ->
  starts_with q p = true -> Forall (fun x => clean x (abs s)) (p :: later) ->
  Forall (fun x => starts_with p x || starts_with x p = false) later ->
  (forall s' t' ds', good s' -> timed (b + slack) t' ds' -> frame h q s0 (abs s') ->
     Forall (fun x => clean x (abs s')) later -> wp (K tt) (mkRun s' t' ds') Q) ->
  wp (mbind m K) (mkRun s t ds) Q.
Proof.
  intros Hm Hg Ht Hb Hh Hf Hq Hc Hd HK. apply Forall_cons in Hc as [Hc Hl]. apply wp_bind.
  eapply wp_mono; [|by apply (Hm b h)]. intros x [s' t' ds'] (-> & G' & F' & T'). cbn [r_store r_time r_delays] in *.
  apply HK; [done|done| |].
  - eapply frame_trans; [exact Hf|]. by eapply frame_weaken.
  - rewrite List.Forall_forall in *. intros x Hx. eapply clean_frame; [by apply Hd|done|by apply Hl].
Qed.

(** The bound on the clock, with the time that the scenarios before have waited. *)
Ltac apply_end := etransitivity; [|eassumption]; apply Z.add_le_mono_r, Z.div_le_mono; lia.
Ltac scenario lem :=
  eapply then_passes;
    [apply lem|eassumption|eassumption|lia|apply_end|eassumption|reflexivity|eassumption|by repeat constructor|];
  let s := fresh "s" in let t := fresh "t" in let ds := fresh "ds" in intros s t ds ? ? ? ?.

Lemma run_all_passes b h s t ds :
  b + 3710000 < 10 ^ 18 -> (b + 350) / 1000 + 5 <= h -> good s -> timed b t ds ->
  wp run_all (mkRun s t ds) (fun x r => x = Ok tt /\ good (r_store r) /\ clean "ct/" (abs (r_store r)) /\
    frame h "ct/" (abs s) (abs (r_store r))).
Proof.
  intros Hb Hh Hg Ht. unfold run_all. apply wp_bind. eapply wp_mono; [|by apply clear_prefix_ok; [apply (good_prefix_slash "ct")|]].
  intros x r (-> & s1 & -> & G1 & C1 & L1 & F1).
  assert (frame h "ct/" (abs s) (abs s1)) as Fr by (split; [intros k Hk; left; by apply F1|intros id l E; left; by rewrite L1]).
  assert (Forall (fun x => clean x (abs s1)) ["ct/pgd/"; "ct/list/"; "ct/cas/"; "ct/chg/"; "ct/watch/"; "ct/compact/"; "ct/lease/"]%string) as C.
  { apply List.Forall_forall. intros x Hx. eapply clean_sub; [|exact C1]. cbn in Hx. by intuition subst. }
  scenario put_get_delete_revision_passes. scenario list_prefix_scoped_passes. scenario cas_guards_transition_passes. scenario changes_since_replays_passes.
  scenario watch_prefix_only_passes. scenario compact_prunes_passes. scenario lease_expiry_observable_passes.
  eapply wp_mono; [|by apply clear_prefix_ok; [apply (good_prefix_slash "ct")|]].
  intros x r (-> & s9 & -> & G2 & C2 & L2 & F2). split; [done|]. split; [done|]. split; [done|].
  eapply frame_trans; [eassumption|]. split; [intros k Hk; left; by apply F2|intros id l E; left; cbn; rewrite <- E; f_equal; exact L2].
Qed.
End Passes.

(** ** [SqliteStore] *)

(** The receiving end of the channel of a watch. *)
#[global] Instance sqlite_recv : Receives SqliteStore :=
  fun rx s => match chans s !! rx with
              | Some (mkChan (e :: q) open) =>
                  (Some e, mkSqlite (conn s) (faults s) (watchers s) (<[rx := mkChan q open]> (chans s)))
              | _ => (None, s)
              end.

(** Distinct watchers send on distinct channels that exist. *)
Definition wired (s : SqliteStore) : Prop :=
  Forall (fun w => (w_tx w < length (chans s))%nat) (watchers s) /\ NoDup (map w_tx (watchers s)).

Lemma wired_sinks s s' : sinks s' = sinks s -> wired s -> wired s'.
Proof. unfold sinks, wired. by intros [= -> ->]. Qed.

Lemma wired_broadcast ev s : wired s -> wired (broadcast ev s).
Proof.
  intros [Hb Hn]. unfold broadcast, wired. pose proof (broadcast_sub ev (watchers s) (chans s)) as Hsub.
  pose proof (broadcast_length ev (watchers s) (chans s)) as Hlen.
  destruct (broadcast_to ev (watchers s) (chans s)) as [ws cs]. cbn in *. rewrite Hlen. split.
  - rewrite List.Forall_forall in *. intros w Hw. apply Hb. apply list_elem_of_In. apply list_elem_of_In in Hw.
    by eapply elem_of_sublist.
  - eapply sublist_NoDup; [exact Hn|]. exact (fmap_sublist w_tx _ _ Hsub).
Qed.

Definition keeps_wired {A} (m : M SqliteStore StoreError A) : Prop := forall s, wired s -> wired (m s).2.

Lemma keeps_conn {A} (p : prog A) : keeps_wired (with_conn p).
Proof. intros s Hs. eapply wired_sinks; [apply with_conn_sinks|done]. Qed.

Lemma keeps_notify ev : keeps_wired (notify ev).
Proof. intros s Hs. by apply wired_broadcast. Qed.

Lemma keeps_bind {A B} (m : M SqliteStore StoreError A) (f : A -> M SqliteStore StoreError B) :
  keeps_wired m -> (forall a, keeps_wired (f a)) -> keeps_wired (mbind m f).
Proof. intros Hm Hf s Hs. unfold mbind. specialize (Hm s Hs). destruct (m s) as [[a|e] s']; [by apply Hf|done]. Qed.

Lemma keeps_ret {A} (a : A) : keeps_wired (mret a).
Proof. by intros s Hs. Qed.

Lemma keeps_put k v l : keeps_wired (sqlite_put k v l).
Proof. apply keeps_bind; [apply keeps_conn|]. intros rev. apply keeps_bind; [apply keeps_notify|]. intros. apply keeps_ret. Qed.

Lemma keeps_delete k : keeps_wired (sqlite_delete k).
Proof.
  apply keeps_bind; [apply keeps_conn|]. intros [rev|]; [|apply keeps_ret].
  apply keeps_bind; [apply keeps_notify|]. intros. apply keeps_ret.
Qed.

Lemma keeps_cas k e v l : keeps_wired (sqlite_cas k e v l).
Proof.
  apply keeps_bind; [apply keeps_conn|]. intros c. destruct (cas_succeeded c); [|apply keeps_ret].
  apply keeps_bind; [apply keeps_notify|]. intros. apply keeps_ret.
Qed.

Lemma keeps_reap sel : keeps_wired (reap_leases sel).
Proof.
  apply keeps_bind; [apply keeps_conn|]. intros ps. apply keeps_bind; [|intros; apply keeps_ret].
  intros s Hs. apply mfor_inv; [|done]. intros [k rev] s' _ Hs'. by apply keeps_notify.
Qed.

(** A store whose watchers are wired is lawful. *)
Lemma meets_wired {A} (m : M SqliteStore StoreError A) post :
  sq_meets m post -> keeps_wired m -> meets (fun s => sq_inv s /\ wired s) sq_healthy sq_abs m post.
Proof.
  intros Hm Hk s [Hi Hw]. specialize (Hm s Hi). specialize (Hk s Hw). destruct (m s) as [r s'].
  destruct Hm as (H1 & H2 & H3). split; [by split|]. by split.
Qed.

Lemma wired_watch p s : wired s -> wired (sqlite_watch p s).2.
Proof.
  intros [Hb Hn]. split; cbn.
  - rewrite length_app. apply Forall_app. split; [|repeat constructor; cbn; lia].
    eapply List.Forall_impl; [|exact Hb]. cbn. lia.
  - rewrite map_app. apply NoDup_app. split; [done|]. split; [|repeat constructor; set_solver].
    intros x (w & <- & Hw)%list_elem_of_In%in_map_iff Hx. cbn in Hx.
    apply list_elem_of_singleton in Hx. rewrite List.Forall_forall in Hb. apply Hb in Hw. lia.
Qed.

#[program] Definition wired_laws : StoreLaws SqliteStore := {|
  abs := sq_abs; inv := fun s => sq_inv s /\ wired s; healthy := sq_healthy
|}.
Next Obligation. intros s [Hs _]. by apply dbwf_awf. Qed.
Next Obligation. intros. apply meets_wired; [apply with_conn_meets, q_get_meets|apply keeps_conn]. Qed.
Next Obligation. intros. apply meets_wired; [apply with_conn_meets, q_list_meets|apply keeps_conn]. Qed.
Next Obligation. intros. apply meets_wired; [apply sqlite_put_meets|apply keeps_put]. Qed.
Next Obligation. intros. apply meets_wired; [apply sqlite_delete_meets|apply keeps_delete]. Qed.
Next Obligation. intros. apply meets_wired; [apply sqlite_cas_meets|apply keeps_cas]. Qed.
Next Obligation. intros. apply meets_wired; [apply with_conn_meets, q_lease_grant_meets|apply keeps_conn]. Qed.
Next Obligation. intros. apply meets_wired; [apply with_conn_meets, q_lease_keepalive_meets|apply keeps_conn]. Qed.
Next Obligation. intros. apply meets_wired; [apply reap_leases_meets|apply keeps_reap]. Qed.
Next Obligation. intros. apply meets_wired; [apply reap_leases_meets|apply keeps_reap]. Qed.
Next Obligation. intros. apply meets_wired; [apply with_conn_meets, q_revision_meets|apply keeps_conn]. Qed.
Next Obligation. intros. apply meets_wired; [apply with_conn_meets, q_changes_meets|apply keeps_conn]. Qed.
Next Obligation. intros. apply meets_wired; [apply with_conn_meets, q_compact_meets|apply keeps_conn]. Qed.
Next Obligation. intros p s [Hs Hw]. cbn. split; [|done]. split; [done|]. by apply wired_watch. Qed.

(** A call that appends one event sends it to the receivers of its prefix. *)
Lemma tells_one s s' rx p q ev :
  tells s s' -> a_events (sq_abs s') = a_events (sq_abs s) ++ [ev] -> subscribed p rx q (sinks s) ->
  subscribed p rx (q ++ (if starts_with p (ev_key ev) then [ev] else [])) (sinks s').
Proof.
  intros (evs & E1 & _ & E2) E3 Hq. rewrite E1 in E3. apply app_inv_head in E3 as ->. rewrite E2.
  apply (subscribed_bcast_all p rx q [ev]) in Hq. cbn in Hq. by destruct (starts_with p (ev_key ev)).
Qed.

#[program] Definition wired_watch_laws : @WatchLaws SqliteStore _ wired_laws _ := {|
  holds := fun s rx p q => subscribed p rx q (sinks s)
|}.
Next Obligation.
  intros p s [_ Hw] _. pose proof (wired_watch p s Hw) as [Hb Hn]. cbn in *. split; cbn; [|done|done|].
  - apply elem_of_app. right. constructor.
  - by rewrite lookup_app_r, Nat.sub_diag.
Qed.
Next Obligation.
  intros k v l s rx p q rev s' [Hi _] Hh Hq E. pose proof (sqlite_put_tells k v l s Hi Hh) as T.
  pose proof (sqlite_put_meets k v l s Hi) as Hm. cbn in E. rewrite E in T, Hm. destruct Hm as (_ & (_ & Ha & Hr) & _).
  eapply (tells_one s s' rx p q (mkEvent Put k v rev)); [exact T| |exact Hq]. rewrite Ha in Hr |- *. by rewrite Hr.
Qed.
Next Obligation.
  intros k s rx p q s' [Hi _] Hh Hq E. pose proof (sqlite_delete_tells k s Hi Hh) as T.
  pose proof (sqlite_delete_meets k s Hi) as Hm. cbn in E. rewrite E in T, Hm. destruct Hm as (_ & (_ & Ha) & _).
  eapply (tells_one s s' rx p q (mkEvent Delete k "" (a_rev (sq_abs s')))); [exact T| |exact Hq]. by rewrite Ha.
Qed.
Next Obligation.
  intros rx s [Hi Hw] Hh. unfold recv, sqlite_recv. destruct (chans s !! rx) as [[[|e q] o]|]; try done.
  split; [split; [exact Hi|]|done]. unfold wired. cbn. by rewrite length_insert.
Qed.
Next Obligation.
  intros rx p q s _ _ [H1 H2 H3 H4]. unfold recv, sqlite_recv. cbn in H4. rewrite H4.
  destruct q as [|e q]; [by split|]. split; [done|]. split; cbn; [done..| |].
  - by rewrite length_insert.
  - apply list_lookup_insert_eq. by eapply lookup_lt_Some.
Qed.

(** C11: every lawful store passes the contract suite.  On a healthy store that
    satisfies [StoreLaws] and delivers its events, whatever it holds already,
    with a clock that does not run backwards and less than an hour spent
    between readings, [run_all] returns [Ok]; it leaves nothing under [ct/],
    and every key outside [ct/] as it was, except the keys that its sweeps
    reap: those were attached to a lease (of the store as it was) that runs out
    at most five seconds after the end of the run, since the suite sweeps five
    seconds ahead of the clock.  [end_] is the end of the run: the delays and
    the 350ms that the suite waits on a lawful store. *)
Theorem contract_passes {S : Type} {St : Store S} {La : StoreLaws S} {Re : Receives S} {Wa : WatchLaws S}
    (s : S) (t : Z) (ds : list Z) :
  inv s -> healthy s -> 0 <= t <= 10 ^ 17 -> Forall (fun d => 0 <= d) ds -> fold_right Z.add 0 ds <= 3590000 ->
  let end_ := t + fold_right Z.add 0 ds + 350 in
  let '(x, r') := run_all (mkRun s t ds) in
  x = Ok tt /\ inv (r_store r') /\ healthy (r_store r') /\
  (forall k, starts_with "ct/" k = true -> a_kv (abs (r_store r')) !! k = None) /\
  (forall k, starts_with "ct/" k = false -> a_kv (abs (r_store r')) !! k = a_kv (abs s) !! k \/
     (a_kv (abs (r_store r')) !! k = None /\
      exists kv id, a_kv (abs s) !! k = Some kv /\ kv_lease kv = Some id /\
        forall l, a_leases (abs s) !! id = Some l -> l_expires l <= end_ / 1000 + 5)).
Proof.
  intros Hi Hh Ht Hf Hd end_. assert (timed (t + fold_right Z.add 0 ds) t ds) as Htd by (split; [done|lia|done|lia]).
  pose proof (run_all_passes (t + fold_right Z.add 0 ds) (end_ / 1000 + 5) s t ds ltac:(lia) ltac:(done) (conj Hi Hh) Htd) as Hp.
  unfold wp in Hp. destruct (run_all (mkRun s t ds)) as [x r']. cbn in Hp.
  destruct Hp as (-> & [G1 G2] & Hc & [Hk _]). repeat split; assumption.
Qed.

Lemma contract_passes_witness :
  let s := store_after [OPut "ct/pgd/a" "stale" None; OPut "sandbox/a" "kept" None] in
  (run_all (Re := sqlite_recv) (mkRun s 1700000000000 [7; 2000])).1 = Ok tt.
Proof.
  intros s. assert (sq_inv s /\ wired s) as Hi.
  { split; [apply store_after_inv|]. split; vm_compute; constructor. }
  pose proof (@contract_passes SqliteStore _ wired_laws _ wired_watch_laws s 1700000000000 [7; 2000] Hi
    (proj2 (store_after_inv _)) ltac:(lia) ltac:(repeat constructor; lia) ltac:(cbn; lia)) as Hp.
  destruct (run_all (mkRun s 1700000000000 [7; 2000])) as [x r']. by destruct Hp as [-> _].
Defined.
