(* ===== verification/Cluster.v ===== *)
(** * Node heartbeats and orphan reclamation (crates/sl-store/src/cluster.rs)

    Node liveness keys on heartbeat leases, and the leader's reclamation of the
    sandboxes whose owning node is gone, proved against the store interface. *)

From Stdlib Require Import ZArith Lia Bool List String Ascii.
From stdpp Require Import base tactics list gmap strings sorting.
From S2P Require Import Prelude RustStr Utf8 Store Sqlite SqliteSpec StoreTheorems.

Open Scope Z_scope.

Definition NODE_PREFIX : string := "node/".

Definition node_key (id : string) : string := "node/" ++s id.
Definition sandbox_node_key (sid : string) : string := "sandbox/" ++s sid ++s "/node".

(** [kv.key.strip_prefix("sandbox/").and_then(|s| s.strip_suffix("/node"))] *)
Definition owner_sid (key : string) : option string :=
  match strip_prefix "sandbox/" key with
  | Some s => strip_suffix "/node" s
  | None => None
  end.

Section Ops.
Context {S : Type} `{Store S}.

Definition register_node (now : Z) (node_id meta : string) (ttl_secs : Z) : M S StoreError Z :=
  let? lease := lease_grant now ttl_secs in
  let? _ := put (node_key node_id) meta (Some lease) in
  mret lease.

Definition heartbeat (now lease : Z) : M S StoreError Z := lease_keepalive now lease.

Definition live_nodes : M S StoreError (list string) :=
  let? kvs := list_prefix NODE_PREFIX in
  mret (omap (fun kv => strip_prefix NODE_PREFIX (kv_key kv)) kvs).

(** One turn of the loop of [reclaim_orphans]. *)
Definition reclaim_one (live : list string) (protect : option string)
    (reclaimed : list string) (kv : KeyValue) : M S StoreError (list string) :=
  match owner_sid (kv_key kv) with
  | None => mret reclaimed
  | Some sid =>
      let owner := from_utf8_lossy (kv_value kv) in
      if bool_decide (owner ∈ live) || bool_decide (protect = Some owner) then mret reclaimed
      else
        match kv_lease kv with
        | Some lease => let? _ := lease_revoke lease in mret (reclaimed ++ [sid])
        | None => let? _ := delete_key (kv_key kv) in mret (reclaimed ++ [sid])
        end
  end.

Definition reclaim_orphans (protect : option string) : M S StoreError (list string) :=
  let? live := live_nodes in
  let? kvs := list_prefix "sandbox/" in
  mfold (reclaim_one live protect) kvs [].
End Ops.

(** ** What a reclamation concerns *)

(** The node [id] has a liveness key. *)
Definition node_live (a : AStore) (id : string) : Prop := is_Some (a_kv a !! node_key id).

(** [kv] is the ownership key of sandbox [sid], whose owner is neither live nor
    the protected node. *)
Definition orphan (a : AStore) (protect : option string) (kv : KeyValue) (sid : string) : Prop :=
  a_kv a !! kv_key kv = Some kv /\ owner_sid (kv_key kv) = Some sid /\
  ~ node_live a (from_utf8_lossy (kv_value kv)) /\ protect <> Some (from_utf8_lossy (kv_value kv)).

(** A key a reclamation may remove: an orphan's ownership key, or a key attached
    to the lease of one. *)
Definition victim (a : AStore) (protect : option string) (k : string) : Prop :=
  exists o sid, orphan a protect o sid /\
    ((kv_lease o = None /\ k = kv_key o) \/
     (exists lease kv, kv_lease o = Some lease /\ is_Some (a_leases a !! lease) /\
        a_kv a !! k = Some kv /\ kv_lease kv = Some lease)).

Definition victim_lease (a : AStore) (protect : option string) (id : Z) : Prop :=
  exists o sid, orphan a protect o sid /\ kv_lease o = Some id.

Lemma owner_sid_some key sid : owner_sid key = Some sid <-> key = sandbox_node_key sid.
Proof.
  unfold owner_sid, sandbox_node_key. split.
  - destruct (strip_prefix "sandbox/" key) as [r|] eqn:E; [|done].
    apply strip_prefix_some in E as ->. intros H%strip_suffix_some. by rewrite H.
  - intros ->. by rewrite strip_prefix_app, strip_suffix_app.
Qed.

Lemma good_node_prefix : good_prefix NODE_PREFIX.
Proof. by apply (good_prefix_slash "node"). Qed.
Lemma good_sandbox_prefix : good_prefix "sandbox/".
Proof. by apply (good_prefix_slash "sandbox"). Qed.

(** ** Proofs against the interface *)

Section Proofs.
Context {S : Type} `{StoreLaws S}.

(** The list of live nodes is the set of nodes with a liveness key. *)
Definition lists_live (a : AStore) (live : list string) : Prop := forall id, id ∈ live <-> node_live a id.

Lemma live_nodes_wp s (Q : result (list string) StoreError -> S -> Prop) :
  inv s ->
  (forall r s', inv s' -> abs s' = abs s -> (healthy s -> healthy s' /\ ~ backend_error r) ->
     match r with Ok live => lists_live (abs s) live | Err (Backend _) => True | Err (NoSuchLease _) => False end ->
     Q r s') ->
  wp live_nodes s Q.
Proof.
  intros Hs HQ. unfold live_nodes. apply wp_bind.
  eapply wp_meets; [apply (list_meets NODE_PREFIX)|done|]. intros r s' Hs' [Ha Hp] Hb.
  destruct r as [kvs|[e|i]]; [|apply HQ; auto|done].
  - apply wp_ret, HQ; [done|done| |].
    + intros Hh. destruct (Hb Hh). split; [done|]. by intros [? ?].
    + destruct (Hp good_node_prefix) as [_ Hin]. intros id. rewrite list_elem_of_omap. unfold node_live. split.
      * intros (kv & Hkv%list_elem_of_In%Hin & Hstrip). apply strip_prefix_some in Hstrip.
        destruct Hkv as [Hkv _]. rewrite Hstrip in Hkv. by eexists.
      * intros [kv Hkv]. exists kv. pose proof (awf_key _ (inv_awf s Hs) _ _ Hkv) as Hk.
        rewrite list_elem_of_In, Hin, Hk. split; [split; [done|]|]; [apply (starts_with_app "node/")|].
        by apply strip_prefix_some.
  - intros Hh. destruct (Hb Hh) as [? Hn]. split; [done|]. intros [? [= ->]]. apply Hn. by eexists.
Qed.

(** During a reclamation only victims are gone. *)
Notation reclaiming a protect := (shrunk (victim a protect) (victim_lease a protect) a).

Lemma revoke_reclaims a protect a1 o sid lease r a2 :
  orphan a protect o sid -> kv_lease o = Some lease -> reclaiming a protect a1 ->
  reap_post a1 (SelId lease) r a2 -> reclaiming a protect a2.
Proof.
  intros Ho Hl. apply revoke_shrinks; [by exists o, sid|].
  intros k kv Hk Hkl Hsome. exists o, sid. split; [done|]. right. by exists lease, kv.
Qed.

Lemma delete_reclaims a protect a1 o sid r a2 :
  orphan a protect o sid -> kv_lease o = None -> reclaiming a protect a1 ->
  delete_post a1 (kv_key o) r a2 -> reclaiming a protect a2.
Proof. intros Ho Hl. apply delete_shrinks. exists o, sid. auto. Qed.

(** The test of the loop selects the orphans. *)
Lemma reclaim_test a live protect kv sid :
  lists_live a live -> a_kv a !! kv_key kv = Some kv -> owner_sid (kv_key kv) = Some sid ->
  bool_decide (from_utf8_lossy (kv_value kv) ∈ live) || bool_decide (protect = Some (from_utf8_lossy (kv_value kv))) = false <->
  orphan a protect kv sid.
Proof.
  intros Hl Hk Hs. rewrite orb_false_iff, !bool_decide_eq_false. unfold orphan. rewrite (Hl _). intuition.
Qed.

Lemma reclaim_one_shrinks a live protect acc kv s :
  inv s -> lists_live a live -> a_kv a !! kv_key kv = Some kv -> reclaiming a protect (abs s) ->
  wp (reclaim_one live protect acc kv) s (fun _ s' => inv s' /\ reclaiming a protect (abs s')).
Proof.
  intros Hs Hl Hk Hsh. unfold reclaim_one. destruct (owner_sid (kv_key kv)) as [sid|] eqn:E; [|by apply wp_ret].
  destruct (_ || _) eqn:Et; [by apply wp_ret|]. apply (reclaim_test a live protect kv sid Hl Hk E) in Et.
  destruct (kv_lease kv) as [lease|] eqn:El; apply wp_bind.
  - eapply wp_meets; [apply (revoke_meets lease)|done|]. intros r s' Hs' Hp _.
    assert (inv s' /\ reclaiming a protect (abs s')) as Hgoal by (split; [done|by apply (revoke_reclaims a protect (abs s) kv sid lease r)]).
    by destruct r; [apply wp_ret|].
  - eapply wp_meets; [apply (delete_meets (kv_key kv))|done|]. intros r s' Hs' Hp _.
    assert (inv s' /\ reclaiming a protect (abs s')) as Hgoal by (split; [done|by apply (delete_reclaims a protect (abs s) kv sid r)]).
    by destruct r; [apply wp_ret|].
Qed.

Lemma reclaim_shrinks s protect :
  inv s -> wp (reclaim_orphans protect) s (fun _ s' => inv s' /\ reclaiming (abs s) protect (abs s')).
Proof.
  intros Hs. unfold reclaim_orphans. apply wp_bind, live_nodes_wp; [done|]. intros r s1 Hs1 Ha1 _ Hr.
  destruct r as [live|[e|i]]; [|by rewrite Ha1; auto using shrunk_refl|done].
  apply wp_bind. eapply wp_meets; [apply (list_meets "sandbox/")|done|]. intros r2 s2 Hs2 [Ha2 Hp] _.
  destruct r2 as [kvs|e]; [|by rewrite Ha2, Ha1; auto using shrunk_refl].
  destruct (Hp good_sandbox_prefix) as [_ Hin].
  apply (wp_fold _ (fun _ _ s' => inv s' /\ reclaiming (abs s) protect (abs s'))).
  - by rewrite Ha2, Ha1; auto using shrunk_refl.
  - intros pre kv post acc s' Hkvs [Hs' Hsh].
    assert (a_kv (abs s) !! kv_key kv = Some kv) as Hk.
    { rewrite <- Ha1. apply (Hin kv). rewrite Hkvs. apply in_or_app. right. by left. }
    eapply wp_mono; [|by apply (reclaim_one_shrinks (abs s) live)].
    by intros [acc'|e] s'' ?.
  - done.
Qed.

(** ** Completeness *)

Definition handled (a1 : AStore) (o : KeyValue) : Prop :=
  match kv_lease o with
  | Some id => a_leases a1 !! id = None
  | None => a_kv a1 !! kv_key o = None
  end.

Record progress (a : AStore) (protect : option string) (pre : list KeyValue) (acc : list string)
    (a1 : AStore) : Prop := {
  pg_shrunk : reclaiming a protect a1;
  pg_closed : closed a a1;
  pg_handled : forall o sid, In o pre -> orphan a protect o sid -> handled a1 o;
  pg_acc : forall sid, In sid acc <-> exists o, In o pre /\ orphan a protect o sid
}.

Lemma handled_fewer a1 a2 o : fewer a1 a2 -> handled a1 o -> handled a2 o.
Proof.
  intros [K L]. unfold handled. destruct (kv_lease o) as [id|].
  - destruct (L id) as [-> | ->]; auto.
  - destruct (K (kv_key o)) as [-> | ->]; auto.
Qed.

Lemma progress_skip a protect pre acc a1 kv :
  progress a protect pre acc a1 -> (forall sid, ~ orphan a protect kv sid) ->
  progress a protect (pre ++ [kv]) acc a1.
Proof.
  intros [P1 P2 P3 P4] Hn. split; [done|done| |].
  - intros o sid [Hin|[->|[]]]%in_app_or Ho; [by eapply P3|by apply Hn in Ho].
  - intros sid. rewrite P4. split; intros (o & Hin & Ho); exists o; (split; [|done]).
    + apply in_or_app. by left.
    + apply in_app_or in Hin as [?|[->|[]]]; [done|by apply Hn in Ho].
Qed.

(** One orphan more is handled. *)
Lemma progress_next a protect pre acc a1 a2 kv sid :
  progress a protect pre acc a1 -> orphan a protect kv sid -> reclaiming a protect a2 -> closed a a2 -> fewer a1 a2 ->
  handled a2 kv -> progress a protect (pre ++ [kv]) (acc ++ [sid]) a2.
Proof.
  intros [P1 P2 P3 P4] Ho Hsh Hcl Hf Hh. split; [done|done| |].
  - intros o sid' [Hin|[->|[]]]%in_app_or Ho'; [|done].
    eapply handled_fewer; eauto.
  - intros sid'. rewrite in_app_iff, P4. split.
    + intros [(o & Hin & Ho')|[Heq|[]]]; [|subst sid'].
      * exists o. split; [|done]. apply in_or_app. by left.
      * exists kv. split; [|done]. apply in_or_app. right. by left.
    + intros (o & Hin & Ho'). apply in_app_or in Hin as [Hin|[->|[]]]; [left; by exists o|right; left].
      destruct Ho as (_ & E1 & _), Ho' as (_ & E2 & _). congruence.
Qed.

Lemma reclaim_one_progress a live protect pre acc kv s :
  inv s -> healthy s -> lists_live a live -> a_kv a !! kv_key kv = Some kv ->
  progress a protect pre acc (abs s) ->
  wp (reclaim_one live protect acc kv) s (fun r s' =>
    inv s' /\ healthy s' /\ exists acc', r = Ok acc' /\ progress a protect (pre ++ [kv]) acc' (abs s')).
Proof.
  intros Hs Hh Hl Hk Hpg. unfold reclaim_one. destruct (owner_sid (kv_key kv)) as [sid|] eqn:E.
  2:{ apply wp_ret. do 2 (split; [done|]). exists acc. split; [done|]. apply progress_skip; [done|].
      intros sid (_ & ? & _). congruence. }
  pose proof (reclaim_test a live protect kv sid Hl Hk E) as Ht. destruct (_ || _).
  { apply wp_ret. do 2 (split; [done|]). exists acc. split; [done|]. apply progress_skip; [done|].
    intros sid' Ho. assert (sid' = sid) as -> by (destruct Ho as (_ & ? & _); congruence).
    by apply Ht in Ho. }
  pose proof (proj1 Ht eq_refl) as Ho.
  destruct (kv_lease kv) as [lease|] eqn:El; apply wp_bind.
  - eapply wp_meets_healthy; [apply (revoke_meets lease)|done|done| |done].
    intros ks s' Hs' Hh' Hp. apply wp_ret. do 2 (split; [done|]). exists (acc ++ [sid]). split; [done|].
    pose proof (revoke_reclaims _ _ _ _ _ _ _ _ Ho El (pg_shrunk _ _ _ _ _ Hpg) Hp) as Hsh2.
    eapply progress_next; eauto.
    + eapply revoke_closed; [apply Hpg|apply Hpg|exact Hp].
    + exact (reap_fewer _ _ _ _ Hp).
    + destruct Hp as (_ & _ & Ha). unfold handled. rewrite El, Ha. simpl. by rewrite leases_after_id, decide_True.
  - eapply wp_meets_healthy; [apply (delete_meets (kv_key kv))|done|done| |done].
    intros b s' Hs' Hh' Hp. apply wp_ret. do 2 (split; [done|]). exists (acc ++ [sid]). split; [done|].
    pose proof (delete_reclaims _ _ _ _ _ _ _ Ho El (pg_shrunk _ _ _ _ _ Hpg) Hp) as Hsh2.
    eapply progress_next; eauto.
    + eapply delete_closed; [apply Hpg|exact Hp].
    + exact (delete_fewer _ _ _ _ Hp).
    + destruct Hp as [Hb Ha]. unfold handled. rewrite El, Ha, Hb.
      case_bool_decide as Hs0; [apply lookup_delete_eq|by apply eq_None_not_Some].
Qed.

Lemma progress_init a protect : progress a protect [] [] a.
Proof.
  split; [apply shrunk_refl|apply closed_refl|done|].
  intros sid. split; [done|]. by intros (o & [] & _).
Qed.

Lemma reclaim_progress s protect :
  inv s -> healthy s ->
  wp (reclaim_orphans protect) s (fun r s' => inv s' /\ healthy s' /\ exists kvs sids, r = Ok sids /\
    (forall kv sid, orphan (abs s) protect kv sid -> In kv kvs) /\
    progress (abs s) protect kvs sids (abs s')).
Proof.
  intros Hs Hh. unfold reclaim_orphans. apply wp_bind, live_nodes_wp; [done|]. intros r s1 Hs1 Ha1 Hb1 Hr.
  destruct (Hb1 Hh) as [Hh1 Hn1].
  destruct r as [live|[e|i]]; [|exfalso; apply Hn1; by eexists|done]. apply wp_bind.
  eapply wp_meets_healthy; [apply (list_meets "sandbox/")|done|done| |by intros ? ? ? ? []].
  intros kvs s2 Hs2 Hh2 [Ha2 Hp]. destruct (Hp good_sandbox_prefix) as [_ Hin]. rewrite Ha1 in Hin, Ha2.
  apply (wp_fold _ (fun pre acc s' => inv s' /\ healthy s' /\ progress (abs s) protect pre acc (abs s'))).
  - rewrite Ha2. auto using progress_init.
  - intros pre kv post acc s' Hkvs (Hs' & Hh' & Hpg).
    assert (a_kv (abs s) !! kv_key kv = Some kv) as Hk.
    { apply (Hin kv). rewrite Hkvs. apply in_or_app. right. by left. }
    eapply wp_mono; [|by apply (reclaim_one_progress (abs s) live protect pre)].
    by intros r' s'' (H1 & H2 & acc' & -> & H3).
  - intros sids s' (Hs' & Hh' & Hpg). do 2 (split; [done|]). exists kvs, sids. split; [done|].
    split; [|done]. intros kv sid (Hk & Hsid & _). apply Hin. split; [done|].
    apply owner_sid_some in Hsid. rewrite Hsid. apply (starts_with_app "sandbox/").
Qed.
End Proofs.

(** C31: a reclamation never touches what belongs to a node that is alive or
    protected, even when store calls fail half way.  Every key it removes is the
    ownership key of a sandbox whose owner has no liveness key and is not the
    protected node, or is attached to the lease of such an ownership key; every
    other key keeps its value, revision and lease. *)
Theorem reclaim_orphans_safe {S : Type} `{StoreLaws S} (s : S) (protect : option string) (k : string) :
  inv s ->
  let s' := snd (reclaim_orphans protect s) in
  a_kv (abs s') !! k = a_kv (abs s) !! k \/
  (a_kv (abs s') !! k = None /\ victim (abs s) protect k).
Proof. intros Hs. exact (sh_kv _ _ _ _ (proj2 (reclaim_shrinks s protect Hs)) k). Qed.

(** On a store that answers, a reclamation is complete: it returns exactly
    the sandboxes whose owner is neither alive nor protected, and afterwards
    their ownership keys (lease-less ones, and those whose lease exists) and all
    keys attached to their leases are gone, so that none of those leases
    remains. *)
Theorem reclaim_orphans_complete {S : Type} `{StoreLaws S} (s : S) (protect : option string) :
  inv s -> healthy s ->
  exists sids s', reclaim_orphans protect s = (Ok sids, s') /\
    (forall sid, In sid sids <-> exists o, orphan (abs s) protect o sid) /\
    (forall k, victim (abs s) protect k -> a_kv (abs s') !! k = None) /\
    (forall id, victim_lease (abs s) protect id -> a_leases (abs s') !! id = None).
Proof.
  intros Hs Hh. pose proof (reclaim_progress s protect Hs Hh) as G. unfold wp in G.
  destruct (reclaim_orphans protect s) as [r s']. simpl in G.
  destruct G as (_ & _ & kvs & sids & -> & Hall & [P1 P2 P3 P4]). exists sids, s'. split; [done|]. split; [|split].
  - intros sid. rewrite P4. split; [by intros (o & _ & Ho); exists o|]. intros [o Ho]. exists o. eauto.
  - intros k (o & sid & Ho & [[Hl ->]|(id & kv & Hl & Hsome & Hk & Hkl)]);
      pose proof (P3 o sid (Hall _ _ Ho) Ho) as Hh'; unfold handled in Hh'; rewrite Hl in Hh'; [done|].
    by eapply P2.
  - intros id (o & sid & Ho & Hl). pose proof (P3 o sid (Hall _ _ Ho) Ho) as Hh'. unfold handled in Hh'.
    by rewrite Hl in Hh'.
Qed.

(** Two nodes, of which [node-a] is gone, and a sandbox of each. *)
Definition two_nodes : SqliteStore :=
  store_after [OGrant 0 60; OPut "node/node-b" "" (Some 1);
               OGrant 0 60; OPut "sandbox/s1/state" "running" (Some 2); OPut "sandbox/s1/node" "node-a" (Some 2);
               OGrant 0 60; OPut "sandbox/s2/state" "running" (Some 3); OPut "sandbox/s2/node" "node-b" (Some 3)].

Lemma reclaim_orphans_safe_witness :
  a_kv (abs (snd (reclaim_orphans None two_nodes))) !! "sandbox/s2/state"%string
    = a_kv (abs two_nodes) !! "sandbox/s2/state"%string.
Proof.
  destruct (reclaim_orphans_safe two_nodes None "sandbox/s2/state") as [Heq|[Hn _]].
  - apply store_after_inv.
  - exact Heq.
  - vm_compute in Hn. discriminate.
Defined.

Lemma reclaim_orphans_complete_witness :
  exists sids s', reclaim_orphans None two_nodes = (Ok sids, s') /\ sids = ["s1"%string] /\
    a_kv (abs s') !! "sandbox/s1/state"%string = None.
Proof.
  destruct (reclaim_orphans_complete two_nodes None) as (sids & s' & H1 & _ & H3 & _).
  - apply store_after_inv.
  - apply store_after_inv.
  - exists sids, s'. split; [exact H1|]. split; [vm_compute in H1; by injection H1|].
    apply H3. exists (mkKv "sandbox/s1/node" "node-a" 3 3 (Some 2)), "s1"%string. split.
    + split; [vm_compute; reflexivity|]. split; [vm_compute; reflexivity|]. split; [|done].
      intros [kv Hkv]. vm_compute in Hkv. discriminate.
    + right. exists 2, (mkKv "sandbox/s1/state" "running" 2 2 (Some 2)).
      split; [reflexivity|]. split; [eexists; vm_compute; reflexivity|]. split; vm_compute; reflexivity.
Defined.
