(* ===== verification/Election.v ===== *)
(** * Leader election (crates/sl-store/src/election.rs)

    A participant campaigns with a fresh lease and a compare-and-swap on the
    leader key, renews by keeping the lease alive, and resigns by revoking it.
    The participant and the store it shares with the others are the two
    components of a method's state. *)

From Stdlib Require Import ZArith Lia Bool List String Ascii.
From stdpp Require Import base tactics list gmap strings sorting.
From S2P Require Import Prelude RustStr Utf8 Store Sqlite SqliteSpec StoreTheorems.

Open Scope Z_scope.

Definition LEADER_KEY : string := "cluster/leader".

Record Election : Type := mkElection {
  e_key : string;
  e_node_id : string;
  e_ttl_secs : Z;
  e_lease : option Z
}.

(** [Election::new], [with_key], [is_leader] *)
Definition new_election (node_id : string) (ttl_secs : Z) : Election :=
  mkElection LEADER_KEY node_id ttl_secs None.
Definition with_key (key : string) (e : Election) : Election :=
  mkElection key (e_node_id e) (e_ttl_secs e) (e_lease e).
Definition is_leader (e : Election) : bool :=
  match e_lease e with Some _ => true | None => false end.
Definition set_lease (l : option Z) (e : Election) : Election :=
  mkElection (e_key e) (e_node_id e) (e_ttl_secs e) l.

Section Ops.
Context {S : Type} `{Store S}.

Definition EM (A : Type) : Type := M (S * Election) StoreError A.

Definition self : EM Election := fun st => (Ok st.2, st).
Definition set_self_lease (l : option Z) : EM unit := fun st => (Ok tt, (st.1, set_lease l st.2)).

Definition holds_leadership : EM bool :=
  let? e := self in
  let? kv := on_fst (get (e_key e)) in
  mret (match kv with Some kv => String.eqb (kv_value kv) (e_node_id e) | None => false end).

(** The second half of [try_campaign]: grant a lease and swap the absent key. *)
Definition campaign (now : Z) : EM bool :=
  let? e := self in
  let? lease := on_fst (lease_grant now (e_ttl_secs e)) in
  let? r := on_fst (compare_and_swap (e_key e) None (e_node_id e) (Some lease)) in
  if cas_succeeded r then
    let? _ := set_self_lease (Some lease) in
    mret true
  else
    let? _ := mtry (on_fst (lease_revoke lease)) in
    mret false.

(** The first half renews: keep the lease alive, and confirm that the key still
    holds this node's id; an error of that read leaves the method. *)
Definition try_campaign (now : Z) : EM bool :=
  let? e := self in
  match e_lease e with
  | Some lease =>
      let? kept := mtry (on_fst (lease_keepalive now lease)) in
      match kept with
      | Ok _ =>
          let? holds := holds_leadership in
          if holds then mret true
          else let? _ := set_self_lease None in campaign now
      | Err _ => let? _ := set_self_lease None in campaign now
      end
  | None => campaign now
  end.

Definition resign : EM unit :=
  let? e := self in
  match e_lease e with
  | Some lease =>
      let? _ := set_self_lease None in
      let? _ := on_fst (lease_revoke lease) in
      mret tt
  | None => mret tt
  end.

Definition current_leader : EM (option string) :=
  let? e := self in
  let? kv := on_fst (get (e_key e)) in
  mret (option_map (fun kv => from_utf8_lossy (kv_value kv)) kv).
End Ops.
Arguments EM S A : clear implicits.

(** ** Specification *)

(** Every key that names a lease names one that exists. *)
Definition no_dangling (a : AStore) : Prop :=
  forall k kv id, a_kv a !! k = Some kv -> kv_lease kv = Some id -> is_Some (a_leases a !! id).

Definition holds (a : AStore) (e : Election) : Prop :=
  exists kv, a_kv a !! e_key e = Some kv /\ kv_value kv = e_node_id e.

(** A campaign wins when the key is free, or when the participant is the leader
    already: its lease exists and the key holds its id. *)
Definition wins (a : AStore) (e : Election) : Prop :=
  a_kv a !! e_key e = None \/
  (exists id, e_lease e = Some id /\ is_Some (a_leases a !! id)) /\ holds a e.

Section Proofs.
Context {S : Type} `{StoreLaws S}.

Definition ok_state (st : S * Election) : Prop := inv st.1 /\ healthy st.1 /\ no_dangling (abs st.1).

Lemma wp_self (s : S) e (Q : result Election StoreError -> S * Election -> Prop) :
  Q (Ok e) (s, e) -> wp self (s, e) Q.
Proof. done. Qed.

Lemma wp_set (s : S) e l (Q : result unit StoreError -> S * Election -> Prop) :
  Q (Ok tt) (s, set_lease l e) -> wp (set_self_lease l) (s, e) Q.
Proof. done. Qed.

Lemma wp_on_fst {A} (m : M S StoreError A) (s : S) (e : Election) (Q : result A StoreError -> S * Election -> Prop) :
  wp m s (fun r s' => Q r (s', e)) -> wp (on_fst m) (s, e) Q.
Proof. unfold wp, on_fst. simpl. by destruct (m s). Qed.

Lemma no_dangling_leases a ls :
  no_dangling a -> (forall id, is_Some (a_leases a !! id) -> is_Some (ls !! id)) ->
  no_dangling (a_with_leases ls a).
Proof. intros Hd Hl k kv id Hk Hkl. apply Hl. by eapply Hd. Qed.

(** A lease nobody uses comes and goes without a trace. *)
Lemma grant_revoke_id a id l ks a' :
  no_dangling a -> a_leases a !! id = None ->
  reap_post (a_with_leases (<[id := l]> (a_leases a)) a) (SelId id) (Ok ks) a' -> a' = a.
Proof.
  intros Hd Hn (_ & Hks & ->).
  assert (ks = []) as ->.
  { destruct ks as [|k ks]; [done|]. exfalso.
    destruct (proj1 (Hks k) (or_introl eq_refl)) as (kv & i & l' & K1 & K2 & K3 & K4).
    simpl in *. bool_prop. subst i. destruct (Hd _ _ _ K1 K2) as [? ?]. congruence. }
  destruct a as [rev kv ls evs]; simpl in *. unfold a_with_leases; simpl. f_equal.
  apply map_eq. intros i. unfold leases_after. destruct (decide (i = id)) as [->|Hne].
  - rewrite Hn. apply map_lookup_filter_None. right. intros ? _. simpl. by rewrite Z.eqb_refl.
  - destruct (ls !! i) as [x|] eqn:E.
    + apply map_lookup_filter_Some. rewrite lookup_insert_ne by done. split; [done|]. simpl. by apply Z.eqb_neq.
    + apply map_lookup_filter_None. left. by rewrite lookup_insert_ne.
Qed.

(** The second half: it wins exactly when the key is free. *)
Lemma campaign_wp now s e :
  ok_state (s, e) -> e_lease e = None ->
  wp (campaign now) (s, e) (fun r st' => ok_state st' /\
    match a_kv (abs s) !! e_key e with
    | None => r = Ok true /\ (exists id, st'.2 = set_lease (Some id) e /\ is_Some (a_leases (abs st'.1) !! id) /\
                abs st'.1 = a_write (e_key e) (e_node_id e) (Some id)
                              (a_with_leases (a_leases (abs st'.1)) (abs s)))
    | Some _ => r = Ok false /\ st'.2 = e /\ abs st'.1 = abs s
    end).
Proof.
  intros (Hs & Hh & Hd) He. unfold campaign. apply wp_bind, wp_self. apply wp_bind, wp_on_fst.
  eapply wp_meets_healthy; [apply (grant_meets now (e_ttl_secs e))|exact Hs|exact Hh| |done].
  intros id s1 Hs1 Hh1 (Hfree & Hpos & Ha1). apply wp_bind, wp_on_fst.
  eapply wp_meets_healthy; [apply (cas_meets (e_key e) None (e_node_id e) (Some id))|exact Hs1|exact Hh1| |done].
  intros c s2 Hs2 Hh2 (Hc & _ & _ & Ha2). rewrite Ha1 in Hc, Ha2. simpl in Hc, Ha2, Hfree, Ha1.
  assert (no_dangling (abs s1)) as Hd1.
  { rewrite Ha1. apply no_dangling_leases; [done|]. intros i Hi. destruct (decide (i = id)) as [->|];
      [rewrite lookup_insert_eq; eauto|by rewrite lookup_insert_ne]. }
  destruct (a_kv (abs s) !! e_key e) as [kv|] eqn:E.
  - rewrite bool_decide_eq_false_2 in Hc by done. rewrite Hc in *. apply wp_bind, wp_try, wp_on_fst.
    eapply wp_meets_healthy; [apply (revoke_meets id)|exact Hs2|exact Hh2| |done].
    intros ks s3 Hs3 Hh3 Hp. rewrite Ha2 in Hp. apply grant_revoke_id in Hp; [|done|done].
    apply wp_ret. split; [|done]. split; [done|]. split; [done|]. simpl. by rewrite Hp.
  - rewrite bool_decide_eq_true_2 in Hc by done. rewrite Hc in *. apply wp_bind, wp_set, wp_ret.
    assert (is_Some (a_leases (abs s2) !! id)) as Hsome by (rewrite Ha2; simpl; rewrite lookup_insert_eq; eauto).
    split.
    + split; [done|]. split; [done|]. simpl. rewrite Ha2, <- Ha1. intros k kv i Hk Hkl. rewrite a_write_kv in Hk.
      destruct (decide (e_key e = k)); [|by eapply Hd1].
      injection Hk as <-. injection Hkl as <-. rewrite Ha1. simpl. rewrite lookup_insert_eq. eauto.
    + split; [done|]. exists id. split; [done|]. split; [done|]. simpl. rewrite Ha2. done.
Qed.

(** What a campaign leaves behind. *)
Definition campaign_result (a : AStore) (e : Election) (b : bool) (a' : AStore) (e' : Election) : Prop :=
  e_key e' = e_key e /\ e_node_id e' = e_node_id e /\ is_leader e' = b /\
  (b = true -> holds a' e) /\
  (forall k, k <> e_key e \/ b = false -> a_kv a' !! k = a_kv a !! k) /\
  (a_kv a !! e_key e <> None -> a_kv a' = a_kv a).

Lemma campaign_done now s e a0 :
  ok_state (s, e) -> e_lease e = None -> a_kv (abs s) = a_kv a0 ->
  wp (campaign now) (s, e) (fun r st' => ok_state st' /\ exists b, r = Ok b /\
    (b = true <-> a_kv a0 !! e_key e = None) /\ campaign_result a0 e b (abs st'.1) st'.2).
Proof.
  intros Hok He Ha. eapply wp_mono; [|by apply campaign_wp]. intros r [s' e'] [Hok' Hr]. split; [done|].
  rewrite Ha in Hr. unfold campaign_result. destruct (a_kv a0 !! e_key e) as [kv|] eqn:E; simpl in *.
  - destruct Hr as (-> & -> & Hr). exists false. split; [done|]. split; [done|].
    rewrite Hr, Ha. unfold is_leader. rewrite He. repeat split; auto. done.
  - destruct Hr as (-> & id & -> & Hid & Hr). exists true. split; [done|]. split; [done|]. simpl.
    repeat split; auto.
    + intros _. rewrite Hr. eexists. rewrite a_write_kv, decide_True by done. done.
    + intros k [Hk|?]; [|done]. rewrite Hr, a_write_kv, decide_False by done. simpl. by rewrite Ha.
    + done.
Qed.

Definition campaign_spec (s : S) (e : Election) (r : result bool StoreError) (st' : S * Election) : Prop :=
  ok_state st' /\ exists b, r = Ok b /\ (b = true <-> wins (abs s) e) /\
    campaign_result (abs s) e b (abs st'.1) st'.2.

(** Losing the leadership and campaigning for it again. *)
Lemma recampaign_wp now s0 s e :
  ok_state (s, e) -> a_kv (abs s) = a_kv (abs s0) ->
  (wins (abs s0) e <-> a_kv (abs s0) !! e_key e = None) ->
  wp (let? _ := set_self_lease None in campaign now) (s, e) (campaign_spec s0 e).
Proof.
  intros Hok Ha Hw. apply wp_bind, wp_set.
  eapply wp_mono; [|by apply (campaign_done now s (set_lease None e) (abs s0))].
  intros r st' (Hok' & b & -> & Hb & Hres). split; [done|]. exists b. split; [done|]. by rewrite Hw.
Qed.

Lemma try_campaign_wp now s e : ok_state (s, e) -> wp (try_campaign now) (s, e) (campaign_spec s e).
Proof.
  intros (Hs & Hh & Hd). unfold try_campaign. apply wp_bind, wp_self.
  destruct (e_lease e) as [id|] eqn:El.
  2:{ eapply wp_mono; [|by apply (campaign_done now s e (abs s))].
      intros r st' (Hok' & b & -> & Hb & Hres). split; [done|]. exists b. split; [done|]. split; [|done].
      rewrite Hb. unfold wins. rewrite El. split; [auto|]. by intros [?|[(? & ? & _) _]]. }
  apply wp_bind, wp_try, wp_on_fst.
  eapply wp_meets_healthy; [apply (keepalive_meets now id)|exact Hs|exact Hh| |].
  - intros exp s1 Hs1 Hh1 (l & Hl & _ & Ha1). simpl in Hl, Ha1. apply wp_bind.
    assert (ok_state (s1, e)) as Hok1.
    { split; [done|]. split; [done|]. simpl. rewrite Ha1. apply no_dangling_leases; [done|].
      intros i Hi. destruct (decide (i = id)) as [->|]; [rewrite lookup_insert_eq; eauto|by rewrite lookup_insert_ne]. }
    unfold holds_leadership. apply wp_bind, wp_self. apply wp_bind, wp_on_fst.
    eapply wp_meets_healthy; [apply (get_meets (e_key e))|exact Hs1|exact Hh1| |by intros ? ? ? ? []].
    intros o s2 Hs2 Hh2 [Ha2 Ho]. rewrite Ha1 in Ho. simpl in Ho. apply wp_ret.
    assert (ok_state (s2, e)) as Hok2 by (split; [done|split; [done|]]; simpl; rewrite Ha2; apply Hok1).
    assert (a_kv (abs s2) = a_kv (abs s)) as Hkv by (by rewrite Ha2, Ha1).
    assert (holds (abs s) e <-> match o with Some kv => String.eqb (kv_value kv) (e_node_id e) | None => false end = true) as Hholds.
    { unfold holds. rewrite <- Ho. destruct o as [kv|].
      - rewrite String.eqb_eq. split; [by intros (? & [= <-] & ?)|by exists kv].
      - split; [by intros (? & ? & _)|done]. }
    destruct (match o with Some kv => _ | None => _ end).
    + apply wp_ret. split; [done|]. exists true. split; [done|]. split.
      * split; [|done]. intros _. right. split; [exists id; eauto|by apply Hholds].
      * unfold campaign_result, is_leader, holds. simpl. rewrite El, Hkv. repeat split; auto.
        intros _. by apply Hholds.
    + apply recampaign_wp; [done|done|]. unfold wins. rewrite Hholds. split; [by intros [|[_ ?]]|auto].
  - intros i s1 Hs1 Hh1 (-> & Hnone & Ha1). simpl in *.
    apply recampaign_wp; [split; [done|split; [done|]]; simpl; by rewrite Ha1|by rewrite Ha1|].
    unfold wins. rewrite El. split; [|auto]. intros [?|[(i & [= <-] & [l ?]) _]]; [done|congruence].
Qed.

(** Campaigns of several participants, one after the other, on one store. *)
Fixpoint campaigns (s : S) (es : list (Z * Election)) : list (result bool StoreError) * S :=
  match es with
  | [] => ([], s)
  | (now, e) :: es' =>
      let '(r, (s1, _)) := try_campaign now (s, e) in
      let '(rs, s2) := campaigns s1 es' in (r :: rs, s2)
  end.

Lemma campaigns_lose es s kv :
  inv s -> healthy s -> no_dangling (abs s) ->
  a_kv (abs s) !! kv_key kv = Some kv ->
  Forall (fun ne => e_key ne.2 = kv_key kv /\ e_node_id ne.2 <> kv_value kv) es ->
  Forall (fun r => r = Ok false) (campaigns s es).1 /\ a_kv (abs (campaigns s es).2) = a_kv (abs s).
Proof.
  revert s; induction es as [|[now e] es IH]; intros s Hs Hh Hd Hk Hes; [done|]. simpl.
  inversion Hes as [|? ? [Hkey Hid] Hrest]; subst. simpl in *.
  pose proof (try_campaign_wp now s e (conj Hs (conj Hh Hd))) as G. unfold wp in G.
  destruct (try_campaign now (s, e)) as [r [s1 e1]]. simpl in G.
  destruct G as ((Hs1 & Hh1 & Hd1) & b & -> & Hb & (_ & _ & _ & _ & _ & Hsame)).
  assert (a_kv (abs s1) = a_kv (abs s)) as Hkv1 by (apply Hsame; rewrite Hkey, Hk; done).
  assert (b = false) as ->.
  { destruct b; [|done]. exfalso. destruct (proj1 Hb eq_refl) as [Hn|[_ (kv' & Hk' & Hv)]]; rewrite Hkey in *; congruence. }
  destruct (IH s1 Hs1 Hh1 Hd1) as [IH1 IH2]; [by rewrite Hkv1|done|].
  destruct (campaigns s1 es) as [rs s2]. simpl in *. split; [by constructor|congruence].
Qed.

Lemma resign_wp s e :
  inv s -> healthy s ->
  wp resign (s, e) (fun r st' => r = Ok tt /\ inv st'.1 /\ healthy st'.1 /\ is_leader st'.2 = false /\
    match e_lease e with
    | Some id => a_leases (abs st'.1) !! id = None /\
        forall k, a_kv (abs st'.1) !! k = None <-> a_kv (abs s) !! k = None \/ reaped (SelId id) (abs s) k
    | None => abs st'.1 = abs s
    end).
Proof.
  intros Hs Hh. unfold resign. apply wp_bind, wp_self. destruct (e_lease e) as [id|] eqn:El.
  - apply wp_bind, wp_set. apply wp_bind, wp_on_fst.
    eapply wp_meets_healthy; [apply (revoke_meets id)|exact Hs|exact Hh| |done].
    intros ks s1 Hs1 Hh1 (_ & Hks & Ha). apply wp_ret. do 4 (split; [done|]). simpl. rewrite Ha. simpl. split.
    + unfold leases_after. apply map_lookup_filter_None. right. intros l _. simpl. by rewrite Z.eqb_refl.
    + intros k. rewrite a_remove_all_kv, <- Hks, <- list_elem_of_In.
      case_bool_decide; intuition.
  - apply wp_ret. do 3 (split; [done|]). split; [|done]. unfold is_leader. simpl. by rewrite El.
Qed.
End Proofs.

(**  every campaign is decided by the store.  On a store that answers, and
    whose keys name existing leases, [try_campaign] returns true exactly when the
    leader key is free, or when it holds this node's id and the node's lease
    still exists; the participant is then a leader and the key holds its id,
    otherwise it is not one and no key changed.  A held key is never
    overwritten. *)
Theorem try_campaign_outcome {S : Type} `{StoreLaws S} (now : Z) (s : S) (e : Election) :
  inv s -> healthy s -> no_dangling (abs s) ->
  exists b s' e', try_campaign now (s, e) = (Ok b, (s', e')) /\ (b = true <-> wins (abs s) e) /\
    is_leader e' = b /\ (b = true -> holds (abs s') e) /\
    (b = false -> a_kv (abs s') = a_kv (abs s)) /\
    (a_kv (abs s) !! e_key e <> None -> a_kv (abs s') = a_kv (abs s)).
Proof.
  intros Hs Hh Hd. pose proof (try_campaign_wp now s e (conj Hs (conj Hh Hd))) as G. unfold wp in G.
  destruct (try_campaign now (s, e)) as [r [s' e']]. simpl in G.
  destruct G as (_ & b & -> & Hb & (_ & _ & Hl & Hw & Hk & Hsame)).
  exists b, s', e'. do 4 (split; [done|]). split; [|done]. intros ->. apply map_eq. auto.
Qed.

(** C30: there is never a second leader.  While the leader key exists, however
    many participants with another id campaign on the same key, at whatever
    times and in whatever state, every one of them is told false, and the
    leader's key stays as it is. *)
Theorem no_second_leader {S : Type} `{StoreLaws S} (s : S) (kv : KeyValue) (es : list (Z * Election)) :
  inv s -> healthy s -> no_dangling (abs s) ->
  a_kv (abs s) !! kv_key kv = Some kv ->
  Forall (fun ne => e_key ne.2 = kv_key kv /\ e_node_id ne.2 <> kv_value kv) es ->
  Forall (fun r => r = Ok false) (campaigns s es).1 /\
  a_kv (abs (campaigns s es).2) !! kv_key kv = Some kv.
Proof.
  intros Hs Hh Hd Hk Hes. destruct (campaigns_lose es s kv Hs Hh Hd Hk Hes) as [H1 H2].
  split; [done|]. by rewrite H2.
Qed.

Definition led : SqliteStore := (fst (snd (try_campaign 0 (open_in_memory [], new_election "node-a" 10)))).

Lemma led_ok : sq_inv led /\ sq_healthy led /\ no_dangling (sq_abs led).
Proof.
  assert (no_dangling (sq_abs (open_in_memory []))) as Hd by (intros k kv id Hk; vm_compute in Hk; discriminate).
  pose proof (try_campaign_wp 0 (open_in_memory []) (new_election "node-a" 10)
                (conj init_wf (conj (Forall_nil_2 _) Hd))) as G.
  unfold wp in G. unfold led. destruct (try_campaign 0 _) as [r [s e]]. apply G.
Qed.

Lemma try_campaign_outcome_witness :
  exists s' e', try_campaign 5 (led, mkElection LEADER_KEY "node-a" 10 (Some 1)) = (Ok true, (s', e')) /\
    holds (abs s') (mkElection LEADER_KEY "node-a" 10 (Some 1)).
Proof.
  destruct (try_campaign_outcome 5 led (mkElection LEADER_KEY "node-a" 10 (Some 1)))
    as (b & s' & e' & H1 & Hb & _ & H2 & _); [apply led_ok..|].
  assert (b = true) as ->.
  { apply Hb. right. split; [exists 1; split; [done|]; eexists; vm_compute; reflexivity|].
    eexists. split; vm_compute; reflexivity. }
  exists s', e'. split; [exact H1|]. by apply H2.
Defined.

Lemma no_second_leader_witness :
  (campaigns led [(1, new_election "node-b" 10); (2, new_election "node-c" 10)]).1 = [Ok false; Ok false].
Proof.
  destruct (no_second_leader led (mkKv LEADER_KEY "node-a" 1 1 (Some 1))
              [(1, new_election "node-b" 10); (2, new_election "node-c" 10)]) as [Hall _].
  - apply led_ok.
  - apply led_ok.
  - apply led_ok.
  - vm_compute. reflexivity.
  - repeat constructor; done.
  - vm_compute. reflexivity.
Defined.

(** A leader that lost its lease to expiry and resigns late deposes its successor:
    the successor was granted the same lease id again. *)
Lemma stale_resign_deposes :
  let a := new_election "node-a" 10 in
  let b := new_election "node-b" 10 in
  exists s1 a1 s2 s3 b1 s4 a2,
    try_campaign 0 (open_in_memory [], a) = (Ok true, (s1, a1)) /\
    lease_sweep 10 s1 = (Ok [LEADER_KEY], s2) /\
    try_campaign 11 (s2, b) = (Ok true, (s3, b1)) /\
    resign (s3, a1) = (Ok tt, (s4, a2)) /\
    is_leader b1 = true /\ a_kv (abs s4) !! LEADER_KEY = None.
Proof. do 7 eexists. do 5 (split; [vm_compute; reflexivity|]). vm_compute; reflexivity. Qed.
