(* ===== verification/Quota.v ===== *)
(** * Project quotas (crates/sl-node/src/quota.rs)

    Limits are a JSON document under [quota/<project>]; usage is recomputed from
    the sandbox keys on every check. *)

From Stdlib Require Import ZArith Lia Bool List String Ascii.
From stdpp Require Import base tactics list gmap strings sorting.
From S2P Require Import Prelude RustStr Utf8 Json Store Cluster Sqlite SqliteSpec StoreTheorems.

Open Scope Z_scope.

Definition QUOTA_EXCEEDED : string := "QUOTA_EXCEEDED".

Record Limits : Type := mkLimits {
  max_sandboxes : Z;
  max_vcpus : Z;
  max_mem_mib : Z;
  max_storage_mib : Z
}.

Definition quota_key (project : string) : string := "quota/" ++s project.
Definition sandbox_key (id field : string) : string := "sandbox/" ++s id ++s "/" ++s field.

(** The text [set_limits] formats. *)
Definition limits_json (l : Limits) : json :=
  JObj [("max_sandboxes"%string, JNum (max_sandboxes l)); ("max_vcpus"%string, JNum (max_vcpus l));
        ("max_mem_mib"%string, JNum (max_mem_mib l)); ("max_storage_mib"%string, JNum (max_storage_mib l))].

(** [kv.key.strip_prefix("sandbox/").and_then(|s| s.strip_suffix(suffix))] *)
Definition key_id (suffix key : string) : option string :=
  match strip_prefix "sandbox/" key with
  | Some s => strip_suffix suffix s
  | None => None
  end.

(** The map from sandbox id to project that [usage] builds first. *)
Definition add_project (m : gmap string string) (kv : KeyValue) : gmap string string :=
  match key_id "/project" (kv_key kv) with
  | Some id => <[id := from_utf8_lossy (kv_value kv)]> m
  | None => m
  end.

Definition projects_of (kvs : list KeyValue) : gmap string string := fold_left add_project kvs ∅.

Record Usage : Type := mkUsage { u_count : Z; u_vcpus : Z; u_mem : Z; u_storage : Z }.

Definition parse_u64_or_0 (s : string) : Z :=
  match parse_uint u64_max s with Some n => n | None => 0 end.

Section Ops.
Context {S : Type} `{Store S} `{SerdeJson}.

Definition set_size (sid : string) (mib : Z) (lease : option Z) : M S string unit :=
  let? _ := text (put (sandbox_key sid "size") (dec mib) lease) in
  mret tt.

Definition set_limits (project : string) (l : Limits) : M S string unit :=
  let? _ := text (put (quota_key project) (render (limits_json l)) None) in
  mret tt.

Definition limits_of_bytes (b : string) : option Limits :=
  match from_slice b with
  | None => None
  | Some v => Some (mkLimits (get_u64_or_0 v "max_sandboxes") (get_u64_or_0 v "max_vcpus")
                             (get_u64_or_0 v "max_mem_mib") (get_u64_or_0 v "max_storage_mib"))
  end.

Definition get_limits (project : string) : M S string (option Limits) :=
  let? kv := text (get (quota_key project)) in
  mret (match kv with Some kv => limits_of_bytes (kv_value kv) | None => None end).

(** What one key adds to the usage of a project. *)
Definition count_key (proj : gmap string string) (project : string) (u : Usage) (kv : KeyValue) : Usage :=
  match key_id "/meta" (kv_key kv) with
  | Some id =>
      if bool_decide (proj !! id = Some project) then
        let u1 := mkUsage (u64_add (u_count u) 1) (u_vcpus u) (u_mem u) (u_storage u) in
        match from_slice (kv_value kv) with
        | Some v => mkUsage (u_count u1) (u64_add (u_vcpus u1) (get_u64_or_0 v "vcpus"))
                            (u64_add (u_mem u1) (get_u64_or_0 v "mem_mib")) (u_storage u1)
        | None => u1
        end
      else u
  | None =>
      match key_id "/size" (kv_key kv) with
      | Some id =>
          if bool_decide (proj !! id = Some project) then
            mkUsage (u_count u) (u_vcpus u) (u_mem u)
                    (u64_add (u_storage u) (parse_u64_or_0 (from_utf8_lossy (kv_value kv))))
          else u
      | None => u
      end
  end.

Definition usage_of (kvs : list KeyValue) (project : string) : Usage :=
  fold_left (count_key (projects_of kvs) project) kvs (mkUsage 0 0 0 0).

Definition usage (project : string) : M S string Usage :=
  let? kvs := text (list_prefix "sandbox/") in
  mret (usage_of kvs project).

Definition exceeded (project what unit : string) (used limit : Z) : string :=
  QUOTA_EXCEEDED ++s ": 项目 " ++s project ++s " " ++s what ++s "超限（" ++s dec used ++s "/" ++s dec limit ++s unit ++s "）".

Definition check (project : string) (add_vcpus add_mem add_storage : Z) : M S string unit :=
  let? lim := get_limits project in
  match lim with
  | None => mret tt
  | Some lim =>
      let? u := usage project in
      if (0 <? max_sandboxes lim) && (max_sandboxes lim <? u64_add (u_count u) 1) then
        mfail (exceeded project "并发沙箱数" "" (u64_add (u_count u) 1) (max_sandboxes lim))
      else if (0 <? max_vcpus lim) && (max_vcpus lim <? u64_add (u_vcpus u) add_vcpus) then
        mfail (exceeded project "vCPU " "" (u64_add (u_vcpus u) add_vcpus) (max_vcpus lim))
      else if (0 <? max_mem_mib lim) && (max_mem_mib lim <? u64_add (u_mem u) add_mem) then
        mfail (exceeded project "内存" " MiB" (u64_add (u_mem u) add_mem) (max_mem_mib lim))
      else if (0 <? max_storage_mib lim) && (max_storage_mib lim <? u64_add (u_storage u) add_storage) then
        mfail (exceeded project "存储" " MiB" (u64_add (u_storage u) add_storage) (max_storage_mib lim))
      else mret tt
  end.
End Ops.

(** ** Specification *)

Definition uplus (a b : Usage) : Usage :=
  mkUsage (u_count a + u_count b) (u_vcpus a + u_vcpus b) (u_mem a + u_mem b) (u_storage a + u_storage b).
Definition uzero : Usage := mkUsage 0 0 0 0.
Definition usum (l : list Usage) : Usage := foldr uplus uzero l.

Definition wrap (u : Usage) : Usage :=
  mkUsage (as_u64 (u_count u)) (as_u64 (u_vcpus u)) (as_u64 (u_mem u)) (as_u64 (u_storage u)).

Definition u_in_u64 (u : Usage) : Prop :=
  in_u64 (u_count u) /\ in_u64 (u_vcpus u) /\ in_u64 (u_mem u) /\ in_u64 (u_storage u).

(** The project a sandbox is tagged with. *)
Definition project_of (a : AStore) (id : string) : option string :=
  (fun kv => from_utf8_lossy (kv_value kv)) <$> a_kv a !! sandbox_key id "project".

Section Spec.
Context `{SerdeJson}.

(** What a key stands for: a sandbox with its vCPUs and memory, a snapshot with
    its size, or nothing. *)
Definition amount (kv : KeyValue) : Usage :=
  match key_id "/meta" (kv_key kv) with
  | Some _ => match from_slice (kv_value kv) with
              | Some v => mkUsage 1 (get_u64_or_0 v "vcpus") (get_u64_or_0 v "mem_mib") 0
              | None => mkUsage 1 0 0 0
              end
  | None => match key_id "/size" (kv_key kv) with
            | Some _ => mkUsage 0 0 0 (parse_u64_or_0 (from_utf8_lossy (kv_value kv)))
            | None => uzero
            end
  end.

(** The sandbox a metadata or size key belongs to. *)
Definition charged_id (key : string) : option string :=
  match key_id "/meta" key with
  | Some id => Some id
  | None => key_id "/size" key
  end.

(** The project's keys. *)
Definition charged (a : AStore) (project key : string) : Prop :=
  exists id, charged_id key = Some id /\ project_of a id = Some project.

#[global] Instance charged_dec a project key : Decision (charged a project key).
Proof.
  destruct (charged_id key) as [id|] eqn:E.
  - destruct (decide (project_of a id = Some project)) as [Hp|Hp].
    + left. by exists id.
    + right. intros (id' & E' & Hp'). congruence.
  - right. intros (id' & E' & _). congruence.
Defined.

(** The usage of a project: the sum over its own keys. *)
Definition usage_spec (a : AStore) (project : string) : Usage :=
  usum (map (fun p => amount p.2) (map_to_list (filter (fun p => charged a project p.1) (a_kv a)))).

(** The projected usage stays within every limit that is set. *)
Definition within (lim : Limits) (u : Usage) : Prop :=
  (max_sandboxes lim = 0 \/ u_count u <= max_sandboxes lim) /\
  (max_vcpus lim = 0 \/ u_vcpus u <= max_vcpus lim) /\
  (max_mem_mib lim = 0 \/ u_mem u <= max_mem_mib lim) /\
  (max_storage_mib lim = 0 \/ u_storage u <= max_storage_mib lim).

Definition limits_spec (a : AStore) (project : string) : option Limits :=
  match a_kv a !! quota_key project with
  | Some kv => limits_of_bytes (kv_value kv)
  | None => None
  end.
End Spec.

(** ** Proofs *)

Lemma key_id_some suffix key id : key_id suffix key = Some id <-> key = "sandbox/" ++s id ++s suffix.
Proof.
  unfold key_id. split.
  - destruct (strip_prefix "sandbox/" key) as [r|] eqn:E; [|done].
    apply strip_prefix_some in E as ->. intros Hs%strip_suffix_some. by rewrite Hs.
  - intros ->. by rewrite strip_prefix_app, strip_suffix_app.
Qed.

(** A loop that indexes a listing by an id its keys are built from. *)
Lemma fold_index {V} (step : gmap string V -> KeyValue -> gmap string V) (kf : string -> option string)
    (mk : string -> string) (val : string -> KeyValue -> V) kvs :
  (forall m kv, step m kv = match kf (kv_key kv) with Some id => <[id := val id kv]> m | None => m end) ->
  (forall key id, kf key = Some id <-> key = mk id) ->
  NoDup (map kv_key kvs) -> forall m id,
  fold_left step kvs m !! id =
    match List.find (fun kv => String.eqb (kv_key kv) (mk id)) kvs with
    | Some kv => Some (val id kv)
    | None => m !! id
    end.
Proof.
  intros Hstep Hkf Hnd. induction kvs as [|kv kvs IH]; intros m id; [done|].
  simpl in Hnd. apply NoDup_cons in Hnd as [Hni Hnd].
  cbn [fold_left List.find]. rewrite IH by done. rewrite Hstep.
  destruct (String.eqb_spec (kv_key kv) (mk id)) as [Heq|Hne].
  - replace (List.find _ kvs) with (@None KeyValue).
    + rewrite (proj2 (Hkf (kv_key kv) id) Heq). by rewrite lookup_insert_eq.
    + symmetry. destruct (List.find _ kvs) as [x|] eqn:E; [|done]. exfalso.
      apply find_some in E as [Hin Hx]. bool_prop. apply Hni, list_elem_of_In, in_map_iff. exists x. split; [congruence|done].
  - destruct (List.find _ kvs); [done|]. destruct (kf (kv_key kv)) as [id'|] eqn:E; [|done].
    apply Hkf in E. rewrite lookup_insert_ne; [done|]. intros ->. by apply Hne.
Qed.

Lemma projects_of_lookup kvs id :
  NoDup (map kv_key kvs) ->
  projects_of kvs !! id =
    (fun kv => from_utf8_lossy (kv_value kv)) <$>
      List.find (fun kv => String.eqb (kv_key kv) (sandbox_key id "project")) kvs.
Proof.
  intros Hnd. unfold projects_of.
  rewrite (fold_index add_project (key_id "/project") (fun id => sandbox_key id "project")
             (fun _ kv => from_utf8_lossy (kv_value kv))); [|done|apply key_id_some|done].
  rewrite lookup_empty. by destruct (List.find _ kvs).
Qed.

Lemma as_u64_add_l a b : as_u64 (as_u64 a + b) = as_u64 (a + b).
Proof. unfold as_u64. apply Zplus_mod_idemp_l. Qed.

Section Proofs.
Context `{SerdeJson}.

Lemma count_key_wrap P project u kv :
  count_key P project (wrap u) kv =
    wrap (uplus u (match charged_id (kv_key kv) with
                   | Some id => if bool_decide (P !! id = Some project) then amount kv else uzero
                   | None => uzero
                   end)).
Proof.
  destruct u as [c v m st]. unfold count_key, charged_id, amount, wrap, uplus, uzero, u64_add.
  destruct (key_id "/meta" (kv_key kv)) as [id|].
  - case_bool_decide; [|simpl; by rewrite !Z.add_0_r].
    destruct (from_slice (kv_value kv)); simpl; by rewrite ?as_u64_add_l, ?Z.add_0_r.
  - destruct (key_id "/size" (kv_key kv)) as [id|]; [|simpl; by rewrite !Z.add_0_r].
    case_bool_decide; simpl; by rewrite ?as_u64_add_l, ?Z.add_0_r.
Qed.

Lemma uplus_assoc a b c : uplus a (uplus b c) = uplus (uplus a b) c.
Proof. unfold uplus; simpl; f_equal; lia. Qed.
Lemma uplus_comm a b : uplus a b = uplus b a.
Proof. unfold uplus; simpl; f_equal; lia. Qed.
Lemma uplus_zero a : uplus uzero a = a.
Proof. by destruct a. Qed.

Lemma usum_perm l l' : l ≡ₚ l' -> usum l = usum l'.
Proof.
  induction 1; simpl; [done|by rewrite IHPermutation| |by etrans].
  rewrite !uplus_assoc. f_equal. apply uplus_comm.
Qed.

(** Charges that are zero do not matter. *)
Lemma fold_count P project kvs u :
  fold_left (count_key P project) kvs (wrap u) =
    wrap (uplus u (usum (map amount (List.filter (fun kv =>
      match charged_id (kv_key kv) with Some id => bool_decide (P !! id = Some project) | None => false end) kvs)))).
Proof.
  revert u; induction kvs as [|kv kvs IH]; intros u; cbn [fold_left List.filter map usum foldr].
  - by rewrite uplus_comm, uplus_zero.
  - rewrite count_key_wrap, IH. f_equal. rewrite <- uplus_assoc. f_equal.
    destruct (charged_id (kv_key kv)) as [id|]; [|by rewrite uplus_zero].
    case_bool_decide; [done|by rewrite uplus_zero].
Qed.
End Proofs.

Section Check.
Context {S : Type} `{StoreLaws S} `{SerdeJson}.

Lemma sandbox_key_prefix id field : starts_with "sandbox/" (sandbox_key id field) = true.
Proof. apply (starts_with_app "sandbox/"). Qed.

Lemma charged_prefix key id : charged_id key = Some id -> starts_with "sandbox/" key = true.
Proof.
  unfold charged_id. destruct (key_id "/meta" key) as [i|] eqn:E; [|clear E; intros E];
    apply key_id_some in E as ->; intros; apply (starts_with_app "sandbox/").
Qed.

Lemma usage_of_spec a kvs project :
  awf a -> lists a "sandbox/" kvs -> usage_of kvs project = wrap (usage_spec a project).
Proof.
  intros Hwf Hl. unfold usage_of. change (mkUsage 0 0 0 0) with (wrap uzero).
  rewrite fold_count, uplus_zero. f_equal. unfold usage_spec.
  rewrite <- List.map_map with (f := snd) (g := amount). apply usum_perm, (fmap_Permutation amount).
  eapply lists_perm; [done|done|]. intros kv Hkv. unfold charged.
  assert (forall id, projects_of kvs !! id = project_of a id) as HP.
  { intros id. rewrite projects_of_lookup by (apply sorted_by_key_NoDup, Hl).
    by rewrite (lists_find a "sandbox/"), sandbox_key_prefix. }
  destruct (charged_id (kv_key kv)) as [id|] eqn:E.
  - rewrite HP, bool_decide_eq_true. split.
    + intros (id' & [= <-] & Hp). split; [by eapply charged_prefix|done].
    + intros [_ Hp]. by exists id.
  - split; [by intros (? & ? & _)|by intros [_ ?]].
Qed.

Lemma get_limits_wp s project (Q : result (option Limits) string -> S -> Prop) :
  inv s -> healthy s ->
  (forall s', inv s' -> healthy s' -> abs s' = abs s -> Q (Ok (limits_spec (abs s) project)) s') ->
  wp (get_limits project) s Q.
Proof.
  intros Hs Hh HQ. unfold get_limits. apply wp_bind, wp_text.
  eapply wp_meets_healthy; [apply (get_meets (quota_key project))|done|done| |by intros ? ? ? ? []].
  intros o s' Hs' Hh' [Ha Ho]. simpl. apply wp_ret. rewrite Ho. apply HQ; auto.
Qed.

Lemma usage_wp s project (Q : result Usage string -> S -> Prop) :
  inv s -> healthy s ->
  (forall s', inv s' -> healthy s' -> abs s' = abs s -> Q (Ok (wrap (usage_spec (abs s) project))) s') ->
  wp (usage project) s Q.
Proof.
  intros Hs Hh HQ. unfold usage. apply wp_bind, wp_text.
  eapply wp_meets_healthy; [apply (list_meets "sandbox/")|done|done| |by intros ? ? ? ? []].
  intros kvs s' Hs' Hh' [Ha Hp]. simpl. apply wp_ret.
  rewrite (usage_of_spec (abs s)); [auto|by apply inv_awf|exact (Hp good_sandbox_prefix)].
Qed.

Lemma limit_test lim used : 0 <= lim -> (0 <? lim) && (lim <? used) = false <-> lim = 0 \/ used <= lim.
Proof.
  intros Hl. rewrite andb_false_iff, Z.ltb_ge, Z.ltb_ge. lia.
Qed.

Lemma exceeded_prefix project what unit used limit :
  starts_with QUOTA_EXCEEDED (exceeded project what unit used limit) = true.
Proof. apply (starts_with_app QUOTA_EXCEEDED). Qed.

Definition check_verdict (lim : option Limits) (u : Usage) (r : result unit string) : Prop :=
  match lim with
  | None => r = Ok tt
  | Some lim => (r = Ok tt /\ within lim u) \/
                (exists m, r = Err m /\ starts_with QUOTA_EXCEEDED m = true /\ ~ within lim u)
  end.

Definition nonneg (l : Limits) : Prop :=
  0 <= max_sandboxes l /\ 0 <= max_vcpus l /\ 0 <= max_mem_mib l /\ 0 <= max_storage_mib l.

Lemma check_wp s project v m st :
  inv s -> healthy s ->
  (forall lim, limits_spec (abs s) project = Some lim -> nonneg lim) ->
  u_in_u64 (usage_spec (abs s) project) ->
  u_in_u64 (uplus (usage_spec (abs s) project) (mkUsage 1 v m st)) ->
  wp (check project v m st) s (fun r s' => inv s' /\ healthy s' /\ abs s' = abs s /\
    check_verdict (limits_spec (abs s) project) (uplus (usage_spec (abs s) project) (mkUsage 1 v m st)) r).
Proof.
  intros Hs Hh Hnn Hu1 Hu2. unfold check. apply wp_bind, get_limits_wp; [done|done|].
  intros s1 Hs1 Hh1 Ha1. destruct (limits_spec (abs s) project) as [lim|]; [|by apply wp_ret].
  destruct (Hnn lim eq_refl) as (N1 & N2 & N3 & N4).
  apply wp_bind, usage_wp; [done|done|]. intros s2 Hs2 Hh2 Ha2. rewrite Ha1 in *.
  set (u := usage_spec (abs s) project) in *. destruct u as [c0 v0 m0 st0].
  unfold u_in_u64, in_u64, u64_max in Hu1, Hu2. simpl in Hu1, Hu2. unfold wrap; simpl.
  unfold u64_add. rewrite !as_u64_add_l, !as_u64_id by lia.
  pose proof (limit_test (max_sandboxes lim) (c0 + 1) N1) as T1.
  pose proof (limit_test (max_vcpus lim) (v0 + v) N2) as T2.
  pose proof (limit_test (max_mem_mib lim) (m0 + m) N3) as T3.
  pose proof (limit_test (max_storage_mib lim) (st0 + st) N4) as T4.
  unfold check_verdict, within; simpl.
  destruct ((0 <? max_sandboxes lim) && _); [|destruct ((0 <? max_vcpus lim) && _);
    [|destruct ((0 <? max_mem_mib lim) && _); [|destruct ((0 <? max_storage_mib lim) && _)]]];
    (do 3 (split; [done|]));
    try (right; eexists; split; [reflexivity|]; split; [apply exceeded_prefix|];
         intros (W1 & W2 & W3 & W4);
         first [by apply T1 in W1 | by apply T2 in W2 | by apply T3 in W3 | by apply T4 in W4]).
  left. split; [done|]. split; [by apply T1|]. split; [by apply T2|]. split; [by apply T3|by apply T4].
Qed.

(** Storing limits and reading them back. *)
Lemma limits_roundtrip `{!SerdeJsonLaws} l :
  in_u64 (max_sandboxes l) -> in_u64 (max_vcpus l) -> in_u64 (max_mem_mib l) -> in_u64 (max_storage_mib l) ->
  limits_of_bytes (render (limits_json l)) = Some l.
Proof.
  intros L1 L2 L3 L4. unfold limits_of_bytes. rewrite from_slice_render.
  - destruct l as [a b c d]; simpl in *. unfold limits_json; simpl.
    rewrite (get_u64_field _ "max_sandboxes" a), (get_u64_field _ "max_vcpus" b),
      (get_u64_field _ "max_mem_mib" c), (get_u64_field _ "max_storage_mib" d); done.
  - apply wf_nums. repeat constructor; eexists; done.
Qed.
End Check.

Lemma limits_nonneg `{SerdeJsonLaws} a project lim : limits_spec a project = Some lim -> nonneg lim.
Proof.
  unfold limits_spec, limits_of_bytes. destruct (a_kv a !! quota_key project) as [kv|]; [|done].
  destruct (from_slice (kv_value kv)) as [v|]; [|done]. intros [= <-]. unfold nonneg; simpl.
  repeat split; apply get_u64_range.
Qed.

(** C36: the quota check is exact.  On a store that answers, [check] lets the
    request pass exactly when the project has no limits or when its usage, summed
    over the metadata and size keys of the sandboxes tagged with that project and
    no others, plus one sandbox and the requested amounts, stays within every
    limit that is set; otherwise it fails with [QUOTA_EXCEEDED].  The store is
    not changed. *)
Theorem quota_check_exact {S : Type} `{StoreLaws S} `{SerdeJsonLaws} (s : S) (project : string) (v m st : Z) :
  inv s -> healthy s ->
  u_in_u64 (usage_spec (abs s) project) ->
  u_in_u64 (uplus (usage_spec (abs s) project) (mkUsage 1 v m st)) ->
  exists r s', check project v m st s = (r, s') /\ abs s' = abs s /\
    check_verdict (limits_spec (abs s) project) (uplus (usage_spec (abs s) project) (mkUsage 1 v m st)) r.
Proof.
  intros Hs Hh Hu1 Hu2.
  pose proof (check_wp s project v m st Hs Hh (limits_nonneg (abs s) project) Hu1 Hu2) as G.
  unfold wp in G. destruct (check project v m st s) as [r s']. exists r, s'. simpl in G. intuition.
Qed.

(**  limits round trip: after [set_limits] succeeds, [get_limits] returns the
    same four numbers, and no other project's limits change. *)
Theorem quota_limits_roundtrip {S : Type} `{StoreLaws S} `{SerdeJsonLaws} (s : S) (project : string) (l : Limits) :
  inv s -> healthy s ->
  in_u64 (max_sandboxes l) -> in_u64 (max_vcpus l) -> in_u64 (max_mem_mib l) -> in_u64 (max_storage_mib l) ->
  exists s', set_limits project l s = (Ok tt, s') /\
    (get_limits project s').1 = Ok (Some l) /\
    (forall p, p <> project -> (get_limits p s').1 = Ok (limits_spec (abs s) p)).
Proof.
  intros Hs Hh L1 L2 L3 L4.
  assert (wp (set_limits project l) s (fun r s' => inv s' /\ healthy s' /\ r = Ok tt /\
            abs s' = a_write (quota_key project) (render (limits_json l)) None (abs s))) as G.
  { unfold set_limits. apply wp_bind, wp_text.
    eapply wp_meets_healthy; [apply (put_meets (quota_key project))|done|done| |by intros ? ? ? ? [? _]].
    intros rev s' Hs' Hh' (_ & Ha & _). by apply wp_ret. }
  unfold wp in G. destruct (set_limits project l s) as [r s']. simpl in G.
  destruct G as (Hs' & Hh' & -> & Ha). exists s'. split; [done|].
  assert (forall p, (get_limits p s').1 = Ok (limits_spec (abs s') p)) as Hget.
  { intros p. exact (get_limits_wp s' p (fun r _ => r = Ok (limits_spec (abs s') p)) Hs' Hh' (fun _ _ _ _ => eq_refl)). }
  split; [|intros p Hp]; rewrite Hget; f_equal; unfold limits_spec; rewrite Ha, a_write_kv.
  - rewrite decide_True by done. by apply limits_roundtrip.
  - rewrite decide_False; [done|]. unfold quota_key. intros Heq. apply Hp. symmetry. by apply (app_inv_head_s "quota/").
Qed.

(** A project with two sandboxes and a limit of two. *)
Definition full_project : SqliteStore :=
  store_after
    [OPut "quota/p" (render (limits_json (mkLimits 2 0 0 0))) None;
     OPut "sandbox/s1/meta" (render (JObj [("vcpus"%string, JNum 2); ("mem_mib"%string, JNum 512)])) None;
     OPut "sandbox/s1/project" "p" None;
     OPut "sandbox/s2/meta" (render (JObj [("vcpus"%string, JNum 4); ("mem_mib"%string, JNum 256)])) None;
     OPut "sandbox/s2/project" "p" None;
     OPut "sandbox/s3/meta" (render (JObj [("vcpus"%string, JNum 8); ("mem_mib"%string, JNum 256)])) None;
     OPut "sandbox/s3/project" "q" None].

Import RefJson.

Lemma full_project_usage : usage_spec (abs full_project) "p" = mkUsage 2 6 768 0.
Proof. vm_compute. reflexivity. Qed.

Lemma full_project_limits : limits_spec (abs full_project) "p" = Some (mkLimits 2 0 0 0).
Proof. vm_compute. reflexivity. Qed.

Lemma quota_check_exact_witness :
  exists m s', check "p" 0 0 512 full_project = (Err m, s') /\ starts_with QUOTA_EXCEEDED m = true.
Proof.
  destruct (quota_check_exact full_project "p" 0 0 512) as (r & s' & H1 & _ & H3).
  - apply store_after_inv.
  - apply store_after_inv.
  - rewrite full_project_usage. unfold u_in_u64, in_u64, u64_max. simpl. lia.
  - rewrite full_project_usage. unfold u_in_u64, in_u64, u64_max. simpl. lia.
  - rewrite full_project_usage, full_project_limits in H3.
    destruct H3 as [[_ [Hw _]]|(m & -> & Hm & _)]; [simpl in Hw; lia|].
    exists m, s'. split; [exact H1|exact Hm].
Defined.

Lemma quota_limits_roundtrip_witness :
  exists s', set_limits "p" (mkLimits 3 8 4096 100) full_project = (Ok tt, s') /\
    (get_limits "p" s').1 = Ok (Some (mkLimits 3 8 4096 100)).
Proof.
  destruct (quota_limits_roundtrip full_project "p" (mkLimits 3 8 4096 100)) as (s' & H1 & H2 & _).
  - apply store_after_inv.
  - apply store_after_inv.
  - unfold in_u64, u64_max; simpl; lia.
  - unfold in_u64, u64_max; simpl; lia.
  - unfold in_u64, u64_max; simpl; lia.
  - unfold in_u64, u64_max; simpl; lia.
  - exists s'. split; [exact H1|exact H2].
Defined.
