(* ===== verification/Sched.v ===== *)
(** * Placement (crates/sl-node/src/sched.rs)

    The capacity nodes report in their heartbeat keys, the survey of what is
    allocated on each live node, and the choice of a node for a sandbox. *)

From Stdlib Require Import ZArith Lia Bool List String Ascii.
From stdpp Require Import base tactics list gmap strings sorting.
From S2P Require Import Prelude RustStr Utf8 Json Store Cluster Sqlite SqliteSpec StoreTheorems Quota.

Open Scope Z_scope.

Record Capacity : Type := mkCap { c_addr : string; c_cpus : Z; c_mem_mib : Z }.

Record NodeLoad : Type := mkLoad {
  n_id : string;
  n_cap : Capacity;
  n_sandboxes : Z;
  n_used_vcpus : Z;
  n_used_mem_mib : Z
}.

Record Policy : Type := mkPolicy { overcommit : Z }.
Definition default_policy : Policy := mkPolicy 1.

(** [Capacity::to_json]: the address is not escaped. *)
Definition cap_to_json (c : Capacity) : string :=
  "{" ++s quoted "addr" ++s ":" ++s quoted (c_addr c) ++s "," ++s quoted "cpus" ++s ":" ++s dec (c_cpus c)
      ++s "," ++s quoted "mem_mib" ++s ":" ++s dec (c_mem_mib c) ++s "}".

Definition cap_from_json `{SerdeJson} (b : string) : Capacity :=
  let v := match from_slice b with Some v => v | None => Value_Null end in
  mkCap (match get_str v "addr" with Some a => a | None => ""%string end)
        (get_u64_or_0 v "cpus") (get_u64_or_0 v "mem_mib").

(** [total as i64 - used as i64] with the saturating product of the capacity. *)
Definition free_mem_mib (n : NodeLoad) (oc : Z) : Z :=
  let total := u64_saturating_mul (c_mem_mib (n_cap n)) (Z.max oc 1) in
  as_i64 (as_i64 total - as_i64 (n_used_mem_mib n)).
Definition free_vcpus (n : NodeLoad) (oc : Z) : Z :=
  let total := u64_saturating_mul (c_cpus (n_cap n)) (Z.max oc 1) in
  as_i64 (as_i64 total - as_i64 (n_used_vcpus n)).

(** ** [survey] *)

Definition node_entry `{SerdeJson} (loads : gmap string NodeLoad) (kv : KeyValue) : gmap string NodeLoad :=
  match strip_prefix NODE_PREFIX (kv_key kv) with
  | Some id => <[id := mkLoad id (cap_from_json (kv_value kv)) 0 0 0]> loads
  | None => loads
  end.

Definition owner_entry (owner : gmap string string) (kv : KeyValue) : gmap string string :=
  match key_id "/node" (kv_key kv) with
  | Some sid => <[sid := from_utf8_lossy (kv_value kv)]> owner
  | None => owner
  end.

Definition charge_node `{SerdeJson} (kv : KeyValue) (n : NodeLoad) : NodeLoad :=
  let n1 := mkLoad (n_id n) (n_cap n) (u64_add (n_sandboxes n) 1) (n_used_vcpus n) (n_used_mem_mib n) in
  match from_slice (kv_value kv) with
  | Some v => mkLoad (n_id n1) (n_cap n1) (n_sandboxes n1)
                     (u64_add (n_used_vcpus n1) (get_u64_or_0 v "vcpus"))
                     (u64_add (n_used_mem_mib n1) (get_u64_or_0 v "mem_mib"))
  | None => n1
  end.

Definition load_entry `{SerdeJson} (owner : gmap string string) (loads : gmap string NodeLoad) (kv : KeyValue)
    : gmap string NodeLoad :=
  match key_id "/meta" (kv_key kv) with
  | Some sid => match owner !! sid with
                | Some o => alter (charge_node kv) o loads
                | None => loads
                end
  | None => loads
  end.

Definition id_le (a b : NodeLoad) : Prop := String.le (n_id a) (n_id b).
#[global] Instance id_le_dec a b : Decision (id_le a b).
Proof. unfold id_le. apply _. Defined.

Definition tally `{SerdeJson} (nodes kvs : list KeyValue) : gmap string NodeLoad :=
  fold_left (load_entry (fold_left owner_entry kvs ∅)) kvs (fold_left node_entry nodes ∅).

Definition survey {S} `{Store S} `{SerdeJson} : M S string (list NodeLoad) :=
  let? nodes := text (list_prefix NODE_PREFIX) in
  if bool_decide (fold_left node_entry nodes ∅ = (∅ : gmap string NodeLoad)) then mret []
  else
    let? kvs := text (list_prefix "sandbox/") in
    mret (merge_sort id_le (map snd (map_to_list (tally nodes kvs)))).

(** ** [place] *)

(** The comparison of the sort: more free memory, then fewer sandboxes, then this
    node, then the smaller id. *)
Definition cmp_then (a b : comparison) : comparison := match a with Eq => b | _ => a end.
Definition bool_compare (a b : bool) : comparison :=
  match a, b with
  | false, true => Lt
  | true, false => Gt
  | _, _ => Eq
  end.

Definition prefer (oc : Z) (self_id : string) (a b : NodeLoad) : comparison :=
  cmp_then (Z.compare (free_mem_mib b oc) (free_mem_mib a oc))
    (cmp_then (Z.compare (n_sandboxes a) (n_sandboxes b))
      (cmp_then (bool_compare (negb (String.eqb (n_id a) self_id)) (negb (String.eqb (n_id b) self_id)))
        (String.compare (n_id a) (n_id b)))).

Definition before (oc : Z) (self_id : string) (a b : NodeLoad) : Prop := prefer oc self_id a b <> Gt.
#[global] Instance before_dec oc self_id a b : Decision (before oc self_id a b).
Proof. unfold before. apply _. Defined.

Definition fits (oc vcpus mem : Z) (n : NodeLoad) : bool :=
  ((0 <? c_mem_mib (n_cap n)) && (0 <? c_cpus (n_cap n))) &&
  (as_i64 mem <=? free_mem_mib n oc) && (as_i64 vcpus <=? free_vcpus n oc).

Definition place (nodes : list NodeLoad) (vcpus mem : Z) (self_id : string) (p : Policy) : option string :=
  match merge_sort (before (overcommit p) self_id) (List.filter (fits (overcommit p) vcpus mem) nodes) with
  | [] => None
  | n :: _ => Some (n_id n)
  end.

(** ** The order *)

Lemma bool_compare_antisym a b : bool_compare a b = CompOpp (bool_compare b a).
Proof. by destruct a, b. Qed.

Lemma cmp_then_opp a b : CompOpp (cmp_then a b) = cmp_then (CompOpp a) (CompOpp b).
Proof. by destruct a, b. Qed.

Lemma prefer_antisym oc self a b : prefer oc self a b = CompOpp (prefer oc self b a).
Proof.
  unfold prefer. rewrite !cmp_then_opp, <- !Z.compare_antisym, <- bool_compare_antisym,
    <- String.compare_antisym. done.
Qed.

#[global] Instance before_total oc self : Total (before oc self).
Proof.
  intros a b. unfold before. rewrite (prefer_antisym oc self a b).
  destruct (prefer oc self b a); simpl; [left|right|left]; done.
Qed.

Lemma string_compare_trans a b c :
  String.compare a b <> Gt -> String.compare b c <> Gt -> String.compare a c <> Gt.
Proof.
  assert (forall x y, String.compare x y <> Gt <-> String.le x y) as Hle.
  { intros x y. unfold String.le, String.leb. destruct (String.compare x y); simpl; split; try done; intros Hx; by destruct Hx. }
  rewrite !Hle. apply (transitivity (R:=String.le)).
Qed.

Lemma string_compare_eq a b : String.compare a b = Eq <-> a = b.
Proof.
  split; [apply String.compare_eq_iff|]. intros ->.
  pose proof (String.compare_antisym b b) as H. destruct (String.compare b b); done.
Qed.

(** A lexicographic step keeps transitivity. *)
Definition trans3 (c12 c23 c13 : comparison) : Prop :=
  (c12 <> Gt -> c23 <> Gt -> c13 <> Gt) /\ (c12 = Eq -> c23 = Eq -> c13 = Eq) /\
  (c12 = Lt -> c23 <> Gt -> c13 = Lt) /\ (c12 <> Gt -> c23 = Lt -> c13 = Lt).

Lemma trans3_then a12 a23 a13 b12 b23 b13 :
  trans3 a12 a23 a13 -> trans3 b12 b23 b13 -> trans3 (cmp_then a12 b12) (cmp_then a23 b23) (cmp_then a13 b13).
Proof.
  unfold trans3. intros (A1 & A2 & A3 & A4) (B1 & B2 & B3 & B4).
  destruct a12, a23; simpl;
    try (rewrite A2 by done); try (rewrite A3 by done); try (rewrite A4 by done); simpl; done.
Qed.

Lemma trans3_Z a b c : trans3 (Z.compare a b) (Z.compare b c) (Z.compare a c).
Proof.
  unfold trans3.
  destruct (Z.compare_spec a b), (Z.compare_spec b c), (Z.compare_spec a c); repeat split; intros; try done; lia.
Qed.

Lemma trans3_bool a b c : trans3 (bool_compare a b) (bool_compare b c) (bool_compare a c).
Proof. unfold trans3. destruct a, b, c; simpl; repeat split; done. Qed.

Lemma trans3_str a b c : trans3 (String.compare a b) (String.compare b c) (String.compare a c).
Proof.
  pose proof (string_compare_trans a b c) as H1. unfold trans3. split; [done|].
  split; [rewrite !string_compare_eq; congruence|].
  split; intros E1 E2.
  - destruct (String.compare a c) eqn:E3; [|done|by exfalso; apply H1; rewrite ?E1].
    apply string_compare_eq in E3. subst c. rewrite String.compare_antisym, E1 in E2. done.
  - destruct (String.compare a c) eqn:E3; [|done|by exfalso; apply H1; rewrite ?E2].
    apply string_compare_eq in E3. subst c. rewrite String.compare_antisym, E2 in E1. done.
Qed.

Lemma prefer_trans3 oc self a b c : trans3 (prefer oc self a b) (prefer oc self b c) (prefer oc self a c).
Proof.
  unfold prefer. repeat apply trans3_then; auto using trans3_bool, trans3_str, trans3_Z.
  pose proof (trans3_Z (free_mem_mib c oc) (free_mem_mib b oc) (free_mem_mib a oc)) as (H1 & H2 & H3 & H4).
  unfold trans3. auto.
Qed.

#[global] Instance before_trans oc self : Transitive (before oc self).
Proof. intros a b c. apply (prefer_trans3 oc self a b c). Qed.

(** ** What [place] chooses *)

Lemma place_cases nodes v m self p :
  match place nodes v m self p with
  | None => forall n, In n nodes -> fits (overcommit p) v m n = false
  | Some id => exists n, In n nodes /\ n_id n = id /\ fits (overcommit p) v m n = true /\
      forall n', In n' nodes -> fits (overcommit p) v m n' = true -> before (overcommit p) self n n'
  end.
Proof.
  unfold place. set (R := before (overcommit p) self). set (l := List.filter _ nodes).
  pose proof (StronglySorted_merge_sort R l) as Hs. pose proof (merge_sort_Permutation R l) as Hp.
  assert (forall n, In n l <-> In n nodes /\ fits (overcommit p) v m n = true) as Hl by (intros; apply filter_In).
  destruct (merge_sort R l) as [|n rest].
  - intros n Hn. destruct (fits _ _ _ n) eqn:E; [|done]. exfalso.
    apply Permutation_nil in Hp. pose proof (proj2 (Hl n) (conj Hn E)) as Hx. by rewrite Hp in Hx.
  - assert (In n l) as Hn%Hl by (apply list_elem_of_In; rewrite <- Hp; constructor).
    exists n. split; [tauto|]. split; [done|]. split; [tauto|]. intros n' Hn' Hf.
    assert (n' ∈ n :: rest) as Hin by (rewrite Hp; apply list_elem_of_In, Hl; auto).
    apply StronglySorted_inv in Hs as [_ Hs]. rewrite List.Forall_forall in Hs.
    apply elem_of_cons in Hin as [->|Hin]; [|by apply Hs, list_elem_of_In].
    unfold R, before. rewrite prefer_antisym. intros Hg.
    pose proof (prefer_antisym (overcommit p) self n n) as Ha. rewrite <- prefer_antisym in Hg. rewrite Hg in Ha. done.
Qed.

(** Numbers the placement arithmetic is exact for. *)
Definition small (n : NodeLoad) (oc : Z) : Prop :=
  0 <= c_mem_mib (n_cap n) /\ c_mem_mib (n_cap n) * Z.max oc 1 <= i64_max /\
  0 <= c_cpus (n_cap n) /\ c_cpus (n_cap n) * Z.max oc 1 <= i64_max /\
  0 <= n_used_mem_mib n <= i64_max /\ 0 <= n_used_vcpus n <= i64_max.

Definition has_room (oc vcpus mem : Z) (n : NodeLoad) : Prop :=
  0 < c_mem_mib (n_cap n) /\ 0 < c_cpus (n_cap n) /\
  n_used_mem_mib n + mem <= c_mem_mib (n_cap n) * Z.max oc 1 /\
  n_used_vcpus n + vcpus <= c_cpus (n_cap n) * Z.max oc 1.

Lemma free_exact cap used oc :
  0 <= cap -> cap * Z.max oc 1 <= i64_max -> 0 <= used <= i64_max ->
  as_i64 (as_i64 (u64_saturating_mul cap (Z.max oc 1)) - as_i64 used) = cap * Z.max oc 1 - used.
Proof.
  intros H1 H2 H3. unfold u64_saturating_mul. rewrite Z.min_r by (unfold i64_max, u64_max in *; lia).
  assert (0 <= cap * Z.max oc 1) by (apply Z.mul_nonneg_nonneg; lia).
  unfold i64_max in *. rewrite !(as_i64_id _); [done|..]; unfold in_i64, i64_min, i64_max; try lia.
  rewrite !(as_i64_id _); unfold in_i64, i64_min, i64_max; lia.
Qed.

Lemma fits_exact oc v m n :
  small n oc -> 0 <= v <= i64_max -> 0 <= m <= i64_max -> fits oc v m n = true <-> has_room oc v m n.
Proof.
  intros (H1 & H2 & H3 & H4 & H5 & H6) Hv Hm. unfold fits, has_room, free_mem_mib, free_vcpus.
  rewrite !free_exact by done. rewrite !(as_i64_id v), !(as_i64_id m) by (unfold in_i64, i64_min, i64_max in *; lia).
  rewrite !andb_true_iff, !Z.ltb_lt, !Z.leb_le. lia.
Qed.

(** ** What [survey] reports *)

Definition owner_of (a : AStore) (sid : string) : option string :=
  (fun kv => from_utf8_lossy (kv_value kv)) <$> a_kv a !! sandbox_key sid "node".

(** The key is the metadata of a sandbox that node [id] owns. *)
Definition hosted (a : AStore) (id key : string) : Prop :=
  exists sid, key_id "/meta" key = Some sid /\ owner_of a sid = Some id.

#[global] Instance hosted_dec a id key : Decision (hosted a id key).
Proof.
  destruct (key_id "/meta" key) as [sid|] eqn:E.
  - destruct (decide (owner_of a sid = Some id)) as [Hp|Hp].
    + left. by exists sid.
    + right. intros (sid' & E' & Hp'). congruence.
  - right. intros (sid' & E' & _). congruence.
Defined.

Section Survey.
Context `{SerdeJson}.

(** The configured size of everything a node owns. *)
Definition node_usage (a : AStore) (id : string) : Usage :=
  usum (map (fun p => amount p.2) (map_to_list (filter (fun p => hosted a id p.1) (a_kv a)))).

Definition loaded (n : NodeLoad) (u : Usage) : NodeLoad :=
  mkLoad (n_id n) (n_cap n) (as_u64 (u_count u)) (as_u64 (u_vcpus u)) (as_u64 (u_mem u)).

(** The load of the node with liveness key [kv]. *)
Definition load_spec (a : AStore) (id : string) (kv : KeyValue) : NodeLoad :=
  loaded (mkLoad id (cap_from_json (kv_value kv)) 0 0 0) (node_usage a id).

Lemma charge_loaded kv n u sid :
  key_id "/meta" (kv_key kv) = Some sid -> charge_node kv (loaded n u) = loaded n (uplus u (amount kv)).
Proof.
  intros E. unfold charge_node, amount, loaded, uplus, u64_add. rewrite E.
  destruct (from_slice (kv_value kv)); simpl; by rewrite ?as_u64_add_l, ?Z.add_0_r.
Qed.

Lemma fold_load owner kvs loads o n u :
  loads !! o = Some (loaded n u) ->
  fold_left (load_entry owner) kvs loads !! o =
    Some (loaded n (uplus u (usum (map amount (List.filter (fun kv =>
      match key_id "/meta" (kv_key kv) with Some sid => bool_decide (owner !! sid = Some o) | None => false end) kvs))))).
Proof.
  revert loads u; induction kvs as [|kv kvs IH]; intros loads u Hl; cbn [fold_left List.filter map usum foldr].
  - by rewrite uplus_comm, uplus_zero.
  - unfold load_entry at 2. destruct (key_id "/meta" (kv_key kv)) as [sid|] eqn:E; [|by apply IH].
    destruct (owner !! sid) as [o'|] eqn:Eo; [|by apply IH]. case_bool_decide as Ho.
    + injection Ho as ->. cbn [map usum foldr]. rewrite uplus_assoc. apply IH. rewrite lookup_alter_eq, Hl. simpl.
      f_equal. by eapply charge_loaded.
    + apply IH. rewrite lookup_alter_ne; [done|]. congruence.
Qed.

Lemma fold_load_none owner kvs loads o :
  loads !! o = None -> fold_left (load_entry owner) kvs loads !! o = None.
Proof.
  revert loads; induction kvs as [|kv kvs IH]; intros loads Hl; [done|]. cbn [fold_left]. apply IH.
  unfold load_entry. destruct (key_id "/meta" (kv_key kv)); [|done]. destruct (owner !! _) as [o'|]; [|done].
  destruct (decide (o' = o)) as [->|]; [rewrite lookup_alter_eq, Hl; done|by rewrite lookup_alter_ne].
Qed.

Lemma node_entries a nodes id :
  awf a -> lists a NODE_PREFIX nodes ->
  fold_left node_entry nodes ∅ !! id =
    (fun kv => mkLoad id (cap_from_json (kv_value kv)) 0 0 0) <$> a_kv a !! node_key id.
Proof.
  intros Hwf Hl.
  rewrite (fold_index node_entry (strip_prefix NODE_PREFIX) node_key
             (fun id kv => mkLoad id (cap_from_json (kv_value kv)) 0 0 0)); [|done| |apply sorted_by_key_NoDup, Hl].
  - rewrite (lists_find a NODE_PREFIX) by done. unfold node_key at 1. rewrite (starts_with_app "node/").
    rewrite lookup_empty. by destruct (a_kv a !! node_key id).
  - intros key id'. apply strip_prefix_some.
Qed.

Lemma owner_entries a kvs sid :
  awf a -> lists a "sandbox/" kvs -> fold_left owner_entry kvs ∅ !! sid = owner_of a sid.
Proof.
  intros Hwf Hl.
  rewrite (fold_index owner_entry (key_id "/node") (fun sid => sandbox_key sid "node")
             (fun _ kv => from_utf8_lossy (kv_value kv))); [|done| |apply sorted_by_key_NoDup, Hl].
  - rewrite (lists_find a "sandbox/"), sandbox_key_prefix by done. rewrite lookup_empty. unfold owner_of.
    by destruct (a_kv a !! sandbox_key sid "node").
  - intros key id'. apply key_id_some.
Qed.

Lemma tally_spec a nodes kvs id :
  awf a -> lists a NODE_PREFIX nodes -> lists a "sandbox/" kvs ->
  tally nodes kvs !! id = load_spec a id <$> a_kv a !! node_key id.
Proof.
  intros Hwf Hn Hk. unfold tally. pose proof (node_entries a nodes id Hwf Hn) as He.
  destruct (a_kv a !! node_key id) as [kv|]; simpl in *; [|by apply fold_load_none].
  rewrite (fold_load _ kvs _ id (mkLoad id (cap_from_json (kv_value kv)) 0 0 0) uzero He).
  rewrite uplus_zero. unfold load_spec, node_usage. f_equal. f_equal.
  rewrite <- List.map_map with (f := snd) (g := amount). apply usum_perm, (fmap_Permutation amount).
  eapply lists_perm; [done|done|]. intros x Hx. unfold hosted.
  destruct (key_id "/meta" (kv_key x)) as [sid|] eqn:E.
  - rewrite owner_entries with (a := a) by done. rewrite bool_decide_eq_true. split.
    + intros (sid' & [= <-] & Hp). split; [|done]. apply key_id_some in E as ->. apply (starts_with_app "sandbox/").
    + intros [_ Hp]. by exists sid.
  - split; [by intros (? & ? & _)|by intros [_ ?]].
Qed.
End Survey.

#[global] Instance id_le_trans : Transitive id_le.
Proof. intros x y z. unfold id_le. apply (transitivity (R:=String.le)). Qed.
#[global] Instance id_le_total : Total id_le.
Proof. intros x y. unfold id_le. apply (total String.le). Qed.

Section SurveyProof.
Context {S : Type} `{StoreLaws S} `{SerdeJson}.

(** The loads a survey returns are those of the live nodes. *)
Definition surveyed (a : AStore) (out : list NodeLoad) : Prop :=
  StronglySorted id_le out /\ NoDup (map n_id out) /\
  forall n, In n out <-> exists kv, a_kv a !! node_key (n_id n) = Some kv /\ n = load_spec a (n_id n) kv.

Lemma surveyed_values a (m : gmap string NodeLoad) :
  (forall id, m !! id = load_spec a id <$> a_kv a !! node_key id) ->
  surveyed a (merge_sort id_le (map snd (map_to_list m))).
Proof.
  intros Hm. pose proof (merge_sort_Permutation id_le (map snd (map_to_list m))) as Hp.
  split; [apply StronglySorted_merge_sort; apply _|]. split.
  - rewrite Hp. replace (map n_id (map snd (map_to_list m))) with ((map_to_list m).*1);
      [apply NoDup_fst_map_to_list|]. rewrite List.map_map. apply list_fmap_ext. intros i [id n] Hi.
    apply list_elem_of_lookup_2, elem_of_map_to_list in Hi. rewrite Hm in Hi. simpl.
    destruct (a_kv a !! node_key id); [|done]. injection Hi as <-. done.
  - intros n. rewrite <- list_elem_of_In, Hp, list_elem_of_In, in_map_iff. split.
    + intros ([id n'] & Heq & Hi%list_elem_of_In%elem_of_map_to_list). simpl in Heq. subst n'. rewrite Hm in Hi.
      destruct (a_kv a !! node_key id) as [kv|] eqn:E; [|done]. injection Hi as <-. by exists kv.
    + intros (kv & Hkv & Hn). exists (n_id n, n). split; [done|].
      apply list_elem_of_In, elem_of_map_to_list. rewrite Hm, Hkv. simpl. by f_equal.
Qed.

Lemma survey_wp s :
  inv s -> healthy s ->
  wp survey s (fun r s' => inv s' /\ healthy s' /\ abs s' = abs s /\ exists out, r = Ok out /\ surveyed (abs s) out).
Proof.
  intros Hs Hh. unfold survey. apply wp_bind, wp_text.
  eapply wp_meets_healthy; [apply (list_meets NODE_PREFIX)|done|done| |by intros ? ? ? ? []].
  intros nodes s1 Hs1 Hh1 [Ha1 Hp1]. simpl. pose proof (inv_awf s Hs) as Hwf.
  assert (lists (abs s) NODE_PREFIX nodes) as Hl1 by exact (Hp1 good_node_prefix).
  case_bool_decide as He.
  - apply wp_ret. do 3 (split; [done|]). exists []. split; [done|]. split; [constructor|]. split; [constructor|].
    intros n. split; [done|]. intros (kv & Hkv & _). pose proof (node_entries (abs s) nodes (n_id n) Hwf Hl1) as Hx.
    by rewrite He, Hkv, lookup_empty in Hx.
  - apply wp_bind, wp_text. rewrite <- Ha1 in Hwf.
    eapply wp_meets_healthy; [apply (list_meets "sandbox/")|done|done| |by intros ? ? ? ? []].
    intros kvs s2 Hs2 Hh2 [Ha2 Hp2]. simpl. apply wp_ret. split; [done|]. split; [done|]. split; [congruence|].
    eexists. split; [done|]. apply surveyed_values. intros id. rewrite Ha1 in *.
    apply tally_spec; [done|done|]. exact (Hp2 good_sandbox_prefix).
Qed.
End SurveyProof.

(**  the survey is exact: on a store that answers, it returns one load per
    live node, in id order, with the capacity the node's heartbeat key reports and
    the number, vCPUs and memory of exactly the sandboxes whose ownership key
    names that node (sums modulo 2^64). *)
Theorem survey_exact {S : Type} `{StoreLaws S} `{SerdeJson} (s : S) :
  inv s -> healthy s -> exists out s', survey s = (Ok out, s') /\ surveyed (abs s) out.
Proof.
  intros Hs Hh. pose proof (survey_wp s Hs Hh) as G. unfold wp in G. destruct (survey s) as [r s'].
  simpl in G. destruct G as (_ & _ & _ & out & -> & Hout). by exists out, s'.
Qed.

(**  placement respects capacity and prefers free memory.  With figures that
    fit in 63 bits, [place] returns a node that has room for the request in
    memory and vCPUs (times the overcommit factor), and every other node with
    room comes after it in the order: at most as much free memory, and on a tie
    at least as many sandboxes, then any node but this one, then larger id.  It
    returns nothing only if no node has room. *)
Theorem place_best (nodes : list NodeLoad) (vcpus mem : Z) (self_id : string) (p : Policy) :
  Forall (fun n => small n (overcommit p)) nodes -> 0 <= vcpus <= i64_max -> 0 <= mem <= i64_max ->
  match place nodes vcpus mem self_id p with
  | None => forall n, In n nodes -> ~ has_room (overcommit p) vcpus mem n
  | Some id => exists n, In n nodes /\ n_id n = id /\ has_room (overcommit p) vcpus mem n /\
      forall n', In n' nodes -> has_room (overcommit p) vcpus mem n' ->
        prefer (overcommit p) self_id n n' <> Gt /\
        c_mem_mib (n_cap n') * Z.max (overcommit p) 1 - n_used_mem_mib n' <=
        c_mem_mib (n_cap n) * Z.max (overcommit p) 1 - n_used_mem_mib n
  end.
Proof.
  intros Hsm Hv Hm. rewrite List.Forall_forall in Hsm.
  pose proof (place_cases nodes vcpus mem self_id p) as Hp. destruct (place nodes vcpus mem self_id p) as [id|].
  - destruct Hp as (n & Hn & Hid & Hf & Hmin). exists n. split; [done|]. split; [done|].
    split; [by apply fits_exact; auto|]. intros n' Hn' Hr.
    assert (before (overcommit p) self_id n n') as Hb by (apply Hmin; [done|]; apply fits_exact; auto).
    split; [exact Hb|]. unfold before, prefer in Hb.
    destruct (Hsm n Hn) as (A1 & A2 & _ & _ & A3 & _), (Hsm n' Hn') as (B1 & B2 & _ & _ & B3 & _).
    pose proof (free_exact _ _ (overcommit p) A1 A2 A3) as F1.
    pose proof (free_exact _ _ (overcommit p) B1 B2 B3) as F2.
    unfold free_mem_mib in Hb. rewrite F1, F2 in Hb.
    destruct (Z.compare_spec (c_mem_mib (n_cap n') * Z.max (overcommit p) 1 - n_used_mem_mib n')
                (c_mem_mib (n_cap n) * Z.max (overcommit p) 1 - n_used_mem_mib n)); [lia|lia|done].
  - intros n Hn Hr. apply (fits_exact (overcommit p)) in Hr; auto. rewrite Hp in Hr; done.
Qed.

Definition demo_nodes : list NodeLoad :=
  [mkLoad "a" (mkCap "" 8 4096) 1 2 2048; mkLoad "b" (mkCap "" 8 4096) 0 0 0; mkLoad "old" (mkCap "" 0 0) 0 0 0].

Lemma place_best_witness :
  exists n, In n demo_nodes /\ n_id n = "b"%string /\ has_room 1 2 512 n.
Proof.
  pose proof (place_best demo_nodes 2 512 "a" default_policy) as H.
  assert (place demo_nodes 2 512 "a" default_policy = Some "b"%string) as E by (vm_compute; reflexivity).
  rewrite E in H. destruct H as (n & H1 & H2 & H3 & _).
  - repeat constructor; vm_compute; try discriminate; split; discriminate.
  - unfold i64_max. lia.
  - unfold i64_max. lia.
  - exists n. split; [exact H1|]. split; [exact H2|exact H3].
Defined.

Import RefJson.

Definition two_hosts : SqliteStore :=
  store_after
    [OPut "node/a" (cap_to_json (mkCap "10.0.0.1" 8 4096)) None;
     OPut "node/b" (cap_to_json (mkCap "10.0.0.2" 8 4096)) None;
     OPut "sandbox/s1/meta" (render (JObj [("vcpus"%string, JNum 2); ("mem_mib"%string, JNum 512)])) None;
     OPut "sandbox/s1/node" "a" None].

Lemma survey_exact_witness :
  exists out s', survey two_hosts = (Ok out, s') /\ surveyed (abs two_hosts) out /\
    out = [mkLoad "a" (mkCap "10.0.0.1" 8 4096) 1 2 512; mkLoad "b" (mkCap "10.0.0.2" 8 4096) 0 0 0].
Proof.
  destruct (survey_exact two_hosts) as (out & s' & H1 & H2).
  - apply store_after_inv.
  - apply store_after_inv.
  - exists out, s'. split; [exact H1|]. split; [exact H2|].
    assert ((survey two_hosts).1 = Ok out) as H3 by (by rewrite H1).
    clear H1 H2. vm_compute in H3. injection H3 as <-. reflexivity.
Defined.

(** A capacity whose product with the overcommit factor passes 2^63 reads as
    negative free memory, and the node is left out although it is the largest. *)
Lemma huge_capacity_excluded :
  place [mkLoad "big" (mkCap "" 64 (2 ^ 62)) 0 0 0] 1 512 "x" (mkPolicy 4) = None.
Proof. vm_compute. reflexivity. Qed.
