(* ===== verification/Auth.v ===== *)
(** * API keys (crates/sl-node/src/auth.rs)

    Scopes, key records and their encoding, creation and lookup of keys.  The
    hash is the parameter [Sha256]: a key of the store is the hex of the hash of
    the token.  The random bytes of a new token are an argument. *)

From Stdlib Require Import ZArith Lia Bool List String Ascii.
From stdpp Require Import base tactics list gmap strings sorting.
From S2P Require Import Prelude RustStr Utf8 Store Sqlite SqliteSpec StoreTheorems.

Open Scope Z_scope.

Inductive Op : Type := OpRead | OpWrite | OpBuild.
Inductive Scope : Type := ReadOnly | ReadWrite | Build.

#[global] Instance Scope_eq_dec : EqDecision Scope.
Proof. solve_decision. Defined.

Definition scope_as_str (s : Scope) : string :=
  match s with
  | ReadOnly => "readonly"
  | ReadWrite => "readwrite"
  | Build => "build"
  end.

Definition scope_from_str (s : string) : option Scope :=
  if String.eqb s "readonly" then Some ReadOnly
  else if String.eqb s "readwrite" then Some ReadWrite
  else if String.eqb s "build" then Some Build
  else None.

Definition rank (s : Scope) : Z := match s with ReadOnly => 0 | ReadWrite => 1 | Build => 2 end.

Definition allows (s : Scope) (op : Op) : bool :=
  match op with
  | OpRead => true
  | OpWrite => 1 <=? rank s
  | OpBuild => bool_decide (s = Build)
  end.

Record ApiKeyRecord : Type := mkKey { k_org : string; k_project : string; k_scope : Scope }.

(** Lower-case hex of bytes ([crate::hex]). *)
Definition hex_digit (n : Z) : ascii := if n <? 10 then byte_of (48 + n) else byte_of (87 + n).
Fixpoint hex (bytes : string) : string :=
  match bytes with
  | EmptyString => ""
  | String b r => String (hex_digit (byte_val b / 16)) (String (hex_digit (byte_val b mod 16)) (hex r))
  end.

Definition unit_sep : ascii := ascii_of_nat 31.

Definition encode (rec : ApiKeyRecord) : string :=
  k_org rec ++s String unit_sep (k_project rec ++s String unit_sep (scope_as_str (k_scope rec))).

Definition decode (v : string) : option ApiKeyRecord :=
  match split unit_sep (from_utf8_lossy v) with
  | [org; project; scope] =>
      option_map (fun sc => mkKey org project sc) (scope_from_str scope)
  | _ => None
  end.

Section Ops.
Context (Sha256 : string -> string) {S : Type} `{Store S}.

Definition key_store_key (token : string) : string := "apikey/" ++s hex (Sha256 token).

(** [random] is what [host_random] fills the 32-byte buffer with; the token is
    returned in clear this once. *)
Definition create_key (random : string) (org project : string) (scope : Scope) : M S string string :=
  let token := hex random in
  let rec := mkKey org project scope in
  let? _ := text (put (key_store_key token) (encode rec) None) in
  mret token.

Definition lookup_key (token : string) : M S string (option ApiKeyRecord) :=
  let? kv := text (get (key_store_key token)) in
  mret (match kv with Some kv => decode (kv_value kv) | None => None end).
End Ops.

(** ** Facts *)

Lemma scope_roundtrip s : scope_from_str (scope_as_str s) = Some s.
Proof. by destruct s. Qed.

Lemma hex_length s : String.length (hex s) = (2 * String.length s)%nat.
Proof. induction s as [|c s IH]; [done|]. cbn [hex String.length]. rewrite IH. lia. Qed.

Lemma hex_digit_inj a b : 0 <= a < 16 -> 0 <= b < 16 -> hex_digit a = hex_digit b -> a = b.
Proof.
  intros Ha Hb H. apply (f_equal byte_val) in H. unfold hex_digit in H.
  destruct (Z.ltb_spec a 10), (Z.ltb_spec b 10); rewrite !byte_val_of in H; lia.
Qed.

(** The hex of bytes determines them. *)
Lemma hex_inj a b : hex a = hex b -> a = b.
Proof.
  revert b; induction a as [|x a IH]; intros [|y b] H; [done|done|done|]. cbn [hex] in H.
  injection H as H1 H2 H3. pose proof (byte_val_range x). pose proof (byte_val_range y).
  apply hex_digit_inj in H1; [|split; [apply Z.div_pos; lia|apply Z.div_lt_upper_bound; lia]..].
  apply hex_digit_inj in H2; [|apply Z.mod_pos_bound; lia..].
  f_equal; [|by apply IH]. apply byte_val_inj.
  rewrite (Z.div_mod (byte_val x) 16), (Z.div_mod (byte_val y) 16) by lia. lia.
Qed.

Lemma hex_no_char c s : (forall d, 0 <= d < 16 -> c <> hex_digit d) -> contains_char c (hex s) = false.
Proof.
  intros Hc. assert (forall d, 0 <= d < 16 -> Ascii.eqb c (hex_digit d) = false) as Hd by (intros d Hd; apply Ascii.eqb_neq, Hc, Hd).
  induction s as [|b s IH]; [done|]. cbn [hex contains_char]. pose proof (byte_val_range b) as Hb.
  rewrite (Hd (byte_val b / 16)) by (split; [apply Z.div_pos; lia|apply Z.div_lt_upper_bound; lia]).
  rewrite (Hd (byte_val b mod 16)) by (apply Z.mod_pos_bound; lia). exact IH.
Qed.

Lemma not_hex (c : ascii) : byte_val c < 48 \/ (57 < byte_val c < 97) -> forall d, 0 <= d < 16 -> c <> hex_digit d.
Proof.
  intros Hc d Hd ->. unfold hex_digit in Hc. destruct (d <? 10) eqn:E; bool_prop; rewrite byte_val_of in Hc by lia; lia.
Qed.

(** Names the encoding can carry: text without the separator. *)
Definition plain_name (s : string) : Prop := valid_utf8 s = true /\ contains_char unit_sep s = false.

Lemma scope_str_plain s : plain_name (scope_as_str s).
Proof. by destruct s. Qed.

Lemma decode_encode rec :
  plain_name (k_org rec) -> plain_name (k_project rec) -> decode (encode rec) = Some rec.
Proof.
  destruct rec as [o p sc]. intros [Ho1 Ho2] [Hp1 Hp2]. unfold decode, encode; simpl in *.
  destruct (scope_str_plain sc) as [Hs1 Hs2].
  rewrite from_utf8_lossy_valid.
  - rewrite split_sep_app, split_sep_app, split_no_sep by done. simpl. by rewrite scope_roundtrip.
  - apply valid_utf8_app; [done|]. apply (valid_utf8_app (String unit_sep "")); [done|].
    apply valid_utf8_app; [done|]. by apply (valid_utf8_app (String unit_sep "")).
Qed.

(**  scopes form a chain and grant what they say.  Every key may read; writing
    takes read-write or build; building takes build; and a scope of higher rank
    may do whatever a lower one may. *)
Theorem scope_hierarchy (s s' : Scope) (op : Op) :
  (allows s OpRead = true /\ (allows s OpWrite = true <-> s <> ReadOnly) /\ (allows s OpBuild = true <-> s = Build)) /\
  (rank s <= rank s' -> allows s op = true -> allows s' op = true).
Proof. destruct s, s', op; simpl; repeat split; intros; try done; try lia. Qed.

(**  a key that was created is found under its token with its organisation,
    project and scope, and creating it changes what no other token finds, unless
    the hash of that token collides.  The store holds no token, only the hash
    key and the record. *)
Theorem create_lookup_key {S : Type} `{StoreLaws S} (Sha256 : string -> string) (s : S) random org project scope :
  inv s -> healthy s -> plain_name org -> plain_name project ->
  exists s', create_key Sha256 random org project scope s = (Ok (hex random), s') /\
    (lookup_key Sha256 (hex random) s').1 = Ok (Some (mkKey org project scope)) /\
    (forall token, Sha256 token <> Sha256 (hex random) ->
       (lookup_key Sha256 token s').1 = (lookup_key Sha256 token s).1).
Proof.
  intros Hs Hh Ho Hp.
  assert (forall t token, inv t -> healthy t -> (lookup_key Sha256 token t).1 =
     Ok (match a_kv (abs t) !! key_store_key Sha256 token with Some kv => decode (kv_value kv) | None => None end)) as Hlook.
  { intros t token Ht Hht.
    assert (wp (lookup_key Sha256 token) t (fun r _ => r =
      Ok (match a_kv (abs t) !! key_store_key Sha256 token with Some kv => decode (kv_value kv) | None => None end))) as G;
      [|exact G].
    unfold lookup_key. apply wp_bind, wp_text.
    eapply wp_meets_healthy; [apply (get_meets (key_store_key Sha256 token))|done|done| |by intros ? ? ? ? []].
    intros o t' _ _ [_ ->]. by apply wp_ret. }
  assert (wp (create_key Sha256 random org project scope) s (fun r s' => inv s' /\ healthy s' /\ r = Ok (hex random) /\
            abs s' = a_write (key_store_key Sha256 (hex random)) (encode (mkKey org project scope)) None (abs s))) as G.
  { unfold create_key. apply wp_bind, wp_text.
    eapply wp_meets_healthy; [apply put_meets|done|done| |by intros ? ? ? ? [? _]].
    intros rev s' Hs' Hh' (_ & Ha & _). by apply wp_ret. }
  unfold wp in G. destruct (create_key Sha256 random org project scope s) as [r s']. simpl in G.
  destruct G as (Hs' & Hh' & -> & Ha). exists s'. split; [done|]. rewrite Hlook by done.
  rewrite Ha, a_write_kv, decide_True by done. split; [f_equal; by apply decode_encode|].
  intros token Hne. rewrite !Hlook by done. rewrite Ha, a_write_kv, decide_False; [done|].
  unfold key_store_key. intros Heq%(app_inv_head_s "apikey/")%hex_inj. done.
Qed.

Lemma create_lookup_key_witness :
  exists s', create_key (fun t => t) "01" "acme" "web" ReadWrite (store_after []) = (Ok "3031"%string, s') /\
    (lookup_key (fun t => t) "3031" s').1 = Ok (Some (mkKey "acme" "web" ReadWrite)).
Proof.
  destruct (create_lookup_key (fun t => t) (store_after []) "01" "acme" "web" ReadWrite) as (s' & H1 & H2 & _).
  - apply store_after_inv.
  - apply store_after_inv.
  - split; reflexivity.
  - split; reflexivity.
  - exists s'. split; [exact H1|exact H2].
Defined.

Lemma scope_hierarchy_witness : allows Build OpWrite = true.
Proof. apply (scope_hierarchy ReadWrite Build OpWrite); [vm_compute; discriminate|reflexivity]. Defined.

(** A name that contains the separator makes a record that is never found again. *)
Lemma encode_ambiguous : decode (encode (mkKey (String unit_sep "") "web" Build)) = None.
Proof. vm_compute. reflexivity. Qed.
