(* ===== verification/Retention.v ===== *)
(** * Snapshot retention and version pins (crates/sl-node/src/retention.rs)

    The pin of a paused snapshot (template, kernel and VMM versions), the
    compatibility matrix that gates its resumption on a node, the retention
    deadline, and the collection of expired paused snapshots. *)

From Stdlib Require Import ZArith Lia Bool List String Ascii.
From stdpp Require Import base tactics list gmap strings sorting.
From S2P Require Import Prelude RustStr Utf8 Json Store Cluster Sqlite SqliteSpec StoreTheorems Quota.

Open Scope Z_scope.

Definition DEFAULT_RETENTION_SECS : Z := 7 * 24 * 3600.

Record Pin : Type := mkPin { template_version : string; kernel_version : string; vmm_version : string }.

Inductive Compat : Type :=
| CompatOk
| OldKernelWarn
| Incompatible (why : string).

Definition pin_key (sid : string) : string := sandbox_key sid "pin".
Definition retain_key (sid : string) : string := sandbox_key sid "retain".

(** The text [set_pin] formats: the versions are not escaped. *)
Definition pin_text (pin : Pin) : string :=
  "{" ++s quoted "template_version" ++s ":" ++s quoted (template_version pin) ++s ","
      ++s quoted "kernel_version" ++s ":" ++s quoted (kernel_version pin) ++s ","
      ++s quoted "vmm_version" ++s ":" ++s quoted (vmm_version pin) ++s "}".

Definition pin_of_value `{SerdeJson} (v : Value) : option Pin :=
  match get_str v "template_version", get_str v "kernel_version", get_str v "vmm_version" with
  | Some t, Some k, Some m => Some (mkPin t k m)
  | _, _, _ => None
  end.

(** [manifest] is what reading [manifest.json] of the template directory gives. *)
Definition pin_from_template `{SerdeJson} (manifest : option string) : option Pin :=
  match manifest with
  | None => None
  | Some bytes =>
      match from_slice bytes with
      | None => None
      | Some v => match vget v "adr16_key" with
                  | Some k => pin_of_value k
                  | None => None
                  end
      end
  end.

Definition compat_list (ks : list string) : string :=
  "[" ++s String.concat ", " (map quoted ks) ++s "]".

Definition check_compat (pin : Pin) (node_kernel node_vmm : string) (node_n1_kernels : list string) : Compat :=
  if negb (String.eqb (vmm_version pin) node_vmm) then
    Incompatible ("VMM 版本不兼容：快照 " ++s vmm_version pin ++s " vs 节点 " ++s node_vmm)
  else if String.eqb (kernel_version pin) node_kernel then CompatOk
  else if existsb (fun k => String.eqb k (kernel_version pin)) node_n1_kernels then OldKernelWarn
  else Incompatible ("内核 " ++s kernel_version pin ++s " 不在节点保留范围（当前 " ++s node_kernel
                       ++s " + N-1 " ++s compat_list node_n1_kernels ++s "）").

(** The two tables [gc_expired] builds from one listing. *)
Definition retain_entry (m : gmap string (Z * option Z)) (kv : KeyValue) : gmap string (Z * option Z) :=
  match key_id "/retain" (kv_key kv) with
  | Some sid =>
      let d := match parse_i64 (from_utf8_lossy (kv_value kv)) with Some d => d | None => i64_max end in
      <[sid := (d, kv_lease kv)]> m
  | None => m
  end.

Definition state_entry (m : gmap string string) (kv : KeyValue) : gmap string string :=
  match key_id "/retain" (kv_key kv) with
  | Some _ => m
  | None => match key_id "/state" (kv_key kv) with
            | Some sid => <[sid := kv_value kv]> m
            | None => m
            end
  end.

Definition gc_suffixes : list string :=
  ["meta"; "state"; "pin"; "retain"; "project"; "node"; "size"]%string.

Section Ops.
Context {S : Type} `{Store S}.

Definition set_pin (sid : string) (pin : Pin) (lease : option Z) : M S string unit :=
  let? _ := text (put (pin_key sid) (pin_text pin) lease) in
  mret tt.

Definition get_pin `{SerdeJson} (sid : string) : M S string (option Pin) :=
  let? kv := text (get (pin_key sid)) in
  mret (match kv with
        | Some kv => match from_slice (kv_value kv) with Some v => pin_of_value v | None => None end
        | None => None
        end).

Definition set_retention (sid : string) (deadline_unix : Z) (lease : option Z) : M S string unit :=
  let? _ := text (put (retain_key sid) (dec deadline_unix) lease) in
  mret tt.

(** One turn of the collection loop. *)
Definition gc_one (states : gmap string string) (now : Z) (gced : list string)
    (entry : string * (Z * option Z)) : M S string (list string) :=
  let '(sid, (deadline, lease)) := entry in
  let paused := bool_decide (states !! sid = Some "paused"%string) in
  if paused && (deadline <=? now) then
    let? _ := match lease with
              | Some l => let? _ := text (lease_revoke l) in mret tt
              | None => mfor gc_suffixes (fun suffix =>
                          let? _ := mtry (text (delete_key (sandbox_key sid suffix))) in mret tt)
              end in
    mret (gced ++ [sid])
  else mret gced.

(** [iter] is the iteration order of the hash map, which is unspecified. *)
Definition gc_expired (iter : gmap string (Z * option Z) -> list (string * (Z * option Z))) (now : Z)
    : M S string (list string) :=
  let? kvs := text (list_prefix "sandbox/") in
  let retain := fold_left retain_entry kvs ∅ in
  let states := fold_left state_entry kvs ∅ in
  mfold (gc_one states now) (iter retain) [].
End Ops.

(** ** Specification *)

Definition deadline_of (kv : KeyValue) : Z :=
  match parse_i64 (from_utf8_lossy (kv_value kv)) with Some d => d | None => i64_max end.

(** The sandbox is paused and the deadline in its retention key has passed. *)
Definition expired (a : AStore) (now : Z) (sid : string) (r : KeyValue) : Prop :=
  a_kv a !! retain_key sid = Some r /\ deadline_of r <= now /\
  exists st, a_kv a !! sandbox_key sid "state" = Some st /\ kv_value st = "paused"%string.

Definition gc_victim (a : AStore) (now : Z) (k : string) : Prop :=
  exists sid r, expired a now sid r /\
    ((kv_lease r = None /\ exists suffix, In suffix gc_suffixes /\ k = sandbox_key sid suffix) \/
     (exists l kv, kv_lease r = Some l /\ is_Some (a_leases a !! l) /\ a_kv a !! k = Some kv /\ kv_lease kv = Some l)).

Definition gc_victim_lease (a : AStore) (now : Z) (l : Z) : Prop :=
  exists sid r, expired a now sid r /\ kv_lease r = Some l.

Notation collecting a now := (shrunk (gc_victim a now) (gc_victim_lease a now) a).

(**  the compatibility matrix.  A snapshot resumes without a warning exactly
    when the node runs its VMM and its kernel; with a warning exactly when the VMM
    matches and its kernel is another one the node keeps; in every other case it
    is refused. *)
Theorem compat_matrix (pin : Pin) (kernel vmm : string) (n1 : list string) :
  (check_compat pin kernel vmm n1 = CompatOk <-> vmm_version pin = vmm /\ kernel_version pin = kernel) /\
  (check_compat pin kernel vmm n1 = OldKernelWarn <->
     vmm_version pin = vmm /\ kernel_version pin <> kernel /\ In (kernel_version pin) n1) /\
  ((exists why, check_compat pin kernel vmm n1 = Incompatible why) <->
     vmm_version pin <> vmm \/ (kernel_version pin <> kernel /\ ~ In (kernel_version pin) n1)).
Proof.
  assert (existsb (fun k => String.eqb k (kernel_version pin)) n1 = true <-> In (kernel_version pin) n1) as Hex.
  { rewrite existsb_exists. split; [intros (k & Hin & He); bool_prop; by subst|].
    intros Hin. eexists. split; [done|apply String.eqb_refl]. }
  unfold check_compat.
  destruct (String.eqb_spec (vmm_version pin) vmm) as [Hv|Hv]; simpl; [|repeat split; try done; try tauto; eauto].
  destruct (String.eqb_spec (kernel_version pin) kernel) as [Hk|Hk].
  - repeat split; try done; try tauto. by intros [? ?].
  - destruct (existsb _ n1).
    + pose proof (proj1 Hex eq_refl). repeat split; try done; try tauto. by intros [? ?].
    + assert (~ In (kernel_version pin) n1) by (intros Hin; by apply Hex in Hin).
      repeat split; try done; try tauto. eauto.
Qed.

(** ** The tables *)

Lemma snoc_last a c b d : snoc a c = snoc b d -> c = d.
Proof.
  unfold snoc. intros H. apply (f_equal list_ascii_of_string) in H. rewrite !list_ascii_app in H.
  by apply app_inj_tail in H as [_ ->].
Qed.

Lemma snoc_app a x c : a ++s snoc x c = snoc (a ++s x) c.
Proof. unfold snoc. by rewrite app_assoc_s. Qed.

Lemma state_not_retain sid : key_id "/retain" (sandbox_key sid "state") = None.
Proof.
  destruct (key_id "/retain" (sandbox_key sid "state")) as [id|] eqn:E; [|done].
  apply key_id_some in E. unfold sandbox_key in E. apply (app_inv_head_s "sandbox/") in E.
  change ("/" ++s "state") with (snoc "/stat" "e") in E. change "/retain"%string with (snoc "/retai" "n") in E.
  rewrite !snoc_app in E. apply snoc_last in E. discriminate.
Qed.

Section Tables.
Context (a : AStore) (kvs : list KeyValue) (Hwf : awf a) (Hl : lists a "sandbox/" kvs).

Lemma retain_table sid :
  fold_left retain_entry kvs ∅ !! sid = (fun kv => (deadline_of kv, kv_lease kv)) <$> a_kv a !! retain_key sid.
Proof using Hwf Hl.
  rewrite (fold_index retain_entry (key_id "/retain") retain_key (fun _ kv => (deadline_of kv, kv_lease kv)));
    [|done|apply key_id_some|apply sorted_by_key_NoDup, Hl].
  unfold retain_key. rewrite (lists_find a "sandbox/"), (sandbox_key_prefix sid "retain"), lookup_empty by done.
  by destruct (a_kv a !! sandbox_key sid "retain").
Qed.

Lemma state_table sid :
  fold_left state_entry kvs ∅ !! sid = kv_value <$> a_kv a !! sandbox_key sid "state".
Proof using Hwf Hl.
  rewrite (fold_index state_entry
    (fun key => match key_id "/retain" key with Some _ => None | None => key_id "/state" key end)
    (fun sid => sandbox_key sid "state") (fun _ kv => kv_value kv)); [| | |apply sorted_by_key_NoDup, Hl].
  - rewrite (lists_find a "sandbox/"), (sandbox_key_prefix sid "state"), lookup_empty by done.
    by destruct (a_kv a !! sandbox_key sid "state").
  - intros m kv. unfold state_entry. by destruct (key_id "/retain" (kv_key kv)).
  - intros key id. destruct (key_id "/retain" key) as [x|] eqn:E; [|apply key_id_some].
    split; [done|]. intros ->. by rewrite state_not_retain in E.
Qed.

(** The test of the loop selects the expired paused sandboxes. *)
Lemma gc_test sid d l now :
  fold_left retain_entry kvs ∅ !! sid = Some (d, l) ->
  bool_decide (fold_left state_entry kvs ∅ !! sid = Some "paused"%string) && (d <=? now) = true <->
  exists r, expired a now sid r /\ kv_lease r = l /\ deadline_of r = d.
Proof using Hwf Hl.
  rewrite retain_table, state_table. destruct (a_kv a !! retain_key sid) as [r|] eqn:Er; [|done].
  intros [= <- <-]. rewrite andb_true_iff, bool_decide_eq_true, Z.leb_le. unfold expired. split.
  - intros [Hs Hd]. exists r. split; [|done]. split; [done|]. split; [done|].
    destruct (a_kv a !! sandbox_key sid "state") as [st|]; [|done]. injection Hs as Hs. by exists st.
  - intros (r' & (Hr & Hd & st & Hst & Hv) & _ & _). assert (r' = r) as -> by congruence.
    rewrite Hst. split; [simpl; by rewrite Hv|done].
Qed.
End Tables.

Section Proofs.
Context {S : Type} `{StoreLaws S}.

(** The lease-less fallback: one delete after the other, errors ignored. *)
Definition drop_keys (sid : string) (sufs : list string) : M S string unit :=
  mfor sufs (fun suffix => let? _ := mtry (text (delete_key (sandbox_key sid suffix))) in mret tt).

Lemma drop_keys_wp V VL a sid sufs s :
  inv s -> shrunk V VL a (abs s) -> (forall suffix, In suffix sufs -> V (sandbox_key sid suffix)) ->
  wp (drop_keys sid sufs) s (fun r s' => r = Ok tt /\ inv s' /\ shrunk V VL a (abs s') /\ fewer (abs s) (abs s') /\
    (healthy s -> closed a (abs s) -> healthy s' /\ closed a (abs s') /\
       forall suffix, In suffix sufs -> a_kv (abs s') !! sandbox_key sid suffix = None)).
Proof.
  revert s; induction sufs as [|x sufs IH]; intros s Hs Hsh HV; unfold drop_keys; cbn [mfor].
  - apply wp_ret. split; [done|]. split; [done|]. split; [done|]. split; [apply fewer_refl|].
    intros Hh Hcl. split; [done|]. split; [done|]. by intros suffix [].
  - apply wp_bind, wp_bind, wp_try, wp_text.
    eapply wp_meets; [apply (delete_meets (sandbox_key sid x))|done|]. intros r s1 Hs1 Hp Hb. apply wp_ret.
    pose proof (delete_shrinks V VL a _ _ _ _ (HV x (or_introl eq_refl)) Hsh Hp) as Hsh1.
    eapply wp_mono; [|apply (IH s1 Hs1 Hsh1); intros suffix Hin; apply HV; by right].
    intros r' s' (-> & Hs' & Hsh' & Hf & Hlive). split; [done|]. split; [done|]. split; [done|].
    pose proof (delete_fewer _ _ _ _ Hp) as Hf1. split; [by eapply fewer_trans|].
    intros Hh Hcl. destruct (Hb Hh) as [Hh1 Hnb]. destruct r as [b|[e|i]]; [|exfalso; apply Hnb; by eexists|done].
    destruct (Hlive Hh1 (delete_closed a _ _ _ _ Hcl Hp)) as (Hh' & Hcl' & Hgone). split; [done|]. split; [done|].
    intros suffix [<-|Hin]; [|auto]. destruct Hp as [Hbv Ha1].
    assert (a_kv (abs s1) !! sandbox_key sid x = None) as Hx.
    { rewrite Ha1, Hbv. case_bool_decide as Hsome; [apply lookup_delete_eq|by apply eq_None_not_Some]. }
    destruct Hf as [Hf _]. destruct (Hf (sandbox_key sid x)) as [->|]; done.
Qed.

Definition gc_handled (a1 : AStore) (sid : string) (r : KeyValue) : Prop :=
  match kv_lease r with
  | Some l => a_leases a1 !! l = None
  | None => forall suffix, In suffix gc_suffixes -> a_kv a1 !! sandbox_key sid suffix = None
  end.

Lemma gc_handled_fewer a1 a2 sid r : fewer a1 a2 -> gc_handled a1 sid r -> gc_handled a2 sid r.
Proof.
  intros [K L]. unfold gc_handled. destruct (kv_lease r) as [l|].
  - destruct (L l) as [-> | ->]; auto.
  - intros Hg suffix Hin. destruct (K (sandbox_key sid suffix)) as [-> | ->]; auto.
Qed.

(** What one collected sandbox does to the store. *)
Lemma collect_wp a now sid r s :
  inv s -> expired a now sid r -> collecting a now (abs s) ->
  wp (match kv_lease r with
      | Some l => let? _ := text (lease_revoke l) in mret tt
      | None => drop_keys sid gc_suffixes
      end) s (fun res s' => inv s' /\ collecting a now (abs s') /\ fewer (abs s) (abs s') /\
    (healthy s -> closed a (abs s) -> res = Ok tt /\ healthy s' /\ closed a (abs s') /\ gc_handled (abs s') sid r)).
Proof.
  intros Hs Hex Hsh. unfold gc_handled. destruct (kv_lease r) as [l|] eqn:El.
  - apply wp_bind, wp_text. eapply wp_meets; [apply (revoke_meets l)|done|]. intros res s1 Hs1 Hp Hb.
    assert (collecting a now (abs s1)) as Hsh1.
    { eapply revoke_shrinks; [|  |exact Hsh|exact Hp]; [by exists sid, r|].
      intros k kv Hk Hkl Hsome. exists sid, r. split; [done|]. right. by exists l, kv. }
    assert (fewer (abs s) (abs s1)) as Hf by exact (reap_fewer _ _ _ _ Hp).
    destruct res as [ks|e]; simpl; [apply wp_ret|].
    + split; [done|]. split; [done|]. split; [done|]. intros Hh Hcl. split; [done|]. split; [by apply Hb|].
      split; [exact (revoke_closed _ _ a _ _ _ _ Hsh Hcl Hp)|]. destruct Hp as (_ & _ & ->). simpl. by rewrite leases_after_id, decide_True.
    + split; [done|]. split; [done|]. split; [done|]. intros Hh _. destruct (Hb Hh) as [_ Hn].
      destruct e as [e|i]; [exfalso; apply Hn; by eexists|done].
  - eapply wp_mono; [|apply (drop_keys_wp (gc_victim a now) (gc_victim_lease a now) a sid gc_suffixes s Hs Hsh)].
    + intros res s' (-> & H1 & H2 & H3 & H4). do 3 (split; [done|]). intros Hh Hcl.
      destruct (H4 Hh Hcl) as (? & ? & ?). auto.
    + intros suffix Hin. exists sid, r. split; [done|]. left. split; [done|]. by exists suffix.
Qed.

Section Loop.
Context (iter : gmap string (Z * option Z) -> list (string * (Z * option Z))).
Hypothesis Hiter : forall m, iter m ≡ₚ map_to_list m.
Context (a : AStore) (now : Z) (kvs : list KeyValue) (Hwf : awf a) (Hl : lists a "sandbox/" kvs).
Let retain := fold_left retain_entry kvs ∅.
Let states := fold_left state_entry kvs ∅.

Lemma iter_lookup sid d l : In (sid, (d, l)) (iter retain) <-> retain !! sid = Some (d, l).
Proof using Hiter. rewrite <- list_elem_of_In, Hiter. apply elem_of_map_to_list. Qed.

Record gc_progress (pre : list (string * (Z * option Z))) (acc : list string) (a1 : AStore) : Prop := {
  gp_closed : closed a a1;
  gp_handled : forall sid e r, In (sid, e) pre -> expired a now sid r -> gc_handled a1 sid r;
  gp_acc : forall sid, In sid acc <-> exists e r, In (sid, e) pre /\ expired a now sid r
}.

Lemma gc_progress_skip pre acc a1 sid e :
  gc_progress pre acc a1 -> (forall r, ~ expired a now sid r) -> gc_progress (pre ++ [(sid, e)]) acc a1.
Proof using.
  intros [P1 P2 P3] Hn. split; [done| |].
  - intros sid' e' r [Hin|[[= <- <-]|[]]]%in_app_or Hex; [by eapply P2|by apply Hn in Hex].
  - intros sid'. rewrite P3. split; intros (e' & r & Hin & Hex); exists e', r; (split; [|done]).
    + apply in_or_app. by left.
    + apply in_app_or in Hin as [?|[[= <- <-]|[]]]; [done|by apply Hn in Hex].
Qed.

Lemma gc_progress_next pre acc a1 a2 sid e r :
  gc_progress pre acc a1 -> expired a now sid r -> closed a a2 -> fewer a1 a2 -> gc_handled a2 sid r ->
  gc_progress (pre ++ [(sid, e)]) (acc ++ [sid]) a2.
Proof using.
  intros [P1 P2 P3] Hex Hcl Hf Hh. split; [done| |].
  - intros sid' e' r' [Hin|[[= <- <-]|[]]]%in_app_or Hex'; [eapply gc_handled_fewer; eauto|].
    assert (r' = r) as -> by (destruct Hex as [? _], Hex' as [? _]; congruence). done.
  - intros sid'. rewrite in_app_iff, P3. split.
    + intros [(e' & r' & Hin & Hex')|[Heq|[]]].
      * exists e', r'. split; [|done]. apply in_or_app. by left.
      * subst sid'. exists e, r. split; [|done]. apply in_or_app. right. by left.
    + intros (e' & r' & Hin & Hex'). apply in_app_or in Hin as [Hin|[[= <- <-]|[]]]; [left; by exists e', r'|].
      right. by left.
Qed.

Lemma gc_one_wp pre acc sid d l s :
  retain !! sid = Some (d, l) -> inv s -> collecting a now (abs s) ->
  wp (gc_one states now acc (sid, (d, l))) s (fun res s' => inv s' /\ collecting a now (abs s') /\
    (healthy s -> gc_progress pre acc (abs s) ->
       healthy s' /\ exists acc', res = Ok acc' /\ gc_progress (pre ++ [(sid, (d, l))]) acc' (abs s'))).
Proof using Hwf Hl.
  intros Hr Hs Hsh. cbn [gc_one]. pose proof (gc_test a kvs Hwf Hl sid d l now Hr) as Ht. fold states in Ht.
  destruct (_ && _).
  - destruct (proj1 Ht eq_refl) as (r & Hex & <- & Hd). apply wp_bind.
    eapply wp_mono; [|by apply (collect_wp a now sid r)]. intros res s' (Hs' & Hsh' & Hf & Hlive).
    destruct res as [[]|e]; [apply wp_ret|]; (split; [done|]; split; [done|]); intros Hh Hpg.
    + destruct (Hlive Hh (gp_closed _ _ _ Hpg)) as (_ & Hh' & Hcl & Hhd). split; [done|].
      exists (acc ++ [sid]). split; [done|]. by eapply gc_progress_next.
    + by destruct (Hlive Hh (gp_closed _ _ _ Hpg)) as (? & _).
  - apply wp_ret. split; [done|]. split; [done|]. intros Hh Hpg. split; [done|]. exists acc. split; [done|].
    apply gc_progress_skip; [done|]. intros r Hex.
    assert (false = true); [|done]. apply Ht. exists r. split; [done|].
    unfold retain in Hr. rewrite (retain_table a kvs Hwf Hl) in Hr. destruct Hex as [Hx _]. rewrite Hx in Hr.
    by injection Hr as <- <-.
Qed.

Lemma gc_loop_wp s :
  inv s -> abs s = a ->
  wp (mfold (gc_one states now) (iter retain) []) s (fun res s' => inv s' /\ collecting a now (abs s') /\
    (healthy s -> healthy s' /\ exists acc, res = Ok acc /\ gc_progress (iter retain) acc (abs s'))).
Proof using Hiter Hwf Hl.
  intros Hs Ha.
  apply (wp_fold _ (fun pre acc s' => inv s' /\ collecting a now (abs s') /\
    (healthy s -> healthy s' /\ gc_progress pre acc (abs s')))).
  - split; [done|]. rewrite Ha. split; [apply shrunk_refl|]. intros Hh. split; [done|].
    split; [apply closed_refl|done|]. intros sid. split; [done|]. by intros (? & ? & [] & _).
  - intros pre [sid [d l]] post acc s' Heq (Hs' & Hsh & Hlive).
    assert (retain !! sid = Some (d, l)) as Hr.
    { apply iter_lookup. rewrite Heq. apply in_or_app. right. by left. }
    eapply wp_mono; [|by apply (gc_one_wp pre acc sid d l s')].
    intros [acc'|e] s'' (Hs'' & Hsh'' & Hl''); (split; [done|]; split; [done|]); intros Hh;
      destruct (Hlive Hh) as [Hh' Hpg]; destruct (Hl'' Hh' Hpg) as (? & acc2 & E & ?); [|done].
    injection E as ->. done.
  - intros acc s' (H1 & H2 & H3). split; [done|]. split; [done|]. intros Hh. destruct (H3 Hh).
    split; [done|]. by exists acc.
Qed.
End Loop.

Lemma gc_expired_wp iter now s :
  (forall m, iter m ≡ₚ map_to_list m) -> inv s ->
  wp (gc_expired iter now) s (fun res s' => inv s' /\ collecting (abs s) now (abs s') /\
    (healthy s -> healthy s' /\ exists kvs acc, res = Ok acc /\ lists (abs s) "sandbox/" kvs /\
       gc_progress (abs s) now (iter (fold_left retain_entry kvs ∅)) acc (abs s'))).
Proof.
  intros Hiter Hs. unfold gc_expired. apply wp_bind, wp_text.
  eapply wp_meets; [apply (list_meets "sandbox/")|done|]. intros r s1 Hs1 [Ha Hp] Hb.
  destruct r as [kvs|e]; simpl.
  - pose proof (Hp good_sandbox_prefix) as Hl.
    eapply wp_mono; [|apply (gc_loop_wp iter Hiter (abs s) now kvs (inv_awf s Hs) Hl s1 Hs1 Ha)].
    intros res s' (H1 & H2 & H3). split; [done|]. split; [done|]. intros Hh.
    destruct (H3 (proj1 (Hb Hh))) as (Hh' & acc & E & Hpg). split; [done|]. by exists kvs, acc.
  - rewrite Ha. split; [done|]. split; [apply shrunk_refl|]. intros Hh. destruct (Hb Hh) as [_ Hn].
    destruct e as [e|i]; [exfalso; apply Hn; by eexists|done].
Qed.
End Proofs.

(** C38: the collector only takes expired paused snapshots.  Whatever store calls
    fail and in whatever order the table is walked, every key it removes belongs
    to a sandbox whose state key says paused and whose retention deadline has
    passed: it is attached to the lease of that sandbox's retention key, or, when
    that key has no lease, is one of the sandbox's seven keys.  A running sandbox
    on a lease of its own keeps all its keys. *)
Theorem gc_expired_safe {S : Type} `{StoreLaws S} iter (now : Z) (s : S) (k : string) :
  (forall m, iter m ≡ₚ map_to_list m) -> inv s ->
  let s' := snd (gc_expired iter now s) in
  a_kv (abs s') !! k = a_kv (abs s) !! k \/ (a_kv (abs s') !! k = None /\ gc_victim (abs s) now k).
Proof. intros Hi Hs. exact (sh_kv _ _ _ _ (proj1 (proj2 (gc_expired_wp iter now s Hi Hs))) k). Qed.

(**  on a store that answers, the collector takes every expired paused
    snapshot: it returns exactly the sandboxes that are paused and past their
    deadline, and afterwards the keys it is entitled to remove are gone, and with
    them the leases. *)
Theorem gc_expired_complete {S : Type} `{StoreLaws S} iter (now : Z) (s : S) :
  (forall m, iter m ≡ₚ map_to_list m) -> inv s -> healthy s ->
  exists sids s', gc_expired iter now s = (Ok sids, s') /\
    (forall sid, In sid sids <-> exists r, expired (abs s) now sid r) /\
    (forall k, gc_victim (abs s) now k -> a_kv (abs s') !! k = None).
Proof.
  intros Hi Hs Hh. pose proof (gc_expired_wp iter now s Hi Hs) as G. unfold wp in G.
  destruct (gc_expired iter now s) as [res s']. simpl in G. destruct G as (_ & _ & G).
  destruct (G Hh) as (_ & kvs & acc & -> & Hl & [P1 P2 P3]). exists acc, s'. split; [done|].
  assert (forall sid r, expired (abs s) now sid r -> In (sid, (deadline_of r, kv_lease r)) (iter (fold_left retain_entry kvs ∅))) as Hall.
  { intros sid r [Hr _]. apply (iter_lookup iter Hi kvs).
    by rewrite (retain_table (abs s) kvs (inv_awf s Hs) Hl), Hr. }
  split.
  - intros sid. rewrite P3. split; [intros (e & r & _ & Hex); by exists r|]. intros [r Hex]. eauto.
  - intros k (sid & r & Hex & [[Hn (suffix & Hin & ->)]|(l & kv & Hlr & Hsome & Hk & Hkl)]);
      pose proof (P2 sid _ r (Hall _ _ Hex) Hex) as Hg; unfold gc_handled in Hg.
    + rewrite Hn in Hg. auto.
    + rewrite Hlr in Hg. by eapply P1.
Qed.

(** Three sandboxes past their deadline: paused, running, and paused without a
    lease. *)
Definition retained : SqliteStore :=
  store_after [OGrant 0 60; OPut "sandbox/p/state" "paused" (Some 1); OPut "sandbox/p/retain" "100" (Some 1);
               OGrant 0 60; OPut "sandbox/r/state" "running" (Some 2); OPut "sandbox/r/retain" "100" (Some 2);
               OPut "sandbox/q/state" "paused" None; OPut "sandbox/q/retain" "100" None].

Lemma gc_expired_safe_witness :
  a_kv (abs (snd (gc_expired map_to_list 200 retained))) !! "sandbox/r/state"%string
    = a_kv (abs retained) !! "sandbox/r/state"%string.
Proof.
  destruct (gc_expired_safe map_to_list 200 retained "sandbox/r/state") as [Heq|[Hn _]].
  - intros m. reflexivity.
  - apply store_after_inv.
  - exact Heq.
  - exfalso. vm_compute in Hn. discriminate.
Defined.

Lemma gc_expired_complete_witness :
  exists sids s', gc_expired map_to_list 200 retained = (Ok sids, s') /\
    a_kv (abs s') !! "sandbox/p/state"%string = None.
Proof.
  destruct (gc_expired_complete map_to_list 200 retained) as (sids & s' & H1 & _ & H3).
  - intros m. reflexivity.
  - apply store_after_inv.
  - apply store_after_inv.
  - exists sids, s'. split; [exact H1|]. apply H3.
    exists "p"%string, (mkKv "sandbox/p/retain" "100" 2 2 (Some 1)). split.
    + split; [vm_compute; reflexivity|]. split; [vm_compute; discriminate|].
      exists (mkKv "sandbox/p/state" "paused" 1 1 (Some 1)). split; vm_compute; reflexivity.
    + right. exists 1, (mkKv "sandbox/p/state" "paused" 1 1 (Some 1)).
      split; [reflexivity|]. split; [eexists; vm_compute; reflexivity|]. split; vm_compute; reflexivity.
Defined.
