(* ===== verification/AuditLog.v ===== *)
(** * Audit log (crates/sl-node/src/audit.rs)

    Entries under [audit/<ts>-<seq>], with a sequence number that is a counter of
    the process.  The store and the counter are the two components of the
    state. *)

From Stdlib Require Import ZArith Lia Bool List String Ascii.
From stdpp Require Import base tactics list gmap strings sorting.
From S2P Require Import Prelude RustStr Utf8 Json Store Sqlite SqliteSpec StoreTheorems.

Open Scope Z_scope.

(** [format!("{n:0w}")] for a non-negative number. *)
Fixpoint zeros (n : nat) : string := match n with O => "" | S n => String "0" (zeros n) end.
Definition pad0 (w : nat) (s : string) : string := zeros (w - String.length s) ++s s.

Definition audit_key (ts seq : Z) : string := "audit/" ++s pad0 12 (dec ts) ++s String "-" (pad0 8 (dec seq)).

Definition audit_entry (ts : Z) (actor action target : string) (code : Z) : string :=
  render (JObj [("ts"%string, JNum ts); ("actor"%string, JStr actor); ("action"%string, JStr action);
                ("target"%string, JStr target); ("code"%string, JNum code)]).

Section Ops.
Context {S : Type} `{Store S}.

(** [SEQ.fetch_add(1)] on a [u64]. *)
Definition next_seq : M (S * Z) string Z := fun st => (Ok st.2, (st.1, u64_add st.2 1)).

Definition record (now : Z) (actor action target : string) (code : Z) : M (S * Z) string unit :=
  let ts := now in
  let? seq := next_seq in
  let? _ := on_fst (text (put (audit_key ts seq) (audit_entry ts actor action target code) None)) in
  mret tt.

Definition audit_list : M S string (list string) :=
  let? kvs := text (list_prefix "audit/") in
  mret (map (fun kv => from_utf8_lossy (kv_value kv)) kvs).
End Ops.

(** ** Keys *)

Lemma parse_zeros n s : parse_digits (zeros n ++s s) 0 = parse_digits s 0.
Proof. induction n; simpl; [done|exact IHn]. Qed.

Lemma pad0_inj w a b : 0 <= a -> 0 <= b -> pad0 w (dec a) = pad0 w (dec b) -> a = b.
Proof.
  intros Ha Hb H. unfold pad0, dec in H. rewrite (proj2 (Z.ltb_ge _ _) Ha), (proj2 (Z.ltb_ge _ _) Hb) in H.
  apply (f_equal (fun s => parse_digits s 0)) in H. rewrite !parse_zeros in H.
  rewrite (parse_dec_digits _ a "" (log2_fuel a Ha)), (parse_dec_digits _ b "" (log2_fuel b Hb)) in H.
  simpl in H. congruence.
Qed.

Lemma zeros_no_dash n : contains_char "-" (zeros n) = false.
Proof. induction n; simpl; [done|exact IHn]. Qed.

Lemma pad0_no_dash w a : 0 <= a -> contains_char "-" (pad0 w (dec a)) = false.
Proof.
  intros Ha. unfold pad0. rewrite contains_char_app, zeros_no_dash. by apply dec_no_char.
Qed.

(** Distinct times or sequence numbers have distinct keys. *)
Lemma audit_key_inj ts seq ts' seq' :
  0 <= ts -> 0 <= seq -> 0 <= ts' -> 0 <= seq' -> audit_key ts seq = audit_key ts' seq' -> ts = ts' /\ seq = seq'.
Proof.
  intros H1 H2 H3 H4 H. unfold audit_key in H. apply (app_inv_head_s "audit/") in H.
  pose proof (proj2 (split_once_some "-" _ _ (pad0 8 (dec seq))) (conj eq_refl (pad0_no_dash 12 ts H1))) as E1.
  pose proof (proj2 (split_once_some "-" _ _ (pad0 8 (dec seq'))) (conj eq_refl (pad0_no_dash 12 ts' H3))) as E2.
  rewrite H in E1. rewrite E1 in E2. injection E2 as Ea Eb.
  split; [by apply (pad0_inj 12)|by apply (pad0_inj 8)].
Qed.

(** ** Recording *)

Record Entry : Type := mkEntry {
  en_now : Z; en_actor : string; en_action : string; en_target : string; en_code : Z
}.

Definition entry_text (e : Entry) : string :=
  audit_entry (en_now e) (en_actor e) (en_action e) (en_target e) (en_code e).

Section Proofs.
Context {S : Type} `{StoreLaws S}.

(** A process records a sequence of entries. *)
Fixpoint records (es : list Entry) : M (S * Z) string unit :=
  match es with
  | [] => mret tt
  | e :: es' => let? _ := record (en_now e) (en_actor e) (en_action e) (en_target e) (en_code e) in records es'
  end.

(** No entry yet has a sequence number the process may still use. *)
Definition unused (a : AStore) (seq : Z) : Prop :=
  forall ts n, 0 <= ts -> seq <= n -> a_kv a !! audit_key ts n = None.

Definition appended (a a' : AStore) (es : list Entry) : Prop :=
  (forall k kv, a_kv a !! k = Some kv -> a_kv a' !! k = Some kv) /\
  (forall e, In e es -> exists seq kv, a_kv a' !! audit_key (en_now e) seq = Some kv /\ kv_value kv = entry_text e) /\
  size (a_kv a') = (size (a_kv a) + length es)%nat.

Lemma records_wp es s seq :
  inv s -> healthy s -> 0 <= seq -> seq + Z.of_nat (length es) <= u64_max ->
  Forall (fun e => 0 <= en_now e) es -> unused (abs s) seq ->
  wp (records es) (s, seq) (fun r st => r = Ok tt /\ inv st.1 /\ healthy st.1 /\ appended (abs s) (abs st.1) es).
Proof.
  revert s seq; induction es as [|e es IH]; intros s seq Hs Hh Hpos Hmax Hts Hun; cbn [records].
  - apply wp_ret. do 3 (split; [done|]). split; [done|]. split; [done|]. simpl. lia.
  - inversion Hts as [|? ? Hnow Hrest]; subst. cbn [length] in Hmax. apply wp_bind. unfold record.
    apply wp_bind. unfold wp at 1. cbn [next_seq fst snd]. apply wp_bind.
    assert (u64_add seq 1 = seq + 1) as Hseq by (apply as_u64_id; unfold u64_max in Hmax; lia).
    rewrite Hseq.
    assert (a_kv (abs s) !! audit_key (en_now e) seq = None) as Hnone by (apply Hun; lia).
    assert (wp (on_fst (text (put (audit_key (en_now e) seq) (entry_text e) None))) (s, seq + 1)
      (fun r st => r = Ok (a_rev (abs s) + 1) /\ inv st.1 /\ healthy st.1 /\ st.2 = seq + 1 /\
         abs st.1 = a_write (audit_key (en_now e) seq) (entry_text e) None (abs s))) as Hput.
    { unfold wp, on_fst, text. simpl.
      pose proof (put_meets (audit_key (en_now e) seq) (entry_text e) None s Hs) as G.
      destruct (put _ _ _ s) as [r s1]. destruct G as (I & G & Hb). destruct (Hb Hh) as [Hh1 Hn].
      destruct r as [rev|[m|i]]; simpl in *; [|exfalso; apply Hn; by eexists|by destruct G].
      destruct G as (_ & Ha & ->). rewrite Ha. done. }
    eapply wp_mono; [|exact Hput]. intros r [s1 seq1] (-> & Hs1 & Hh1 & Hq & Ha1). simpl in *. subst seq1.
    apply wp_ret. eapply wp_mono; [|apply (IH s1 (seq + 1)); auto; try lia].
    + intros r' [s' seq'] (-> & Hs' & Hh' & K & L & Sz). do 3 (split; [done|]). simpl in *. rewrite Ha1 in K, Sz.
      split; [|split].
      * intros k kv Hk. apply K. rewrite a_write_kv. destruct (decide (audit_key (en_now e) seq = k)) as [<-|]; [congruence|done].
      * intros e' [<-|Hin]; [|auto]. eexists seq, _. split; [apply K; by rewrite a_write_kv, decide_True|done].
      * rewrite Sz. simpl. rewrite map_size_insert_None by done. lia.
    + intros ts n Hts' Hn. rewrite Ha1, a_write_kv, decide_False; [apply Hun; lia|].
      intros Heq%audit_key_inj; lia.
Qed.
End Proofs.

(**  within one process the audit log is append-only.  Recording any entries
    succeeds, changes no key that was there, leaves each entry under a key of its
    own (their number is the number of new keys), as long as the log holds no
    entry with a sequence number the process has yet to use and the counter does
    not wrap. *)
Theorem audit_append_only {S : Type} `{StoreLaws S} (es : list Entry) (s : S) (seq : Z) :
  inv s -> healthy s -> 0 <= seq -> seq + Z.of_nat (length es) <= u64_max ->
  Forall (fun e => 0 <= en_now e) es -> unused (abs s) seq ->
  exists s' seq', records es (s, seq) = (Ok tt, (s', seq')) /\ appended (abs s) (abs s') es.
Proof.
  intros Hs Hh Hpos Hm Hts Hun. pose proof (records_wp es s seq Hs Hh Hpos Hm Hts Hun) as G. unfold wp in G.
  destruct (records es (s, seq)) as [r [s' seq']]. simpl in G. destruct G as (-> & _ & _ & Happ). by exists s', seq'.
Qed.

Definition two_entries : list Entry :=
  [mkEntry 1700000000 "web" "create" "s1" 201; mkEntry 1700000000 "web" "destroy" "s1" 200].

Lemma audit_append_only_witness :
  exists s' seq', records two_entries (store_after [], 0) = (Ok tt, (s', seq')) /\ size (a_kv (abs s')) = 2%nat.
Proof.
  destruct (audit_append_only two_entries (store_after []) 0) as (s' & seq' & H1 & (_ & _ & H2)).
  - apply store_after_inv.
  - apply store_after_inv.
  - lia.
  - unfold u64_max. simpl. lia.
  - repeat constructor; simpl; lia.
  - intros ts n _ _. reflexivity.
  - exists s', seq'. split; [exact H1|exact H2].
Defined.

(** Two processes (two replicas, or one restarted within the second) use the same
    key: the second entry overwrites the first. *)
Lemma audit_overwritten :
  let e1 := mkEntry 1700000000 "web" "create" "s1" 201 in
  let e2 := mkEntry 1700000000 "ops" "destroy" "s9" 200 in
  exists s1 q1 s2 q2 s3,
    records [e1] (store_after [], 0) = (Ok tt, (s1, q1)) /\
    records [e2] (s1, 0) = (Ok tt, (s2, q2)) /\
    audit_list s2 = (Ok [entry_text e2], s3).
Proof. do 5 eexists. do 2 (split; [vm_compute; reflexivity|]). vm_compute; reflexivity. Qed.
