(* ===== verification/Proto.v ===== *)
(** * The host/guest wire protocol (crates/sl-proto/src/lib.rs)

    Frames are a big-endian [u32] length and the payload; messages are JSON
    documents in frames; after an [ExecStream] or [Pty] request the payloads are
    tagged byte strings.  A writer is the bytes written so far and the room left
    before the peer goes away; a reader is the bytes still to come. *)

From Stdlib Require Import ZArith Lia Bool List String Ascii.
From stdpp Require Import base tactics list gmap strings sorting.
From S2P Require Import Prelude RustStr Utf8 Json.

Open Scope Z_scope.

(** ** Byte strings *)

Fixpoint str_take (n : nat) (s : string) : string :=
  match n, s with
  | S n', String c s' => String c (str_take n' s')
  | _, _ => ""
  end.

Fixpoint str_drop (n : nat) (s : string) : string :=
  match n, s with
  | S n', String _ s' => str_drop n' s'
  | _, _ => s
  end.

#[global] Arguments str_take : simpl nomatch.
#[global] Arguments str_drop : simpl nomatch.

(** [to_be_bytes], [from_be_bytes] *)
Fixpoint be_bytes (n : nat) (z : Z) : string :=
  match n with
  | O => ""
  | S m => String (byte_of (z / 256 ^ Z.of_nat m)) (be_bytes m z)
  end.

Fixpoint be_val (s : string) (acc : Z) : Z :=
  match s with
  | EmptyString => acc
  | String c s' => be_val s' (acc * 256 + byte_val c)
  end.

(** [as i32] *)
Definition as_i32 (z : Z) : Z := (z + 2 ^ 31) mod 2 ^ 32 - 2 ^ 31.
Definition in_i32 (z : Z) : Prop := - 2 ^ 31 <= z < 2 ^ 31.
Definition in_u16 (z : Z) : Prop := 0 <= z < 2 ^ 16.
Definition in_u32 (z : Z) : Prop := 0 <= z < 2 ^ 32.

(** ** Errors and streams *)

Inductive ErrorKind : Type := InvalidInput | InvalidData | UnexpectedEof | BrokenPipe.

Record IoError : Type := mkIo { io_kind : ErrorKind; io_text : string }.

Record Sink : Type := mkSink { sk_out : string; sk_room : option nat }.

(** [Write::write_all] *)
Definition write_all (buf : string) : M Sink IoError unit := fun sk =>
  match sk_room sk with
  | None => (Ok tt, mkSink (sk_out sk ++s buf) None)
  | Some r =>
      if (String.length buf <=? r)%nat then
        (Ok tt, mkSink (sk_out sk ++s buf) (Some (r - String.length buf)%nat))
      else (Err (mkIo BrokenPipe "broken pipe"), mkSink (sk_out sk ++s str_take r buf) (Some O))
  end.

(** [Read::read_exact] *)
Definition read_exact (n : nat) : M string IoError string := fun s =>
  if (n <=? String.length s)%nat then (Ok (str_take n s), str_drop n s)
  else (Err (mkIo UnexpectedEof "failed to fill whole buffer"), ""%string).

(** ** Frames *)

Definition MAX_FRAME : Z := 16 * 1024 * 1024.

Definition write_frame (payload : string) : M Sink IoError unit :=
  if MAX_FRAME <? Z.of_nat (String.length payload) then mfail (mkIo InvalidInput "frame too large")
  else
    let? _ := write_all (be_bytes 4 (as_u32 (Z.of_nat (String.length payload)))) in
    write_all payload.

Definition read_frame : M string IoError string :=
  let? len_buf := read_exact 4 in
  let len := be_val len_buf 0 in
  if MAX_FRAME <? len then mfail (mkIo InvalidData "frame too large")
  else read_exact (Z.to_nat len).

(** ** Messages *)

Inductive Request : Type :=
| Ping (data : string)
| Exec (cmd : string)
| ExecStream (cmd : string)
| Reinit (seed_hex hostname : string) (wall_time_ns : Z)
| Connect (port : Z)
| Pty (cols rows : Z)
| WipeKeys.

Inductive Response : Type :=
| Pong (data : string)
| ExecDone (exit_code : Z) (stdout stderr : string)
| ReinitDone (machine_id rng_hex session_key_hex : string)
| Error (message : string)
| Acked.

Definition ENVD_VSOCK_PORT : Z := 1024.

(** The documents the derive attributes describe: internally tagged with
    [type], names in snake case. *)
Definition tagged (t : string) (fs : list (string * json)) : json :=
  JObj (("type"%string, JStr t) :: fs).

Definition request_json (r : Request) : json :=
  match r with
  | Ping d => tagged "ping" [("data"%string, JStr d)]
  | Exec c => tagged "exec" [("cmd"%string, JStr c)]
  | ExecStream c => tagged "exec_stream" [("cmd"%string, JStr c)]
  | Reinit s h t => tagged "reinit" [("seed_hex"%string, JStr s); ("hostname"%string, JStr h);
                                     ("wall_time_ns"%string, JNum t)]
  | Connect p => tagged "connect" [("port"%string, JNum p)]
  | Pty c r => tagged "pty" [("cols"%string, JNum c); ("rows"%string, JNum r)]
  | WipeKeys => tagged "wipe_keys" []
  end.

Definition response_json (r : Response) : json :=
  match r with
  | Pong d => tagged "pong" [("data"%string, JStr d)]
  | ExecDone c o e => tagged "exec" [("exit_code"%string, JNum c); ("stdout"%string, JStr o);
                                     ("stderr"%string, JStr e)]
  | ReinitDone m r k => tagged "reinit" [("machine_id"%string, JStr m); ("rng_hex"%string, JStr r);
                                         ("session_key_hex"%string, JStr k)]
  | Error m => tagged "error" [("message"%string, JStr m)]
  | Acked => tagged "ok" []
  end.

(** [serde_json] on a message type. *)
Class Serde (T : Type) : Type := {
  to_vec : T -> result string string;
  from_vec : string -> result T string
}.

(** What the sources rely on: a message that can be represented is read back. *)
Class SerdeLaws (T : Type) `{Serde T} : Type := {
  representable : T -> Prop;
  serde_roundtrip : forall m, representable m -> exists b, to_vec m = Ok b /\ from_vec b = Ok m
}.

Definition io_invalid {A S} (r : result A string) : M S IoError A :=
  match r with Ok a => mret a | Err e => mfail (mkIo InvalidData e) end.

Definition write_msg {T} `{Serde T} (msg : T) : M Sink IoError unit :=
  let? bytes := io_invalid (to_vec msg) in
  write_frame bytes.

Definition read_msg {T} `{Serde T} : M string IoError T :=
  let? bytes := read_frame in
  io_invalid (from_vec bytes).

(** ** Tagged payloads *)

Definition PTY_KIND_STDIN : Z := 0.
Definition PTY_KIND_RESIZE : Z := 1.

Definition push (kind : Z) (data : string) : string := String (byte_of kind) data.

Definition pty_stdin_frame (data : string) : string := push PTY_KIND_STDIN data.
Definition pty_resize_frame (cols rows : Z) : string :=
  push PTY_KIND_RESIZE (be_bytes 2 cols ++s be_bytes 2 rows).

Inductive PtyInput : Type :=
| Stdin (data : string)
| Resize (cols rows : Z).

Definition parse_pty_input (payload : string) : option PtyInput :=
  match payload with
  | EmptyString => None
  | String k data =>
      if byte_val k =? PTY_KIND_STDIN then Some (Stdin data)
      else if (byte_val k =? PTY_KIND_RESIZE) && (String.length payload =? 5)%nat then
        Some (Resize (be_val (str_take 2 data) 0) (be_val (str_drop 2 data) 0))
      else None
  end.

Definition EXEC_KIND_STDOUT : Z := 0.
Definition EXEC_KIND_STDERR : Z := 1.
Definition EXEC_KIND_EXIT : Z := 2.

Definition exec_stdout_frame (data : string) : string := push EXEC_KIND_STDOUT data.
Definition exec_stderr_frame (data : string) : string := push EXEC_KIND_STDERR data.
Definition exec_exit_frame (code : Z) : string := push EXEC_KIND_EXIT (be_bytes 4 code).

Inductive ExecOutput : Type :=
| Stdout (data : string)
| Stderr (data : string)
| Exit (code : Z).

Definition parse_exec_output (payload : string) : option ExecOutput :=
  match payload with
  | EmptyString => None
  | String k data =>
      if byte_val k =? EXEC_KIND_STDOUT then Some (Stdout data)
      else if byte_val k =? EXEC_KIND_STDERR then Some (Stderr data)
      else if (byte_val k =? EXEC_KIND_EXIT) && (String.length payload =? 5)%nat then
        Some (Exit (as_i32 (be_val data 0)))
      else None
  end.

(** ** Byte-string lemmas *)

Lemma str_take_app n a b :
  (n <= String.length a)%nat -> str_take n (a ++s b) = str_take n a.
Proof. revert a; induction n as [|n IH]; intros [|c a] Hn; simpl in *; try done; try lia. rewrite IH; [done|lia]. Qed.

Lemma str_take_app_ge n a b :
  (String.length a <= n)%nat -> str_take n (a ++s b) = a ++s str_take (n - String.length a) b.
Proof.
  revert n; induction a as [|c a IH]; intros n Hn; simpl in *; [by rewrite Nat.sub_0_r|].
  destruct n; [lia|]. simpl. rewrite IH by lia. done.
Qed.

Lemma str_take_all n s : (String.length s <= n)%nat -> str_take n s = s.
Proof. revert n; induction s; intros [|n] Hn; simpl in *; try done; try lia. rewrite IHs; [done|lia]. Qed.

Lemma str_take_length n s : String.length (str_take n s) = Nat.min n (String.length s).
Proof. revert n; induction s; intros [|n]; simpl; try done. by rewrite IHs. Qed.

Lemma str_take_drop n s : str_take n s ++s str_drop n s = s.
Proof. revert n; induction s; intros [|n]; simpl; try done. by rewrite IHs. Qed.

Lemma concat_cons c cs : String.concat "" (c :: cs) = c ++s String.concat "" cs.
Proof. destruct cs; simpl; [by rewrite app_nil_s|done]. Qed.

Lemma str_drop_length n s : String.length (str_drop n s) = (String.length s - n)%nat.
Proof. revert s; induction n as [|n IH]; intros [|c s]; cbn [str_drop String.length]; [done..|]. by rewrite IH. Qed.

Lemma str_take_exact a b : str_take (String.length a) (a ++s b) = a.
Proof. rewrite str_take_app by lia. by apply str_take_all. Qed.

Lemma str_drop_exact a b : str_drop (String.length a) (a ++s b) = b.
Proof. induction a; simpl; [by destruct b|done]. Qed.

Lemma be_bytes_length n z : String.length (be_bytes n z) = n.
Proof. induction n; simpl; [done|]. by rewrite IHn. Qed.

Lemma be_val_bytes n z acc :
  be_val (be_bytes n z) acc = acc * 256 ^ Z.of_nat n + z mod 256 ^ Z.of_nat n.
Proof.
  revert acc; induction n as [|n IH]; intros acc; cbn [be_bytes be_val].
  - simpl. rewrite Z.mod_1_r. lia.
  - rewrite IH. unfold byte_of at 1.
    assert (byte_val (ascii_of_N (Z.to_N ((z / 256 ^ Z.of_nat n) mod 256))) = (z / 256 ^ Z.of_nat n) mod 256) as ->.
    { pose proof (Z.mod_pos_bound (z / 256 ^ Z.of_nat n) 256). unfold byte_val. rewrite N_ascii_embedding by lia. lia. }
    rewrite Nat2Z.inj_succ, Z.pow_succ_r by lia. rewrite (Z.mul_comm 256 (256 ^ Z.of_nat n)).
    rewrite Z.rem_mul_r by lia. ring.
Qed.

Lemma be_val_small s acc : 0 <= be_val s acc - acc * 256 ^ Z.of_nat (String.length s) < 256 ^ Z.of_nat (String.length s).
Proof.
  revert acc; induction s as [|c s IH]; intros acc; cbn [be_val String.length]; [simpl; lia|].
  rewrite Nat2Z.inj_succ, Z.pow_succ_r by lia. specialize (IH (acc * 256 + byte_val c)).
  pose proof (byte_val_range c). nia.
Qed.

Lemma be_val_nonneg s acc : 0 <= acc -> 0 <= be_val s acc.
Proof.
  revert acc; induction s as [|c s IH]; intros acc Ha; cbn [be_val]; [done|].
  apply IH. pose proof (byte_val_range c). lia.
Qed.

Lemma be_bytes_val s acc : 0 <= acc -> be_bytes (String.length s) (be_val s acc) = s.
Proof.
  revert acc; induction s as [|c s IH]; intros acc Ha; cbn [be_val be_bytes String.length]; [done|].
  pose proof (byte_val_range c) as Hc.
  rewrite IH by lia. f_equal.
  pose proof (be_val_small s (acc * 256 + byte_val c)) as Hs.
  set (P := 256 ^ Z.of_nat (String.length s)) in *.
  replace (be_val s (acc * 256 + byte_val c) / P) with (acc * 256 + byte_val c).
  - rewrite <- (byte_of_val c) at 2. unfold byte_of. rewrite Z.add_comm, Z.mod_add by lia.
    reflexivity.
  - apply (Z.div_unique _ _ _ (be_val s (acc * 256 + byte_val c) - (acc * 256 + byte_val c) * P)); lia.
Qed.

(** ** Frames on the wire *)

(** The bytes of one frame. *)
Definition frame (p : string) : string := be_bytes 4 (Z.of_nat (String.length p)) ++s p.
Definition frames (ps : list string) : string := foldr (fun p acc => frame p ++s acc) ""%string ps.

Definition fits_frame (p : string) : Prop := Z.of_nat (String.length p) <= MAX_FRAME.

(** Reads frames until an error; [None] when the fuel ran out first. *)
Fixpoint read_frames (fuel : nat) (s : string) : list string * option ErrorKind :=
  match fuel with
  | O => ([], None)
  | S fuel' =>
      match read_frame s with
      | (Ok p, s') => let '(ps, e) := read_frames fuel' s' in (p :: ps, e)
      | (Err e, _) => ([], Some (io_kind e))
      end
  end.

(** A frame takes at least four bytes. *)
Definition read_all (s : string) : list string * option ErrorKind := read_frames (S (String.length s)) s.

Lemma frame_length p : String.length (frame p) = (4 + String.length p)%nat.
Proof. unfold frame. by rewrite app_length_s, be_bytes_length. Qed.

Lemma frame_header p : fits_frame p -> be_val (be_bytes 4 (Z.of_nat (String.length p))) 0 = Z.of_nat (String.length p).
Proof. unfold fits_frame, MAX_FRAME. intros Hp. rewrite be_val_bytes, Z.mod_small; simpl; lia. Qed.

Lemma read_exact_ok n s : (n <= String.length s)%nat -> read_exact n s = (Ok (str_take n s), str_drop n s).
Proof. intros Hn. unfold read_exact. by rewrite (proj2 (Nat.leb_le _ _) Hn). Qed.

Lemma read_exact_eof n s : (String.length s < n)%nat -> read_exact n s = (Err (mkIo UnexpectedEof "failed to fill whole buffer"), ""%string).
Proof. intros Hn. unfold read_exact. by rewrite (proj2 (Nat.leb_gt _ _) Hn). Qed.

Lemma str_app_take a b : str_take 4 (be_bytes 4 a ++s b) = be_bytes 4 a.
Proof. rewrite <- (be_bytes_length 4 a) at 1. apply str_take_exact. Qed.
Lemma str_app_drop a b : str_drop 4 (be_bytes 4 a ++s b) = b.
Proof. rewrite <- (be_bytes_length 4 a) at 1. apply str_drop_exact. Qed.

Lemma read_frame_frame p rest : fits_frame p -> read_frame (frame p ++s rest) = (Ok p, rest).
Proof.
  intros Hp. unfold read_frame, frame, mbind. rewrite app_assoc_s.
  rewrite read_exact_ok by (rewrite app_length_s, be_bytes_length; lia).
  rewrite str_app_take, str_app_drop, frame_header by done.
  rewrite (proj2 (Z.ltb_ge _ _) Hp), Nat2Z.id, read_exact_ok by (rewrite app_length_s; lia).
  by rewrite str_take_exact, str_drop_exact.
Qed.

(** A frame cut short is an end of file. *)
Lemma read_frame_cut p n :
  fits_frame p -> (n < String.length (frame p))%nat ->
  exists s', read_frame (str_take n (frame p)) = (Err (mkIo UnexpectedEof "failed to fill whole buffer"), s').
Proof.
  intros Hp Hn. rewrite frame_length in Hn. unfold read_frame, mbind.
  destruct (decide (n < 4)%nat) as [H4|H4].
  - rewrite read_exact_eof; [by eexists|]. rewrite str_take_length, frame_length. lia.
  - unfold frame. rewrite str_take_app_ge; rewrite be_bytes_length; [|lia].
    rewrite read_exact_ok by (rewrite app_length_s, be_bytes_length; lia).
    rewrite str_app_take, str_app_drop, frame_header by done.
    rewrite (proj2 (Z.ltb_ge _ _) Hp), Nat2Z.id, read_exact_eof; [by eexists|].
    rewrite str_take_length. lia.
Qed.

(** Whatever part of a run of frames arrives, the frames read are a prefix of
    the ones sent, and the reader ends at an end of file. *)
Lemma read_frames_cut ps n fuel :
  Forall fits_frame ps -> (String.length (str_take n (frames ps)) < fuel)%nat ->
  exists k, read_frames fuel (str_take n (frames ps)) = (firstn k ps, Some UnexpectedEof) /\
            ((String.length (frames ps) <= n)%nat -> k = length ps).
Proof.
  revert n fuel; induction ps as [|p ps IH]; intros n [|fuel] HF Hf; try lia.
  - exists O. split; [|done]. by destruct n.
  - inversion HF as [|? ? Hp HF']; subst. cbn [frames foldr] in *. fold (frames ps) in *.
    destruct (decide (n < String.length (frame p))%nat) as [Hn|Hn].
    + exists O. destruct (read_frame_cut p n Hp Hn) as [s' Hr]. cbn [read_frames firstn].
      rewrite str_take_app by lia. rewrite Hr. split; [done|]. rewrite app_length_s. lia.
    + rewrite str_take_app_ge in * by lia. rewrite app_length_s, frame_length in Hf.
      destruct (IH (n - String.length (frame p))%nat fuel HF' ltac:(rewrite frame_length; lia)) as (k & Hk & Hall).
      exists (S k). cbn [read_frames firstn]. rewrite read_frame_frame by done. rewrite Hk. split; [done|].
      rewrite app_length_s. intros Hle. cbn [length]. rewrite Hall; lia.
Qed.

Lemma write_all_prefix buf sk r sk' :
  write_all buf sk = (r, sk') ->
  exists n, sk_out sk' = sk_out sk ++s str_take n buf /\ (r = Ok tt -> (String.length buf <= n)%nat) /\
            (sk_room sk = None -> r = Ok tt /\ sk_room sk' = None).
Proof.
  unfold write_all. destruct (sk_room sk) as [m|] eqn:Er.
  - destruct (_ <=? _)%nat eqn:E; intros [= <- <-]; simpl.
    + exists (String.length buf). by rewrite str_take_all.
    + exists m. done.
  - intros [= <- <-]. exists (String.length buf). by rewrite str_take_all.
Qed.

(** One write puts some prefix of the frame on the wire, all of it on success. *)
Lemma write_frame_prefix p sk r sk' :
  write_frame p sk = (r, sk') ->
  exists n, sk_out sk' = sk_out sk ++s str_take n (frame p) /\
            (r = Ok tt -> fits_frame p /\ (String.length (frame p) <= n)%nat) /\
            (n <> O -> fits_frame p) /\
            (sk_room sk = None -> fits_frame p -> r = Ok tt /\ sk_room sk' = None).
Proof.
  unfold write_frame. destruct (MAX_FRAME <? _) eqn:E; bool_prop.
  - intros [= <- <-]. exists O. cbn [str_take]. rewrite app_nil_s. unfold fits_frame. do 3 (split; [done|]). lia.
  - assert (fits_frame p) as Hp by exact E.
    replace (as_u32 (Z.of_nat (String.length p))) with (Z.of_nat (String.length p))
      by (symmetry; apply as_u32_id; unfold MAX_FRAME in E; lia).
    unfold mbind. destruct (write_all _ sk) as [[[]|e] s1] eqn:E1; intros E2.
    + apply write_all_prefix in E1 as (n1 & O1 & F1 & U1). apply write_all_prefix in E2 as (n2 & O2 & F2 & U2).
      specialize (F1 eq_refl). rewrite be_bytes_length in F1. exists (4 + n2)%nat. split.
      { rewrite O2, O1, app_assoc_s. f_equal. unfold frame. rewrite str_take_app_ge by (rewrite be_bytes_length; lia).
        rewrite be_bytes_length, str_take_all by (rewrite be_bytes_length; lia). do 2 f_equal. lia. }
      split; [intros Hr; split; [done|]; rewrite frame_length; specialize (F2 Hr); lia|]. split; [done|].
      intros Hn _. destruct (U1 Hn) as [_ Hn1]. exact (U2 Hn1).
    + injection E2 as <- <-. apply write_all_prefix in E1 as (n1 & O1 & F1 & U1).
      exists (Nat.min n1 4). split.
      { rewrite O1. f_equal. unfold frame. rewrite str_take_app by (rewrite be_bytes_length; lia).
        destruct (decide (n1 <= 4)%nat); [by rewrite Nat.min_l by lia|].
        rewrite Nat.min_r by lia. rewrite !str_take_all; rewrite ?be_bytes_length; [done|lia|lia]. }
      split; [done|]. split; [done|]. intros Hn _. by destruct (U1 Hn).
Qed.

(** What a run of writes leaves on the wire is a prefix of the frames. *)
Lemma write_frames_prefix ps sk r sk' :
  mfor ps write_frame sk = (r, sk') ->
  exists qs n, qs `prefix_of` ps /\ Forall fits_frame qs /\
    sk_out sk' = sk_out sk ++s str_take n (frames qs) /\
    (r = Ok tt -> qs = ps /\ (String.length (frames ps) <= n)%nat) /\
    (sk_room sk = None -> Forall fits_frame ps -> r = Ok tt).
Proof.
  revert sk; induction ps as [|p ps IH]; intros sk; simpl.
  - intros [= <- <-]. exists [], O. simpl. rewrite app_nil_s. done.
  - unfold mbind. destruct (write_frame p sk) as [[[]|e] s1] eqn:E1; intros E2;
      apply write_frame_prefix in E1 as (n1 & O1 & F1 & N1 & U1).
    + destruct (F1 eq_refl) as [Hp Hn1].
      apply IH in E2 as (qs & n & Hpre & Hq & O2 & F2 & U2). exists (p :: qs), (String.length (frame p) + n)%nat.
      split; [by apply prefix_cons|]. split; [by constructor|]. split.
      { rewrite O2, O1, app_assoc_s, (str_take_all n1) by lia. f_equal. cbn [frames foldr].
        rewrite str_take_app_ge by lia. do 2 f_equal. lia. }
      split; [intros Hr; destruct (F2 Hr) as [-> Hl]; split; [done|]; change (frames (p :: ps)) with (frame p ++s frames ps); rewrite app_length_s, !frame_length; lia|].
      intros Hn HF. inversion HF; subst. destruct (U1 Hn) as [_ Hn2]; [done|]. by apply U2.
    + injection E2 as <- <-. destruct (decide (n1 = O)) as [->|Hn0].
      * exists [], O. split; [apply prefix_nil|]. split; [constructor|]. split; [exact O1|]. split; [done|].
        intros Hn HF. inversion HF; subst. by destruct (U1 Hn).
      * exists [p], (Nat.min n1 (String.length (frame p))). split; [by apply prefix_cons, prefix_nil|].
        split; [repeat constructor; auto|]. split.
        { rewrite O1. f_equal. cbn [frames foldr]. rewrite app_nil_s.
          destruct (decide (n1 <= String.length (frame p))%nat); [by rewrite Nat.min_l by lia|].
          rewrite Nat.min_r by lia. rewrite !str_take_all; [done|lia|lia]. }
        split; [done|]. intros Hn HF. inversion HF; subst. by destruct (U1 Hn).
Qed.

Lemma str_take_take n m s : str_take n (str_take m s) = str_take (Nat.min n m) s.
Proof. revert m s; induction n as [|n IH]; intros [|m] [|c s]; simpl; try done. by rewrite IH. Qed.

Lemma prefix_firstn {A} (l1 l2 : list A) k : l1 `prefix_of` l2 -> exists k', firstn k l1 = firstn k' l2.
Proof. intros [l ->]. exists (Nat.min k (length l1)). by rewrite <- firstn_firstn, firstn_app, Nat.sub_diag, firstn_all, app_nil_r. Qed.

(** ** Claims *)

(**  frames survive a connection that breaks anywhere.  Whatever payloads are
    written, whatever room the connection has and whatever number of bytes
    reaches the peer, the peer reads a prefix of the payloads, unchanged and in
    order, and then an end of file; it reads all of them when every write
    succeeded and every byte arrived, and every write does succeed on a
    connection that stays up when no payload is over the limit. *)
Theorem frames_delivered (ps : list string) (room : option nat) (n : nat) :
  let '(r, sk) := mfor ps write_frame (mkSink "" room) in
  exists k, read_all (str_take n (sk_out sk)) = (firstn k ps, Some UnexpectedEof) /\
            (r = Ok tt -> (String.length (sk_out sk) <= n)%nat -> k = length ps) /\
            (room = None -> Forall fits_frame ps -> r = Ok tt).
Proof.
  destruct (mfor ps write_frame (mkSink "" room)) as [r sk] eqn:E.
  apply write_frames_prefix in E as (qs & m & Hpre & HF & Ho & Hr & Hroom). simpl in Ho, Hroom.
  rewrite Ho, str_take_take.
  destruct (read_frames_cut qs (Nat.min n m) _ HF (Nat.lt_succ_diag_r _)) as (k & Hk & Hall).
  destruct r as [[]|e].
  - destruct (Hr eq_refl) as [-> Hm]. exists k. split; [exact Hk|]. split; [|done]. intros _ Hn. apply Hall.
    rewrite str_take_length in Hn. lia.
  - destruct (prefix_firstn qs ps k Hpre) as [k' Hk']. exists k'. unfold read_all. rewrite Hk, Hk'. done.
Qed.

(**  [read_frame] accepts exactly the encodings of payloads within the limit:
    it returns a payload when, and only when, the stream starts with its length in
    four big-endian bytes and its bytes, and consumes exactly those.  A length
    prefix over the limit is refused before anything is allocated. *)
Theorem read_frame_exact (s p rest : string) :
  (read_frame s = (Ok p, rest) <-> s = frame p ++s rest /\ fits_frame p) /\
  (MAX_FRAME < be_val (str_take 4 s) 0 -> (4 <= String.length s)%nat ->
   read_frame s = (Err (mkIo InvalidData "frame too large"), str_drop 4 s)).
Proof.
  split; [split|].
  - unfold read_frame, mbind. destruct (read_exact 4 s) as [[h|e] s1] eqn:E1; [|done].
    unfold read_exact in E1. destruct (4 <=? _)%nat eqn:H4; [|done]. apply Nat.leb_le in H4.
    injection E1 as <- <-. destruct (MAX_FRAME <? _) eqn:Em; [done|]. bool_prop.
    unfold read_exact. destruct (_ <=? String.length _)%nat eqn:Hl; [|done]. apply Nat.leb_le in Hl.
    intros [= <- <-].
    assert (String.length (str_take 4 s) = 4%nat) as L4 by (rewrite str_take_length; lia).
    unfold frame, fits_frame. rewrite !str_take_length, !Nat.min_l by lia.
    rewrite Z2Nat.id by (by apply be_val_nonneg).
    split; [|done]. pose proof (be_bytes_val (str_take 4 s) 0 (Z.le_refl 0)) as Hh. rewrite L4 in Hh.
    by rewrite Hh, app_assoc_s, !str_take_drop.
  - intros [-> Hp]. by apply read_frame_frame.
  - intros Hm H4. unfold read_frame, mbind. rewrite read_exact_ok by done. by rewrite (proj2 (Z.ltb_lt _ _) Hm).
Qed.

Lemma read_frame_exact_witness :
  let s := (frame "hi" ++s "rest")%string in
  read_frame s = (Ok "hi"%string, "rest"%string) /\
  read_frame (be_bytes 4 (MAX_FRAME + 1) ++s "x") = (Err (mkIo InvalidData "frame too large"), "x"%string).
Proof.
  split.
  - apply (proj1 (read_frame_exact _ _ _)). split; [reflexivity|]. by vm_compute.
  - apply (proj2 (read_frame_exact (be_bytes 4 (MAX_FRAME + 1) ++s "x") "" "")); [reflexivity|cbn; lia].
Defined.

(** The frame of an output or of an input event. *)
Definition exec_frame (o : ExecOutput) : string :=
  match o with
  | Stdout d => exec_stdout_frame d
  | Stderr d => exec_stderr_frame d
  | Exit c => exec_exit_frame c
  end.

Definition exec_ok (o : ExecOutput) : Prop :=
  match o with Exit c => in_i32 c | _ => True end.

Definition pty_frame (i : PtyInput) : string :=
  match i with Stdin d => pty_stdin_frame d | Resize c r => pty_resize_frame c r end.

Definition pty_ok (i : PtyInput) : Prop :=
  match i with Resize c r => in_u16 c /\ in_u16 r | _ => True end.

Lemma as_i32_mod c : in_i32 c -> as_i32 (c mod 2 ^ 32) = c.
Proof.
  unfold in_i32, as_i32. intros Hc. rewrite Zplus_mod_idemp_l, Z.mod_small; lia.
Qed.

Lemma as_i32_range c : in_i32 (as_i32 c).
Proof. unfold in_i32, as_i32. pose proof (Z.mod_pos_bound (c + 2 ^ 31) (2 ^ 32)). lia. Qed.

Lemma be_bytes_mod n z z' : z mod 256 ^ Z.of_nat n = z' mod 256 ^ Z.of_nat n -> be_bytes n z = be_bytes n z'.
Proof.
  intros Hm.
  rewrite <- (be_bytes_val (be_bytes n z) 0), <- (be_bytes_val (be_bytes n z') 0) by lia.
  by rewrite !be_bytes_length, !be_val_bytes, Hm.
Qed.

Lemma as_i32_bytes s : String.length s = 4%nat -> be_bytes 4 (as_i32 (be_val s 0)) = s.
Proof.
  intros Hl. rewrite <- (be_bytes_val s 0) at 2 by lia. rewrite Hl. apply be_bytes_mod.
  unfold as_i32. change (256 ^ Z.of_nat 4) with (2 ^ 32).
  rewrite Zminus_mod_idemp_l. f_equal. lia.
Qed.

Lemma push_kind k data c rest : 0 <= k < 256 -> String c rest = push k data <-> byte_val c = k /\ rest = data.
Proof.
  intros Hk. unfold push. split.
  - intros [= -> ->]. by rewrite byte_val_of.
  - intros [<- ->]. by rewrite byte_of_val.
Qed.

Lemma parse_exec_frame o : exec_ok o -> parse_exec_output (exec_frame o) = Some o.
Proof.
  destruct o as [d|d|c]; intros Ho; [done|done|]. cbn [exec_frame exec_exit_frame]. unfold exec_exit_frame, push, parse_exec_output.
  rewrite byte_val_of by (unfold EXEC_KIND_EXIT; lia). cbn [String.length]. rewrite be_bytes_length, be_val_bytes. simpl.
  do 2 f_equal. by apply as_i32_mod.
Qed.

Lemma parse_exec_inv p o : parse_exec_output p = Some o -> p = exec_frame o /\ exec_ok o.
Proof.
  destruct p as [|k d]; [done|]. unfold parse_exec_output.
  destruct (byte_val k =? EXEC_KIND_STDOUT) eqn:E0; bool_prop.
  { intros [= <-]. split; [by apply push_kind|done]. }
  destruct (byte_val k =? EXEC_KIND_STDERR) eqn:E1; bool_prop.
  { intros [= <-]. split; [by apply push_kind|done]. }
  destruct (_ && _) eqn:E2; [|done]. bool_prop. apply Nat.eqb_eq in H0. injection H0 as H0.
  intros [= <-]. split; [|apply as_i32_range]. apply push_kind; [done|]. split; [done|]. by rewrite as_i32_bytes.
Qed.

Lemma parse_pty_frame i : pty_ok i -> parse_pty_input (pty_frame i) = Some i.
Proof.
  destruct i as [d|c r]; intros Hi; [done|]. unfold pty_frame, pty_resize_frame, push, parse_pty_input.
  rewrite byte_val_of by (unfold PTY_KIND_RESIZE; lia). cbn [String.length]. rewrite app_length_s, !be_bytes_length.
  cbn [Z.eqb PTY_KIND_RESIZE PTY_KIND_STDIN Pos.eqb andb Nat.add Nat.eqb].
  rewrite <- (be_bytes_length 2 c) at 1. rewrite str_take_exact.
  rewrite <- (be_bytes_length 2 c) at 2. rewrite str_drop_exact. rewrite !be_val_bytes.
  destruct Hi. unfold in_u16 in *. rewrite !Z.mod_small by (simpl; lia). done.
Qed.

Lemma parse_pty_inv p i : parse_pty_input p = Some i -> p = pty_frame i /\ pty_ok i.
Proof.
  destruct p as [|k d]; [done|]. unfold parse_pty_input.
  destruct (byte_val k =? PTY_KIND_STDIN) eqn:E0; bool_prop.
  { intros [= <-]. split; [by apply push_kind|done]. }
  destruct (_ && _) eqn:E2; [|done]. bool_prop. apply Nat.eqb_eq in H0. injection H0 as H0.
  intros [= <-].
  assert (String.length (str_take 2 d) = 2%nat) as L1 by (rewrite str_take_length; lia).
  assert (String.length (str_drop 2 d) = 2%nat) as L2.
  { rewrite <- (str_take_drop 2 d), app_length_s in H0. lia. }
  split.
  - apply push_kind; [done|]. split; [done|]. rewrite <- (str_take_drop 2 d) at 1.
    pose proof (be_bytes_val (str_take 2 d) 0 (Z.le_refl 0)) as B1. rewrite L1 in B1.
    pose proof (be_bytes_val (str_drop 2 d) 0 (Z.le_refl 0)) as B2. rewrite L2 in B2. by rewrite B1, B2.
  - pose proof (be_val_small (str_take 2 d) 0). pose proof (be_val_small (str_drop 2 d) 0).
    rewrite L1 in *. rewrite L2 in *. unfold pty_ok, in_u16. simpl in *. lia.
Qed.

(**  the tagged payloads are unambiguous.  The host parses a guest's payload
    to an output exactly when it is the frame of that output, and the guest
    parses a payload to a terminal input exactly when it is the frame of that
    input (window sizes are [u16], exit codes [i32]); every other payload is
    refused. *)
Theorem payloads_canonical (p : string) :
  (forall o, parse_exec_output p = Some o <-> p = exec_frame o /\ exec_ok o) /\
  (forall i, parse_pty_input p = Some i <-> p = pty_frame i /\ pty_ok i).
Proof.
  split; intros x; (split; [auto using parse_exec_inv, parse_pty_inv|]); intros [-> Hx];
    auto using parse_exec_frame, parse_pty_frame.
Qed.

(** ** Messages *)

Section Messages.
Context {T : Type} `{SerdeLaws T}.

(** A message whose document fits in a frame. *)
Definition sendable (m : T) : Prop :=
  representable m /\ (forall b, to_vec m = Ok b -> fits_frame b).

(** Reads [n] messages. *)
Fixpoint read_msgs (n : nat) : M string IoError (list T) :=
  match n with
  | O => mret []
  | S n' => let? m := read_msg in let? ms := read_msgs n' in mret (m :: ms)
  end.

Lemma write_msg_ok (m : T) out :
  sendable m -> exists b, write_msg m (mkSink out None) = (Ok tt, mkSink (out ++s frame b) None) /\
                          fits_frame b /\ from_vec b = Ok m.
Proof.
  intros [Hr Hf]. destruct (serde_roundtrip m Hr) as (b & Hb & Hv). exists b. specialize (Hf b Hb).
  unfold write_msg, mbind. rewrite Hb. simpl. unfold write_frame. rewrite (proj2 (Z.ltb_ge _ _) Hf).
  unfold mbind, write_all. simpl. rewrite app_assoc_s. unfold frame.
  rewrite as_u32_id; [done|]. unfold fits_frame, MAX_FRAME in Hf. lia.
Qed.

Lemma read_msg_frame b (m : T) rest :
  fits_frame b -> from_vec b = Ok m -> read_msg (frame b ++s rest) = (Ok m, rest).
Proof. intros Hf Hv. unfold read_msg, mbind. rewrite read_frame_frame by done. by rewrite Hv. Qed.

Lemma messages_sent (ms : list T) out :
  Forall sendable ms ->
  exists w, mfor ms write_msg (mkSink out None) = (Ok tt, mkSink (out ++s w) None) /\
            forall rest, read_msgs (length ms) (w ++s rest) = (Ok ms, rest).
Proof.
  intros HF; revert out; induction HF as [|m ms Hm HF IH]; intros out.
  - exists ""%string. by rewrite app_nil_s.
  - destruct (write_msg_ok m out Hm) as (b & Hw & Hf & Hv).
    destruct (IH (out ++s frame b)) as (w & Hws & Hr). exists (frame b ++s w).
    cbn [mfor length read_msgs]. unfold mbind at 1 2 3. rewrite Hw, Hws, app_assoc_s. split; [done|].
    intros rest. rewrite app_assoc_s, (read_msg_frame _ m) by done. unfold mbind. by rewrite Hr.
Qed.
End Messages.

(** [from_slice] on the two message types, through the reference document model:
    a missing field, a field of the wrong type, a number out of range or an
    unknown tag is an error. *)
Section Decode.
Context `{SerdeJson}.

Definition get_bounded (v : Value) (k : string) (max : Z) : option Z :=
  match vget v k with
  | Some x => match vas_u64 x with Some n => if n <=? max then Some n else None | None => None end
  | None => None
  end.

Definition get_i32 (v : Value) (k : string) : option Z :=
  match vget v k with
  | Some x => match vas_i64 x with
              | Some n => if (- 2 ^ 31 <=? n) && (n <? 2 ^ 31) then Some n else None
              | None => None
              end
  | None => None
  end.

Definition request_of (v : Value) : option Request :=
  t ← get_str v "type";
  if String.eqb t "ping" then Ping <$> get_str v "data"
  else if String.eqb t "exec" then Exec <$> get_str v "cmd"
  else if String.eqb t "exec_stream" then ExecStream <$> get_str v "cmd"
  else if String.eqb t "reinit" then
    s ← get_str v "seed_hex"; h ← get_str v "hostname"; Reinit s h <$> get_bounded v "wall_time_ns" u64_max
  else if String.eqb t "connect" then Connect <$> get_bounded v "port" (2 ^ 32 - 1)
  else if String.eqb t "pty" then
    c ← get_bounded v "cols" (2 ^ 16 - 1); Pty c <$> get_bounded v "rows" (2 ^ 16 - 1)
  else if String.eqb t "wipe_keys" then Some WipeKeys
  else None.

Definition response_of (v : Value) : option Response :=
  t ← get_str v "type";
  if String.eqb t "pong" then Pong <$> get_str v "data"
  else if String.eqb t "exec" then
    c ← get_i32 v "exit_code"; o ← get_str v "stdout"; ExecDone c o <$> get_str v "stderr"
  else if String.eqb t "reinit" then
    m ← get_str v "machine_id"; r ← get_str v "rng_hex"; ReinitDone m r <$> get_str v "session_key_hex"
  else if String.eqb t "error" then Error <$> get_str v "message"
  else if String.eqb t "ok" then Some Acked
  else None.

Definition decode_with {T} (conv : Value -> option T) (b : string) : result T string :=
  match from_slice b with
  | Some v => match conv v with Some m => Ok m | None => Err "invalid message"%string end
  | None => Err "invalid JSON"%string
  end.

#[export] Instance request_serde : Serde Request := {|
  to_vec := fun m => Ok (render (request_json m)); from_vec := decode_with request_of |}.
#[export] Instance response_serde : Serde Response := {|
  to_vec := fun m => Ok (render (response_json m)); from_vec := decode_with response_of |}.
End Decode.

Definition request_ok (m : Request) : Prop :=
  match m with
  | Ping s | Exec s | ExecStream s => plain_text s = true
  | Reinit s h t => plain_text s = true /\ plain_text h = true /\ in_u64 t
  | Connect p => in_u32 p
  | Pty c r => in_u16 c /\ in_u16 r
  | WipeKeys => True
  end.

Definition response_ok (m : Response) : Prop :=
  match m with
  | Pong s | Error s => plain_text s = true
  | ExecDone c o e => in_i32 c /\ plain_text o = true /\ plain_text e = true
  | ReinitDone m r k => plain_text m = true /\ plain_text r = true /\ plain_text k = true
  | Acked => True
  end.

Section DecodeLaws.
Context `{SerdeJsonLaws}.

Lemma get_bounded_field fs k n max :
  field fs k = Some (JNum n) -> in_u64 n -> n <= max -> get_bounded (of_json (JObj fs)) k max = Some n.
Proof.
  intros Hf Hn Hm. unfold get_bounded. rewrite vget_obj, Hf. simpl. rewrite vas_u64_num by auto.
  destruct Hn as [Hn _]. rewrite (proj2 (Z.leb_le _ _) Hn). by rewrite (proj2 (Z.leb_le _ _) Hm).
Qed.

Lemma get_i32_field fs k n :
  field fs k = Some (JNum n) -> in_i32 n -> get_i32 (of_json (JObj fs)) k = Some n.
Proof.
  intros Hf Hn. unfold get_i32. rewrite vget_obj, Hf. simpl.
  rewrite vas_i64_num by (unfold in_i32, in_i64, i64_min, i64_max in *; lia).
  destruct Hn as [H1 H2]. rewrite (proj2 (Z.leb_le _ _) H1). by rewrite (proj2 (Z.ltb_lt _ _) H2).
Qed.

(** Resolves the tag, then the fields of its variant. *)
Ltac fields := erewrite (get_str_field _ "type") by reflexivity; simpl; repeat (first
  [ erewrite get_str_field by reflexivity
  | erewrite get_bounded_field by (first [reflexivity | unfold in_u16, in_u32, in_u64, u64_max in *; lia])
  | erewrite get_i32_field by (first [reflexivity | assumption]) ]; simpl).

Lemma wf_i64 n : in_i64 n -> wf_json (JNum n) = true.
Proof. intros [H1 H2]. cbn [wf_json]. apply andb_true_intro. unfold i64_min, i64_max, u64_max in *. rewrite !Z.leb_le. lia. Qed.

Ltac wf := cbn [wf_json forallb tagged fst snd];
  repeat first
    [ reflexivity | assumption
    | apply andb_true_intro; split
    | apply (wf_num _); unfold in_u16, in_u32, in_u64, u64_max in *; lia
    | apply (wf_i64 _); unfold in_i32, in_i64, i64_min, i64_max in *; lia
    | apply Z.leb_le; unfold in_i32, in_u16, in_u32, in_u64, i64_min, u64_max in *; lia ].

Lemma request_wf m : request_ok m -> wf_json (request_json m) = true.
Proof. destruct m; cbn [request_ok request_json]; intros; destruct_and?; unfold tagged; wf. Qed.

Lemma response_wf m : response_ok m -> wf_json (response_json m) = true.
Proof. destruct m; cbn [response_ok response_json]; intros; destruct_and?; unfold tagged; wf. Qed.

Lemma request_of_json m : request_ok m -> request_of (of_json (request_json m)) = Some m.
Proof. destruct m; cbn [request_ok request_json]; intros; destruct_and?; unfold request_of, tagged; fields; done. Qed.

Lemma response_of_json m : response_ok m -> response_of (of_json (response_json m)) = Some m.
Proof. destruct m; cbn [response_ok response_json]; intros; destruct_and?; unfold response_of, tagged; fields; done. Qed.

#[export] Instance request_serde_laws : SerdeLaws Request.
Proof.
  refine {| representable := request_ok |}. intros m Hm. eexists. split; [reflexivity|].
  unfold from_vec, request_serde, decode_with. rewrite from_slice_render by by apply request_wf.
  by rewrite request_of_json.
Defined.

#[export] Instance response_serde_laws : SerdeLaws Response.
Proof.
  refine {| representable := response_ok |}. intros m Hm. eexists. split; [reflexivity|].
  unfold from_vec, response_serde, decode_with. rewrite from_slice_render by by apply response_wf.
  by rewrite response_of_json.
Defined.
End DecodeLaws.

(**  the messages of a conversation are read back as they were sent.  For a
    message type whose serialization [serde_json] inverts, writing any messages
    whose documents fit in a frame succeeds, and reading as many messages off the
    bytes returns the same ones and consumes exactly their bytes.  [Request] and
    [Response] with the derived document formats are such types. *)
Theorem messages_roundtrip {T : Type} `{SerdeLaws T} (ms : list T) :
  Forall sendable ms ->
  exists w, mfor ms write_msg (mkSink "" None) = (Ok tt, mkSink w None) /\
            forall rest, read_msgs (length ms) (w ++s rest) = (Ok ms, rest).
Proof. intros HF. destruct (messages_sent ms "" HF) as (w & Hw & Hr). by exists w. Qed.

Definition requests_sent : list Request :=
  [Reinit "deadbeef" "sandlocker-abcd1234" 1722800000000000000; Pty 80 24; Exec "echo $HOME"; WipeKeys].

Import RefJson.

Lemma messages_roundtrip_witness :
  exists w, mfor requests_sent write_msg (mkSink "" None) = (Ok tt, mkSink w None) /\
            read_msgs 4 (w ++s "tail") = (Ok requests_sent, "tail"%string).
Proof.
  destruct (messages_roundtrip requests_sent) as (w & Hw & Hr).
  - repeat constructor; cbn [representable request_serde_laws request_ok];
      try (intros b [= <-]; vm_compute; discriminate); repeat split; vm_compute; try reflexivity; discriminate.
  - exists w. split; [exact Hw|exact (Hr "tail"%string)].
Defined.

Example ping_on_the_wire :
  write_msg (Ping "a") (mkSink "" None) =
    (Ok tt, mkSink (be_bytes 4 26 ++s render (request_json (Ping "a"))) None).
Proof. vm_compute. reflexivity. Qed.
