(* ===== verification/Snapcrypt.v ===== *)
(** * Snapshot envelope encryption (crates/sl-node/src/snapcrypt.rs)

    The [SLSNAP1] container: a plain header (with the data key wrapped by the
    tenant's key) and fixed-size chunks, each sealed with AES-256-GCM under the
    data key, a nonce made from its index and the header fields as associated
    data.  The cipher ([ring]) is a parameter with the two equations it
    satisfies; randomness ([host_random]) is an argument; the file system is a map
    from paths to contents with a bound on the bytes that can still be written. *)

From Stdlib Require Import ZArith Lia Bool List String Ascii.
From stdpp Require Import base tactics list gmap strings sorting.
From S2P Require Import Prelude RustStr Utf8 Json Proto.

Open Scope Z_scope.

(** ** Constants *)

Definition MAGIC : string := "SLSNAP1" ++s String (byte_of 0) "".
Definition VERSION : Z := 1.
Definition ALGO_AES256GCM : Z := 1.
Definition TAG_LEN : Z := 16.
Definition NONCE_LEN : Z := 12.
Definition CHUNK_SIZE : Z := 4 * 1024 * 1024.
Definition KEY_LEN : Z := 32.

(** ** The cipher *)

(** Key, nonce, associated data, text; a sealed text carries its tag. *)
Class Aead : Type := {
  seal : string -> string -> string -> string -> string;
  open_sealed : string -> string -> string -> string -> option string
}.

(** AES-GCM decrypts what it encrypted, adds 16 bytes, and accepts no text but
    the sealed form of what it returns (the tag is a function of the key, the
    nonce, the associated data and the ciphertext). *)
Class AeadLaws `{Aead} : Type := {
  open_seal : forall k n a p, open_sealed k n a (seal k n a p) = Some p;
  seal_open : forall k n a c p, open_sealed k n a c = Some p -> c = seal k n a p;
  seal_length : forall k n a p, String.length (seal k n a p) = (String.length p + 16)%nat
}.

(** ** Keys *)

(** [Key([u8; 32])] *)
Definition Key := string.
Definition key_ok (k : Key) : Prop := String.length k = 32%nat.

Record SnapKey : Type := mkSnapKey { sk_kek : Key; sk_kek_id : string }.

(** A call returns an error, or panics. *)
Inductive SnapError : Type :=
| Failed (msg : string)
| Panic.

Section Blob.
Context `{Aead}.

Definition KEK_AAD : string := "sandlocker/kek/v1".
Definition DEK_AAD : string := "sandlocker/dek/v1".

Definition seal_blob (nonce key plain aad : string) : string := nonce ++s seal key nonce aad plain.

Definition open_blob (key wrapped aad : string) : result string string :=
  if (String.length wrapped <? 12 + 16)%nat then Err "被包裹的密钥过短"%string
  else
    let n := str_take 12 wrapped in
    let body := str_drop 12 wrapped in
    match open_sealed key n aad body with
    | Some p => Ok p
    | None => Err "解裹密钥失败（根密钥不对，或密文被篡改）"%string
    end.

(** [FileKms::wrap_kek], [FileKms::unwrap_kek] with the root key. *)
Definition wrap_kek (nonce root : string) (kek : Key) : result string string :=
  Ok (seal_blob nonce root kek KEK_AAD).

Definition key_of_blob (what : string) (r : result string string) : result Key string :=
  match r with
  | Err e => Err e
  | Ok raw => if (String.length raw =? 32)%nat then Ok raw
              else Err ("解裹后的 " ++s what ++s " 长度异常")
  end.

Definition unwrap_kek (root wrapped : string) : result Key string :=
  key_of_blob "KEK" (open_blob root wrapped KEK_AAD).

(** [{mode:o}] of permission bits. *)
Definition octal (mode : Z) : string :=
  if mode <? 8 then dec mode
  else if mode <? 64 then dec (mode / 8) ++s dec (mode mod 8)
  else dec (mode / 64) ++s dec (mode / 8 mod 8) ++s dec (mode mod 8).

(** [FileKms::open] on the file's mode and contents. *)
Definition file_kms_open (path : string) (st_mode : Z) (raw : string) : result Key string :=
  let mode := Z.land st_mode 511 in
  if negb (Z.land mode 63 =? 0) then
    Err ("KMS 根密钥 " ++s path ++s " 权限为 " ++s octal mode ++s "，须为 0600（组/其他用户不可读）")
  else if (String.length raw =? 32)%nat then Ok raw
  else Err ("KMS 根密钥须恰好 32 字节，实为 " ++s dec (Z.of_nat (String.length raw))).
End Blob.

(** ** The header *)

Record Header : Type := mkHeader {
  h_chunk_size : Z;
  h_plain_len : Z;
  h_kek_id : string;
  h_wrapped_dek : string;
  h_header_len : Z
}.

Definition header_fixed (h : Header) : string :=
  MAGIC ++s be_bytes 2 VERSION ++s be_bytes 2 ALGO_AES256GCM ++s
  be_bytes 4 (h_chunk_size h) ++s be_bytes 8 (h_plain_len h).

Definition header_aad (h : Header) (idx : Z) : string :=
  header_fixed h ++s h_kek_id h ++s be_bytes 8 idx.

(** [a.div_ceil(b)] *)
Definition div_ceil (a b : Z) : Z := if a mod b =? 0 then a / b else a / b + 1.

Definition chunks (h : Header) : Z := div_ceil (h_plain_len h) (h_chunk_size h).

Definition chunk_offset (h : Header) (idx : Z) : Z :=
  u64_add (h_header_len h) (as_u64 (idx * (h_chunk_size h + TAG_LEN))).

Definition chunk_len (h : Header) (idx : Z) : Z :=
  let start := as_u64 (idx * h_chunk_size h) in
  Z.min (as_u64 (h_plain_len h - start)) (h_chunk_size h) + TAG_LEN.

(** A [u16] length and the bytes. *)
Definition len_prefixed (s : string) : string := be_bytes 2 (as_u16 (Z.of_nat (String.length s))) ++s s.

Definition encode (h : Header) : string :=
  header_fixed h ++s len_prefixed (h_kek_id h) ++s len_prefixed (h_wrapped_dek h).

(** Reading from a file is reading off its bytes. *)
Definition read_or (what : string) (n : nat) : M string SnapError string := fun s =>
  match read_exact n s with
  | (Ok b, s') => (Ok b, s')
  | (Err e, s') => (Err (Failed (what ++s "失败: " ++s io_text e)), s')
  end.

Definition read_len_prefixed (what : string) : M string SnapError string :=
  let? l := read_or ("读 " ++s what ++s " 长度") 2 in
  read_or ("读 " ++s what) (Z.to_nat (be_val l 0)).

(** [f.stream_position()]: the file's length less what is left of it. *)
Definition stream_position (total : nat) : M string SnapError Z :=
  fun s => (Ok (Z.of_nat total - Z.of_nat (String.length s)), s).

Definition header_read_from (total : nat) : M string SnapError Header :=
  let? fixed := read_or "读头部" 24 in
  if negb (String.eqb (str_take 8 fixed) MAGIC) then mfail (Failed "不是 SLSNAP1 加密快照（魔数不符）")
  else
    let version := be_val (str_take 2 (str_drop 8 fixed)) 0 in
    if negb (version =? VERSION) then
      mfail (Failed ("快照格式版本 " ++s dec version ++s " 不受支持（本版支持 1）"))
    else
      let algo := be_val (str_take 2 (str_drop 10 fixed)) 0 in
      if negb (algo =? ALGO_AES256GCM) then mfail (Failed ("快照算法号 " ++s dec algo ++s " 不受支持"))
      else
        let chunk_size := be_val (str_take 4 (str_drop 12 fixed)) 0 in
        if chunk_size =? 0 then mfail (Failed "头部 chunk_size 为 0")
        else
          let plain_len := be_val (str_drop 16 fixed) 0 in
          let? kek_id := read_len_prefixed "kek_id" in
          if negb (valid_utf8 kek_id) then mfail (Failed "kek_id 非 UTF-8")
          else
            let? wrapped_dek := read_len_prefixed "wrapped_dek" in
            let? header_len := stream_position total in
            mret (mkHeader chunk_size plain_len kek_id wrapped_dek header_len).

Definition unwrap_dek `{Aead} (h : Header) (kek : Key) : result Key string :=
  key_of_blob "DEK" (open_blob kek (h_wrapped_dek h) DEK_AAD).

(** [0u32 || be64(idx)] *)
Definition nonce_for (idx : Z) : string := be_bytes 4 0 ++s be_bytes 8 idx.

(** ** Files

    The regular files by name, the room that is left on the disk, and the faults
    that the next calls of the file system run into: [None] is a call that works,
    [Some (e, n)] one that fails with [e], when it is a write after [n] bytes.  An
    open file is a name and a position: nothing is unlinked or renamed while it
    is read, so that a file written over itself is read as it is then.  Two names
    of one file are not modelled here. *)

Definition Fault : Type := (string * nat)%type.

Record Fs : Type := mkFs {
  fs_files : gmap string string;
  fs_room : option nat;
  fs_faults : list (option Fault)
}.

(** No call fails. *)
Definition reliable (fs : Fs) : Prop := fs_room fs = None /\ fs_faults fs = [].

(** The next call fails, or works. *)
Definition next_fault (fs : Fs) : option Fault * Fs :=
  match fs_faults fs with
  | [] => (None, fs)
  | f :: fl => (f, mkFs (fs_files fs) (fs_room fs) fl)
  end.

(** A call that gives nothing but its success. *)
Definition fs_call (failed : string) : M Fs SnapError unit := fun fs =>
  match next_fault fs with
  | (None, fs') => (Ok tt, fs')
  | (Some (e, _), fs') => (Err (Failed (failed ++s ": " ++s e)), fs')
  end.

Definition set_file (p c : string) (fs : Fs) : Fs := mkFs (<[p := c]> (fs_files fs)) (fs_room fs) (fs_faults fs).
Definition content (p : string) (fs : Fs) : string := default ""%string (fs_files fs !! p).

Definition fs_open (what p : string) : M Fs SnapError unit :=
  let? _ := fs_call (what ++s " " ++s p ++s " 失败") in
  fun fs => match fs_files fs !! p with
            | Some _ => (Ok tt, fs)
            | None => (Err (Failed (what ++s " " ++s p ++s " 失败: No such file or directory (os error 2)")), fs)
            end.

(** [inf.metadata()?.len()] *)
Definition fs_len (p : string) : M Fs SnapError Z :=
  let? _ := fs_call ("取 " ++s p ++s " 大小失败") in
  fun fs => (Ok (Z.of_nat (String.length (content p fs))), fs).

(** Made, or emptied when it is there. *)
Definition create_private (p : string) : M Fs SnapError unit :=
  let? _ := fs_call ("建 " ++s p ++s " 失败") in
  fun fs => (Ok tt, set_file p "" fs).

(** [write_all] at the end of the file; a write that fails has written a beginning
    of the bytes, a full disk takes the bytes that fit. *)
Definition fs_append (what p buf : string) : M Fs SnapError unit := fun fs =>
  let '(f, fs1) := next_fault fs in
  let '(r, sk) := write_all (match f with Some (_, n) => str_take n buf | None => buf end) (mkSink (content p fs1) (fs_room fs1)) in
  (match f, r with
   | Some (e, _), _ => Err (Failed (what ++s "失败: " ++s e))
   | None, Ok _ => Ok tt
   | None, Err e => Err (Failed (what ++s "失败: " ++s io_text e))
   end, mkFs (<[p := sk_out sk]> (fs_files fs1)) (sk_room sk) (fs_faults fs1)).

(** [read_exact] of [n] bytes at a position. *)
Definition fs_read (what p : string) (pos n : nat) : M Fs SnapError string :=
  let? _ := fs_call (what ++s "失败") in
  fun fs => (fst (read_or what n (str_drop pos (content p fs))), fs).

(** [Header::read_from]: the header and the position after it.  That a read of
    the header fails is one fault. *)
Definition fs_header (p : string) : M Fs SnapError (Header * nat) :=
  let? _ := fs_call "读头部失败" in
  fun fs =>
    let c := content p fs in
    match header_read_from (String.length c) c with
    | (Ok h, rest) => (Ok (h, String.length c - String.length rest)%nat, fs)
    | (Err e, _) => (Err e, fs)
    end.

(** [FileKms::init]: a new root key of [random] bytes; one that is there is not touched. *)
Definition file_kms_init (p random : string) : M Fs SnapError unit := fun fs =>
  match fs_files fs !! p with
  | Some _ => (Err (Failed (p ++s " 已存在——拒绝覆盖根密钥（覆盖 = 所有既有快照永久不可解）")), fs)
  | None => (let? _ := create_private p in fs_append "写根密钥" p random) fs
  end.

(** *** Shredding *)

Definition ZERO_LEN : Z := 1024 * 1024.

Definition zeros (n : nat) : string := string_of_list_ascii (repeat (byte_of 0) n).

(** Bytes over what is there, from a position on. *)
Definition overwrite (pos : nat) (buf c : string) : string :=
  str_take pos c ++s buf ++s str_drop (pos + String.length buf) c.

(** The [while left > 0] loop: a write that fails ends it.  [fuel] bounds the
    writes. *)
Fixpoint zero_fill_loop (fuel : nat) (p : string) (pos : nat) (left : Z) (fs : Fs) : Fs :=
  match fuel with
  | O => fs
  | S fuel' =>
      if 0 <? left then
        let n := Z.to_nat (Z.min left ZERO_LEN) in
        match next_fault fs with
        | (Some (_, m), fs1) => set_file p (overwrite pos (str_take m (zeros n)) (content p fs1)) fs1
        | (None, fs1) =>
            zero_fill_loop fuel' p (pos + n) (left - Z.of_nat n) (set_file p (overwrite pos (zeros n) (content p fs1)) fs1)
        end
      else fs
  end.

(** Zeros over the file, as far as it can be written, and [sync_all], whose
    result is not looked at. *)
Definition zero_file (p : string) (fs : Fs) : Fs :=
  match fs_files fs !! p with
  | None => fs
  | Some c =>
      match next_fault fs with                             (* metadata *)
      | (Some _, fs1) => fs1
      | (None, fs1) =>
          match next_fault fs1 with                        (* open *)
          | (Some _, fs2) => fs2
          | (None, fs2) =>
              let left := Z.of_nat (String.length c) in
              snd (next_fault (zero_fill_loop (Z.to_nat (div_ceil left ZERO_LEN)) p 0 left fs2))
          end
      end
  end.

(** Overwrites with zeros, then unlinks; a file that is not there is no error,
    one that cannot be removed is. *)
Definition shred (p : string) : M Fs SnapError unit := fun fs =>
  let fs1 := zero_file p fs in
  match fs_files fs1 !! p with
  | None => (Ok tt, fs1)
  | Some _ => (let? _ := fs_call ("删除 " ++s p ++s " 失败") in
               fun fs2 => (Ok tt, mkFs (delete p (fs_files fs2)) (fs_room fs2) (fs_faults fs2))) fs1
  end.

Definition from_result {S A} (r : result A string) : M S SnapError A :=
  match r with Ok a => mret a | Err e => mfail (Failed e) end.

(** ** Encrypting and decrypting *)

Section Files.
Context `{Aead}.

(** The [while done < plain_len] loop; [fuel] bounds the number of chunks. *)
Fixpoint encrypt_chunks (fuel : nat) (h : Header) (dek : Key) (src dst : string) (idx done : Z) : M Fs SnapError unit :=
  match fuel with
  | O => mret tt
  | S fuel' =>
      if done <? h_plain_len h then
        let want := Z.min (h_plain_len h - done) CHUNK_SIZE in
        let? chunk := fs_read ("读明文块 " ++s dec idx) src (Z.to_nat done) (Z.to_nat want) in
        let? _ := fs_append ("写密文块 " ++s dec idx) dst (seal dek (nonce_for idx) (header_aad h idx) chunk) in
        encrypt_chunks fuel' h dek src dst (idx + 1) (done + want)
      else mret tt
  end.

(** [dek] and [nonce] are what [host_random] gave. *)
Definition encrypt_file (dek nonce src dst : string) (kek : Key) (kek_id : string) : M Fs SnapError Z :=
  let wrapped_dek := seal_blob nonce kek dek DEK_AAD in
  let? _ := fs_open "打开明文" src in
  let? plain_len := fs_len src in
  let h := mkHeader CHUNK_SIZE plain_len kek_id wrapped_dek 0 in
  let? _ := create_private dst in
  let? _ := fs_append "写头部" dst (encode h) in
  let? _ := encrypt_chunks (Z.to_nat (chunks h)) h dek src dst 0 0 in
  let? _ := fs_call "flush 失败" in
  let? _ := fs_call ("fsync " ++s dst ++s " 失败") in
  mret plain_len.

(** The [for idx in 0..chunks] loop, with the buffer of [CHUNK_SIZE + TAG_LEN]
    bytes that a longer chunk overruns. *)
Fixpoint decrypt_chunks (fuel : nat) (h : Header) (dek : Key) (src dst : string) (idx : Z) (pos : nat) : M Fs SnapError unit :=
  match fuel with
  | O => mret tt
  | S fuel' =>
      if idx <? chunks h then
        let n := chunk_len h idx in
        if CHUNK_SIZE + TAG_LEN <? n then mfail Panic
        else
          let? buf := fs_read ("读密文块 " ++s dec idx) src pos (Z.to_nat n) in
          match open_sealed dek (nonce_for idx) (header_aad h idx) buf with
          | None => mfail (Failed ("块 " ++s dec idx ++s " AEAD 校验失败——快照已被篡改或密钥不符，拒绝恢复"))
          | Some plain =>
              let? _ := fs_append ("写明文块 " ++s dec idx) dst plain in
              decrypt_chunks fuel' h dek src dst (idx + 1) (pos + Z.to_nat n)
          end
      else mret tt
  end.

(** Every turn reads at least a tag, so the bytes bound the turns. *)
Definition decrypt_file (src dst : string) (kek : Key) : M Fs SnapError Z :=
  let? _ := fs_open "打开密文" src in
  let? r := fs_header src in
  let '(h, pos) := r in
  let? dek := from_result (unwrap_dek h kek) in
  let? size := (fun fs => (Ok (String.length (content src fs)), fs)) in
  let? _ := create_private dst in
  let? run := mtry (let? _ := decrypt_chunks (S size) h dek src dst 0 pos in fs_call "flush 失败") in
  match run with
  | Ok _ => mret (h_plain_len h)
  | Err Panic => mfail Panic
  | Err e => let? _ := mtry (shred dst) in mfail e
  end.

Definition decrypt_chunk (src : string) (kek : Key) (idx : Z) : M Fs SnapError string :=
  let? _ := fs_open "打开密文" src in
  let? r := fs_header src in
  let '(h, _) := r in
  if chunks h <=? idx then mfail (Failed ("块序号 " ++s dec idx ++s " 越界（共 " ++s dec (chunks h) ++s " 块）"))
  else
    let? dek := from_result (unwrap_dek h kek) in
    let n := chunk_len h idx in
    let? _ := fs_call ("seek 块 " ++s dec idx ++s " 失败") in
    let? buf := fs_read ("读块 " ++s dec idx) src (Z.to_nat (chunk_offset h idx)) (Z.to_nat n) in
    match open_sealed dek (nonce_for idx) (header_aad h idx) buf with
    | None => mfail (Failed ("块 " ++s dec idx ++s " AEAD 校验失败——快照已被篡改或密钥不符"))
    | Some plain => mret plain
    end.
End Files.

(** ** Reading *)

Lemma read_or_app what n a b : String.length a = n -> read_or what n (a ++s b) = (Ok a, b).
Proof.
  intros <-. unfold read_or. rewrite read_exact_ok by (rewrite app_length_s; lia).
  by rewrite str_take_exact, str_drop_exact.
Qed.

Lemma read_or_ok what n s : (n <= String.length s)%nat -> read_or what n s = (Ok (str_take n s), str_drop n s).
Proof. intros Hn. unfold read_or. by rewrite read_exact_ok. Qed.

Lemma read_or_inv what n s b s' : read_or what n s = (Ok b, s') -> s = b ++s s' /\ String.length b = n.
Proof.
  unfold read_or, read_exact. destruct (n <=? String.length s)%nat eqn:E; [|done]. apply Nat.leb_le in E.
  intros [= <- <-]. by rewrite str_take_drop, str_take_length, Nat.min_l.
Qed.

Definition small (s : string) : Prop := Z.of_nat (String.length s) < 2 ^ 16.

Lemma read_len_prefixed_app what s rest :
  small s -> read_len_prefixed what (len_prefixed s ++s rest) = (Ok s, rest).
Proof.
  intros Hs. unfold read_len_prefixed, len_prefixed, mbind. rewrite app_assoc_s, read_or_app by apply be_bytes_length.
  rewrite be_val_bytes. unfold small in Hs. rewrite as_u16_id by lia. rewrite Z.mod_small by (simpl; lia).
  rewrite Z.mul_0_l, Z.add_0_l, Nat2Z.id. by apply read_or_app.
Qed.

Lemma read_len_prefixed_inv what s b s' :
  read_len_prefixed what s = (Ok b, s') -> s = len_prefixed b ++s s' /\ small b.
Proof.
  unfold read_len_prefixed, mbind. destruct (read_or _ 2 s) as [[l|e] s1] eqn:E1; [|done]. intros E2.
  apply read_or_inv in E1 as [-> Hl]. apply read_or_inv in E2 as [-> Hb].
  pose proof (be_val_small l 0) as Hv. pose proof (be_bytes_val l 0 (Z.le_refl 0)) as Hbv. rewrite Hl in Hv, Hbv.
  pose proof (be_val_nonneg l 0 (Z.le_refl 0)).
  assert (Z.of_nat (String.length b) = be_val l 0) as Hbl by (rewrite Hb; lia).
  change (256 ^ Z.of_nat 2) with (2 ^ 16) in Hv. unfold small, len_prefixed. rewrite Hbl.
  rewrite as_u16_id by lia. rewrite Hbv, app_assoc_s. split; [done|lia].
Qed.

(** ** The header *)

Record header_ok (h : Header) : Prop := {
  ho_cs : 0 < h_chunk_size h < 2 ^ 32;
  ho_pl : 0 <= h_plain_len h < 2 ^ 64;
  ho_id : small (h_kek_id h) /\ valid_utf8 (h_kek_id h) = true;
  ho_dek : small (h_wrapped_dek h)
}.

Lemma fixed_length h : String.length (header_fixed h) = 24%nat.
Proof. unfold header_fixed. rewrite !app_length_s, !be_bytes_length. reflexivity. Qed.

Lemma take_drop_mid a b c : str_take (String.length b) (str_drop (String.length a) (a ++s b ++s c)) = b.
Proof. by rewrite str_drop_exact, str_take_exact. Qed.

(** The fields of the fixed part. *)
Lemma fixed_fields h :
  let f := header_fixed h in
  str_take 8 f = MAGIC /\ str_take 2 (str_drop 8 f) = be_bytes 2 VERSION /\
  str_take 2 (str_drop 10 f) = be_bytes 2 ALGO_AES256GCM /\
  str_take 4 (str_drop 12 f) = be_bytes 4 (h_chunk_size h) /\ str_drop 16 f = be_bytes 8 (h_plain_len h).
Proof.
  unfold header_fixed. repeat split; try reflexivity.
Qed.

(** The last five of a run of fields. *)
Lemma header_read_encode h rest :
  header_ok h ->
  header_read_from (String.length (encode h ++s rest)) (encode h ++s rest) =
    (Ok (mkHeader (h_chunk_size h) (h_plain_len h) (h_kek_id h) (h_wrapped_dek h)
                  (Z.of_nat (String.length (encode h)))), rest).
Proof.
  intros [Hcs Hpl [Hid Hu] Hd]. set (total := String.length (encode h ++s rest)).
  unfold header_read_from, mbind at 1. unfold encode at 1. rewrite app_assoc_s, read_or_app by apply fixed_length.
  destruct (fixed_fields h) as (-> & -> & -> & -> & ->). rewrite !be_val_bytes, String.eqb_refl.
  change (0 * 256 ^ Z.of_nat 2 + VERSION mod 256 ^ Z.of_nat 2) with 1.
  change (0 * 256 ^ Z.of_nat 2 + ALGO_AES256GCM mod 256 ^ Z.of_nat 2) with 1.
  change (256 ^ Z.of_nat 4) with (2 ^ 32). change (256 ^ Z.of_nat 8) with (2 ^ 64).
  rewrite (Z.mod_small (h_chunk_size h)), (Z.mod_small (h_plain_len h)) by lia. rewrite !Z.mul_0_l, !Z.add_0_l.
  cbn [negb Z.eqb VERSION ALGO_AES256GCM Pos.eqb]. rewrite (proj2 (Z.eqb_neq (h_chunk_size h) 0)) by lia.
  unfold mbind at 1. rewrite app_assoc_s, read_len_prefixed_app by done. rewrite Hu. cbn [negb].
  unfold mbind. rewrite read_len_prefixed_app by done. unfold stream_position, mret. do 3 f_equal.
  subst total. rewrite app_length_s. lia.
Qed.

Lemma str_drop_drop n m s : str_drop n (str_drop m s) = str_drop (m + n) s.
Proof.
  revert m; induction s as [|c s IH]; intros [|m]; simpl; try done; by destruct n.
Qed.

Lemma split_fixed f :
  f = str_take 8 f ++s str_take 2 (str_drop 8 f) ++s str_take 2 (str_drop 10 f) ++s
      str_take 4 (str_drop 12 f) ++s str_drop 16 f.
Proof.
  rewrite <- (str_take_drop 8 f) at 1. f_equal.
  rewrite <- (str_take_drop 2 (str_drop 8 f)) at 1. rewrite str_drop_drop. f_equal.
  rewrite <- (str_take_drop 2 (str_drop (8 + 2) f)) at 1. rewrite str_drop_drop. f_equal.
  rewrite <- (str_take_drop 4 (str_drop (8 + 2 + 2) f)) at 1. by rewrite str_drop_drop.
Qed.

(** A field read as a number is the encoding of the number. *)
Lemma field_bytes n s : String.length s = n -> s = be_bytes n (be_val s 0) /\ 0 <= be_val s 0 < 256 ^ Z.of_nat n.
Proof.
  intros <-. rewrite be_bytes_val by lia. split; [done|]. pose proof (be_val_small s 0). lia.
Qed.

Lemma header_read_inv total s h rest :
  header_read_from total s = (Ok h, rest) ->
  s = encode h ++s rest /\ header_ok h /\ h_header_len h = Z.of_nat total - Z.of_nat (String.length rest).
Proof.
  unfold header_read_from, mbind at 1. destruct (read_or "读头部" 24 s) as [[f|e] s1] eqn:E1; [|done].
  apply read_or_inv in E1 as [-> Hf].
  destruct (field_bytes 2 (str_take 2 (str_drop 8 f))) as [Bv _]; [rewrite str_take_length, str_drop_length; lia|].
  destruct (field_bytes 2 (str_take 2 (str_drop 10 f))) as [Ba _]; [rewrite str_take_length, str_drop_length; lia|].
  destruct (field_bytes 4 (str_take 4 (str_drop 12 f))) as [Bc Rc]; [rewrite str_take_length, str_drop_length; lia|].
  destruct (field_bytes 8 (str_drop 16 f)) as [Bp Rp]; [rewrite str_drop_length; lia|].
  pose proof (split_fixed f) as Hsplit.
  set (v := be_val (str_take 2 (str_drop 8 f)) 0) in *. set (al := be_val (str_take 2 (str_drop 10 f)) 0) in *.
  set (cs := be_val (str_take 4 (str_drop 12 f)) 0) in *. set (pl := be_val (str_drop 16 f) 0) in *.
  destruct (String.eqb_spec (str_take 8 f) MAGIC) as [Hm|]; [|done]. cbn [negb].
  destruct (Z.eqb_spec v VERSION) as [Hv|]; [|done]. cbn [negb].
  destruct (Z.eqb_spec al ALGO_AES256GCM) as [Ha|]; [|done]. cbn [negb].
  destruct (Z.eqb_spec cs 0) as [|Hcs]; [done|].
  unfold mbind at 1. destruct (read_len_prefixed "kek_id" s1) as [[id|e] s2] eqn:E2; [|done].
  apply read_len_prefixed_inv in E2 as [-> Hid]. destruct (valid_utf8 id) eqn:Hu; [|done]. cbn [negb].
  unfold mbind. destruct (read_len_prefixed "wrapped_dek" s2) as [[wd|e] s3] eqn:E3; [|done].
  apply read_len_prefixed_inv in E3 as [-> Hwd]. intros [= <- <-]. cbn [h_header_len].
  split; [|split; [|done]].
  - unfold encode, header_fixed. cbn [h_chunk_size h_plain_len h_kek_id h_wrapped_dek].
    rewrite Hsplit, Hm, Bv, Ba, Bc, Bp, Hv, Ha. by rewrite !app_assoc_s.
  - split; simpl; [|exact Rp|done|done]. split; [|exact (proj2 Rc)]. lia.
Qed.

(** ** The sealed body *)

(** ** Calls on files *)

Lemma fs_call_files failed fs r fs' : fs_call failed fs = (r, fs') -> fs_files fs' = fs_files fs.
Proof. unfold fs_call, next_fault. destruct (fs_faults fs) as [|[[e n]|] fl]; by intros [= _ <-]. Qed.

Lemma fs_call_reliable failed fs : fs_faults fs = [] -> fs_call failed fs = (Ok tt, fs).
Proof. intros Hf. unfold fs_call, next_fault. by rewrite Hf. Qed.

Lemma fs_open_files what p fs r fs' : fs_open what p fs = (r, fs') -> fs_files fs' = fs_files fs.
Proof.
  unfold fs_open, mbind. destruct (fs_call _ fs) as [[u|e] fs1] eqn:E; apply fs_call_files in E; [|by intros [= _ <-]].
  destruct (fs_files fs1 !! p); by intros [= _ <-].
Qed.

Lemma fs_open_inv what p fs u fs' : fs_open what p fs = (Ok u, fs') -> is_Some (fs_files fs !! p).
Proof.
  unfold fs_open, mbind. destruct (fs_call _ fs) as [[v|e] fs1] eqn:E; [|done]. apply fs_call_files in E. rewrite E.
  by destruct (fs_files fs !! p).
Qed.

Lemma fs_open_reliable what p fs c : fs_faults fs = [] -> fs_files fs !! p = Some c -> fs_open what p fs = (Ok tt, fs).
Proof. intros Hf Hc. unfold fs_open, mbind. by rewrite fs_call_reliable, Hc. Qed.

Lemma fs_read_files what p pos n fs r fs' : fs_read what p pos n fs = (r, fs') -> fs_files fs' = fs_files fs.
Proof.
  unfold fs_read, mbind. destruct (fs_call _ fs) as [[u|e] fs1] eqn:E; apply fs_call_files in E; intros Hr;
    apply (f_equal snd) in Hr; cbn in Hr; by subst fs'.
Qed.

Lemma fs_read_inv what p pos n fs b fs' :
  fs_read what p pos n fs = (Ok b, fs') -> exists rest, str_drop pos (content p fs) = b ++s rest /\ String.length b = n.
Proof.
  unfold fs_read, mbind. destruct (fs_call _ fs) as [[u|e] fs1] eqn:E; [|done]. apply fs_call_files in E.
  unfold content. rewrite E. destruct (read_or what n _) as [r rest] eqn:Er. cbn. intros [= -> _].
  apply read_or_inv in Er. eauto.
Qed.

Lemma fs_read_app what p pos n fs b rest :
  fs_faults fs = [] -> str_drop pos (content p fs) = b ++s rest -> String.length b = n ->
  fs_read what p pos n fs = (Ok b, fs).
Proof. intros Hf Hc Hn. unfold fs_read, mbind. rewrite fs_call_reliable by done. by rewrite Hc, read_or_app. Qed.

Lemma fs_append_other what p buf fs r fs' q :
  fs_append what p buf fs = (r, fs') -> q <> p -> fs_files fs' !! q = fs_files fs !! q.
Proof.
  unfold fs_append, next_fault. intros E Hq. destruct (fs_faults fs) as [|[[e n]|] fl]; destruct (write_all _ _) as [r0 sk];
    injection E as _ <-; simpl; by rewrite lookup_insert_ne.
Qed.

Lemma fs_append_ok what p buf fs fs' :
  fs_append what p buf fs = (Ok tt, fs') -> fs_files fs' = <[p := content p fs ++s buf]> (fs_files fs).
Proof.
  unfold fs_append, next_fault. destruct (fs_faults fs) as [|[[e n]|] fl]; destruct (write_all _ _) as [r0 sk] eqn:E; try done;
    (destruct r0 as [[]|]; [|done]); intros [= <-]; simpl; apply write_all_prefix in E as (m & Hout & Hm & _);
    specialize (Hm eq_refl); rewrite str_take_all in Hout by done; simpl in Hout; by rewrite Hout.
Qed.

Lemma fs_append_reliable what p buf fs :
  reliable fs -> fs_append what p buf fs = (Ok tt, set_file p (content p fs ++s buf) fs).
Proof. intros [Hr Hf]. unfold fs_append, next_fault, write_all, set_file. rewrite Hf. simpl. by rewrite Hr, Hf. Qed.

Lemma create_private_files p fs r fs' q :
  create_private p fs = (r, fs') -> q <> p -> fs_files fs' !! q = fs_files fs !! q.
Proof.
  unfold create_private, mbind. destruct (fs_call _ fs) as [[u|e] fs1] eqn:E; apply fs_call_files in E; intros [= _ <-] Hq; simpl.
  - rewrite lookup_insert_ne by done. by rewrite E.
  - by rewrite E.
Qed.

Lemma create_private_empty p fs u fs' : create_private p fs = (Ok u, fs') -> fs_files fs' !! p = Some ""%string.
Proof.
  unfold create_private, mbind. destruct (fs_call _ fs) as [[v|e] fs1]; [|done]. intros [= _ <-]. apply lookup_insert_eq.
Qed.



Lemma fs_header_files p fs r fs' : fs_header p fs = (r, fs') -> fs_files fs' = fs_files fs.
Proof.
  unfold fs_header, mbind. destruct (fs_call _ fs) as [[u|e] fs1] eqn:E; apply fs_call_files in E; [|by intros [= _ <-]].
  destruct (header_read_from _ _) as [[h|e] rest]; by intros [= _ <-].
Qed.

(** The header that was read is the beginning of the file. *)
Lemma fs_header_inv p fs h pos fs' :
  fs_header p fs = (Ok (h, pos), fs') ->
  header_ok h /\ exists rest, content p fs = encode h ++s rest /\ pos = String.length (encode h).
Proof.
  unfold fs_header, mbind. destruct (fs_call _ fs) as [[u|e] fs1] eqn:E; [|done]. apply fs_call_files in E.
  unfold content. rewrite E. destruct (header_read_from _ _) as [[h'|e] rest] eqn:Eh; [|done]. intros [= <- <- _].
  apply header_read_inv in Eh as (Hc & Hok & _). split; [done|]. exists rest. rewrite Hc. split; [done|].
  rewrite app_length_s. lia.
Qed.

Section Body.
Context `{AeadLaws}.

(** [sealed_as h dek idx p b]: [b] is the chunks of [p], the first with index
    [idx], each sealed under its nonce and associated data. *)
Inductive sealed_as (h : Header) (dek : Key) : Z -> string -> string -> Prop :=
| sealed_nil idx : sealed_as h dek idx "" ""
| sealed_cons idx c p b :
    c <> ""%string -> Z.of_nat (String.length c) <= h_chunk_size h ->
    (p <> ""%string -> Z.of_nat (String.length c) = h_chunk_size h) ->
    sealed_as h dek (idx + 1) p b ->
    sealed_as h dek idx (c ++s p) (seal dek (nonce_for idx) (header_aad h idx) c ++s b).

Lemma chunks_lt h idx : 0 < h_chunk_size h -> idx < chunks h <-> idx * h_chunk_size h < h_plain_len h.
Proof.
  intros Hc. unfold chunks, div_ceil. set (c := h_chunk_size h) in *. set (l := h_plain_len h) in *.
  pose proof (Z.div_mod l c ltac:(lia)) as Hd. pose proof (Z.mod_pos_bound l c Hc) as Hm.
  destruct (Z.eqb_spec (l mod c) 0); nia.
Qed.

Lemma chunk_len_eq h idx :
  header_ok h -> 0 <= idx -> idx * h_chunk_size h < h_plain_len h ->
  chunk_len h idx = Z.min (h_plain_len h - idx * h_chunk_size h) (h_chunk_size h) + 16.
Proof.
  intros [Hc Hp _ _] Hi Hlt. unfold chunk_len, TAG_LEN. rewrite (as_u64_id (idx * _)) by nia.
  rewrite as_u64_id by lia. done.
Qed.

(** What the reader writes, when it succeeds, is what the body seals. *)
Lemma decrypt_chunks_sound fuel h dek src dst idx pos fs fs' c old :
  header_ok h -> src <> dst -> 0 <= idx -> fs_files fs !! src = Some c -> (String.length (str_drop pos c) < fuel)%nat ->
  fs_files fs !! dst = Some old ->
  decrypt_chunks fuel h dek src dst idx pos fs = (Ok tt, fs') ->
  exists p b t, str_drop pos c = b ++s t /\ sealed_as h dek idx p b /\
    Z.of_nat (String.length p) = Z.max 0 (h_plain_len h - idx * h_chunk_size h) /\
    fs_files fs' !! dst = Some (old ++s p) /\
    (forall q, q <> dst -> fs_files fs' !! q = fs_files fs !! q).
Proof.
  intros Hh Hne. revert idx pos fs old; induction fuel as [|fuel IH]; intros idx pos fs old Hi Hsrc Hf Hold; [lia|].
  cbn [decrypt_chunks]. destruct (Z.ltb_spec idx (chunks h)) as [Hlt|Hge].
  - pose proof (ho_cs h Hh) as Hcs. apply chunks_lt in Hlt; [|lia]. rewrite chunk_len_eq by done.
    set (w := Z.min (h_plain_len h - idx * h_chunk_size h) (h_chunk_size h)).
    destruct (_ <? _); [done|]. unfold mbind at 1.
    destruct (fs_read _ src pos _ fs) as [[buf|e] fs0] eqn:Er; [|done].
    pose proof (fs_read_files _ _ _ _ _ _ _ Er) as Hf0. apply fs_read_inv in Er as (rest & Hb & Hbl).
    unfold content in Hb. rewrite Hsrc in Hb. cbn in Hb.
    destruct (open_sealed _ _ _ buf) as [plain|] eqn:Eo; [|done]. apply seal_open in Eo. subst buf.
    pose proof Hbl as Hsl. rewrite seal_length in Hsl. unfold mbind. destruct (fs_append _ dst plain fs0) as [[[]|e] fs1] eqn:Ea; [|done].
    apply fs_append_ok in Ea. intros Hrec.
    assert (str_drop (pos + Z.to_nat (w + 16)) c = rest) as Hrest.
    { rewrite <- str_drop_drop, Hb, <- Hbl. apply str_drop_exact. }
    rewrite Hb, app_length_s, seal_length in Hf.
    assert (Z.of_nat (String.length plain) = w) as Hw by lia.
    unfold content in Ea. rewrite Hf0, Hold in Ea. cbn in Ea.
    apply (IH _ _ _ (old ++s plain)) in Hrec as (p & b & t & Hbt & Hs & Hl & Hd & Ho).
    + exists (plain ++s p), (seal dek (nonce_for idx) (header_aad h idx) plain ++s b), t.
      rewrite app_assoc_s, app_length_s. split; [by rewrite Hb, <- Hrest, Hbt|]. split.
      { constructor; [|lia| |done]. { intros ->. simpl in Hw. lia. }
        intros Hp. destruct p; [done|]. cbn [String.length] in Hl. lia. }
      split; [lia|]. rewrite Hd, app_assoc_s. split; [done|]. intros q Hq. rewrite Ho, Ea by done. by rewrite lookup_insert_ne.
    + lia.
    + rewrite Ea, lookup_insert_ne by done. exact Hsrc.
    + rewrite Hrest. lia.
    + rewrite Ea. apply lookup_insert_eq.
  - intros [= <-]. exists ""%string, ""%string, (str_drop pos c). split; [done|]. split; [constructor|].
    pose proof (ho_cs h Hh) as Hcs. split; [|by rewrite app_nil_s]. simpl.
    assert (~ idx * h_chunk_size h < h_plain_len h) by (rewrite <- chunks_lt; lia). lia.
Qed.

Lemma set_file_same p fs c : fs_files fs !! p = Some c -> set_file p c fs = fs.
Proof. intros Hc. unfold set_file. rewrite insert_id by done. by destruct fs. Qed.

Lemma set_file_twice p c c' fs : set_file p c' (set_file p c fs) = set_file p c' fs.
Proof. unfold set_file. simpl. by rewrite insert_insert_eq. Qed.

Lemma decrypt_chunks_complete fuel h dek src dst idx pos c p b t fs old :
  header_ok h -> h_chunk_size h <= CHUNK_SIZE -> src <> dst -> 0 <= idx -> sealed_as h dek idx p b ->
  Z.of_nat (String.length p) = Z.max 0 (h_plain_len h - idx * h_chunk_size h) ->
  reliable fs -> fs_files fs !! src = Some c -> str_drop pos c = b ++s t -> (String.length (b ++s t) < fuel)%nat ->
  fs_files fs !! dst = Some old ->
  decrypt_chunks fuel h dek src dst idx pos fs = (Ok tt, set_file dst (old ++s p) fs).
Proof.
  intros Hh Hmax Hne Hi Hs. revert fuel pos fs old Hi; induction Hs as [idx|idx x p b Hc Hle Hfull Hs IH];
    intros fuel pos fs old Hi Hl Hr Hsrc Hbt Hf Hold; (destruct fuel as [|fuel]; [lia|]); cbn [decrypt_chunks].
  - pose proof (ho_cs h Hh). destruct (Z.ltb_spec idx (chunks h)) as [Hlt|_].
    { apply chunks_lt in Hlt; [|lia]. simpl in Hl. lia. }
    by rewrite app_nil_s, set_file_same.
  - rewrite app_length_s in Hl. assert (0 < Z.of_nat (String.length x)) by (destruct x; [done|simpl; lia]).
    pose proof (ho_cs h Hh). assert (idx * h_chunk_size h < h_plain_len h) as Hlt by lia.
    rewrite (proj2 (Z.ltb_lt _ _) (proj2 (chunks_lt h idx ltac:(lia)) Hlt)). rewrite chunk_len_eq by done.
    assert (Z.min (h_plain_len h - idx * h_chunk_size h) (h_chunk_size h) = Z.of_nat (String.length x)) as ->.
    { destruct p; [simpl in Hl; lia|]. specialize (Hfull ltac:(done)). lia. }
    rewrite (proj2 (Z.ltb_ge _ _)) by (unfold TAG_LEN; lia). set (y := seal dek (nonce_for idx) (header_aad h idx) x) in *.
    assert (String.length y = Z.to_nat (Z.of_nat (String.length x) + 16)) as Hy by (unfold y; rewrite seal_length; lia).
    unfold mbind at 1. rewrite app_assoc_s in Hbt.
    rewrite (fs_read_app _ src pos _ fs y (b ++s t)); [|apply Hr|unfold content; by rewrite Hsrc|done].
    unfold y at 1. rewrite open_seal. unfold mbind. rewrite fs_append_reliable by done.
    rewrite !app_length_s, Hy in Hf. unfold content. rewrite Hold. cbn [default from_option id].
    rewrite (IH fuel _ _ (old ++s x)).
    + by rewrite set_file_twice, app_assoc_s.
    + lia.
    + destruct p; [simpl in *; lia|]. specialize (Hfull ltac:(done)). lia.
    + exact Hr.
    + simpl. by rewrite lookup_insert_ne.
    + rewrite <- str_drop_drop, Hbt, <- Hy. apply str_drop_exact.
    + rewrite app_length_s. lia.
    + simpl. apply lookup_insert_eq.
Qed.

Lemma encrypt_chunks_seals fuel h dek src dst idx plain fs old :
  h_chunk_size h = CHUNK_SIZE -> h_plain_len h = Z.of_nat (String.length plain) -> src <> dst -> 0 <= idx ->
  chunks h <= idx + Z.of_nat fuel -> reliable fs -> fs_files fs !! src = Some plain -> fs_files fs !! dst = Some old ->
  let done := Z.min (idx * CHUNK_SIZE) (h_plain_len h) in
  exists b, sealed_as h dek idx (str_drop (Z.to_nat done) plain) b /\
    encrypt_chunks fuel h dek src dst idx done fs = (Ok tt, set_file dst (old ++s b) fs).
Proof.
  intros Hcs Hpl Hne. cbv zeta. revert idx fs old; induction fuel as [|fuel IH]; intros idx fs old Hi Hf Hr Hsrc Hold; cbn [encrypt_chunks];
    set (done := Z.min (idx * CHUNK_SIZE) (h_plain_len h)).
  all: assert (done = h_plain_len h -> str_drop (Z.to_nat done) plain = ""%string) as Hend
    by (intros ->; rewrite Hpl, Nat2Z.id; pose proof (str_drop_exact plain "") as E; by rewrite app_nil_s in E).
  - assert (~ idx * h_chunk_size h < h_plain_len h) by (rewrite <- chunks_lt; unfold CHUNK_SIZE in *; lia).
    rewrite Hend by (unfold done; rewrite Hcs in *; lia). exists ""%string. split; [constructor|]. by rewrite app_nil_s, set_file_same.
  - destruct (Z.ltb_spec done (h_plain_len h)) as [Hlt|Hge].
    + assert (0 <= done) as Hd0 by (unfold done, CHUNK_SIZE in *; lia). set (w := Z.min (h_plain_len h - done) CHUNK_SIZE).
      assert (0 < w <= h_plain_len h - done) as Hw by (unfold w, CHUNK_SIZE in *; lia).
      set (inf := str_drop (Z.to_nat done) plain). assert (Z.of_nat (String.length inf) = h_plain_len h - done) as Hinf
        by (unfold inf; rewrite str_drop_length; lia).
      assert (String.length (str_take (Z.to_nat w) inf) = Z.to_nat w) as Ht by (rewrite str_take_length; lia).
      unfold mbind at 1. rewrite (fs_read_app _ src _ _ fs (str_take (Z.to_nat w) inf) (str_drop (Z.to_nat w) inf));
        [|apply Hr|unfold content; rewrite Hsrc; by rewrite str_take_drop|done].
      unfold mbind. rewrite fs_append_reliable by done. unfold content. rewrite Hold. cbn [default from_option id].
      assert (done + w = Z.min ((idx + 1) * CHUNK_SIZE) (h_plain_len h)) as Hnext by (unfold w, done in *; lia).
      destruct (IH (idx + 1) (set_file dst (old ++s seal dek (nonce_for idx) (header_aad h idx) (str_take (Z.to_nat w) inf)) fs)
                  (old ++s seal dek (nonce_for idx) (header_aad h idx) (str_take (Z.to_nat w) inf)))
        as (b & Hs & Hrun); [lia|lia|exact Hr|simpl; by rewrite lookup_insert_ne|simpl; apply lookup_insert_eq|].
      rewrite <- Hnext in Hs, Hrun. rewrite Z2Nat.inj_add, <- str_drop_drop in Hs by lia. fold inf in Hs.
      exists (seal dek (nonce_for idx) (header_aad h idx) (str_take (Z.to_nat w) inf) ++s b). split.
      * rewrite <- (str_take_drop (Z.to_nat w) inf) at 1. constructor; [|rewrite Ht; unfold w; lia| |done].
        -- intros He. rewrite He in Ht. simpl in Ht. lia.
        -- intros Hp. rewrite Ht, Hcs. assert (0 < String.length (str_drop (Z.to_nat w) inf))%nat as Hpos by (destruct (str_drop (Z.to_nat w) inf); [done|simpl; lia]).
           rewrite str_drop_length in Hpos. unfold w in *. lia.
      * fold inf. rewrite Hrun, set_file_twice. by rewrite app_assoc_s.
    + rewrite Hend by (unfold done in *; lia). exists ""%string. split; [constructor|]. by rewrite app_nil_s, set_file_same.
Qed.

(** The chunk with a given index. *)
Lemma sealed_nth h dek idx p b j :
  sealed_as h dek idx p b -> 0 < h_chunk_size h -> idx <= j -> (j - idx) * h_chunk_size h < Z.of_nat (String.length p) ->
  exists b1 c b2, b = b1 ++s seal dek (nonce_for j) (header_aad h j) c ++s b2 /\
    Z.of_nat (String.length b1) = (j - idx) * (h_chunk_size h + 16) /\
    c = str_take (Z.to_nat (h_chunk_size h)) (str_drop (Z.to_nat ((j - idx) * h_chunk_size h)) p).
Proof.
  intros Hs Hc. induction Hs as [idx|idx c p b Hne Hle Hfull Hs IH]; intros Hj Hlt.
  - simpl in Hlt. nia.
  - destruct (decide (j = idx)) as [->|Hn].
    + exists ""%string, c, b. rewrite Z.sub_diag. split; [done|]. split; [done|].
      change (Z.to_nat (0 * h_chunk_size h)) with O. replace (str_drop 0 (c ++s p)) with (c ++s p) by (by destruct (c ++s p)).
      rewrite str_take_app_ge by lia. destruct p as [|x p].
      * by destruct (Z.to_nat (h_chunk_size h) - String.length c)%nat; rewrite app_nil_s.
      * specialize (Hfull ltac:(done)).
        replace (Z.to_nat (h_chunk_size h) - String.length c)%nat with O by lia. by rewrite app_nil_s.
    + rewrite app_length_s in Hlt. assert (p <> ""%string) as Hp by (intros ->; simpl in Hlt; nia).
      specialize (Hfull Hp). destruct IH as (b1 & c' & b2 & -> & Hl & Hc'); [lia|nia|].
      exists (seal dek (nonce_for idx) (header_aad h idx) c ++s b1), c', b2. rewrite app_assoc_s. split; [done|].
      rewrite app_length_s, seal_length. split; [lia|]. rewrite Hc'. f_equal.
      replace (Z.to_nat ((j - idx) * h_chunk_size h)) with (String.length c + Z.to_nat ((j - (idx + 1)) * h_chunk_size h))%nat by nia.
      by rewrite <- str_drop_drop, str_drop_exact.
Qed.

(** Only the fields bound into the associated data matter. *)
Lemma sealed_as_ext h h' dek idx p b :
  h_chunk_size h = h_chunk_size h' -> h_plain_len h = h_plain_len h' -> h_kek_id h = h_kek_id h' ->
  sealed_as h dek idx p b -> sealed_as h' dek idx p b.
Proof.
  intros Hc Hp Hk. induction 1 as [|idx c p b H1 H2 H3 H4 IH]; [constructor|].
  replace (header_aad h idx) with (header_aad h' idx) by (unfold header_aad, header_fixed; by rewrite Hc, Hp, Hk).
  constructor; rewrite <- ?Hc; auto.
Qed.

Lemma open_seal_blob nonce key plain aad :
  String.length nonce = 12%nat -> open_blob key (seal_blob nonce key plain aad) aad = Ok plain.
Proof.
  intros Hn. unfold open_blob, seal_blob. rewrite app_length_s, seal_length, Hn.
  replace (12 + (String.length plain + 16) <? 12 + 16)%nat with false by (symmetry; apply Nat.ltb_ge; lia).
  rewrite <- Hn. by rewrite str_take_exact, str_drop_exact, open_seal.
Qed.

(** The header [encrypt_file] writes. *)
Definition new_header (nonce dek kek kek_id plain : string) : Header :=
  mkHeader CHUNK_SIZE (Z.of_nat (String.length plain)) kek_id (seal_blob nonce kek dek DEK_AAD) 0.

Section Container.
Context (dek nonce kek kek_id plain : string).
Context (Hdek : key_ok dek) (Hnonce : String.length nonce = 12%nat).
Context (Hid : small kek_id) (Hutf : valid_utf8 kek_id = true).
Context (Hlen : Z.of_nat (String.length plain) < 2 ^ 63).

Let h := new_header nonce dek kek kek_id plain.

Lemma new_header_ok : header_ok h.
Proof.
  split; simpl; [done|lia|done|]. unfold small, seal_blob. rewrite app_length_s, seal_length, Hnonce, Hdek. done.
Qed.

Lemma encrypt_file_writes src enc fs :
  src <> enc -> fs_files fs !! src = Some plain -> reliable fs ->
  exists b, sealed_as h dek 0 plain b /\
    encrypt_file dek nonce src enc kek kek_id fs =
      (Ok (Z.of_nat (String.length plain)), set_file enc (encode h ++s b) fs).
Proof.
  intros Hne Hsrc Hr. pose proof Hr as [_ Hf]. unfold encrypt_file, mbind at 1. rewrite (fs_open_reliable _ _ _ plain) by done.
  unfold fs_len, mbind at 1 2. rewrite fs_call_reliable by done. assert (content src fs = plain) as -> by (unfold content; by rewrite Hsrc).
  fold (new_header nonce dek kek kek_id plain). fold h.
  unfold create_private, mbind at 1 2. rewrite fs_call_reliable by done.
  unfold mbind at 1. rewrite fs_append_reliable by exact Hr. rewrite set_file_twice.
  unfold content. simpl fs_files. rewrite lookup_insert_eq. cbn [default from_option id String.append].
  assert (0 <= chunks h) as Hch.
  { destruct (Z.ltb_spec (-1) (chunks h)); [lia|]. assert (~ (-1 < chunks h)) as Hn by lia.
    rewrite chunks_lt in Hn by done. simpl in Hn. unfold CHUNK_SIZE in Hn. lia. }
  destruct (encrypt_chunks_seals (Z.to_nat (chunks h)) h dek src enc 0 plain (set_file enc (encode h) fs) (encode h)) as (b & Hs & Hrun);
    [done|done|done|lia|lia|exact Hr|simpl; by rewrite lookup_insert_ne|simpl; apply lookup_insert_eq|].
  change (Z.min (0 * CHUNK_SIZE) (h_plain_len h)) with (Z.min 0 (h_plain_len h)) in Hs, Hrun.
  rewrite Z.min_l in Hs, Hrun by (simpl; lia). replace (str_drop (Z.to_nat 0) plain) with plain in Hs by (by destruct plain).
  exists b. split; [exact Hs|]. unfold mbind at 1. rewrite Hrun, set_file_twice.
  unfold mbind. rewrite !fs_call_reliable by exact Hf. done.
Qed.

(** Reading the header back gives the data key. *)
Lemma read_header_back rest :
  exists h', header_read_from (String.length (encode h ++s rest)) (encode h ++s rest) = (Ok h', rest) /\
    unwrap_dek h' kek = Ok dek /\ header_ok h' /\ h_chunk_size h' = CHUNK_SIZE /\
    h_plain_len h' = Z.of_nat (String.length plain) /\ h_kek_id h' = kek_id /\
    h_header_len h' = Z.of_nat (String.length (encode h)).
Proof.
  eexists. split; [apply header_read_encode, new_header_ok|]. split.
  { unfold unwrap_dek. simpl. rewrite open_seal_blob by done. simpl. unfold key_ok in Hdek. by rewrite Hdek. }
  destruct new_header_ok as [H1 H2 H3 H4]. split; [by split|done].
Qed.

Lemma fs_header_back enc b fs :
  fs_files fs !! enc = Some (encode h ++s b) -> fs_faults fs = [] ->
  exists h', fs_header enc fs = (Ok (h', String.length (encode h)), fs) /\
    unwrap_dek h' kek = Ok dek /\ header_ok h' /\ h_chunk_size h' = CHUNK_SIZE /\
    h_plain_len h' = Z.of_nat (String.length plain) /\ h_kek_id h' = kek_id /\
    h_header_len h' = Z.of_nat (String.length (encode h)).
Proof.
  intros Henc Hf. destruct (read_header_back b) as (h' & Hread & Hrest). exists h'. split; [|exact Hrest].
  unfold fs_header, mbind. rewrite fs_call_reliable by done. unfold content. rewrite Henc. cbn [default from_option id]. rewrite Hread.
  rewrite app_length_s. do 3 f_equal. lia.
Qed.

Lemma decrypt_file_reads enc dst b fs :
  enc <> dst -> sealed_as h dek 0 plain b -> fs_files fs !! enc = Some (encode h ++s b) -> reliable fs ->
  decrypt_file enc dst kek fs = (Ok (Z.of_nat (String.length plain)), set_file dst plain fs).
Proof.
  intros Hne Hs Henc Hr. pose proof Hr as [_ Hf]. unfold decrypt_file, mbind at 1. rewrite (fs_open_reliable _ _ _ _ Hf Henc).
  destruct (fs_header_back enc b fs Henc Hf) as (h' & Hread & Hdk & Hok & Hcs & Hpl & Hki & _).
  unfold mbind at 1. rewrite Hread. unfold mbind at 1. rewrite Hdk. cbn [from_result mret].
  unfold mbind at 1. unfold content at 1. rewrite Henc. cbn [default from_option id].
  unfold create_private, mbind at 1 2. rewrite fs_call_reliable by done. unfold mbind at 1 2, mtry.
  assert (sealed_as h' dek 0 plain b) as Hs' by (apply (sealed_as_ext h); auto).
  rewrite (decrypt_chunks_complete _ h' dek enc dst 0 _ (encode h ++s b) plain b "" _ "").
  - cbn [String.append]. rewrite fs_call_reliable by exact Hf. rewrite set_file_twice. unfold mret. by rewrite Hpl.
  - done.
  - rewrite Hcs. lia.
  - done.
  - lia.
  - done.
  - rewrite Hpl. lia.
  - exact Hr.
  - simpl. by rewrite lookup_insert_ne.
  - rewrite app_nil_s. apply str_drop_exact.
  - rewrite app_nil_s, app_length_s. lia.
  - simpl. apply lookup_insert_eq.
Qed.

Lemma encode_length : Z.of_nat (String.length (encode h)) < 2 ^ 17 + 100.
Proof.
  unfold encode, len_prefixed. rewrite !app_length_s, fixed_length, !be_bytes_length. simpl.
  unfold seal_blob. rewrite app_length_s, seal_length, Hnonce, Hdek. unfold small in Hid. lia.
Qed.

Lemma decrypt_chunk_reads enc b fs idx :
  sealed_as h dek 0 plain b -> fs_files fs !! enc = Some (encode h ++s b) -> fs_faults fs = [] -> 0 <= idx ->
  idx * CHUNK_SIZE < Z.of_nat (String.length plain) ->
  decrypt_chunk enc kek idx fs =
    (Ok (str_take (Z.to_nat CHUNK_SIZE) (str_drop (Z.to_nat (idx * CHUNK_SIZE)) plain)), fs).
Proof.
  intros Hs Henc Hf Hi Hlt. unfold decrypt_chunk, mbind at 1. rewrite (fs_open_reliable _ _ _ _ Hf Henc).
  destruct (fs_header_back enc b fs Henc Hf) as (h' & Hread & Hdk & Hok & Hcs & Hpl & Hki & Hhl).
  unfold mbind at 1. rewrite Hread. cbv beta iota.
  assert (sealed_as h' dek 0 plain b) as Hs' by (apply (sealed_as_ext h); auto).
  assert (idx < chunks h') as Hch by (apply chunks_lt; [unfold CHUNK_SIZE in *; lia|by rewrite Hcs, Hpl]).
  rewrite (proj2 (Z.leb_gt _ _) Hch). unfold mbind at 1. rewrite Hdk. cbn [from_result mret].
  destruct (sealed_nth h' dek 0 plain b idx Hs') as (b1 & c & b2 & Hb & Hl1 & Hc);
    [unfold CHUNK_SIZE in *; lia|lia|rewrite Z.sub_0_r, Hcs; done|]. rewrite Z.sub_0_r, Hcs in *.
  assert (chunk_offset h' idx = Z.of_nat (String.length (encode h) + String.length b1)) as Hoff.
  { unfold chunk_offset, u64_add. rewrite Hcs, Hhl. unfold TAG_LEN. rewrite <- Hl1.
    assert (Z.of_nat (String.length b1) < 2 ^ 63 + 2 ^ 62) by (rewrite Hl1; unfold CHUNK_SIZE in *; nia).
    pose proof encode_length. rewrite (as_u64_id (Z.of_nat _)) by lia. rewrite as_u64_id; lia. }
  unfold mbind at 1. rewrite fs_call_reliable by done. unfold mbind.
  rewrite (fs_read_app _ enc _ _ fs (seal dek (nonce_for idx) (header_aad h' idx) c) b2 Hf).
  - by rewrite open_seal, Hc.
  - unfold content. rewrite Henc. cbn [default from_option id]. by rewrite Hoff, Nat2Z.id, <- str_drop_drop, str_drop_exact, Hb, str_drop_exact.
  - rewrite chunk_len_eq by (rewrite ?Hcs, ?Hpl; done). rewrite Hcs, Hpl.
    rewrite seal_length, Hc, str_take_length, str_drop_length. unfold CHUNK_SIZE in *. lia.
Qed.
End Container.
End Body.

(** ** A concrete cipher for the witnesses: the text and a checksum *)

Module RefAead.

Definition checksum (k n a p : string) : string := be_bytes 16 (be_val (k ++s n ++s a ++s p) 1).

#[export] Instance ref_aead : Aead := {|
  seal := fun k n a p => p ++s checksum k n a p;
  open_sealed := fun k n a c =>
    let m := (String.length c - 16)%nat in
    if String.eqb c (str_take m c ++s checksum k n a (str_take m c)) then Some (str_take m c) else None
|}.

#[export] Instance ref_aead_laws : AeadLaws.
Proof.
  assert (forall k n a p, String.length (p ++s checksum k n a p) = (String.length p + 16)%nat) as Hl.
  { intros. unfold checksum. by rewrite app_length_s, be_bytes_length. }
  split; unfold seal, open_sealed, ref_aead; [|intros k n a c p|done].
  - intros k n a p. rewrite Hl. replace (String.length p + 16 - 16)%nat with (String.length p) by lia.
    by rewrite str_take_exact, String.eqb_refl.
  - destruct (String.eqb_spec c (str_take (String.length c - 16) c ++s checksum k n a (str_take (String.length c - 16) c)));
      [|done]. by intros [= <-].
Qed.

End RefAead.

(** ** Claims *)

(** C39: a sealed snapshot opens to the bytes that were sealed.  On a disk that
    does not fill up and where no call fails, encrypting a file into another and
    decrypting the container with the same tenant key into a third restores the
    file byte for byte, whatever its length; and reading any single chunk of the
    container returns exactly that slice of the file, without reading the
    others, while an index past the end is an error. *)
Theorem snapshot_roundtrip `{AeadLaws} (dek nonce kek kek_id plain src enc dst : string) (fs : Fs) :
  key_ok dek -> String.length nonce = 12%nat -> small kek_id -> valid_utf8 kek_id = true ->
  Z.of_nat (String.length plain) < 2 ^ 63 -> fs_files fs !! src = Some plain -> reliable fs -> src <> enc -> enc <> dst ->
  exists fs1 fs2,
    encrypt_file dek nonce src enc kek kek_id fs = (Ok (Z.of_nat (String.length plain)), fs1) /\
    decrypt_file enc dst kek fs1 = (Ok (Z.of_nat (String.length plain)), fs2) /\
    fs_files fs2 !! dst = Some plain /\
    forall idx, 0 <= idx ->
      if idx * CHUNK_SIZE <? Z.of_nat (String.length plain) then
        decrypt_chunk enc kek idx fs1 =
          (Ok (str_take (Z.to_nat CHUNK_SIZE) (str_drop (Z.to_nat (idx * CHUNK_SIZE)) plain)), fs1)
      else exists e, decrypt_chunk enc kek idx fs1 = (Err (Failed e), fs1).
Proof.
  intros Hd Hn Hk Hu Hl Hs Hr Hne Hne'.
  destruct (encrypt_file_writes dek nonce kek kek_id plain Hn Hl src enc fs Hne Hs Hr) as (b & Hb & Henc).
  set (fs1 := set_file enc (encode (new_header nonce dek kek kek_id plain) ++s b) fs) in *.
  assert (fs_files fs1 !! enc = Some (encode (new_header nonce dek kek kek_id plain) ++s b)) as He by apply lookup_insert_eq.
  assert (reliable fs1) as Hr1 by exact Hr. pose proof Hr1 as [_ Hf1].
  exists fs1, (set_file dst plain fs1). split; [exact Henc|]. split; [by eapply decrypt_file_reads|]. split; [apply lookup_insert_eq|].
  intros idx Hi. destruct (Z.ltb_spec (idx * CHUNK_SIZE) (Z.of_nat (String.length plain))) as [Hlt|Hge].
  - by eapply decrypt_chunk_reads.
  - unfold decrypt_chunk, mbind at 1. rewrite (fs_open_reliable _ _ _ _ Hf1 He).
    destruct (fs_header_back dek nonce kek kek_id plain Hd Hn Hk Hu Hl enc b fs1 He Hf1) as (h' & Hread & _ & _ & Hcs & Hpl & _).
    unfold mbind at 1. rewrite Hread. cbv beta iota. rewrite (proj2 (Z.leb_le _ _)); [by eexists|].
    destruct (Z.ltb_spec idx (chunks h')) as [Hlt|]; [|lia]. apply chunks_lt in Hlt; [|by rewrite Hcs].
    rewrite Hcs, Hpl in Hlt. lia.
Qed.

Definition a_key : string := "0123456789abcdef0123456789abcdef".
Definition a_nonce : string := "abcdefghijkl".

Import RefAead.

Lemma snapshot_roundtrip_witness :
  let fs := mkFs {["mem"%string := "guest memory"%string]} None [] in
  exists fs1 fs2,
    encrypt_file a_key a_nonce "mem" "mem.enc" a_key "default" fs = (Ok 12, fs1) /\
    decrypt_file "mem.enc" "mem2" a_key fs1 = (Ok 12, fs2) /\
    fs_files fs2 !! "mem2"%string = Some "guest memory"%string.
Proof.
  destruct (snapshot_roundtrip a_key a_nonce a_key "default" "guest memory" "mem" "mem.enc" "mem2"
    (mkFs {["mem"%string := "guest memory"%string]} None [])) as (fs1 & fs2 & H1 & H2 & H3 & _);
    try reflexivity; try discriminate; [by split|]. exists fs1, fs2. exact (conj H1 (conj H2 H3)).
Defined.

(**  a container that decrypts is genuine.  When [decrypt_file] succeeds, the
    file it read is a well-formed header followed by chunks, each of which is the
    sealed form of its slice of the output under the unwrapped data key, its own
    index and the header's fields; the output is exactly the concatenation of
    the slices, as long as the header says, and no other file changes.  (What
    follows the last chunk is not read.) *)
Theorem decrypt_genuine `{AeadLaws} (src dst : string) (kek : Key) (fs fs' : Fs) (n : Z) :
  src <> dst -> decrypt_file src dst kek fs = (Ok n, fs') ->
  exists h dek p b t,
    fs_files fs !! src = Some (encode h ++s b ++s t) /\ header_ok h /\ unwrap_dek h kek = Ok dek /\
    sealed_as h dek 0 p b /\ fs_files fs' !! dst = Some p /\
    n = h_plain_len h /\ Z.of_nat (String.length p) = n /\
    (forall q, q <> dst -> fs_files fs' !! q = fs_files fs !! q).
Proof.
  intros Hne. unfold decrypt_file, mbind at 1. destruct (fs_open _ src fs) as [[u|e] fs1] eqn:Eo; [|done].
  pose proof (fs_open_files _ _ _ _ _ Eo) as F1. apply fs_open_inv in Eo as [inf Es].
  unfold mbind at 1. destruct (fs_header src fs1) as [[[h pos]|e] fs2] eqn:Eh; [|done].
  pose proof (fs_header_files _ _ _ _ Eh) as F2. apply fs_header_inv in Eh as (Hok & rest & Hc & ->).
  unfold content in Hc. rewrite F1, Es in Hc. cbn [default from_option id] in Hc. subst inf.
  unfold mbind at 1. destruct (unwrap_dek h kek) as [dek|e] eqn:Ed; [|done]. cbn [from_result mret].
  unfold mbind at 1. unfold mbind at 1. destruct (create_private dst fs2) as [[u2|e] fs3] eqn:Ec; [|done].
  pose proof (fun q => create_private_files _ _ _ _ q Ec) as F3. apply create_private_empty in Ec.
  unfold mbind at 1 2, mtry. destruct (decrypt_chunks _ h dek src dst 0 _ fs3) as [[[]|[e|]] fs4] eqn:Er; [|unfold mbind, mtry; by destruct (shred dst fs4)|done].
  destruct (fs_call _ fs4) as [[u4|e] fs5] eqn:Ef; [|].
  2: { destruct e; [|done]. unfold mbind, mtry. destruct (shred dst fs5). done. }
  apply fs_call_files in Ef. intros [= <- <-].
  eapply (decrypt_chunks_sound _ _ _ _ _ _ _ _ _ (encode h ++s rest) ""%string) in Er as (p & b & t & Hb & Hs & Hl & Hdst & Ho);
    [|done|done|lia|rewrite F3, F2, F1 by done; exact Es|unfold content; rewrite F2, F1, Es; cbn; rewrite str_drop_length; lia|done].
  rewrite str_drop_exact in Hb. subst rest. exists h, dek, p, b, t. rewrite Ef. do 4 (split; [done|]).
  pose proof (ho_pl h Hok). split; [done|split; [done|split; [lia|]]].
  intros q Hq. rewrite Ho, F3, F2, F1 by done. done.
Qed.

(** A container made by [encrypt_file], for the witnesses. *)
Definition sealed_fs : Fs :=
  snd (encrypt_file a_key a_nonce "mem" "mem.enc" a_key "default" (mkFs {["mem"%string := "guest memory"%string]} None [])).

Lemma decrypt_genuine_witness :
  exists fs' h dek p b t,
    decrypt_file "mem.enc" "mem2" a_key sealed_fs = (Ok 12, fs') /\
    fs_files sealed_fs !! "mem.enc"%string = Some (encode h ++s b ++s t) /\
    unwrap_dek h a_key = Ok dek /\ sealed_as h dek 0 p b /\ Z.of_nat (String.length p) = 12.
Proof.
  assert (decrypt_file "mem.enc" "mem2" a_key sealed_fs =
    (Ok 12, snd (decrypt_file "mem.enc" "mem2" a_key sealed_fs))) as E by (vm_compute; reflexivity).
  assert ("mem.enc"%string <> "mem2"%string) as Hne by discriminate.
  destruct (decrypt_genuine _ _ _ _ _ _ Hne E) as (h & dek & p & b & t & H1 & _ & H3 & H4 & _ & _ & H7 & _).
  exists (snd (decrypt_file "mem.enc" "mem2" a_key sealed_fs)), h, dek, p, b, t.
  exact (conj E (conj H1 (conj H3 (conj H4 H7)))).
Defined.

(** *** What a call leaves, whatever fails *)





(** Only the file [dst] changed, and no fault comes out of nothing. *)
Definition touches (dst : string) (fs fs' : Fs) : Prop :=
  (forall q, q <> dst -> fs_files fs' !! q = fs_files fs !! q) /\ (fs_faults fs = [] -> fs_faults fs' = []).

#[global] Instance touches_preorder dst : PreOrder (touches dst).
Proof. split; [by split|]. intros a b c [A1 A2] [B1 B2]. split; [|auto]. intros q Hq. by rewrite B1, A1. Qed.

Lemma next_fault_touches dst fs : touches dst fs (snd (next_fault fs)).
Proof. unfold next_fault, touches. destruct (fs_faults fs) as [|f fl] eqn:E; cbn; by rewrite ?E. Qed.

Lemma set_file_touches dst c fs : touches dst fs (set_file dst c fs).
Proof. split; [|done]. intros q Hq. simpl. by rewrite lookup_insert_ne. Qed.

Lemma fs_call_touches dst failed fs : touches dst fs (snd (fs_call failed fs)).
Proof.
  pose proof (next_fault_touches dst fs) as Hn. unfold fs_call. destruct (next_fault fs) as [[[e n]|] fs1]; exact Hn.
Qed.



Lemma create_touches p fs : touches p fs (snd (create_private p fs)).
Proof.
  pose proof (fs_call_touches p ("建 " ++s p ++s " 失败") fs) as Hc. unfold create_private, mbind.
  destruct (fs_call _ fs) as [[u|e] fs1]; [|exact Hc]. cbn in *. etransitivity; [exact Hc|apply set_file_touches].
Qed.


Lemma fs_append_touches what dst buf fs : touches dst fs (snd (fs_append what dst buf fs)).
Proof.
  pose proof (next_fault_touches dst fs) as [H1 H2]. unfold fs_append. destruct (next_fault fs) as [f fs1]. cbn in H1, H2.
  destruct (write_all _ _) as [r sk]. split; [|done]. intros q Hq. cbn. rewrite lookup_insert_ne by done. by apply H1.
Qed.












(** What [decrypt_file] drops: when the last write cannot be flushed, the file
    cannot be looked at and not removed, the plaintext stays, and the error says
    nothing of it. *)
Lemma plaintext_left_behind :
  let fault := Some ("Input/output error (os error 5)"%string, 0%nat) in
  let fs := mkFs (fs_files sealed_fs) None [None; None; None; None; None; fault; fault; fault] in
  let '(r, fs') := decrypt_file "mem.enc" "mem2" a_key fs in
  r = Err (Failed "flush 失败: Input/output error (os error 5)") /\ fs_files fs' !! "mem2"%string = Some "guest memory"%string.
Proof. vm_compute. split; reflexivity. Qed.

(** A file that can be written and not removed is left with zeros. *)
Lemma left_behind_zeroed :
  let fs := mkFs {["mem"%string := "guest"%string]} None [None; None; None; None; Some ("busy"%string, 0%nat)] in
  let '(r, fs') := shred "mem" fs in
  r = Err (Failed "删除 mem 失败: busy") /\ fs_files fs' !! "mem"%string = Some (zeros 5).
Proof. vm_compute. split; reflexivity. Qed.

(** Sealing a file over itself empties it before it is read: the call succeeds,
    with the header sealed in place of the plaintext, which is lost.  No caller
    does that. *)
Lemma sealed_over_itself :
  let fs := mkFs {["mem"%string := "guest memory"%string]} None [] in
  let '(r, fs') := encrypt_file a_key a_nonce "mem" "mem" a_key "default" fs in
  is_ok r = true /\ (decrypt_file "mem" "mem2" a_key fs').1 = Ok 12 /\
  fs_files (decrypt_file "mem" "mem2" a_key fs').2 !! "mem2"%string = Some (str_take 12 (encode (new_header a_nonce a_key a_key "default" "guest memory"))).
Proof. vm_compute. split; [reflexivity|]. split; reflexivity. Qed.

(** ** Header fields that no chunk authenticates *)

(** Overwrites [n] bytes of a file at an offset. *)
Definition patch (at_ n : nat) (bytes c : string) : string := str_take at_ c ++s bytes ++s str_drop (at_ + n) c.

Definition patched_fs (at_ n : nat) (bytes : string) : Fs :=
  mkFs (<["mem.enc"%string := patch at_ n bytes (default ""%string (fs_files sealed_fs !! "mem.enc"%string))]>
          (fs_files sealed_fs)) None [].

(** With the length field set to zero there is no chunk to authenticate: the
    altered container decrypts, to an empty file. *)
Lemma zeroed_length_accepted :
  exists fs', decrypt_file "mem.enc" "mem2" a_key (patched_fs 16 8 (be_bytes 8 0)) = (Ok 0, fs') /\
    fs_files fs' !! "mem2"%string = Some ""%string.
Proof. eexists. split; [vm_compute; reflexivity|vm_compute; reflexivity]. Qed.

(** A chunk size and a length over 4 MiB overrun the fixed buffer: the reader
    panics, and leaves the file it had created. *)
Lemma oversized_chunk_panics :
  exists fs', decrypt_file "mem.enc" "mem2" a_key
      (patched_fs 12 12 (be_bytes 4 (CHUNK_SIZE + 1) ++s be_bytes 8 (CHUNK_SIZE + 1))) = (Err Panic, fs') /\
    fs_files fs' !! "mem2"%string = Some ""%string.
Proof. eexists. split; [vm_compute; reflexivity|vm_compute; reflexivity]. Qed.

(**  the tenant key round trip through the root key: what [wrap_kek] stores
    under [kek/<project>] is unwrapped to the same key, and whatever unwraps is
    the wrapped form of the key it unwraps to. *)
Theorem kek_roundtrip `{AeadLaws} (nonce root kek : string) :
  key_ok kek -> String.length nonce = 12%nat ->
  exists w, wrap_kek nonce root kek = Ok w /\ unwrap_kek root w = Ok kek /\
    forall w' kek', unwrap_kek root w' = Ok kek' ->
      key_ok kek' /\ exists nonce', String.length nonce' = 12%nat /\ wrap_kek nonce' root kek' = Ok w'.
Proof.
  intros Hk Hn. eexists. split; [reflexivity|]. split.
  - unfold unwrap_kek. rewrite open_seal_blob by done. simpl. unfold key_ok in Hk. by rewrite Hk.
  - intros w' kek'. unfold unwrap_kek, open_blob. destruct (_ <? 12 + 16)%nat eqn:El; [done|]. apply Nat.ltb_ge in El.
    destruct (open_sealed _ _ _ _) as [p|] eqn:Eo; [|done]. apply seal_open in Eo. simpl.
    destruct (String.length p =? 32)%nat eqn:Ep; [|done]. intros [= <-]. apply Nat.eqb_eq in Ep. split; [exact Ep|].
    exists (str_take 12 w'). split; [rewrite str_take_length; lia|].
    unfold wrap_kek, seal_blob. rewrite <- Eo. by rewrite str_take_drop.
Qed.

Lemma kek_roundtrip_witness :
  exists w, wrap_kek a_nonce a_key a_key = Ok w /\ unwrap_kek a_key w = Ok a_key.
Proof.
  destruct (kek_roundtrip a_nonce a_key a_key) as (w & H1 & H2 & _); [reflexivity|reflexivity|].
  exists w. exact (conj H1 H2).
Defined.

(** A root key that is there survives any attempt to make another; one that was made
    opens, and no other file changes. *)
Theorem root_key_made (p random : string) (fs : Fs) (key : string) (Hr : String.length random = 32%nat) :
  let '(r, fs') := file_kms_init p random fs in
  (fs_files fs !! p = Some key -> is_ok r = false /\ fs' = fs) /\
  (is_ok r = true -> exists raw, fs_files fs' !! p = Some raw /\ file_kms_open p 33152 raw = Ok random) /\
  (forall q, q <> p -> fs_files fs' !! q = fs_files fs !! q).
Proof.
  unfold file_kms_init. destruct (fs_files fs !! p) as [c|] eqn:E; [done|]. unfold mbind.
  pose proof (create_touches p fs) as [T1 _]. destruct (create_private p fs) as [[u|e] fs1] eqn:Ec; cbn in T1; [|by split].
  apply create_private_empty in Ec. pose proof (fs_append_touches "写根密钥" p random fs1) as [T2 _].
  destruct (fs_append _ p random fs1) as [[[]|e] fs2] eqn:Ea; cbn in T2; (split; [done|]); (split; [|intros q Hq; by rewrite T2, T1]); [|done].
  intros _. apply fs_append_ok in Ea. exists random. rewrite Ea, lookup_insert_eq. unfold content. rewrite Ec. split; [done|].
  unfold file_kms_open. by rewrite Hr.
Qed.

(** A disk that fills up while the root key is written leaves a short one: it does not
    open, and the next attempt refuses to replace it. *)
Lemma short_key_stays :
  exists fs raw, (file_kms_init "root.key" a_key (mkFs ∅ (Some 5%nat) [])).2 = fs /\ fs_files fs !! "root.key"%string = Some raw /\
    is_ok (file_kms_open "root.key" 33152 raw) = false /\ is_ok (file_kms_init "root.key" a_key (mkFs (fs_files fs) None [])).1 = false.
Proof. eexists _, _. split; [reflexivity|]. split; [vm_compute; reflexivity|]. split; vm_compute; reflexivity. Qed.
