(* ===== verification/Backend.v ===== *)
(** * The sandbox ABI (crates/sl-node/src/backend.rs)

    Capabilities as a bit set over [u32], the specification of a sandbox, and the
    [SandboxBackend] trait as a class of operations on a backend's state with the
    laws the orchestrator relies on. *)

From Stdlib Require Import ZArith Lia Bool List String Ascii.
From stdpp Require Import base tactics list gmap strings sorting.
From S2P Require Import Prelude RustStr Utf8 Json Proto Snapcrypt.

Open Scope Z_scope.

Definition UNSUPPORTED_BY_BACKEND : string := "UNSUPPORTED_BY_BACKEND".

(** ** Capabilities *)

Inductive Capability : Type :=
| PauseResume
| SnapshotFork
| PrebakeSnapshot
| GpuPassthrough
| PersistentVolume
| NetworkEgress.

#[global] Instance Capability_eq_dec : EqDecision Capability.
Proof. solve_decision. Defined.

Definition ALL : list Capability :=
  [PauseResume; SnapshotFork; PrebakeSnapshot; GpuPassthrough; PersistentVolume; NetworkEgress].

Definition as_str (c : Capability) : string :=
  match c with
  | PauseResume => "pause_resume"
  | SnapshotFork => "snapshot_fork"
  | PrebakeSnapshot => "prebake_snapshot"
  | GpuPassthrough => "gpu_passthrough"
  | PersistentVolume => "persistent_volume"
  | NetworkEgress => "network_egress"
  end.

Definition from_str (s : string) : option Capability :=
  List.find (fun c => String.eqb (as_str c) s) ALL.

(** [self as u32], the declaration order. *)
Definition discriminant (c : Capability) : Z :=
  match c with
  | PauseResume => 0
  | SnapshotFork => 1
  | PrebakeSnapshot => 2
  | GpuPassthrough => 3
  | PersistentVolume => 4
  | NetworkEgress => 5
  end.

Definition bit (c : Capability) : Z := as_u32 (Z.shiftl 1 (discriminant c)).

(** [Capabilities(u32)] *)
Definition Capabilities := Z.

Definition caps_empty : Capabilities := 0.
Definition caps_insert (s : Capabilities) (c : Capability) : Capabilities := Z.lor s (bit c).
Definition caps_with (cs : list Capability) : Capabilities := fold_left caps_insert cs caps_empty.
Definition caps_contains (s : Capabilities) (c : Capability) : bool := negb (Z.land s (bit c) =? 0).
Definition caps_is_empty (s : Capabilities) : bool := s =? 0.

Definition missing_from (self other : Capabilities) : list string :=
  map as_str (List.filter (fun c => caps_contains self c && negb (caps_contains other c)) ALL).

Definition names (s : Capabilities) : list string := map as_str (List.filter (caps_contains s) ALL).

Definition debug_hex (d : Z) : string :=
  String (byte_of (if d <? 10 then 48 + d else 87 + d)) "".

(** [{s:?}] of a string: quotes, backslashes and the control characters are
    escaped. *)
Definition debug_char (c : ascii) : string :=
  if Ascii.eqb c quote then String backslash (String quote "")
  else if Ascii.eqb c backslash then String backslash (String backslash "")
  else if byte_val c =? 0 then String backslash "0"
  else if byte_val c =? 9 then String backslash "t"
  else if byte_val c =? 10 then String backslash "n"
  else if byte_val c =? 13 then String backslash "r"
  else if (byte_val c <? 32) || (byte_val c =? 127) then
    String backslash ("u{" ++s (if byte_val c <? 16 then "" else debug_hex (byte_val c / 16)) ++s
                      debug_hex (byte_val c mod 16) ++s "}")
  else String c "".

Fixpoint debug_body (s : string) : string :=
  match s with
  | EmptyString => ""
  | String c s' => debug_char c ++s debug_body s'
  end.

Definition debug_str (s : string) : string := quoted (debug_body s).

(** [{v:?}] of a list of strings. *)
Definition debug_list (l : list string) : string :=
  let fix go (l : list string) : string :=
    match l with
    | [] => ""%string
    | [x] => debug_str x
    | x :: l' => debug_str x ++s ", " ++s go l'
    end in
  "[" ++s go l ++s "]".

(** [{:?}] of a response. *)
Definition debug_response (r : Response) : string :=
  match r with
  | Pong d => "Pong { data: " ++s debug_str d ++s " }"
  | ExecDone c o e =>
      "Exec { exit_code: " ++s dec c ++s ", stdout: " ++s debug_str o ++s
      ", stderr: " ++s debug_str e ++s " }"
  | ReinitDone a b c =>
      "Reinit { machine_id: " ++s debug_str a ++s ", rng_hex: " ++s debug_str b ++s ", session_key_hex: " ++s
      debug_str c ++s " }"
  | Error m => "Error { message: " ++s debug_str m ++s " }"
  | Acked => "Ok"
  end.

Fixpoint from_names_aux (ns : list string) (s : Capabilities) : result Capabilities string :=
  match ns with
  | [] => Ok s
  | n :: ns' =>
      match from_str n with
      | Some c => from_names_aux ns' (caps_insert s c)
      | None => Err (UNSUPPORTED_BY_BACKEND ++s ": 未知能力 " ++s debug_str n)
      end
  end.

Definition from_names (ns : list string) : result Capabilities string := from_names_aux ns caps_empty.

(** ** Sandbox specifications (crates/sl-node/src/orch.rs) *)

Inductive NetworkMode : Type := NoNetwork | Egress.

#[global] Instance NetworkMode_eq_dec : EqDecision NetworkMode.
Proof. solve_decision. Defined.

(** [metadata] is the ordered content of the [BTreeMap]. *)
Record SandboxSpec : Type := mkSpec {
  sp_vcpus : Z;
  sp_mem_mib : Z;
  sp_ttl_secs : Z;
  sp_idle_secs : Z;
  sp_metadata : list (string * string);
  sp_required : Capabilities;
  sp_backend : option string;
  sp_network : NetworkMode
}.

Definition default_spec : SandboxSpec := mkSpec 2 512 300 300 [] caps_empty None NoNetwork.

(** ** The trait *)

Record BackendInfo : Type := mkInfo { bi_id : string; bi_capabilities : list string }.

Record BackendCreate : Type := mkBc {
  bc_id : string;
  bc_machine_id : string;
  bc_rng_hex : string;
  bc_session_key_hex : string;
  bc_total_ms : Z;
  bc_copy_ms : Z;
  bc_api_ready_ms : Z;
  bc_load_ms : Z;
  bc_resume_ms : Z;
  bc_pool_hit : bool;
  bc_hot_hit : bool
}.

Inductive ExecTarget : Type :=
| Vsock (uds : string)
| Runsc (bin : string) (global_args : list string) (id : string).

Class SandboxBackend (B : Type) : Type := {
  b_id : B -> string;
  b_capabilities : B -> Capabilities;
  b_create : string -> SandboxSpec -> M B string BackendCreate;
  b_destroy : string -> B -> B;
  b_exec_target : B -> string -> option ExecTarget;
  b_instance_dir : B -> string -> option string;
  b_log_path : B -> string -> option string;
  b_enable_warm_pool : string -> nat -> M B string unit;
  b_enable_hot_pool : string -> nat -> M B string unit;
  b_pool_wait_ready : B -> nat -> Z -> bool;
  b_hot_wait_ready : B -> nat -> Z -> bool;
  b_pool_stats : B -> option (Z * Z * nat);
  b_set_snapshot_key : option SnapKey -> B -> B;
  b_pause : string -> M B string unit;
  b_resume : string -> M B string string;
  b_fork : string -> M B string BackendCreate
}.

(** [SandboxBackend::info] *)
Definition b_info {B} `{SandboxBackend B} (b : B) : BackendInfo := mkInfo (b_id b) (names (b_capabilities b)).

(** The default methods: a backend without the capability refuses. *)
Section Defaults.
Context {B : Type} (id_of : B -> string).

Definition unsupported {A} (what : string) : M B string A :=
  fun b => (Err (UNSUPPORTED_BY_BACKEND ++s ": 后端 " ++s id_of b ++s what), b).

Definition default_enable_warm_pool (template : string) (target : nat) : M B string unit :=
  unsupported " 无 prebake_snapshot，不支持温池".
Definition default_enable_hot_pool (template : string) (target : nat) : M B string unit :=
  unsupported " 无 pause_resume，不支持热池".
Definition default_wait_ready (b : B) (n : nat) (timeout : Z) : bool := false.
Definition default_pool_stats (b : B) : option (Z * Z * nat) := None.
Definition default_set_snapshot_key (key : option SnapKey) (b : B) : B := b.
Definition default_pause (id : string) : M B string unit := unsupported " 无 pause_resume，不支持 pause".
Definition default_resume (id : string) : M B string string := unsupported " 无 pause_resume，不支持 resume".
Definition default_fork (id : string) : M B string BackendCreate := unsupported " 无 snapshot_fork，不支持 fork".
End Defaults.

(** What the orchestrator relies on: an operation creates at most the instance
    it returns, none when it fails, and removes none but [destroy]'s; the identity
    and the capabilities of a backend do not change; only an instance has a data
    plane target, a directory and a log. *)
Definition same_backend {B} `{SandboxBackend B} (b b' : B) : Prop :=
  b_id b' = b_id b /\ b_capabilities b' = b_capabilities b.

Class BackendLaws (B : Type) `{SandboxBackend B} : Type := {
  instances : B -> gset string;
  create_law : forall t spec b, let '(r, b') := b_create t spec b in
    same_backend b b' /\
    instances b' = match r with Ok bc => {[bc_id bc]} ∪ instances b | Err _ => instances b end;
  fork_law : forall id b, let '(r, b') := b_fork id b in
    same_backend b b' /\
    instances b' = match r with Ok bc => {[bc_id bc]} ∪ instances b | Err _ => instances b end;
  destroy_law : forall id b, same_backend b (b_destroy id b) /\ instances (b_destroy id b) = instances b ∖ {[id]};
  pause_law : forall id b, let '(r, b') := b_pause id b in same_backend b b' /\ instances b' = instances b;
  resume_law : forall id b, let '(r, b') := b_resume id b in same_backend b b' /\ instances b' = instances b;
  set_key_law : forall k b, same_backend b (b_set_snapshot_key k b) /\ instances (b_set_snapshot_key k b) = instances b;
  target_law : forall id b, is_Some (b_exec_target b id) \/ is_Some (b_instance_dir b id) \/ is_Some (b_log_path b id) ->
    id ∈ instances b
}.

(** ** Capability sets *)

Lemma bit_pow c : bit c = 2 ^ discriminant c.
Proof. destruct c; reflexivity. Qed.

Lemma discriminant_range c : 0 <= discriminant c < 6.
Proof. destruct c; simpl; lia. Qed.

Lemma discriminant_inj c d : discriminant c = discriminant d -> c = d.
Proof. destruct c, d; simpl; (done || lia). Qed.

Lemma in_ALL c : In c ALL.
Proof. destruct c; simpl; tauto. Qed.

Lemma contains_testbit s c : caps_contains s c = Z.testbit s (discriminant c).
Proof.
  unfold caps_contains. rewrite bit_pow. pose proof (discriminant_range c).
  destruct (Z.testbit s (discriminant c)) eqn:E.
  - apply negb_true_iff, Z.eqb_neq. intros Hz. apply (f_equal (fun z => Z.testbit z (discriminant c))) in Hz.
    rewrite Z.land_spec, Z.pow2_bits_true, E, Z.bits_0 in Hz by lia. done.
  - apply negb_false_iff, Z.eqb_eq. apply Z.bits_inj'. intros i Hi. rewrite Z.land_spec, Z.bits_0, Z.pow2_bits_eqb by lia.
    destruct (Z.eqb_spec (discriminant c) i) as [<-|]; [by rewrite E|by rewrite andb_false_r].
Qed.

Lemma insert_testbit s c i : 0 <= i -> Z.testbit (caps_insert s c) i = Z.testbit s i || (discriminant c =? i).
Proof.
  intros Hi. unfold caps_insert. rewrite Z.lor_spec, bit_pow, Z.pow2_bits_eqb; [done|]. apply discriminant_range.
Qed.

Lemma contains_insert s c d : caps_contains (caps_insert s c) d = caps_contains s d || bool_decide (c = d).
Proof.
  rewrite !contains_testbit, insert_testbit by apply discriminant_range. f_equal.
  case_bool_decide as Hd; [subst; apply Z.eqb_refl|]. apply Z.eqb_neq. intros He. by apply Hd, discriminant_inj.
Qed.

Lemma from_str_as_str c : from_str (as_str c) = Some c.
Proof. destruct c; reflexivity. Qed.

Lemma from_str_some s c : from_str s = Some c -> s = as_str c.
Proof. intros Hf. apply find_some in Hf as [_ Hf]. bool_prop. done. Qed.

Lemma from_names_aux_bits ns s :
  match from_names_aux ns s with
  | Ok s' => (forall n, In n ns -> is_Some (from_str n)) /\
             (forall i, 0 <= i -> Z.testbit s' i = Z.testbit s i ||
                existsb (fun c => (discriminant c =? i) && bool_decide (as_str c ∈ ns)) ALL)
  | Err e => exists n, In n ns /\ from_str n = None /\ e = UNSUPPORTED_BY_BACKEND ++s ": 未知能力 " ++s debug_str n
  end.
Proof.
  revert s; induction ns as [|n ns IH]; intros s; cbn [from_names_aux].
  - split; [done|]. intros i Hi. replace (existsb _ ALL) with false; [by rewrite orb_false_r|].
    symmetry. apply not_true_iff_false. intros (c & _ & Hc)%existsb_exists. bool_prop. by apply not_elem_of_nil in H0.
  - destruct (from_str n) as [c|] eqn:En; [|exists n; simpl; auto]. apply from_str_some in En as ->.
    specialize (IH (caps_insert s c)). destruct (from_names_aux ns _) as [s'|e].
    + destruct IH as [Hk Hb]. split.
      { intros n [<-|Hin]; [by rewrite from_str_as_str|auto]. }
      intros i Hi. rewrite Hb, insert_testbit by done. rewrite <- orb_assoc. f_equal.
      apply eq_true_iff_eq. rewrite orb_true_iff, !existsb_exists. split.
      * intros [Hc|(d & Hd & Hx)].
        { exists c. split; [apply in_ALL|]. rewrite Hc. apply bool_decide_eq_true. constructor. }
        exists d. split; [done|]. bool_prop. apply andb_true_intro. split; [by apply Z.eqb_eq|].
        apply bool_decide_eq_true. by constructor.
      * intros (d & Hd & Hx). bool_prop. apply elem_of_cons in H0 as [He|Hin].
        { left. apply (f_equal from_str) in He. rewrite !from_str_as_str in He. injection He as ->. by apply Z.eqb_eq. }
        right. exists d. split; [done|]. apply andb_true_intro. split; [by apply Z.eqb_eq|by apply bool_decide_eq_true].
    + destruct IH as (m & Hm & He). exists m. split; [by right|done].
Qed.

Lemma as_str_inj c d : as_str c = as_str d -> c = d.
Proof. intros He. apply (f_equal from_str) in He. rewrite !from_str_as_str in He. congruence. Qed.

Lemma discriminant_surj i : 0 <= i < 6 -> exists c, discriminant c = i.
Proof.
  intros Hi. assert (i = 0 \/ i = 1 \/ i = 2 \/ i = 3 \/ i = 4 \/ i = 5) as Hc by lia.
  destruct Hc as [->|[->|[->|[->|[->| ->]]]]];
    [by exists PauseResume|by exists SnapshotFork|by exists PrebakeSnapshot|by exists GpuPassthrough
    |by exists PersistentVolume|by exists NetworkEgress].
Qed.

Lemma missing_from_in required offered c :
  In (as_str c) (missing_from required offered) <->
  caps_contains required c = true /\ caps_contains offered c = false.
Proof.
  unfold missing_from. rewrite in_map_iff. split.
  - intros (d & Hd%as_str_inj & Hin). subst d. apply filter_In in Hin as [_ Hin]. bool_prop. done.
  - intros [H1 H2]. exists c. split; [done|]. apply filter_In. rewrite H1, H2. split; [apply in_ALL|done].
Qed.

Lemma missing_from_nil required offered :
  missing_from required offered = [] <->
  forall c, caps_contains required c = true -> caps_contains offered c = true.
Proof.
  split.
  - intros He c Hc. destruct (caps_contains offered c) eqn:Eo; [done|]. exfalso.
    pose proof (proj2 (missing_from_in required offered c) (conj Hc Eo)) as Hin. by rewrite He in Hin.
  - intros Hall. destruct (missing_from required offered) as [|x l] eqn:E; [done|]. exfalso.
    assert (In x (missing_from required offered)) as Hin by (rewrite E; by left).
    pose proof Hin as Hin'. unfold missing_from in Hin'. apply in_map_iff in Hin' as (c & <- & _).
    apply missing_from_in in Hin as [H1 H2]. rewrite Hall in H2; done.
Qed.

Lemma names_in s c : In (as_str c) (names s) <-> caps_contains s c = true.
Proof.
  unfold names. rewrite in_map_iff. split.
  - intros (d & Hd%as_str_inj & Hin). subst d. by apply filter_In in Hin as [_ Hin].
  - intros Hc. exists c. split; [done|]. apply filter_In. split; [apply in_ALL|done].
Qed.

Lemma from_names_contains ns s :
  from_names ns = Ok s -> forall c, caps_contains s c = true <-> In (as_str c) ns.
Proof.
  unfold from_names. intros Hs c. pose proof (from_names_aux_bits ns caps_empty) as Hb. rewrite Hs in Hb.
  destruct Hb as [_ Hb]. rewrite contains_testbit, Hb by apply discriminant_range.
  unfold caps_empty. rewrite Z.bits_0. cbn [orb]. rewrite existsb_exists. split.
  - intros (d & _ & Hd). bool_prop. apply list_elem_of_In. by rewrite <- (discriminant_inj _ _ H).
  - intros Hin. exists c. split; [apply in_ALL|]. rewrite Z.eqb_refl. by apply bool_decide_eq_true, list_elem_of_In.
Qed.

Lemma from_names_names s : from_names (names s) = Ok (Z.land s 63).
Proof.
  pose proof (from_names_aux_bits (names s) caps_empty) as Hb. unfold from_names.
  destruct (from_names_aux (names s) caps_empty) as [s'|e].
  - f_equal. destruct Hb as [_ Hb]. apply Z.bits_inj'. intros i Hi. rewrite Hb by done.
    unfold caps_empty. rewrite Z.bits_0, Z.land_spec. cbn [orb].
    apply eq_true_iff_eq. rewrite existsb_exists, andb_true_iff. split.
    + intros (c & _ & Hc). bool_prop. subst i. apply list_elem_of_In, names_in in H0.
      rewrite contains_testbit in H0. split; [done|by destruct c].
    + intros [Hr Hm]. assert (i < 6) as Hlt.
      { destruct (Z.ltb_spec i 6); [done|]. change 63 with (Z.ones 6) in Hm. by rewrite Z.ones_spec_high in Hm by lia. }
      destruct (discriminant_surj i (conj Hi Hlt)) as [c Hc].
      exists c. split; [apply in_ALL|]. rewrite (proj2 (Z.eqb_eq _ _) Hc).
      apply bool_decide_eq_true, list_elem_of_In, names_in. by rewrite contains_testbit, Hc.
  - exfalso. destruct Hb as (n & Hn & Hf & _). unfold names in Hn. apply in_map_iff in Hn as (c & <- & _).
    by rewrite from_str_as_str in Hf.
Qed.

(**  capability negotiation is exact.  [from_names] accepts a list of names
    when, and only when, every name is a capability's, and then the set contains
    exactly the capabilities named (an unknown name is refused with the stable
    prefix); [missing_from] is empty exactly when every required capability is
    offered, and otherwise names exactly the ones that are not; and the names of
    a set parse back to it. *)
Theorem capabilities_exact (ns : list string) (required offered : Capabilities) :
  match from_names ns with
  | Ok s => (forall n, In n ns -> is_Some (from_str n)) /\
            (forall c, caps_contains s c = true <-> In (as_str c) ns)
  | Err e => (exists n, In n ns /\ from_str n = None) /\ starts_with UNSUPPORTED_BY_BACKEND e = true
  end /\
  (missing_from required offered = [] <->
     forall c, caps_contains required c = true -> caps_contains offered c = true) /\
  (forall c, In (as_str c) (missing_from required offered) <->
     caps_contains required c = true /\ caps_contains offered c = false) /\
  from_names (names required) = Ok (Z.land required 63).
Proof.
  split; [|split; [apply missing_from_nil|split; [apply missing_from_in|apply from_names_names]]].
  destruct (from_names ns) as [s|e] eqn:E.
  - split; [|by apply from_names_contains].
    pose proof (from_names_aux_bits ns caps_empty) as Hb. unfold from_names in E. rewrite E in Hb. by destruct Hb.
  - pose proof (from_names_aux_bits ns caps_empty) as Hb. unfold from_names in E. rewrite E in Hb.
    destruct Hb as (n & Hn & Hf & ->). split; [by exists n|apply starts_with_app].
Qed.

(** ** A concrete backend for the witnesses: numbered instances *)

Module RefBackend.

Record Ref : Type := mkRef { rb_id : string; rb_caps : Capabilities; rb_next : Z; rb_set : gset string }.

Definition new_instance (b : Ref) : BackendCreate :=
  mkBc ("i" ++s dec (rb_next b)) "machine" "" "" 0 0 0 0 0 false false.

Definition add_instance : M Ref string BackendCreate := fun b =>
  (Ok (new_instance b), mkRef (rb_id b) (rb_caps b) (rb_next b + 1) ({[bc_id (new_instance b)]} ∪ rb_set b)).

Definition known (id : string) (b : Ref) : bool := bool_decide (id ∈ rb_set b).

#[export] Instance ref_backend : SandboxBackend Ref := {|
  b_id := rb_id;
  b_capabilities := rb_caps;
  b_create := fun _ _ => add_instance;
  b_destroy := fun id b => mkRef (rb_id b) (rb_caps b) (rb_next b) (rb_set b ∖ {[id]});
  b_exec_target := fun b id => if known id b then Some (Vsock id) else None;
  b_instance_dir := fun b id => if known id b then Some id else None;
  b_log_path := fun b id => if known id b then Some id else None;
  b_enable_warm_pool := default_enable_warm_pool rb_id;
  b_enable_hot_pool := default_enable_hot_pool rb_id;
  b_pool_wait_ready := default_wait_ready;
  b_hot_wait_ready := default_wait_ready;
  b_pool_stats := default_pool_stats;
  b_set_snapshot_key := default_set_snapshot_key;
  b_pause := fun id b => (if known id b then Ok tt else Err "unknown"%string, b);
  b_resume := fun id b => (if known id b then Ok "machine"%string else Err "unknown"%string, b);
  b_fork := fun id b => if known id b then add_instance b else (Err "unknown"%string, b)
|}.

#[export] Instance ref_backend_laws : BackendLaws Ref.
Proof.
  refine {| instances := rb_set |}.
  - intros t spec b. simpl. done.
  - intros id b. simpl. by destruct (known id b).
  - intros id b. done.
  - intros id b. done.
  - intros id b. done.
  - intros k b. done.
  - intros id b. simpl. unfold known. case_bool_decide as Hk; [done|]. intros [[? [=]]|[[? [=]]|[? [=]]]].
Defined.

End RefBackend.
