(* ===== verification/Orch.v ===== *)
(** * The orchestrator (crates/sl-node/src/orch.rs)

    The life cycle of sandboxes: creation and its rollback, pause, resume and
    fork, keepalive, destruction, and the reaper, over the store interface and the
    backend interface.  The state is the store, the backends and the table of
    live sandboxes; the clock, the randomness and the iteration order of the hash
    table are arguments. *)

From Stdlib Require Import ZArith Lia Bool List String Ascii.
From stdpp Require Import base tactics list gmap strings sorting.
From S2P Require Import Prelude RustStr Utf8 Json Store Cluster Quota Sched Retention AuditLog Proto Snapcrypt Backend.

Open Scope Z_scope.

(** ** Data *)

Record CreateOutcome : Type := mkOutcome {
  co_id : string;
  co_total_ms : Z;
  co_copy_ms : Z;
  co_api_ready_ms : Z;
  co_load_ms : Z;
  co_resume_ms : Z;
  co_machine_id : string;
  co_rng_hex : string;
  co_session_key_hex : string;
  co_pool_hit : bool;
  co_hot_hit : bool;
  co_forked_from : option string
}.

Record LiveMeta : Type := mkLive { lm_lease : Z; lm_ttl_deadline : Z; lm_backend : nat }.

(** [dyn Kms]; wrapping draws a nonce. *)
Record Kms : Type := mkKms {
  kms_wrap : string -> Key -> result string string;
  kms_unwrap : string -> result Key string
}.

Definition file_kms `{Aead} (root : Key) : Kms :=
  mkKms (fun nonce kek => wrap_kek nonce root kek) (fun w => unwrap_kek root w).

(** What the orchestrator sees of the file system. *)
Record Host : Type := mkHost {
  is_dir : string -> bool;
  abspath : string -> result string string;
  manifest_of : string -> option string
}.

Record Orch (S B : Type) : Type := mkOrch {
  o_store : S;
  o_backends : list B;
  o_template : string;
  o_live : gmap string LiveMeta;
  o_node_id : option string;
  o_kms : option Kms
}.
Arguments mkOrch {S B}.
Arguments o_store {S B}.
Arguments o_backends {S B}.
Arguments o_template {S B}.
Arguments o_live {S B}.
Arguments o_node_id {S B}.
Arguments o_kms {S B}.

(** ** Pure logic *)

Definition meta_key (id : string) : string := "sandbox/" ++s id ++s "/meta".
Definition state_key (id : string) : string := "sandbox/" ++s id ++s "/state".
Definition project_key (id : string) : string := "sandbox/" ++s id ++s "/project".

Definition compute_ttl_deadline (created_at ttl_secs : Z) : Z := i64_saturating_add created_at ttl_secs.
Definition is_ttl_expired (now deadline : Z) : bool := deadline <=? now.

Definition sandbox_id_of_key (key : string) : option string :=
  match strip_prefix "sandbox/" key with
  | None => None
  | Some rest =>
      match split "/" rest with
      | [] => None
      | id :: _ => if String.eqb id "" then None else Some id
      end
  end.

Fixpoint labels_json (kvs : list (string * string)) : list (string * json) :=
  match kvs with
  | [] => []
  | (k, v) :: kvs' => (k, JStr v) :: labels_json kvs'
  end.

(** The id is not escaped; [fields_text] escapes the other strings as
    [json_escape] does. *)
Definition build_meta_json (id : string) (spec : SandboxSpec) (created_at ttl_deadline : Z) (template : string) : string :=
  "{" ++s quoted "id" ++s ":" ++s quoted id ++s "," ++s
  fields_text [("vcpus"%string, JNum (sp_vcpus spec)); ("mem_mib"%string, JNum (sp_mem_mib spec));
               ("ttl_secs"%string, JNum (sp_ttl_secs spec)); ("idle_secs"%string, JNum (sp_idle_secs spec));
               ("created_at"%string, JNum created_at); ("ttl_deadline"%string, JNum ttl_deadline);
               ("template"%string, JStr template); ("labels"%string, JObj (labels_json (sp_metadata spec)))] ++s "}".

(** [ids.sort(); ids.dedup()] *)
Fixpoint dedup (l : list string) : list string :=
  match l with
  | x :: (y :: _) as l' => if String.eqb x y then dedup l' else x :: dedup l'
  | _ => l
  end.

Fixpoint insert_sorted (x : string) (l : list string) : list string :=
  match l with
  | [] => [x]
  | y :: l' => if str_le x y then x :: l else y :: insert_sorted x l'
  end.

Definition sort (l : list string) : list string := foldr insert_sorted [] l.
Definition sort_dedup (l : list string) : list string := dedup (sort l).

(** [percentile]: nearest rank, clamped. *)
Fixpoint insert_num (x : Z) (l : list Z) : list Z :=
  match l with
  | [] => [x]
  | y :: l' => if x <=? y then x :: l else y :: insert_num x l'
  end.

Definition sort_nums (l : list Z) : list Z := foldr insert_num [] l.

Definition percentile (v : list Z) (pct : nat) : Z :=
  match v with
  | [] => 0
  | _ =>
      let idx := Nat.min ((length v * pct + 99) / 100 - 1) (length v - 1) in
      nth idx (sort_nums v) 0
  end.

Section Ops.
Context {S B : Type} `{Store S} `{SandboxBackend B} `{SerdeJson}.

Notation O := (Orch S B).
Notation OM := (M O string).

(** ** Access to the parts of the state *)

Definition set_store (s : S) (o : O) : O :=
  mkOrch s (o_backends o) (o_template o) (o_live o) (o_node_id o) (o_kms o).
Definition set_backends (bs : list B) (o : O) : O :=
  mkOrch (o_store o) bs (o_template o) (o_live o) (o_node_id o) (o_kms o).
Definition set_live (l : gmap string LiveMeta) (o : O) : O :=
  mkOrch (o_store o) (o_backends o) (o_template o) l (o_node_id o) (o_kms o).
Definition set_node_id (id : string) (o : O) : O :=
  mkOrch (o_store o) (o_backends o) (o_template o) (o_live o) (Some id) (o_kms o).

Definition on_store {E A} (m : M S E A) : M O E A :=
  fun o => let '(r, s') := m (o_store o) in (r, set_store s' o).

(** Indexing a vector out of bounds panics. *)
Definition panic_index {A} : OM A := mfail "index out of bounds".

Definition on_backend {A} (idx : nat) (m : M B string A) : OM A := fun o =>
  match o_backends o !! idx with
  | None => panic_index o
  | Some b => let '(r, b') := m b in (r, set_backends (<[idx := b']> (o_backends o)) o)
  end.

Definition upd_backend (idx : nat) (f : B -> B) : OM unit := on_backend idx (fun b => (Ok tt, f b)).

Definition ask {A} (f : O -> A) : OM A := fun o => (Ok (f o), o).

(** [let _ = m;] *)
Definition ignore {A} (m : OM A) : OM unit := let? _ := mtry m in mret tt.

Definition unknown_sandbox (id : string) : string := "未知沙箱 " ++s id.

(** ** Backends *)

Definition backends_info (o : O) : list BackendInfo := map b_info (o_backends o).

Definition backend_position (bs : list B) (want : string) : option nat :=
  fst <$> list_find (fun b => b_id b = want) bs.

Definition effective_required (spec : SandboxSpec) : Capabilities :=
  if bool_decide (sp_network spec = Egress) then caps_insert (sp_required spec) NetworkEgress else sp_required spec.

Definition select_backend (spec : SandboxSpec) : OM nat := fun o =>
  let idx := match sp_backend spec with
             | Some want =>
                 match backend_position (o_backends o) want with
                 | Some i => Ok i
                 | None => Err (UNSUPPORTED_BY_BACKEND ++s ": 无此后端 " ++s debug_str want ++s "（GET /v1/backends 查可用）")
                 end
             | None => Ok 0%nat
             end in
  match idx with
  | Err e => (Err e, o)
  | Ok idx =>
      let required := effective_required spec in
      if negb (caps_is_empty required) then
        match o_backends o !! idx with
        | None => panic_index o
        | Some b =>
            let missing := missing_from required (b_capabilities b) in
            match missing with
            | [] => (Ok idx, o)
            | _ => (Err (UNSUPPORTED_BY_BACKEND ++s ": 后端 " ++s b_id b ++s " 不满足 required_capabilities "
                           ++s debug_list missing), o)
            end
        end
      else (Ok idx, o)
  end.

Definition require_cap (idx : nat) (cap : Capability) : OM unit := fun o =>
  match o_backends o !! idx with
  | None => panic_index o
  | Some b =>
      if caps_contains (b_capabilities b) cap then (Ok tt, o)
      else (Err (UNSUPPORTED_BY_BACKEND ++s ": 后端 " ++s b_id b ++s " 不支持 " ++s as_str cap), o)
  end.

Definition enable_warm_pool (template : string) (target : nat) : OM unit := on_backend 0 (b_enable_warm_pool template target).
Definition enable_hot_pool (template : string) (target : nat) : OM unit := on_backend 0 (b_enable_hot_pool template target).

(** ** Creation *)

(** The rollback of [register]: revoke the lease, destroy the instance. *)
Definition rollback {A} (idx : nat) (lease : Z) (id msg : string) : OM A :=
  let? _ := ignore (on_store (text (lease_revoke lease))) in
  let? _ := upd_backend idx (b_destroy id) in
  mfail msg.

(** [if let Err(e) = m { rollback; return Err(..) }] *)
Definition or_rollback {A} (m : M S StoreError A) (idx : nat) (lease : Z) (id what : string) : OM unit :=
  let? r := on_store (fun s => let '(r, s') := m s in (Ok r, s')) in
  match r with
  | Ok _ => mret tt
  | Err e => rollback idx lease id (what ++s ": " ++s store_error_display e)
  end.

Definition outcome_of (bc : BackendCreate) (forked_from : option string) : CreateOutcome :=
  mkOutcome (bc_id bc) (bc_total_ms bc) (bc_copy_ms bc) (bc_api_ready_ms bc) (bc_load_ms bc) (bc_resume_ms bc)
            (bc_machine_id bc) (bc_rng_hex bc) (bc_session_key_hex bc) (bc_pool_hit bc) (bc_hot_hit bc) forked_from.

Definition register (host : Host) (now : Z) (bc : BackendCreate) (idx : nat) (spec : SandboxSpec) (template : string)
    (forked_from : option string) : OM CreateOutcome :=
  let created_at := now in
  let ttl_deadline := compute_ttl_deadline created_at (sp_ttl_secs spec) in
  let id := bc_id bc in
  let? granted := on_store (fun s => let '(r, s') := lease_grant now (sp_idle_secs spec) s in (Ok r, s')) in
  match granted with
  | Err e => let? _ := upd_backend idx (b_destroy id) in mfail (store_error_display e)
  | Ok lease =>
      let meta := build_meta_json id spec created_at ttl_deadline template in
      let? _ := or_rollback (put (meta_key id) meta (Some lease)) idx lease id "写 sandbox meta 失败" in
      let? _ := or_rollback (put (state_key id) "running" (Some lease)) idx lease id "写 sandbox state 失败" in
      let? node := ask o_node_id in
      let? _ := match node with
                | Some node_id =>
                    or_rollback (put (sandbox_node_key id) node_id (Some lease)) idx lease id "写 sandbox 归属键失败"
                | None => mret tt
                end in
      let? _ := match pin_from_template (manifest_of host template) with
                | Some pin => ignore (on_store (set_pin id pin (Some lease)))
                | None => mret tt
                end in
      let? live := ask o_live in
      fun o => (Ok (outcome_of bc forked_from), set_live (<[id := mkLive lease ttl_deadline idx]> live) o)
  end.

Definition no_template (template : string) : string :=
  "模板目录不存在: " ++s template ++s "（先跑 --build / --snap-create）".

Definition create_in (host : Host) (now : Z) (template : string) (spec : SandboxSpec) : OM CreateOutcome :=
  if negb (is_dir host template) then mfail (no_template template)
  else
    match abspath host template with
    | Err e => mfail e
    | Ok template =>
        let? idx := select_backend spec in
        let? bc := on_backend idx (b_create template spec) in
        register host now bc idx spec template None
    end.

Definition create (host : Host) (now : Z) (spec : SandboxSpec) : OM CreateOutcome :=
  let? tpl := ask o_template in
  create_in host now tpl spec.

(** ** Helpers *)

Definition backend_of (id : string) : OM nat := fun o =>
  match o_live o !! id with
  | Some m => (Ok (lm_backend m), o)
  | None => (Err (unknown_sandbox id), o)
  end.

Definition lease_of (id : string) (o : O) : option Z := lm_lease <$> o_live o !! id.

Definition ttl_deadline (id : string) (o : O) : option Z := lm_ttl_deadline <$> o_live o !! id.

Definition sandbox_project (id : string) : OM (option string) :=
  let? kv := on_store (text (get (project_key id))) in
  mret ((fun kv => from_utf8_lossy (kv_value kv)) <$> kv).

(** [v.get("mem_mib").and_then(|x| x.as_u64())]; any failure is [None]. *)
Definition sandbox_mem_mib (id : string) : OM (option Z) :=
  let? r := mtry (on_store (text (get (meta_key id)))) in
  mret (match r with
        | Ok (Some kv) =>
            match from_slice (kv_value kv) with
            | Some v => match vget v "mem_mib" with Some x => vas_u64 x | None => None end
            | None => None
            end
        | _ => None
        end).

(** ** Snapshot keys *)

Definition kek_key (project : string) : string := "kek/" ++s project.

Definition of_result {A} (r : result A string) : OM A :=
  match r with Ok a => mret a | Err e => mfail e end.

(** [fresh] and [nonce] are what [host_random] gives. *)
Definition snap_key_for (fresh nonce id : string) : OM (option SnapKey) :=
  let? kms := ask o_kms in
  match kms with
  | None => mret None
  | Some kms =>
      let? p := sandbox_project id in
      let project := default "default"%string p in
      let key := kek_key project in
      let? kv := on_store (text (get key)) in
      match kv with
      | Some kv =>
          let? kek := of_result (kms_unwrap kms (kv_value kv)) in
          mret (Some (mkSnapKey kek project))
      | None =>
          let? wrapped := of_result (kms_wrap kms nonce fresh) in
          let? r := on_store (text (compare_and_swap key None wrapped None)) in
          if cas_succeeded r then mret (Some (mkSnapKey fresh project))
          else
            let? kv := on_store (text (get key)) in
            match kv with
            | None => mfail (key ++s " CAS 失败后仍读不到")
            | Some kv =>
                let? kek := of_result (kms_unwrap kms (kv_value kv)) in
                mret (Some (mkSnapKey kek project))
            end
      end
  end.

Definition arm_snapshot_key (fresh nonce : string) (idx : nat) (id : string) : OM unit :=
  let? key := snap_key_for fresh nonce id in
  upd_backend idx (b_set_snapshot_key key).

(** ** Pause, resume, fork *)

Definition pause (now : Z) (fresh nonce id : string) : OM unit :=
  let? idx := backend_of id in
  let? _ := require_cap idx PauseResume in
  let? mem := sandbox_mem_mib id in
  let size_mib := default 0 mem in
  let? project := sandbox_project id in
  let? _ := match project with
            | Some project => on_store (check project 0 0 size_mib)
            | None => mret tt
            end in
  let? _ := arm_snapshot_key fresh nonce idx id in
  let? _ := on_backend idx (b_pause id) in
  let? lease := ask (lease_of id) in
  let? _ := ignore (on_store (text (put (state_key id) "paused" lease))) in
  let deadline := i64_add now DEFAULT_RETENTION_SECS in
  let? _ := ignore (on_store (set_retention id deadline lease)) in
  ignore (on_store (set_size id size_mib lease)).

Definition resume (fresh nonce id : string) : OM string :=
  let? idx := backend_of id in
  let? _ := require_cap idx PauseResume in
  let? _ := arm_snapshot_key fresh nonce idx id in
  let? mid := on_backend idx (b_resume id) in
  let? lease := ask (lease_of id) in
  let? _ := ignore (on_store (text (put (state_key id) "running" lease))) in
  mret mid.

Definition fork (host : Host) (now : Z) (fresh nonce id : string) (spec : SandboxSpec) : OM CreateOutcome :=
  let? idx := backend_of id in
  let? _ := require_cap idx SnapshotFork in
  let? _ := arm_snapshot_key fresh nonce idx id in
  let? bc := on_backend idx (b_fork id) in
  let? tpl := ask o_template in
  register host now bc idx spec tpl (Some id).

(** ** Keepalive, destruction, the reaper *)

Definition keepalive (now : Z) (id : string) : OM Z :=
  let? m := ask (fun o => o_live o !! id) in
  match m with
  | None => mfail (unknown_sandbox id)
  | Some m => on_store (text (lease_keepalive now (lm_lease m)))
  end.

(** [self.live.remove(id)] *)
Definition take_live (id : string) : OM (option LiveMeta) :=
  fun o => (Ok (o_live o !! id), set_live (base.delete id (o_live o)) o).

Definition destroy (id : string) : OM (list string) :=
  let? m := take_live id in
  match m with
  | None => mfail (unknown_sandbox id)
  | Some m =>
      let? _ := upd_backend (lm_backend m) (b_destroy id) in
      on_store (text (lease_revoke (lm_lease m)))
  end.

Definition reap_ttl (reaped : list string) (id : string) : OM (list string) :=
  let? _ := destroy id in
  mret (reaped ++ [id]).

Definition reap_idle (reaped : list string) (id : string) : OM (list string) :=
  let? m := take_live id in
  match m with
  | None => mret reaped
  | Some m =>
      let? _ := upd_backend (lm_backend m) (b_destroy id) in
      mret (reaped ++ [id])
  end.

(** [iter] is the iteration order of the hash map, which is unspecified. *)
Definition ttl_expired_ids (iter : gmap string LiveMeta -> list (string * LiveMeta)) (now : Z) (o : O) : list string :=
  map fst (List.filter (fun p => is_ttl_expired now (lm_ttl_deadline p.2)) (iter (o_live o))).

Definition tick (iter : gmap string LiveMeta -> list (string * LiveMeta)) (now : Z) : OM (list string) :=
  let? ttl_expired := ask (ttl_expired_ids iter now) in
  let? reaped := mfold reap_ttl ttl_expired [] in
  let? swept := on_store (text (lease_sweep now)) in
  let ids := sort_dedup (omap sandbox_id_of_key swept) in
  mfold reap_idle ids reaped.

(** ** Introspection and tenancy *)

Definition is_live (id : string) (o : O) : bool := bool_decide (is_Some (o_live o !! id)).

(** [self.live.get(id)? ... self.backends[meta.backend]] *)
Definition routed {A} (f : B -> string -> option A) (id : string) (o : O) : option A :=
  match o_live o !! id with
  | None => None
  | Some m => match o_backends o !! lm_backend m with Some b => f b id | None => None end
  end.

Definition dir_of (id : string) (o : O) : option string := routed b_instance_dir id o.
Definition exec_target (id : string) (o : O) : option ExecTarget := routed b_exec_target id o.
Definition log_path (id : string) (o : O) : option string := routed b_log_path id o.

Definition shown_to (proj : gmap string string) (project : option string) (kv : KeyValue) : bool :=
  match project with
  | None => true
  | Some want =>
      let id := default ""%string (key_id "/meta" (kv_key kv)) in
      match proj !! id with Some p => String.eqb p want | None => false end
  end.

Definition list_meta_for (project : option string) : OM (list string) :=
  let? kvs := on_store (text (list_prefix "sandbox/")) in
  let proj := projects_of kvs in
  mret (map (fun kv => from_utf8_lossy (kv_value kv))
            (List.filter (shown_to proj project) (List.filter (fun kv => ends_with "/meta" (kv_key kv)) kvs))).

Definition tag_project (id project : string) : OM unit :=
  let? m := ask (fun o => o_live o !! id) in
  let? lease := match m with
                | Some m => mret (Some (lm_lease m))
                | None =>
                    let? kv := on_store (text (get (meta_key id))) in
                    mret (match kv with Some kv => kv_lease kv | None => None end)
                end in
  let? _ := on_store (text (put (project_key id) project lease)) in
  mret tt.

Definition orch_reclaim_orphans : OM (list string) :=
  let? node := ask o_node_id in
  on_store (text (reclaim_orphans node)).

Definition survey_nodes : OM (list NodeLoad) := on_store survey.

(** [needle] occurs in [s]. *)
Fixpoint contains_str (needle s : string) : bool :=
  starts_with needle s ||
  match s with
  | EmptyString => false
  | String _ s' => contains_str needle s'
  end.

Definition actor_needle (p : string) : string := quoted "actor" ++s ":" ++s quoted p.

Definition list_audit (project : option string) : OM (list string) :=
  let? all := on_store audit_list in
  mret (match project with
        | None => all
        | Some p => List.filter (contains_str (actor_needle p)) all
        end).

Definition check_quota (project : option string) (add_vcpus add_mem_mib : Z) : OM unit :=
  match project with
  | Some p => on_store (check p add_vcpus add_mem_mib 0)
  | None => mret tt
  end.

Definition gc_retention (iter : gmap string (Z * option Z) -> list (string * (Z * option Z))) (now : Z) : OM (list string) :=
  on_store (gc_expired iter now).

Definition get_meta (id : string) : OM (option string) :=
  let? kv := on_store (text (get (meta_key id))) in
  mret ((fun kv => from_utf8_lossy (kv_value kv)) <$> kv).

Definition store_get (key : string) : OM (option string) :=
  let? kv := on_store (text (get key)) in
  mret (kv_value <$> kv).

Definition store_list (prefix : string) : OM (list (string * string)) :=
  let? kvs := on_store (text (list_prefix prefix)) in
  mret (map (fun kv => (kv_key kv, kv_value kv)) kvs).
End Ops.
