(* ===== verification/OrchSafety.v ===== *)
(** * No leaked instances

    Every running instance of every backend is in the orchestrator's table, and
    every entry of the table is a running instance, after any sequence of
    operations, whatever the store does in between. *)

From Stdlib Require Import ZArith Lia Bool List String Ascii.
From stdpp Require Import base tactics list gmap strings sorting relations.
From S2P Require Import Prelude RustStr Utf8 Json Store Sqlite SqliteSpec StoreTheorems Cluster Quota Sched Retention AuditLog Proto Snapcrypt Backend Orch.

Open Scope Z_scope.

Section Safety.
Context {S B : Type} `{Store S} `{BackendLaws B} `{SerdeJson}.

Notation O := (Orch S B).
Notation OM := (M O string).

(** ** The invariant *)

Definition listed (o : O) : Prop :=
  forall id m, o_live o !! id = Some m ->
    exists b, o_backends o !! lm_backend m = Some b /\ id ∈ instances b.

(** Every instance is listed, but for those of [but]. *)
Definition covered (but : string -> nat -> Prop) (o : O) : Prop :=
  forall i b id, o_backends o !! i = Some b -> id ∈ instances b ->
    but id i \/ exists m, o_live o !! id = Some m /\ lm_backend m = i.

Definition tracked (o : O) : Prop := listed o /\ covered (fun _ _ => False) o.

(** A new instance of backend [idx] that is not in the table yet. *)
Definition pending (id : string) (idx : nat) (o : O) : Prop :=
  listed o /\ covered (fun id' i => id' = id /\ i = idx) o /\ o_live o !! id = None /\
  exists b, o_backends o !! idx = Some b /\ id ∈ instances b.

(** [triple P m Q]: from [P], [m] ends in [Q], or with an error in a tracked
    state. *)
Definition triple {A} (P : O -> Prop) (m : OM A) (Q : O -> Prop) : Prop :=
  forall o, P o -> match m o with (Ok _, o') => Q o' | (Err _, o') => tracked o' end.

Notation keeps m := (triple tracked m tracked).

Lemma triple_bind {A A'} P Q R (m : OM A) (f : A -> OM A') :
  triple P m Q -> (forall a, triple Q (f a) R) -> triple P (mbind m f) R.
Proof.
  intros Hm Hf o Ho. unfold mbind. specialize (Hm o Ho). destruct (m o) as [[a|e] o'] eqn:Em; [|exact Hm].
  exact (Hf a o' Hm).
Qed.

Lemma triple_ret {A} P (a : A) : triple P (mret a) P.
Proof. intros o Ho. exact Ho. Qed.

Lemma keeps_fail {A} e : keeps (mfail e : OM A).
Proof. intros o Ho. exact Ho. Qed.

Lemma keeps_try {A} (m : OM A) : keeps m -> keeps (mtry m).
Proof. intros Hm o Ho. unfold mtry. specialize (Hm o Ho). by destruct (m o) as [[a|e] o']. Qed.

Lemma keeps_ask {A} (f : O -> A) : keeps (ask f).
Proof. intros o Ho. exact Ho. Qed.

(** The store plays no part in the invariants. *)
Lemma keeps_store {A} (m : M S string A) : keeps (on_store m).
Proof. intros o Ho. unfold on_store. destruct (m (o_store o)) as [[a|e] s]; exact Ho. Qed.

Lemma pending_store {A} id idx (m : M S string A) :
  (forall s, is_ok (m s).1 = true) -> triple (pending id idx) (on_store m) (pending id idx).
Proof.
  intros Hok o Ho. unfold on_store. specialize (Hok (o_store o)). destruct (m (o_store o)) as [[a|e] s]; [exact Ho|done].
Qed.

Lemma pending_ask {A} id idx (f : O -> A) : triple (pending id idx) (ask f) (pending id idx).
Proof. intros o Ho. exact Ho. Qed.

(** Operations of a backend that keep its instances. *)
Lemma keeps_backend {A} idx (m : M B string A) :
  (forall b, instances (m b).2 = instances b) -> keeps (on_backend idx m).
Proof.
  intros Hi o [Hl Hc]. unfold on_backend. destruct (o_backends o !! idx) as [b|] eqn:Eb; [|by split].
  specialize (Hi b). destruct (m b) as [r b']. simpl in Hi.
  assert (tracked (set_backends (<[idx := b']> (o_backends o)) o)) as Ht.
  { assert (idx < length (o_backends o))%nat as Hlt by (by apply lookup_lt_Some in Eb). split.
    - intros id m0 Hm. destruct (Hl id m0 Hm) as (b0 & Hb0 & Hin). simpl.
      destruct (decide (lm_backend m0 = idx)) as [He|Hn]; [rewrite He in *|].
      + exists b'. rewrite list_lookup_insert_eq by done. split; [done|]. rewrite Hi. assert (b0 = b) as <- by congruence. exact Hin.
      + exists b0. by rewrite list_lookup_insert_ne by done.
    - intros i b0 id Hb0 Hin. simpl in Hb0. destruct (decide (i = idx)) as [->|Hn].
      + rewrite list_lookup_insert_eq in Hb0 by done. injection Hb0 as <-. rewrite Hi in Hin. by apply (Hc idx b).
      + rewrite list_lookup_insert_ne in Hb0 by done. by apply (Hc i b0). }
  by destruct r.
Qed.

(** Destroying an instance that is not in the table. *)
Lemma destroy_pending idx id o :
  pending id idx o -> exists o', upd_backend idx (b_destroy id) o = (Ok tt, o') /\ tracked o'.
Proof.
  intros (Hl & Hc & Hn & b & Eb & Hin). unfold upd_backend, on_backend. rewrite Eb.
  eexists. split; [reflexivity|]. assert (idx < length (o_backends o))%nat as Hlt by (by apply lookup_lt_Some in Eb).
  destruct (destroy_law id b) as [_ Hd]. split.
  - intros id' m Hm. destruct (Hl id' m Hm) as (b0 & Hb0 & Hin0). simpl in *.
    destruct (decide (lm_backend m = idx)) as [He|He].
    + exists (b_destroy id b). rewrite He, list_lookup_insert_eq by done. split; [done|]. rewrite Hd.
      assert (b0 = b) as -> by congruence. assert (id' <> id) by congruence. set_solver.
    + exists b0. by rewrite list_lookup_insert_ne by done.
  - intros i b0 id' Hb0 Hin0. right. simpl in *. destruct (decide (i = idx)) as [->|He].
    + rewrite list_lookup_insert_eq in Hb0 by done. injection Hb0 as <-. rewrite Hd in Hin0.
      destruct (Hc idx b id' Eb ltac:(set_solver)) as [[-> _]|Hx]; [set_solver|done].
    + rewrite list_lookup_insert_ne in Hb0 by done. destruct (Hc i b0 id' Hb0 Hin0) as [[_ ->]|Hx]; done.
Qed.

(** Creating one, by [b_create] or [b_fork]. *)
Lemma created_pending idx (m : M B string BackendCreate) (o : O) :
  (forall b, instances (m b).2 = match (m b).1 with Ok bc => {[bc_id bc]} ∪ instances b | Err _ => instances b end) ->
  (forall b bc, o_backends o !! idx = Some b -> (m b).1 = Ok bc -> o_live o !! bc_id bc = None) ->
  tracked o ->
  match on_backend idx m o with
  | (Ok bc, o') => pending (bc_id bc) idx o'
  | (Err _, o') => tracked o'
  end.
Proof.
  intros Hi Hfresh [Hl Hc]. unfold on_backend. destruct (o_backends o !! idx) as [b|] eqn:Eb; [|by split].
  specialize (Hi b). specialize (Hfresh b). destruct (m b) as [r b']. simpl in *.
  assert (idx < length (o_backends o))%nat as Hlt by (by apply lookup_lt_Some in Eb).
  assert (listed (set_backends (<[idx := b']> (o_backends o)) o)) as Hl'.
  { intros id m0 Hm. destruct (Hl id m0 Hm) as (b0 & Hb0 & Hin). simpl.
    destruct (decide (lm_backend m0 = idx)) as [He|Hn]; [rewrite He in *|].
    - exists b'. rewrite list_lookup_insert_eq by done. split; [done|]. rewrite Hi. assert (b0 = b) as -> by congruence.
      destruct r; set_solver.
    - exists b0. by rewrite list_lookup_insert_ne by done. }
  assert (covered (fun id' i => exists bc, r = Ok bc /\ id' = bc_id bc /\ i = idx) (set_backends (<[idx := b']> (o_backends o)) o)) as Hc'.
  { intros i b0 id Hb0 Hin. simpl in *. destruct (decide (i = idx)) as [->|Hn].
    - rewrite list_lookup_insert_eq in Hb0 by done. injection Hb0 as <-. rewrite Hi in Hin. destruct r as [bc|e].
      + apply elem_of_union in Hin as [Hs|Hin]; [left; exists bc; set_solver|].
        right. destruct (Hc idx b id Eb Hin) as [[]|Hx]. done.
      + right. destruct (Hc idx b id Eb Hin) as [[]|Hx]. done.
    - rewrite list_lookup_insert_ne in Hb0 by done. right. destruct (Hc i b0 id Hb0 Hin) as [[]|Hx]. done. }
  destruct r as [bc|e].
  - split; [done|]. split.
    { intros i b0 id Hb0 Hin. destruct (Hc' i b0 id Hb0 Hin) as [(bc' & [= <-] & Hx)|Hx]; auto. }
    split; [by apply Hfresh|]. exists b'. simpl. rewrite list_lookup_insert_eq by done. split; [done|]. rewrite Hi. set_solver.
  - split; [done|]. intros i b0 id Hb0 Hin. destruct (Hc' i b0 id Hb0 Hin) as [(bc' & [=] & _)|Hx]. by right.
Qed.

(** ** Registration *)

Lemma rollback_settles {A} idx lease id msg : triple (pending id idx) (rollback idx lease id msg : OM A) tracked.
Proof.
  unfold rollback. eapply triple_bind with (Q := pending id idx).
  - intros o Ho. unfold ignore, mbind, mtry, on_store. destruct (text _ (o_store o)) as [r s]. exact Ho.
  - intros _ o Ho. unfold mbind. destruct (destroy_pending idx id o Ho) as (o' & -> & Ht). exact Ht.
Qed.

Lemma or_rollback_settles {A} (m : M S StoreError A) idx lease id what :
  triple (pending id idx) (or_rollback m idx lease id what) (pending id idx).
Proof.
  unfold or_rollback. eapply triple_bind; [apply pending_store; intros s; by destruct (m s)|].
  intros [a|e]; [apply triple_ret|]. intros o Ho. pose proof (rollback_settles (A := unit) idx lease id (what ++s ": " ++s store_error_display e) o Ho) as Hr.
  unfold rollback, mbind, mfail in *. destruct (ignore _ o) as [[]?]; [|done]. by destruct (upd_backend _ _ _) as [[]?].
Qed.

Lemma register_settles host now bc idx spec template ff :
  triple (pending (bc_id bc) idx) (register host now bc idx spec template ff) tracked.
Proof.
  unfold register. eapply triple_bind; [apply pending_store; intros s; by destruct (lease_grant _ _ s)|].
  intros [lease|e].
  2:{ intros o Ho. unfold mbind. by destruct (destroy_pending idx (bc_id bc) o Ho) as (o' & -> & Ht). }
  eapply triple_bind; [apply or_rollback_settles|intros _].
  eapply triple_bind; [apply or_rollback_settles|intros _].
  eapply triple_bind; [apply pending_ask|intros node].
  eapply triple_bind with (Q := pending (bc_id bc) idx).
  { destruct node; [apply or_rollback_settles|apply triple_ret]. }
  intros _. eapply triple_bind with (Q := pending (bc_id bc) idx).
  { destruct (pin_from_template _); [|apply triple_ret]. intros o Ho. unfold ignore, mbind, mtry, on_store.
    destruct (set_pin _ _ _ (o_store o)) as [r s]. exact Ho. }
  intros _ o (Hl & Hc & Hn & b & Eb & Hin). unfold mbind, ask. split; simpl.
  - intros id m Hm. simpl in Hm. destruct (decide (id = bc_id bc)) as [->|Hne].
    + rewrite lookup_insert_eq in Hm. injection Hm as <-. by exists b.
    + rewrite lookup_insert_ne in Hm by done. by apply Hl.
  - intros i b0 id Hb0 Hin0. right. simpl in *. destruct (decide (id = bc_id bc)) as [->|Hne].
    + rewrite lookup_insert_eq. eexists. split; [done|]. simpl.
      destruct (Hc i b0 _ Hb0 Hin0) as [[_ ->]|(m & Hm & _)]; [done|congruence].
    + rewrite lookup_insert_ne by done. destruct (Hc i b0 id Hb0 Hin0) as [[-> _]|Hx]; done.
Qed.

(** ** The other operations *)

Lemma keeps_backend_of id : keeps (backend_of id).
Proof. intros o Ho. unfold backend_of. by destruct (o_live o !! id). Qed.

Lemma keeps_require_cap idx cap : keeps (require_cap idx cap).
Proof. intros o Ho. unfold require_cap. destruct (o_backends o !! idx); [|exact Ho]. by destruct (caps_contains _ _). Qed.

Lemma keeps_select spec : keeps (select_backend spec).
Proof.
  intros o Ho. unfold select_backend. destruct (match sp_backend spec with Some _ => _ | None => _ end) as [idx|e]; [|exact Ho].
  destruct (negb _); [|exact Ho]. destruct (o_backends o !! idx); [|exact Ho]. by destruct (missing_from _ _).
Qed.

Lemma keeps_ignore {A} (m : OM A) : keeps m -> keeps (ignore m).
Proof. intros Hm. unfold ignore. eapply triple_bind; [by apply keeps_try|intros; apply triple_ret]. Qed.

Lemma keeps_of_result {A} (r : result A string) : keeps (of_result r : OM A).
Proof. destruct r; [apply triple_ret|apply keeps_fail]. Qed.

Create HintDb orch.
Hint Resolve keeps_store keeps_ask keeps_fail keeps_try keeps_backend_of keeps_require_cap keeps_select
  keeps_ignore keeps_of_result triple_ret : orch.

(** Splits a method along its binds and matches. *)
Ltac keeps :=
  repeat first
    [ solve [auto with orch nocore]
    | match goal with
      | |- triple _ (mbind _ _) _ => eapply triple_bind with (Q := tracked); [|intros ?]
      | |- triple _ (match ?x with _ => _ end) _ => destruct x
      end ].

Lemma keeps_sandbox_project id : keeps (sandbox_project id).
Proof. unfold sandbox_project. keeps. Qed.

Lemma keeps_sandbox_mem_mib id : keeps (sandbox_mem_mib id).
Proof. unfold sandbox_mem_mib. keeps. Qed.
Hint Resolve keeps_sandbox_project keeps_sandbox_mem_mib : orch.

Lemma keeps_snap_key_for fresh nonce id : keeps (snap_key_for fresh nonce id).
Proof. unfold snap_key_for. keeps. Qed.
Hint Resolve keeps_snap_key_for : orch.

Lemma keeps_arm fresh nonce idx id : keeps (arm_snapshot_key fresh nonce idx id).
Proof.
  unfold arm_snapshot_key. eapply triple_bind; [auto with orch nocore|intros key].
  apply keeps_backend. intros b. apply set_key_law.
Qed.
Hint Resolve keeps_arm : orch.

Lemma keeps_b_pause idx id : keeps (on_backend idx (b_pause id)).
Proof. apply keeps_backend. intros b. pose proof (pause_law id b) as G. destruct (b_pause id b). apply G. Qed.

Lemma keeps_b_resume idx id : keeps (on_backend idx (b_resume id)).
Proof. apply keeps_backend. intros b. pose proof (resume_law id b) as G. destruct (b_resume id b). apply G. Qed.
Hint Resolve keeps_b_pause keeps_b_resume : orch.

Lemma keeps_pause now fresh nonce id : keeps (pause now fresh nonce id).
Proof. unfold pause. keeps. Qed.

Lemma keeps_resume fresh nonce id : keeps (resume fresh nonce id).
Proof. unfold resume. keeps. Qed.

Lemma keeps_keepalive now id : keeps (keepalive now id).
Proof. unfold keepalive. keeps. Qed.

Lemma keeps_tag_project id project : keeps (tag_project id project).
Proof. unfold tag_project. keeps. Qed.

(** ** Creation and destruction *)

Definition keeps_at {A} (m : OM A) (o : O) : Prop := tracked o -> tracked (m o).2.

Lemma triple_at {A} (m : OM A) o : keeps m -> keeps_at m o.
Proof. intros Hm Ho. specialize (Hm o Ho). by destruct (m o) as [[]?]. Qed.

Lemma register_new {A} idx (m : M B string BackendCreate) (k : BackendCreate -> OM A) o :
  (forall b, instances (m b).2 = match (m b).1 with Ok bc => {[bc_id bc]} ∪ instances b | Err _ => instances b end) ->
  (forall b bc, o_backends o !! idx = Some b -> (m b).1 = Ok bc -> o_live o !! bc_id bc = None) ->
  (forall bc, triple (pending (bc_id bc) idx) (k bc) tracked) ->
  tracked o -> tracked ((let? bc := on_backend idx m in k bc) o).2.
Proof.
  intros Hi Hf Hk Ho. pose proof (created_pending idx m o Hi Hf Ho) as Hc. unfold mbind.
  destruct (on_backend idx m o) as [[bc|e] o']; [|exact Hc].
  specialize (Hk bc o' Hc). by destruct (k bc o') as [[]?].
Qed.

(** The id [create] hands out is not in use. *)
Definition fresh_create (template : string) (spec : SandboxSpec) (o : O) : Prop :=
  forall i b bc, o_backends o !! i = Some b -> (b_create template spec b).1 = Ok bc -> o_live o !! bc_id bc = None.

(** Nor is the one [fork] hands out, once it has been given the snapshot key. *)
Definition fresh_fork (id : string) (o : O) : Prop :=
  forall i b k bc, o_backends o !! i = Some b -> (b_fork id (b_set_snapshot_key k b)).1 = Ok bc ->
    o_live o !! bc_id bc = None.

Lemma create_in_keeps host now template spec o :
  (forall t, abspath host template = Ok t -> fresh_create t spec o) ->
  keeps_at (create_in host now template spec) o.
Proof.
  intros Hf Ho. unfold create_in. destruct (negb _); [exact Ho|]. destruct (abspath host template) as [t|e]; [|exact Ho].
  unfold mbind at 1.
  assert (exists r, select_backend spec o = (r, o)) as [r ->].
  { unfold select_backend. destruct (match sp_backend spec with Some _ => _ | None => _ end) as [idx|e]; [|by eexists].
    destruct (negb _); [|by eexists]. destruct (o_backends o !! idx); [|by eexists]. destruct (missing_from _ _); by eexists. }
  destruct r as [idx|e]; [|exact Ho]. apply register_new; [|intros b bc; by apply Hf|intros bc; apply register_settles|exact Ho].
  intros b. pose proof (create_law t spec b) as G. destruct (b_create t spec b). apply G.
Qed.

(** Methods that change nothing but the store. *)
Definition store_only {A} (m : OM A) : Prop := forall o, exists s, (m o).2 = set_store s o.

Lemma store_only_bind {A A'} (m : OM A) (f : A -> OM A') :
  store_only m -> (forall a, store_only (f a)) -> store_only (mbind m f).
Proof.
  intros Hm Hf o. unfold mbind. destruct (Hm o) as [s Hs]. destruct (m o) as [[a|e] o1]; simpl in *; subst o1.
  - destruct (Hf a (set_store s o)) as [s' Hs']. exists s'. rewrite Hs'. done.
  - by exists s.
Qed.

Lemma store_only_same {A} (m : OM A) : (forall o, (m o).2 = o) -> store_only m.
Proof. intros Hm o. exists (o_store o). rewrite Hm. by destruct o. Qed.

Lemma store_only_store {A} (m : M S string A) : store_only (on_store m).
Proof. intros o. unfold on_store. destruct (m (o_store o)) as [r s]. by exists s. Qed.

Lemma store_only_snap_key fresh nonce id : store_only (snap_key_for fresh nonce id).
Proof.
  unfold snap_key_for, sandbox_project, of_result.
  repeat match goal with
  | |- store_only (mbind _ _) => apply store_only_bind; [|intros ?]
  | |- store_only (on_store _) => apply store_only_store
  | |- store_only (match ?x with _ => _ end) => destruct x
  | |- store_only _ => by apply store_only_same
  end.
Qed.

Lemma arm_inv fresh nonce idx id o o1 :
  arm_snapshot_key fresh nonce idx id o = (Ok tt, o1) ->
  exists b k s, o_backends o !! idx = Some b /\ o1 = set_backends (<[idx := b_set_snapshot_key k b]> (o_backends o)) (set_store s o).
Proof.
  unfold arm_snapshot_key, mbind. destruct (store_only_snap_key fresh nonce id o) as [s Hs].
  destruct (snap_key_for fresh nonce id o) as [[k|e] o0]; simpl in Hs; subst o0; [|done].
  unfold upd_backend, on_backend. cbn [o_backends set_store]. destruct (o_backends o !! idx) as [b|]; [|done].
  intros [= <-]. by exists b, k, s.
Qed.

Lemma fork_keeps host now fresh nonce id spec o :
  fresh_fork id o -> keeps_at (fork host now fresh nonce id spec) o.
Proof.
  intros Hf Ho. unfold fork, mbind at 1. unfold backend_of.
  destruct (o_live o !! id) as [m|] eqn:Em; [|exact Ho]. unfold mbind at 1.
  assert (exists r, require_cap (lm_backend m) SnapshotFork o = (r, o)) as [r ->].
  { unfold require_cap. destruct (o_backends o !! lm_backend m); [|by eexists]. destruct (caps_contains _ _); by eexists. }
  destruct r as [[]|e]; [|exact Ho]. unfold mbind at 1.
  pose proof (keeps_arm fresh nonce (lm_backend m) id o Ho) as Ha.
  destruct (arm_snapshot_key fresh nonce (lm_backend m) id o) as [[[]|e] o1] eqn:Earm; [|exact Ha].
  apply arm_inv in Earm as (b & k & s & Eb & ->).
  assert (lm_backend m < length (o_backends o))%nat as Hlt by (by apply lookup_lt_Some in Eb).
  apply (register_new (lm_backend m) (b_fork id)).
  - intros b0. pose proof (fork_law id b0) as G. destruct (b_fork id b0). apply G.
  - intros b0 bc Hb0 Hbc. simpl in *. rewrite list_lookup_insert_eq in Hb0 by done. injection Hb0 as <-.
    by apply (Hf (lm_backend m) b k bc).
  - intros bc. eapply triple_bind; [apply pending_ask|intros tpl; apply register_settles].
  - exact Ha.
Qed.

(** Removing a listed sandbox from the table and from its backend. *)
Lemma untrack_keeps id m o :
  tracked o -> o_live o !! id = Some m ->
  exists o', upd_backend (lm_backend m) (b_destroy id) (set_live (base.delete id (o_live o)) o) = (Ok tt, o') /\
    tracked o' /\ o_live o' = base.delete id (o_live o) /\ o_store o' = o_store o /\
    length (o_backends o') = length (o_backends o).
Proof.
  intros [Hl Hc] Hm. destruct (Hl id m Hm) as (b & Eb & Hin).
  unfold upd_backend, on_backend. cbn [o_backends set_live]. rewrite Eb. eexists. split; [reflexivity|].
  assert (lm_backend m < length (o_backends o))%nat as Hlt by (by apply lookup_lt_Some in Eb).
  destruct (destroy_law id b) as [_ Hd]. split; [split|split; [done|split; [done|apply length_insert]]].
  - intros id' m' Hm'. simpl in *. apply lookup_delete_Some in Hm' as [Hne Hm'].
    destruct (Hl id' m' Hm') as (b0 & Hb0 & Hin0).
    destruct (decide (lm_backend m' = lm_backend m)) as [He|He].
    + exists (b_destroy id b). rewrite He in *. rewrite list_lookup_insert_eq by done. split; [done|]. rewrite Hd.
      assert (b0 = b) as -> by congruence. set_solver.
    + exists b0. by rewrite list_lookup_insert_ne by done.
  - intros i b0 id' Hb0 Hin0. right. simpl in *. destruct (decide (i = lm_backend m)) as [->|He].
    + rewrite list_lookup_insert_eq in Hb0 by done. injection Hb0 as <-. rewrite Hd in Hin0.
      destruct (Hc _ b id' Eb ltac:(set_solver)) as [[]|(m' & Hm' & Hx)]. exists m'. split; [|done].
      rewrite lookup_delete_ne; [done|set_solver].
    + rewrite list_lookup_insert_ne in Hb0 by done. destruct (Hc i b0 id' Hb0 Hin0) as [[]|(m' & Hm' & Hx)].
      exists m'. split; [|done]. rewrite lookup_delete_ne; [done|]. intros ->. congruence.
Qed.

Lemma keeps_destroy id : keeps (destroy id).
Proof.
  intros o Ho. unfold destroy, mbind at 1, take_live. destruct (o_live o !! id) as [m|] eqn:Em.
  - unfold mbind. destruct (untrack_keeps id m o Ho Em) as (o' & -> & Ht & _). by apply keeps_store.
  - unfold mfail. rewrite (delete_id _ _ Em). by destruct o.
Qed.

Lemma keeps_reap_idle reaped id : keeps (reap_idle reaped id).
Proof.
  intros o Ho. unfold reap_idle, mbind at 1, take_live. destruct (o_live o !! id) as [m|] eqn:Em.
  - unfold mbind. by destruct (untrack_keeps id m o Ho Em) as (o' & -> & Ht & _).
  - unfold mret. rewrite (delete_id _ _ Em). by destruct o.
Qed.
Hint Resolve keeps_destroy keeps_reap_idle : orch.

Lemma keeps_mfold {A A'} (body : A' -> A -> OM A') xs b : (forall b x, keeps (body b x)) -> keeps (mfold body xs b).
Proof.
  intros Hb. revert b; induction xs as [|x xs IH]; intros b; cbn [mfold]; [apply triple_ret|].
  eapply triple_bind; [apply Hb|intros ?; apply IH].
Qed.

Lemma keeps_tick iter now : keeps (tick iter now).
Proof.
  unfold tick. eapply triple_bind; [auto with orch nocore|intros ids].
  eapply triple_bind with (Q := tracked).
  { apply keeps_mfold. intros b x. unfold reap_ttl. keeps. }
  intros reaped. eapply triple_bind with (Q := tracked); [auto with orch nocore|intros swept].
  apply keeps_mfold. auto with orch nocore.
Qed.

(** ** Steps *)

(** Anything may happen to the store between the operations: another process
    writes to it, a lease expires, a statement fails. *)
Inductive orch_step (host : Host) : O -> O -> Prop :=
| step_create now template spec o :
    (forall t, abspath host template = Ok t -> fresh_create t spec o) ->
    orch_step host o (create_in host now template spec o).2
| step_fork now fresh nonce id spec o :
    fresh_fork id o -> orch_step host o (fork host now fresh nonce id spec o).2
| step_pause now fresh nonce id o : orch_step host o (pause now fresh nonce id o).2
| step_resume fresh nonce id o : orch_step host o (resume fresh nonce id o).2
| step_keepalive now id o : orch_step host o (keepalive now id o).2
| step_tag id project o : orch_step host o (tag_project id project o).2
| step_destroy id o : orch_step host o (destroy id o).2
| step_tick iter now o : orch_step host o (tick iter now o).2
| step_store s o : orch_step host o (set_store s o).

Lemma orch_step_keeps host o o' : orch_step host o o' -> tracked o -> tracked o'.
Proof.
  intros Hs Ho. destruct Hs.
  - by apply create_in_keeps.
  - by apply fork_keeps.
  - by apply (triple_at _ _ (keeps_pause now fresh nonce id)).
  - by apply (triple_at _ _ (keeps_resume fresh nonce id)).
  - by apply (triple_at _ _ (keeps_keepalive now id)).
  - by apply (triple_at _ _ (keeps_tag_project id project)).
  - by apply (triple_at _ _ (keeps_destroy id)).
  - by apply (triple_at _ _ (keeps_tick iter now)).
  - exact Ho.
Qed.

(** A fresh orchestrator: no entries, no instances. *)
Definition started (o : O) : Prop :=
  o_live o = ∅ /\ forall i b, o_backends o !! i = Some b -> instances b = ∅.

Lemma started_tracked o : started o -> tracked o.
Proof.
  intros [Hl Hb]. split.
  - intros id m. by rewrite Hl, lookup_empty.
  - intros i b id Hi Hin. rewrite (Hb i b Hi) in Hin. set_solver.
Qed.

Lemma steps_keep host o o' : rtc (orch_step host) o o' -> tracked o -> tracked o'.
Proof. induction 1 as [|x y z Hst Hr IH]; intros Ho; [exact Ho|]. apply IH. by eapply orch_step_keeps. Qed.
End Safety.

(** C3: no leaked instances.  After any sequence of creations, forks, pauses,
    resumes, keepalives, destructions and reaper turns, whatever the store does in
    between (faults and the writes of other processes included) and wherever an
    operation fails, the running instances of each backend are exactly the
    entries of the orchestrator's table that are routed to it: a failed creation
    leaves no instance behind, and every instance will be seen by the reaper. *)
Theorem no_leaked_instances {S B : Type} `{Store S} `{BackendLaws B} `{SerdeJson} (host : Host) (o0 o : Orch S B) :
  started o0 -> rtc (orch_step host) o0 o ->
  forall i b id, o_backends o !! i = Some b ->
    (id ∈ instances b <-> exists m, o_live o !! id = Some m /\ lm_backend m = i).
Proof.
  intros Hs Hr. destruct (steps_keep host o0 o Hr (started_tracked o0 Hs)) as [Hl Hc].
  intros i b id Hi. split.
  - intros Hin. by destruct (Hc i b id Hi Hin) as [[]|Hx].
  - intros (m & Hm & <-). destruct (Hl id m Hm) as (b' & Hb' & Hin). congruence.
Qed.

(** A host whose only template has no manifest, and an orchestrator on it. *)
Definition a_host : Host := mkHost (fun _ => true) (fun p => Ok p) (fun _ => None).

Definition an_orch : Orch SqliteStore RefBackend.Ref :=
  mkOrch (store_after []) [RefBackend.mkRef "fc" (caps_with [PauseResume; SnapshotFork]) 0 ∅] "/tpl" ∅ (Some "n1"%string) None.

Import RefJson RefBackend.

Definition one_sandbox : Orch SqliteStore Ref := (create_in a_host 1000 "/tpl" default_spec an_orch).2.

Lemma no_leaked_instances_witness :
  exists b m, rtc (orch_step a_host) an_orch one_sandbox /\ o_backends one_sandbox !! 0%nat = Some b /\
    ("i0"%string ∈ instances b <-> exists m, o_live one_sandbox !! "i0"%string = Some m /\ lm_backend m = 0%nat) /\
    o_live one_sandbox !! "i0"%string = Some m.
Proof.
  assert (rtc (orch_step a_host) an_orch one_sandbox) as Hr.
  { eapply rtc_l; [|apply rtc_refl]. apply step_create. intros t _ i b bc _ _. apply lookup_empty. }
  eexists _, _. split; [exact Hr|]. split; [vm_compute; reflexivity|]. split; [|vm_compute; reflexivity].
  apply (no_leaked_instances a_host an_orch one_sandbox); [|exact Hr|vm_compute; reflexivity].
  split; [reflexivity|]. intros [|i] b [= <-]. reflexivity.
Defined.
