(* ===== verification/OrchReaper.v ===== *)
(** * The reaper

    What destruction and a turn of the reaper do on a store that answers: which
    sandboxes go, which stay, and what is left of their keys and leases. *)

From Stdlib Require Import ZArith Lia Bool List String Ascii.
From stdpp Require Import base tactics list gmap strings sorting relations.
From S2P Require Import Prelude RustStr Utf8 Json Store Sqlite SqliteSpec StoreTheorems Cluster Quota Sched Retention AuditLog Proto Snapcrypt Backend Orch OrchSafety.

Open Scope Z_scope.

(** ** Removing leases *)

(** [minus L a a']: [a'] is [a] without the leases of [L] and the keys attached
    to them. *)
Record minus (L : Z -> Prop) (a a' : AStore) : Prop := {
  mn_kv : forall k kv, a_kv a' !! k = Some kv <->
    a_kv a !! k = Some kv /\ ~ (exists l, kv_lease kv = Some l /\ L l /\ is_Some (a_leases a !! l));
  mn_leases : forall l x, a_leases a' !! l = Some x <-> a_leases a !! l = Some x /\ ~ L l
}.

Lemma minus_none a : minus (fun _ => False) a a.
Proof. split; intros; [|tauto]. split; [intros Hk; split; [done|]; by intros (? & _ & [] & _)|tauto]. Qed.

Lemma minus_trans L1 L2 a a1 a2 : minus L1 a a1 -> minus L2 a1 a2 -> minus (fun l => L1 l \/ L2 l) a a2.
Proof.
  intros [K1 E1] [K2 E2]. split.
  - intros k kv. rewrite K2, K1. split.
    + intros [[Hk H1] H2]. split; [done|]. intros (l & Hl & [HL|HL] & [x Hx]); [apply H1; eauto|].
      apply H2. exists l. split; [done|]. split; [done|]. exists x. apply E1. split; [done|]. intros HL1. apply H1. eauto.
    + intros [Hk Hn]. split; [split; [done|]|].
      * intros (l & Hl & HL & Hx). apply Hn. eauto.
      * intros (l & Hl & HL & [x Hx]). apply Hn. apply E1 in Hx as [Hx _]. exists l. eauto.
  - intros l x. rewrite E2, E1. tauto.
Qed.

Lemma minus_ext L L' a a' : (forall l, is_Some (a_leases a !! l) -> L l <-> L' l) -> minus L a a' -> minus L' a a'.
Proof.
  intros He [K E]. split.
  - intros k kv. rewrite K. split; intros [Hk Hn]; (split; [done|]); intros (l & Hl & HL & Hx); apply Hn; exists l;
      (split; [done|]; split; [|done]); by apply He.
  - intros l x. rewrite E. split; intros [Hx Hn]; (split; [done|]); intros HL; apply Hn; apply He; eauto.
Qed.

Lemma reap_minus sel a ks a' :
  reap_post a sel (Ok ks) a' ->
  minus (fun l => exists x, a_leases a !! l = Some x /\ sel_lease sel l x = true) a a'.
Proof.
  intros (_ & Hks & ->). split.
  - intros k kv. simpl. rewrite a_remove_all_kv. case_bool_decide as Hin.
    + split; [done|]. intros [Hk Hn]. apply list_elem_of_In, Hks in Hin as (kv' & id & l & H1 & H2 & H3 & H4).
      exfalso. apply Hn. assert (kv' = kv) as -> by congruence. exists id. split; [done|]. split; eauto.
    + split; [|by intros [Hk _]]. intros Hk. split; [done|]. intros (l & Hl & (x & Hx & Hs) & _). apply Hin.
      apply list_elem_of_In, Hks. exists kv, l, x. done.
  - intros l x. simpl. unfold leases_after. rewrite map_lookup_filter_Some. simpl. split.
    + intros [Hx Hs]. split; [done|]. intros (x' & Hx' & Hs'). congruence.
    + intros [Hx Hn]. split; [done|]. destruct (sel_lease sel l x) eqn:E; [|done]. exfalso. apply Hn. eauto.
Qed.

(** ** Sorting and removing duplicates *)

Lemma insert_sorted_in x y l : In y (insert_sorted x l) <-> y = x \/ In y l.
Proof.
  induction l as [|z l IH]; simpl; [intuition|]. destruct (str_le x z); simpl; [intuition|]. rewrite IH. intuition.
Qed.

Lemma sort_in y l : In y (sort l) <-> In y l.
Proof. induction l as [|x l IH]; simpl; [done|]. rewrite insert_sorted_in, IH. intuition. Qed.

Lemma dedup_in y l : In y (dedup l) <-> In y l.
Proof.
  induction l as [|x [|z l] IH]; [done|done|]. change (dedup (x :: z :: l)) with (if String.eqb x z then dedup (z :: l) else x :: dedup (z :: l)).
  destruct (String.eqb_spec x z) as [->|Hn].
  - rewrite IH. simpl. intuition.
  - cbn [In]. rewrite IH. simpl. intuition.
Qed.

Lemma sort_dedup_in y l : In y (sort_dedup l) <-> In y l.
Proof. unfold sort_dedup. by rewrite dedup_in, sort_in. Qed.

Lemma NoDup_map_filter {A A'} (f : A -> A') (g : A -> bool) l : NoDup (map f l) -> NoDup (map f (List.filter g l)).
Proof.
  induction l as [|x l IH]; simpl; [done|]. intros [Hx Hl]%NoDup_cons. destruct (g x); simpl; [|auto].
  apply NoDup_cons. split; [|auto]. intros Hin. apply Hx. apply list_elem_of_In, in_map_iff in Hin as (y & Hy & Hin).
  apply filter_In in Hin as [Hin _]. apply list_elem_of_In, in_map_iff. eauto.
Qed.

Section Reaper.
Context {S B : Type} `{StoreLaws S} `{BackendLaws B} `{SerdeJson}.

Notation O := (Orch S B).
Notation OM := (M O string).

Definition o_abs (o : O) : AStore := abs (o_store o).
Definition o_ready (o : O) : Prop := inv (o_store o) /\ healthy (o_store o).

(** A call to a healthy store that can only fail on a missing lease. *)
Lemma wp_on_store {E A} (m : M S E A) o (Q : result A E -> O -> Prop) :
  wp m (o_store o) (fun r s => Q r (set_store s o)) -> wp (on_store m) o Q.
Proof. unfold wp, on_store. by destruct (m (o_store o)). Qed.

(** ** Destruction *)

Lemma wp_destroy id m o (Q : result (list string) string -> O -> Prop) :
  o_ready o -> tracked o -> o_live o !! id = Some m ->
  (forall ks o', o_ready o' -> tracked o' -> o_live o' = base.delete id (o_live o) ->
     o_node_id o' = o_node_id o ->
     reap_post (o_abs o) (SelId (lm_lease m)) (Ok ks) (o_abs o') -> Q (Ok ks) o') ->
  wp (destroy id) o Q.
Proof.
  intros [Hi Hh] Ht Hm HQ. unfold destroy. apply wp_bind. unfold wp at 1, take_live. simpl. rewrite Hm.
  apply wp_bind. destruct (untrack_keeps id m o Ht Hm) as (o1 & Hu & Ht1 & Hl1 & Hs1 & Hb1).
  unfold wp at 1. rewrite Hu. simpl.
  assert (o_node_id o1 = o_node_id o) as Hnode.
  { unfold upd_backend, on_backend in Hu. destruct (_ !! lm_backend m) in Hu; [|done]. by injection Hu as <-. }
  apply wp_on_store, wp_text. rewrite Hs1.
  eapply wp_meets_healthy; [apply revoke_meets|done|done| |].
  - intros ks s' Hi' Hh' Hp. simpl. apply HQ; [done|done|done|done|exact Hp].
  - intros i s' _ _ [].
Qed.

(** ** The two passes of a turn *)

Definition lease_in (live : gmap string LiveMeta) (ids : list string) (l : Z) : Prop :=
  exists id m, In id ids /\ live !! id = Some m /\ lm_lease m = l.

#[export] Instance lease_in_dec live ids l : Decision (lease_in live ids l).
Proof.
  destruct (decide (Exists (fun id => lm_lease <$> live !! id = Some l) ids)) as [He|He].
  - left. apply List.Exists_exists in He as (id & Hin & Hm). destruct (live !! id) as [m|] eqn:E; [|done].
    injection Hm as Hm. by exists id, m.
  - right. intros (id & m & Hin & Hm & Hl). apply He, List.Exists_exists. exists id. split; [done|]. rewrite Hm. simpl. by f_equal.
Defined.

Lemma reap_ttl_pass o ids (Q : result (list string) string -> O -> Prop) :
  o_ready o -> tracked o -> NoDup ids -> (forall id, In id ids -> is_Some (o_live o !! id)) ->
  (forall o', o_ready o' -> tracked o' -> (forall id, o_live o' !! id = if bool_decide (id ∈ ids) then None else o_live o !! id) ->
     o_node_id o' = o_node_id o -> minus (lease_in (o_live o) ids) (o_abs o) (o_abs o') -> Q (Ok ids) o') ->
  wp (mfold reap_ttl ids []) o Q.
Proof.
  intros Hr Ht Hnd Hlive HQ.
  apply (wp_fold _ (fun pre reaped o' => reaped = pre /\ o_ready o' /\ tracked o' /\
    (forall id, o_live o' !! id = if bool_decide (id ∈ pre) then None else o_live o !! id) /\ o_node_id o' = o_node_id o /\
    minus (lease_in (o_live o) pre) (o_abs o) (o_abs o'))).
  - do 3 (split; [done|]). split; [done|]. split; [done|].
    apply (minus_ext (fun _ => False)); [|apply minus_none]. intros l _. split; [done|]. by intros (? & ? & [] & _).
  - intros pre id post reaped o1 Hids (-> & Hr1 & Ht1 & Hl1 & Hn1 & Hm1). unfold reap_ttl. apply wp_bind.
    assert (id ∉ pre) as Hni. { rewrite Hids in Hnd. apply NoDup_app in Hnd as (_ & Hd & _). intros Hin. apply (Hd id Hin). by constructor. }
    destruct (Hlive id) as [m Hm]; [rewrite Hids; apply in_elt|].
    assert (o_live o1 !! id = Some m) as Hm1' by (rewrite Hl1, bool_decide_eq_false_2; done).
    apply (wp_destroy id m o1); [done|done|done|]. intros ks o2 Hr2 Ht2 Hl2 Hn2 Hp. apply wp_ret.
    split; [done|]. split; [done|]. split; [done|]. split; [|split; [congruence|]].
    + intros id'. rewrite Hl2. destruct (decide (id' = id)) as [->|Hne].
      * rewrite lookup_delete_eq, bool_decide_eq_true_2; [done|]. set_solver.
      * rewrite lookup_delete_ne, Hl1 by done. rewrite (bool_decide_ext (id' ∈ pre ++ [id]) (id' ∈ pre)); [done|set_solver].
    + apply (minus_ext (fun l => lease_in (o_live o) pre l \/ exists x, a_leases (o_abs o1) !! l = Some x /\ sel_lease (SelId (lm_lease m)) l x = true)).
      2:{ eapply minus_trans; [exact Hm1|]. by eapply reap_minus. }
      intros l [x Hx]. split.
      * intros [(id' & m' & Hin & Hm' & Hl')|(x' & Hx' & Hs)].
        { exists id', m'. split; [apply in_app_iff; by left|done]. }
        simpl in Hs. bool_prop. subst l. exists id, m. split; [apply in_app_iff; right; by left|done].
      * intros (id' & m' & Hin & Hm' & Hl'). apply in_app_iff in Hin as [Hin|[<-|[]]]; [left; by exists id', m'|].
        assert (m' = m) as -> by congruence. subst l.
        destruct (decide (lease_in (o_live o) pre (lm_lease m))) as [Hd|Hd]; [by left|].
        right. exists x. split; [|simpl; apply Z.eqb_refl]. apply (mn_leases _ _ _ Hm1). split; [done|exact Hd].
  - intros reaped o' (-> & G1 & G2 & G3 & G4 & G5). by apply HQ.
Qed.

Lemma reap_idle_pass o ids reaped0 (Q : result (list string) string -> O -> Prop) :
  tracked o ->
  (forall reaped o', tracked o' -> o_store o' = o_store o ->
     (forall id, o_live o' !! id = if bool_decide (id ∈ ids) then None else o_live o !! id) ->
     (forall id, In id reaped <-> In id reaped0 \/ (In id ids /\ is_Some (o_live o !! id))) -> Q (Ok reaped) o') ->
  wp (mfold reap_idle ids reaped0) o Q.
Proof.
  intros Ht HQ.
  apply (wp_fold _ (fun pre reaped o' => tracked o' /\ o_store o' = o_store o /\
    (forall id, o_live o' !! id = if bool_decide (id ∈ pre) then None else o_live o !! id) /\
    (forall id, In id reaped <-> In id reaped0 \/ (In id pre /\ is_Some (o_live o !! id))))).
  - do 3 (split; [done|]). intros id. simpl. tauto.
  - intros pre id post reaped o1 Hids (Ht1 & Hs1 & Hl1 & Hr1). unfold reap_idle. apply wp_bind.
    unfold wp at 1, take_live. cbn [fst snd]. destruct (o_live o1 !! id) as [m|] eqn:Em.
    + apply wp_bind. destruct (untrack_keeps id m o1 Ht1 Em) as (o2 & Hu & Ht2 & Hl2 & Hs2 & _).
      unfold wp at 1. rewrite Hu. cbn [fst snd]. apply wp_ret. split; [done|]. split; [congruence|]. split.
      * intros id'. rewrite Hl2. destruct (decide (id' = id)) as [->|Hne].
        { rewrite lookup_delete_eq, bool_decide_eq_true_2; [done|set_solver]. }
        rewrite lookup_delete_ne, Hl1 by done. rewrite (bool_decide_ext (id' ∈ pre ++ [id]) (id' ∈ pre)); [done|set_solver].
      * rewrite Hl1 in Em. case_bool_decide; [done|]. intros id'. rewrite !in_app_iff, Hr1. simpl. split.
        { intros [[Hx|[Hx Hy]]|[<-|[]]]; [by left|right; auto|]. right. split; [auto|by eexists]. }
        intros [Hx|[[Hx|[<-|[]]] Hy]]; auto.
    + apply wp_ret. assert (set_live (base.delete id (o_live o1)) o1 = o1) as ->.
      { rewrite (delete_id _ _ Em). by destruct o1. }
      split; [done|]. split; [done|]. split.
      * intros id'. rewrite Hl1. destruct (decide (id' = id)) as [->|Hne].
        { rewrite (bool_decide_eq_true_2 (id ∈ pre ++ [id])) by set_solver. by rewrite <- Hl1. }
        rewrite (bool_decide_ext (id' ∈ pre ++ [id]) (id' ∈ pre)); [done|set_solver].
      * intros id'. rewrite Hr1, in_app_iff. simpl. split; [tauto|].
        intros [Hx|[[Hx|[<-|[]]] Hy]]; [tauto|tauto|]. rewrite Hl1 in Em. case_bool_decide as Hp.
        { right. split; [by apply list_elem_of_In|done]. }
        rewrite Em in Hy. by destruct Hy.
  - intros reaped o' (G1 & G2 & G3 & G4). by apply HQ.
Qed.

(** ** Linked states *)

Definition good_id (id : string) : Prop := id <> ""%string /\ contains_char "/" id = false.

(** A live sandbox has a lease of its own, which its metadata key and whatever
    other leased keys it has are attached to. *)
Record linked (o : O) : Prop := {
  lk_id : forall id m, o_live o !! id = Some m -> good_id id;
  lk_meta : forall id m, o_live o !! id = Some m ->
    exists kv, a_kv (o_abs o) !! meta_key id = Some kv /\ kv_lease kv = Some (lm_lease m);
  lk_lease : forall id m, o_live o !! id = Some m -> is_Some (a_leases (o_abs o) !! lm_lease m);
  lk_own : forall id m k kv l, o_live o !! id = Some m -> a_kv (o_abs o) !! k = Some kv ->
    sandbox_id_of_key k = Some id -> kv_lease kv = Some l -> l = lm_lease m;
  lk_inj : forall id m id' m', o_live o !! id = Some m -> o_live o !! id' = Some m' -> lm_lease m = lm_lease m' -> id = id'
}.

Lemma sandbox_id_suffix id suffix : good_id id -> sandbox_id_of_key ("sandbox/" ++s id ++s String "/" suffix) = Some id.
Proof.
  intros [Hne Hs]. unfold sandbox_id_of_key. rewrite (strip_prefix_app "sandbox/"), split_sep_app by done.
  by rewrite (proj2 (String.eqb_neq _ _) Hne).
Qed.

Lemma sandbox_id_meta id : good_id id -> sandbox_id_of_key (meta_key id) = Some id.
Proof. apply (sandbox_id_suffix id "meta"). Qed.

(** Neither the hard limit nor the idle limit of the sandbox has passed. *)
Definition survives (a : AStore) (now : Z) (m : LiveMeta) : Prop :=
  now < lm_ttl_deadline m /\ exists x, a_leases a !! lm_lease m = Some x /\ now < l_expires x.

Definition iterates (iter : gmap string LiveMeta -> list (string * LiveMeta)) : Prop :=
  forall m, iter m ≡ₚ map_to_list m.

Lemma ttl_expired_spec iter now (o : O) :
  iterates iter -> NoDup (ttl_expired_ids iter now o) /\
  forall id, In id (ttl_expired_ids iter now o) <-> exists m, o_live o !! id = Some m /\ lm_ttl_deadline m <= now.
Proof.
  intros Hi. unfold ttl_expired_ids. specialize (Hi (o_live o)). split.
  - apply NoDup_map_filter. change (map fst (iter (o_live o))) with ((iter (o_live o)).*1). rewrite Hi.
    apply NoDup_fst_map_to_list.
  - intros id. rewrite in_map_iff. split.
    + intros ([id' m] & <- & Hin). apply filter_In in Hin as [Hin He]. exists m.
      apply list_elem_of_In in Hin. rewrite Hi in Hin. apply elem_of_map_to_list in Hin. unfold is_ttl_expired in He.
      simpl in *. bool_prop. done.
    + intros (m & Hm & He). exists (id, m). split; [done|]. apply filter_In. split.
      * apply list_elem_of_In. rewrite Hi. by apply elem_of_map_to_list.
      * unfold is_ttl_expired. simpl. by apply Z.leb_le.
Qed.

(** The leases a turn of the reaper ends: those of the sandboxes past their hard
    limit, and those that expired. *)
Definition ended (o : O) (now : Z) (l : Z) : Prop :=
  (exists id m, o_live o !! id = Some m /\ lm_ttl_deadline m <= now /\ lm_lease m = l) \/
  (exists x, a_leases (o_abs o) !! l = Some x /\ l_expires x <= now).

Section Turn.
Context (o o1 : O) (now : Z) (ids : list string).
Context (Hlk : linked o).
Context (Hids : forall id, In id ids <-> exists m, o_live o !! id = Some m /\ lm_ttl_deadline m <= now).
Context (Hmin : minus (lease_in (o_live o) ids) (o_abs o) (o_abs o1)).

(** A sandbox the first pass keeps still has its lease. *)
Lemma kept_lease id m x :
  o_live o !! id = Some m -> ~ In id ids -> a_leases (o_abs o) !! lm_lease m = Some x ->
  a_leases (o_abs o1) !! lm_lease m = Some x.
Proof.
  intros Hm Hn Hx. apply (mn_leases _ _ _ Hmin). split; [done|]. intros (id' & m' & Hin & Hm' & He).
  by rewrite (lk_inj o Hlk _ _ _ _ Hm' Hm He) in Hin.
Qed.

(** The second pass selects it exactly when its lease has expired. *)
Lemma swept_id ks id m :
  (forall k, In k ks <-> reaped (SelExpired now) (o_abs o1) k) -> o_live o !! id = Some m -> ~ In id ids ->
  In id (sort_dedup (omap sandbox_id_of_key ks)) <->
  exists x, a_leases (o_abs o) !! lm_lease m = Some x /\ l_expires x <= now.
Proof.
  intros Hks Hm Hn. rewrite sort_dedup_in, <- list_elem_of_In, list_elem_of_omap. split.
  - intros (k & Hk & Hid). apply list_elem_of_In, Hks in Hk as (kv & l & x & Hkv & Hl & Hx & Hs).
    apply (mn_kv _ _ _ Hmin) in Hkv as [Hkv _]. apply (mn_leases _ _ _ Hmin) in Hx as [Hx _].
    rewrite (lk_own o Hlk id m k kv l Hm Hkv Hid Hl) in *. simpl in Hs. bool_prop. eauto.
  - intros (x & Hx & He). exists (meta_key id). split; [|by apply sandbox_id_meta, (lk_id o Hlk id m)].
    apply list_elem_of_In, Hks. destruct (lk_meta o Hlk id m Hm) as (kv & Hkv & Hl).
    exists kv, (lm_lease m), x. split.
    + apply (mn_kv _ _ _ Hmin). split; [done|]. intros (l & Hl' & HL & _). assert (l = lm_lease m) as -> by congruence.
      assert (a_leases (o_abs o1) !! lm_lease m = Some x) as Hx1 by (by apply (kept_lease id)).
      by apply (mn_leases _ _ _ Hmin) in Hx1 as [_ Hx1].
    + split; [done|]. split; [by apply (kept_lease id)|]. simpl. by apply Z.leb_le.
Qed.

(** The two passes together select exactly the sandboxes that do not survive. *)
Lemma turn_selects ks id m :
  (forall k, In k ks <-> reaped (SelExpired now) (o_abs o1) k) -> o_live o !! id = Some m ->
  (survives (o_abs o) now m /\ ~ In id ids /\ ~ In id (sort_dedup (omap sandbox_id_of_key ks))) \/
  (~ survives (o_abs o) now m /\ (In id ids \/ In id (sort_dedup (omap sandbox_id_of_key ks)))).
Proof.
  intros Hks Hm. destruct (lk_lease o Hlk id m Hm) as [x Hx]. unfold survives.
  destruct (decide (id ∈ ids)) as [Hin|Hn]; rewrite list_elem_of_In in *.
  - right. split; [|by left]. apply Hids in Hin as (m' & Hm' & Hd). assert (m' = m) as -> by congruence. lia.
  - assert (now < lm_ttl_deadline m) as Hlt.
    { destruct (Z.ltb_spec now (lm_ttl_deadline m)); [done|]. exfalso. apply Hn, Hids. eauto. }
    pose proof (swept_id ks id m Hks Hm Hn) as Hsw. destruct (Z.leb_spec (l_expires x) now) as [He|He].
    + right. split; [|right; apply Hsw; eauto]. intros [_ (y & Hy & Hl)]. assert (y = x) as -> by congruence. lia.
    + left. split; [eauto|]. split; [done|]. intros (y & Hy & Hl)%Hsw. assert (y = x) as -> by congruence. lia.
Qed.

Lemma turn_minus a2 ks :
  reap_post (o_abs o1) (SelExpired now) (Ok ks) a2 -> minus (ended o now) (o_abs o) a2.
Proof.
  intros Hp. eapply minus_ext; [|eapply minus_trans; [exact Hmin|eapply reap_minus; exact Hp]].
  intros l [x Hx]. unfold ended. split.
  - intros [(id & m & Hin & Hm & Hl)|(y & Hy & Hs)].
    + left. apply Hids in Hin as (m' & Hm' & Hd). assert (m' = m) as -> by congruence. eauto.
    + right. apply (mn_leases _ _ _ Hmin) in Hy as [Hy _]. simpl in Hs. bool_prop. eauto.
  - intros [(id & m & Hm & Hd & Hl)|(y & Hy & He)].
    + left. exists id, m. split; [apply Hids; eauto|done].
    + destruct (decide (lease_in (o_live o) ids l)) as [Hi|Hi]; [by left|]. right. exists y.
      split; [by apply (mn_leases _ _ _ Hmin)|]. simpl. by apply Z.leb_le.
Qed.
End Turn.

Definition tick_post (o : O) (now : Z) (r : result (list string) string) (o' : O) : Prop :=
  exists reaped, r = Ok reaped /\ o_ready o' /\ tracked o' /\
    (forall id m, o_live o' !! id = Some m <-> o_live o !! id = Some m /\ survives (o_abs o) now m) /\
    (forall id, In id reaped <-> exists m, o_live o !! id = Some m /\ ~ survives (o_abs o) now m) /\
    minus (ended o now) (o_abs o) (o_abs o').

Lemma wp_tick iter now o :
  o_ready o -> tracked o -> linked o -> iterates iter -> wp (tick iter now) o (tick_post o now).
Proof.
  intros Hr Ht Hlk Hit. unfold tick. apply wp_bind. unfold wp at 1, ask. cbn [fst snd].
  destruct (ttl_expired_spec iter now o Hit) as [Hnd Hids]. set (ids := ttl_expired_ids iter now o) in *.
  apply wp_bind. apply reap_ttl_pass; [done|done|done| |].
  { intros id (m & Hm & _)%Hids. by eexists. }
  intros o1 [Hi1 Hh1] Ht1 Hl1 _ Hmin. apply wp_bind, wp_on_store, wp_text.
  eapply wp_meets_healthy; [apply sweep_meets|done|done| |intros i s' _ _ []].
  intros ks s2 Hi2 Hh2 Hp. cbn [err_text]. pose proof Hp as (_ & Hks & _).
  apply reap_idle_pass; [exact Ht1|]. intros reaped o3 Ht3 Hs3 Hl3 Hr3. cbn [o_live set_store o_store] in *.
  pose proof (turn_minus o o1 now ids Hids Hmin _ ks Hp) as Hmn.
  pose proof (fun id m => turn_selects o o1 now ids Hlk Hids Hmin ks id m Hks) as Hsel.
  exists reaped. split; [done|]. split; [split; by rewrite Hs3|]. split; [done|]. split; [|split].
  - intros id m. rewrite Hl3, Hl1. split.
    + destruct (bool_decide (id ∈ sort_dedup _)) eqn:E1; [done|]. destruct (bool_decide (id ∈ ids)) eqn:E2; [done|].
      apply bool_decide_eq_false in E1, E2. rewrite list_elem_of_In in E1, E2. intros Hm. split; [done|]. destruct (Hsel id m Hm) as [[Hs _]|[_ [Hx|Hx]]]; done.
    + intros [Hm Hs]. destruct (Hsel id m Hm) as [(_ & Hx & Hy)|[Hx _]]; [|done].
      by rewrite !bool_decide_eq_false_2 by (by rewrite list_elem_of_In).
  - intros id. rewrite Hr3. split.
    + intros [Hin|[Hin [m Hm]]].
      * pose proof (proj1 (Hids id) Hin) as (m & Hm & _). exists m. split; [done|]. destruct (Hsel id m Hm) as [(_ & Hx & _)|[Hx _]]; done.
      * rewrite Hl1 in Hm. destruct (bool_decide (id ∈ ids)); [done|]. exists m. split; [done|]. destruct (Hsel id m Hm) as [(_ & _ & Hx)|[Hx _]]; done.
    + intros (m & Hm & Hn). destruct (Hsel id m Hm) as [(Hx & _)|[_ [Hx|Hx]]]; [done|by left|].
      destruct (decide (id ∈ ids)) as [Hin|Hni]; [left; by apply list_elem_of_In|]. right. split; [done|].
      rewrite Hl1, bool_decide_eq_false_2 by done. by eexists.
  - unfold o_abs. by rewrite Hs3.
Qed.

(** ** Registration on a store that answers *)

(** The writes of [register]. *)
Definition register_abs (host : Host) (now : Z) (id : string) (spec : SandboxSpec) (template : string)
    (node : option string) (lease : Z) (a : AStore) : AStore :=
  let a1 := a_with_leases (<[lease := mkLease (sp_idle_secs spec) (i64_add now (sp_idle_secs spec))]> (a_leases a)) a in
  let a2 := a_write (meta_key id)
              (build_meta_json id spec now (compute_ttl_deadline now (sp_ttl_secs spec)) template) (Some lease) a1 in
  let a3 := a_write (state_key id) "running" (Some lease) a2 in
  let a4 := match node with Some n => a_write (sandbox_node_key id) n (Some lease) a3 | None => a3 end in
  match pin_from_template (manifest_of host template) with
  | Some pin => a_write (pin_key id) (pin_text pin) (Some lease) a4
  | None => a4
  end.

(** A write under a lease that exists succeeds. *)
Lemma wp_leased_put k v l s (Q : result Z StoreError -> S -> Prop) :
  inv s -> healthy s -> is_Some (a_leases (abs s) !! l) ->
  (forall rev s', inv s' -> healthy s' -> abs s' = a_write k v (Some l) (abs s) -> Q (Ok rev) s') ->
  wp (put k v (Some l)) s Q.
Proof.
  intros Hi Hh Hl HQ. eapply wp_meets_healthy; [apply put_meets|done|done| |].
  - intros rev s' Hi' Hh' (_ & Ha & _). by apply HQ.
  - intros i s' _ _ ([= ->] & Hn & _). rewrite Hn in Hl. by destruct Hl.
Qed.

(** [match m { Ok .. Err .. }] *)
Lemma wp_reify {E' A} (m : M S StoreError A) s (Q : result (result A StoreError) E' -> S -> Prop) :
  wp m s (fun r s' => Q (Ok r) s') -> wp (fun s => let '(r, s') := m s in (Ok r, s')) s Q.
Proof. unfold wp. by destruct (m s). Qed.

Lemma wp_or_rollback k v l idx id what o (Q : result unit string -> O -> Prop) :
  o_ready o -> is_Some (a_leases (o_abs o) !! l) ->
  (forall s', inv s' -> healthy s' -> abs s' = a_write k v (Some l) (o_abs o) -> Q (Ok tt) (set_store s' o)) ->
  wp (or_rollback (put k v (Some l)) idx l id what) o Q.
Proof.
  intros [Hi Hh] Hl HQ. unfold or_rollback. apply wp_bind, wp_on_store.
  apply wp_reify, wp_leased_put; [done|done|done|]. intros rev s' Hi' Hh' Ha. apply wp_ret. by apply HQ.
Qed.

Lemma wp_register host now bc idx spec template ff o (Q : result CreateOutcome string -> O -> Prop) :
  o_ready o ->
  (forall lease o', o_ready o' -> a_leases (o_abs o) !! lease = None ->
     o_abs o' = register_abs host now (bc_id bc) spec template (o_node_id o) lease (o_abs o) ->
     o_live o' = <[bc_id bc := mkLive lease (compute_ttl_deadline now (sp_ttl_secs spec)) idx]> (o_live o) ->
     o_backends o' = o_backends o -> o_node_id o' = o_node_id o -> Q (Ok (outcome_of bc ff)) o') ->
  wp (register host now bc idx spec template ff) o Q.
Proof.
  intros [Hi Hh] HQ. unfold register. apply wp_bind, wp_on_store.
  pose proof (grant_meets now (sp_idle_secs spec) (o_store o) Hi) as G. unfold wp at 1.
  destruct (lease_grant now (sp_idle_secs spec) (o_store o)) as [r s1]. destruct G as (Hi1 & G & Hb1). destruct (Hb1 Hh) as [Hh1 Hnb].
  cbn [fst snd]. destruct r as [lease|[e|i]]; [|exfalso; apply Hnb; by eexists|by destruct G]. destruct G as (Hfresh & _ & Ha1).
  assert (a_leases (abs s1) !! lease = Some (mkLease (sp_idle_secs spec) (i64_add now (sp_idle_secs spec)))) as Hl1.
  { rewrite Ha1. simpl. by rewrite lookup_insert_eq. }
  apply wp_bind. apply wp_or_rollback; [by split|by eexists|]. intros s2 Hi2 Hh2 Ha2.
  apply wp_bind. apply wp_or_rollback; [by split|unfold o_abs; simpl; rewrite Ha2; simpl; by eexists|]. intros s3 Hi3 Hh3 Ha3.
  apply wp_bind. unfold wp at 1, ask. cbn [fst snd o_node_id set_store].
  assert (a_leases (abs s3) !! lease = Some (mkLease (sp_idle_secs spec) (i64_add now (sp_idle_secs spec)))) as Hl3.
  { rewrite Ha3. unfold o_abs. simpl. by rewrite Ha2. }
  apply wp_bind. apply (wp_mono _ _ (fun r o4 => r = Ok tt /\ exists s4, o4 = set_store s4 o /\ inv s4 /\ healthy s4 /\
    a_leases (abs s4) = a_leases (abs s3) /\
    abs s4 = match o_node_id o with Some n => a_write (sandbox_node_key (bc_id bc)) n (Some lease) (abs s3) | None => abs s3 end)).
  2:{ destruct (o_node_id o) as [n|]; [|apply wp_ret; split; [done|]; exists s3; done].
      apply wp_or_rollback; [by split|by eexists|]. intros s4 Hi4 Hh4 Ha4. split; [done|]. exists s4.
      unfold o_abs in Ha4. simpl in Ha4. rewrite Ha4. done. }
  intros r o4 (-> & s4 & -> & Hi4 & Hh4 & Hl4 & Ha4). apply wp_bind.
  apply (wp_mono _ _ (fun r o5 => r = Ok tt /\ exists s5, o5 = set_store s5 o /\ inv s5 /\ healthy s5 /\
    abs s5 = match pin_from_template (manifest_of host template) with
             | Some pin => a_write (pin_key (bc_id bc)) (pin_text pin) (Some lease) (abs s4) | None => abs s4 end)).
  2:{ destruct (pin_from_template _) as [pin|]; [|apply wp_ret; split; [done|]; exists s4; done].
      unfold ignore. apply wp_bind, wp_try, wp_on_store. unfold set_pin. apply wp_bind, wp_text.
      apply wp_leased_put; [done|done|simpl; rewrite Hl4, Hl3; by eexists|]. intros rev s5 Hi5 Hh5 Ha5. do 2 apply wp_ret.
      split; [done|]. by exists s5. }
  intros r o5 (-> & s5 & -> & Hi5 & Hh5 & Ha5). apply wp_bind. unfold wp, ask. cbn [fst snd].
  apply (HQ lease); try done. unfold o_abs. simpl. rewrite Ha5, Ha4, Ha3. unfold o_abs. simpl. rewrite Ha2. unfold o_abs. simpl. by rewrite Ha1.
Qed.

(** A write of a sandbox's own key under its lease. *)
Definition own_writes (id : string) (lease : Z) (a a' : AStore) : Prop :=
  a_leases a' = a_leases a /\
  forall k, a_kv a' !! k = a_kv a !! k \/
    (sandbox_id_of_key k = Some id /\ exists kv, a_kv a' !! k = Some kv /\ kv_lease kv = Some lease).

Lemma own_write id lease suffix v a :
  good_id id -> own_writes id lease a (a_write ("sandbox/" ++s id ++s String "/" suffix) v (Some lease) a).
Proof.
  intros Hg. split; [done|]. intros k. rewrite a_write_kv. destruct (decide (_ = k)) as [<-|Hn]; [|by left].
  right. split; [by apply sandbox_id_suffix|]. by eexists.
Qed.

Lemma own_writes_trans id lease a1 a2 a3 : own_writes id lease a1 a2 -> own_writes id lease a2 a3 -> own_writes id lease a1 a3.
Proof.
  intros [L1 K1] [L2 K2]. split; [congruence|]. intros k. destruct (K2 k) as [->|Hx]; [apply K1|by right].
Qed.

Lemma own_writes_refl id lease a : own_writes id lease a a.
Proof. split; [done|]. by left. Qed.

(** What [register] leaves in the store. *)
Lemma register_abs_spec host now id spec template node lease a :
  good_id id ->
  let a' := register_abs host now id spec template node lease a in
  let a1 := a_with_leases (<[lease := mkLease (sp_idle_secs spec) (i64_add now (sp_idle_secs spec))]> (a_leases a)) a in
  own_writes id lease a1 a' /\
  (exists kv, a_kv a' !! meta_key id = Some kv /\ kv_lease kv = Some lease /\
     kv_value kv = build_meta_json id spec now (compute_ttl_deadline now (sp_ttl_secs spec)) template) /\
  (exists kv, a_kv a' !! state_key id = Some kv /\ kv_lease kv = Some lease /\ kv_value kv = "running"%string) /\
  (forall n, node = Some n -> exists kv, a_kv a' !! sandbox_node_key id = Some kv /\ kv_lease kv = Some lease /\ kv_value kv = n).
Proof.
  intros Hg a' a1. subst a'. unfold register_abs. fold a1.
  set (a2 := a_write (meta_key id) _ (Some lease) a1). set (a3 := a_write (state_key id) "running" (Some lease) a2).
  set (a4 := match node with Some n => a_write (sandbox_node_key id) n (Some lease) a3 | None => a3 end).
  set (a5 := match pin_from_template _ with Some pin => a_write (pin_key id) (pin_text pin) (Some lease) a4 | None => a4 end).
  assert (forall x y, ("sandbox/" ++s id ++s String "/" x = "sandbox/" ++s id ++s String "/" y)%string -> x = y) as Hinj.
  { intros x y Hxy. apply (app_inv_head_s "sandbox/"), (app_inv_head_s id) in Hxy. congruence. }
  assert (forall key v l a k, key <> k -> a_kv (a_write key v l a) !! k = a_kv a !! k) as Hoth.
  { intros key v l a0 k Hne. rewrite a_write_kv. by rewrite decide_False. }
  assert (forall k, pin_key id <> k -> a_kv a5 !! k = a_kv a4 !! k) as Hpin.
  { intros k Hne. subst a5. destruct (pin_from_template _); [by apply Hoth|done]. }
  assert (forall k, sandbox_node_key id <> k -> a_kv a4 !! k = a_kv a3 !! k) as Hnode.
  { intros k Hne. subst a4. destruct node; [by apply Hoth|done]. }
  split; [|split; [|split]].
  - apply (own_writes_trans _ _ _ a2); [apply (own_write id lease "meta"); done|].
    apply (own_writes_trans _ _ _ a3); [apply (own_write id lease "state"); done|].
    apply (own_writes_trans _ _ _ a4); [subst a4; destruct node; [apply (own_write id lease "node"); done|apply own_writes_refl]|].
    subst a5. destruct (pin_from_template _); [apply (own_write id lease "pin"); done|apply own_writes_refl].
  - eexists. split; [|split].
    { rewrite Hpin by (intros He; by apply (Hinj "pin" "meta")%string in He).
      rewrite Hnode by (intros He; by apply (Hinj "node" "meta")%string in He). subst a3.
      rewrite Hoth by (intros He; by apply (Hinj "state" "meta")%string in He). subst a2. by rewrite a_write_kv, decide_True. }
    done. done.
  - eexists. split; [|split].
    { rewrite Hpin by (intros He; by apply (Hinj "pin" "state")%string in He).
      rewrite Hnode by (intros He; by apply (Hinj "node" "state")%string in He). subst a3. by rewrite a_write_kv, decide_True. }
    done. done.
  - intros n ->. eexists. split; [|split].
    { rewrite Hpin by (intros He; by apply (Hinj "pin" "node")%string in He). subst a4. by rewrite a_write_kv, decide_True. }
    done. done.
Qed.

(** No leased key of the store carries the id. *)
Definition unused_id (id : string) (a : AStore) : Prop :=
  forall k kv l, a_kv a !! k = Some kv -> sandbox_id_of_key k = Some id -> kv_lease kv = Some l -> False.

Lemma register_links host now id spec template lease deadline idx (o o' : O) :
  linked o -> good_id id -> unused_id id (o_abs o) -> a_leases (o_abs o) !! lease = None ->
  o_abs o' = register_abs host now id spec template (o_node_id o) lease (o_abs o) ->
  o_live o' = <[id := mkLive lease deadline idx]> (o_live o) -> o_live o !! id = None -> linked o'.
Proof.
  intros Hlk Hg Hun Hfr Ha Hl Hn.
  destruct (register_abs_spec host now id spec template (o_node_id o) lease (o_abs o) Hg) as ([HL HK] & Hm & _ & _).
  rewrite <- Ha in *. simpl in HL, HK.
  assert (forall id' m, o_live o' !! id' = Some m -> (id' = id /\ m = mkLive lease deadline idx) \/ (id' <> id /\ o_live o !! id' = Some m)) as Hcase.
  { intros id' m. rewrite Hl. destruct (decide (id' = id)) as [->|Hne]; [rewrite lookup_insert_eq; intros [= <-]; by left|].
    rewrite lookup_insert_ne by done. by right. }
  assert (forall id' m, o_live o !! id' = Some m -> lm_lease m <> lease) as Hdiff.
  { intros id' m Hm' He. destruct (lk_lease o Hlk id' m Hm') as [x Hx]. congruence. }
  split.
  - intros id' m [[-> _]|[_ Hm']]%Hcase; [done|by eapply lk_id].
  - intros id' m [[-> ->]|[Hne Hm']]%Hcase.
    { destruct Hm as (kv & Hkv & Hle & _). by exists kv. }
    destruct (lk_meta o Hlk id' m Hm') as (kv & Hkv & Hle). exists kv. split; [|done].
    destruct (HK (meta_key id')) as [->|[Hid _]]; [done|]. rewrite sandbox_id_meta in Hid by (by eapply lk_id). congruence.
  - intros id' m [[-> ->]|[Hne Hm']]%Hcase; rewrite HL; simpl; [rewrite lookup_insert_eq; by eexists|].
    rewrite lookup_insert_ne by (intros He; by apply (Hdiff id' m)). by eapply lk_lease.
  - intros id' m k kv l [[-> ->]|[Hne Hm']]%Hcase Hkv Hid Hle.
    + destruct (HK k) as [He|[_ (kv' & Hkv' & Hl')]]; [|simpl; congruence]. rewrite He in Hkv. exfalso. by eapply Hun.
    + destruct (HK k) as [He|[Hid' _]]; [|congruence]. rewrite He in Hkv. by eapply (lk_own o Hlk).
  - intros id1 m1 id2 m2 H1' H2' He. apply Hcase in H1' as [[-> ->]|[Hn1 Hm1]]; apply Hcase in H2' as [[-> ->]|[Hn2 Hm2]]; simpl in *.
    + done.
    + by apply Hdiff in Hm2.
    + by apply Hdiff in Hm1.
    + by eapply (lk_inj o Hlk).
Qed.
End Reaper.
