(* ===== verification/OrchClaims.v ===== *)
(** * Claims about the orchestrator *)

From Stdlib Require Import ZArith Lia Bool List String Ascii.
From stdpp Require Import base tactics list gmap strings sorting relations.
From S2P Require Import Prelude RustStr Utf8 Json Store Sqlite SqliteSpec StoreTheorems Cluster Quota Sched Retention AuditLog Proto Snapcrypt Backend Orch OrchSafety OrchReaper.

Open Scope Z_scope.

Section Lemmas.
Context {S B : Type} `{StoreLaws S} `{BackendLaws B} `{SerdeJson}.

Notation O := (Orch S B).

(** Selection does not change the state. *)
Lemma select_pure spec (o : O) : exists r, select_backend spec o = (r, o).
Proof.
  unfold select_backend. destruct (match sp_backend spec with Some _ => _ | None => _ end) as [idx|e]; [|by eexists].
  destruct (negb _); [|by eexists]. destruct (o_backends o !! idx); [|by eexists]. destruct (missing_from _ _); by eexists.
Qed.

Lemma wp_create_in host now template t spec idx b bc b' o (Q : result CreateOutcome string -> O -> Prop) :
  o_ready o -> is_dir host template = true -> abspath host template = Ok t ->
  select_backend spec o = (Ok idx, o) -> o_backends o !! idx = Some b -> b_create t spec b = (Ok bc, b') ->
  (forall lease o', o_ready o' -> a_leases (o_abs o) !! lease = None ->
     o_abs o' = register_abs host now (bc_id bc) spec t (o_node_id o) lease (o_abs o) ->
     o_live o' = <[bc_id bc := mkLive lease (compute_ttl_deadline now (sp_ttl_secs spec)) idx]> (o_live o) ->
     o_backends o' = <[idx := b']> (o_backends o) -> Q (Ok (outcome_of bc None)) o') ->
  wp (create_in host now template spec) o Q.
Proof.
  intros Hr Hd Ha Hs Hb Hc HQ. unfold create_in. rewrite Hd, Ha. cbn [negb]. apply wp_bind. unfold wp at 1. rewrite Hs. cbn [fst snd].
  apply wp_bind. unfold wp at 1, on_backend. rewrite Hb, Hc. cbn [fst snd].
  apply wp_register; [exact Hr|]. intros lease o' Hr' Hf Habs Hl Hbs _. by apply (HQ lease).
Qed.

(** A keepalive moves the expiry of a lease and nothing else. *)
Lemma wp_keepalive now id m o (Q : result Z string -> O -> Prop) :
  o_ready o -> o_live o !! id = Some m -> is_Some (a_leases (o_abs o) !! lm_lease m) ->
  (forall s l, inv s -> healthy s -> a_leases (o_abs o) !! lm_lease m = Some l ->
     abs s = a_with_leases (<[lm_lease m := mkLease (l_ttl l) (i64_add now (l_ttl l))]> (a_leases (o_abs o))) (o_abs o) ->
     Q (Ok (i64_add now (l_ttl l))) (set_store s o)) ->
  wp (keepalive now id) o Q.
Proof.
  intros [Hi Hh] Hm Hl HQ. unfold keepalive. apply wp_bind. unfold wp at 1, ask. cbn [fst snd]. rewrite Hm.
  apply wp_on_store, wp_text. eapply wp_meets_healthy; [apply keepalive_meets|done|done| |].
  - intros exp s Hi' Hh' (l & Hl' & -> & Ha). by apply (HQ s l).
  - intros i s _ _ (_ & Hn & _). unfold o_abs in Hl. rewrite Hn in Hl. by destruct Hl.
Qed.

Lemma keepalive_links (o : O) s l y :
  linked o -> is_Some (a_leases (o_abs o) !! l) ->
  abs s = a_with_leases (<[l := y]> (a_leases (o_abs o))) (o_abs o) -> linked (set_store s o).
Proof.
  intros Hlk Hl Ha. assert (o_abs (set_store s o) = a_with_leases (<[l := y]> (a_leases (o_abs o))) (o_abs o)) as Hab by exact Ha.
  split; rewrite ?Hab; simpl.
  - apply (lk_id o Hlk).
  - apply (lk_meta o Hlk).
  - intros id m Hm. destruct (decide (lm_lease m = l)) as [->|Hn]; [rewrite lookup_insert_eq; by eexists|].
    rewrite lookup_insert_ne by done. by apply (lk_lease o Hlk id).
  - apply (lk_own o Hlk).
  - apply (lk_inj o Hlk).
Qed.

(** A run of keepalives of one sandbox. *)
Definition keepalives (id : string) (times : list Z) : M O string unit :=
  mfor times (fun t => let? _ := keepalive t id in mret tt).

Lemma keepalives_run id m times (o : O) :
  o_ready o -> linked o -> tracked o -> o_live o !! id = Some m ->
  wp (keepalives id times) o (fun r o' => r = Ok tt /\ o_ready o' /\ linked o' /\ tracked o' /\ o_live o' = o_live o).
Proof.
  revert o; induction times as [|t ts IH]; intros o Hr Hlk Ht Hm; unfold keepalives; cbn [mfor]; [by apply wp_ret|].
  apply wp_bind, wp_bind. destruct (lk_lease o Hlk id m Hm) as [x Hx].
  eapply wp_keepalive; [done|done|by eexists|]. intros s l Hi Hh Hl Ha. apply wp_ret.
  apply (IH (set_store s o)); [by split| |exact Ht|exact Hm]. eapply keepalive_links; [done|by eexists|exact Ha].
Qed.
End Lemmas.

(**  creation.  When the store answers and the chosen backend creates an
    instance, [create_in] succeeds: the sandbox is in the table under a lease that
    is new and expires after its idle limit, its hard limit is the saturating sum
    of the creation time and its time to live, its metadata, state and (in a
    cluster) ownership keys are written under that lease, no key of another
    sandbox changes, and the links between table, keys and leases hold of the new
    state. *)
Theorem create_registers {S B : Type} `{StoreLaws S} `{BackendLaws B} `{SerdeJson}
    (host : Host) (now : Z) (template t : string) (spec : SandboxSpec) (idx : nat) (b b' : B) (bc : BackendCreate) (o : Orch S B) :
  o_ready o -> linked o -> is_dir host template = true -> abspath host template = Ok t ->
  select_backend spec o = (Ok idx, o) -> o_backends o !! idx = Some b -> b_create t spec b = (Ok bc, b') ->
  good_id (bc_id bc) -> unused_id (bc_id bc) (o_abs o) -> o_live o !! bc_id bc = None ->
  exists lease o',
    create_in host now template spec o = (Ok (outcome_of bc None), o') /\ linked o' /\
    o_live o' = <[bc_id bc := mkLive lease (i64_saturating_add now (sp_ttl_secs spec)) idx]> (o_live o) /\
    a_leases (o_abs o) !! lease = None /\
    a_leases (o_abs o') = <[lease := mkLease (sp_idle_secs spec) (i64_add now (sp_idle_secs spec))]> (a_leases (o_abs o)) /\
    (exists kv, a_kv (o_abs o') !! meta_key (bc_id bc) = Some kv /\ kv_lease kv = Some lease) /\
    (exists kv, a_kv (o_abs o') !! state_key (bc_id bc) = Some kv /\ kv_lease kv = Some lease /\ kv_value kv = "running"%string) /\
    (forall n, o_node_id o = Some n ->
       exists kv, a_kv (o_abs o') !! sandbox_node_key (bc_id bc) = Some kv /\ kv_lease kv = Some lease /\ kv_value kv = n) /\
    (forall k, sandbox_id_of_key k <> Some (bc_id bc) -> a_kv (o_abs o') !! k = a_kv (o_abs o) !! k).
Proof.
  intros Hr Hlk Hd Ha Hs Hb Hc Hg Hun Hn.
  pose proof (wp_create_in host now template t spec idx b bc b' o
    (fun r o' => exists lease, r = Ok (outcome_of bc None) /\ a_leases (o_abs o) !! lease = None /\
       o_abs o' = register_abs host now (bc_id bc) spec t (o_node_id o) lease (o_abs o) /\
       o_live o' = <[bc_id bc := mkLive lease (compute_ttl_deadline now (sp_ttl_secs spec)) idx]> (o_live o))
    Hr Hd Ha Hs Hb Hc) as G.
  destruct G as (lease & Hres & Hf & Habs & Hl); [intros lease o' _ Hf Habs Hl _; by exists lease|].
  destruct (create_in host now template spec o) as [r o'] eqn:E. simpl in *. subst r. exists lease, o'.
  destruct (register_abs_spec host now (bc_id bc) spec t (o_node_id o) lease (o_abs o) Hg) as ([HL HK] & (kv & Hm & Hml & _) & Hst & Hnode).
  rewrite <- Habs in *. split; [done|]. split; [by eapply register_links|]. do 3 (split; [done|]). split; [by exists kv|].
  do 2 (split; [done|]). intros k Hk. destruct (HK k) as [->|[Hx _]]; done.
Qed.


(**  destruction leaves no residue.  On a store that answers, destroying a
    sandbox removes it from the table and its instance from every backend, ends
    its lease, and removes exactly the keys attached to that lease, which it
    returns; nothing else changes.  An id that is not in the table is an error
    that changes nothing. *)
Theorem destroy_no_residue {S B : Type} `{StoreLaws S} `{BackendLaws B} `{SerdeJson} (id : string) (o : Orch S B) :
  o_ready o -> tracked o ->
  match o_live o !! id with
  | None => destroy id o = (Err (unknown_sandbox id), o)
  | Some m => exists ks o', destroy id o = (Ok ks, o') /\
      o_live o' = base.delete id (o_live o) /\
      (forall i b, o_backends o' !! i = Some b -> id ∉ instances b) /\
      (forall k, In k ks <-> reaped (SelId (lm_lease m)) (o_abs o) k) /\
      minus (fun l => l = lm_lease m) (o_abs o) (o_abs o')
  end.
Proof.
  intros Hr Ht. destruct (o_live o !! id) as [m|] eqn:Em.
  - pose proof (wp_destroy id m o (fun r o' => exists ks, r = Ok ks /\ tracked o' /\ o_live o' = base.delete id (o_live o) /\
      reap_post (o_abs o) (SelId (lm_lease m)) (Ok ks) (o_abs o')) Hr Ht Em) as G.
    destruct G as (ks & Hres & Ht' & Hl & Hp); [intros ks o' _ Ht' Hl _ Hp; by exists ks|].
    destruct (destroy id o) as [r o'] eqn:E. simpl in *. subst r. exists ks, o'. split; [done|]. split; [done|]. split; [|split].
    + intros i b Hb Hin. destruct Ht' as [_ Hc]. destruct (Hc i b id Hb Hin) as [[]|(m' & Hm' & _)].
      rewrite Hl, lookup_delete_eq in Hm'. done.
    + by destruct Hp as (_ & Hks & _).
    + eapply minus_ext; [|by eapply reap_minus]. intros l [x Hx]. simpl. split.
      * intros (y & _ & Hy). by bool_prop.
      * intros ->. exists x. split; [done|]. apply Z.eqb_refl.
  - unfold destroy, mbind, take_live, mfail. rewrite Em, (delete_id _ _ Em). by destruct o.
Qed.

(**  a keepalive cannot carry a sandbox past its hard limit.  On a store that
    answers, however many keepalives a sandbox gets and whenever they come, a turn
    of the reaper at or after its hard limit removes it from the table and its
    instance from every backend. *)
Theorem keepalive_cannot_pass_ttl {S B : Type} `{StoreLaws S} `{BackendLaws B} `{SerdeJson}
    (iter : gmap string LiveMeta -> list (string * LiveMeta)) (times : list Z) (now : Z) (id : string) (m : LiveMeta) (o : Orch S B) :
  o_ready o -> tracked o -> linked o -> iterates iter -> o_live o !! id = Some m -> lm_ttl_deadline m <= now ->
  exists o1 reaped o2,
    keepalives id times o = (Ok tt, o1) /\ tick iter now o1 = (Ok reaped, o2) /\ In id reaped /\
    o_live o2 !! id = None /\ forall i b, o_backends o2 !! i = Some b -> id ∉ instances b.
Proof.
  intros Hr Ht Hlk Hit Hm Hd. pose proof (keepalives_run id m times o Hr Hlk Ht Hm) as G. unfold wp in G.
  destruct (keepalives id times o) as [r o1]. simpl in G. destruct G as (-> & Hr1 & Hlk1 & Ht1 & Hl1).
  pose proof (wp_tick iter now o1 Hr1 Ht1 Hlk1 Hit) as G. unfold wp in G.
  destruct (tick iter now o1) as [r o2] eqn:Et. simpl in G. destruct G as (reaped & -> & _ & [_ Hc] & Hlive & Hreap & _).
  assert (forall m', o_live o1 !! id = Some m' -> ~ survives (o_abs o1) now m') as Hns.
  { intros m' Hm' [Hlt _]. rewrite Hl1 in Hm'. assert (m' = m) as -> by congruence. lia. }
  assert (o_live o2 !! id = None) as Hgone.
  { destruct (o_live o2 !! id) as [m'|] eqn:E; [|done]. apply Hlive in E as [E Hs]. by apply Hns in E. }
  exists o1, reaped, o2. do 2 (split; [done|]). split; [apply Hreap; exists m; rewrite Hl1; split; [done|]; apply Hns; by rewrite Hl1|].
  split; [done|]. intros i b Hb Hin. destruct (Hc i b id Hb Hin) as [[]|(m' & Hm' & _)]. congruence.
Qed.

(** ** Witnesses *)

Import RefJson RefBackend.

Lemma an_orch_ok : o_ready an_orch /\ linked an_orch /\ tracked an_orch.
Proof.
  split; [apply store_after_inv|]. split.
  - split; intros *; intros Hl; exfalso; vm_compute in Hl; discriminate Hl.
  - apply started_tracked. split; [reflexivity|]. intros [|i] b [= <-]. reflexivity.
Qed.

Lemma i0_fresh : good_id "i0" /\ unused_id "i0" (o_abs an_orch) /\ o_live an_orch !! "i0"%string = None.
Proof.
  split; [by split|]. split; [|vm_compute; reflexivity]. intros k kv l Hk _ _.
  assert (a_kv (o_abs an_orch) = ∅) as He by (vm_compute; reflexivity). rewrite He, lookup_empty in Hk. discriminate Hk.
Qed.

Definition first_bc : BackendCreate := mkBc "i0" "machine" "" "" 0 0 0 0 0 false false.
Definition ref0 : Ref := mkRef "fc" (caps_with [PauseResume; SnapshotFork]) 0 ∅.
Definition ref1 : Ref := mkRef "fc" (caps_with [PauseResume; SnapshotFork]) 1 ({["i0"%string]} ∪ ∅).

Lemma create_registers_witness :
  exists lease o', create_in a_host 1000 "/tpl" default_spec an_orch = (Ok (outcome_of first_bc None), o') /\
    o_live o' = <["i0"%string := mkLive lease 1300 0]> (o_live an_orch).
Proof.
  destruct an_orch_ok as (Hr & Hlk & _). destruct i0_fresh as (Hg & Hun & Hn).
  destruct (create_registers a_host 1000 "/tpl" "/tpl" default_spec 0 ref0 ref1 first_bc an_orch Hr Hlk eq_refl eq_refl)
    as (lease & o' & H1 & _ & H2 & _); [vm_compute; reflexivity|reflexivity|vm_compute; reflexivity|exact Hg|exact Hun|exact Hn|].
  exists lease, o'. split; [exact H1|exact H2].
Defined.

Lemma one_sandbox_ok :
  o_ready one_sandbox /\ linked one_sandbox /\ tracked one_sandbox /\
  exists lease, o_live one_sandbox !! "i0"%string = Some (mkLive lease 1300 0).
Proof.
  destruct an_orch_ok as (Hr & Hlk & Ht). destruct i0_fresh as (Hg & Hun & Hn).
  pose proof (wp_create_in a_host 1000 "/tpl" "/tpl" default_spec 0 ref0 first_bc ref1 an_orch
    (fun _ o' => o_ready o' /\ linked o' /\ exists lease, o_live o' !! "i0"%string = Some (mkLive lease 1300 0)) Hr eq_refl eq_refl) as G.
  unfold wp in G. fold one_sandbox in G.
  destruct G as (G1 & G2 & G3); [vm_compute; reflexivity|reflexivity|vm_compute; reflexivity| |].
  - intros lease o' Hr' Hf Habs Hl _. split; [exact Hr'|]. split.
    + exact (register_links a_host 1000 "i0" default_spec "/tpl" lease _ 0 an_orch o' Hlk Hg Hun Hf Habs Hl Hn).
    + exists lease. rewrite Hl. apply lookup_insert_eq.
  - split; [exact G1|]. split; [exact G2|]. split; [|exact G3].
    apply (create_in_keeps a_host 1000 "/tpl" default_spec an_orch); [|exact Ht]. intros t _ i b bc _ _. apply lookup_empty.
Qed.


Lemma destroy_no_residue_witness :
  exists ks o', destroy "i0" one_sandbox = (Ok ks, o') /\ In (meta_key "i0") ks.
Proof.
  destruct one_sandbox_ok as (Hr & Hlk & Ht & lease & Hl).
  pose proof (destroy_no_residue "i0" one_sandbox Hr Ht) as G. rewrite Hl in G. destruct G as (ks & o' & H1 & _ & _ & H2 & _).
  exists ks, o'. split; [exact H1|]. apply H2. destruct (lk_meta _ Hlk _ _ Hl) as (kv & Hkv & Hle).
  destruct (lk_lease _ Hlk _ _ Hl) as [x Hx]. exists kv, lease, x. do 3 (split; [assumption|]). apply Z.eqb_refl.
Defined.

Lemma keepalive_cannot_pass_ttl_witness :
  exists o1 reaped o2, keepalives "i0" [1100; 1250; 1299] one_sandbox = (Ok tt, o1) /\
    tick map_to_list 1300 o1 = (Ok reaped, o2) /\ o_live o2 !! "i0"%string = None.
Proof.
  destruct one_sandbox_ok as (Hr & Hlk & Ht & lease & Hl).
  destruct (keepalive_cannot_pass_ttl map_to_list [1100; 1250; 1299] 1300 "i0" _ one_sandbox Hr Ht Hlk (fun m => Permutation_refl _) Hl (Z.le_refl 1300))
    as (o1 & reaped & o2 & H1 & H2 & _ & H3 & _).
  exists o1, reaped, o2. exact (conj H1 (conj H2 H3)).
Defined.
