(* ===== verification/OrchTenancy.v ===== *)
(** * Capability gating, tenancy and snapshot keys

    What the orchestrator promises to tenants: a capability that the backend does
    not have is refused before anything happens, a project sees its own sandboxes
    only, and all replicas use one key per project. *)

From Stdlib Require Import ZArith Lia Bool List String Ascii.
From stdpp Require Import base tactics list gmap strings sorting relations.
From S2P Require Import Prelude RustStr Utf8 Json Store Sqlite SqliteSpec StoreTheorems Cluster Quota Sched Retention AuditLog Proto Snapcrypt Backend Orch OrchSafety OrchReaper.

Open Scope Z_scope.

Section Lemmas.
Context {S B : Type} `{StoreLaws S} `{BackendLaws B} `{SerdeJson}.

Notation O := (Orch S B).

(** The backend a specification names, or the first one. *)
Definition chosen (spec : SandboxSpec) (o : O) : option nat :=
  match sp_backend spec with Some want => backend_position (o_backends o) want | None => Some 0%nat end.

(** The capabilities a specification asks for. *)
Definition asks (spec : SandboxSpec) (c : Capability) : Prop :=
  caps_contains (sp_required spec) c = true \/ (c = NetworkEgress /\ sp_network spec = Egress).

Lemma effective_asks spec c : caps_contains (effective_required spec) c = true <-> asks spec c.
Proof.
  unfold effective_required, asks. case_bool_decide as Hn.
  - rewrite contains_insert, orb_true_iff, bool_decide_eq_true. split; intros [Hc|Hc]; auto.
    by destruct Hc as [-> _]; right.
  - split; [auto|]. intros [Hc|[_ Hc]]; [done|congruence].
Qed.

Lemma empty_asks spec c : caps_is_empty (effective_required spec) = true -> ~ asks spec c.
Proof.
  unfold caps_is_empty. intros He Ha. apply effective_asks in Ha. bool_prop. rewrite He in Ha.
  rewrite contains_testbit, Z.bits_0 in Ha. done.
Qed.

Lemma select_backend_spec spec idx b (o : O) :
  chosen spec o = Some idx -> o_backends o !! idx = Some b ->
  (forall c, asks spec c -> caps_contains (b_capabilities b) c = true) /\ select_backend spec o = (Ok idx, o) \/
  (exists c e, asks spec c /\ caps_contains (b_capabilities b) c = false /\ select_backend spec o = (Err e, o) /\
     starts_with UNSUPPORTED_BY_BACKEND e = true).
Proof.
  intros Hc Hb. unfold select_backend. replace (match sp_backend spec with Some _ => _ | None => _ end) with (@Ok nat string idx).
  2:{ unfold chosen in Hc. destruct (sp_backend spec) as [w|]; [by rewrite Hc|congruence]. }
  destruct (caps_is_empty (effective_required spec)) eqn:Ee; cbn [negb].
  - left. split; [|done]. intros c Ha. by apply empty_asks in Ha.
  - rewrite Hb. destruct (missing_from _ _) as [|x l] eqn:Em.
    + left. split; [|done]. intros c Ha. apply (proj1 (missing_from_nil _ _) Em). by apply effective_asks.
    + right. assert (In x (missing_from (effective_required spec) (b_capabilities b))) as Hin by (rewrite Em; by left).
      pose proof Hin as Hin'. unfold missing_from in Hin'. apply in_map_iff in Hin' as (c & <- & _).
      apply missing_from_in in Hin as [H5 H6]. eexists c, _. split; [by apply effective_asks|]. split; [done|].
      split; [reflexivity|]. apply starts_with_app.
Qed.

Lemma create_in_refused host now template t spec e (o : O) :
  is_dir host template = true -> abspath host template = Ok t -> select_backend spec o = (Err e, o) ->
  create_in host now template spec o = (Err e, o).
Proof. intros Hd Ha Hs. unfold create_in. rewrite Hd, Ha. cbn [negb]. unfold mbind. by rewrite Hs. Qed.
End Lemmas.

(**  capabilities are checked at creation time.  Creation goes on to the
    backend exactly when the backend that the specification names (or the first
    one) offers every capability the specification asks for, network egress
    included; otherwise, and when there is no such backend, it returns the stable
    [UNSUPPORTED_BY_BACKEND] error and changes nothing: no instance, no lease, no
    key. *)
Theorem capability_gate {S B : Type} `{Store S} `{SandboxBackend B} `{SerdeJson}
    (host : Host) (now : Z) (template t : string) (spec : SandboxSpec) (o : Orch S B) :
  is_dir host template = true -> abspath host template = Ok t ->
  match chosen spec o with
  | None => exists e, create_in host now template spec o = (Err e, o) /\ starts_with UNSUPPORTED_BY_BACKEND e = true
  | Some idx => forall b, o_backends o !! idx = Some b ->
      ((forall c, asks spec c -> caps_contains (b_capabilities b) c = true) <-> select_backend spec o = (Ok idx, o)) /\
      ((exists c, asks spec c /\ caps_contains (b_capabilities b) c = false) ->
         exists e, create_in host now template spec o = (Err e, o) /\ starts_with UNSUPPORTED_BY_BACKEND e = true)
  end.
Proof.
  intros Hd Ha. destruct (chosen spec o) as [idx|] eqn:Ec.
  - intros b Hb. destruct (select_backend_spec spec idx b o Ec Hb) as [[Hall Hs]|(c & e & Hc & Hno & Hs & He)].
    + split; [done|]. intros (c & Hc & Hno). rewrite Hall in Hno; done.
    + split; [|intros _; exists e; split; [by eapply create_in_refused|done]].
      split; [intros Hall; rewrite Hall in Hno; done|rewrite Hs; intros [=]].
  - unfold chosen in Ec. destruct (sp_backend spec) as [w|] eqn:Ew; [|done].
    eexists. split; [eapply create_in_refused; [done|done|]|].
    + unfold select_backend. rewrite Ew, Ec. reflexivity.
    + apply starts_with_app.
Qed.

Import RefJson RefBackend.

Definition gpu_spec : SandboxSpec := mkSpec 2 512 300 300 [] (caps_with [GpuPassthrough]) None NoNetwork.

Lemma capability_gate_witness :
  exists e, create_in a_host 1000 "/tpl" gpu_spec an_orch = (Err e, an_orch) /\ starts_with UNSUPPORTED_BY_BACKEND e = true.
Proof.
  pose proof (capability_gate a_host 1000 "/tpl" "/tpl" gpu_spec an_orch eq_refl eq_refl) as G. cbn [chosen gpu_spec sp_backend] in G.
  specialize (G _ eq_refl). destruct G as [_ G]. apply G. exists GpuPassthrough. split; [left|]; reflexivity.
Defined.

(** ** Project isolation *)

Section Isolation.
Context {S B : Type} `{StoreLaws S} `{SandboxBackend B} `{SerdeJson}.

Lemma ends_with_true x s : ends_with x s = true <-> exists r, s = r ++s x.
Proof.
  unfold ends_with. destruct (strip_suffix x s) as [r|] eqn:E.
  - apply strip_suffix_some in E. split; [eauto|done].
  - split; [done|]. intros [r ->]. by rewrite strip_suffix_app in E.
Qed.

(** The listing reads the store and changes nothing. *)
Lemma wp_list_meta_for project (o : Orch S B) (Q : result (list string) string -> Orch S B -> Prop) :
  o_ready o ->
  (forall kvs o', o_abs o' = o_abs o -> o_ready o' -> lists (o_abs o) "sandbox/" kvs ->
     Q (Ok (map (fun kv => from_utf8_lossy (kv_value kv))
         (List.filter (shown_to (projects_of kvs) project) (List.filter (fun kv => ends_with "/meta" (kv_key kv)) kvs)))) o') ->
  wp (list_meta_for project) o Q.
Proof.
  intros [Hi Hh] HQ. unfold list_meta_for. apply wp_bind, wp_on_store, wp_text.
  eapply wp_meets_healthy; [apply list_meets|done|done| |intros i s' _ _ [_ []]].
  intros kvs s' Hi' Hh' [Ha Hl]. apply wp_ret. apply HQ; [exact Ha|by split|].
  apply Hl. apply (good_prefix_slash "sandbox"). by vm_compute.
Qed.

(** The metadata texts of a project's sandboxes. *)
Lemma shown_spec (a : AStore) kvs p kv :
  awf a -> lists a "sandbox/" kvs -> a_kv a !! sandbox_key "" "project" = None ->
  (In kv kvs /\ ends_with "/meta" (kv_key kv) = true /\ shown_to (projects_of kvs) (Some p) kv = true) <->
  exists id, a_kv a !! meta_key id = Some kv /\ project_of a id = Some p.
Proof.
  intros Hwf Hl Hnone. pose proof Hl as [Hs Hin]. pose proof (sorted_by_key_NoDup _ Hs) as Hnd.
  assert (forall id, projects_of kvs !! id = project_of a id) as Hp.
  { intros id. rewrite projects_of_lookup by done. rewrite (lists_find a "sandbox/" kvs _ Hwf Hl). unfold sandbox_key, project_of.
    by rewrite starts_with_app. }
  unfold shown_to. rewrite Hp. split.
  - intros (Hk & He & Hsh). apply Hin in Hk as [Hk Hpre].
    destruct (key_id "/meta" (kv_key kv)) as [id|] eqn:Eid; simpl in Hsh.
    + apply key_id_some in Eid. exists id. split; [unfold meta_key; by rewrite <- Eid|].
      destruct (project_of a id); [|done]. bool_prop. by subst.
    + unfold project_of in Hsh at 1. simpl in Hsh. rewrite Hnone in Hsh. done.
  - intros (id & Hk & Hpr). pose proof (awf_key a Hwf _ _ Hk) as Hkey. split; [|split].
    + apply Hin. rewrite Hkey. split; [done|]. unfold meta_key. apply starts_with_app.
    + apply ends_with_true. exists ("sandbox/" ++s id). rewrite Hkey. unfold meta_key. by rewrite app_assoc_s.
    + rewrite Hkey, (proj2 (key_id_some "/meta" (meta_key id) id) eq_refl). simpl. rewrite Hpr. apply String.eqb_refl.
Qed.
End Isolation.

(**  project isolation.  On a store that answers, listing the sandboxes of a
    project returns exactly the metadata of the sandboxes whose project key names
    that project: none of another project, and none without a project. *)
Theorem list_meta_isolated {S B : Type} `{StoreLaws S} `{SandboxBackend B} `{SerdeJson} (p : string) (o : Orch S B) :
  o_ready o -> a_kv (o_abs o) !! sandbox_key "" "project" = None ->
  exists out o', list_meta_for (Some p) o = (Ok out, o') /\ o_abs o' = o_abs o /\
    forall txt, In txt out <-> exists id kv, a_kv (o_abs o) !! meta_key id = Some kv /\
      project_of (o_abs o) id = Some p /\ txt = from_utf8_lossy (kv_value kv).
Proof.
  intros Hr Hnone. pose proof (wp_list_meta_for (Some p) o (fun r o' => exists kvs, o_abs o' = o_abs o /\ lists (o_abs o) "sandbox/" kvs /\
    r = Ok (map (fun kv => from_utf8_lossy (kv_value kv))
         (List.filter (shown_to (projects_of kvs) (Some p)) (List.filter (fun kv => ends_with "/meta" (kv_key kv)) kvs)))) Hr) as G.
  destruct G as (kvs & Ha & Hl & Hres); [intros kvs o' Ha _ Hl; by exists kvs|].
  destruct (list_meta_for (Some p) o) as [r o'] eqn:E. simpl in *. subst r. eexists _, o'. split; [reflexivity|]. split; [done|].
  assert (awf (o_abs o)) as Hwf by (apply inv_awf, Hr).
  intros txt. rewrite in_map_iff. split.
  - intros (kv & <- & Hin). apply filter_In in Hin as [Hin Hs]. apply filter_In in Hin as [Hin He].
    destruct (proj1 (shown_spec (o_abs o) kvs p kv Hwf Hl Hnone)) as (id & Hk & Hp); [done|]. by exists id, kv.
  - intros (id & kv & Hk & Hp & ->). exists kv. split; [done|].
    destruct (proj2 (shown_spec (o_abs o) kvs p kv Hwf Hl Hnone)) as (H4 & H5 & H6); [by exists id|].
    apply filter_In. split; [|done]. by apply filter_In.
Qed.

(** Two tenants and a sandbox without a project. *)
Definition shared_orch : Orch SqliteStore Ref :=
  set_store (store_after [OPut "sandbox/a/meta" "A" None; OPut "sandbox/a/project" "p" None;
                          OPut "sandbox/b/meta" "B" None; OPut "sandbox/b/project" "q" None;
                          OPut "sandbox/c/meta" "C" None]) an_orch.

Lemma list_meta_isolated_witness :
  exists out o', list_meta_for (Some "p"%string) shared_orch = (Ok out, o') /\ In "A"%string out.
Proof.
  destruct (list_meta_isolated "p" shared_orch) as (out & o' & H1 & _ & H2).
  - apply store_after_inv.
  - vm_compute. reflexivity.
  - exists out, o'. split; [exact H1|]. apply H2. exists "a"%string. eexists. split; [vm_compute; reflexivity|].
    split; [vm_compute; reflexivity|reflexivity].
Defined.

(** ** One key per project *)

Section Keys.
Context {S B : Type} `{StoreLaws S} `{SandboxBackend B} `{SerdeJson}.

Notation O := (Orch S B).

(** The project a sandbox's snapshots are sealed for. *)
Definition key_project (a : AStore) (id : string) : string := default "default"%string (project_of a id).

(** Methods that keep the representation and, on success, relate the stores. *)
Lemma get_run k (o o' : O) v :
  inv (o_store o) -> on_store (text (get k)) o = (Ok v, o') ->
  v = a_kv (o_abs o) !! k /\ exists s, o' = set_store s o /\ inv s /\ abs s = o_abs o.
Proof.
  intros Hi. unfold on_store, text. pose proof (get_meets k (o_store o) Hi) as G.
  destruct (get k (o_store o)) as [r s]. destruct G as (Hi' & [Ha Hr] & _).
  destruct r as [v'|e]; intros [= <- <-]. split; [exact Hr|]. exists s. done.
Qed.

Lemma get_total k (o : O) :
  o_ready o -> exists s, on_store (text (get k)) o = (Ok (a_kv (o_abs o) !! k), set_store s o) /\ inv s /\ healthy s /\ abs s = o_abs o.
Proof.
  intros [Hi Hh]. unfold on_store, text. pose proof (get_meets k (o_store o) Hi) as G.
  destruct (get k (o_store o)) as [r s]. destruct G as (Hi' & [Ha Hr] & Hb). destruct (Hb Hh) as [Hh' Hn].
  exists s. destruct r as [v|[e|i]]; [|exfalso; apply Hn; by eexists|done]. simpl. subst v. done.
Qed.

Lemma sandbox_project_run id (o o' : O) p :
  inv (o_store o) -> sandbox_project id o = (Ok p, o') ->
  p = project_of (o_abs o) id /\ exists s, o' = set_store s o /\ inv s /\ abs s = o_abs o.
Proof.
  intros Hi. unfold sandbox_project, mbind.
  destruct (on_store (text (get (project_key id))) o) as [[v|e] o1] eqn:E; [|done].
  apply get_run in E as (-> & Hs); [|done]. intros [= <- <-]. done.
Qed.

Lemma sandbox_project_total id (o : O) :
  o_ready o -> exists s, sandbox_project id o = (Ok (project_of (o_abs o) id), set_store s o) /\ inv s /\ healthy s /\ abs s = o_abs o.
Proof.
  intros Hr. unfold sandbox_project, mbind. destruct (get_total (project_key id) o Hr) as (s & -> & Hs). exists s. split; [reflexivity|exact Hs].
Qed.

(** The stored key that a successful call answers with. *)
Definition holds (kms : Kms) (project : string) (kek : Key) (a : AStore) : Prop :=
  exists kv, a_kv a !! kek_key project = Some kv /\ kms_unwrap kms (kv_value kv) = Ok kek.

Lemma snap_key_stored kms fresh nonce id (o o' : O) k :
  inv (o_store o) -> o_kms o = Some kms ->
  (forall w, kms_wrap kms nonce fresh = Ok w -> kms_unwrap kms w = Ok fresh) ->
  snap_key_for fresh nonce id o = (Ok (Some k), o') ->
  sk_kek_id k = key_project (o_abs o) id /\ holds kms (sk_kek_id k) (sk_kek k) (o_abs o') /\
  (is_Some (a_kv (o_abs o) !! kek_key (sk_kek_id k)) -> o_abs o' = o_abs o).
Proof.
  intros Hi Hk Hw. unfold snap_key_for, mbind at 1, ask. rewrite Hk. unfold mbind at 1.
  destruct (sandbox_project id o) as [[p|e] o1] eqn:Ep; [|done].
  apply sandbox_project_run in Ep as (-> & s1 & -> & Hi1 & Ha1); [|done]. unfold mbind at 1.
  fold (key_project (o_abs o) id). set (P := key_project (o_abs o) id).
  destruct (on_store (text (get (kek_key P))) (set_store s1 o)) as [[v|e] o2] eqn:Eg; [|done].
  apply get_run in Eg as (Hv & s2 & -> & Hi2 & Ha2); [|done].
  assert (o_abs (set_store s1 o) = o_abs o) as Hab by exact Ha1. rewrite Hab in *.
  destruct v as [kv|].
  - unfold mbind, of_result. destruct (kms_unwrap kms (kv_value kv)) as [kek|e] eqn:Eu; [|done].
    intros [= <- <-]. simpl. split; [done|]. split; [exists kv; unfold o_abs; simpl; rewrite Ha2; done|]. intros _. exact Ha2.
  - unfold mbind at 1, of_result. destruct (kms_wrap kms nonce fresh) as [w|e] eqn:Ew; [|done]. cbn [mret]. unfold mbind at 1.
    unfold on_store at 1, text at 1. pose proof (cas_meets (kek_key P) None w None s2 Hi2) as G. cbn [o_store set_store].
    destruct (compare_and_swap (kek_key P) None w None s2) as [r s3]. destruct G as (Hi3 & G & _).
    destruct r as [c|e]; [|done]. cbn [err_text]. destruct G as (Hc1 & _ & _ & Ha3). rewrite Ha2 in *.
    assert (cas_succeeded c = true) as Hc by (rewrite Hc1, <- Hv; by apply bool_decide_eq_true). rewrite Hc in *.
    intros [= <- <-]. simpl. split; [done|]. split.
    + eexists. unfold o_abs. simpl. rewrite Ha3, a_write_kv, decide_True by done. split; [reflexivity|]. by apply Hw.
    + rewrite <- Hv. by intros [? ?].
Qed.

(** Another replica, on a store that has the project's key, answers with it. *)
Lemma snap_key_agrees kms fresh nonce id project kek (o : O) :
  o_ready o -> o_kms o = Some kms -> key_project (o_abs o) id = project -> holds kms project kek (o_abs o) ->
  exists s, snap_key_for fresh nonce id o = (Ok (Some (mkSnapKey kek project)), set_store s o) /\ abs s = o_abs o.
Proof.
  intros Hr Hk <- (kv & Hkv & Hu). unfold snap_key_for, mbind at 1, ask. rewrite Hk. unfold mbind at 1.
  destruct (sandbox_project_total id o Hr) as (s1 & -> & Hi1 & Hh1 & Ha1).
  fold (key_project (o_abs o) id). unfold mbind at 1.
  destruct (get_total (kek_key (key_project (o_abs o) id)) (set_store s1 o)) as (s2 & -> & Hi2 & Hh2 & Ha2); [by split|].
  assert (o_abs (set_store s1 o) = o_abs o) as Hab by exact Ha1. rewrite Hab in *.
  rewrite Hkv. unfold mbind, of_result. rewrite Hu. by exists s2.
Qed.
End Keys.

(**  replicas agree on a project's key.  When a snapshot operation obtains a
    key, it is the key that the store holds, wrapped, for the sandbox's project
    (an existing one is used as it is, a missing one is created by
    compare-and-swap); and any replica with the same root key that later looks up
    a sandbox of the project, while the store still holds that value, obtains the
    same key, whatever random key it drew itself. *)
Theorem tenant_key_agreed {S B : Type} `{StoreLaws S} `{SandboxBackend B} `{SerdeJson}
    (kms : Kms) (fresh nonce id : string) (k : SnapKey) (o o' : Orch S B) :
  inv (o_store o) -> o_kms o = Some kms ->
  (forall w, kms_wrap kms nonce fresh = Ok w -> kms_unwrap kms w = Ok fresh) ->
  snap_key_for fresh nonce id o = (Ok (Some k), o') ->
  sk_kek_id k = key_project (o_abs o) id /\ holds kms (sk_kek_id k) (sk_kek k) (o_abs o') /\
  (is_Some (a_kv (o_abs o) !! kek_key (sk_kek_id k)) -> o_abs o' = o_abs o) /\
  forall fresh2 nonce2 id2 (o2 : Orch S B),
    o_ready o2 -> o_kms o2 = Some kms -> key_project (o_abs o2) id2 = sk_kek_id k ->
    kv_value <$> a_kv (o_abs o2) !! kek_key (sk_kek_id k) = kv_value <$> a_kv (o_abs o') !! kek_key (sk_kek_id k) ->
    exists o3, snap_key_for fresh2 nonce2 id2 o2 = (Ok (Some k), o3) /\ o_abs o3 = o_abs o2.
Proof.
  intros Hi Hk Hw Hrun. destruct (snap_key_stored kms fresh nonce id o o' k Hi Hk Hw Hrun) as (Hp & Hh & Hs).
  do 3 (split; [done|]). intros fresh2 nonce2 id2 o2 Hr2 Hk2 Hp2 Hv. destruct Hh as (kv & Hkv & Hu). rewrite Hkv in Hv.
  destruct (a_kv (o_abs o2) !! kek_key (sk_kek_id k)) as [kv2|] eqn:E2; [|done]. simpl in Hv. injection Hv as Hv.
  destruct (snap_key_agrees kms fresh2 nonce2 id2 (sk_kek_id k) (sk_kek k) o2 Hr2 Hk2 Hp2) as (s & Hr & Ha).
  { exists kv2. split; [done|]. by rewrite Hv. }
  exists (set_store s o2). split; [by destruct k|exact Ha].
Qed.

Import RefAead.

Definition keyed_orch : Orch SqliteStore Ref :=
  mkOrch (store_after []) [] "/tpl" ∅ None (Some (file_kms a_key)).

(** Another replica, on the store as the first one left it. *)
Definition other_orch : Orch SqliteStore Ref :=
  mkOrch (store_after [OPut "kek/default" (seal_blob a_nonce a_key a_key KEK_AAD) None]) [] "/tpl" ∅ None (Some (file_kms a_key)).

Definition other_key : string := "ffffffffffffffffffffffffffffffff".

(** The two replicas draw different keys and use the same. *)
Lemma tenant_key_agreed_witness :
  exists k o' o3, snap_key_for a_key a_nonce "s1" keyed_orch = (Ok (Some k), o') /\
    snap_key_for other_key a_nonce "s2" other_orch = (Ok (Some k), o3).
Proof.
  assert ((snap_key_for a_key a_nonce "s1" keyed_orch).1 = Ok (Some (mkSnapKey a_key "default"))) as E1 by (vm_compute; reflexivity).
  assert (snap_key_for a_key a_nonce "s1" keyed_orch =
    (Ok (Some (mkSnapKey a_key "default")), (snap_key_for a_key a_nonce "s1" keyed_orch).2)) as E
    by (rewrite <- E1; apply surjective_pairing).
  assert (forall w, kms_wrap (file_kms a_key) a_nonce a_key = Ok w -> kms_unwrap (file_kms a_key) w = Ok a_key) as Hw.
  { intros w Hw. apply (f_equal (fun r => match r with Ok x => x | Err _ => ""%string end)) in Hw. subst w. vm_compute. reflexivity. }
  assert (inv (o_store keyed_orch)) as Hi by apply store_after_inv.
  assert (o_ready other_orch) as Hr by apply store_after_inv.
  assert (key_project (o_abs other_orch) "s2" = "default"%string) as Hp by (vm_compute; reflexivity).
  assert (kv_value <$> a_kv (o_abs other_orch) !! kek_key "default" =
          kv_value <$> a_kv (o_abs (snap_key_for a_key a_nonce "s1" keyed_orch).2) !! kek_key "default") as Hv by (vm_compute; reflexivity).
  assert (o_kms keyed_orch = Some (file_kms a_key)) as Hk by reflexivity.
  assert (o_kms other_orch = Some (file_kms a_key)) as Hk2 by reflexivity.
  pose proof (tenant_key_agreed (file_kms a_key) a_key a_nonce "s1" (mkSnapKey a_key "default") keyed_orch
    (snap_key_for a_key a_nonce "s1" keyed_orch).2 Hi Hk Hw E) as (_ & _ & _ & G).
  destruct (G other_key a_nonce "s2"%string other_orch Hr Hk2 Hp Hv) as (o3 & H3 & _).
  exists (mkSnapKey a_key "default"), (snap_key_for a_key a_nonce "s1" keyed_orch).2, o3. exact (conj E H3).
Defined.
