(* ===== verification/OrchPause.v ===== *)
(** * Pausing and resuming

    The gates of [pause], what it records, and what [resume] records. *)

From Stdlib Require Import ZArith Lia Bool List String Ascii.
From stdpp Require Import base tactics list gmap strings sorting relations.
From S2P Require Import Prelude RustStr Utf8 Json Store Sqlite SqliteSpec StoreTheorems Cluster Quota Sched Retention AuditLog Proto Snapcrypt Backend Orch OrchSafety OrchReaper OrchClaims OrchTenancy.

Open Scope Z_scope.

(** The storage a snapshot of the sandbox is estimated at. *)
Definition snapshot_mib `{SerdeJson} (a : AStore) (id : string) : Z :=
  match a_kv a !! meta_key id with
  | Some kv => match from_slice (kv_value kv) with
               | Some v => default 0 (match vget v "mem_mib" with Some x => vas_u64 x | None => None end)
               | None => 0
               end
  | None => 0
  end.

(** What [pause] records. *)
Definition pause_abs (now : Z) (id : string) (lease : option Z) (size : Z) (a : AStore) : AStore :=
  a_write (sandbox_key id "size") (dec size) lease
    (a_write (retain_key id) (dec (i64_add now DEFAULT_RETENTION_SECS)) lease
      (a_write (state_key id) "paused" lease a)).

Section Pause.
Context {S B : Type} `{StoreLaws S} `{SandboxBackend B} `{SerdeJson}.

Notation O := (Orch S B).

(** A write without a lease, or under one that exists, succeeds. *)
Lemma put_total k v l (s : S) :
  inv s -> healthy s -> (forall i, l = Some i -> is_Some (a_leases (abs s) !! i)) ->
  exists rev s', put k v l s = (Ok rev, s') /\ inv s' /\ healthy s' /\ abs s' = a_write k v l (abs s).
Proof.
  intros Hi Hh Hl. pose proof (put_meets k v l s Hi) as G. destruct (put k v l s) as [r s']. destruct G as (Hi' & G & Hb).
  destruct (Hb Hh) as [Hh' Hn]. destruct r as [rev|[e|i]]; [|exfalso; apply Hn; by eexists|].
  - destruct G as (_ & Ha & _). by exists rev, s'.
  - destruct G as (-> & Hx & _). destruct (Hl i eq_refl) as [x Hx']. congruence.
Qed.

(** A sequence of reads leaves an equivalent store. *)
Definition same_abs (o o' : O) : Prop := exists s, o' = set_store s o /\ inv s /\ healthy s /\ abs s = o_abs o.

Lemma mem_total id (o : O) :
  o_ready o -> exists v o', sandbox_mem_mib id o = (Ok v, o') /\ same_abs o o' /\ default 0 v = snapshot_mib (o_abs o) id.
Proof.
  intros Hr. unfold sandbox_mem_mib, mbind, mtry. destruct (get_total (meta_key id) o Hr) as (s & -> & Hi & Hh & Ha).
  eexists _, (set_store s o). split; [reflexivity|]. split; [by exists s|]. unfold snapshot_mib.
  destruct (a_kv (o_abs o) !! meta_key id) as [kv|]; [|done]. by destruct (from_slice (kv_value kv)).
Qed.
End Pause.

Section PauseProofs.
Context {S B : Type} `{StoreLaws S} `{SandboxBackend B} `{SerdeJsonLaws}.

Notation O := (Orch S B).

(** The project's limits leave room for the snapshot. *)
Definition pause_allowed (a : AStore) (id : string) : Prop :=
  forall p lim, project_of a id = Some p -> limits_spec a p = Some lim ->
    within lim (uplus (usage_spec a p) (mkUsage 1 0 0 (snapshot_mib a id))).

Definition usage_fits (a : AStore) (id : string) : Prop :=
  forall p, project_of a id = Some p ->
    u_in_u64 (usage_spec a p) /\ u_in_u64 (uplus (usage_spec a p) (mkUsage 1 0 0 (snapshot_mib a id))).

(** The part of [pause] before the snapshot: the gates. *)
Definition quota_gate (id : string) (size : Z) : M O string unit :=
  let? project := sandbox_project id in
  match project with Some p => on_store (check p 0 0 size) | None => mret tt end.

Lemma quota_gate_spec id (o : O) :
  o_ready o -> usage_fits (o_abs o) id ->
  exists r o', quota_gate id (snapshot_mib (o_abs o) id) o = (r, o') /\ same_abs o o' /\
    (r = Ok tt /\ pause_allowed (o_abs o) id \/
     exists e, r = Err e /\ starts_with QUOTA_EXCEEDED e = true /\ ~ pause_allowed (o_abs o) id).
Proof.
  intros Hr Hu. unfold quota_gate, mbind. destruct (sandbox_project_total id o Hr) as (s1 & -> & Hi1 & Hh1 & Ha1).
  destruct (project_of (o_abs o) id) as [p|] eqn:Ep.
  - destruct (Hu p Ep) as [U1 U2]. rewrite <- Ha1 in U1, U2.
    pose proof (check_wp s1 p 0 0 (snapshot_mib (abs s1) id) Hi1 Hh1 (limits_nonneg (abs s1) p) U1 U2) as G.
    unfold wp in G. unfold on_store. cbn [o_store set_store]. rewrite <- Ha1. destruct (check p 0 0 (snapshot_mib (abs s1) id) s1) as [r s2].
    simpl in G. destruct G as (Hi2 & Hh2 & Ha2 & Hv). exists r, (set_store s2 o). split; [done|].
    split; [exists s2; do 3 (split; [done|]); congruence|]. rewrite Ha1 in *. unfold check_verdict in Hv. destruct (limits_spec (o_abs o) p) as [lim|] eqn:El.
    + destruct Hv as [[-> Hw]|(e & -> & He & Hw)].
      * left. split; [done|]. intros p' lim' Hp' Hl'. assert (p' = p) as -> by congruence. assert (lim' = lim) as -> by congruence. exact Hw.
      * right. exists e. do 2 (split; [done|]). intros Hal. apply Hw. by apply (Hal p lim).
    + left. split; [done|]. intros p' lim' Hp' Hl'. congruence.
  - exists (Ok tt), (set_store s1 o). split; [done|]. split; [by exists s1|]. left. split; [done|]. intros p lim. congruence.
Qed.

Lemma ignore_put k v l (o : O) :
  o_ready o -> (forall i, l = Some i -> is_Some (a_leases (o_abs o) !! i)) ->
  exists s, ignore (on_store (text (put k v l))) o = (Ok tt, set_store s o) /\ inv s /\ healthy s /\ abs s = a_write k v l (o_abs o).
Proof.
  intros [Hi Hh] Hl. destruct (put_total k v l (o_store o) Hi Hh Hl) as (rev & s & Hp & Hs).
  exists s. unfold ignore, mbind, mtry, on_store, text. rewrite Hp. split; [done|exact Hs].
Qed.

(** [set_retention] and [set_size] are writes. *)
Lemma ignore_put_unit k v l (o : O) :
  o_ready o -> (forall i, l = Some i -> is_Some (a_leases (o_abs o) !! i)) ->
  exists s, ignore (on_store (let? _ := text (put k v l) in mret tt)) o = (Ok tt, set_store s o) /\ inv s /\ healthy s /\ abs s = a_write k v l (o_abs o).
Proof.
  intros [Hi Hh] Hl. destruct (put_total k v l (o_store o) Hi Hh Hl) as (rev & s & Hp & Hs).
  exists s. unfold ignore, mbind, mtry, on_store, text. rewrite Hp. split; [done|exact Hs].
Qed.

(** The records [pause] writes after the snapshot. *)
Lemma pause_records now id m size (o : O) :
  o_ready o -> o_live o !! id = Some m -> is_Some (a_leases (o_abs o) !! lm_lease m) ->
  exists s, (let? lease := ask (lease_of id) in
    let? _ := ignore (on_store (text (put (state_key id) "paused" lease))) in
    let? _ := ignore (on_store (set_retention id (i64_add now DEFAULT_RETENTION_SECS) lease)) in
    ignore (on_store (set_size id size lease))) o = (Ok tt, set_store s o) /\
    inv s /\ healthy s /\ abs s = pause_abs now id (Some (lm_lease m)) size (o_abs o).
Proof.
  intros Hr Hm Hl. unfold mbind at 1, ask, lease_of. rewrite Hm. cbn [fmap option_fmap option_map].
  destruct (ignore_put (state_key id) "paused" (Some (lm_lease m)) o Hr) as (s1 & E1 & Hi1 & Hh1 & Ha1); [intros i [= <-]; exact Hl|].
  unfold mbind at 1. rewrite E1. unfold set_retention, set_size, retain_key.
  destruct (ignore_put_unit (sandbox_key id "retain") (dec (i64_add now DEFAULT_RETENTION_SECS)) (Some (lm_lease m)) (set_store s1 o))
    as (s2 & E2 & Hi2 & Hh2 & Ha2); [by split|intros i [= <-]; unfold o_abs; simpl; by rewrite Ha1|].
  unfold mbind at 1. rewrite E2.
  destruct (ignore_put_unit (sandbox_key id "size") (dec size) (Some (lm_lease m)) (set_store s2 o))
    as (s3 & E3 & Hi3 & Hh3 & Ha3); [by split|intros i [= <-]; unfold o_abs; simpl; rewrite Ha2; simpl; unfold o_abs; simpl; by rewrite Ha1|].
  exists s3. split; [exact E3|]. do 2 (split; [done|]). rewrite Ha3. unfold o_abs at 1. simpl. rewrite Ha2. unfold o_abs at 1. simpl. by rewrite Ha1.
Qed.

(** [pause] is the gates, the snapshot, and the records. *)
Lemma pause_unfold now fresh nonce id (o : O) :
  pause now fresh nonce id o =
  (let? idx := backend_of id in
   let? _ := require_cap idx PauseResume in
   let? mem := sandbox_mem_mib id in
   let? _ := quota_gate id (default 0 mem) in
   let? _ := arm_snapshot_key fresh nonce idx id in
   let? _ := on_backend idx (b_pause id) in
   let? lease := ask (lease_of id) in
   let? _ := ignore (on_store (text (put (state_key id) "paused" lease))) in
   let? _ := ignore (on_store (set_retention id (i64_add now DEFAULT_RETENTION_SECS) lease)) in
   ignore (on_store (set_size id (default 0 mem) lease))) o.
Proof.
  unfold pause, quota_gate. do 3 (apply mbind_ext; intros ? ?). by rewrite mbind_assoc.
Qed.
End PauseProofs.

(**  pausing is gated and recorded.  On a store that answers, without snapshot
    encryption: a backend without [pause_resume] refuses, and a project without
    room for the snapshot in its quota gets [QUOTA_EXCEEDED], both before the
    backend is asked and without a change to table, backends or keys; otherwise
    the outcome is the backend's: an error is passed on with no key changed, and
    on success the state, the retention deadline (seven days on) and the size of
    the snapshot are written under the sandbox's lease, and nothing else. *)
Theorem pause_exact {S B : Type} `{StoreLaws S} `{SandboxBackend B} `{SerdeJsonLaws}
    (now : Z) (fresh nonce id : string) (m : LiveMeta) (b : B) (o : Orch S B) :
  o_ready o -> o_live o !! id = Some m -> o_backends o !! lm_backend m = Some b ->
  is_Some (a_leases (o_abs o) !! lm_lease m) -> o_kms o = None -> usage_fits (o_abs o) id ->
  exists r o', pause now fresh nonce id o = (r, o') /\ o_live o' = o_live o /\
    if caps_contains (b_capabilities b) PauseResume then
      (pause_allowed (o_abs o) id ->
         r = (b_pause id (b_set_snapshot_key None b)).1 /\
         o_abs o' = (if is_ok r then pause_abs now id (Some (lm_lease m)) (snapshot_mib (o_abs o) id) (o_abs o) else o_abs o)) /\
      (~ pause_allowed (o_abs o) id ->
         exists e, r = Err e /\ starts_with QUOTA_EXCEEDED e = true /\ o_abs o' = o_abs o /\ o_backends o' = o_backends o)
    else exists e, r = Err e /\ starts_with UNSUPPORTED_BY_BACKEND e = true /\ o' = o.
Proof.
  intros Hr Hm Hb Hl Hk Hu. rewrite pause_unfold. unfold mbind at 1, backend_of. rewrite Hm. unfold mbind at 1, require_cap. rewrite Hb.
  destruct (caps_contains (b_capabilities b) PauseResume).
  2:{ eexists _, o. split; [reflexivity|]. split; [done|]. eexists. split; [reflexivity|]. split; [apply starts_with_app|done]. }
  destruct (mem_total id o Hr) as (v & o1 & E1 & (s1 & -> & Hi1 & Hh1 & Ha1) & Hv).
  unfold mbind at 1. rewrite E1, Hv. assert (o_abs (set_store s1 o) = o_abs o) as Hab1 by exact Ha1.
  destruct (quota_gate_spec id (set_store s1 o)) as (r2 & o2 & E2 & (s2 & -> & Hi2 & Hh2 & Ha2) & Hq);
    [by split|by rewrite Hab1|]. rewrite Hab1 in *. unfold mbind at 1. rewrite E2. cbn [set_store o_live o_backends o_template o_node_id o_kms] in *.
  assert (o_abs (set_store s2 o) = o_abs o) as Hab2 by exact Ha2.
  destruct Hq as [[-> Hal]|(e & -> & He & Hna)].
  2:{ eexists _, (set_store s2 o). split; [reflexivity|]. split; [done|]. split; [done|]. intros _. by exists e. }
  unfold mbind at 1, arm_snapshot_key, mbind at 1, snap_key_for, mbind at 1, ask. cbn [set_store o_kms]. rewrite Hk.
  unfold mret at 1. unfold upd_backend, on_backend at 1. cbn [set_store o_backends]. rewrite Hb.
  unfold mbind at 1, on_backend. cbn [set_backends o_backends].
  assert (lm_backend m < length (o_backends o))%nat as Hlt by (by apply lookup_lt_Some in Hb).
  rewrite list_lookup_insert_eq by done. destruct (b_pause id (b_set_snapshot_key None b)) as [[[]|e] b'] eqn:Ep.
  - set (o3 := set_backends _ _). destruct (pause_records now id m (snapshot_mib (o_abs o) id) o3) as (s4 & E4 & Hi4 & Hh4 & Ha4).
    { by split. } { exact Hm. } { unfold o_abs. simpl. rewrite Ha2. exact Hl. }
    exists (Ok tt), (set_store s4 o3). split; [exact E4|]. split; [done|]. split; [|done]. intros _. split; [done|].
    assert (o_abs o3 = o_abs o) as Hab3 by exact Ha2. rewrite Hab3 in Ha4. exact Ha4.
  - eexists _, _. split; [reflexivity|]. split; [done|]. split; [|done]. intros _. split; [done|]. exact Ha2.
Qed.

Import RefJson RefBackend.

Lemma pause_exact_witness :
  exists r o', pause 1100 a_key a_nonce "i0" one_sandbox = (r, o') /\ r = Ok tt /\
    exists kv, a_kv (o_abs o') !! state_key "i0" = Some kv /\ kv_value kv = "paused"%string.
Proof.
  destruct one_sandbox_ok as (Hr & Hlk & Ht & lease & Hl).
  assert (o_backends one_sandbox !! 0%nat = Some ref1) as Hb by (vm_compute; reflexivity).
  assert (project_of (o_abs one_sandbox) "i0" = None) as Hp by (vm_compute; reflexivity).
  assert (usage_fits (o_abs one_sandbox) "i0") as Hu by (intros p Hp'; rewrite Hp in Hp'; discriminate Hp').
  assert (pause_allowed (o_abs one_sandbox) "i0") as Ha by (intros p lim Hp'; rewrite Hp in Hp'; discriminate Hp').
  assert (o_kms one_sandbox = None) as Hk by (vm_compute; reflexivity).
  destruct (pause_exact 1100 a_key a_nonce "i0" _ ref1 one_sandbox Hr Hl Hb (lk_lease _ Hlk _ _ Hl) Hk Hu) as (r & o' & H1 & _ & H2 & _).
  destruct (H2 Ha) as [H3 H4]. exists r, o'. split; [exact H1|].
  assert (r = Ok tt) as -> by (rewrite H3; vm_compute; reflexivity). split; [reflexivity|]. simpl is_ok in H4. cbv iota in H4. rewrite H4.
  eexists. split.
  - unfold pause_abs. rewrite a_write_kv, decide_False by (vm_compute; discriminate).
    rewrite a_write_kv, decide_False by (vm_compute; discriminate). rewrite a_write_kv, decide_True by reflexivity. reflexivity.
  - reflexivity.
Defined.

(** ** Quota accounting of pauses *)

(** One sandbox of project [p], which may have one sandbox. *)
Definition full_orch (max_sandboxes max_storage : Z) : Orch SqliteStore Ref :=
  mkOrch (store_after [OGrant 0 100000;
                       OPut "sandbox/a/meta" (render (JObj [("mem_mib"%string, JNum 512)])) (Some 1);
                       OPut "sandbox/a/state" "running" (Some 1);
                       OPut "sandbox/a/project" "p" (Some 1);
                       OPut "quota/p" (render (limits_json (mkLimits max_sandboxes 0 0 max_storage))) None])
    [mkRef "fc" (caps_with [PauseResume]) 0 {["a"%string]}] "/tpl" {["a"%string := mkLive 1 100000 0]} None None.

(** The check of a pause counts one more sandbox: a project at its sandbox limit
    cannot pause. *)
Lemma pause_refused_at_sandbox_limit :
  exists e, (pause 10 a_key a_nonce "a" (full_orch 1 0)).1 = Err e /\ starts_with QUOTA_EXCEEDED e = true.
Proof. eexists. split; vm_compute; reflexivity. Qed.

(** The size of a snapshot stays counted after it is resumed: with room for one
    snapshot, the sandbox cannot be paused again. *)
Lemma second_pause_refused :
  let o1 := (pause 10 a_key a_nonce "a" (full_orch 0 600)).2 in
  let o2 := (resume a_key a_nonce "a" o1).2 in
  (pause 10 a_key a_nonce "a" (full_orch 0 600)).1 = Ok tt /\ (resume a_key a_nonce "a" o1).1 = Ok "machine"%string /\
  exists e, (pause 20 a_key a_nonce "a" o2).1 = Err e /\ starts_with QUOTA_EXCEEDED e = true.
Proof. do 2 (split; [vm_compute; reflexivity|]). eexists. split; vm_compute; reflexivity. Qed.
