(* ===== verification/Gateway.v ===== *)
(** * Gateway tickets (crates/sl-node/src/gateway.rs)

    One-time signed URLs: the control plane signs the sandbox, the action, the
    port, the expiry and a nonce with HMAC-SHA256; the gateway checks the
    signature and the expiry and consumes the nonce, in a set of its own or in the
    store shared by the replicas.  SHA-256 is a parameter, randomness an
    argument. *)

From Stdlib Require Import ZArith Lia Bool List String Ascii.
From stdpp Require Import base tactics list gmap strings sorting.
From S2P Require Import Prelude RustStr Utf8 Json Store Sqlite SqliteSpec StoreTheorems Auth Proto.

Open Scope Z_scope.

Definition GW_SECRET_KEY : string := "cluster/gw_secret".
Definition nonce_key (nonce : string) : string := "gw/nonce/" ++s nonce.
Definition NODE_TARGET_PREFIX : string := "node:".

Inductive Action : Type :=
| AExec | AFile | ALogs | APort | AStream
| APause | AResume | AFork | ADestroy | AKeepalive | AExpose | AUnexpose | AExposes | ACreate.

#[global] Instance Action_eq_dec : EqDecision Action.
Proof. solve_decision. Defined.

Definition action_as_str (a : Action) : string :=
  match a with
  | AExec => "exec" | AFile => "file" | ALogs => "logs" | APort => "port" | AStream => "stream"
  | APause => "pause" | AResume => "resume" | AFork => "fork" | ADestroy => "destroy" | AKeepalive => "keepalive"
  | AExpose => "expose" | AUnexpose => "unexpose" | AExposes => "exposes" | ACreate => "create"
  end.

Definition action_from_str (s : string) : option Action :=
  if String.eqb s "exec" then Some AExec
  else if String.eqb s "file" then Some AFile
  else if String.eqb s "logs" then Some ALogs
  else if String.eqb s "port" then Some APort
  else if String.eqb s "stream" then Some AStream
  else if String.eqb s "pause" then Some APause
  else if String.eqb s "resume" then Some AResume
  else if String.eqb s "fork" then Some AFork
  else if String.eqb s "destroy" then Some ADestroy
  else if String.eqb s "keepalive" then Some AKeepalive
  else if String.eqb s "expose" then Some AExpose
  else if String.eqb s "unexpose" then Some AUnexpose
  else if String.eqb s "exposes" then Some AExposes
  else if String.eqb s "create" then Some ACreate
  else None.

Definition is_control (a : Action) : bool :=
  negb (match a with AExec | AFile | ALogs | APort | AStream => true | _ => false end).

Record Ticket : Type := mkTicket { t_sid : string; t_action : Action; t_port : Z }.

Definition node_target (t : Ticket) : option string := strip_prefix NODE_TARGET_PREFIX (t_sid t).

Definition payload (sid : string) (action : Action) (port exp : Z) (nonce : string) : string :=
  "v1:" ++s sid ++s ":" ++s action_as_str action ++s ":" ++s dec port ++s ":" ++s dec exp ++s ":" ++s nonce.

(** The bytewise comparison without an early exit. *)
Fixpoint xor_diff (a b : string) : Z :=
  match a, b with
  | String x a', String y b' => Z.lor (Z.lxor (byte_val x) (byte_val y)) (xor_diff a' b')
  | _, _ => 0
  end.

Definition ct_eq (a b : string) : bool :=
  if negb (String.length a =? String.length b)%nat then false else xor_diff a b =? 0.

(** [path.split('?').nth(1)], then the pairs; a later key replaces an earlier. *)
Definition query_pair (m : gmap string string) (kv : string) : gmap string string :=
  match split_once "=" kv with
  | Some (k, v) => <[k := v]> m
  | None => m
  end.

Definition parse_query (path : string) : gmap string string :=
  match split "?" path with
  | _ :: q :: _ => fold_left query_pair (split "&" q) ∅
  | _ => ∅
  end.

Record Gateway : Type := mkGateway { gw_secret : string; gw_base : string }.

(** [NonceGuard] *)
Inductive NonceGuard (S : Type) : Type :=
| Local (used : gset string)
| Shared (s : S).
Arguments Local {S} used.
Arguments Shared {S} s.

Section Ops.
Context (Sha256 : string -> string) {S : Type} `{Store S}.

(** [k] padded with zeros to 64 bytes and xored with a constant. *)
Fixpoint pad_xor (n : nat) (c : Z) (k : string) : string :=
  match n with
  | O => ""
  | Datatypes.S n' =>
      match k with
      | EmptyString => String (byte_of c) (pad_xor n' c "")
      | String x k' => String (byte_of (Z.lxor c (byte_val x))) (pad_xor n' c k')
      end
  end.

Definition hmac_sha256 (key msg : string) : string :=
  let k := if (64 <? String.length key)%nat then Sha256 key else key in
  let ih := Sha256 (pad_xor 64 54 k ++s msg) in
  Sha256 (pad_xor 64 92 k ++s ih).

Definition signature (secret sid : string) (action : Action) (port exp : Z) (nonce : string) : string :=
  hex (hmac_sha256 secret (payload sid action port exp nonce)).

(** [nb] is what [host_random] gave. *)
Definition mint (g : Gateway) (nb sid : string) (action : Action) (port ttl_secs now : Z) : string :=
  let exp := i64_saturating_add now ttl_secs in
  let nonce := hex nb in
  let sig := signature (gw_secret g) sid action port exp nonce in
  let path := match action with APort => "p"%string | a => action_as_str a end in
  gw_base g ++s "/gw/" ++s path ++s "?sid=" ++s sid ++s "&action=" ++s action_as_str action ++s "&port=" ++s dec port
    ++s "&exp=" ++s dec exp ++s "&nonce=" ++s nonce ++s "&sig=" ++s sig.

Definition used_up : string := "ticket 已使用（一次性）".

Definition consume_shared (nonce : string) (exp now : Z) : M S string unit :=
  let ttl := Z.max (as_i64 (exp - now)) 1 in
  let? lease := text (lease_grant now ttl) in
  let? r := text (compare_and_swap (nonce_key nonce) None "1" (Some lease)) in
  if cas_succeeded r then mret tt
  else
    let? _ := mtry (text (lease_revoke lease)) in
    mfail used_up.

Definition consume (nonce : string) (exp now : Z) : M (NonceGuard S) string unit := fun g =>
  match g with
  | Local used =>
      if decide (nonce ∈ used) then (Err used_up, g) else (Ok tt, Local ({[nonce]} ∪ used))
  | Shared s => let '(r, s') := consume_shared nonce exp now s in (r, Shared s')
  end.

Definition or_err {A} (v : option A) (e : string) : M (NonceGuard S) string A :=
  match v with Some a => mret a | None => mfail e end.

Definition verify (g : Gateway) (q : gmap string string) (now : Z) : M (NonceGuard S) string Ticket :=
  let? sid := or_err (q !! "sid"%string) "缺 sid" in
  let? action := or_err (a ← q !! "action"%string; action_from_str a) "action 非法" in
  let? port := or_err (s ← q !! "port"%string; parse_uint (2 ^ 32 - 1) s) "port 非法" in
  let? exp := or_err (s ← q !! "exp"%string; parse_i64 s) "exp 非法" in
  let? nonce := or_err (q !! "nonce"%string) "缺 nonce" in
  let? sig := or_err (q !! "sig"%string) "缺 sig" in
  let want := signature (gw_secret g) sid action port exp nonce in
  if negb (ct_eq want sig) then mfail "签名不匹配"
  else if exp <=? now then mfail "ticket 已过期"
  else
    let? _ := consume nonce exp now in
    mret (mkTicket sid action port).

Definition secret_of (kv : KeyValue) : option string :=
  if (String.length (kv_value kv) =? 32)%nat then Some (kv_value kv) else None.

(** [mine] is what [host_random] gave. *)
Definition ensure_gw_secret (mine : string) : M S string string :=
  let? kv := text (get GW_SECRET_KEY) in
  match kv ≫= secret_of with
  | Some s => mret s
  | None =>
      let? r := text (compare_and_swap GW_SECRET_KEY None mine None) in
      if cas_succeeded r then mret mine
      else
        let? kv := text (get GW_SECRET_KEY) in
        match kv with
        | None => mfail "gw_secret CAS 失败后仍读不到"
        | Some kv => match secret_of kv with Some s => mret s | None => mfail "gw_secret 长度异常" end
        end
  end.

(** A gateway of one process, and one whose secret and tickets are shared by replicas. *)
Definition new_random (base random : string) : Gateway * NonceGuard S := (mkGateway random base, Local ∅).
Definition new_shared (base mine : string) : M S string (Gateway * NonceGuard S) := fun s =>
  match ensure_gw_secret mine s with
  | (Ok secret, s') => (Ok (mkGateway secret base, Shared s'), s')
  | (Err e, s') => (Err e, s')
  end.
End Ops.

(** The request [proxy_port_http] writes once the guest has connected. *)
Fixpoint trim_start_slashes (s : string) : string :=
  match s with
  | String "/" s' => trim_start_slashes s'
  | _ => s
  end.

Definition crlf : string := String (byte_of 13) (String (byte_of 10) "").

Definition proxy_request (guest_path : string) : string :=
  "GET /" ++s trim_start_slashes guest_path ++s " HTTP/1.0" ++s crlf ++s "Host: sandbox" ++s crlf
    ++s "Connection: close" ++s crlf ++s crlf.

(** ** Comparison and parsing *)

Lemma lxor_zero a b : Z.lxor a b = 0 <-> a = b.
Proof. split; [apply Z.lxor_eq|intros ->; apply Z.lxor_nilpotent]. Qed.

Lemma xor_diff_zero a b : String.length a = String.length b -> xor_diff a b = 0 <-> a = b.
Proof.
  revert b; induction a as [|x a IH]; intros [|y b] Hl; try done. simpl in Hl. injection Hl as Hl.
  cbn [xor_diff]. rewrite Z.lor_eq_0_iff, lxor_zero, IH by done. split.
  - intros [Hx ->]. by rewrite (byte_val_inj x y Hx).
  - by intros [= -> ->].
Qed.

Lemma ct_eq_true a b : ct_eq a b = true <-> a = b.
Proof.
  unfold ct_eq. destruct (String.length a =? String.length b)%nat eqn:E; cbn [negb].
  - apply Nat.eqb_eq in E. rewrite Z.eqb_eq. by apply xor_diff_zero.
  - split; [done|]. intros ->. by rewrite Nat.eqb_refl in E.
Qed.

Lemma action_roundtrip a : action_from_str (action_as_str a) = Some a.
Proof. by destruct a. Qed.

Lemma query_pair_eq m k v : contains_char "=" k = false -> query_pair m (k ++s String "=" v) = <[k := v]> m.
Proof. intros Hk. unfold query_pair. by rewrite (proj2 (split_once_some "=" _ k v) (conj eq_refl Hk)). Qed.

Section Proofs.
Context (Sha256 : string -> string) {S : Type} `{StoreLaws S}.

(** Text that may stand in a query. *)
Definition plain_sid (sid : string) : Prop := contains_char "?" sid = false /\ contains_char "&" sid = false.

(** The path segment of an action, and the parameters of a ticket. *)
Definition gw_segment (action : Action) : string := match action with APort => "p"%string | a => action_as_str a end.
Definition ticket_params (secret sid : string) (action : Action) (port exp : Z) (nonce : string) : list string :=
  ["sid" ++s String "=" sid; "action" ++s String "=" (action_as_str action); "port" ++s String "=" (dec port);
   "exp" ++s String "=" (dec exp); "nonce" ++s String "=" nonce;
   "sig" ++s String "=" (signature Sha256 secret sid action port exp nonce)]%string.

Lemma mint_shape g nb sid action port ttl now :
  mint Sha256 g nb sid action port ttl now =
    gw_base g ++s "/gw/" ++s gw_segment action ++s
      String "?" (join "&" (ticket_params (gw_secret g) sid action port (i64_saturating_add now ttl) (hex nb))).
Proof. unfold mint, ticket_params, gw_segment. cbn [join]. rewrite !app_assoc_s. reflexivity. Qed.

Lemma join_no_sep c d ps : c <> d -> Forall (fun p => contains_char d p = false) ps -> contains_char d (join c ps) = false.
Proof.
  intros Hne. induction 1 as [|p ps Hp Hps IH]; [done|]. destruct ps as [|p' ps]; [done|].
  change (join c (p :: p' :: ps)) with (p ++s String c (join c (p' :: ps))). rewrite contains_char_app, Hp. cbn [contains_char orb].
  rewrite IH. destruct (Ascii.eqb_spec d c); [congruence|done].
Qed.

(** The parameters after the question mark. *)
Lemma parse_query_pairs base ps :
  contains_char "?" base = false -> ps <> [] -> Forall plain_sid ps ->
  parse_query (base ++s String "?" (join "&" ps)) = fold_left query_pair ps ∅.
Proof.
  intros Hb Hne Hps. unfold parse_query. rewrite split_sep_app by done.
  rewrite split_no_sep by (apply join_no_sep; [done|]; eapply Forall_impl; [exact Hps|by intros p [? ?]]).
  rewrite split_join; [done|done|]. eapply Forall_impl; [exact Hps|by intros p [? ?]].
Qed.

Lemma hex_plain s : plain_sid (hex s).
Proof.
  assert (forall c, byte_val c < 48 \/ 57 < byte_val c < 97 -> contains_char c (hex s) = false) as Hhex
    by (intros c Hc; by apply hex_no_char, not_hex).
  split; apply Hhex; [right|left]; by vm_compute.
Qed.

Lemma plain_sid_app a b : plain_sid a -> plain_sid b -> plain_sid (a ++s b).
Proof. intros [H1 H2] [H3 H4]. split; rewrite contains_char_app; [by rewrite H1, H3|by rewrite H2, H4]. Qed.

Lemma plain_param k v : plain_sid k -> plain_sid v -> plain_sid (k ++s String "=" v).
Proof. intros Hk Hv. apply plain_sid_app; [done|]. by apply (plain_sid_app "=" v). Qed.

Lemma ticket_params_plain secret sid action port exp nb :
  plain_sid sid -> 0 <= port -> 0 <= exp -> Forall plain_sid (ticket_params secret sid action port exp (hex nb)).
Proof.
  intros Hs Hp He. unfold ticket_params. rewrite !Forall_cons.
  split_and!; try apply plain_param; try apply hex_plain; try apply Hs; try (split; reflexivity); try (by apply Forall_nil).
  - destruct action; by split.
  - split; by apply dec_no_char.
  - split; by apply dec_no_char.
Qed.

(** The parameters of a ticket are read back, whatever follows under other names. *)
Lemma ticket_query secret sid action port exp nonce extra :
  Forall (fun kv => kv.1 ∉ ["sid"; "action"; "port"; "exp"; "nonce"; "sig"]%string /\ contains_char "=" kv.1 = false) extra ->
  let q := fold_left query_pair (ticket_params secret sid action port exp nonce ++ map (fun kv => kv.1 ++s String "=" kv.2) extra) ∅ in
  q !! "sid"%string = Some sid /\ q !! "action"%string = Some (action_as_str action) /\ q !! "port"%string = Some (dec port) /\
  q !! "exp"%string = Some (dec exp) /\ q !! "nonce"%string = Some nonce /\
  q !! "sig"%string = Some (signature Sha256 secret sid action port exp nonce).
Proof.
  intros Hx. cbv zeta. rewrite fold_left_app.
  assert (forall k m, k ∈ ["sid"; "action"; "port"; "exp"; "nonce"; "sig"]%string ->
    fold_left query_pair (map (fun kv => kv.1 ++s String "=" kv.2) extra) m !! k = m !! k) as Hk.
  { intros k m Hin. revert m. induction Hx as [|[k' v] extra [H1 H2] Hx IH]; intros m; [done|]. cbn [map fold_left fst snd] in *.
    rewrite IH, query_pair_eq by done. apply lookup_insert_ne. intros ->. done. }
  rewrite !Hk by set_solver. unfold ticket_params. cbn [fold_left]. rewrite !query_pair_eq by done.
  repeat split; repeat (rewrite lookup_insert_ne by done); apply lookup_insert_eq.
Qed.

(** The parameters of a minted URL are read back. *)
Lemma mint_query g nb sid action port ttl now :
  contains_char "?" (gw_base g) = false -> plain_sid sid -> 0 <= port -> 0 <= i64_saturating_add now ttl ->
  let exp := i64_saturating_add now ttl in
  let q := parse_query (mint Sha256 g nb sid action port ttl now) in
  q !! "sid"%string = Some sid /\ q !! "action"%string = Some (action_as_str action) /\ q !! "port"%string = Some (dec port) /\
  q !! "exp"%string = Some (dec exp) /\ q !! "nonce"%string = Some (hex nb) /\
  q !! "sig"%string = Some (signature Sha256 (gw_secret g) sid action port exp (hex nb)).
Proof.
  intros Hb Hs Hp He exp. rewrite mint_shape, <- (app_assoc_s (gw_base g)), <- app_assoc_s.
  rewrite parse_query_pairs; [|rewrite !contains_char_app, Hb; by destruct action|done|by apply ticket_params_plain].
  pose proof (ticket_query (gw_secret g) sid action port exp (hex nb) [] (Forall_nil_2 _)) as G. cbv zeta in G.
  rewrite app_nil_r in G. exact G.
Qed.

(** What an accepted query says. *)
Lemma verify_inv g q now st t st' :
  verify Sha256 g q now st = (Ok t, st') ->
  exists exp nonce, q !! "sid"%string = Some (t_sid t) /\ (a ← q !! "action"%string; action_from_str a) = Some (t_action t) /\
    (s ← q !! "port"%string; parse_uint (2 ^ 32 - 1) s) = Some (t_port t) /\ (s ← q !! "exp"%string; parse_i64 s) = Some exp /\
    q !! "nonce"%string = Some nonce /\
    q !! "sig"%string = Some (signature Sha256 (gw_secret g) (t_sid t) (t_action t) (t_port t) exp nonce) /\
    now < exp /\ consume nonce exp now st = (Ok tt, st').
Proof.
  unfold verify, or_err. destruct (q !! "sid"%string) as [sid|]; [|done]. unfold mbind at 1, mret at 1.
  destruct (a ← q !! "action"%string; action_from_str a) as [act|]; [|done]. unfold mbind at 1, mret at 1.
  destruct (s ← q !! "port"%string; parse_uint (2 ^ 32 - 1) s) as [port|]; [|done]. unfold mbind at 1, mret at 1.
  destruct (s ← q !! "exp"%string; parse_i64 s) as [exp|]; [|done]. unfold mbind at 1, mret at 1.
  destruct (q !! "nonce"%string) as [nonce|]; [|done]. unfold mbind at 1, mret at 1.
  destruct (q !! "sig"%string) as [sig|]; [|done]. unfold mbind at 1, mret at 1.
  destruct (ct_eq _ sig) eqn:Ec; [|done]. apply ct_eq_true in Ec. cbn [negb]. destruct (Z.leb_spec exp now); [done|].
  unfold mbind. destruct (consume nonce exp now st) as [[[]|e] st1] eqn:E; [|done].
  intros [= <- <-]. exists exp, nonce. simpl. subst sig. done.
Qed.

Lemma verify_run g q now st sid act port exp nonce :
  q !! "sid"%string = Some sid -> (a ← q !! "action"%string; action_from_str a) = Some act ->
  (s ← q !! "port"%string; parse_uint (2 ^ 32 - 1) s) = Some port -> (s ← q !! "exp"%string; parse_i64 s) = Some exp ->
  q !! "nonce"%string = Some nonce -> q !! "sig"%string = Some (signature Sha256 (gw_secret g) sid act port exp nonce) -> now < exp ->
  verify Sha256 g q now st = (let? _ := consume nonce exp now in mret (mkTicket sid act port)) st.
Proof.
  intros H1 H2 H3 H4 H5 H6 H7. unfold verify, or_err. rewrite H1, H2, H3, H4, H5, H6.
  do 6 (unfold mbind at 1, mret at 1). rewrite (proj2 (ct_eq_true _ _) eq_refl). cbn [negb].
  by rewrite (proj2 (Z.leb_gt _ _) H7).
Qed.

(** ** Consumption through the store *)

(** The nonce is consumed until the ticket expires. *)
Definition spent (nonce : string) (exp : Z) (a : AStore) : Prop :=
  exists kv l x, a_kv a !! nonce_key nonce = Some kv /\ kv_lease kv = Some l /\ a_leases a !! l = Some x /\ l_expires x = exp.

Definition ready (s : S) : Prop := inv s /\ healthy s.

Lemma spent_grant nonce exp a l y :
  a_leases a !! l = None -> spent nonce exp a -> spent nonce exp (a_with_leases (<[l := y]> (a_leases a)) a).
Proof.
  intros Hn (kv & l' & x & H1 & H2 & H3 & H4). exists kv, l', x. simpl. do 2 (split; [done|]). split; [|done].
  rewrite lookup_insert_ne; [done|]. intros ->. congruence.
Qed.

Lemma spent_reap nonce exp sel a ks a' :
  (forall kv l x, a_kv a !! nonce_key nonce = Some kv -> kv_lease kv = Some l -> a_leases a !! l = Some x ->
     l_expires x = exp -> sel_lease sel l x = false) ->
  reap_post a sel (Ok ks) a' -> spent nonce exp a -> spent nonce exp a'.
Proof.
  intros Hsel (_ & Hks & ->) (kv & l & x & H1 & H2 & H3 & H4). exists kv, l, x. simpl.
  rewrite a_remove_all_kv, bool_decide_eq_false_2.
  2:{ intros Hin. apply list_elem_of_In, Hks in Hin as (kv' & l' & x' & G1 & G2 & G3 & G4).
      assert (kv' = kv) as -> by congruence. assert (l' = l) as -> by congruence. assert (x' = x) as -> by congruence.
      by rewrite (Hsel kv l x H1 H2 H3 H4) in G4. }
  do 2 (split; [done|]). split; [|done]. unfold leases_after. apply map_lookup_filter_Some. split; [done|]. simpl. by apply (Hsel kv).
Qed.

Lemma spent_write nonce exp k v l a : nonce_key nonce <> k -> spent nonce exp a -> spent nonce exp (a_write k v l a).
Proof.
  intros Hk (kv & l' & x & H1 & H2 & H3 & H4). exists kv, l', x. rewrite a_write_kv, decide_False by done. done.
Qed.

Lemma wp_consume_shared nonce exp now s :
  ready s -> now < exp -> 0 <= now -> in_i64 exp ->
  wp (consume_shared nonce exp now) s (fun r s' => ready s' /\
    (a_kv (abs s) !! nonce_key nonce = None -> r = Ok tt /\ spent nonce exp (abs s')) /\
    (is_Some (a_kv (abs s) !! nonce_key nonce) -> r = Err used_up) /\
    (forall n e, n <> nonce \/ is_Some (a_kv (abs s) !! nonce_key nonce) -> spent n e (abs s) -> spent n e (abs s'))).
Proof.
  intros [Hi Hh] Hlt Hnow Hexp. unfold consume_shared.
  assert (as_i64 (exp - now) = exp - now) as Hsub by (apply as_i64_id; unfold in_i64, i64_min, i64_max in *; lia).
  rewrite Hsub, Z.max_l by lia.
  apply wp_bind, wp_text. eapply wp_meets_healthy; [apply grant_meets|done|done| |intros i s' _ _ []].
  intros lease s1 Hi1 Hh1 (Hfr & _ & Ha1). cbn [err_text].
  assert (i64_add now (exp - now) = exp) as Hadd by (rewrite i64_add_id; [lia|]; replace (now + (exp - now)) with exp by lia; done).
  rewrite Hadd in Ha1.
  apply wp_bind, wp_text. eapply wp_meets_healthy; [apply cas_meets|done|done| |intros i s' _ _ []].
  intros c s2 Hi2 Hh2 (Hc & _ & _ & Ha2). cbn [err_text].
  assert (a_kv (abs s1) = a_kv (abs s)) as Hkv by (by rewrite Ha1). rewrite Hkv in Hc.
  destruct (a_kv (abs s) !! nonce_key nonce) as [kv|] eqn:Ek; simpl in Hc.
  - rewrite Hc in *. apply wp_bind, wp_try, wp_text.
    eapply wp_meets_healthy; [apply revoke_meets|done|done| |intros i s' _ _ []].
    intros ks s3 Hi3 Hh3 Hrev. apply wp_fail. split; [by split|]. split; [done|]. split; [done|].
    intros n e _ Hsp. eapply (spent_reap n e (SelId lease)); [|exact Hrev|].
    2:{ rewrite Ha2, Ha1. by apply spent_grant. }
    intros kv' l x Hk' Hl' _ _. destruct Hsp as (kv0 & l0 & x0 & G1 & G2 & G3 & _). rewrite Ha2, Hkv in Hk'. simpl.
    apply Z.eqb_neq. intros ->. assert (kv' = kv0) as -> by congruence. congruence.
  - rewrite Hc in *. apply wp_ret. split; [by split|]. rewrite Ha2.
    split; [|split; [by intros [? ?]|]].
    + intros _. split; [done|]. eexists _, lease, _. rewrite a_write_kv, decide_True by done. simpl.
      split; [reflexivity|]. split; [done|]. rewrite Ha1. simpl. rewrite lookup_insert_eq. done.
    + intros n e [Hn|[? ?]] Hsp; [|done]. apply spent_write; [|rewrite Ha1; by apply spent_grant].
      intros Heq. apply Hn. unfold nonce_key in Heq. by apply (app_inv_head_s "gw/nonce/") in Heq.
Qed.

Lemma parse_digits_nonneg s acc v : 0 <= acc -> parse_digits s acc = Some v -> 0 <= v.
Proof.
  revert acc; induction s as [|c s IH]; intros acc Ha; cbn [parse_digits]; [by intros [= <-]|].
  destruct (digit_val c) as [d|] eqn:E; [|done]. apply IH. unfold digit_val in E. destruct (_ && _) eqn:Eb; [|done].
  injection E as <-. bool_prop. lia.
Qed.

Lemma parse_uint_range max s v : parse_uint max s = Some v -> 0 <= v <= max.
Proof.
  unfold parse_uint. set (body := match s with EmptyString => s | String c r => _ end). clearbody body.
  destruct body as [|c r]; [done|]. destruct (parse_digits (String c r) 0) as [n|] eqn:E; [|done].
  destruct (n <=? max) eqn:Em; [|done]. intros [= <-]. bool_prop. split; [|done]. by eapply parse_digits_nonneg; [|exact E].
Qed.

Lemma parse_i64_range s n : parse_i64 s = Some n -> in_i64 n.
Proof.
  assert (parse_uint i64_max s = Some n -> in_i64 n) as Hu.
  { intros Hp%parse_uint_range. unfold in_i64, i64_min, i64_max in *. lia. }
  unfold parse_i64. destruct s as [|c [|d r]]; [exact Hu|exact Hu|]. destruct (Ascii.eqb c "-"); [|exact Hu].
  destruct (parse_digits (String d r) 0) as [v|] eqn:E; [|done]. apply parse_digits_nonneg in E; [|lia].
  destruct (- v <? i64_min) eqn:Em; [done|]. intros [= <-]. bool_prop. unfold in_i64, i64_min, i64_max in *. lia.
Qed.

(** ** A shared store and the replicas that use it *)

(** A replica verifies a query, the reaper sweeps, or another component writes a
    key of its own. *)
Inductive GwEvent : Type :=
| EvVerify (g : Gateway) (q : gmap string string) (now : Z)
| EvSweep (now : Z)
| EvPut (k v : string).

(** The queries that are accepted, in order. *)
Fixpoint accepted (evs : list GwEvent) (s : S) : list (gmap string string) :=
  match evs with
  | [] => []
  | EvVerify g q now :: evs' =>
      match verify Sha256 g q now (Shared s) with
      | (Ok _, Shared s') => q :: accepted evs' s'
      | (Err _, Shared s') => accepted evs' s'
      | (_, Local _) => []
      end
  | EvSweep now :: evs' => accepted evs' (lease_sweep now s).2
  | EvPut k v :: evs' => accepted evs' (put k v None s).2
  end.

(** The clock does not go back, and the other keys are not nonces. *)
Fixpoint well_timed (t : Z) (evs : list GwEvent) : Prop :=
  match evs with
  | [] => True
  | EvVerify _ _ now :: evs' => t <= now /\ well_timed now evs'
  | EvSweep now :: evs' => t <= now /\ well_timed now evs'
  | EvPut k _ :: evs' => starts_with "gw/nonce/" k = false /\ well_timed t evs'
  end.

Definition query_exp (q : gmap string string) : option Z := s ← q !! "exp"%string; parse_i64 s.

(** The query can no longer be accepted: it has expired, or its nonce is spent. *)
Definition dead (q : gmap string string) (t : Z) (s : S) : Prop :=
  forall exp nonce, query_exp q = Some exp -> q !! "nonce"%string = Some nonce -> exp <= t \/ spent nonce exp (abs s).

Lemma verify_cases g q now st :
  (exists e, verify Sha256 g q now st = (Err e, st)) \/
  (exists tk exp nonce, query_exp q = Some exp /\ q !! "nonce"%string = Some nonce /\ now < exp /\
     verify Sha256 g q now st = (let? _ := consume nonce exp now in mret tk) st).
Proof.
  unfold verify, or_err, query_exp. destruct (q !! "sid"%string) as [sid|]; [|left; by eexists]. unfold mbind at 1, mret at 1.
  destruct (a ← q !! "action"%string; action_from_str a) as [act|]; [|left; by eexists]. unfold mbind at 1, mret at 1.
  destruct (s ← q !! "port"%string; parse_uint (2 ^ 32 - 1) s) as [port|]; [|left; by eexists]. unfold mbind at 1, mret at 1.
  destruct (s ← q !! "exp"%string; parse_i64 s) as [exp|]; [|left; by eexists]. unfold mbind at 1, mret at 1.
  destruct (q !! "nonce"%string) as [nonce|]; [|left; by eexists]. unfold mbind at 1, mret at 1.
  destruct (q !! "sig"%string) as [sig|]; [|left; by eexists]. unfold mbind at 1, mret at 1.
  destruct (negb _) eqn:En; [left; by eexists|]. destruct (exp <=? now) eqn:Ele; [left; by eexists|].
  right. exists (mkTicket sid act port), exp, nonce. split_and!; [done|done|by apply Z.leb_gt|].
  do 6 (unfold mbind at 1, mret at 1). cbn beta iota zeta. by rewrite En, Ele.
Qed.

(** A verification on a shared store kills what it accepts, and revives nothing;
    what is dead is not accepted. *)
Lemma verify_shared g q now t0 s :
  ready s -> 0 <= now -> t0 <= now ->
  exists r s', verify Sha256 g q now (Shared s) = (r, Shared s') /\ ready s' /\
    (is_ok r = true -> dead q now s' /\ ~ dead q t0 s) /\ (forall q', dead q' t0 s -> dead q' now s').
Proof.
  intros Hr Hnow Ht.
  assert (forall q' s', (forall n e, spent n e (abs s) -> now < e -> spent n e (abs s')) -> dead q' t0 s -> dead q' now s') as Hage.
  { intros q' s' Hsp Hd exp nonce He Hn. destruct (Z.leb_spec exp now) as [Hle|Hlt]; [by left|]. right.
    destruct (Hd exp nonce He Hn) as [?|?]; [lia|auto]. }
  destruct (verify_cases g q now (Shared s)) as [[e ->]|(tk & exp & nonce & He & Hn & Hlt & ->)].
  { exists (Err e), s. split; [done|]. split; [done|]. split; [done|]. intros q'. by apply Hage. }
  assert (in_i64 exp) as Hexp.
  { unfold query_exp in He. destruct (q !! "exp"%string) as [x|]; [|done]. by eapply parse_i64_range. }
  pose proof (wp_consume_shared nonce exp now s Hr Hlt Hnow Hexp) as G. unfold wp in G. unfold mbind, consume.
  destruct (consume_shared nonce exp now s) as [r s1]. simpl in G. destruct G as (Hr1 & Gnew & Gold & Gkeep).
  exists (res_map (fun _ => tk) r), s1. split; [by destruct r as [[]|]|]. split; [done|]. split.
  - destruct r as [[]|e]; [|done]. intros _.
    destruct (a_kv (abs s) !! nonce_key nonce) as [kv|] eqn:Ek; [by discriminate (Gold (mk_is_Some _ _ eq_refl))|].
    destruct (Gnew eq_refl) as [_ Hsp]. split.
    + intros exp' nonce' He' Hn'. right. by simplify_eq.
    + intros Hd. destruct (Hd exp nonce He Hn) as [?|(kv & _ & _ & Hk & _)]; [lia|congruence].
  - intros q'. apply Hage. intros n e0 Hsp He0. destruct (decide (n = nonce)) as [->|Hne]; [|apply Gkeep; auto].
    apply Gkeep; [|done]. right. destruct Hsp as (kv & _ & _ & Hk & _). by exists kv.
Qed.

Lemma sweep_dead now t0 s :
  ready s -> t0 <= now -> ready (lease_sweep now s).2 /\ forall q, dead q t0 s -> dead q now (lease_sweep now s).2.
Proof.
  intros [Hi Hh] Ht. pose proof (sweep_meets now s Hi) as G. destruct (lease_sweep now s) as [r s']. destruct G as (Hi' & G & Hb).
  destruct (Hb Hh) as [Hh' Hnb]. destruct r as [ks|[e|i]]; [|exfalso; apply Hnb; by eexists|by destruct G]. simpl.
  split; [by split|]. intros q Hd exp nonce He Hn. destruct (Z.leb_spec exp now) as [Hle|Hlt]; [by left|]. right.
  destruct (Hd exp nonce He Hn) as [?|Hsp]; [lia|]. eapply spent_reap; [|exact G|exact Hsp].
  intros kv l x _ _ _ Hx. simpl. apply Z.leb_gt. lia.
Qed.

Lemma put_dead k v t0 s :
  ready s -> starts_with "gw/nonce/" k = false -> ready (put k v None s).2 /\ forall q, dead q t0 s -> dead q t0 (put k v None s).2.
Proof.
  intros [Hi Hh] Hk. pose proof (put_meets k v None s Hi) as G. destruct (put k v None s) as [r s']. destruct G as (Hi' & G & Hb).
  destruct (Hb Hh) as [Hh' Hnb]. destruct r as [rev|[e|i]]; [|exfalso; apply Hnb; by eexists|by destruct G]. simpl.
  split; [by split|]. intros q Hd exp nonce He Hn. destruct (Hd exp nonce He Hn) as [?|Hsp]; [by left|]. right.
  destruct G as (_ & -> & _). apply spent_write; [|done]. intros <-. unfold nonce_key in Hk. by rewrite starts_with_app in Hk.
Qed.

Lemma dead_not_accepted evs t s q : ready s -> 0 <= t -> well_timed t evs -> dead q t s -> q ∉ accepted evs s.
Proof.
  revert t s; induction evs as [|[g q' now|now|k v] evs IH]; intros t s Hr Ht Hw Hd; cbn [accepted]; [apply not_elem_of_nil| | |].
  - destruct Hw as [Htn Hw]. destruct (verify_shared g q' now t s Hr ltac:(lia) Htn) as (r & s' & -> & Hr' & Hok & Hk).
    destruct r as [tk|e].
    + apply not_elem_of_cons. split; [|by eapply (IH now); auto; lia]. intros ->. by destruct (Hok eq_refl).
    + eapply (IH now); auto. lia.
  - destruct Hw as [Htn Hw]. destruct (sweep_dead now t s Hr Htn) as [Hr' Hk]. eapply (IH now); auto. lia.
  - destruct Hw as [Hk Hw]. destruct (put_dead k v t s Hr Hk) as [Hr' Hkk]. eapply (IH t); auto.
Qed.

Lemma accepted_nodup evs t s : ready s -> 0 <= t -> well_timed t evs -> NoDup (accepted evs s).
Proof.
  revert t s; induction evs as [|[g q now|now|k v] evs IH]; intros t s Hr Ht Hw; cbn [accepted]; [constructor| | |].
  - destruct Hw as [Htn Hw]. destruct (verify_shared g q now t s Hr ltac:(lia) Htn) as (r & s' & -> & Hr' & Hok & _).
    destruct r as [tk|e]; [|eapply (IH now); auto; lia]. apply NoDup_cons. split; [|eapply (IH now); auto; lia].
    eapply (dead_not_accepted evs now); auto; [lia|]. by apply Hok.
  - destruct Hw as [Htn Hw]. destruct (sweep_dead now t s Hr Htn) as [Hr' _]. eapply (IH now); auto. lia.
  - destruct Hw as [Hk Hw]. destruct (put_dead k v t s Hr Hk) as [Hr' _]. eapply (IH t); auto.
Qed.
End Proofs.

(** C29: a ticket is used once, across replicas.  Whatever sequence of
    verifications, by any gateways over one store, of any queries, with the
    reaper's sweeps and the writes of other components in between, no query is
    accepted twice: while it is valid its nonce is held in the store, and when the
    lease that holds the nonce can be swept the ticket has expired. *)
Theorem ticket_single_use (Sha256 : string -> string) {S : Type} `{StoreLaws S} (evs : list GwEvent) (t : Z) (s : S) :
  inv s -> healthy s -> 0 <= t -> well_timed t evs -> NoDup (accepted Sha256 evs s).
Proof. intros Hi Hh Ht Hw. exact (accepted_nodup Sha256 evs t s (conj Hi Hh) Ht Hw). Qed.

(**  a minted URL is accepted, once, with what was signed.  The query of a URL
    minted by a gateway verifies before its expiry at any gateway with the same
    secret whose nonce set does not hold the nonce, for exactly the sandbox, the
    action and the port it was minted for; the second verification, and any at or
    after the expiry, are refused. *)
Theorem minted_ticket_accepted (Sha256 : string -> string) {S : Type} `{Store S} (g g' : Gateway) (nb sid : string)
    (action : Action) (port ttl now : Z) (used : gset string) :
  gw_secret g' = gw_secret g -> contains_char "?" (gw_base g) = false -> plain_sid sid -> 0 <= port < 2 ^ 32 ->
  0 <= i64_saturating_add now ttl -> hex nb ∉ used ->
  let exp := i64_saturating_add now ttl in
  let q := parse_query (mint Sha256 g nb sid action port ttl now) in
  (forall t, t < exp ->
     verify Sha256 g' q t (Local used : NonceGuard S) = (Ok (mkTicket sid action port), Local ({[hex nb]} ∪ used)) /\
     verify Sha256 g' q t (Local ({[hex nb]} ∪ used) : NonceGuard S) = (Err used_up, Local ({[hex nb]} ∪ used))) /\
  (forall t st, exp <= t -> exists e, verify Sha256 g' q t (st : NonceGuard S) = (Err e, st)).
Proof.
  intros Hsec Hb Hs Hp He Hu exp q.
  destruct (mint_query Sha256 g nb sid action port ttl now Hb Hs ltac:(lia) He) as (Q1 & Q2 & Q3 & Q4 & Q5 & Q6).
  fold q in Q1, Q2, Q3, Q4, Q5, Q6. fold exp in Q4, Q6. rewrite <- Hsec in Q6.
  assert (in_i64 exp) as Hexp by (unfold exp, i64_saturating_add, in_i64, i64_min, i64_max; lia).
  assert ((s ← q !! "exp"%string; parse_i64 s) = Some exp) as Q4' by (rewrite Q4; by apply parse_i64_dec).
  split.
  - intros t Ht. rewrite !(verify_run Sha256 g' q t _ sid action port exp (hex nb));
      try done; try (rewrite Q2; by apply action_roundtrip); try (rewrite Q3; apply parse_uint_dec; lia).
    unfold mbind, consume. rewrite decide_False by done. rewrite decide_True by set_solver. done.
  - intros t st Ht. destruct (verify_cases Sha256 g' q t st) as [[e He']|(tk & exp' & nonce & He' & _ & Hlt & _)]; [by exists e|].
    unfold query_exp in He'. rewrite Q4' in He'. injection He' as <-. lia.
Qed.

(** ** Witnesses *)

Definition toy_hash (s : string) : string := be_bytes 32 (be_val s 1).
Definition a_gateway : Gateway := mkGateway "0123456789abcdef0123456789abcdef" "http://gw".
Definition a_query : gmap string string := parse_query (mint toy_hash a_gateway "12-rand-byte" "sb-1" AExec 0 60 1000).
Definition replays : list GwEvent :=
  [EvVerify a_gateway a_query 1001; EvPut "sandbox/a" "x"; EvSweep 1002; EvVerify a_gateway a_query 1003; EvSweep 1060;
   EvVerify a_gateway a_query 1060].

Lemma ticket_single_use_witness :
  accepted toy_hash replays (store_after []) = [a_query] /\ NoDup (accepted toy_hash replays (store_after [])).
Proof.
  split; [vm_compute; reflexivity|].
  apply (ticket_single_use toy_hash replays 1000 (store_after [])); [apply store_after_inv|apply store_after_inv|lia|].
  cbn [well_timed replays]. split_and!; try lia; reflexivity.
Defined.

Lemma minted_ticket_accepted_witness :
  verify toy_hash a_gateway a_query 1059 (Local ∅ : NonceGuard SqliteStore) =
    (Ok (mkTicket "sb-1" AExec 0), Local ({[hex "12-rand-byte"]} ∪ ∅)).
Proof.
  assert (0 <= i64_saturating_add 1000 60) as He by (unfold i64_saturating_add, i64_min, i64_max; lia).
  assert (1059 < i64_saturating_add 1000 60) as Ht by (unfold i64_saturating_add, i64_min, i64_max; lia).
  pose proof (minted_ticket_accepted toy_hash (S := SqliteStore) a_gateway a_gateway "12-rand-byte" "sb-1" AExec 0 60 1000 ∅
    eq_refl eq_refl (conj eq_refl eq_refl) ltac:(lia) He (not_elem_of_empty _)) as G.
  exact (proj1 (proj1 G 1059 Ht)).
Defined.

(** The signed text separates its fields with colons and the sandbox id may hold
    one: two different grants have the same text, so the same signature. *)
Lemma payload_ambiguous :
  payload "a:exec:0:99" APort 80 100 "n" = payload "a" AExec 0 99 "port:80:100:n".
Proof. vm_compute. reflexivity. Qed.
