(* ===== verification/Text.v ===== *)
(** * Text methods of [str]

    White space, lines and words, as [str::trim], [str::lines] and
    [str::split_whitespace] define them on the bytes of a text. *)

From Stdlib Require Import ZArith Lia Bool List String Ascii.
From stdpp Require Import base tactics list strings.
From S2P Require Import Prelude RustStr.

Open Scope Z_scope.

Fixpoint bytes (l : list Z) : string :=
  match l with [] => ""%string | b :: l' => String (byte_of b) (bytes l') end.

(** The encodings of the characters with the White_Space property. *)
Definition white_space : list string :=
  map bytes ([[9]; [10]; [11]; [12]; [13]; [32]; [194; 133]; [194; 160]; [225; 154; 128]] ++
             map (fun b => [226; 128; b]) [128; 129; 130; 131; 132; 133; 134; 135; 136; 137; 138; 168; 169; 175] ++
             [[226; 129; 159]; [227; 128; 128]]).

Fixpoint strip_any (l : list string) (strip : string -> option string) : option string :=
  match l with
  | [] => None
  | w :: l' => match strip w with Some r => Some r | None => strip_any l' strip end
  end.

Definition strip_space (s : string) : option string := strip_any white_space (fun w => strip_prefix w s).
Definition strip_space_end (s : string) : option string := strip_any white_space (fun w => strip_suffix w s).

(** Every turn drops at least a byte, so the length bounds the turns. *)
Fixpoint repeat_strip (fuel : nat) (strip : string -> option string) (s : string) : string :=
  match fuel with
  | O => s
  | S n => match strip s with Some r => repeat_strip n strip r | None => s end
  end.

Definition trim_start (s : string) : string := repeat_strip (String.length s) strip_space s.
Definition trim_end (s : string) : string := repeat_strip (String.length s) strip_space_end s.
(** [str::trim] *)
Definition trim (s : string) : string := trim_end (trim_start s).

(** The bytes before the first white space, and what follows it. *)
Fixpoint take_word (s : string) : string * string :=
  match s with
  | EmptyString => (""%string, ""%string)
  | String c s' =>
      match strip_space s with
      | Some r => (""%string, r)
      | None => let '(w, r) := take_word s' in (String c w, r)
      end
  end.

Fixpoint words_aux (fuel : nat) (s : string) : list string :=
  match fuel with
  | O => []
  | S n =>
      let s := trim_start s in
      if String.eqb s "" then [] else let '(w, r) := take_word s in w :: words_aux n r
  end.

(** [str::split_whitespace] *)
Definition split_whitespace (s : string) : list string := words_aux (S (String.length s)) s.

Definition newline : ascii := "010".

(** [str::lines]: the terminator is [\n] or [\r\n]; a last empty line is none. *)
Fixpoint chomp (parts : list string) : list string :=
  match parts with
  | [] => []
  | [last] => if String.eqb last "" then [] else [last]
  | l :: parts' => default l (strip_suffix (String "013" "") l) :: chomp parts'
  end.
Definition lines (s : string) : list string := chomp (split newline s).

Example trim_both : trim (String "009" (" a b" ++s String "010" "")) = "a b"%string.
Proof. reflexivity. Qed.
Example words_of_uptime : split_whitespace (" 12.34  5.6" ++s String "010" "") = ["12.34"%string; "5.6"%string].
Proof. reflexivity. Qed.
Example lines_cr : lines ("a" ++s String "013" (String "010" ("b" ++s String "010" ""))) = ["a"%string; "b"%string].
Proof. reflexivity. Qed.
