(* ===== verification/F64.v ===== *)
(** * Binary64 numbers

    What crates/sl-node/src/lib.rs uses of [f64]: [str::parse], addition,
    comparison, and formatting with two digits, over the specification floats of
    the standard library (no primitive floats).  Parsing and formatting round the
    exact decimal value to the nearest, ties to even. *)

From Stdlib Require Import ZArith Lia Bool List String Ascii SpecFloat.
From stdpp Require Import base tactics list strings.
From S2P Require Import Prelude RustStr.

Open Scope Z_scope.

Definition f64 : Type := spec_float.
Definition f64_zero : f64 := S754_zero false.
Definition f64_of_Z (m : Z) : f64 := binary_normalize 53 1024 m 0 false.
Definition f64_add (a b : f64) : f64 := SFadd 53 1024 a b.
Definition f64_lt (a b : f64) : bool := SFltb a b.

(** The nearest number to [m / d], [d > 0]. *)
Definition f64_ratio (neg : bool) (m d : Z) : f64 :=
  match m, d with
  | Zpos m', Zpos d' =>
      let '(q, e, l) := SFdiv_core_binary 53 1024 m 0 d 0 in binary_round_aux 53 1024 neg q e l
  | _, _ => S754_zero neg
  end.

(** The nearest number to [m * 10^e]. *)
Definition f64_decimal (neg : bool) (m e : Z) : f64 :=
  if 0 <=? e then f64_ratio neg (m * 10 ^ e) 1 else f64_ratio neg m (10 ^ (- e)).

(** The leading digits: their value on top of [acc], their number, and the rest. *)
Fixpoint take_digits (s : string) (acc n : Z) : Z * Z * string :=
  match s with
  | String c s' => match digit_val c with Some d => take_digits s' (acc * 10 + d) (n + 1) | None => (acc, n, s) end
  | EmptyString => (acc, n, s)
  end.

Definition lower (c : ascii) : ascii :=
  let v := byte_val c in if (65 <=? v) && (v <=? 90) then byte_of (v + 32) else c.
Fixpoint lowercase (s : string) : string :=
  match s with String c s' => String (lower c) (lowercase s') | EmptyString => ""%string end.

(** [[eE][+-]?digits] or nothing, to the end of the text. *)
Definition parse_exponent (s : string) : option Z :=
  match s with
  | EmptyString => Some 0
  | String c s' =>
      if Ascii.eqb (lower c) "e" then
        let '(sg, s2) := match s' with
                         | String "-" r => (-1, r)
                         | String "+" r => (1, r)
                         | _ => (1, s')
                         end in
        let '(v, n, rest) := take_digits s2 0 0 in
        if (0 <? n) && String.eqb rest "" then Some (sg * v) else None
      else None
  end.

Definition parse_unsigned_f64 (neg : bool) (s : string) : option f64 :=
  let l := lowercase s in
  if String.eqb l "inf" || String.eqb l "infinity" then Some (S754_infinity neg)
  else if String.eqb l "nan" then Some S754_nan
  else
    let '(m1, n1, r1) := take_digits s 0 0 in
    let '(m, n2, r2) := match r1 with
                        | String "." r => take_digits r m1 0
                        | _ => (m1, 0, r1)
                        end in
    if 0 <? n1 + n2 then (fun e => f64_decimal neg m (e - n2)) <$> parse_exponent r2 else None.

(** [str::parse::<f64>] *)
Definition parse_f64 (s : string) : option f64 :=
  match s with
  | String "-" r => parse_unsigned_f64 true r
  | String "+" r => parse_unsigned_f64 false r
  | _ => parse_unsigned_f64 false s
  end.

(** [n / d] to the nearest integer, ties to even. *)
Definition div_even (n d : Z) : Z :=
  let q := n / d in
  let r := n mod d in
  if (d <? 2 * r) || ((d =? 2 * r) && Z.odd q) then q + 1 else q.

Definition two_digits (n : Z) : string :=
  dec (n / 100) ++s "." ++s (if n mod 100 <? 10 then "0"%string else ""%string) ++s dec (n mod 100).

(** [format!("{:.2}", x)] *)
Definition fmt2 (x : f64) : string :=
  let sg (neg : bool) := if neg then "-"%string else ""%string in
  match x with
  | S754_nan => "NaN"
  | S754_infinity s => sg s ++s "inf"
  | S754_zero s => sg s ++s "0.00"
  | S754_finite s m e =>
      sg s ++s two_digits (if 0 <=? e then Zpos m * 2 ^ e * 100 else div_even (Zpos m * 100) (2 ^ (- e)))
  end.

Fixpoint pad_frac (k : nat) (s : string) : string :=
  match k with O => s | S k' => if (String.length s <? k)%nat then String "0" (pad_frac k' s) else s end.

(** [n / 10^k] with [k] decimals. *)
Definition fixed_dec (k : nat) (n : Z) : string :=
  let d := 10 ^ Z.of_nat k in
  dec (n / d) ++s match k with O => ""%string | _ => "." ++s pad_frac k (dec (n mod d)) end.

(** The fewest decimals that read back as [x]: 1074 always do. *)
Fixpoint shortest (fuel k : nat) (m e : Z) (x : f64) : string :=
  let p := 10 ^ Z.of_nat k in
  let n := if 0 <=? e then m * 2 ^ e * p else div_even (m * p) (2 ^ (- e)) in
  match fuel with
  | O => fixed_dec k n
  | S fuel' => if SFeqb (f64_ratio false n p) x then fixed_dec k n else shortest fuel' (S k) m e x
  end.

(** [format!("{}", x)] of a number below 2^53. *)
Definition display_f64 (x : f64) : string :=
  let sg (neg : bool) := if neg then "-"%string else ""%string in
  match x with
  | S754_nan => "NaN"
  | S754_infinity s => sg s ++s "inf"
  | S754_zero s => sg s ++s "0"
  | S754_finite s m e => sg s ++s shortest 1074 0 (Zpos m) e (S754_finite false m e)
  end.

Example display_uptime : map (fun s => display_f64 <$> parse_f64 s) ["12.340"; "0.05"; "7"; "1234.56"; "0.1"]%string =
  [Some "12.34"; Some "0.05"; Some "7"; Some "1234.56"; Some "0.1"]%string.
Proof. vm_compute. reflexivity. Qed.

Example parse_uptime : fmt2 <$> parse_f64 "12.345" = Some "12.35"%string.
Proof. vm_compute. reflexivity. Qed.
Example parse_tie : (fmt2 <$> parse_f64 "0.125", fmt2 <$> parse_f64 "1e2", parse_f64 ".", parse_f64 "1e") =
  (Some "0.12"%string, Some "100.00"%string, None, None).
Proof. vm_compute. reflexivity. Qed.
Example parse_exact : parse_f64 "0.5" = Some (S754_finite false 4503599627370496 (-53)) /\ parse_f64 "5.e-1" = parse_f64 "0.5".
Proof. vm_compute. split; reflexivity. Qed.
