(* ===== verification/Machine.v ===== *)
(** * The host machine

    What the backends see of the operating system: a file system with inodes and
    hard links, process groups, network namespaces, the Firecracker API sockets
    and the guest agents behind their vsocks.  Every call may fail: an environment
    says, for the n-th call, whether it fails and what it answers.  The file tools
    of crates/sl-node/src/orch.rs and lib.rs are at the end. *)

From Stdlib Require Import ZArith Lia Bool List String Ascii.
From stdpp Require Import base tactics list gmap strings.
From S2P Require Import Prelude RustStr Utf8 Json Proto Snapcrypt.

Open Scope Z_scope.

(** ** Files *)

(** Names refer to inodes; an inode keeps its bytes when a name of it goes. *)
Record Disk : Type := mkDisk {
  d_names : gmap string nat;
  d_data : gmap nat string;
  d_dirs : gset string;
  d_next : nat
}.

(** [Path::join] *)
Definition join_path (d p : string) : string := d ++s "/" ++s p.

Definition file_at (d : Disk) (p : string) : option string := i ← d_names d !! p; d_data d !! i.

Definition put_new (p c : string) (d : Disk) : Disk :=
  mkDisk (<[p := d_next d]> (d_names d)) (<[d_next d := c]> (d_data d)) (d_dirs d) (S (d_next d)).

(** Writing to a name that exists goes through its inode, shared or not. *)
Definition write_over (p c : string) (d : Disk) : Disk :=
  match d_names d !! p with
  | Some i => mkDisk (d_names d) (<[i := c]> (d_data d)) (d_dirs d) (d_next d)
  | None => put_new p c d
  end.

Definition unlink (p : string) (d : Disk) : Disk :=
  mkDisk (delete p (d_names d)) (d_data d) (d_dirs d) (d_next d).

Fixpoint zeros_of (s : string) : string :=
  match s with EmptyString => ""%string | String _ s' => String "000" (zeros_of s') end.

(** Zeros through the inode, then unlinks. *)
Definition wipe (p : string) (d : Disk) : Disk :=
  unlink p (match file_at d p with Some c => write_over p (zeros_of c) d | None => d end).

Definition under (dir p : string) : bool := starts_with (join_path dir "") p.

Definition rm_tree (dir : string) (d : Disk) : Disk :=
  mkDisk (filter (fun '(p, _) => under dir p = false) (d_names d)) (d_data d)
         (filter (fun p => under dir p = false /\ p <> dir) (d_dirs d)) (d_next d).

Definition moved (src dst p : string) : string :=
  if String.eqb p src then dst
  else match strip_prefix (join_path src "") p with Some r => join_path dst r | None => p end.

Definition mv_tree (src dst : string) (d : Disk) : Disk :=
  mkDisk (list_to_map (map (fun '(p, i) => (moved src dst p, i)) (map_to_list (d_names d)))) (d_data d)
         (list_to_set (map (moved src dst) (elements (d_dirs d)))) (d_next d).

(** ** The machine *)

(** What the n-th call to the host answers. *)
Record Env : Type := mkEnv {
  e_err : nat -> option string;
  e_exited : nat -> option string;
  e_reply : nat -> Request -> Response;
  e_random : nat -> nat -> string;
  e_now : nat -> Z;
  e_wall_ns : nat -> Z;
  e_out : nat -> string;
  e_memory : nat -> string * string;
  e_room : nat -> option nat * list (option Fault);
  e_canon : string -> string;
  e_root : bool;
  e_dns : option string
}.

Inductive HostEvent : Type :=
| ESpawn (pid : nat) (args : list string)
| EKill (pid : nat)
| EApi (sock method path body : string)
| ERequest (vsock : string) (req : Request)
| EGate (ns table : string)
| EGateDown (ns table : string)
| ETool (tool : string) (args : list string).

(** Named network namespaces, links, routes by destination, NAT tables and
    forwarding rules of the host. *)
Record Net : Type := mkNet {
  n_spaces : gset string;
  n_links : gset string;
  n_routes : gmap string (string * string);
  n_nat : gset string;
  n_forward : gset (string * string)
}.

Record Machine : Type := mkMachine {
  mc_env : Env;
  mc_step : nat;
  mc_slept : Z;
  mc_disk : Disk;
  mc_procs : gset nat;
  mc_pid : nat;
  mc_net : Net;
  mc_trace : list HostEvent
}.

Notation HM := (M Machine string).

Definition set_disk (d : Disk) (m : Machine) : Machine :=
  mkMachine (mc_env m) (mc_step m) (mc_slept m) d (mc_procs m) (mc_pid m) (mc_net m) (mc_trace m).
Definition set_procs (p : gset nat) (m : Machine) : Machine :=
  mkMachine (mc_env m) (mc_step m) (mc_slept m) (mc_disk m) p (mc_pid m) (mc_net m) (mc_trace m).
Definition set_net (n : Net) (m : Machine) : Machine :=
  mkMachine (mc_env m) (mc_step m) (mc_slept m) (mc_disk m) (mc_procs m) (mc_pid m) n (mc_trace m).
Definition step_on (m : Machine) : Machine :=
  mkMachine (mc_env m) (S (mc_step m)) (mc_slept m) (mc_disk m) (mc_procs m) (mc_pid m) (mc_net m) (mc_trace m).
Definition log_event (e : HostEvent) (m : Machine) : Machine :=
  mkMachine (mc_env m) (mc_step m) (mc_slept m) (mc_disk m) (mc_procs m) (mc_pid m) (mc_net m) (mc_trace m ++ [e]).

(** [thread::sleep], in nanoseconds. *)
Definition sleep (ns : N) : HM unit := fun m =>
  (Ok tt, mkMachine (mc_env m) (mc_step m) (mc_slept m + Z.of_N ns) (mc_disk m) (mc_procs m) (mc_pid m) (mc_net m) (mc_trace m)).

(** A call that may fail; its number selects the answer. *)
Definition host_call : HM nat := fun m =>
  (match e_err (mc_env m) (mc_step m) with Some e => Err e | None => Ok (mc_step m) end, step_on m).

(** Reads from the environment what does not fail. *)
Definition observe {A} (f : Env -> nat -> A) : HM A := fun m => (Ok (f (mc_env m) (mc_step m)), step_on m).

Definition on_disk (f : Disk -> Disk) : HM unit := fun m => (Ok tt, set_disk (f (mc_disk m)) m).
Definition ask_disk {A} (f : Disk -> A) : HM A := fun m => (Ok (f (mc_disk m)), m).
Definition emit (e : HostEvent) : HM unit := fun m => (Ok tt, log_event e m).

(** [.map_err(|e| format!("{what}: {e}"))] *)
Definition map_err {A} (f : string -> string) (c : HM A) : HM A := fun m =>
  match c m with (Ok a, m') => (Ok a, m') | (Err e, m') => (Err (f e), m') end.
Definition because {A} (what : string) (c : HM A) : HM A := map_err (fun e => what ++s ": " ++s e) c.

(** [let _ = c;] *)
Definition quietly {A} (c : HM A) : HM unit := let? _ := mtry c in mret tt.

(** [match c { Err(e) => { cleanup; return Err(f(e)) } Ok(v) => v }] *)
Definition or_cleanup {A} (c : HM A) (cleanup : HM unit) (f : string -> string) : HM A :=
  let? r := mtry c in
  match r with
  | Ok a => mret a
  | Err e => let? _ := cleanup in mfail (f e)
  end.

(** ** Calls *)

(** [host_random]: [n] bytes. *)
Definition host_random (n : nat) : HM string := observe (fun e k => e_random e k n).
(** [Instant::now], in nanoseconds: the environment's clock and the time slept. *)
Definition instant : HM Z := fun m => (Ok (e_now (mc_env m) (mc_step m) + mc_slept m), step_on m).
(** [elapsed().as_millis()], zero when the clock went back. *)
Definition elapsed_ms (since : Z) : HM Z := let? t := instant in mret (Z.max 0 (t - since) / 1000000).

Definition is_root : HM bool := fun m => (Ok (e_root (mc_env m)), m).

Definition no_such_file : string := "No such file or directory (os error 2)".

Definition create_dir_all (p : string) : HM unit :=
  let? _ := host_call in on_disk (fun d => mkDisk (d_names d) (d_data d) ({[p]} ∪ d_dirs d) (d_next d)).
Definition remove_dir_all (p : string) : HM unit := let? _ := host_call in on_disk (rm_tree p).
Definition remove_file (p : string) : HM unit :=
  let? _ := host_call in
  let? c := ask_disk (fun d => d_names d !! p) in
  match c with Some _ => on_disk (unlink p) | None => mfail no_such_file end.
Definition path_exists (p : string) : HM bool :=
  ask_disk (fun d => bool_decide (is_Some (d_names d !! p)) || bool_decide (p ∈ d_dirs d)).
Definition is_directory (p : string) : HM bool := ask_disk (fun d => bool_decide (p ∈ d_dirs d)).
Definition read_file (p : string) : HM string :=
  let? _ := host_call in
  let? c := ask_disk (fun d => file_at d p) in
  match c with Some c => mret c | None => mfail no_such_file end.
(** [std::fs::read_to_string] *)
Definition read_to_string (p : string) : HM string :=
  let? c := read_file p in
  if valid_utf8 c then mret c else mfail "stream did not contain valid UTF-8".
Definition create_file (p : string) : HM unit := let? _ := host_call in on_disk (write_over p "").
(** [std::fs::copy], and cp(1): the bytes, through the destination's inode. *)
Definition copy_file (src dst : string) : HM unit :=
  let? _ := host_call in
  let? c := ask_disk (fun d => file_at d src) in
  match c with Some c => on_disk (write_over dst c) | None => mfail no_such_file end.
Definition hard_link (src dst : string) : HM unit :=
  let? _ := host_call in
  let? i := ask_disk (fun d => d_names d !! src) in
  let? o := ask_disk (fun d => d_names d !! dst) in
  match i, o with
  | Some i, None => on_disk (fun d => mkDisk (<[dst := i]> (d_names d)) (d_data d) (d_dirs d) (d_next d))
  | None, _ => mfail no_such_file
  | _, Some _ => mfail "File exists (os error 17)"
  end.
Definition rename_dir (src dst : string) : HM unit := let? _ := host_call in on_disk (mv_tree src dst).

(** [std::fs::canonicalize]: the path has to exist. *)
Definition abspath (p : string) : HM string :=
  because ("解析绝对路径失败 " ++s p)
    (let? _ := host_call in
     let? ex := path_exists p in
     fun m => (if ex then Ok (e_canon (mc_env m) p) else Err no_such_file, m)).

(** A process group of its own; [kill_group] kills it and waits for it. *)
Definition spawn (args : list string) : HM nat :=
  let? _ := host_call in
  fun m => let pid := mc_pid m in
    (Ok pid, log_event (ESpawn pid args)
               (mkMachine (mc_env m) (mc_step m) (mc_slept m) (mc_disk m) ({[pid]} ∪ mc_procs m) (S pid) (mc_net m) (mc_trace m))).
Definition kill_group (pid : nat) : HM unit := fun m =>
  (Ok tt, log_event (EKill pid) (set_procs (mc_procs m ∖ {[pid]}) m)).

(** ** Files of snapshot encryption

    [snapcrypt] runs on the files by name, with the room on the disk and the
    faults of its calls that the host has for it; what it leaves of the file it
    writes goes through the inode, and what it removed was overwritten first. *)

Definition files_of (d : Disk) : gmap string string := omap (fun i => d_data d !! i) (d_names d).

Definition snap_error (e : SnapError) : string := match e with Failed s => s | Panic => "panic" end.

Definition write_back (dst : string) (files : gmap string string) (d : Disk) : Disk :=
  match files !! dst with Some c => write_over dst c d | None => wipe dst d end.

Definition on_files {A} (dst : string) (c : M Fs SnapError A) : HM A :=
  let? room := observe e_room in
  fun m =>
    let '(r, fs') := c (mkFs (files_of (mc_disk m)) room.1 room.2) in
    (match r with Ok a => Ok a | Err e => Err (snap_error e) end,
     set_disk (write_back dst (fs_files fs') (mc_disk m)) m).

(** [snapcrypt::shred]: the zeros are best effort, a file that is not there is no
    error. *)
Definition zero_fill (p : string) (d : Disk) : Disk :=
  match file_at d p with Some c => write_over p (zeros_of c) d | None => d end.
Definition shred_file (p : string) : HM unit :=
  let? _ := quietly (let? _ := host_call in on_disk (zero_fill p)) in
  let? _ := because ("删除 " ++s p ++s " 失败") host_call in
  on_disk (unlink p).

(** ** File tools (crates/sl-node/src/orch.rs) *)

Definition cp_reflink (src dst : string) : HM unit :=
  let? _ := quietly (remove_file dst) in
  let? r := mtry (copy_file src dst) in
  match r with
  | Ok _ => mret tt
  | Err _ => because ("拷贝 rootfs 失败 " ++s src ++s "→" ++s dst) (copy_file src dst)
  end.

Definition hardlink_or_copy (src dst : string) : HM unit :=
  let? _ := quietly (remove_file dst) in
  let? r := mtry (hard_link src dst) in
  match r with
  | Ok _ => mret tt
  | Err _ => because ("链接/拷贝失败 " ++s src ++s "→" ++s dst) (copy_file src dst)
  end.

Definition prepare_instance_dir (template dir : string) : HM Z :=
  let? _ := because ("建实例目录失败 " ++s dir) (create_dir_all dir) in
  let? t0 := instant in
  let? _ := cp_reflink (join_path template "rootfs.ext4") (join_path dir "rootfs.ext4") in
  let? copy_ms := elapsed_ms t0 in
  let? _ := hardlink_or_copy (join_path template "vmstate") (join_path dir "vmstate") in
  let? _ := hardlink_or_copy (join_path template "mem") (join_path dir "mem") in
  mret copy_ms.

(** ** Frame reasoning

    [Keeps R c]: whatever [c] answers, it relates the machine before and after by
    the preorder [R].  The class composes through the monad, so that instance
    search proves it of an operation from its parts. *)

Class Keeps {A} (R : Machine -> Machine -> Prop) (c : HM A) : Prop := keeps : forall m, R m (c m).2.

Section KeepsRules.
Context (R : Machine -> Machine -> Prop) `{!PreOrder R}.

#[export] Instance frame_ret {A} (a : A) : Keeps R (mret a).
Proof. intros m. reflexivity. Qed.
#[export] Instance frame_fail {A} e : Keeps R (A := A) (mfail e).
Proof. intros m. reflexivity. Qed.
#[export] Instance frame_bind {A B} (c : HM A) (f : A -> HM B) :
  Keeps R c -> (forall a, Keeps R (f a)) -> Keeps R (mbind c f).
Proof.
  intros Hc Hf m. specialize (Hc m). unfold mbind. destruct (c m) as [[a|e] m1]; [|exact Hc].
  etransitivity; [exact Hc|apply Hf].
Qed.
#[export] Instance frame_try {A} (c : HM A) : Keeps R c -> Keeps R (mtry c).
Proof. intros Hc m. specialize (Hc m). unfold mtry. by destruct (c m). Qed.
#[export] Instance frame_map_err {A} f (c : HM A) : Keeps R c -> Keeps R (map_err f c).
Proof. intros Hc m. specialize (Hc m). unfold map_err. by destruct (c m) as [[]]. Qed.
#[export] Instance frame_because {A} w (c : HM A) : Keeps R c -> Keeps R (because w c).
Proof. apply frame_map_err. Qed.
#[export] Instance frame_quietly {A} (c : HM A) : Keeps R c -> Keeps R (quietly c).
Proof. intros Hc. unfold quietly. apply _. Qed.
#[export] Instance frame_or_cleanup {A} (c : HM A) cl f : Keeps R c -> Keeps R cl -> Keeps R (or_cleanup c cl f).
Proof. intros Hc Hl. unfold or_cleanup. apply frame_bind; [apply _|]. intros [a|e]; apply _. Qed.
#[export] Instance frame_ask_disk {A} (f : Disk -> A) : Keeps R (ask_disk f).
Proof. intros m. reflexivity. Qed.
#[export] Instance frame_pure {A} (f : Machine -> result A string) : Keeps R (fun m => (f m, m)).
Proof. intros m. reflexivity. Qed.
#[export] Instance frame_mfor {A} (xs : list A) body : (forall x, Keeps R (body x)) -> Keeps R (mfor xs body).
Proof. intros Hb. induction xs as [|x xs IH]; cbn [mfor]; [apply frame_ret|by apply frame_bind]. Qed.
End KeepsRules.

(** A preorder that does not look at the clock, the files or the network. *)
Class Stable (R : Machine -> Machine -> Prop) : Prop := {
  stable_preorder :: PreOrder R;
  stable_step : forall m, R m (step_on m);
  stable_sleep : forall m ns, R m (sleep ns m).2;
  stable_disk : forall m d, R m (set_disk d m);
  stable_net : forall m n, R m (set_net n m)
}.

(** ... nor at the event. *)
Class Silent (R : Machine -> Machine -> Prop) (e : HostEvent) : Prop := silent : forall m, R m (log_event e m).

(** Unfolds the operation and follows its structure. *)
Ltac solve_keeps :=
  repeat (cbv zeta; lazymatch goal with
    | |- Keeps _ (mret _) => apply frame_ret; apply _
    | |- Keeps _ (mfail _) => apply frame_fail; apply _
    | |- Keeps _ (mbind _ _) => apply frame_bind; [apply _| |intros ?]
    | |- Keeps _ (mtry _) => apply frame_try
    | |- Keeps _ (because _ _) => apply frame_because
    | |- Keeps _ (map_err _ _) => apply frame_map_err
    | |- Keeps _ (quietly _) => apply frame_quietly; [apply _|]
    | |- Keeps _ (or_cleanup _ _ _) => apply frame_or_cleanup; [apply _| |]
    | |- Keeps _ (match ?x with _ => _ end) => destruct x
    | |- Keeps _ (match ?x with _ => _ end _) => destruct x
    | |- Keeps _ _ => first [apply _ | apply frame_pure; apply _]
    end).

Section StableRules.
Context (R : Machine -> Machine -> Prop) `{!Stable R}.

#[export] Instance frame_call : Keeps R host_call.
Proof. intros m. apply stable_step. Qed.
#[export] Instance frame_observe {A} (f : Env -> nat -> A) : Keeps R (observe f).
Proof. intros m. apply stable_step. Qed.
#[export] Instance frame_on_disk f : Keeps R (on_disk f).
Proof. intros m. apply stable_disk. Qed.
#[export] Instance frame_emit e : Silent R e -> Keeps R (emit e).
Proof. intros He m. apply He. Qed.
#[export] Instance frame_on_files {A} dst (c : M Fs SnapError A) : Keeps R (on_files dst c).
Proof.
  unfold on_files. apply frame_bind; [apply _|apply _|]. intros room m. destruct (c _) as [r fs']. apply stable_disk.
Qed.
#[export] Instance frame_create_dir_all p : Keeps R (create_dir_all p).
Proof. unfold create_dir_all. solve_keeps. Qed.
#[export] Instance frame_remove_dir_all p : Keeps R (remove_dir_all p).
Proof. unfold remove_dir_all. solve_keeps. Qed.
#[export] Instance frame_remove_file p : Keeps R (remove_file p).
Proof. unfold remove_file. solve_keeps. Qed.
#[export] Instance frame_read_file p : Keeps R (read_file p).
Proof. unfold read_file. solve_keeps. Qed.
#[export] Instance frame_read_to_string p : Keeps R (read_to_string p).
Proof. unfold read_to_string. solve_keeps. Qed.
#[export] Instance frame_create_file p : Keeps R (create_file p).
Proof. unfold create_file. solve_keeps. Qed.
#[export] Instance frame_copy_file a b : Keeps R (copy_file a b).
Proof. unfold copy_file. solve_keeps. Qed.
#[export] Instance frame_hard_link a b : Keeps R (hard_link a b).
Proof. unfold hard_link. solve_keeps. Qed.
#[export] Instance frame_rename_dir a b : Keeps R (rename_dir a b).
Proof. unfold rename_dir. solve_keeps. Qed.
#[export] Instance frame_path_exists p : Keeps R (path_exists p).
Proof. unfold path_exists. solve_keeps. Qed.
#[export] Instance frame_is_directory p : Keeps R (is_directory p).
Proof. unfold is_directory. solve_keeps. Qed.
#[export] Instance frame_abspath p : Keeps R (abspath p).
Proof. unfold abspath. solve_keeps. Qed.
#[export] Instance frame_random n : Keeps R (host_random n).
Proof. unfold host_random. solve_keeps. Qed.
#[export] Instance frame_instant : Keeps R instant.
Proof. intros m. apply stable_step. Qed.
#[export] Instance frame_sleep ns : Keeps R (sleep ns).
Proof. intros m. apply stable_sleep. Qed.
#[export] Instance frame_elapsed t : Keeps R (elapsed_ms t).
Proof. unfold elapsed_ms. solve_keeps. Qed.
#[export] Instance frame_is_root : Keeps R is_root.
Proof. unfold is_root. solve_keeps. Qed.
#[export] Instance frame_shred p : Keeps R (shred_file p).
Proof. unfold shred_file. solve_keeps. Qed.
#[export] Instance frame_cp_reflink a b : Keeps R (cp_reflink a b).
Proof. unfold cp_reflink. solve_keeps. Qed.
#[export] Instance frame_hardlink_or_copy a b : Keeps R (hardlink_or_copy a b).
Proof. unfold hardlink_or_copy. solve_keeps. Qed.
#[export] Instance frame_prepare t d : Keeps R (prepare_instance_dir t d).
Proof. unfold prepare_instance_dir. solve_keeps. Qed.
End StableRules.

(** The processes, and the number of those started so far. *)
Definition same_procs (m m' : Machine) : Prop := mc_procs m' = mc_procs m /\ mc_pid m' = mc_pid m.

#[export] Instance same_procs_stable : Stable same_procs.
Proof.
  split; [|done..]. split; [by intros m|]. intros a b c [H1 H2] [H3 H4]. split; congruence.
Qed.
#[export] Instance same_procs_silent e : Silent same_procs e.
Proof. by intros m. Qed.

(** The trace grows by events that are not of kind [d]. *)
Definition quiet_for (d : HostEvent -> bool) (m m' : Machine) : Prop :=
  exists evs, mc_trace m' = mc_trace m ++ evs /\ forallb (fun e => negb (d e)) evs = true.

#[export] Instance quiet_for_stable d : Stable (quiet_for d).
Proof.
  assert (forall m m', mc_trace m' = mc_trace m -> quiet_for d m m') as Hsame.
  { intros m m' He. exists []. by rewrite app_nil_r. }
  split; [|by intros; apply Hsame..]. split; [by intros m; apply Hsame|].
  intros a b c (e1 & H1 & H2) (e2 & H3 & H4). exists (e1 ++ e2). rewrite H3, H1, <- app_assoc. split; [done|].
  by rewrite forallb_app, H2, H4.
Qed.

Lemma quiet_silent d e : d e = false -> Silent (quiet_for d) e.
Proof. intros He m. exists [e]. simpl. by rewrite He. Qed.

(** Time: the environment's clock does not go back. *)
Definition time_of (m : Machine) : Z := e_now (mc_env m) (mc_step m) + mc_slept m.
Definition steady (e : Env) : Prop := forall i j, (i <= j)%nat -> e_now e i <= e_now e j.
Definition later (m m' : Machine) : Prop :=
  mc_env m' = mc_env m /\ (mc_step m <= mc_step m')%nat /\ mc_slept m <= mc_slept m'.

#[export] Instance later_stable : Stable later.
Proof.
  split; [split|..]; unfold later; simpl; [done| |intros; repeat split; lia..].
  intros a b c (H1 & H2 & H3) (H4 & H5 & H6). split; [congruence|lia].
Qed.
#[export] Instance later_silent e : Silent later e.
Proof. intros m. unfold later. simpl. repeat split; lia. Qed.

Lemma later_time m m' : steady (mc_env m) -> later m m' -> time_of m <= time_of m'.
Proof. intros Hs (H1 & H2 & H3). unfold time_of. rewrite H1. specialize (Hs _ _ H2). lia. Qed.

(** ** A host whose calls do not fail *)

Lemma quietly_ok {A} (c : HM A) m : quietly c m = (Ok tt, (c m).2).
Proof. unfold quietly, mbind, mtry, mret. by destruct (c m). Qed.

Lemma quietly_then {A B} (c : HM A) (k : unit -> HM B) m : (let? u := quietly c in k u) m = k tt (c m).2.
Proof. unfold mbind. by rewrite quietly_ok. Qed.

Definition no_err (m : Machine) : Prop := forall n, e_err (mc_env m) n = None.

Lemma no_err_later m m' : later m m' -> no_err m -> no_err m'.
Proof. intros (He & _) Hn n. by rewrite He. Qed.

Lemma host_call_ok m : no_err m -> host_call m = (Ok (mc_step m), step_on m).
Proof. intros Hn. unfold host_call. by rewrite Hn. Qed.
