(* ===== verification/NetLive.v ===== *)
(** * Live networks (crates/sl-node/src/netlive.rs)

    The topology of an egress sandbox: a named network namespace, a veth pair with
    a /30 of its own, a tap, a route back and NAT, made and unmade by running ip,
    nft and iptables; every name is derived from a short hash of the sandbox id. *)

From Stdlib Require Import ZArith Lia Bool List String Ascii.
From stdpp Require Import base tactics list gmap strings.
From S2P Require Import Prelude RustStr Utf8 Json Auth Proto Backend Text Machine.

Open Scope Z_scope.

Definition GW_IP : string := "172.16.0.1".
Definition GUEST_IP : string := "172.16.0.2".
Definition GUEST_CIDR : string := "172.16.0.0/30".

(** ** Names *)

(** FNV-1a on 32 bits. *)
Fixpoint fnv1a (s : string) (h : Z) : Z :=
  match s with
  | EmptyString => h
  | String b s' => fnv1a s' (as_u32 (Z.lxor h (byte_val b) * 16777619))
  end.

(** [format!("{:06x}", n)] of a number below 2^24. *)
Fixpoint hex_fixed (digits : nat) (n : Z) : string :=
  match digits with
  | O => ""%string
  | S k => hex_fixed k (n / 16) ++s String (hex_digit (n mod 16)) ""
  end.

Definition short_hash (id : string) : string := hex_fixed 6 (Z.land (fnv1a id 2166136261) 16777215).

Definition ns_for (id : string) : string := "sl-" ++s short_hash id.
Definition table_for (id : string) : string := "sl_fw_" ++s short_hash id.

(** [u32::from_str_radix(h, 16)] *)
Definition hex_val (c : ascii) : option Z :=
  let v := byte_val c in
  if (48 <=? v) && (v <=? 57) then Some (v - 48)
  else if (97 <=? v) && (v <=? 102) then Some (v - 87)
  else if (65 <=? v) && (v <=? 70) then Some (v - 55)
  else None.
Fixpoint parse_hex_digits (s : string) (acc : Z) : option Z :=
  match s with
  | EmptyString => Some acc
  | String c s' =>
      match hex_val c with
      | Some d => let v := acc * 16 + d in if v <? 2 ^ 32 then parse_hex_digits s' v else None
      | None => None
      end
  end.
Definition from_str_radix_16 (s : string) : option Z :=
  match s with
  | EmptyString => None
  | String c r =>
      if negb (Ascii.eqb c "+") then parse_hex_digits s 0
      else match r with EmptyString => None | _ => parse_hex_digits r 0 end
  end.

(** The octets of the host side's and of the namespace side's address. *)
Definition veth_octets (h : string) : Z * Z * Z :=
  let v := default 0 (from_str_radix_16 h) in
  let o3 := Z.land (Z.shiftr v 6) 255 in
  let base := as_u32 (Z.shiftl (Z.land v 63) 2) in
  (o3, base + 1, base + 2).

Definition veth_subnet (h : string) : string * string :=
  let '(o3, a, b) := veth_octets h in
  ("10.234." ++s dec o3 ++s "." ++s dec a, "10.234." ++s dec o3 ++s "." ++s dec b).

(** ** Tools *)

(** What the commands the file runs do to the network. *)
Definition tool_effect (tool : string) (args : list string) (n : Net) : Net :=
  let '(mkNet sp ln rt nat fw) := n in
  if String.eqb tool "ip" then
    match args with
    | ["netns"%string; op; ns] =>
        if String.eqb op "add" then mkNet ({[ns]} ∪ sp) ln rt nat fw
        else if String.eqb op "del" then mkNet (sp ∖ {[ns]}) ln rt nat fw else n
    | ["link"%string; "add"%string; v; "type"%string; "veth"%string; "peer"%string; "name"%string; _] =>
        mkNet sp ({[v]} ∪ ln) rt nat fw
    | ["link"%string; "del"%string; v] => mkNet sp (ln ∖ {[v]}) rt nat fw
    | ["route"%string; op; cidr; "via"%string; via; "dev"%string; dev] =>
        if String.eqb op "replace" then mkNet sp ln (<[cidr := (via, dev)]> rt) nat fw
        else if String.eqb op "del" then
          (if bool_decide (rt !! cidr = Some (via, dev)) then mkNet sp ln (delete cidr rt) nat fw else n)
        else n
    | _ => n
    end
  else if String.eqb tool "nft" then
    match args with
    | ["delete"%string; "table"%string; "ip"%string; t] => mkNet sp ln rt (nat ∖ {[t]}) fw
    | _ => n
    end
  else if String.eqb tool "iptables" then
    match args with
    | [op; "FORWARD"%string; d; v; "-j"%string; "ACCEPT"%string] =>
        if String.eqb op "-I" then mkNet sp ln rt nat ({[(d, v)]} ∪ fw)
        else if String.eqb op "-D" then mkNet sp ln rt nat (fw ∖ {[(d, v)]}) else n
    | _ => n
    end
  else n.

Definition on_net (f : Net -> Net) : HM unit := fun m => (Ok tt, set_net (f (mc_net m)) m).

(** The command, through sudo without root. *)
Definition sudo (root : bool) (tool : string) (args : list string) : HostEvent :=
  if root then ETool tool args else ETool "sudo" ("-n"%string :: tool :: args).

(** Runs the tool (through sudo without root); its trimmed output, or its error. *)
Definition tool_run (root : bool) (tool : string) (args : list string) : HM string :=
  let? n := because ("执行 " ++s tool ++s " 失败") host_call in
  let? _ := emit (sudo root tool args) in
  let? st := observe (fun e _ => e_exited e n) in
  let? out := observe (fun e _ => trim (from_utf8_lossy (e_out e n))) in
  match st with
  | None => let? _ := on_net (tool_effect tool args) in mret out
  | Some code => mfail (tool ++s " " ++s debug_list args ++s " 失败（code=" ++s code ++s "）: " ++s out)
  end.

Fixpoint after_dev (ws : list string) : option string :=
  match ws with
  | [] => None
  | w :: ws' => if String.eqb w "dev" then head ws' else after_dev ws'
  end.
Definition detect_uplink (root : bool) : HM (option string) :=
  let? r := mtry (tool_run root "ip" ["route"; "show"; "default"]%string) in
  mret (match r with Ok out => after_dev (split_whitespace out) | Err _ => None end).

Definition ns_ip_forward_on (root : bool) (ns : string) : HM unit :=
  let? n := because "开 netns ip_forward 失败" host_call in
  let? _ := emit (sudo root "ip" ["netns"; "exec"; ns; "sh"; "-c"; "echo 1 > /proc/sys/net/ipv4/ip_forward"]%string) in
  let? st := observe (fun e _ => e_exited e n) in
  match st with
  | None => mret tt
  | Some code => mfail ("开 netns " ++s ns ++s " ip_forward 失败（code=" ++s code ++s "）")
  end.

(** Applies a script that defines one NAT table. *)
Definition nft_apply_host (root : bool) (table script : string) : HM unit :=
  let? n := because "spawn nft 失败" host_call in
  let? _ := emit (sudo root "nft" ["-f"; "-"]%string) in
  let? _ := because "写 nft 脚本失败" host_call in
  let? _ := because "等 nft 失败" host_call in
  let? st := observe (fun e _ => e_exited e n) in
  let? err := observe (fun e _ => trim (from_utf8_lossy (e_out e n))) in
  match st with
  | None => on_net (fun n => mkNet (n_spaces n) (n_links n) (n_routes n) ({[table]} ∪ n_nat n) (n_forward n))
  | Some _ => mfail ("nft -f - 失败: " ++s err)
  end.

Definition nft_delete_host (root : bool) (table : string) : HM unit :=
  let? _ := tool_run root "nft" ["delete"; "table"; "ip"; table]%string in mret tt.

(** ** The topology of a sandbox *)

Record LiveNet : Type := mkLiveNet {
  ln_ns : string;
  ln_veth_h : string;
  ln_tap : string;
  ln_nat_table : string;
  ln_host_ip : string;
  ln_peer_ip : string;
  ln_root : bool
}.

Definition live_net (id ns_name : string) (root : bool) : LiveNet :=
  let h := short_hash id in
  let '(host_ip, peer_ip) := veth_subnet h in
  mkLiveNet ns_name ("slh" ++s h) ("slt" ++s h) ("sl_nat_" ++s h) host_ip peer_ip root.

Definition net_down (n : LiveNet) : HM unit :=
  let root := ln_root n in
  let? _ := quietly (tool_run root "ip" ["netns"; "del"; ln_ns n]%string) in
  let? _ := quietly (tool_run root "ip" ["link"; "del"; ln_veth_h n]%string) in
  let? _ := quietly (tool_run root "ip" ["route"; "del"; GUEST_CIDR; "via"; ln_peer_ip n; "dev"; ln_veth_h n]%string) in
  let? _ := quietly (nft_delete_host root (ln_nat_table n)) in
  let? _ := quietly (tool_run root "iptables" ["-D"; "FORWARD"; "-i"; ln_veth_h n; "-j"; "ACCEPT"]%string) in
  quietly (tool_run root "iptables" ["-D"; "FORWARD"; "-o"; ln_veth_h n; "-j"; "ACCEPT"]%string).

Definition lf : string := String newline "".
Definition tab : string := String "009" "".

Definition nat_script (t uplink : string) : string :=
  "add table ip " ++s t ++s lf ++s "delete table ip " ++s t ++s lf ++s "table ip " ++s t ++s " {" ++s lf ++s
  tab ++s "chain post {" ++s lf ++s
  tab ++s tab ++s "type nat hook postrouting priority srcnat; policy accept;" ++s lf ++s
  tab ++s tab ++s "ip saddr " ++s GUEST_CIDR ++s " oifname " ++s quoted uplink ++s " masquerade" ++s lf ++s
  tab ++s "}" ++s lf ++s "}" ++s lf.

(** [LiveNet::up]: a step that fails returns at once. *)
Definition net_up (id ns_name uplink : string) (root : bool) : HM LiveNet :=
  let h := short_hash id in
  let net := live_net id ns_name root in
  let veth_h := ln_veth_h net in
  let veth_p := "slp" ++s h in
  let tap := ln_tap net in
  let ip args := tool_run root "ip" args in
  let? _ := net_down net in
  let? _ := ip ["netns"; "add"; ns_name]%string in
  let? _ := ip ["-n"; ns_name; "link"; "set"; "lo"; "up"]%string in
  let? _ := ip ["link"; "add"; veth_h; "type"; "veth"; "peer"; "name"; veth_p]%string in
  let? _ := ip ["link"; "set"; veth_p; "netns"; ns_name]%string in
  let? _ := ip ["addr"; "add"; ln_host_ip net ++s "/30"; "dev"; veth_h]%string in
  let? _ := ip ["link"; "set"; veth_h; "up"]%string in
  let? _ := ip ["-n"; ns_name; "addr"; "add"; ln_peer_ip net ++s "/30"; "dev"; veth_p]%string in
  let? _ := ip ["-n"; ns_name; "link"; "set"; veth_p; "up"]%string in
  let? _ := ip ["-n"; ns_name; "route"; "add"; "default"; "via"; ln_host_ip net]%string in
  let? _ := ip ["netns"; "exec"; ns_name; "ip"; "tuntap"; "add"; "dev"; tap; "mode"; "tap"]%string in
  let? _ := ip ["-n"; ns_name; "addr"; "add"; GW_IP ++s "/30"; "dev"; tap]%string in
  let? _ := ip ["-n"; ns_name; "link"; "set"; tap; "up"]%string in
  let? _ := ns_ip_forward_on root ns_name in
  let? _ := because "开 host ip_forward 失败（需 root）" host_call in
  let? _ := quietly (ip ["route"; "replace"; GUEST_CIDR; "via"; ln_peer_ip net; "dev"; veth_h]%string) in
  let? _ := nft_apply_host root (ln_nat_table net) (nat_script (ln_nat_table net) uplink) in
  let? _ := quietly (tool_run root "iptables" ["-I"; "FORWARD"; "-i"; veth_h; "-j"; "ACCEPT"]%string) in
  let? _ := quietly (tool_run root "iptables" ["-I"; "FORWARD"; "-o"; veth_h; "-j"; "ACCEPT"]%string) in
  mret net.

(** ** Frames *)

Section NetFrames.
Context (R : Machine -> Machine -> Prop) `{!Stable R} (Htool : forall t a, Silent R (ETool t a)).

#[local] Existing Instance Htool.

Lemma frame_on_net f : Keeps R (on_net f).
Proof. intros m. apply stable_net. Qed.
#[local] Existing Instance frame_on_net.

#[local] Instance silent_sudo root t a : Silent R (sudo root t a).
Proof. destruct root; apply _. Qed.

#[export] Instance frame_tool_run root tool args : Keeps R (tool_run root tool args).
Proof. unfold tool_run. solve_keeps. Qed.
#[export] Instance frame_detect_uplink root : Keeps R (detect_uplink root).
Proof. unfold detect_uplink. solve_keeps. Qed.
#[export] Instance frame_net_down n : Keeps R (net_down n).
Proof. unfold net_down, nft_delete_host. solve_keeps. Qed.
#[export] Instance frame_net_up id ns up root : Keeps R (net_up id ns up root).
Proof. unfold net_up, ns_ip_forward_on, nft_apply_host. solve_keeps. Qed.
End NetFrames.

(** ** Names and addresses *)

Lemma hex_val_digit d : 0 <= d < 16 -> hex_val (hex_digit d) = Some d.
Proof.
  intros Hd. assert (forallb (fun d => bool_decide (hex_val (hex_digit d) = Some d)) (map Z.of_nat (seq 0 16)) = true) as Hf by reflexivity.
  rewrite forallb_forall in Hf. eapply bool_decide_eq_true, Hf. apply in_map_iff. exists (Z.to_nat d). rewrite in_seq. lia.
Qed.

Lemma hex_fixed_length k n : String.length (hex_fixed k n) = k.
Proof. revert n. induction k as [|k IH]; intros n; simpl; [done|]. rewrite app_length_s, IH. simpl. lia. Qed.

Lemma parse_hex_fixed k : forall n t acc, 0 <= n < 16 ^ Z.of_nat k -> 0 <= acc -> acc * 16 ^ Z.of_nat k + n < 2 ^ 32 ->
  parse_hex_digits (hex_fixed k n ++s t) acc = parse_hex_digits t (acc * 16 ^ Z.of_nat k + n).
Proof.
  induction k as [|k IH]; intros n t acc Hn Ha Hb.
  - simpl in *. f_equal. lia.
  - assert (16 ^ Z.of_nat (S k) = 16 * 16 ^ Z.of_nat k) as Hp by (rewrite Nat2Z.inj_succ, Z.pow_succ_r; lia).
    rewrite Hp in *. assert (0 < 16 ^ Z.of_nat k) by (apply Z.pow_pos_nonneg; lia).
    pose proof (Z.mod_pos_bound n 16). pose proof (Z.div_mod n 16). assert (n / 16 < 16 ^ Z.of_nat k) by (apply Z.div_lt_upper_bound; lia).
    assert (0 <= n / 16) by (apply Z.div_pos; lia).
    cbn [hex_fixed]. rewrite app_assoc_s, IH by nia. cbn [String.append parse_hex_digits]. rewrite hex_val_digit by lia.
    replace ((acc * 16 ^ Z.of_nat k + n / 16) * 16 + n mod 16) with (acc * (16 * 16 ^ Z.of_nat k) + n) by nia.
    destruct (Z.ltb_spec (acc * (16 * 16 ^ Z.of_nat k) + n) (2 ^ 32)); [done|lia].
Qed.

Lemma digit_not_plus d : 0 <= d < 16 -> Ascii.eqb (hex_digit d) "+" = false.
Proof. intros Hd. apply Ascii.eqb_neq. intros E. pose proof (hex_val_digit d Hd) as Hv. by rewrite E in Hv. Qed.

Lemma hex_fixed_head k n : 0 <= n -> exists d r, hex_fixed (S k) n = String (hex_digit d) r /\ 0 <= d < 16.
Proof.
  revert n. induction k as [|k IH]; intros n Hn.
  - exists (n mod 16), ""%string. split; [done|]. apply Z.mod_pos_bound. lia.
  - destruct (IH (n / 16)) as (d & r & E & Hd); [by apply Z.div_pos|]. remember (S k) as k' eqn:Ek.
    cbn [hex_fixed]. rewrite E. simpl. by eexists _, _.
Qed.

Lemma hex_fixed_reads k n : 0 <= n < 16 ^ Z.of_nat (S k) -> n < 2 ^ 32 -> from_str_radix_16 (hex_fixed (S k) n) = Some n.
Proof.
  intros Hn Hb. destruct (hex_fixed_head k n) as (d & r & E & Hd); [lia|]. unfold from_str_radix_16. rewrite E, digit_not_plus by done.
  cbn [negb]. rewrite <- E, <- (app_nil_s (hex_fixed (S k) n)), parse_hex_fixed by lia. simpl parse_hex_digits. f_equal.
Qed.

Lemma short_hash_reads id : from_str_radix_16 (short_hash id) = Some (Z.land (fnv1a id 2166136261) 16777215).
Proof.
  unfold short_hash. change 16777215 with (Z.ones 24). rewrite Z.land_ones by lia. pose proof (Z.mod_pos_bound (fnv1a id 2166136261) (2 ^ 24)).
  apply hex_fixed_reads; [change (16 ^ Z.of_nat 6) with (2 ^ 24)|]; lia.
Qed.

(** The octets of a hash that reads as [v]. *)
Lemma octets_bounds h v : from_str_radix_16 h = Some v ->
  let '(o3, a, b) := veth_octets h in 0 <= o3 <= 255 /\ a mod 4 = 1 /\ b = a + 1 /\ b <= 254.
Proof.
  intros E. unfold veth_octets. rewrite E. simpl. change 255 with (Z.ones 8). change 63 with (Z.ones 6). rewrite !Z.land_ones by lia.
  rewrite Z.shiftl_mul_pow2 by lia. pose proof (Z.mod_pos_bound (Z.shiftr v 6) (2 ^ 8)). pose proof (Z.mod_pos_bound v (2 ^ 6)).
  rewrite as_u32_id by lia. split; [change (Z.ones 8) with 255; lia|]. split; [|lia].
  rewrite Z.add_comm. change (2 ^ 2) with 4. by rewrite Z_mod_plus_full.
Qed.

(**  the names and addresses of an egress sandbox are well formed.  Whatever the
    id, its hash has six digits that read back to 24 bits of the FNV-1a hash, its
    interfaces' names fit the kernel's 15 bytes, and its two addresses are the first
    and the second host of a /30 inside 10.234.0.0/16. *)
Theorem egress_addresses (id ns : string) (root : bool) :
  let h := short_hash id in
  let '(o3, a, b) := veth_octets h in
  String.length h = 6%nat /\
  from_str_radix_16 h = Some (Z.land (fnv1a id 2166136261) 16777215) /\
  (String.length (ln_veth_h (live_net id ns root)) <= 15)%nat /\ (String.length (ln_tap (live_net id ns root)) <= 15)%nat /\
  0 <= o3 <= 255 /\ a mod 4 = 1 /\ b = a + 1 /\ b <= 254 /\
  ln_host_ip (live_net id ns root) = "10.234." ++s dec o3 ++s "." ++s dec a /\
  ln_peer_ip (live_net id ns root) = "10.234." ++s dec o3 ++s "." ++s dec b.
Proof.
  cbv zeta. pose proof (octets_bounds _ _ (short_hash_reads id)) as Hb. unfold live_net, veth_subnet.
  destruct (veth_octets (short_hash id)) as [[o3 a] b] eqn:E. destruct Hb as (H1 & H2 & H3 & H4).
  assert (String.length (short_hash id) = 6%nat) as Hl by apply hex_fixed_length.
  cbn [ln_veth_h ln_tap ln_host_ip ln_peer_ip]. rewrite !app_length_s, Hl. cbn [String.length].
  split; [done|]. split; [apply short_hash_reads|]. split; [lia|]. by split; [lia|].
Qed.

(** ** Up and down *)

(** Every call succeeds, and every command exits with zero. *)
Definition all_well (m : Machine) : Prop := no_err m /\ forall n, e_exited (mc_env m) n = None.

Lemma all_well_env m m' : mc_env m' = mc_env m -> all_well m -> all_well m'.
Proof. unfold all_well, no_err. by intros ->. Qed.

(** On a host that answers, [c] returns a value of [Q] and changes the network by [f]. *)
Definition acts {A} (c : HM A) (f : Net -> Net) (Q : A -> Prop) : Prop :=
  forall m, all_well m -> exists v m', c m = (Ok v, m') /\ Q v /\ mc_net m' = f (mc_net m) /\ mc_env m' = mc_env m.

Lemma acts_bind {A B} (c : HM A) (k : A -> HM B) f g Q R :
  acts c f Q -> (forall v, Q v -> acts (k v) g R) -> acts (let? v := c in k v) (fun n => g (f n)) R.
Proof.
  intros Hc Hk m Hm. destruct (Hc m Hm) as (v & m1 & E1 & Hv & N1 & V1).
  assert (all_well m1) as Hm1 by by eapply all_well_env. destruct (Hk v Hv m1 Hm1) as (w & m2 & E2 & Hw & N2 & V2).
  exists w, m2. unfold mbind. rewrite E1, E2. split; [done|]. split; [done|]. by rewrite N2, N1, V2, V1.
Qed.
Lemma acts_ret {A} (v : A) : acts (mret v) (fun n => n) (eq v).
Proof. intros m _. by exists v, m. Qed.
Lemma acts_call_ok msg : acts (because msg host_call) (fun n => n) (fun _ => True).
Proof. intros m [Hm _]. unfold because, map_err. rewrite host_call_ok by done. by do 2 eexists. Qed.
Lemma acts_emit e : acts (emit e) (fun n => n) (fun _ => True).
Proof. intros m _. by do 2 eexists. Qed.
Lemma acts_exited n : acts (observe (fun e _ => e_exited e n)) (fun n => n) (eq None).
Proof. intros m [_ Hm]. unfold observe. rewrite Hm. by do 2 eexists. Qed.
Lemma acts_observe {A} (f : Env -> nat -> A) : acts (observe f) (fun n => n) (fun _ => True).
Proof. intros m _. by do 2 eexists. Qed.
Lemma acts_net f : acts (on_net f) f (fun _ => True).
Proof. intros m _. by do 2 eexists. Qed.
Lemma acts_weaken {A} (c : HM A) f Q : acts c f Q -> acts c f (fun _ => True).
Proof. intros Hc m Hm. destruct (Hc m Hm) as (v & m1 & E & _ & H1 & H2). by exists v, m1. Qed.

Lemma acts_skip {A B} (c : HM A) (k : A -> HM B) g Q R :
  acts c (fun n => n) Q -> (forall v, Q v -> acts (k v) g R) -> acts (let? v := c in k v) g R.
Proof. intros Hc Hk. exact (acts_bind c k (fun n => n) g Q R Hc Hk). Qed.

(** One call after another that leaves the network as it is. *)
Ltac acts_step :=
  eapply acts_skip; [first [apply acts_call_ok|apply acts_emit|apply acts_exited|apply acts_observe]|intros ? ?; subst; cbv beta iota].

Lemma acts_tool root t a : acts (tool_run root t a) (tool_effect t a) (fun _ => True).
Proof.
  unfold tool_run. do 4 acts_step. apply (acts_bind _ _ (tool_effect t a) (fun n => n) (fun _ => True)); [apply acts_net|intros _ _].
  eapply acts_weaken, acts_ret.
Qed.
Lemma acts_quietly {A} (c : HM A) f Q : acts c f Q -> acts (quietly c) f (fun _ => True).
Proof. intros Hc m Hm. destruct (Hc m Hm) as (v & m1 & E & _ & H1 & H2). exists tt, m1. rewrite quietly_ok, E. done. Qed.
Lemma acts_delete_table root t : acts (nft_delete_host root t) (tool_effect "nft" ["delete"; "table"; "ip"; t]%string) (fun _ => True).
Proof.
  unfold nft_delete_host. apply (acts_bind _ _ (tool_effect "nft" ["delete"; "table"; "ip"; t]%string) (fun n => n) (fun _ => True));
    [apply acts_tool|intros ? _]. eapply acts_weaken, acts_ret.
Qed.
Lemma acts_forward root ns : acts (ns_ip_forward_on root ns) (fun n => n) (fun _ => True).
Proof. unfold ns_ip_forward_on. do 3 acts_step. eapply acts_weaken, acts_ret. Qed.
Lemma acts_nat root t s : acts (nft_apply_host root t s)
  (fun n => mkNet (n_spaces n) (n_links n) (n_routes n) ({[t]} ∪ n_nat n) (n_forward n)) (fun _ => True).
Proof. unfold nft_apply_host. do 6 acts_step. apply acts_net. Qed.

(** What is there when the sandbox [l] has its network, and when it has none. *)
Definition with_net (l : LiveNet) (n : Net) : Net :=
  mkNet ({[ln_ns l]} ∪ n_spaces n) ({[ln_veth_h l]} ∪ n_links n) (<[GUEST_CIDR := (ln_peer_ip l, ln_veth_h l)]> (n_routes n))
        ({[ln_nat_table l]} ∪ n_nat n) ({[("-i"%string, ln_veth_h l); ("-o"%string, ln_veth_h l)]} ∪ n_forward n).
Definition without_net (l : LiveNet) (n : Net) : Net :=
  mkNet (n_spaces n ∖ {[ln_ns l]}) (n_links n ∖ {[ln_veth_h l]})
        (if bool_decide (n_routes n !! GUEST_CIDR = Some (ln_peer_ip l, ln_veth_h l)) then delete GUEST_CIDR (n_routes n) else n_routes n)
        (n_nat n ∖ {[ln_nat_table l]}) (n_forward n ∖ {[("-i"%string, ln_veth_h l); ("-o"%string, ln_veth_h l)]}).

Lemma net_ext (a b : Net) : n_spaces a = n_spaces b -> n_links a = n_links b -> n_routes a = n_routes b ->
  n_nat a = n_nat b -> n_forward a = n_forward b -> a = b.
Proof. destruct a, b. simpl. congruence. Qed.

Lemma acts_down l : acts (net_down l) (without_net l) (fun _ => True).
Proof.
  intros m Hm. unfold net_down. cbv zeta.
  assert (exists f, acts (net_down l) f (fun _ => True) /\ forall n, f n = without_net l n) as (f & Hf & Ef).
  { eexists. split.
    - unfold net_down. cbv zeta. repeat (eapply acts_bind; [eapply acts_quietly; first [apply acts_delete_table|apply acts_tool]|intros _ _]).
      eapply acts_quietly, acts_tool.
    - intros [sp ln rt nat fw]. cbv beta. unfold without_net. cbn [n_spaces n_links n_routes n_nat n_forward].
      cbn. destruct (bool_decide _); cbn; f_equal; set_solver. }
  destruct (Hf m Hm) as (v & m' & H1 & H2 & H3 & H4). rewrite Ef in H3. by exists v, m'.
Qed.

Lemma acts_up id ns uplink root : acts (net_up id ns uplink root) (fun n => with_net (live_net id ns root) (without_net (live_net id ns root) n))
  (eq (live_net id ns root)).
Proof.
  intros m Hm. set (l := live_net id ns root).
  assert (ln_ns l = ns) as Hns by (unfold l, live_net; by destruct (veth_subnet _)).
  assert (exists f, acts (net_up id ns uplink root) f (eq l) /\ forall n, f n = with_net l (without_net l n)) as (f & Hf & Ef).
  { eexists. split.
    - unfold net_up. cbv zeta. fold l. eapply acts_bind; [apply acts_down|intros _ _].
      repeat (eapply acts_bind; [first [apply acts_tool|apply acts_forward|apply acts_call_ok|apply acts_nat|eapply acts_quietly, acts_tool]|intros ? _]).
      apply acts_ret.
    - intros n. cbv beta. generalize (without_net l n). clear n. intros [sp ln rt nat fw]. unfold with_net.
      cbn [n_spaces n_links n_routes n_nat n_forward]. rewrite Hns. cbn. f_equal; set_solver. }
  destruct (Hf m Hm) as (v & m' & H1 & H2 & H3 & H4). rewrite Ef in H3. by exists v, m'.
Qed.

(**  the network of an egress sandbox comes and goes whole.  On a host whose calls
    and commands succeed, [net_up] leaves the namespace, the veth, the NAT table, the
    forwarding rules and the route of the sandbox in place, whatever was there of an
    earlier run, and [net_down] then leaves none of them, and of what was there before
    nothing else is touched but the one route to the guests' network. *)
Theorem egress_net_no_residue (id ns uplink : string) (root : bool) (m : Machine) :
  let l := live_net id ns root in
  all_well m ->
  exists m1 m2, net_up id ns uplink root m = (Ok l, m1) /\ mc_net m1 = with_net l (without_net l (mc_net m)) /\
    net_down l m1 = (Ok tt, m2) /\
    mc_net m2 = mkNet (n_spaces (mc_net m) ∖ {[ns]}) (n_links (mc_net m) ∖ {[ln_veth_h l]}) (delete GUEST_CIDR (n_routes (mc_net m)))
                  (n_nat (mc_net m) ∖ {[ln_nat_table l]})
                  (n_forward (mc_net m) ∖ {[("-i"%string, ln_veth_h l); ("-o"%string, ln_veth_h l)]}).
Proof.
  intros l Hm. destruct (acts_up id ns uplink root m Hm) as (v & m1 & E1 & <- & N1 & V1).
  assert (all_well m1) as Hm1 by by eapply all_well_env. destruct (acts_down l m1 Hm1) as ([] & m2 & E2 & _ & N2 & _).
  exists m1, m2. split; [done|]. split; [done|]. split; [done|]. rewrite N2, N1.
  assert (ln_ns l = ns) as Hns by (unfold l, live_net; by destruct (veth_subnet _)).
  unfold without_net, with_net. cbn [n_spaces n_links n_routes n_nat n_forward]. rewrite Hns, lookup_insert_eq, bool_decide_true by done.
  fold l. rewrite delete_insert_eq. f_equal; [set_solver|set_solver| |set_solver|set_solver].
  case_bool_decide; [by rewrite delete_delete_eq|done].
Qed.
