(* ===== verification/Restore.v ===== *)
(** * Restoring microVMs (crates/sl-node/src/lib.rs)

    Starting Firecracker on a snapshot: the park phase loads the snapshot with the
    vCPUs stopped, the activate phase puts the network policy in place, resumes,
    gives the clone its identity and checks that it is the snapshot that runs;
    [cold_boot_egress] boots a machine with a network interface instead. *)

From Stdlib Require Import ZArith Lia Bool List String Ascii.
From stdpp Require Import base tactics list gmap strings.
From S2P Require Import Prelude RustStr Utf8 Json Auth Proto Backend Text F64 Machine NetLive.

Open Scope Z_scope.

Record Config : Type := mkConfig { cf_fc_bin : string; cf_kernel : string; cf_uplink : option string }.

Record LoadOutcome : Type := mkLoad {
  lo_api_ready_ms : Z;
  lo_load_ms : Z;
  lo_resume_ms : Z;
  lo_total_ms : Z;
  lo_marker : string;
  lo_loaded_uptime : f64;
  lo_want_token : string;
  lo_want_uptime : f64;
  lo_policy_before_resume : bool;
  lo_policy_margin_us : Z;
  lo_machine_id : string;
  lo_rng_hex : string;
  lo_session_key_hex : string
}.

Record RestoreCtx : Type := mkCtx {
  rc_template_dir : string;
  rc_instance_dir : string;
  rc_bind : option (string * string);
  rc_keep_alive : bool;
  rc_netns : option string
}.

Record ParkedVm : Type := mkParked {
  pv_child : nat;
  pv_api_host : string;
  pv_vsock : string;
  pv_spawn_at : Z;
  pv_api_ready_ms : Z;
  pv_load_ms : Z;
  pv_want_token : string;
  pv_want_uptime : f64
}.

(** ** Waiting and talking *)

Definition READY_TIMEOUT_NS : Z := 20 * 1000000000.

Definition spawn_with_log (args : list string) (console_log : string) : HM nat :=
  let? _ := because "建 console.log 失败" (create_file console_log) in
  let? _ := because "clone log fd 失败" host_call in
  because "spawn microVM 失败" (spawn args).

(** [FcApi::wait_ready] (fcapi.rs): until the socket Firecracker makes is there and
    can be connected to, every 20 ms; [fuel] bounds the turns. *)
Fixpoint api_wait_loop (fuel : nat) (sock : string) (start timeout : Z) : HM unit :=
  let? r := mtry host_call in
  match r with
  | Ok _ => mret tt
  | Err _ =>
      let? now := instant in
      let late := mfail ("api-sock 未就绪（" ++s dec (timeout / 1000000) ++s "ms）: " ++s sock) in
      if timeout <=? Z.max 0 (now - start) then late
      else
        let? _ := sleep 20000000 in
        match fuel with
        | O => late
        | S fuel' => api_wait_loop fuel' sock start timeout
        end
  end.

(** Enough turns for a timeout. *)
Definition turns (timeout step : Z) : nat := Z.to_nat (timeout / step + 1).

Definition api_wait_ready (sock : string) (timeout : Z) : HM unit :=
  let? t := instant in api_wait_loop (turns timeout 20000000) sock t timeout.

Fixpoint wait_api_loop (fuel : nat) (sock : string) (deadline : Z) : HM unit :=
  let? exited := observe e_exited in
  match exited with
  | Some status => mfail ("FC 在 API 就绪前退出（status=" ++s status ++s "），见 console.log")
  | None =>
      let? r := mtry (api_wait_ready sock 100000000) in
      match r with
      | Ok _ => mret tt
      | Err e =>
          let? now := instant in
          if now <? deadline then
            match fuel with
            | O => mfail e
            | S fuel' => wait_api_loop fuel' sock deadline
            end
          else mfail e
      end
  end.

Definition wait_api_ready (sock : string) : HM unit :=
  let? t := instant in wait_api_loop (turns READY_TIMEOUT_NS 100000000) sock (t + READY_TIMEOUT_NS).

(** The bytes up to the first newline or the end of the stream. *)
Definition read_line_raw (bytes : string) : string :=
  from_utf8_lossy (match split_once newline bytes with Some (l, _) => l | None => bytes end).

Definition connect_guest (vsock : string) : HM string :=
  let? _ := host_call in
  let? _ := host_call in
  let? n := host_call in
  let? line := observe (fun e _ => read_line_raw (e_out e n)) in
  if starts_with "OK" line then mret vsock
  else mfail ("握手未获 OK（guest 端口 " ++s dec ENVD_VSOCK_PORT ++s " 未就绪？）: " ++s debug_str line).

(** The loop of [wait_guest]: a turn that fails sleeps 50 ms. *)
Fixpoint wait_guest_loop (fuel : nat) (start : Z) (vsock : string) : HM string :=
  let? exited := observe e_exited in
  match exited with
  | Some status => mfail ("microVM 提前退出（status=" ++s status ++s "），见 console.log")
  | None =>
      let? r := mtry (connect_guest vsock) in
      match r with
      | Ok s => mret s
      | Err e =>
          let? now := instant in
          let late := mfail ("等待 guest sl-envd 就绪超时（20s）: " ++s e) in
          if Z.max 0 (now - start) <? READY_TIMEOUT_NS then
            let? _ := sleep 50000000 in
            match fuel with
            | O => late
            | S fuel' => wait_guest_loop fuel' start vsock
            end
          else late
      end
  end.

Definition wait_guest (vsock : string) : HM string :=
  let? t := instant in wait_guest_loop (turns READY_TIMEOUT_NS 50000000) t vsock.

Definition request (stream : string) (req : Request) : HM Response :=
  let? _ := because "发请求失败" host_call in
  let? _ := emit (ERequest stream req) in
  let? n := because "收响应失败" host_call in
  fun m => (Ok (e_reply (mc_env m) n req), m).

Definition guest_exec (stream cmd : string) : HM (Z * string * string) :=
  let? r := request stream (Exec cmd) in
  match r with
  | ExecDone c o e => mret (c, o, e)
  | Error m => mfail ("envd 执行错误: " ++s m)
  | other => mfail ("非预期响应: " ++s debug_response other)
  end.

Definition send_reinit (stream seed_hex hostname : string) (wall_time_ns : Z) : HM (string * string * string) :=
  let? r := request stream (Reinit seed_hex hostname wall_time_ns) in
  match r with
  | ReinitDone mid rng key => mret (mid, rng, key)
  | Error m => mfail ("reinit 失败: " ++s m)
  | other => mfail ("reinit 非预期响应: " ++s debug_response other)
  end.

(** A call of the Firecracker API; an answer that is not 2xx is an error. *)
Definition api_call (sock method path body : string) : HM unit :=
  let? _ := host_call in emit (EApi sock method path body).

Definition vm_state (state : string) : string := "{" ++s quoted "state" ++s ":" ++s quoted state ++s "}".
Definition patch_vm (sock state : string) : HM unit := api_call sock "PATCH" "/vm" (vm_state state).

(** ** Network policy *)

Definition gate_up (ns table : string) : HM (string * string) :=
  let? _ := host_call in
  let? _ := emit (EGate ns table) in
  mret (ns, table).
Definition gate_teardown (g : string * string) : HM unit := let? _ := host_call in emit (EGateDown g.1 g.2).

Definition apply_network_policy (netns : option string) : HM (Z * option (string * string)) :=
  match netns with
  | None => let? t := instant in mret (t, None)
  | Some ns =>
      let? root := is_root in
      if negb root then mfail "live 门禁需 root（ip netns exec / nft）"
      else
        let? sb := because "live 门禁 ensure 失败（fail-closed，不 resume）" (gate_up ns (table_for ns)) in
        let? t := instant in mret (t, Some sb)
  end.

(** ** Park *)

Definition sq (p : string) : string := "'" ++s p ++s "'".

Definition bind_script (cfg : Config) (src dst api_host : string) : string :=
  "mount --bind " ++s sq src ++s " " ++s sq dst ++s " && exec " ++s sq (cf_fc_bin cfg) ++s " --api-sock " ++s sq api_host.

Definition spawn_args (cfg : Config) (ctx : RestoreCtx) (as_root : bool) (api_host : string) : list string :=
  match rc_bind ctx, rc_netns ctx with
  | Some (src, dst), Some ns =>
      ["ip"; "netns"; "exec"; ns; "unshare"; "--mount"; "--propagation"; "private"; "sh"; "-c";
       bind_script cfg src dst api_host]%string
  | None, Some ns => ["ip"; "netns"; "exec"; ns; cf_fc_bin cfg; "--api-sock"; api_host]%string
  | Some (src, dst), None =>
      (if as_root then ["unshare"; "--mount"; "--propagation"; "private"]
       else ["unshare"; "--user"; "--map-root-user"; "--mount"; "--propagation"; "private"])%string
        ++ ["sh"; "-c"; bind_script cfg src dst api_host]%string
  | None, None => [cf_fc_bin cfg; "--api-sock"; api_host]%string
  end.

Definition require_file (label p : string) : HM unit :=
  let? ex := path_exists p in
  if ex then mret tt else mfail ("恢复缺 " ++s label ++s ": " ++s p ++s "（先跑 --snap-create / --build）").

Definition load_body (vmstate mem : string) : string :=
  "{" ++s quoted "snapshot_path" ++s ":" ++s quoted vmstate ++s "," ++s quoted "mem_backend" ++s ":{" ++s
  quoted "backend_type" ++s ":" ++s quoted "File" ++s "," ++s quoted "backend_path" ++s ":" ++s quoted mem ++s "}," ++s
  quoted "enable_diff_snapshots" ++s ":false," ++s quoted "resume_vm" ++s ":false}".

(** Kills the child and removes the sockets. *)
Definition drop_vm (child : nat) (api_host vsock : string) : HM unit :=
  let? _ := kill_group child in
  let? _ := quietly (remove_file api_host) in
  quietly (remove_file vsock).

Definition load_snapshot (spawn_at : Z) (api_host vmstate mem : string) : HM (Z * Z) :=
  let? _ := wait_api_ready api_host in
  let? api_ready_ms := elapsed_ms spawn_at in
  let? load_at := instant in
  let? _ := api_call api_host "PUT" "/snapshot/load" (load_body vmstate mem) in
  let? load_ms := elapsed_ms load_at in
  mret (api_ready_ms, load_ms).

Definition restore_park (cfg : Config) (ctx : RestoreCtx) : HM ParkedVm :=
  let? tdir := abspath (rc_template_dir ctx) in
  let? idir := abspath (rc_instance_dir ctx) in
  let vmstate := join_path idir "vmstate" in
  let mem := join_path idir "mem" in
  let vsock := join_path idir "vsock.sock" in
  let api_host := join_path idir "api.sock" in
  let? _ := require_file "vmstate" vmstate in
  let? _ := require_file "mem" mem in
  let? _ := require_file "rootfs.ext4" (join_path tdir "rootfs.ext4") in
  let? _ := quietly (remove_file vsock) in
  let? _ := quietly (remove_file api_host) in
  let? expect := because "读 expect 失败" (read_to_string (join_path tdir "expect")) in
  let want_token := default ""%string (lines expect !! 0%nat) in
  let want_uptime := default f64_zero (lines expect !! 1%nat ≫= parse_f64) in
  let? as_root := is_root in
  let? spawn_at := instant in
  let? child := spawn_with_log (spawn_args cfg ctx as_root api_host) (join_path idir "console.load.log") in
  let? times := or_cleanup (load_snapshot spawn_at api_host vmstate mem) (drop_vm child api_host vsock) id in
  mret (mkParked child api_host vsock spawn_at times.1 times.2 want_token want_uptime).

(** ** Activate *)

(** [Some e]: an invariant of the restore is broken. *)
Definition validate_outcome (o : LoadOutcome) : option string :=
  if negb (String.eqb (lo_marker o) (lo_want_token o)) then
    Some ("状态不一致：marker 期望 " ++s debug_str (lo_want_token o) ++s " 实得 " ++s debug_str (lo_marker o))
  else if f64_lt (f64_add (lo_loaded_uptime o) (f64_ratio false 1 2)) (lo_want_uptime o) then
    Some ("疑似重启而非恢复：loaded uptime " ++s fmt2 (lo_loaded_uptime o) ++s "s ≪ 快照点 " ++s fmt2 (lo_want_uptime o) ++s "s")
  else if negb (lo_policy_before_resume o) then Some "ADR-13 违背：策略钩子未在 resume 之前生效"%string
  else None.

Definition ping (stream data failed : string) : HM unit :=
  let? r := request stream (Ping data) in
  match r with
  | Pong d => if String.eqb d data then mret tt else mfail (failed ++s debug_response r)
  | _ => mfail (failed ++s debug_response r)
  end.

(** A fresh identity for the guest. *)
Definition reinit_guest (stream : string) : HM (string * string * string) :=
  let? seed := host_random 32 in
  let hostname := "sandlocker-" ++s hex (str_take 4 seed) in
  let? wall := observe e_wall_ns in
  send_reinit stream (hex seed) hostname wall.

(** The closure of [restore_activate] after the policy is in place. *)
Definition activate (p : ParkedVm) (policy_at : Z) : HM LoadOutcome :=
  let? resume_at := instant in
  let? _ := patch_vm (pv_api_host p) "Resumed" in
  let? resume_ms := elapsed_ms resume_at in
  let? stream := wait_guest (pv_vsock p) in
  let? total_ms := elapsed_ms (pv_spawn_at p) in
  let? _ := because "设读超时失败" host_call in
  let? _ := ping stream "restore" "恢复后 Ping 失败: " in
  let? identity := reinit_guest stream in
  let '(machine_id, rng_hex, session_key_hex) := identity in
  let? mk := guest_exec stream "cat /tmp/sl-snap-marker" in
  let? up := guest_exec stream "cat /proc/uptime" in
  let loaded_uptime := default f64_zero (head (split_whitespace up.1.2) ≫= parse_f64) in
  mret (mkLoad (pv_api_ready_ms p) (pv_load_ms p) resume_ms total_ms (trim mk.1.2) loaded_uptime (pv_want_token p)
          (pv_want_uptime p) (policy_at <=? resume_at) (Z.max 0 (resume_at - policy_at) / 1000) machine_id rng_hex
          session_key_hex).

Definition drop_gate (g : option (string * string)) : HM unit :=
  match g with Some sb => quietly (gate_teardown sb) | None => mret tt end.

Definition restore_activate (netns : option string) (keep_alive : bool) (p : ParkedVm)
    : HM (LoadOutcome * option nat * option (string * string)) :=
  let drop := drop_vm (pv_child p) (pv_api_host p) (pv_vsock p) in
  let? pol := or_cleanup (apply_network_policy netns) drop id in
  let '(policy_at, gate) := pol in
  let? o := or_cleanup (activate p policy_at) (let? _ := drop in drop_gate gate) id in
  match validate_outcome o with
  | Some msg => let? _ := drop in let? _ := drop_gate gate in mfail msg
  | None => if keep_alive then mret (o, Some (pv_child p), gate) else let? _ := drop in mret (o, None, gate)
  end.

Definition restore_core (cfg : Config) (ctx : RestoreCtx) : HM (LoadOutcome * option nat * option (string * string)) :=
  let? parked := restore_park cfg ctx in
  restore_activate (rc_netns ctx) (rc_keep_alive ctx) parked.

(** ** Cold boot with a network interface *)

Definition boot_args : string :=
  "console=ttyS0 reboot=k panic=1 pci=off i8042.noaux i8042.nomux i8042.nopnp i8042.dumbkbd init=/sbin/sl-envd root=/dev/vda rw".
Definition GUEST_MAC : string := "AA:FC:00:00:00:01".
Definition GUEST_CID : Z := 3.

(** [{"k":v,...}] of texts that are already JSON. *)
Fixpoint raw_fields (fs : list (string * string)) : string :=
  match fs with
  | [] => ""%string
  | [(k, v)] => quoted k ++s ":" ++s v
  | (k, v) :: fs' => quoted k ++s ":" ++s v ++s "," ++s raw_fields fs'
  end.
Definition raw_object (fs : list (string * string)) : string := "{" ++s raw_fields fs ++s "}".

Definition boot_machine (kernel rootfs api_host vsock : string) (net : LiveNet) (vcpus mem_mib : Z)
    : HM (string * string * string) :=
  let put path fs := api_call api_host "PUT" path (raw_object fs) in
  let? _ := wait_api_ready api_host in
  let? _ := put "/machine-config"%string [("vcpu_count"%string, dec vcpus); ("mem_size_mib"%string, dec mem_mib)] in
  let? _ := put "/boot-source"%string [("kernel_image_path"%string, quoted kernel); ("boot_args"%string, quoted boot_args)] in
  let? _ := put "/drives/rootfs"%string
              [("drive_id"%string, quoted "rootfs"); ("path_on_host"%string, quoted rootfs);
               ("is_root_device"%string, "true"%string); ("is_read_only"%string, "false"%string)] in
  let? _ := put "/network-interfaces/eth0"%string
              [("iface_id"%string, quoted "eth0"); ("host_dev_name"%string, quoted (ln_tap net));
               ("guest_mac"%string, quoted GUEST_MAC)] in
  let? _ := put "/vsock"%string [("guest_cid"%string, dec GUEST_CID); ("uds_path"%string, quoted vsock)] in
  let? _ := put "/actions"%string [("action_type"%string, quoted "InstanceStart")] in
  let? stream := wait_guest vsock in
  let? _ := because "设读超时失败" host_call in
  let? _ := ping stream "egress" "guest Ping 自检失败: " in
  let? dns := observe (fun e _ => default "1.1.1.1"%string (e_dns e)) in
  let netup := "ip addr add " ++s GUEST_IP ++s "/30 dev eth0 && ip link set eth0 up && ip route add default via " ++s GW_IP ++s
               " && printf 'nameserver " ++s dns ++s "\n' > /etc/resolv.conf" in
  let? r := guest_exec stream netup in
  let '(rc, _, e) := r in
  if negb (rc =? 0) then mfail ("guest 配网失败（rc=" ++s dec rc ++s "）: " ++s trim e)
  else reinit_guest stream.

Definition cold_boot_egress (cfg : Config) (instance_dir : string) (net : LiveNet) (vcpus mem_mib : Z)
    : HM (nat * (string * string * string)) :=
  let? kernel := abspath (cf_kernel cfg) in
  let api_host := join_path instance_dir "api.sock" in
  let vsock := join_path instance_dir "vsock.sock" in
  let? _ := quietly (remove_file api_host) in
  let? _ := quietly (remove_file vsock) in
  let? child := spawn_with_log ["ip"; "netns"; "exec"; ln_ns net; cf_fc_bin cfg; "--api-sock"; api_host]%string
                  (join_path instance_dir "console.load.log") in
  let? identity := or_cleanup (boot_machine kernel (join_path instance_dir "rootfs.ext4") api_host vsock net vcpus mem_mib)
                     (kill_group child) id in
  mret (child, identity).

(** ** Processes

    A restore leaves one more process when it succeeds and none when it fails. *)

Definition wf_procs (m : Machine) : Prop := forall p, p ∈ mc_procs m -> (p < mc_pid m)%nat.

(** What a computation that may start a process leaves: [o] is the process it
    hands out. *)
Definition started (m m' : Machine) (o : option nat) : Prop :=
  wf_procs m' /\ (mc_pid m <= mc_pid m')%nat /\
  match o with
  | Some p => (mc_pid m <= p < mc_pid m')%nat /\ mc_procs m' = {[p]} ∪ mc_procs m
  | None => mc_procs m' = mc_procs m
  end.

Definition starts {A} (child : A -> option nat) (c : HM A) : Prop :=
  forall m, wf_procs m -> started m (c m).2 (match (c m).1 with Ok a => child a | Err _ => None end).

Lemma same_wf m m' : same_procs m m' -> wf_procs m -> wf_procs m'.
Proof. intros [H1 H2] Hw p. rewrite H1, H2. apply Hw. Qed.

Lemma started_calm m m' o m'' : started m m' o -> same_procs m' m'' -> started m m'' o.
Proof.
  intros (H1 & H2 & H3) Hs. pose proof (same_wf _ _ Hs H1) as Hw. destruct Hs as [Hp Hn]. unfold started. rewrite Hp, Hn.
  split; [exact Hw|]. done.
Qed.

Lemma calm_started m m1 m' o : same_procs m m1 -> started m1 m' o -> started m m' o.
Proof. intros [Hp Hn] H. unfold started in *. by rewrite Hp, Hn in H. Qed.

Lemma starts_calm {A} (c : HM A) : Keeps same_procs c -> starts (fun _ => None) c.
Proof.
  intros Hc m Hw. specialize (Hc m). pose proof (same_wf _ _ Hc Hw). destruct Hc as [Hp Hn]. destruct (c m) as [[a|e] m'];
    simpl in *; unfold started; rewrite Hp, Hn; auto.
Qed.

(** A calm prefix and a calm rest. *)
Lemma starts_after {A B} (c : HM A) (f : A -> HM B) child :
  Keeps same_procs c -> (forall a, starts child (f a)) -> starts child (mbind c f).
Proof.
  intros Hc Hf m Hw. specialize (Hc m). pose proof (same_wf _ _ Hc Hw) as Hw1. unfold mbind.
  destruct (c m) as [[a|e] m1]; simpl in Hc; [eapply calm_started; [exact Hc|by apply Hf]|].
  simpl. destruct Hc as [Hp Hn]. unfold started. by rewrite Hp, Hn.
Qed.

Lemma kill_started m m1 m2 p :
  wf_procs m -> started m m1 (Some p) -> same_procs m1 m2 -> started m (kill_group p m2).2 None.
Proof.
  intros Hw (H1 & H2 & H3 & H4) [Hp Hn]. unfold kill_group, started, wf_procs. simpl. rewrite Hp, Hn, H4.
  assert (p ∉ mc_procs m) as Hf by (intros Hi%Hw; lia).
  replace (({[p]} ∪ mc_procs m) ∖ {[p]}) with (mc_procs m) by set_solver.
  split; [|split; [lia|done]]. intros q Hq%Hw. lia.
Qed.

(** The process a computation started is killed when the rest of it fails. *)
Lemma starts_cleanup {A B C} (c : HM A) (f : A -> HM B) pid_of cl wrap (h : A -> B -> C) child :
  starts (fun a => Some (pid_of a)) c -> (forall a, Keeps same_procs (f a)) ->
  (forall a, exists k, Keeps same_procs k /\ forall m, cl a m = (let? _ := kill_group (pid_of a) in k) m) ->
  (forall a b, child (h a b) = Some (pid_of a)) ->
  starts child (let? a := c in let? b := or_cleanup (f a) (cl a) wrap in mret (h a b)).
Proof.
  intros Hc Hf Hcl Hh m Hw. specialize (Hc m Hw). unfold mbind. destruct (c m) as [[a|e] m1]; simpl in Hc; [|exact Hc].
  specialize (Hf a m1). unfold or_cleanup, mbind, mtry, mret, mfail. cbn beta iota. destruct (f a m1) as [[b|e] m2]; simpl in Hf.
  - simpl. rewrite Hh. eapply started_calm; eauto.
  - destruct (Hcl a) as (k & Hk & Hcl'). rewrite Hcl'. pose proof (kill_started _ _ _ _ Hw Hc Hf) as Hs. unfold mbind.
    destruct (kill_group (pid_of a) m2) as [[u|e'] m3] eqn:Ek; [|by unfold kill_group in Ek]. simpl in Hs.
    specialize (Hk m3). destruct (k m3) as [[u'|e'] m4]; simpl in *; eapply started_calm; eauto.
Qed.

(** ** Frames of the guest side *)

Section GuestFrames.
Context (R : Machine -> Machine -> Prop) `{!Stable R}.

#[export] Instance frame_api_wait_loop fuel s t o : Keeps R (api_wait_loop fuel s t o).
Proof. induction fuel as [|n IH]; cbn [api_wait_loop]; solve_keeps. Qed.
#[export] Instance frame_api_wait_ready s t : Keeps R (api_wait_ready s t).
Proof. unfold api_wait_ready. solve_keeps. Qed.
#[export] Instance frame_wait_api_loop fuel s d : Keeps R (wait_api_loop fuel s d).
Proof. induction fuel as [|n IH]; cbn [wait_api_loop]; solve_keeps. Qed.
#[export] Instance frame_wait_api_ready s : Keeps R (wait_api_ready s).
Proof. unfold wait_api_ready. solve_keeps. Qed.
#[export] Instance frame_connect_guest v : Keeps R (connect_guest v).
Proof. unfold connect_guest. solve_keeps. Qed.
#[export] Instance frame_wait_guest_loop fuel t v : Keeps R (wait_guest_loop fuel t v).
Proof. induction fuel as [|n IH]; cbn [wait_guest_loop]; solve_keeps. Qed.
#[export] Instance frame_wait_guest v : Keeps R (wait_guest v).
Proof. unfold wait_guest. solve_keeps. Qed.
#[export] Instance frame_require_file l p : Keeps R (require_file l p).
Proof. unfold require_file. solve_keeps. Qed.

(** With the requests and the calls of the API that [R] ignores. *)
#[export] Instance frame_request v q : Silent R (ERequest v q) -> Keeps R (request v q).
Proof. intros Hq. unfold request. solve_keeps. Qed.
#[export] Instance frame_api_call a b c d : Silent R (EApi a b c d) -> Keeps R (api_call a b c d).
Proof. intros Ha. unfold api_call. solve_keeps. Qed.
#[export] Instance frame_patch_vm s st : Silent R (EApi s "PATCH" "/vm" (vm_state st)) -> Keeps R (patch_vm s st).
Proof. intros Ha. unfold patch_vm. apply _. Qed.
#[export] Instance frame_load_snapshot t a v s :
  Silent R (EApi a "PUT" "/snapshot/load" (load_body v s)) -> Keeps R (load_snapshot t a v s).
Proof. intros Ha. unfold load_snapshot. solve_keeps. Qed.
#[export] Instance frame_ping v d f : Silent R (ERequest v (Ping d)) -> Keeps R (ping v d f).
Proof. intros Hq. unfold ping. solve_keeps. Qed.
#[export] Instance frame_guest_exec v c : Silent R (ERequest v (Exec c)) -> Keeps R (guest_exec v c).
Proof. intros Hq. unfold guest_exec. solve_keeps. Qed.
#[export] Instance frame_reinit v : (forall a b c, Silent R (ERequest v (Reinit a b c))) -> Keeps R (reinit_guest v).
Proof. intros Hq. unfold reinit_guest, send_reinit. solve_keeps. Qed.
#[export] Instance frame_drop_gate g : (forall a b, Silent R (EGateDown a b)) -> Keeps R (drop_gate g).
Proof. intros Hq. unfold drop_gate, gate_teardown. solve_keeps. Qed.
#[export] Instance frame_policy ns : (forall a b, Silent R (EGate a b)) -> Keeps R (apply_network_policy ns).
Proof. intros Hq. unfold apply_network_policy, gate_up. solve_keeps. Qed.
#[export] Instance frame_activate p t :
  (forall v q, Silent R (ERequest v q)) -> (forall a b c d, Silent R (EApi a b c d)) -> Keeps R (activate p t).
Proof. intros Hq Ha. unfold activate. solve_keeps. Qed.
#[export] Instance frame_boot_machine k f a v n c g :
  (forall v q, Silent R (ERequest v q)) -> (forall a b c d, Silent R (EApi a b c d)) ->
  Keeps R (boot_machine k f a v n c g).
Proof. intros Hq Ha. unfold boot_machine. solve_keeps. Qed.
End GuestFrames.

(** ** Restores and processes *)

Lemma starts_spawn args log : starts Some (spawn_with_log args log).
Proof.
  unfold spawn_with_log. apply starts_after; [apply _|intros _]. apply starts_after; [apply _|intros _].
  intros m Hw. unfold because, map_err, spawn, mbind, host_call.
  destruct (e_err _ _); simpl; [done|]. unfold started, wf_procs. simpl. split; [|split; [lia|split; [lia|done]]].
  intros p [->%elem_of_singleton|Hp%Hw]%elem_of_union; lia.
Qed.

Lemma drop_vm_kills child api vsock :
  exists k, Keeps same_procs k /\ forall m, drop_vm child api vsock m = (let? _ := kill_group child in k) m.
Proof.
  exists (let? _ := quietly (remove_file api) in quietly (remove_file vsock)). split; [apply _|done].
Qed.

Lemma starts_park cfg ctx : starts (fun p => Some (pv_child p)) (restore_park cfg ctx).
Proof.
  unfold restore_park. repeat (apply starts_after; [apply _|intros ?]).
  apply (starts_cleanup _ _ id (fun c => drop_vm c _ _) _ (fun c times => mkParked c _ _ _ times.1 times.2 _ _));
    [apply starts_spawn|intros c; apply _|intros c; apply drop_vm_kills|done].
Qed.

Lemma starts_cold_boot cfg dir net vcpus mem : starts (fun r => Some r.1) (cold_boot_egress cfg dir net vcpus mem).
Proof.
  unfold cold_boot_egress. repeat (apply starts_after; [apply _|intros ?]).
  apply (starts_cleanup _ _ id kill_group _ (fun c i => (c, i))); [apply starts_spawn|intros c; apply _| |done].
  intros c. exists (mret tt). split; [apply _|]. intros m. reflexivity.
Qed.

Definition killed (p : nat) (m m' : Machine) : Prop := mc_pid m' = mc_pid m /\ mc_procs m' = mc_procs m ∖ {[p]}.

Lemma drop_then {A} (k : HM A) p api vs m m1 :
  Keeps same_procs k -> same_procs m m1 -> killed p m ((let? _ := drop_vm p api vs in k) m1).2.
Proof.
  intros Hk [Hp Hn]. unfold drop_vm. rewrite mbind_assoc. unfold mbind at 1. cbn [kill_group].
  set (m2 := log_event _ _).
  assert (Keeps same_procs (let? _ := (let? _ := quietly (remove_file api) in quietly (remove_file vs)) in k)) as Hk' by apply _.
  destruct (Hk' m2) as [H1 H2]. unfold killed. rewrite H1, H2. simpl. split; congruence.
Qed.

(** An activation hands out the parked process or kills it. *)
Lemma activate_child netns ka p m :
  let '(r, m') := restore_activate netns ka p m in
  match r with
  | Ok (_, Some c, _) => c = pv_child p /\ ka = true /\ same_procs m m'
  | Ok (_, None, _) => ka = false /\ killed (pv_child p) m m'
  | Err _ => killed (pv_child p) m m'
  end.
Proof.
  unfold restore_activate. unfold mbind at 1, or_cleanup at 1, mbind at 1, mtry at 1.
  assert (Keeps same_procs (apply_network_policy netns)) as Hpol by apply _. specialize (Hpol m).
  destruct (apply_network_policy netns m) as [[[t g]|e] m1]; simpl in Hpol.
  2:{ pose proof (drop_then (mfail (A := Z * option (string * string)) (id e)) (pv_child p) (pv_api_host p) (pv_vsock p) m m1 _ Hpol) as Hd.
      destruct (mbind _ _ m1) as [[[t g]|e'] m2] eqn:E; [|exact Hd]. exfalso. unfold mbind in E.
      by destruct (drop_vm _ _ _ m1) as [[]]. }
  cbn [mret]. unfold mbind at 1, or_cleanup at 1, mbind at 1, mtry at 1.
  assert (Keeps same_procs (activate p t)) as Hact by apply _. specialize (Hact m1).
  destruct (activate p t m1) as [[o|e] m2]; simpl in Hact; pose proof (transitivity Hpol Hact) as Hs.
  - cbn [mret]. destruct (validate_outcome o) as [msg|].
    + pose proof (drop_then (let? _ := drop_gate g in mfail (A := LoadOutcome * option nat * option (string * string)) msg)
                    (pv_child p) (pv_api_host p) (pv_vsock p) m m2 _ Hs) as Hd.
      destruct (mbind _ _ m2) as [[[[o' c] g']|e'] m3] eqn:E; [|exact Hd]. exfalso. unfold mbind in E.
      destruct (drop_vm _ _ _ m2) as [[] m4]; [|done]. by destruct (drop_gate g m4) as [[]].
    + destruct ka; [done|].
      pose proof (drop_then (mret (o, @None nat, g)) (pv_child p) (pv_api_host p) (pv_vsock p) m m2 _ Hs) as Hd.
      destruct (mbind _ _ m2) as [[[[o' c] g']|e'] m3] eqn:E; [|exact Hd]. unfold mbind in E.
      destruct (drop_vm _ _ _ m2) as [[] m4]; [|done]. injection E as <- <- <- <-. by split.
  - pose proof (drop_then (let? _ := drop_gate g in mfail (A := LoadOutcome) (id e)) (pv_child p) (pv_api_host p) (pv_vsock p) m m2 _ Hs) as Hd.
    rewrite mbind_assoc. destruct (mbind _ _ m2) as [[o|e'] m3] eqn:E; [|exact Hd]. exfalso. unfold mbind in E.
    destruct (drop_vm _ _ _ m2) as [[] m4]; [|done]. by destruct (drop_gate g m4) as [[]].
Qed.

Lemma starts_restore cfg ctx : starts (fun r => r.1.2) (restore_core cfg ctx).
Proof.
  intros m Hw. pose proof (starts_park cfg ctx m Hw) as Hp. unfold restore_core, mbind.
  destruct (restore_park cfg ctx m) as [[p|e] m1]; [|exact Hp]. cbn [fst snd] in Hp.
  pose proof (activate_child (rc_netns ctx) (rc_keep_alive ctx) p m1) as Ha.
  assert (forall m', killed (pv_child p) m1 m' -> started m m' None) as Hk.
  { intros m' [Hn Hq]. pose proof (kill_started _ _ _ _ Hw Hp (reflexivity m1)) as (H1 & H2 & H3). simpl in *.
    unfold started, wf_procs in *. rewrite Hn, Hq. auto. }
  destruct (restore_activate _ _ p m1) as [[[[o [c|]] g]|e] m2]; simpl.
  - destruct Ha as (-> & _ & Hs). eapply started_calm; eauto.
  - apply Hk, Ha.
  - apply Hk, Ha.
Qed.

(** With [keep_alive] a success hands out a process. *)
Lemma restore_core_child cfg ctx m o c g m' :
  rc_keep_alive ctx = true -> restore_core cfg ctx m = (Ok (o, c, g), m') -> is_Some c.
Proof.
  intros Hka. unfold restore_core, mbind. destruct (restore_park cfg ctx m) as [[p|e] m1]; [|done]. rewrite Hka.
  pose proof (activate_child (rc_netns ctx) true p m1) as Ha. intros E. rewrite E in Ha. destruct c; [done|by destruct Ha].
Qed.

(** ** The order of events *)




Definition grows : Machine -> Machine -> Prop := quiet_for (fun _ => false).
#[export] Instance grows_stable : Stable grows.
Proof. apply quiet_for_stable. Qed.
#[export] Instance grows_silent e : Silent grows e.
Proof. by apply quiet_silent. Qed.



Section Guards.
Context (g d : HostEvent -> bool).




End Guards.




Definition is_resume (e : HostEvent) : bool :=
  match e with EApi _ _ path body => String.eqb path "/vm" && String.eqb body (vm_state "Resumed") | _ => false end.
Definition is_command (e : HostEvent) : bool :=
  match e with ERequest _ (Exec _) => true | _ => false end.
Definition is_request (e : HostEvent) : bool := match e with ERequest _ _ => true | _ => false end.

(** A snapshot load that leaves the vCPUs stopped, and one that does not. *)
Definition stays_stopped (body : string) : bool := ends_with (quoted "resume_vm" ++s ":false}") body.
Definition is_load_running (e : HostEvent) : bool :=
  match e with EApi _ _ path body => String.eqb path "/snapshot/load" && negb (stays_stopped body) | _ => false end.

Lemma ends_with_app x r : ends_with x (r ++s x) = true.
Proof. unfold ends_with. by rewrite strip_suffix_app. Qed.

Lemma ends_with_later x p s : ends_with x s = true -> ends_with x (p ++s s) = true.
Proof.
  unfold ends_with. destruct (strip_suffix x s) as [r|] eqn:E; [|done]. intros _.
  apply strip_suffix_some in E as ->. by rewrite <- app_assoc_s, strip_suffix_app.
Qed.

Lemma load_stays_stopped v s : stays_stopped (load_body v s) = true.
Proof. unfold stays_stopped, load_body. do 17 (apply ends_with_later). apply (ends_with_app _ ""). Qed.

(** ** What a restore emits, phase by phase *)

Section RestoreEvents.

(** The events of the park phase: a spawn, a load, a kill. *)
Class ParkSilent (R : Machine -> Machine -> Prop) : Prop := {
  park_stable :: Stable R;
  park_spawn :: forall p a, Silent R (ESpawn p a);
  park_kill :: forall p, Silent R (EKill p);
  park_load :: forall a v s, Silent R (EApi a "PUT" "/snapshot/load" (load_body v s));
  park_procs : forall m n procs, R m (mkMachine (mc_env m) (mc_step m) (mc_slept m) (mc_disk m) procs n (mc_net m) (mc_trace m))
}.

Context (R : Machine -> Machine -> Prop) `{!ParkSilent R}.

Lemma frame_spawn args : Keeps R (spawn args).
Proof.
  unfold spawn. apply frame_bind; [apply _|apply _|]. intros n m. simpl.
  etransitivity; [apply (park_procs m (S (mc_pid m)) ({[mc_pid m]} ∪ mc_procs m))|apply park_spawn].
Qed.
Lemma frame_kill p : Keeps R (kill_group p).
Proof.
  intros m. unfold kill_group. simpl. etransitivity; [apply (park_procs m (mc_pid m))|apply park_kill].
Qed.
#[export] Instance frame_drop_vm c a v : Keeps R (drop_vm c a v).
Proof. unfold drop_vm. apply frame_bind; [apply _|apply frame_kill|]. intros _. solve_keeps. Qed.
#[export] Instance frame_spawn_with_log a l : Keeps R (spawn_with_log a l).
Proof.
  unfold spawn_with_log. apply frame_bind; [apply _|apply _|intros _]. apply frame_bind; [apply _|apply _|intros _].
  apply frame_because, frame_spawn.
Qed.
#[export] Instance frame_restore_park cfg ctx : Keeps R (restore_park cfg ctx).
Proof. unfold restore_park. solve_keeps. Qed.
End RestoreEvents.

Lemma quiet_park d :
  (forall p a, d (ESpawn p a) = false) -> (forall p, d (EKill p) = false) ->
  (forall a v s, d (EApi a "PUT" "/snapshot/load" (load_body v s)) = false) -> ParkSilent (quiet_for d).
Proof.
  intros H1 H2 H3. split; [apply _|intros; apply quiet_silent; auto..|]. intros m n procs. exists []. by rewrite app_nil_r.
Qed.
#[export] Instance grows_park : ParkSilent grows.
Proof. by apply quiet_park. Qed.

#[local] Instance quiet_resume_park : ParkSilent (quiet_for is_resume).
Proof. by apply quiet_park. Qed.
#[local] Instance quiet_running_park : ParkSilent (quiet_for is_load_running).
Proof. apply quiet_park; [done|done|]. intros a v s. unfold is_load_running. by rewrite load_stays_stopped. Qed.
#[local] Instance quiet_command_park : ParkSilent (quiet_for is_command).
Proof. by apply quiet_park. Qed.
#[local] Instance quiet_request_park : ParkSilent (quiet_for is_request).
Proof. by apply quiet_park. Qed.
#[local] Hint Extern 1 (Silent (quiet_for _) _) => apply quiet_silent; reflexivity : typeclass_instances.
#[local] Hint Extern 0 (Stable (quiet_for _)) => apply quiet_for_stable : typeclass_instances.













(** ** The waiting loops end *)

(** A failed wait for the socket took its timeout. *)
Lemma api_wait_takes fuel sock start timeout m e m' :
  steady (mc_env m) -> start <= time_of m -> start + timeout <= time_of m + 20000000 * Z.of_nat (S fuel) ->
  api_wait_loop fuel sock start timeout m = (Err e, m') -> start + timeout <= time_of m'.
Proof.
  revert m; induction fuel as [|n IH]; intros m Hs Ht Hf; cbn [api_wait_loop]; unfold mbind at 1, mtry at 1.
  all: assert (Keeps later host_call) as Hc by apply _; specialize (Hc m).
  all: destruct (host_call m) as [[u|e0] m1]; simpl in Hc; [done|]; pose proof (later_time _ _ Hs Hc) as Ht1.
  all: unfold mbind at 1, instant at 1; cbv zeta; fold (time_of m1).
  all: assert (later m (step_on m1)) as Hc2 by (etransitivity; [exact Hc|apply stable_step]).
  all: pose proof (later_time _ _ Hs Hc2) as Ht2; destruct Hc as (He & _ & _).
  all: assert (time_of m1 <= time_of (step_on m1)) as Ht3 by (apply later_time; [by rewrite He|apply stable_step]).
  all: destruct (Z.leb_spec timeout (Z.max 0 (time_of m1 - start))) as [Hle|Hgt].
  - intros [= _ <-]. lia.
  - unfold mbind, sleep. intros [= _ <-]. unfold time_of at 1. simpl. unfold time_of in *. simpl in *. lia.
  - intros [= _ <-]. lia.
  - unfold mbind, sleep. intros E. eapply IH; [| | |exact E].
    + simpl. by rewrite He.
    + unfold time_of in *. simpl in *. lia.
    + unfold time_of in *. simpl in *. lia.
Qed.

Lemma api_wait_ready_takes sock timeout m e m' :
  steady (mc_env m) -> 0 <= timeout -> api_wait_ready sock timeout m = (Err e, m') -> time_of m + timeout <= time_of m'.
Proof.
  intros Hs Ht. unfold api_wait_ready, mbind, instant. fold (time_of m). intros E.
  assert (time_of m <= time_of (step_on m)) as H1 by (apply later_time; [done|apply stable_step]).
  eapply api_wait_takes in E; [exact E|done|done|]. unfold turns.
  pose proof (Z.div_mod timeout 20000000). pose proof (Z.mod_pos_bound timeout 20000000).
  pose proof (Z.div_pos timeout 20000000). lia.
Qed.

(** Once a loop has fuel for the time that is left, more fuel changes nothing. *)
Lemma wait_api_more fuel k sock deadline m :
  steady (mc_env m) -> deadline <= time_of m + 100000000 * Z.of_nat fuel ->
  wait_api_loop (fuel + k) sock deadline m = wait_api_loop fuel sock deadline m.
Proof.
  revert m; induction fuel as [|n IH]; intros m Hs Hf; [destruct k as [|k]; [done|]|]; cbn [wait_api_loop Nat.add].
  all: unfold mbind at 1 4, observe; destruct (e_exited _ _); [done|].
  all: unfold mbind at 1 3, mtry; destruct (api_wait_ready sock 100000000 (step_on m)) as [[u|e] m1] eqn:E; [done|].
  all: assert (Keeps later (api_wait_ready sock 100000000)) as Hk by apply _; specialize (Hk (step_on m)); rewrite E in Hk; simpl in Hk.
  all: apply api_wait_ready_takes in E; [|done|lia].
  all: assert (time_of m <= time_of (step_on m)) as H1 by (apply later_time; [done|apply stable_step]).
  all: unfold mbind, instant; fold (time_of m1); destruct (Z.ltb_spec (time_of m1) deadline); [|done].
  - lia.
  - destruct Hk as (He & _ & _). simpl in He. apply IH; [simpl; by rewrite He|].
    assert (time_of m1 <= time_of (step_on m1)) by (apply later_time; [by rewrite He|apply stable_step]). lia.
Qed.

Lemma wait_guest_more fuel k start vsock m :
  steady (mc_env m) -> start <= time_of m -> start + READY_TIMEOUT_NS <= time_of m + 50000000 * Z.of_nat fuel ->
  wait_guest_loop (fuel + k) start vsock m = wait_guest_loop fuel start vsock m.
Proof.
  revert m; induction fuel as [|n IH]; intros m Hs Ht Hf; [destruct k as [|k]; [done|]|]; cbn [wait_guest_loop Nat.add].
  all: unfold mbind at 1 5, observe; destruct (e_exited _ _); [done|].
  all: unfold mbind at 1 4, mtry; destruct (connect_guest vsock (step_on m)) as [[u|e] m1] eqn:E; [done|].
  all: assert (Keeps later (connect_guest vsock)) as Hk by apply _; specialize (Hk (step_on m)); rewrite E in Hk; simpl in Hk.
  all: assert (later m m1) as Hl by (etransitivity; [apply stable_step|exact Hk]); pose proof (later_time _ _ Hs Hl) as H1.
  all: unfold mbind at 1 3, instant; fold (time_of m1); cbv zeta; destruct (Z.ltb_spec (Z.max 0 (time_of m1 - start)) READY_TIMEOUT_NS); [|done].
  - lia.
  - unfold mbind, sleep. destruct Hl as (He & _ & _).
    assert (time_of m1 <= time_of (step_on m1)) by (apply later_time; [by rewrite He|apply stable_step]).
    apply IH; [simpl; by rewrite He|..]; unfold time_of in *; simpl in *; lia.
Qed.

(** C40: waiting ends.  With a clock that does not go back, the loops that wait for
    the API socket and for the guest's agent end by themselves, with a success, an
    exit of the process or a timeout: the bound on the turns the definitions
    carry is never what ends them. *)
Theorem waits_terminate (m : Machine) (p : string) (k : nat) :
  steady (mc_env m) ->
  (let? t := instant in wait_api_loop (turns READY_TIMEOUT_NS 100000000 + k) p (t + READY_TIMEOUT_NS)) m = wait_api_ready p m /\
  (let? t := instant in wait_guest_loop (turns READY_TIMEOUT_NS 50000000 + k) t p) m = wait_guest p m.
Proof.
  intros Hs. assert (time_of m <= time_of (step_on m)) as H1 by (apply later_time; [done|apply stable_step]).
  unfold wait_api_ready, wait_guest, mbind, instant. fold (time_of m). split.
  - apply wait_api_more; [done|]. change (Z.of_nat (turns READY_TIMEOUT_NS 100000000)) with 201. unfold READY_TIMEOUT_NS. lia.
  - apply wait_guest_more; [done|done|]. change (Z.of_nat (turns READY_TIMEOUT_NS 50000000)) with 401. unfold READY_TIMEOUT_NS. lia.
Qed.

(** ** A host that answers, for the witnesses *)

Definition demo_reply (q : Request) : Response :=
  match q with
  | Ping d => Pong d
  | Exec c =>
      if String.eqb c "cat /tmp/sl-snap-marker" then ExecDone 0 ("token" ++s lf) ""
      else if String.eqb c "cat /proc/uptime" then ExecDone 0 ("12.50 3.00" ++s lf) ""
      else ExecDone 0 "" ""
  | Reinit seed _ _ => ReinitDone seed "rng" "key"
  | _ => Acked
  end.

Definition demo_env (err : nat -> option string) (root : bool) : Env :=
  mkEnv err (fun _ => None) (fun _ => demo_reply) (fun n k => be_bytes k (Z.of_nat n)) (fun n => Z.of_nat n * 1000000)
        (fun n => Z.of_nat n) (fun _ => "OK 1073741824"%string) (fun _ => ("paused state"%string, "paused memory"%string))
        (fun _ => (None, [])) (fun p => p) root None.

Definition demo_disk : Disk :=
  mkDisk {["/tpl/rootfs.ext4"%string := 0%nat; "/tpl/vmstate"%string := 1%nat; "/tpl/mem"%string := 2%nat;
           "/tpl/expect"%string := 3%nat; "/kernel"%string := 4%nat]}
         {[0%nat := "rootfs"%string; 1%nat := "state"%string; 2%nat := "memory"%string;
           3%nat := ("token" ++s lf ++s "12.00" ++s lf)%string; 4%nat := "vmlinux"%string]}
         {["/tpl"%string; "/run"%string]} 5.

Definition demo_machine (err : nat -> option string) (root : bool) : Machine :=
  mkMachine (demo_env err root) 0 0 demo_disk ∅ 0 (mkNet ∅ ∅ ∅ ∅ ∅) [].

Definition demo_cfg : Config := mkConfig "/fc" "/kernel" None.

Lemma demo_steady err root : steady (demo_env err root).
Proof. intros i j Hij. simpl. lia. Qed.

Lemma waits_terminate_witness :
  steady (mc_env (demo_machine (fun _ => None) true)) /\
  wait_guest "/run/v.sock" (demo_machine (fun _ => Some "refused"%string) true) =
    (let? t := instant in wait_guest_loop (turns READY_TIMEOUT_NS 50000000 + 7) t "/run/v.sock") (demo_machine (fun _ => Some "refused"%string) true).
Proof.
  split; [apply demo_steady|]. symmetry.
  apply (waits_terminate (demo_machine (fun _ => Some "refused"%string) true) "/run/v.sock" 7). apply demo_steady.
Defined.

Lemma egress_net_no_residue_witness :
  exists m1 m2, net_up "ab12" "sl-ab12" "eth0" true (demo_machine (fun _ => None) true) = (Ok (live_net "ab12" "sl-ab12" true), m1) /\
    net_down (live_net "ab12" "sl-ab12" true) m1 = (Ok tt, m2) /\ n_spaces (mc_net m2) = ∅ ∖ {["sl-ab12"%string]}.
Proof.
  destruct (egress_net_no_residue "ab12" "sl-ab12" "eth0" true (demo_machine (fun _ => None) true)) as (m1 & m2 & E1 & _ & E2 & N2).
  - split; intros n; reflexivity.
  - exists m1, m2. split; [exact E1|]. split; [exact E2|]. rewrite N2. reflexivity.
Defined.
