(* ===== verification/Pool.v ===== *)
(** * Warm and hot pools (crates/sl-node/src/pool.rs)

    A warm pool keeps instance directories ready, a hot pool parked microVMs.  A
    refill thread of its own tops a pool up while creations take from it: its turn
    is two steps, the look at the level and the work outside the lock, with the
    other operations in between.  The machine is shared; a pool is a value the
    backend holds. *)

From Stdlib Require Import ZArith Lia Bool List String Ascii.
From stdpp Require Import base tactics list gmap strings relations.
From S2P Require Import Prelude RustStr Auth Proto Machine NetLive Restore.

Open Scope Z_scope.

Record WarmSlot : Type := mkWarmSlot { ws_id : string; ws_dir : string }.
Record HotSlot : Type := mkHotSlot { hs_id : string; hs_dir : string; hs_parked : ParkedVm }.

(** [filling]: the refill thread has seen room and is at work. *)
Record Pool (Slot : Type) : Type := mkPool {
  po_template : string;
  po_run_root : string;
  po_target : nat;
  po_ready : list Slot;
  po_filling : bool;
  po_hits : Z;
  po_misses : Z;
  po_prepared : Z
}.
Arguments mkPool {Slot}.
Arguments po_template {Slot}.
Arguments po_run_root {Slot}.
Arguments po_target {Slot}.
Arguments po_ready {Slot}.
Arguments po_filling {Slot}.
Arguments po_hits {Slot}.
Arguments po_misses {Slot}.
Arguments po_prepared {Slot}.

Definition set_ready {Slot} (r : list Slot) (f : bool) (p : Pool Slot) : Pool Slot :=
  mkPool (po_template p) (po_run_root p) (po_target p) r f (po_hits p) (po_misses p) (po_prepared p).
Definition count {Slot} (hits misses prepared : Z) (p : Pool Slot) : Pool Slot :=
  mkPool (po_template p) (po_run_root p) (po_target p) (po_ready p) (po_filling p)
         (u64_add (po_hits p) hits) (u64_add (po_misses p) misses) (u64_add (po_prepared p) prepared).

Definition new_pool {Slot} (what template run_root : string) (target : nat) : HM (Pool Slot) :=
  let? dir := is_directory template in
  if negb dir then mfail (what ++s "模板目录不存在: " ++s template)
  else
    let? template := abspath template in
    let? _ := because ("建 run_root 失败 " ++s run_root) (create_dir_all run_root) in
    let? run_root := abspath run_root in
    mret (mkPool template run_root target [] false 0 0 0).

(** ** Warm pool *)

Definition warm_dir (run_root : string) : string := join_path run_root ".warm".

(** [WarmPool::new]; the page cache hints have no effect here. *)
Definition warm_new (template run_root : string) (target : nat) : HM (Pool WarmSlot) :=
  let? p := new_pool "温池" template run_root target in
  let warm := warm_dir (po_run_root p) in
  let? _ := quietly (remove_dir_all warm) in
  let? _ := because ("建 .warm 失败 " ++s warm) (create_dir_all warm) in
  let? _ := because "起温池 refill 线程失败" host_call in
  mret p.

(** [WarmPool::try_pop]: the slot's directory moves to its final place. *)
Definition warm_pop (p : Pool WarmSlot) : HM (option WarmSlot * Pool WarmSlot) :=
  match po_ready p with
  | s :: rest =>
      let p := set_ready rest (po_filling p) p in
      let final_dir := join_path (po_run_root p) (ws_id s) in
      let? _ := quietly (remove_dir_all final_dir) in
      let? r := mtry (rename_dir (ws_dir s) final_dir) in
      match r with
      | Ok _ => mret (Some (mkWarmSlot (ws_id s) final_dir), count 1 0 0 p)
      | Err _ => let? _ := quietly (remove_dir_all (ws_dir s)) in mret (None, count 0 1 0 p)
      end
  | [] => mret (None, count 0 1 0 p)
  end.

Definition pool_stats {Slot} (p : Pool Slot) : Z * Z * nat := (po_hits p, po_misses p, length (po_ready p)).

Definition prep_slot (p : Pool WarmSlot) : HM WarmSlot :=
  let? idb := host_random 6 in
  let id := hex idb in
  let dir := join_path (warm_dir (po_run_root p)) id in
  let? _ := quietly (remove_dir_all dir) in
  let? _ := prepare_instance_dir (po_template p) dir in
  let? dir := abspath dir in
  mret (mkWarmSlot id dir).

(** ** Hot pool *)

Definition hot_new (template run_root : string) (target : nat) : HM (Pool HotSlot) :=
  let? p := new_pool "热池" template run_root target in
  let? _ := because "起热池 refill 线程失败" host_call in
  mret p.

Definition hot_pop (p : Pool HotSlot) : option HotSlot * Pool HotSlot :=
  match po_ready p with
  | s :: rest => (Some s, set_ready rest (po_filling p) p)
  | [] => (None, p)
  end.

Definition prep_hot (cfg : Config) (p : Pool HotSlot) : HM HotSlot :=
  let? idb := host_random 6 in
  let id := hex idb in
  let dir := join_path (po_run_root p) id in
  let clean := quietly (remove_dir_all dir) in
  let? _ := clean in
  let? _ := or_cleanup (prepare_instance_dir (po_template p) dir) clean (fun e => e) in
  let? dir := abspath dir in
  let ctx := mkCtx (po_template p) dir (Some (dir, po_template p)) true None in
  let? parked := or_cleanup (restore_park cfg ctx) (quietly (remove_dir_all dir)) (fun e => e) in
  mret (mkHotSlot id dir parked).

(** ** The refill thread *)

(** The look at the level, under the lock, by a thread that is not at work. *)
Definition refill_check {Slot} (p : Pool Slot) : Pool Slot :=
  if negb (po_filling p) && (length (po_ready p) <? po_target p)%nat then set_ready (po_ready p) true p else p.

(** The work outside the lock, and the push; a failure is retried in a later turn. *)
Definition refill_fill {Slot} (prep : Pool Slot -> HM Slot) (p : Pool Slot) : HM (Pool Slot) :=
  if negb (po_filling p) then mret p
  else
    let? r := mtry (prep p) in
    match r with
    | Ok slot => mret (count 0 0 1 (set_ready (po_ready p ++ [slot]) false p))
    | Err _ => mret (set_ready (po_ready p) false p)
    end.

(** ** Shutdown: the refill thread is joined, so its work in flight ends first. *)

Definition warm_shutdown (p : Pool WarmSlot) : HM unit :=
  let? p := refill_fill prep_slot p in
  quietly (remove_dir_all (warm_dir (po_run_root p))).

Fixpoint kill_slots (l : list HotSlot) : HM unit :=
  match l with
  | [] => mret tt
  | s :: l' =>
      let? _ := kill_group (pv_child (hs_parked s)) in
      let? _ := quietly (remove_dir_all (hs_dir s)) in
      kill_slots l'
  end.

Definition hot_shutdown (cfg : Config) (p : Pool HotSlot) : HM unit :=
  let? p := refill_fill (prep_hot cfg) p in
  kill_slots (po_ready p).

(** ** The level of a pool *)

(** The pools as the threads see them: the sandbox that takes a slot, the refill
    thread that looks, and that brings a slot or fails. *)
Inductive warm_step : Pool WarmSlot * Machine -> Pool WarmSlot * Machine -> Prop :=
| warm_step_pop p m s p' m' : warm_pop p m = (Ok (s, p'), m') -> warm_step (p, m) (p', m')
| warm_step_check p m : warm_step (p, m) (refill_check p, m)
| warm_step_fill p m p' m' : refill_fill prep_slot p m = (Ok p', m') -> warm_step (p, m) (p', m').

Inductive hot_step (cfg : Config) : Pool HotSlot * Machine -> Pool HotSlot * Machine -> Prop :=
| hot_step_pop p m : hot_step cfg (p, m) ((hot_pop p).2, m)
| hot_step_check p m : hot_step cfg (p, m) (refill_check p, m)
| hot_step_fill p m p' m' : refill_fill (prep_hot cfg) p m = (Ok p', m') -> hot_step cfg (p, m) (p', m').

Definition level {Slot} (p : Pool Slot) : nat := (length (po_ready p) + (if po_filling p then 1 else 0))%nat.
Definition level_ok {Slot} (t : nat) (p : Pool Slot) : Prop := po_target p = t /\ (level p <= t)%nat.

Lemma check_level {Slot} t (p : Pool Slot) : level_ok t p -> level_ok t (refill_check p).
Proof.
  intros [Ht Hl]. unfold refill_check. destruct (po_filling p) eqn:Ef; simpl; [done|].
  destruct (Nat.ltb_spec (length (po_ready p)) (po_target p)); [|done]. split; [done|]. unfold level. simpl. lia.
Qed.

Lemma fill_level {Slot} t (prep : Pool Slot -> HM Slot) p m p' m' :
  refill_fill prep p m = (Ok p', m') -> level_ok t p -> level_ok t p'.
Proof.
  unfold refill_fill. intros E [Ht Hl]. unfold level_ok, level in *. destruct (po_filling p) eqn:Ef; simpl in E; [|by injection E as <- <-; rewrite Ef].
  unfold mbind, mtry in E. destruct (prep p m) as [[s|e] m1]; injection E as <- <-; simpl; [rewrite length_app; simpl; lia|lia].
Qed.

Lemma warm_pop_level t p m s p' m' : warm_pop p m = (Ok (s, p'), m') -> level_ok t p -> level_ok t p'.
Proof.
  unfold warm_pop. intros E [Ht Hl]. unfold level_ok, level in *. destruct (po_ready p) as [|x l] eqn:Er.
  { injection E as <- <- <-. simpl. by rewrite Er. }
  unfold quietly, mbind, mtry in E. destruct (remove_dir_all _ m) as [u1 m1]. simpl in E.
  destruct (rename_dir _ _ m1) as [[u2|e2] m2]; [|destruct (remove_dir_all _ m2) as [u3 m3]];
    simpl in E; injection E as <- <- <-; simpl in *; lia.
Qed.

Lemma warm_run_level t x y : rtc warm_step x y -> level_ok t x.1 -> level_ok t y.1.
Proof.
  induction 1 as [|x y z Hs _ IH]; [done|]. intros Hx. apply IH.
  destruct Hs; simpl in *; [by eapply warm_pop_level|by apply check_level|by eapply fill_level].
Qed.

Lemma hot_run_level cfg t x y : rtc (hot_step cfg) x y -> level_ok t x.1 -> level_ok t y.1.
Proof.
  induction 1 as [|x y z Hs _ IH]; [done|]. intros Hx. apply IH.
  destruct Hs as [p m|p m|p m p' m' E]; simpl in *; [|by apply check_level|by eapply fill_level].
  unfold hot_pop. destruct Hx as [Ht Hl]. destruct (po_ready p) as [|s l] eqn:Er; [done|]. split; [done|].
  unfold level in *. rewrite Er in Hl. simpl in *. lia.
Qed.

Lemma empty_level {Slot} (p : Pool Slot) : po_ready p = [] -> po_filling p = false -> level_ok (po_target p) p.
Proof. intros Hr Hf. split; [done|]. unfold level. rewrite Hr, Hf. simpl. lia. Qed.

(**  a pool never holds more than its target.  From an empty pool, however the
    sandboxes that take slots and the two steps of the refill thread interleave, and
    whatever calls to the host fail, the slots that are ready and the one in
    preparation are together at most the target, for the warm pool and for the hot
    one. *)
Theorem pools_bounded (cfg : Config) (w w' : Pool WarmSlot) (h h' : Pool HotSlot) (m m1 m2 : Machine) :
  po_ready w = [] -> po_filling w = false -> po_ready h = [] -> po_filling h = false ->
  rtc warm_step (w, m) (w', m1) -> rtc (hot_step cfg) (h, m) (h', m2) ->
  (level w' <= po_target w)%nat /\ (level h' <= po_target h)%nat.
Proof.
  intros Hw Hwf Hh Hhf Rw Rh. split.
  - by apply (warm_run_level _ _ _ Rw), empty_level.
  - by apply (hot_run_level _ _ _ _ Rh), empty_level.
Qed.

Definition demo_warm : Pool WarmSlot := mkPool "/tpl" "/run" 1 [] false 0 0 0.
Definition demo_hot : Pool HotSlot := mkPool "/tpl" "/run" 1 [] false 0 0 0.

Lemma pools_bounded_witness :
  (level (refill_check demo_warm) <= 1)%nat /\ (level (refill_check demo_hot) <= 1)%nat.
Proof.
  apply (pools_bounded demo_cfg demo_warm (refill_check demo_warm) demo_hot (refill_check demo_hot)
    (demo_machine (fun _ => None) true) (demo_machine (fun _ => None) true) (demo_machine (fun _ => None) true)).
  - reflexivity.
  - reflexivity.
  - reflexivity.
  - reflexivity.
  - apply rtc_once. constructor.
  - apply rtc_once. constructor.
Defined.
