(* ===== verification/FcBackend.v ===== *)
(** * The Firecracker backend (crates/sl-node/src/fcbackend.rs)

    Instances as microVM processes with a directory each: creation from the hot
    pool, the warm pool or a copy, or a cold boot with a network; destruction; and
    pause, resume and fork over snapshots that may be sealed.  The state is the
    table of instances, the pools, the armed snapshot key and the machine. *)

From Stdlib Require Import ZArith Lia Bool List String Ascii.
From stdpp Require Import base tactics list gmap strings.
From S2P Require Import Prelude RustStr Utf8 Json Auth Proto Snapcrypt Backend Machine NetLive Restore Pool.

Open Scope Z_scope.

Record FcInst : Type := mkInst {
  fi_child : nat;
  fi_dir : string;
  fi_template : string;
  fi_machine_id : string;
  fi_paused : bool;
  fi_net : option LiveNet
}.

Record FcBackend : Type := mkFc {
  fb_cfg : Config;
  fb_run_root : string;
  fb_live : gmap string FcInst;
  fb_pool : option (Pool WarmSlot);
  fb_hot : option (Pool HotSlot);
  fb_snap_key : option SnapKey;
  fb_machine : Machine
}.

Notation FM := (M FcBackend string).

Definition set_live (l : gmap string FcInst) (b : FcBackend) : FcBackend :=
  mkFc (fb_cfg b) (fb_run_root b) l (fb_pool b) (fb_hot b) (fb_snap_key b) (fb_machine b).
Definition set_pool (p : option (Pool WarmSlot)) (b : FcBackend) : FcBackend :=
  mkFc (fb_cfg b) (fb_run_root b) (fb_live b) p (fb_hot b) (fb_snap_key b) (fb_machine b).
Definition set_hot (h : option (Pool HotSlot)) (b : FcBackend) : FcBackend :=
  mkFc (fb_cfg b) (fb_run_root b) (fb_live b) (fb_pool b) h (fb_snap_key b) (fb_machine b).
Definition set_machine (m : Machine) (b : FcBackend) : FcBackend :=
  mkFc (fb_cfg b) (fb_run_root b) (fb_live b) (fb_pool b) (fb_hot b) (fb_snap_key b) m.

(** A computation of the host. *)
Definition host {A} (c : HM A) : FM A := fun b =>
  let '(r, m) := c (fb_machine b) in (r, set_machine m b).
Definition get_b {A} (f : FcBackend -> A) : FM A := fun b => (Ok (f b), b).
Definition upd (f : FcBackend -> FcBackend) : FM unit := fun b => (Ok tt, f b).

Definition fc_new (cfg : Config) (run_root : string) (m : Machine) : FcBackend := mkFc cfg run_root ∅ None None None m.

Definition u128_saturating_add (a b : Z) : Z := Z.min (2 ^ 128 - 1) (a + b).

Definition unknown (id : string) : string := "未知沙箱 " ++s id.

(** ** Creation *)

Definition try_pool_hit (template : string) : FM (option WarmSlot) :=
  let? pool := get_b fb_pool in
  match pool with
  | None => mret None
  | Some p =>
      if negb (String.eqb (po_template p) template) then mret None
      else
        let? r := host (warm_pop p) in
        let? _ := upd (set_pool (Some r.2)) in
        mret r.1
  end.

Definition try_hot_hit (template : string) : FM (option HotSlot) :=
  let? hot := get_b fb_hot in
  match hot with
  | None => mret None
  | Some p =>
      if negb (String.eqb (po_template p) template) then mret None
      else
        let '(slot, p') := hot_pop p in
        let? _ := upd (set_hot (Some p')) in
        mret slot
  end.

Definition register_inst (id dir template : string) (child : nat) (o : LoadOutcome) (copy_ms total_ms : Z)
    (pool_hit hot_hit : bool) : FM BackendCreate :=
  let? _ := upd (fun b => set_live (<[id := mkInst child dir template (lo_machine_id o) false None]> (fb_live b)) b) in
  mret (mkBc id (lo_machine_id o) (lo_rng_hex o) (lo_session_key_hex o) total_ms copy_ms (lo_api_ready_ms o) (lo_load_ms o)
          (lo_resume_ms o) pool_hit hot_hit).

(** A restore that has to hand out a process; the directory goes when it fails. *)
Definition restored (c : HM (LoadOutcome * option nat * option (string * string))) (clean : HM unit) (none what : string)
    : HM (LoadOutcome * nat) :=
  let? r := or_cleanup c clean (fun e => what ++s ": " ++s e) in
  match r with
  | (o, Some child, _) => mret (o, child)
  | (_, None, _) => let? _ := clean in mfail none
  end.

Definition create_from_hot (template : string) (slot : HotSlot) : FM BackendCreate :=
  let? r := host (let? t := instant in
                  let? r := restored (restore_activate None true (hs_parked slot)) (quietly (remove_dir_all (hs_dir slot)))
                              "热池活化未返回 VM 句柄（keep_alive 语义异常）" "热池活化失败" in
                  let? activate_ms := elapsed_ms t in
                  mret (r, activate_ms)) in
  let '((o, child), activate_ms) := r in
  register_inst (hs_id slot) (hs_dir slot) template child o 0 activate_ms true true.

(** The host's part of [create_egress]: the directory, the network, the boot. *)
Definition egress_vm (cfg : Config) (run_root template : string) (spec : SandboxSpec)
    : HM (string * string * LiveNet * (nat * (string * string * string)) * Z) :=
  let? t := instant in
  let? idb := host_random 6 in
  let id := hex idb in
  let dir := join_path run_root id in
  let? _ := because "建实例目录失败" (create_dir_all dir) in
  let? dir := abspath dir in
  let clean := quietly (remove_dir_all dir) in
  let? _ := or_cleanup (cp_reflink (join_path template "rootfs.ext4") (join_path dir "rootfs.ext4")) clean (fun e => e) in
  let? root := is_root in
  let? uplink := match cf_uplink cfg with
                 | Some u => mret u
                 | None => let? u := detect_uplink root in mret (default "lo"%string u)
                 end in
  let? net := or_cleanup (net_up id (ns_for id) uplink root) clean (fun e => "egress 起 live 网络失败: " ++s e) in
  let? vm := or_cleanup (cold_boot_egress cfg dir net (sp_vcpus spec) (sp_mem_mib spec)) (let? _ := net_down net in clean)
               (fun e => "egress 冷启动失败: " ++s e) in
  let? total_ms := elapsed_ms t in
  mret (id, dir, net, vm, total_ms).

Definition create_egress (template : string) (spec : SandboxSpec) : FM BackendCreate :=
  let? cfg := get_b fb_cfg in
  let? run_root := get_b fb_run_root in
  let? r := host (egress_vm cfg run_root template spec) in
  let '(id, dir, net, (child, (machine_id, rng_hex, session_key_hex)), total_ms) := r in
  let? _ := upd (fun b => set_live (<[id := mkInst child dir template machine_id false (Some net)]> (fb_live b)) b) in
  mret (mkBc id machine_id rng_hex session_key_hex total_ms 0 0 0 0 false false).

(** A directory of the instance's own: a warm slot, or a copy made now. *)
Definition instance_slot (template : string) : FM (string * string * Z * bool) :=
  let? hit := try_pool_hit template in
  match hit with
  | Some slot => mret (ws_id slot, ws_dir slot, 0, true)
  | None =>
      let? run_root := get_b fb_run_root in
      host (let? idb := host_random 6 in
            let id := hex idb in
            let dir := join_path run_root id in
            let? copy_ms := prepare_instance_dir template dir in
            let? dir_abs := abspath dir in
            mret (id, dir_abs, copy_ms, false))
  end.

Definition restore_ctx (dir template : string) : RestoreCtx := mkCtx template dir (Some (dir, template)) true None.

Definition fc_create (template : string) (spec : SandboxSpec) : FM BackendCreate :=
  let? isdir := host (is_directory template) in
  if negb isdir then mfail ("模板目录不存在: " ++s template ++s "（先跑 --build / --snap-create）")
  else
    let? template := host (abspath template) in
    if bool_decide (sp_network spec = Egress) then create_egress template spec
    else
      let? hot := try_hot_hit template in
      match hot with
      | Some slot => create_from_hot template slot
      | None =>
          let? slot := instance_slot template in
          let '(id, dir_abs, copy_ms, pool_hit) := slot in
          let? cfg := get_b fb_cfg in
          let? r := host (restored (restore_core cfg (restore_ctx dir_abs template)) (quietly (remove_dir_all dir_abs))
                            "恢复未返回 VM 句柄（keep_alive 语义异常）" "创建走恢复失败") in
          let '(o, child) := r in
          register_inst id dir_abs template child o copy_ms (u128_saturating_add copy_ms (lo_total_ms o)) pool_hit false
      end.

(** ** Destruction *)

Definition destroy_inst (inst : FcInst) (sealed : bool) : HM unit :=
  let? _ := kill_group (fi_child inst) in
  let? _ := match fi_net inst with Some net => net_down net | None => mret tt end in
  let? _ := if sealed then
              let? _ := quietly (shred_file (join_path (fi_dir inst) "vmstate")) in
              quietly (shred_file (join_path (fi_dir inst) "mem"))
            else mret tt in
  quietly (remove_dir_all (fi_dir inst)).

Definition fc_destroy (id : string) (b : FcBackend) : FcBackend :=
  match fb_live b !! id with
  | None => b
  | Some inst =>
      set_live (delete id (fb_live b))
        (set_machine (destroy_inst inst (bool_decide (is_Some (fb_snap_key b))) (fb_machine b)).2 b)
  end.

(** ** Data plane *)

Definition fc_exec_target (b : FcBackend) (id : string) : option ExecTarget :=
  i ← fb_live b !! id; if fi_paused i then None else Some (Vsock (join_path (fi_dir i) "vsock.sock")).
Definition fc_instance_dir (b : FcBackend) (id : string) : option string := fi_dir <$> fb_live b !! id.
Definition fc_log_path (b : FcBackend) (id : string) : option string :=
  (fun i => join_path (fi_dir i) "console.load.log") <$> fb_live b !! id.

(** ** Pools *)

(** The pool that was there is dropped, which shuts it down: after the new one is
    made. *)
Definition replace_pool (p : option (Pool WarmSlot)) : FM unit :=
  let? old := get_b fb_pool in
  let? _ := upd (set_pool p) in
  match old with Some o => host (warm_shutdown o) | None => mret tt end.
Definition replace_hot (p : option (Pool HotSlot)) : FM unit :=
  let? cfg := get_b fb_cfg in
  let? old := get_b fb_hot in
  let? _ := upd (set_hot p) in
  match old with Some o => host (hot_shutdown cfg o) | None => mret tt end.

Definition fc_enable_warm_pool (template : string) (target : nat) : FM unit :=
  if (target =? 0)%nat then replace_pool None
  else
    let? run_root := get_b fb_run_root in
    let? p := host (warm_new template run_root target) in
    replace_pool (Some p).
Definition fc_enable_hot_pool (template : string) (target : nat) : FM unit :=
  if (target =? 0)%nat then replace_hot None
  else
    let? run_root := get_b fb_run_root in
    let? p := host (hot_new template run_root target) in
    replace_hot (Some p).

Definition ready_now {Slot} (p : option (Pool Slot)) (n : nat) : bool :=
  match p with Some p => (n <=? length (po_ready p))%nat | None => false end.

(** A turn of a refill thread, in its two steps. *)
Definition warm_look : FM unit := upd (fun b => set_pool (refill_check <$> fb_pool b) b).
Definition hot_look : FM unit := upd (fun b => set_hot (refill_check <$> fb_hot b) b).
Definition warm_fill : FM unit :=
  let? pool := get_b fb_pool in
  match pool with
  | None => mret tt
  | Some p => let? p' := host (refill_fill prep_slot p) in upd (set_pool (Some p'))
  end.
Definition hot_fill : FM unit :=
  let? cfg := get_b fb_cfg in
  let? hot := get_b fb_hot in
  match hot with
  | None => mret tt
  | Some p => let? p' := host (refill_fill (prep_hot cfg) p) in upd (set_hot (Some p'))
  end.

(** ** Snapshots *)

Section Snapshots.
Context `{Aead}.

(** The key material of [encrypt_file] is drawn from the host. *)
Definition seal_one (dir : string) (k : SnapKey) (name : string) : HM unit :=
  let plain := join_path dir name in
  let enc := join_path dir (name ++s ".enc") in
  let? dek := host_random 32 in
  let? nonce := host_random (Z.to_nat NONCE_LEN) in
  let? _ := on_files enc (encrypt_file dek nonce plain enc (sk_kek k) (sk_kek_id k)) in
  shred_file plain.
Definition seal_snapshot (dir : string) (k : SnapKey) : HM unit := mfor ["vmstate"; "mem"]%string (seal_one dir k).

Definition unseal_one (dir : string) (k : SnapKey) (name : string) : HM unit :=
  let enc := join_path dir (name ++s ".enc") in
  let? ex := path_exists enc in
  if negb ex then mfail ("加密快照 " ++s enc ++s " 不存在（快照是否用别的密钥密封？）")
  else let? _ := on_files (join_path dir name) (decrypt_file enc (join_path dir name) (sk_kek k)) in mret tt.
Definition unseal_snapshot (dir : string) (k : SnapKey) : HM unit := mfor ["vmstate"; "mem"]%string (unseal_one dir k).

Definition link_enc (parent dir name : string) : HM unit :=
  let src := join_path parent name in
  let dst := join_path dir name in
  let? _ := quietly (remove_file dst) in
  let? r := mtry (hard_link src dst) in
  match r with Ok _ => mret tt | Err _ => because ("拷贝 " ++s src ++s " 失败") (copy_file src dst) end.

Definition prepare_instance_dir_sealed (parent dir : string) : HM Z :=
  let? _ := because ("建实例目录失败 " ++s dir) (create_dir_all dir) in
  let? t0 := instant in
  let? _ := cp_reflink (join_path parent "rootfs.ext4") (join_path dir "rootfs.ext4") in
  let? copy_ms := elapsed_ms t0 in
  let? _ := mfor ["vmstate.enc"; "mem.enc"]%string (link_enc parent dir) in
  mret copy_ms.

Definition wipe_guest_keys (vsock : string) : HM unit :=
  let? s := connect_guest vsock in
  let? _ := because "发 WipeKeys 失败" host_call in
  let? _ := emit (ERequest s WipeKeys) in
  let? n := because "读 WipeKeys ack 失败" host_call in
  let? r := observe (fun e _ => e_reply e n WipeKeys) in
  match r with
  | Acked => mret tt
  | Error m => mfail ("guest 擦密钥失败: " ++s m)
  | other => mfail ("WipeKeys ack 异常: " ++s debug_response other)
  end.

(** [PUT /snapshot/create]: Firecracker writes the state and the memory. *)
Definition snapshot_create_body (dir : string) : string :=
  raw_object [("snapshot_type"%string, quoted "Full"); ("snapshot_path"%string, quoted (join_path dir "vmstate"));
              ("mem_file_path"%string, quoted (join_path dir "mem"))].
Definition snapshot_create (api dir : string) : HM unit :=
  let? n := host_call in
  let? _ := emit (EApi api "PUT" "/snapshot/create" (snapshot_create_body dir)) in
  let? img := observe (fun e _ => e_memory e n) in
  let? _ := on_disk (write_over (join_path dir "vmstate") img.1) in
  on_disk (write_over (join_path dir "mem") img.2).

(** The plaintext goes and the machine runs again, or is killed. *)
Definition undo_pause (dir api : string) (child : nat) : HM unit :=
  let? _ := quietly (shred_file (join_path dir "vmstate")) in
  let? _ := quietly (shred_file (join_path dir "mem")) in
  let? _ := quietly (shred_file (join_path dir "vmstate.enc")) in
  let? _ := quietly (shred_file (join_path dir "mem.enc")) in
  let? r := mtry (patch_vm api "Resumed") in
  match r with Ok _ => mret tt | Err _ => kill_group child end.

(** The host's part of [pause]. *)
Definition pause_vm (id dir : string) (child : nat) (key : option SnapKey) (vsock : option string) : HM unit :=
  let api := join_path dir "api.sock" in
  let? _ := match key, vsock with
            | Some _, Some v => quietly (wipe_guest_keys v)
            | _, _ => mret tt
            end in
  let? _ := quietly (remove_file (join_path dir "vmstate")) in
  let? _ := quietly (remove_file (join_path dir "mem")) in
  let? _ := patch_vm api "Paused" in
  let? _ := snapshot_create api dir in
  let? _ := match key with
            | Some k => or_cleanup (seal_snapshot dir k) (undo_pause dir api child)
                          (fun e => "pause " ++s id ++s ": 快照密封失败，已抹除明文并回滚: " ++s e)
            | None => mret tt
            end in
  kill_group child.

Definition with_inst {A} (id : string) (f : FcInst -> FM A) : FM A := fun b =>
  match fb_live b !! id with Some i => f i b | None => (Err (unknown id), b) end.

Definition target_vsock (t : option ExecTarget) : option string :=
  match t with Some (Vsock v) => Some v | _ => None end.

Definition fc_pause (id : string) : FM unit := with_inst id (fun i =>
  if fi_paused i then mret tt
  else
    let? key := get_b fb_snap_key in
    let? vsock := get_b (fun b => target_vsock (fc_exec_target b id)) in
    let? _ := host (pause_vm id (fi_dir i) (fi_child i) key vsock) in
    upd (fun b => set_live (<[id := mkInst (fi_child i) (fi_dir i) (fi_template i) (fi_machine_id i) true (fi_net i)]>
                              (fb_live b)) b)).

(** The host's part of [resume]. *)
Definition resume_vm (cfg : Config) (dir template : string) (key : option SnapKey) : HM (LoadOutcome * nat) :=
  let? _ := match key with Some k => unseal_snapshot dir k | None => mret tt end in
  let? r := restored (restore_core cfg (restore_ctx dir template)) (mret tt)
              "resume 未返回 VM 句柄（keep_alive 语义异常）" "resume 失败" in
  let? _ := match key with
            | Some _ =>
                let? _ := quietly (remove_file (join_path dir "vmstate.enc")) in
                quietly (remove_file (join_path dir "mem.enc"))
            | None => mret tt
            end in
  mret r.

Definition fc_resume (id : string) : FM string := with_inst id (fun i =>
  if negb (fi_paused i) then mfail ("resume: 沙箱 " ++s id ++s " 未暂停")
  else
    let? cfg := get_b fb_cfg in
    let? key := get_b fb_snap_key in
    let? r := host (resume_vm cfg (fi_dir i) (fi_template i) key) in
    let '(o, child) := r in
    let? _ := upd (fun b => set_live (<[id := mkInst child (fi_dir i) (fi_template i) (lo_machine_id o) false (fi_net i)]>
                                        (fb_live b)) b) in
    mret (lo_machine_id o)).

(** The host's part of [fork]. *)
Definition fork_vm (cfg : Config) (run_root parent_dir template : string) (key : option SnapKey)
    : HM (string * string * Z * (LoadOutcome * nat)) :=
  let? idb := host_random 6 in
  let new_id := hex idb in
  let new_dir := join_path run_root new_id in
  let? copy_ms := match key with
                  | None => prepare_instance_dir parent_dir new_dir
                  | Some k =>
                      let? ms := prepare_instance_dir_sealed parent_dir new_dir in
                      let? _ := or_cleanup (unseal_snapshot new_dir k) (quietly (remove_dir_all new_dir)) (fun e => e) in
                      mret ms
                  end in
  let? new_dir := abspath new_dir in
  let? r := restored (restore_core cfg (restore_ctx new_dir template)) (quietly (remove_dir_all new_dir))
              "fork 未返回 VM 句柄（keep_alive 语义异常）" "fork 失败" in
  mret (new_id, new_dir, copy_ms, r).

Definition fc_fork (id : string) : FM BackendCreate := with_inst id (fun i =>
  if negb (fi_paused i) then mfail ("fork: 需先 pause 父沙箱 " ++s id ++s "（fork 快照来源）")
  else
    let? cfg := get_b fb_cfg in
    let? run_root := get_b fb_run_root in
    let? key := get_b fb_snap_key in
    let? r := host (fork_vm cfg run_root (fi_dir i) (fi_template i) key) in
    let '(new_id, new_dir, copy_ms, (o, child)) := r in
    register_inst new_id new_dir (fi_template i) child o copy_ms (u128_saturating_add copy_ms (lo_total_ms o)) false false).

(** ** The backend *)

Definition fc_capabilities (b : FcBackend) : Capabilities :=
  let caps := caps_with [PauseResume; PrebakeSnapshot; SnapshotFork] in
  if e_root (mc_env (fb_machine b)) then caps_insert caps NetworkEgress else caps.

#[export] Instance fc_backend : SandboxBackend FcBackend := {|
  b_id := fun _ => "fc"%string;
  b_capabilities := fc_capabilities;
  b_create := fc_create;
  b_destroy := fc_destroy;
  b_exec_target := fc_exec_target;
  b_instance_dir := fc_instance_dir;
  b_log_path := fc_log_path;
  b_enable_warm_pool := fc_enable_warm_pool;
  b_enable_hot_pool := fc_enable_hot_pool;
  b_pool_wait_ready := fun b n _ => ready_now (fb_pool b) n;
  b_hot_wait_ready := fun b n _ => ready_now (fb_hot b) n;
  b_pool_stats := fun b => pool_stats <$> fb_pool b;
  b_set_snapshot_key := fun k b => mkFc (fb_cfg b) (fb_run_root b) (fb_live b) (fb_pool b) (fb_hot b) k (fb_machine b);
  b_pause := fc_pause;
  b_resume := fc_resume;
  b_fork := fc_fork
|}.
End Snapshots.
