(* ===== verification/FcSafety.v ===== *)
(** * Processes and instances of the Firecracker backend

    The backend meets the interface the orchestrator relies on, and every microVM
    that runs belongs to an instance of its table or to a slot of its hot pool,
    after any sequence of operations and refills and whatever the host does. *)

From Stdlib Require Import ZArith Lia Bool List String Ascii.
From stdpp Require Import base tactics list gmap strings relations.
From S2P Require Import Prelude RustStr Utf8 Json Auth Proto Snapcrypt Backend Machine NetLive Restore Pool FcBackend.

Open Scope Z_scope.

(** ** Frames *)

(** A preorder that looks neither at the processes nor at the events. *)
Class Loose (R : Machine -> Machine -> Prop) : Prop := {
  loose_park :: ParkSilent R;
  loose_silent :: forall e, Silent R e
}.

Section LooseFrames.
Context (R : Machine -> Machine -> Prop) `{!Loose R}.

#[local] Instance loose_kill p : Keeps R (kill_group p).
Proof. apply frame_kill, _. Qed.

#[export] Instance frame_activation netns ka p : Keeps R (restore_activate netns ka p).
Proof. unfold restore_activate. cbv zeta. solve_keeps. Qed.
#[export] Instance frame_restore_core cfg ctx : Keeps R (restore_core cfg ctx).
Proof. unfold restore_core. solve_keeps. Qed.
#[export] Instance frame_cold_boot cfg dir net v g : Keeps R (cold_boot_egress cfg dir net v g).
Proof. unfold cold_boot_egress. solve_keeps. Qed.
#[export] Instance frame_restored c cl n w : Keeps R c -> Keeps R cl -> Keeps R (restored c cl n w).
Proof. intros Hc Hl. unfold restored. solve_keeps. Qed.
#[export] Instance frame_egress cfg rr t spec : Keeps R (egress_vm cfg rr t spec).
Proof. unfold egress_vm. solve_keeps. Qed.
#[export] Instance frame_destroy_inst i s : Keeps R (destroy_inst i s).
Proof. unfold destroy_inst. solve_keeps. Qed.
#[export] Instance frame_prep_hot cfg p : Keeps R (prep_hot cfg p).
Proof. unfold prep_hot. solve_keeps. Qed.
#[export] Instance frame_kill_slots l : Keeps R (kill_slots l).
Proof. induction l as [|s l IH]; cbn [kill_slots]; solve_keeps. Qed.
End LooseFrames.

Section CalmFrames.
Context (R : Machine -> Machine -> Prop) `{!Stable R}.

#[export] Instance frame_warm_pop p : Keeps R (warm_pop p).
Proof. unfold warm_pop. solve_keeps. Qed.
#[export] Instance frame_new_pool {Slot} w t r n : Keeps R (new_pool (Slot := Slot) w t r n).
Proof. unfold new_pool. solve_keeps. Qed.
#[export] Instance frame_warm_new t r n : Keeps R (warm_new t r n).
Proof. unfold warm_new. solve_keeps. Qed.
#[export] Instance frame_hot_new t r n : Keeps R (hot_new t r n).
Proof. unfold hot_new. solve_keeps. Qed.
#[export] Instance frame_prep_slot p : Keeps R (prep_slot p).
Proof. unfold prep_slot. solve_keeps. Qed.
#[export] Instance frame_refill {Slot} prep (p : Pool Slot) : Keeps R (prep p) -> Keeps R (refill_fill prep p).
Proof. intros Hp. unfold refill_fill. solve_keeps. Qed.
#[export] Instance frame_warm_shutdown p : Keeps R (warm_shutdown p).
Proof. unfold warm_shutdown. solve_keeps. Qed.

Context `{Aead}.

#[export] Instance frame_seal_one dir k n : Keeps R (seal_one dir k n).
Proof. unfold seal_one. solve_keeps. Qed.
#[export] Instance frame_seal dir k : Keeps R (seal_snapshot dir k).
Proof. unfold seal_snapshot. apply _. Qed.
#[export] Instance frame_unseal_one dir k n : Keeps R (unseal_one dir k n).
Proof. unfold unseal_one. solve_keeps. Qed.
#[export] Instance frame_unseal dir k : Keeps R (unseal_snapshot dir k).
Proof. unfold unseal_snapshot. apply _. Qed.
#[export] Instance frame_link_enc p d n : Keeps R (link_enc p d n).
Proof. unfold link_enc. solve_keeps. Qed.
#[export] Instance frame_prepare_sealed p d : Keeps R (prepare_instance_dir_sealed p d).
Proof. unfold prepare_instance_dir_sealed. solve_keeps. Qed.
#[export] Instance frame_wipe_keys v : (forall v q, Silent R (ERequest v q)) -> Keeps R (wipe_guest_keys v).
Proof. intros Hq. unfold wipe_guest_keys. solve_keeps. Qed.
#[export] Instance frame_snapshot_create api dir : (forall a b c d, Silent R (EApi a b c d)) -> Keeps R (snapshot_create api dir).
Proof. intros Ha. unfold snapshot_create. solve_keeps. Qed.
End CalmFrames.

Section SnapshotFrames.
Context (R : Machine -> Machine -> Prop) `{!Loose R} `{Aead}.

#[local] Instance loose_kill' p : Keeps R (kill_group p).
Proof. apply frame_kill, _. Qed.

#[export] Instance frame_undo dir api c : Keeps R (undo_pause dir api c).
Proof. unfold undo_pause. solve_keeps. Qed.
#[export] Instance frame_pause_vm id dir c k v : Keeps R (pause_vm id dir c k v).
Proof. unfold pause_vm. solve_keeps. Qed.
#[export] Instance frame_resume_vm cfg dir t k : Keeps R (resume_vm cfg dir t k).
Proof. unfold resume_vm. solve_keeps. Qed.
#[export] Instance frame_fork_vm cfg rr p t k : Keeps R (fork_vm cfg rr p t k).
Proof. unfold fork_vm. solve_keeps. Qed.
#[export] Instance frame_hot_shutdown cfg p : Keeps R (hot_shutdown cfg p).
Proof. unfold hot_shutdown. solve_keeps. Qed.
End SnapshotFrames.

#[export] Instance later_loose : Loose later.
Proof.
  split; [|apply _]. split; [apply _..|]. intros m n procs. unfold later. simpl. repeat split; lia.
Qed.

(** ** The interface *)

(** The table and the environment are as they were. *)
Definition stays {A} (c : FM A) : Prop :=
  forall b, fb_live (c b).2 = fb_live b /\ mc_env (fb_machine (c b).2) = mc_env (fb_machine b).

(** A success adds one entry, an error none. *)
Definition adds {A} (id_of : A -> string) (c : FM A) : Prop :=
  forall b, mc_env (fb_machine (c b).2) = mc_env (fb_machine b) /\
    dom (fb_live (c b).2) = match (c b).1 with Ok a => {[id_of a]} ∪ dom (fb_live b) | Err _ => dom (fb_live b) end.

Lemma stays_host {A} (c : HM A) : Keeps later c -> stays (host c).
Proof. intros Hc b. unfold host. specialize (Hc (fb_machine b)). destruct (c _) as [r m]. by destruct Hc. Qed.

Lemma stays_get {A} (f : FcBackend -> A) : stays (get_b f).
Proof. done. Qed.

Lemma stays_ret {A} (a : A) : stays (mret a).
Proof. done. Qed.

Lemma stays_bind {A B} (c : FM A) (f : A -> FM B) : stays c -> (forall a, stays (f a)) -> stays (mbind c f).
Proof.
  intros Hc Hf b. specialize (Hc b). unfold mbind. destruct (c b) as [[a|e] b1]; [|done]. simpl in Hc.
  destruct (Hf a b1) as [H1 H2]. destruct Hc. split; congruence.
Qed.

Lemma adds_fail {A} (id_of : A -> string) e : adds id_of (mfail e).
Proof. done. Qed.

Lemma adds_after {A B} (c : FM A) (f : A -> FM B) id_of : stays c -> (forall a, adds id_of (f a)) -> adds id_of (mbind c f).
Proof.
  intros Hc Hf b. specialize (Hc b). unfold mbind. destruct (c b) as [[a|e] b1]; simpl in Hc; destruct Hc as [H1 H2]; [|simpl; by rewrite H1, H2].
  destruct (Hf a b1) as [H3 H4]. rewrite H3, H4, H2, H1. done.
Qed.

Lemma adds_register id dir t child o c t' p h : adds bc_id (register_inst id dir t child o c t' p h).
Proof. intros b. unfold register_inst, mbind, upd. simpl. by rewrite dom_insert_L. Qed.

Lemma stays_pool_hit t : stays (try_pool_hit t).
Proof.
  unfold try_pool_hit. apply stays_bind; [apply stays_get|]. intros [p|]; [|apply stays_ret].
  destruct (negb _); [apply stays_ret|]. apply stays_bind; [apply stays_host, _|]. intros r. apply stays_bind; [done|].
  intros _. apply stays_ret.
Qed.

Lemma stays_hot_hit t : stays (try_hot_hit t).
Proof.
  unfold try_hot_hit. apply stays_bind; [apply stays_get|]. intros [p|]; [|apply stays_ret].
  destruct (negb _); [apply stays_ret|]. destruct (hot_pop p) as [s p']. apply stays_bind; [done|]. intros _. apply stays_ret.
Qed.

Lemma adds_create t spec : adds bc_id (fc_create t spec).
Proof.
  unfold fc_create. apply adds_after; [apply stays_host, _|intros isdir]. destruct (negb isdir); [apply adds_fail|].
  apply adds_after; [apply stays_host, _|intros t']. destruct (bool_decide _).
  - unfold create_egress. do 2 (apply adds_after; [apply stays_get|intros ?]). apply adds_after; [apply stays_host, _|].
    intros [[[[id dir] net] [child [[mid rng] key]]] total]. intros b. unfold mbind, upd. simpl. by rewrite dom_insert_L.
  - apply adds_after; [apply stays_hot_hit|intros [slot|]].
    + unfold create_from_hot. apply adds_after; [apply stays_host, _|]. intros [[o child] ms]. apply adds_register.
    + apply adds_after.
      { unfold instance_slot. apply stays_bind; [apply stays_pool_hit|]. intros [slot|]; [apply stays_ret|].
        apply stays_bind; [apply stays_get|intros rr]. apply stays_host. solve_keeps. }
      intros [[[id dir] ms] hit]. apply adds_after; [apply stays_get|intros cfg].
      apply adds_after; [apply stays_host, _|]. intros [o child]. apply adds_register.
Qed.

Section Interface.
Context `{Aead}.

Lemma adds_with_inst {A} id (c : FcInst -> FM A) id_of : (forall i, adds id_of (c i)) -> adds id_of (with_inst id c).
Proof. intros Hc b. unfold with_inst. destruct (fb_live b !! id) as [i|]; [apply Hc|done]. Qed.

Lemma adds_fork id : adds bc_id (fc_fork id).
Proof.
  apply adds_with_inst. intros i. destruct (negb _); [apply adds_fail|]. do 3 (apply adds_after; [apply stays_get|intros ?]).
  apply adds_after; [apply stays_host, _|]. intros [[[nid ndir] ms] [o child]]. apply adds_register.
Qed.

(** Pause and resume change an entry of the table in place. *)
Lemma pause_dom id b :
  dom (fb_live (fc_pause id b).2) = dom (fb_live b) /\ mc_env (fb_machine (fc_pause id b).2) = mc_env (fb_machine b).
Proof.
  unfold fc_pause, with_inst. destruct (fb_live b !! id) as [i|] eqn:E; [|done]. destruct (fi_paused i); [done|].
  unfold mbind, get_b. pose proof (stays_host (pause_vm id (fi_dir i) (fi_child i) (fb_snap_key b)
    (target_vsock (fc_exec_target b id))) _ b) as [H1 H2].
  destruct (host _ b) as [[u|e] b1]; simpl in *; rewrite ?H1; [|done]. split; [|done]. by apply dom_insert_lookup_L.
Qed.

Lemma resume_dom id b :
  dom (fb_live (fc_resume id b).2) = dom (fb_live b) /\ mc_env (fb_machine (fc_resume id b).2) = mc_env (fb_machine b).
Proof.
  unfold fc_resume, with_inst. destruct (fb_live b !! id) as [i|] eqn:E; [|done]. destruct (negb _); [done|].
  unfold mbind, get_b. pose proof (stays_host (resume_vm (fb_cfg b) (fi_dir i) (fi_template i) (fb_snap_key b)) _ b) as [H1 H2].
  destruct (host _ b) as [[[o child]|e] b1]; simpl in *; rewrite ?H1; [|done]. split; [|done]. by apply dom_insert_lookup_L.
Qed.

Lemma destroy_dom id b :
  dom (fb_live (fc_destroy id b)) = dom (fb_live b) ∖ {[id]} /\ mc_env (fb_machine (fc_destroy id b)) = mc_env (fb_machine b).
Proof.
  unfold fc_destroy. destruct (fb_live b !! id) as [i|] eqn:E.
  - simpl. rewrite dom_delete_L. split; [done|]. assert (Keeps later (destroy_inst i (bool_decide (is_Some (fb_snap_key b))))) as Hk by apply _.
    by destruct (Hk (fb_machine b)).
  - apply not_elem_of_dom in E. split; [set_solver|done].
Qed.

Lemma same_fc b b' : mc_env (fb_machine b') = mc_env (fb_machine b) -> same_backend b b'.
Proof. intros He. unfold same_backend. simpl. unfold fc_capabilities. by rewrite He. Qed.

(** The Firecracker backend meets the interface of the orchestrator. *)
#[export] Instance fc_backend_laws : BackendLaws FcBackend.
Proof.
  refine {| instances := fun b => dom (fb_live b) |}; simpl.
  - intros t spec b. pose proof (adds_create t spec b) as [H1 H2]. destruct (fc_create t spec b) as [r b']. split; [by apply same_fc|done].
  - intros id b. pose proof (adds_fork id b) as [H1 H2]. destruct (fc_fork id b) as [r b']. split; [by apply same_fc|done].
  - intros id b. pose proof (destroy_dom id b) as [H1 H2]. split; [by apply same_fc|done].
  - intros id b. pose proof (pause_dom id b) as [H1 H2]. destruct (fc_pause id b) as [r b']. split; [by apply same_fc|done].
  - intros id b. pose proof (resume_dom id b) as [H1 H2]. destruct (fc_resume id b) as [r b']. split; [by apply same_fc|done].
  - intros k b. split; [by apply same_fc|done].
  - intros id b Hs. apply elem_of_dom. unfold fc_exec_target, fc_instance_dir, fc_log_path in Hs.
    destruct (fb_live b !! id); [done|]. simpl in Hs. destruct Hs as [Hs|[Hs|Hs]]; by destruct Hs.
Defined.
End Interface.

(** ** Processes *)

(** The process is the child of an instance that is not paused, or parked in the
    hot pool. *)
Definition owner (b : FcBackend) (p : nat) : Prop :=
  (exists id i, fb_live b !! id = Some i /\ fi_paused i = false /\ fi_child i = p) \/
  (exists pool s, fb_hot b = Some pool /\ s ∈ po_ready pool /\ pv_child (hs_parked s) = p).

(** Every process has an owner, but for [x], in transit. *)
Definition held (x : option nat) (b : FcBackend) : Prop :=
  wf_procs (fb_machine b) /\ forall p, p ∈ mc_procs (fb_machine b) -> Some p = x \/ owner b p.

(** A new process is fresh, and the table and the hot pool are as they were. *)
Definition gives {A} (child : A -> option nat) (c : FM A) : Prop :=
  forall b, held None b -> held (match (c b).1 with Ok a => child a | Err _ => None end) (c b).2 /\ fb_live (c b).2 = fb_live b.

Definition nobody {A} (a : A) : option nat := None.

Lemma held_machine b m x o : held None b -> started (fb_machine b) m o -> x = o -> held x (set_machine m b).
Proof.
  intros [Hw Ho] (H1 & H2 & H3) ->. split; [done|]. intros p Hp. simpl in Hp. destruct o as [q|].
  - destruct H3 as [_ H3]. rewrite H3 in Hp. apply elem_of_union in Hp as [->%elem_of_singleton|Hp]; [by left|].
    destruct (Ho p Hp) as [?|?]; [done|by right].
  - rewrite H3 in Hp. destruct (Ho p Hp) as [?|?]; [done|by right].
Qed.

Lemma gives_host {A} (c : HM A) child : starts child c -> gives child (host c).
Proof.
  intros Hc b Hb. unfold host. specialize (Hc (fb_machine b) (proj1 Hb)). destruct (c _) as [r m]. split; [|done].
  by eapply held_machine.
Qed.

Lemma gives_calm {A} (c : HM A) : Keeps same_procs c -> gives nobody (host c).
Proof. intros Hc. by apply gives_host, starts_calm. Qed.

Lemma gives_get {A} (f : FcBackend -> A) : gives nobody (get_b f).
Proof. done. Qed.
Lemma gives_ret {A} (a : A) : gives nobody (mret a).
Proof. done. Qed.
Lemma gives_fail {A} child e : gives child (mfail e : FM A).
Proof. done. Qed.

Lemma gives_after {A B} (c : FM A) (f : A -> FM B) child :
  gives nobody c -> (forall a, gives child (f a)) -> gives child (mbind c f).
Proof.
  intros Hc Hf b Hb. destruct (Hc b Hb) as [H1 H2]. unfold mbind. destruct (c b) as [[a|e] b1]; simpl in *; [|done].
  destruct (Hf a b1 H1) as [H3 H4]. split; [done|congruence].
Qed.

(** ** Creating *)

(** An operation that makes an entry of a new process; [Q] of the error. *)
Definition settles {A} (id_of : A -> string) (c : FM A) : Prop :=
  forall b, held None b -> (forall a, (c b).1 = Ok a -> id_of a ∉ dom (fb_live b)) -> held None (c b).2.

Lemma settles_fail {A} (id_of : A -> string) e : settles id_of (mfail e).
Proof. by intros b Hb _. Qed.

Lemma settles_after {A B} (c : FM A) (f : A -> FM B) id_of :
  gives nobody c -> (forall a, settles id_of (f a)) -> settles id_of (mbind c f).
Proof.
  intros Hc Hf b Hb. destruct (Hc b Hb) as [H1 H2]. unfold mbind. destruct (c b) as [[a|e] b1]; simpl in *; [|done].
  intros Hn. apply Hf; [done|]. by rewrite H2.
Qed.

(** The new entry takes the process over. *)
Lemma held_entry id i b :
  held (Some (fi_child i)) b -> fi_paused i = false -> id ∉ dom (fb_live b) -> held None (set_live (<[id := i]> (fb_live b)) b).
Proof.
  intros [Hw Ho] Hp Hn%not_elem_of_dom. split; [done|]. intros p Hin. right. destruct (Ho p Hin) as [[= ->]|[(id' & i' & H1 & H2)|Hh]].
  - left. exists id, i. simpl. by rewrite lookup_insert_eq.
  - left. exists id', i'. simpl. rewrite lookup_insert_ne by congruence. done.
  - by right.
Qed.

Lemma settles_entry {A B} (c : FM A) (child : A -> nat) (f : A -> FM B) id_of :
  gives (fun a => Some (child a)) c ->
  (forall a, exists id i r, id_of r = id /\ fi_child i = child a /\ fi_paused i = false /\
     forall b, f a b = (Ok r, set_live (<[id := i]> (fb_live b)) b)) ->
  settles id_of (mbind c f).
Proof.
  intros Hc Hf b Hb. destruct (Hc b Hb) as [H1 H2]. unfold mbind. destruct (c b) as [[a|e] b1]; simpl in *; [|done].
  destruct (Hf a) as (id & i & r & <- & Hi & Hp & Hfa). rewrite Hfa. simpl. intros Hn. apply held_entry; [by rewrite Hi|done|].
  rewrite H2. by apply Hn.
Qed.

(** The parts on the host. *)
Lemma starts_restored c cl n w :
  starts (fun r => r.1.2) c -> Keeps same_procs cl -> starts (fun r => Some r.2) (restored c cl n w).
Proof.
  intros Hc Hl m Hw. specialize (Hc m Hw). unfold restored, or_cleanup, mbind, mtry, mret, mfail.
  destruct (c m) as [[[[o [child|]] g]|e] m1]; simpl in *.
  - done.
  - specialize (Hl m1). destruct (cl m1) as [[u|e] m2]; simpl in *; by eapply started_calm.
  - specialize (Hl m1). destruct (cl m1) as [[u|e'] m2]; simpl in *; by eapply started_calm.
Qed.

Lemma starts_or_cleanup {A} (c : HM A) cl f child : starts child c -> Keeps same_procs cl -> starts child (or_cleanup c cl f).
Proof.
  intros Hc Hl m Hw. specialize (Hc m Hw). unfold or_cleanup, mbind, mtry, mret, mfail.
  destruct (c m) as [[a|e] m1]; simpl in *; [done|]. specialize (Hl m1). destruct (cl m1) as [[u|e'] m2]; simpl in *; by eapply started_calm.
Qed.

(** What follows cannot fail. *)
Lemma starts_finish {A B C} (c : HM A) (k : HM B) (h : A -> B -> C) child child' :
  starts child c -> Keeps same_procs k -> (forall m, is_ok (k m).1 = true) -> (forall a b, child' (h a b) = child a) ->
  starts child' (let? a := c in let? b := k in mret (h a b)).
Proof.
  intros Hc Hk Hok Hh m Hw. specialize (Hc m Hw). unfold mbind, mret. destruct (c m) as [[a|e] m1]; simpl in *; [|done].
  specialize (Hk m1). specialize (Hok m1). destruct (k m1) as [[b|e] m2]; simpl in *; [|done]. rewrite Hh. by eapply started_calm.
Qed.

Lemma starts_egress cfg rr t spec : starts (fun r => Some r.1.2.1) (egress_vm cfg rr t spec).
Proof.
  unfold egress_vm. do 8 (apply starts_after; [solve_keeps|intros ?]).
  eapply (starts_finish _ _ (fun vm ms => (_, _, _, vm, ms)) (fun r => Some r.1)); [|apply _|by intros m|by intros [c i] ms].
  apply starts_or_cleanup; [apply starts_cold_boot|solve_keeps].
Qed.

Lemma gives_pool_hit t : gives nobody (try_pool_hit t).
Proof.
  unfold try_pool_hit. apply gives_after; [apply gives_get|]. intros [p|]; [|apply gives_ret].
  destruct (negb _); [apply gives_ret|]. apply gives_after; [apply gives_calm, _|]. intros r.
  apply gives_after; [|intros _; apply gives_ret]. by intros b Hb.
Qed.

Lemma gives_slot t : gives nobody (instance_slot t).
Proof.
  unfold instance_slot. apply gives_after; [apply gives_pool_hit|]. intros [s|]; [apply gives_ret|].
  apply gives_after; [apply gives_get|intros rr]. apply gives_calm. solve_keeps.
Qed.

(** A popped slot's process is in transit, then the instance's or killed. *)
Lemma hot_hit_held t b :
  held None b ->
  match try_hot_hit t b with
  | (Ok (Some s), b') => held (Some (pv_child (hs_parked s))) b' /\ fb_live b' = fb_live b
  | (_, b') => held None b' /\ fb_live b' = fb_live b
  end.
Proof.
  intros Hb. unfold try_hot_hit, mbind, get_b. destruct (fb_hot b) as [p|] eqn:Eh; [|done]. destruct (negb _); [done|].
  unfold hot_pop. destruct (po_ready p) as [|s rest] eqn:Er; cbn [upd mret set_hot fb_live]; (split; [|done]).
  - destruct Hb as [Hw Ho]. split; [done|]. intros q Hq. destruct (Ho q Hq) as [?|[?|(p' & s' & H1 & H2 & _)]]; [done|right; by left|].
    simplify_eq. rewrite Er in H2. by apply not_elem_of_nil in H2.
  - destruct Hb as [Hw Ho]. split; [done|]. intros q Hq. destruct (Ho q Hq) as [?|[?|(p' & s' & H1 & H2 & H3)]]; [done|right; by left|].
    simplify_eq. rewrite Er in H2. apply elem_of_cons in H2 as [->|H2]; [by left|]. right. right.
    exists (set_ready rest (po_filling p) p), s'. done.
Qed.

Lemma activation_settles t slot :
  forall b, held (Some (pv_child (hs_parked slot))) b -> (forall a, (create_from_hot t slot b).1 = Ok a -> bc_id a ∉ dom (fb_live b)) ->
  held None (create_from_hot t slot b).2.
Proof.
  intros b [Hw Ho]. unfold create_from_hot, mbind at 1 4, host. unfold restored, or_cleanup, mbind, mtry, instant, mret, mfail.
  pose proof (activate_child None true (hs_parked slot) (step_on (fb_machine b))) as Ha.
  destruct (restore_activate None true (hs_parked slot) _) as [[[[o [child|]] g]|e] m1].
  - destruct Ha as (-> & _ & [Hp Hn]). simpl in Hp, Hn. cbn -[held]. intros Hd.
    apply (held_entry _ _ (set_machine (step_on m1) b)); [|done|by apply (Hd _ eq_refl)].
    split; [intros q; simpl; rewrite Hp, Hn; apply Hw|]. intros q. simpl. rewrite Hp. apply Ho.
  - by destruct Ha.
  - assert (Keeps same_procs (quietly (remove_dir_all (hs_dir slot)))) as Hq by apply _. specialize (Hq m1).
    destruct (quietly _ m1) as [[u|e'] m2]; simpl in Hq; destruct Hq as [Hq1 Hq2], Ha as [Ha1 Ha2]; simpl in *; intros _;
      (split; [intros q; simpl; rewrite Hq1, Hq2, Ha1, Ha2; intros Hin; apply Hw; set_solver|]);
      intros q; simpl; rewrite Hq1, Ha2; intros Hin; (destruct (Ho q) as [[= ->]|?]; [set_solver|set_solver|by right]).
Qed.

Lemma settles_hot {A} t (k : option HotSlot -> FM A) id_of :
  (forall slot b, held (Some (pv_child (hs_parked slot))) b -> (forall a, (k (Some slot) b).1 = Ok a -> id_of a ∉ dom (fb_live b)) ->
     held None (k (Some slot) b).2) ->
  settles id_of (k None) -> settles id_of (mbind (try_hot_hit t) k).
Proof.
  intros Hs Hn b Hb. pose proof (hot_hit_held t b Hb) as Hh. unfold mbind.
  destruct (try_hot_hit t b) as [[[slot|]|e] b1]; destruct Hh as [Hh Hl]; [| |done]; intros Hd; [apply Hs|apply Hn]; try done;
    by rewrite Hl.
Qed.

Ltac entry :=
  do 3 eexists; split; [|split; [|split; [|intros b; reflexivity]]]; reflexivity.

Lemma create_settles t spec : settles bc_id (fc_create t spec).
Proof.
  unfold fc_create. apply settles_after; [apply gives_calm, _|intros isdir]. destruct (negb isdir); [apply settles_fail|].
  apply settles_after; [apply gives_calm, _|intros t']. destruct (bool_decide _).
  - unfold create_egress. do 2 (apply settles_after; [apply gives_get|intros ?]).
    eapply (settles_entry _ (fun r => r.1.2.1)); [apply gives_host, starts_egress|].
    intros [[[[id dir] net] [child [[mid rng] key]]] total]. entry.
  - apply settles_hot; [intros slot; apply activation_settles|].
    apply settles_after; [apply gives_slot|]. intros [[[id dir] ms] hit]. apply settles_after; [apply gives_get|intros cfg].
    eapply (settles_entry _ (fun r => r.2)).
    * apply gives_host, starts_restored; [apply starts_restore|apply _].
    * intros [o child]. entry.
Qed.

(** ** Ending *)

(** Processes only go. *)
Definition shrinks (m m' : Machine) : Prop := mc_pid m' = mc_pid m /\ mc_procs m' ⊆ mc_procs m.

#[export] Instance shrinks_stable : Stable shrinks.
Proof. split; [split|..]; unfold shrinks; simpl; [done| |done..]. intros a b c [H1 H2] [H3 H4]. split; [congruence|set_solver]. Qed.
#[export] Instance shrinks_silent e : Silent shrinks e.
Proof. done. Qed.
#[export] Instance shrinks_kill p : Keeps shrinks (kill_group p).
Proof. intros m. unfold shrinks, kill_group. simpl. set_solver. Qed.

Lemma shrinks_held b b' :
  shrinks (fb_machine b) (fb_machine b') -> held None b ->
  (forall p, p ∈ mc_procs (fb_machine b') -> owner b p -> owner b' p) -> held None b'.
Proof.
  intros [Hn Hs] [Hw Ho] Hk. split; [intros p Hp; rewrite Hn; apply Hw; set_solver|]. intros p Hp. right.
  destruct (Ho p) as [?|?]; [set_solver|done|by apply Hk].
Qed.

(** A success ends with the process killed. *)
Definition ends_killed {A} (p : nat) (c : HM A) : Prop := forall m a m', c m = (Ok a, m') -> p ∉ mc_procs m'.

Lemma ends_kill p : ends_killed p (kill_group p).
Proof. intros m u m' [= _ <-]. simpl. set_solver. Qed.

Lemma ends_bind {A B} p (c : HM A) (f : A -> HM B) : (forall a, ends_killed p (f a)) -> ends_killed p (mbind c f).
Proof. intros Hf m b m'. unfold mbind. destruct (c m) as [[a|e] m1]; [apply Hf|done]. Qed.

Lemma killed_first {A} (k : HM A) p m : Keeps shrinks k -> p ∉ mc_procs ((let? _ := kill_group p in k) m).2.
Proof.
  intros Hk. unfold mbind, kill_group. match goal with |- context [k ?x] => destruct (Hk x) as [_ Hs] end. simpl in Hs. set_solver.
Qed.

Lemma destroy_held id b : held None b -> held None (fc_destroy id b).
Proof.
  intros Hb. unfold fc_destroy. destruct (fb_live b !! id) as [i|] eqn:E; [|done]. set (sealed := bool_decide _).
  assert (Keeps shrinks (destroy_inst i sealed)) as Hs by (unfold destroy_inst; solve_keeps). specialize (Hs (fb_machine b)).
  assert (fi_child i ∉ mc_procs (destroy_inst i sealed (fb_machine b)).2) as Hd.
  { unfold destroy_inst. apply killed_first. solve_keeps. }
  eapply shrinks_held; [exact Hs|done|]. intros p Hp [(id' & i' & H1 & H2 & H3)|Hh]; [left|by right].
  exists id', i'. simpl. rewrite lookup_delete_ne; [done|]. intros <-. simpl in Hp. congruence.
Qed.

Section SnapshotSafety.
Context `{Aead}.

Lemma pause_held id b : held None b -> held None (fc_pause id b).2.
Proof.
  intros Hb. unfold fc_pause, with_inst. destruct (fb_live b !! id) as [i|] eqn:E; [|done]. destruct (fi_paused i); [done|].
  unfold mbind, get_b, host. set (c := pause_vm id (fi_dir i) (fi_child i) (fb_snap_key b) _).
  assert (Keeps shrinks c) as Hs by (unfold c, pause_vm, undo_pause; solve_keeps). specialize (Hs (fb_machine b)).
  destruct (c (fb_machine b)) as [[u|e] m] eqn:Ec; simpl in Hs.
  - assert (fi_child i ∉ mc_procs m) as Hd.
    { unfold c, pause_vm in Ec. cbv zeta in Ec. revert Ec. do 6 (apply ends_bind; intros ?). apply ends_kill. }
    eapply shrinks_held; [exact Hs|done|]. intros p Hp [(id' & i' & H1 & H2 & H3)|Hh]; [left|by right].
    exists id', i'. simpl in *. rewrite lookup_insert_ne; [done|]. intros <-. congruence.
  - eapply shrinks_held; [exact Hs|done|]. done.
Qed.

Lemma starts_resume cfg dir t k : starts (fun r => Some r.2) (resume_vm cfg dir t k).
Proof.
  unfold resume_vm. apply starts_after; [solve_keeps|intros _].
  eapply (starts_finish _ _ (fun r _ => r)); [apply starts_restored; [apply starts_restore|apply _]| | |done].
  - destruct k; solve_keeps.
  - intros m. destruct k; [|done]. unfold quietly, mbind, mtry, mret.
    destruct (remove_file _ m) as [r1 m1]. by destruct (remove_file _ m1).
Qed.

Lemma resume_held id b : held None b -> held None (fc_resume id b).2.
Proof.
  intros Hb. unfold fc_resume, with_inst. destruct (fb_live b !! id) as [i|] eqn:E; [|done].
  destruct (fi_paused i) eqn:Ep; cbn [negb]; [|done]. unfold mbind, get_b.
  pose proof (gives_host _ _ (starts_resume (fb_cfg b) (fi_dir i) (fi_template i) (fb_snap_key b)) b Hb) as [H1 H2].
  assert (fb_hot (host (resume_vm (fb_cfg b) (fi_dir i) (fi_template i) (fb_snap_key b)) b).2 = fb_hot b) as H3.
  { unfold host. by destruct (resume_vm _ _ _ _ _). }
  destruct (host _ b) as [[[o child]|e] b1]; simpl in *; [|done]. destruct H1 as [Hw Ho]. split; [done|].
  intros p Hp. right. destruct (Ho p Hp) as [[= ->]|[(id' & i' & H4 & H5 & H6)|Hh]].
  - left. eexists id, _. simpl. by rewrite lookup_insert_eq.
  - left. exists id', i'. simpl. rewrite lookup_insert_ne; [done|]. intros <-. congruence.
  - by right.
Qed.

Lemma starts_fork cfg rr d t k : starts (fun r => Some r.2.2) (fork_vm cfg rr d t k).
Proof.
  unfold fork_vm. do 3 (apply starts_after; [solve_keeps|intros ?]).
  intros m Hw. pose proof (starts_restored (restore_core cfg (restore_ctx a1 t)) (quietly (remove_dir_all a1))
    "fork 未返回 VM 句柄（keep_alive 语义异常）" "fork 失败" (starts_restore _ _) _ m Hw) as Hs.
  unfold mbind. by destruct (restored _ _ _ _ m) as [[r|e] m'].
Qed.

Lemma settles_with_inst {A} id (c : FcInst -> FM A) id_of : (forall i, settles id_of (c i)) -> settles id_of (with_inst id c).
Proof. intros Hc b Hb. unfold with_inst. destruct (fb_live b !! id) as [i|]; [by apply Hc|done]. Qed.

Lemma fork_settles id : settles bc_id (fc_fork id).
Proof.
  apply settles_with_inst. intros i. destruct (negb _); [apply settles_fail|]. do 3 (apply settles_after; [apply gives_get|intros ?]).
  eapply (settles_entry _ (fun r => r.2.2)); [apply gives_host, starts_fork|]. intros [[[nid ndir] ms] [o child]]. entry.
Qed.
End SnapshotSafety.

(** ** Pools *)

Lemma starts_prep_hot cfg p : starts (fun s => Some (pv_child (hs_parked s))) (prep_hot cfg p).
Proof.
  unfold prep_hot. cbv zeta. do 4 (apply starts_after; [solve_keeps|intros ?]).
  intros m Hw. set (c := or_cleanup _ _ _).
  assert (starts (fun p => Some (pv_child p)) c) as Hs by (apply starts_or_cleanup; [apply starts_park|apply _]).
  specialize (Hs m Hw). unfold mbind. by destruct (c m) as [[q|e] m'].
Qed.

(** What the refill thread of the hot pool leaves. *)
Lemma hot_refill_procs cfg p m :
  wf_procs m ->
  let '(r, m') := refill_fill (prep_hot cfg) p m in
  exists p', r = Ok p' /\ wf_procs m' /\ (mc_pid m <= mc_pid m')%nat /\ po_ready p `prefix_of` po_ready p' /\
    forall q, q ∈ mc_procs m' -> q ∈ mc_procs m \/ exists s, s ∈ po_ready p' /\ pv_child (hs_parked s) = q.
Proof.
  intros Hw. unfold refill_fill. destruct (po_filling p); cbn [negb]; [|exists p; repeat split; auto].
  pose proof (starts_prep_hot cfg p m Hw) as Hs. unfold mbind, mtry, mret. destruct (prep_hot cfg p m) as [[s|e] m']; simpl in Hs.
  - destruct Hs as (H1 & H2 & H3 & H4). eexists. split; [done|]. split; [done|]. split; [done|].
    split; [by eexists|]. intros q. rewrite H4. intros [->%elem_of_singleton|Hq]%elem_of_union; [right|by left].
    exists s. split; [simpl; set_solver|done].
  - destruct Hs as (H1 & H2 & H3). eexists. split; [done|]. split; [done|]. split; [done|]. split; [done|].
    intros q. rewrite H3. auto.
Qed.

Lemma kill_slots_procs l m : wf_procs m ->
  wf_procs (kill_slots l m).2 /\
  forall q, q ∈ mc_procs (kill_slots l m).2 -> q ∈ mc_procs m /\ forall s, s ∈ l -> pv_child (hs_parked s) <> q.
Proof.
  intros Hw. assert (Keeps shrinks (kill_slots l)) as Hk by (induction l; cbn [kill_slots]; solve_keeps).
  destruct (Hk m) as [Hn Hs]. split; [intros p Hp; rewrite Hn; apply Hw; set_solver|].
  intros q Hq. split; [set_solver|]. clear Hw Hn Hs. revert m Hq. induction l as [|s l IH]; intros m Hq s' Hin; [by apply not_elem_of_nil in Hin|].
  cbn [kill_slots] in Hq, Hk.
  assert (Keeps shrinks (kill_slots l)) as Hk' by (clear; induction l; cbn [kill_slots]; solve_keeps).
  apply elem_of_cons in Hin as [->|Hin].
  - intros <-. revert Hq. apply killed_first. solve_keeps.
  - unfold mbind at 1 in Hq. cbn [kill_group] in Hq. unfold mbind in Hq.
    match type of Hq with context [quietly ?c ?x] => destruct (quietly c x) as [[u|e] m1] eqn:E end; [by eapply (IH Hk')|].
    exfalso. unfold quietly, mbind, mtry in E. by destruct (remove_dir_all _ _).
Qed.

Lemma hot_fill_held b : held None b -> held None (hot_fill b).2.
Proof.
  intros Hb. unfold hot_fill, mbind, get_b. destruct (fb_hot b) as [p|] eqn:Eh; [|done]. unfold host.
  pose proof (hot_refill_procs (fb_cfg b) p (fb_machine b) (proj1 Hb)) as Hr.
  destruct (refill_fill _ p _) as [r m']. destruct Hr as (p' & -> & Hw & _ & Hp & Hq). simpl. split; [done|].
  intros q Hin. right. destruct (Hq q Hin) as [Hold|(s & H1 & H2)]; [|right; by exists p', s].
  destruct (proj2 Hb q Hold) as [?|[Hl|(p0 & s & H1 & H2 & H3)]]; [done|by left|right]. simplify_eq.
  exists p', s. split; [done|]. split; [|done]. destruct Hp as [l ->]. set_solver.
Qed.

Lemma replace_hot_held p b : held None b -> (forall s, p = Some s -> po_ready s = []) -> held None (replace_hot p b).2.
Proof.
  intros Hb Hp. unfold replace_hot, mbind, get_b, upd. destruct (fb_hot b) as [old|] eqn:Eh.
  - unfold host, hot_shutdown. cbn [fb_machine set_hot]. pose proof (hot_refill_procs (fb_cfg b) old (fb_machine b) (proj1 Hb)) as Hr.
    unfold mbind. destruct (refill_fill _ old _) as [r m']. destruct Hr as (old' & -> & Hw & _ & Hpre & Hq).
    destruct (kill_slots_procs (po_ready old') m' Hw) as [Hw2 Hk]. destruct (kill_slots _ m') as [r2 m2]. simpl in *. split; [done|].
    intros q Hin. right. destruct (Hk q Hin) as [Hq1 Hq2]. destruct (Hq q Hq1) as [Hold|(s & H1 & H2)]; [|by destruct (Hq2 s H1)].
    destruct (proj2 Hb q Hold) as [?|[Hl|(p0 & s & H1 & H2 & H3)]]; [done|by left|]. exfalso. simplify_eq.
    apply (Hq2 s); [|done]. destruct Hpre as [l ->]. set_solver.
  - simpl. destruct Hb as [Hw Ho]. split; [done|]. intros q Hin. destruct (Ho q Hin) as [?|[Hl|(p0 & s & H1 & _)]]; [done|right; by left|congruence].
Qed.

Lemma gives_held (c : FM unit) b : gives nobody c -> held None b -> held None (c b).2.
Proof. intros Hc Hb. destruct (Hc b Hb) as [H1 _]. by destruct (c b) as [[u|e] b']. Qed.

Lemma warm_fill_gives : gives nobody warm_fill.
Proof.
  unfold warm_fill. apply gives_after; [apply gives_get|]. intros [p|]; [|apply gives_ret].
  apply gives_after; [apply gives_calm, _|]. intros p'. by intros b Hb.
Qed.

Lemma replace_pool_gives p : gives nobody (replace_pool p).
Proof.
  unfold replace_pool. apply gives_after; [apply gives_get|intros old]. apply gives_after; [by intros b Hb|intros _].
  destruct old; [apply gives_calm, _|apply gives_ret].
Qed.

Lemma enable_warm_gives t n : gives nobody (fc_enable_warm_pool t n).
Proof.
  unfold fc_enable_warm_pool. destruct (_ =? _)%nat; [apply replace_pool_gives|].
  apply gives_after; [apply gives_get|intros rr]. apply gives_after; [apply gives_calm, _|intros p]. apply replace_pool_gives.
Qed.

Lemma new_pool_empty {Slot} w t r n m (p : Pool Slot) m' : new_pool w t r n m = (Ok p, m') -> po_ready p = [].
Proof.
  unfold new_pool, mbind. destruct (is_directory t m) as [[d|e] m1]; [|done]. destruct (negb d); [done|].
  destruct (abspath t m1) as [[t'|e] m2]; [|done]. destruct (because _ _ m2) as [[u|e] m3]; [|done].
  destruct (abspath r m3) as [[r'|e] m4]; [|done]. by intros [= <- _].
Qed.

Lemma enable_hot_held t n b : held None b -> held None (fc_enable_hot_pool t n b).2.
Proof.
  intros Hb. unfold fc_enable_hot_pool. destruct (_ =? _)%nat; [by apply replace_hot_held|]. unfold mbind at 1, get_b.
  destruct (gives_calm (hot_new t (fb_run_root b) n) _ b Hb) as [H1 H2]. unfold mbind.
  destruct (host _ b) as [[p|e] b1] eqn:E; simpl in H1; [|done]. apply replace_hot_held; [done|]. intros s [= <-].
  unfold host in E. destruct (hot_new _ _ _ _) as [r m] eqn:En. injection E as -> <-. unfold hot_new, mbind in En.
  destruct (new_pool _ _ _ _ _) as [[p0|e] m0] eqn:Ep; [|done]. destruct (because _ _ m0) as [[u|e] m1]; [|done].
  injection En as <- _. by eapply new_pool_empty.
Qed.

Section Runs.
Context `{Aead}.

(** An operation of the backend, or a step of a refill thread; the ids of new
    instances are new. *)
Inductive fc_step : FcBackend -> FcBackend -> Prop :=
| step_create t spec b :
    (forall bc, (fc_create t spec b).1 = Ok bc -> bc_id bc ∉ dom (fb_live b)) -> fc_step b (fc_create t spec b).2
| step_fork id b : (forall bc, (fc_fork id b).1 = Ok bc -> bc_id bc ∉ dom (fb_live b)) -> fc_step b (fc_fork id b).2
| step_destroy id b : fc_step b (fc_destroy id b)
| step_pause id b : fc_step b (fc_pause id b).2
| step_resume id b : fc_step b (fc_resume id b).2
| step_key k b : fc_step b (b_set_snapshot_key k b)
| step_warm_pool t n b : fc_step b (fc_enable_warm_pool t n b).2
| step_hot_pool t n b : fc_step b (fc_enable_hot_pool t n b).2
| step_warm_look b : fc_step b (warm_look b).2
| step_warm_fill b : fc_step b (warm_fill b).2
| step_hot_look b : fc_step b (hot_look b).2
| step_hot_fill b : fc_step b (hot_fill b).2.

Lemma hot_look_held b : held None b -> held None (hot_look b).2.
Proof.
  intros [Hw Ho]. split; [done|]. intros p Hp. destruct (Ho p Hp) as [?|[?|(pool & s & H1 & H2 & H3)]]; [done|right; by left|].
  right. right. exists (refill_check pool), s. split; [simpl; by rewrite H1|]. split; [|done].
  unfold refill_check. by destruct (_ && _).
Qed.

Lemma fc_step_held b b' : fc_step b b' -> held None b -> held None b'.
Proof.
  intros [t spec b0 Hf|id b0 Hf|id b0|id b0|id b0|k b0|t n b0|t n b0|b0|b0|b0|b0] Hb.
  - by apply create_settles.
  - by apply fork_settles.
  - by apply destroy_held.
  - by apply pause_held.
  - by apply resume_held.
  - done.
  - by apply gives_held; [apply enable_warm_gives|].
  - by apply enable_hot_held.
  - done.
  - by apply gives_held; [apply warm_fill_gives|].
  - by apply hot_look_held.
  - by apply hot_fill_held.
Qed.
End Runs.

(** C5: no microVM runs unowned.  Whatever creations, forks, pauses, resumes,
    destructions, changes of the snapshot key and of the pools, interleaved with
    the steps of the refill threads, and whatever calls to the host, to
    Firecracker or to a guest fail on the way: every process that is still running
    is the child of an instance of the table that is not paused, or parked in a
    slot of the hot pool. *)
Theorem fc_processes_owned `{Aead} (cfg : Config) (run_root : string) (m : Machine) (b : FcBackend) (p : nat) :
  mc_procs m = ∅ -> rtc fc_step (fc_new cfg run_root m) b -> p ∈ mc_procs (fb_machine b) -> owner b p.
Proof.
  intros Hm Hr Hp. assert (held None b) as [_ Ho].
  { assert (held None (fc_new cfg run_root m)) as H0.
    { split; intros q; simpl; rewrite Hm; intros Hq; by apply not_elem_of_empty in Hq. }
    clear Hp. induction Hr as [|b1 b2 b3 Hs _ IH]; [done|]. apply IH. by eapply fc_step_held. }
  by destruct (Ho p Hp) as [?|?].
Qed.

(** ** A run for the witnesses: a sandbox is created, and another *)

Definition demo_fc : FcBackend := fc_new demo_cfg "/run" (demo_machine (fun _ => None) true).
Definition demo_created : FcBackend := (fc_create "/tpl" default_spec demo_fc).2.
Definition demo_two : FcBackend := (fc_create "/tpl" default_spec demo_created).2.

Definition id_of (r : result BackendCreate string) : string := match r with Ok c => bc_id c | Err e => e end.

Lemma fresh_create t spec b : bool_decide (fb_live b !! id_of (fc_create t spec b).1 = None) = true ->
  forall bc, (fc_create t spec b).1 = Ok bc -> bc_id bc ∉ dom (fb_live b).
Proof. intros Hf bc Hb. apply bool_decide_eq_true in Hf. rewrite Hb in Hf. by apply not_elem_of_dom. Qed.

Lemma demo_run `{Aead} : rtc fc_step demo_fc demo_two.
Proof.
  apply (rtc_l _ _ demo_created); [|apply rtc_once].
  - apply (step_create "/tpl" default_spec demo_fc), fresh_create. vm_compute. reflexivity.
  - apply (step_create "/tpl" default_spec demo_created), fresh_create. vm_compute. reflexivity.
Qed.

Lemma fc_processes_owned_witness : owner demo_two 1.
Proof.
  apply (@fc_processes_owned RefAead.ref_aead demo_cfg "/run" (demo_machine (fun _ => None) true) demo_two 1).
  - reflexivity.
  - apply demo_run.
  - apply (bool_decide_unpack _). vm_compute. exact I.
Defined.
