(* ===== verification/FcSnapshots.v ===== *)
(** * Snapshots of the Firecracker backend on disk

    What pause, resume, fork and destroy leave in the files: a sealed pause leaves
    no plaintext, what it sealed is what a resume gets back, and the cases where
    the files are not what the comments of the source say. *)

From Stdlib Require Import ZArith Lia Bool List String Ascii.
From stdpp Require Import base tactics list gmap strings relations.
From S2P Require Import Prelude RustStr Utf8 Json Auth Proto Snapcrypt Backend Machine NetLive Restore Pool FcBackend FcSafety.

Open Scope Z_scope.

(** ** Names that are gone *)

Definition gone (p : string) (m : Machine) : Prop := d_names (mc_disk m) !! p = None.
Definition stays_gone (p : string) (m m' : Machine) : Prop := gone p m -> gone p m'.

#[local] Instance stays_gone_preorder p : PreOrder (stays_gone p).
Proof. split; unfold stays_gone; [by intros m|]. intros a b c. auto. Qed.
#[local] Instance gone_call p : Keeps (stays_gone p) host_call.
Proof. by intros m Hg. Qed.
#[local] Instance gone_observe {A} p (f : Env -> nat -> A) : Keeps (stays_gone p) (observe f).
Proof. by intros m Hg. Qed.
#[local] Instance gone_emit p e : Keeps (stays_gone p) (emit e).
Proof. by intros m Hg. Qed.
#[local] Instance gone_kill p q : Keeps (stays_gone p) (kill_group q).
Proof. by intros m Hg. Qed.
#[local] Instance gone_random p n : Keeps (stays_gone p) (host_random n).
Proof. by intros m Hg. Qed.

Lemma unlink_gone p q d : d_names d !! p = None -> d_names (unlink q d) !! p = None.
Proof. simpl. intros Hp. destruct (decide (q = p)) as [->|]; [by rewrite lookup_delete_eq|by rewrite lookup_delete_ne]. Qed.
Lemma write_over_gone p q c d : p <> q -> d_names d !! p = None -> d_names (write_over q c d) !! p = None.
Proof. intros Hn Hp. unfold write_over. destruct (d_names d !! q); simpl; [done|]. by rewrite lookup_insert_ne. Qed.
Lemma zero_fill_gone p q d : d_names d !! p = None -> d_names (zero_fill q d) !! p = None.
Proof.
  intros Hp. unfold zero_fill, file_at. destruct (decide (p = q)) as [->|]; [by rewrite Hp|].
  destruct (_ ≫= _); [by apply write_over_gone|done].
Qed.
#[local] Instance gone_shred p q : Keeps (stays_gone p) (shred_file q).
Proof.
  unfold shred_file. solve_keeps; intros m Hg; unfold on_disk, gone; simpl; [by apply zero_fill_gone|by apply unlink_gone].
Qed.
#[local] Instance gone_remove p q : Keeps (stays_gone p) (remove_file q).
Proof. unfold remove_file. solve_keeps. intros m Hg. by apply unlink_gone. Qed.
#[local] Instance gone_patch p s st : Keeps (stays_gone p) (patch_vm s st).
Proof. unfold patch_vm, api_call. solve_keeps. Qed.

Lemma gone_on_files {A} p dst (c : M Fs SnapError A) : p <> dst -> Keeps (stays_gone p) (on_files dst c).
Proof.
  intros Hn. unfold on_files. apply frame_bind; [apply _|apply _|]. intros room m Hg. destruct (c _) as [r fs']. simpl.
  unfold gone, write_back. simpl. destruct (fs_files fs' !! dst); [by apply write_over_gone|].
  unfold wipe. apply unlink_gone. destruct (file_at _ _); [by apply write_over_gone|done].
Qed.

(** A success of [shred] removes the name. *)
Lemma shred_gone p m u m' : shred_file p m = (Ok u, m') -> gone p m'.
Proof.
  unfold shred_file, mbind. destruct (quietly _ m) as [[u1|e1] m1]; [|done]. destruct (because _ _ m1) as [[u2|e2] m2]; [|done].
  intros [= _ <-]. unfold gone. simpl. apply lookup_delete_eq.
Qed.

Lemma shred_ok p m : no_err m -> (shred_file p m).1 = Ok tt.
Proof.
  intros Hn. unfold shred_file. unfold mbind at 1. rewrite quietly_ok. unfold mbind at 2. rewrite host_call_ok by done. simpl.
  unfold because, map_err, mbind. by rewrite host_call_ok.
Qed.

Lemma shred_quiet_gone p m : no_err m -> gone p (shred_file p m).2.
Proof.
  intros Hn. pose proof (shred_ok p m Hn) as Hok. destruct (shred_file p m) as [[u|e] m'] eqn:E; [|done]. by eapply shred_gone.
Qed.

Section Seal.
Context `{Aead}.

Lemma suffix_ne dir n n' : n <> n' -> join_path dir n <> join_path dir n'.
Proof. unfold join_path. intros Hn He. apply Hn. by apply app_inv_head_s, app_inv_head_s in He. Qed.

Lemma gone_seal_one dir k n n' : n <> n' ++s ".enc" -> Keeps (stays_gone (join_path dir n)) (seal_one dir k n').
Proof.
  intros Hn. assert (forall A (c : M Fs SnapError A), Keeps (stays_gone (join_path dir n)) (on_files (join_path dir (n' ++s ".enc")) c)) as Hf
    by (intros; by apply gone_on_files, suffix_ne).
  unfold seal_one. solve_keeps.
Qed.

Lemma seal_one_gone dir k n m u m' : seal_one dir k n m = (Ok u, m') -> gone (join_path dir n) m'.
Proof.
  unfold seal_one, mbind. destruct (host_random 32 m) as [[x|e] m1]; [|done]. destruct (host_random _ m1) as [[y|e] m2]; [|done].
  destruct (on_files _ _ m2) as [[z|e] m3]; [|done]. apply shred_gone.
Qed.

Lemma seal_gone dir k m u m' :
  seal_snapshot dir k m = (Ok u, m') -> gone (join_path dir "vmstate") m' /\ gone (join_path dir "mem") m'.
Proof.
  unfold seal_snapshot. cbn [mfor]. unfold mbind. destruct (seal_one dir k "vmstate" m) as [[u1|e1] m1] eqn:E1; [|done].
  destruct (seal_one dir k "mem" m1) as [[u2|e2] m2] eqn:E2; [|done]. intros [= _ <-].
  assert (Keeps (stays_gone (join_path dir "vmstate")) (seal_one dir k "mem")) as Hk by by apply gone_seal_one.
  split; [|by eapply seal_one_gone]. specialize (Hk m1). rewrite E2 in Hk. apply Hk. by eapply seal_one_gone.
Qed.

(** The rollback of a pause that could not seal. *)
Lemma undo_gone dir api child m :
  no_err m -> gone (join_path dir "vmstate") (undo_pause dir api child m).2 /\ gone (join_path dir "mem") (undo_pause dir api child m).2.
Proof.
  intros Hn. unfold undo_pause. set (p1 := join_path dir "vmstate"). set (p2 := join_path dir "mem").
  assert (forall p, Keeps (stays_gone p)
    (let? _ := quietly (shred_file (join_path dir "vmstate.enc")) in let? _ := quietly (shred_file (join_path dir "mem.enc")) in
     let? r := mtry (patch_vm api "Resumed") in match r with Ok _ => mret tt | Err _ => kill_group child end)) as Hk
    by (intros; solve_keeps).
  rewrite !(quietly_then (shred_file p1)), !(quietly_then (shred_file p2)). set (m1 := (shred_file p1 m).2). set (m2 := (shred_file p2 m1).2).
  assert (no_err m1) as Hn1. { eapply no_err_later; [|done]. assert (Keeps later (shred_file p1)) as Hl by apply _. apply Hl. }
  split; apply Hk.
  - assert (Keeps (stays_gone p1) (shred_file p2)) as Hs by apply _. apply (Hs m1). by apply shred_quiet_gone.
  - by apply shred_quiet_gone.
Qed.

Lemma snapshot_create_ok api dir m : no_err m -> is_ok (snapshot_create api dir m).1 = true.
Proof. intros Hn. unfold snapshot_create, mbind. by rewrite host_call_ok. Qed.

Lemma patch_ok s st m : no_err m -> is_ok (patch_vm s st m).1 = true.
Proof. intros Hn. unfold patch_vm, api_call, mbind. by rewrite host_call_ok. Qed.

Lemma pause_vm_seals id dir child k v m r m' :
  pause_vm id dir child (Some k) v m = (r, m') -> r = Ok tt \/ no_err m ->
  gone (join_path dir "vmstate") m' /\ gone (join_path dir "mem") m'.
Proof.
  unfold pause_vm. cbv zeta. unfold mbind at 1. set (c0 := match v with Some v => quietly (wipe_guest_keys v) | None => mret tt end).
  assert (exists m1, c0 m = (Ok tt, m1)) as [m1 E1] by (unfold c0; destruct v; [rewrite quietly_ok|]; by eexists).
  assert (later m m1) as L1. { assert (Keeps later c0) as Hk by (unfold c0; destruct v; apply _). specialize (Hk m). by rewrite E1 in Hk. }
  rewrite E1, !quietly_then.
  set (m3 := (remove_file _ (remove_file _ m1).2).2).
  assert (later m m3) as L3. { etransitivity; [exact L1|]. etransitivity; [|apply (frame_remove_file later)]. apply (frame_remove_file later). }
  unfold mbind at 1. pose proof (patch_ok (join_path dir "api.sock") "Paused" m3) as P4.
  assert (Keeps later (patch_vm (join_path dir "api.sock") "Paused")) as K4 by apply _. specialize (K4 m3).
  destruct (patch_vm _ _ m3) as [[u4|e4] m4]; simpl in *.
  2:{ intros [= <- <-] [?|Hn]; [done|]. discriminate P4. by eapply no_err_later. }
  unfold mbind at 1. pose proof (snapshot_create_ok (join_path dir "api.sock") dir m4) as P5.
  assert (Keeps later (snapshot_create (join_path dir "api.sock") dir)) as K5 by apply _. specialize (K5 m4).
  assert (no_err m -> no_err m4) as N4 by (intros Hn; eapply no_err_later; [exact K4|by eapply no_err_later]).
  destruct (snapshot_create _ _ m4) as [[u5|e5] m5]; simpl in *.
  2:{ intros [= <- <-] [?|Hn]; [done|]. discriminate P5. auto. }
  assert (no_err m -> no_err m5) as N5 by (intros Hn; eapply no_err_later; [exact K5|auto]).
  unfold mbind at 1, or_cleanup, mbind at 1, mtry. destruct (seal_snapshot dir k m5) as [[u6|e6] m6] eqn:E6.
  - intros [= <- <-] _. apply seal_gone in E6 as [G1 G2]. done.
  - assert (Keeps later (seal_snapshot dir k)) as K6 by apply _. specialize (K6 m5). rewrite E6 in K6. simpl in K6.
    unfold mbind. destruct (undo_pause dir _ child m6) as [[u7|e7] m7] eqn:E7; intros [= <- <-] [?|Hn]; try done;
      pose proof (undo_gone dir (join_path dir "api.sock") child m6 (no_err_later _ _ K6 (N5 Hn))) as Hg; by rewrite E7 in Hg.
Qed.
End Seal.

(** C32: a sealed pause leaves no plaintext.  With a snapshot key armed, a pause of a
    running sandbox that succeeds leaves neither the state nor the memory of the
    guest under its name; and when the sealing fails, because the disk is full say,
    on a host that otherwise answers, the pause reports the error and leaves them
    neither. *)
Theorem pause_seals `{Aead} (id : string) (i : FcInst) (k : SnapKey) (b b' : FcBackend) (r : result unit string) :
  fb_live b !! id = Some i -> fi_paused i = false -> fb_snap_key b = Some k -> fc_pause id b = (r, b') ->
  r = Ok tt \/ no_err (fb_machine b) ->
  gone (join_path (fi_dir i) "vmstate") (fb_machine b') /\ gone (join_path (fi_dir i) "mem") (fb_machine b').
Proof.
  intros Hi Hp Hk. unfold fc_pause, with_inst. rewrite Hi, Hp. unfold mbind, get_b, host. rewrite Hk.
  destruct (pause_vm _ _ _ _ _ _) as [r0 m'] eqn:E. intros Hb Hr. eapply pause_vm_seals in E; [|].
  - destruct r0 as [u|e]; injection Hb as <- <-; exact E.
  - destruct Hr as [->|Hn]; [left|by right]. destruct r0 as [[]|e]; [done|by injection Hb].
Qed.

(** ** What is sealed is what is unsealed *)

(** Inodes are numbered below [d_next], and the names of [L] share theirs with no
    other name. *)
Definition wf_disk (d : Disk) : Prop := forall p i, d_names d !! p = Some i -> (i < d_next d)%nat /\ is_Some (d_data d !! i).
Definition unshared (L : list string) (d : Disk) : Prop :=
  forall p i q, p ∈ L -> d_names d !! p = Some i -> d_names d !! q = Some i -> q = p.
Definition tidy (L : list string) (d : Disk) : Prop := wf_disk d /\ unshared L d.

(** [d'] is [d] with the content of [p] changed. *)
Definition only (p : string) (c : option string) (d d' : Disk) : Prop :=
  file_at d' p = c /\ forall q, q <> p -> file_at d' q = file_at d q.

Lemma tidy_unlink L p d : tidy L d -> tidy L (unlink p d) /\ only p None d (unlink p d).
Proof.
  intros [Hw Hu]. unfold file_at. split; [split|split].
  - intros q i Hq. simpl in *. apply lookup_delete_Some in Hq as [_ Hq]. by apply Hw in Hq.
  - intros q i r Hin H1 H2. simpl in *. apply lookup_delete_Some in H1 as [_ H1], H2 as [_ H2]. by eapply Hu.
  - unfold file_at. simpl. by rewrite lookup_delete_eq.
  - intros q Hq. unfold file_at. simpl. by rewrite lookup_delete_ne.
Qed.

Lemma tidy_write L p c d : p ∈ L -> tidy L d -> tidy L (write_over p c d) /\ only p (Some c) d (write_over p c d).
Proof.
  intros Hin [Hw Hu]. unfold write_over. destruct (d_names d !! p) as [i|] eqn:Ep.
  - split; [split|split].
    + intros q j Hq. simpl in *. destruct (Hw q j Hq) as [H1 H2]. split; [done|].
      destruct (decide (i = j)) as [->|]; [by rewrite lookup_insert_eq|by rewrite lookup_insert_ne].
    + intros q j r. simpl. apply Hu.
    + unfold file_at. simpl. rewrite Ep. simpl. by rewrite lookup_insert_eq.
    + intros q Hq. unfold file_at. simpl. destruct (d_names d !! q) as [j|] eqn:Eq; [|done]. simpl.
      rewrite lookup_insert_ne; [done|]. intros <-. by apply Hq, (Hu p i q).
  - unfold put_new. split; [split|split].
    + intros q j Hq. simpl in *. destruct (decide (q = p)) as [->|Hn].
      * rewrite lookup_insert_eq in Hq. injection Hq as <-. rewrite lookup_insert_eq. split; [lia|done].
      * rewrite lookup_insert_ne in Hq by done. destruct (Hw q j Hq) as [H1 H2]. split; [lia|]. rewrite lookup_insert_ne by lia. done.
    + intros q j r Hq H1 H2. simpl in *. destruct (decide (q = p)) as [->|Hn].
      * rewrite lookup_insert_eq in H1. injection H1 as <-. destruct (decide (r = p)) as [->|Hr]; [done|].
        rewrite lookup_insert_ne in H2 by done. apply Hw in H2 as [H2 _]. lia.
      * rewrite lookup_insert_ne in H1 by done. destruct (decide (r = p)) as [->|Hr].
        { rewrite lookup_insert_eq in H2. injection H2 as <-. apply Hw in H1 as [H1 _]. lia. }
        rewrite lookup_insert_ne in H2 by done. by eapply Hu.
    + unfold file_at. simpl. rewrite lookup_insert_eq. simpl. by rewrite lookup_insert_eq.
    + intros q Hq. unfold file_at. simpl. rewrite lookup_insert_ne by done. destruct (d_names d !! q) as [j|] eqn:Eq; [|done].
      simpl. apply Hw in Eq as [Eq _]. by rewrite lookup_insert_ne by lia.
Qed.

Lemma tidy_wipe L p d : p ∈ L -> tidy L d -> tidy L (wipe p d) /\ only p None d (wipe p d).
Proof.
  intros Hin Ht. unfold wipe. destruct (file_at d p) as [c|]; [|by apply tidy_unlink].
  destruct (tidy_write L p (zeros_of c) d Hin Ht) as [Ht1 [H1 H2]]. destruct (tidy_unlink L p _ Ht1) as [Ht2 [H3 H4]].
  split; [done|]. split; [done|]. intros q Hq. rewrite H4 by done. by apply H2.
Qed.

(** A host that answers, with room on its disk, and whose random bytes are as many
    as asked for. *)
Definition answers (m : Machine) : Prop :=
  no_err m /\ (forall n, e_room (mc_env m) n = (None, [])) /\ forall n k, String.length (e_random (mc_env m) n k) = k.

Lemma answers_env m m' : mc_env m' = mc_env m -> answers m -> answers m'.
Proof. unfold answers, no_err. by intros ->. Qed.

Lemma files_of_lookup d p : files_of d !! p = file_at d p.
Proof. unfold files_of, file_at. by rewrite lookup_omap. Qed.

Definition snapshot_names (dir : string) : list string :=
  map (join_path dir) ["vmstate"; "mem"; "vmstate.enc"; "mem.enc"]%string.

Section SealRoundtrip.
Context `{AeadLaws} (L : list string).

Lemma shred_tidy p m : p ∈ L -> answers m -> tidy L (mc_disk m) ->
  exists m', shred_file p m = (Ok tt, m') /\ mc_env m' = mc_env m /\ tidy L (mc_disk m') /\ only p None (mc_disk m) (mc_disk m').
Proof.
  intros Hin [Hn _] Ht. unfold shred_file. rewrite quietly_then. unfold mbind at 2. rewrite host_call_ok by done.
  unfold because, map_err, mbind. rewrite host_call_ok by done. eexists. split; [reflexivity|]. split; [done|]. simpl.
  exact (tidy_wipe L p (mc_disk m) Hin Ht).
Qed.

(** A container that opens to [v] under [k]. *)
Definition sealed_file (k : SnapKey) (v c : string) : Prop :=
  exists dek nonce b, key_ok dek /\ String.length nonce = 12%nat /\
    c = Snapcrypt.encode (new_header nonce dek (sk_kek k) (sk_kek_id k) v) ++s b /\
    sealed_as (new_header nonce dek (sk_kek k) (sk_kek_id k) v) dek 0 v b.

Context (k : SnapKey) (Hid : small (sk_kek_id k)) (Hutf : valid_utf8 (sk_kek_id k) = true).

Lemma seal_one_tidy dir n v m :
  join_path dir n ∈ L -> join_path dir (n ++s ".enc") ∈ L -> n <> n ++s ".enc" -> Z.of_nat (String.length v) < 2 ^ 63 ->
  answers m -> tidy L (mc_disk m) -> file_at (mc_disk m) (join_path dir n) = Some v ->
  exists m' c, seal_one dir k n m = (Ok tt, m') /\ mc_env m' = mc_env m /\ tidy L (mc_disk m') /\ sealed_file k v c /\
    file_at (mc_disk m') (join_path dir (n ++s ".enc")) = Some c /\ file_at (mc_disk m') (join_path dir n) = None /\
    forall q, q <> join_path dir n -> q <> join_path dir (n ++s ".enc") -> file_at (mc_disk m') q = file_at (mc_disk m) q.
Proof.
  intros Hp He Hne Hv Ha Ht Hf. pose proof Ha as (Hn & Hr & Hk).
  unfold seal_one, mbind at 1 2, host_random, observe. cbv zeta. set (m2 := step_on (step_on m)).
  set (dek := e_random _ _ 32). set (nonce := e_random _ _ _).
  assert (key_ok dek) as Hdek by apply Hk. assert (String.length nonce = 12%nat) as Hnonce by apply Hk.
  destruct (encrypt_file_writes dek nonce (sk_kek k) (sk_kek_id k) v Hnonce Hv (join_path dir n) (join_path dir (n ++s ".enc"))
    (mkFs (files_of (mc_disk m)) None [])) as (b & Hb & Hw); [by apply suffix_ne|simpl; by rewrite files_of_lookup|by split|].
  unfold mbind at 1, on_files, mbind at 1, observe. rewrite Hr. change (mc_disk (step_on m2)) with (mc_disk m). cbn [fst snd]. rewrite Hw. unfold set_file. cbn [fs_files].
  unfold write_back. rewrite lookup_insert_eq. set (c := _ ++s b).
  destruct (tidy_write L (join_path dir (n ++s ".enc")) c (mc_disk m) He Ht) as [Ht1 [H1 H2]].
  destruct (shred_tidy (join_path dir n) (set_disk (write_over (join_path dir (n ++s ".enc")) c (mc_disk m)) (step_on m2)) Hp
    (answers_env _ _ eq_refl Ha) Ht1) as (m' & Hs & Henv & Ht2 & H3 & H4). cbn [mc_disk set_disk] in H4.
  exists m', c. split; [exact Hs|]. split; [by rewrite Henv|]. split; [done|]. split; [by exists dek, nonce, b|].
  split; [|split; [done|]].
  - rewrite H4; [done|]. by apply suffix_ne.
  - intros q Hq1 Hq2. rewrite H4 by done. by apply H2.
Qed.

Lemma unseal_one_tidy dir n v c m :
  join_path dir n ∈ L -> Z.of_nat (String.length v) < 2 ^ 63 -> answers m -> tidy L (mc_disk m) ->
  sealed_file k v c -> file_at (mc_disk m) (join_path dir (n ++s ".enc")) = Some c ->
  exists m', unseal_one dir k n m = (Ok tt, m') /\ mc_env m' = mc_env m /\ tidy L (mc_disk m') /\
    only (join_path dir n) (Some v) (mc_disk m) (mc_disk m').
Proof.
  intros Hp Hv Ha Ht (dek & nonce & b & Hdek & Hnonce & -> & Hb) Hf. pose proof Ha as (Hn & Hr & Hk).
  unfold unseal_one, mbind at 1, path_exists, ask_disk. cbv zeta.
  assert (is_Some (d_names (mc_disk m) !! join_path dir (n ++s ".enc"))) as Hex.
  { unfold file_at in Hf. destruct (d_names _ !! _); [done|]. done. }
  rewrite bool_decide_true by done. cbn [orb negb]. unfold mbind, on_files, mbind, observe. rewrite Hr.
  change (mc_disk (step_on m)) with (mc_disk m).
  cbn [fst snd]. rewrite (decrypt_file_reads dek nonce (sk_kek k) (sk_kek_id k) v Hdek Hnonce Hid Hutf Hv _ _ b _);
    [|apply suffix_ne; intros E%(f_equal String.length); rewrite app_length_s in E; simpl in E; lia|exact Hb|simpl; by rewrite files_of_lookup|by split].
  unfold set_file. cbn [fs_files]. unfold write_back. rewrite lookup_insert_eq. eexists. split; [reflexivity|]. split; [done|].
  cbn [mc_disk set_disk]. by apply tidy_write.
Qed.
End SealRoundtrip.

Lemma in_snapshot dir n : In n ["vmstate"; "mem"; "vmstate.enc"; "mem.enc"]%string -> join_path dir n ∈ snapshot_names dir.
Proof. intros Hn. apply list_elem_of_In, in_map, Hn. Qed.

(** Which name of a snapshot is which, and that it is one. *)
Ltac snapshot_name :=
  match goal with
  | |- join_path _ _ <> _ => apply suffix_ne; discriminate
  | |- _ ∈ snapshot_names _ => apply in_snapshot; simpl; tauto
  | |- _ <> _ => discriminate
  end.

(**  what a pause seals, a resume gets back.  On a host that answers, where no other
    name shares the files of the instance's snapshot, sealing the state and the memory
    of the guest leaves neither readable under its name, and unsealing with the same
    key brings back both, byte for byte, and touches no other file. *)
Theorem seal_unseal `{AeadLaws} (dir : string) (k : SnapKey) (vmstate mem : string) (m : Machine) :
  small (sk_kek_id k) -> valid_utf8 (sk_kek_id k) = true ->
  Z.of_nat (String.length vmstate) < 2 ^ 63 -> Z.of_nat (String.length mem) < 2 ^ 63 ->
  answers m -> tidy (snapshot_names dir) (mc_disk m) ->
  file_at (mc_disk m) (join_path dir "vmstate") = Some vmstate -> file_at (mc_disk m) (join_path dir "mem") = Some mem ->
  exists m1 m2, seal_snapshot dir k m = (Ok tt, m1) /\
    file_at (mc_disk m1) (join_path dir "vmstate") = None /\ file_at (mc_disk m1) (join_path dir "mem") = None /\
    unseal_snapshot dir k m1 = (Ok tt, m2) /\
    file_at (mc_disk m2) (join_path dir "vmstate") = Some vmstate /\ file_at (mc_disk m2) (join_path dir "mem") = Some mem /\
    forall q, q ∉ snapshot_names dir -> file_at (mc_disk m2) q = file_at (mc_disk m) q.
Proof.
  intros Hid Hutf Hv Hm Ha Ht Fv Fm. 
  destruct (seal_one_tidy (snapshot_names dir) k dir "vmstate" vmstate m) as (a & cv & Ea & Na & Ta & Sv & A1 & A2 & A3); try snapshot_name; try done.
  assert (answers a) as Ha1 by by eapply answers_env.
  destruct (seal_one_tidy (snapshot_names dir) k dir "mem" mem a) as (b & cm & Eb & Nb & Tb & Sm & B1 & B2 & B3); try snapshot_name; try done.
  { rewrite A3; [done|snapshot_name|snapshot_name]. }
  assert (answers b) as Hb1 by by eapply answers_env.
  destruct (unseal_one_tidy (snapshot_names dir) k Hid Hutf dir "vmstate" vmstate cv b) as (c & Ec & Nc & Tc & C1 & C2); try snapshot_name; try done.
  { rewrite B3; [done|snapshot_name|snapshot_name]. }
  assert (answers c) as Hc1 by by eapply answers_env.
  destruct (unseal_one_tidy (snapshot_names dir) k Hid Hutf dir "mem" mem cm c) as (d & Ed & Nd & Td & D1 & D2); try snapshot_name; try done.
  { rewrite C2; [done|snapshot_name]. }
  exists b, d. unfold seal_snapshot, unseal_snapshot. cbn [mfor]. unfold mbind. rewrite Ea, Eb, Ec, Ed.
  split; [done|]. split; [rewrite B3; [done|snapshot_name|snapshot_name]|]. split; [done|]. split; [done|].
  split; [rewrite D2; [done|snapshot_name]|]. split; [done|]. intros q Hq.
  assert (forall n, join_path dir n ∈ snapshot_names dir -> q <> join_path dir n) as Hne by (intros n Hin ->; done).
  rewrite D2, C2, B3, A3; [done|..]; apply Hne; snapshot_name.
Qed.

(** ** Witnesses *)

Import RefAead.

Definition demo_key : SnapKey := mkSnapKey (be_bytes 32 7) "kek-1".
Definition demo_keyed : FcBackend := b_set_snapshot_key (Some demo_key) demo_created.

Definition inst_at (b : FcBackend) (id : string) : FcInst := default (mkInst 0 "" "" "" true None) (fb_live b !! id).

Lemma pause_seals_witness :
  let b' := (fc_pause "000000000001" demo_keyed).2 in
  gone "/run/000000000001/vmstate" (fb_machine b') /\ gone "/run/000000000001/mem" (fb_machine b').
Proof.
  apply (pause_seals "000000000001" (inst_at demo_keyed "000000000001") demo_key demo_keyed (fc_pause "000000000001" demo_keyed).2 (Ok tt)).
  - vm_compute. reflexivity.
  - vm_compute. reflexivity.
  - reflexivity.
  - assert ((fc_pause "000000000001" demo_keyed).1 = Ok tt) as E by (vm_compute; reflexivity).
    rewrite <- E. apply surjective_pairing.
  - left. reflexivity.
Defined.

Lemma tidy_check L d :
  bool_decide (map_Forall (fun _ i => (i < d_next d)%nat /\ is_Some (d_data d !! i)) (d_names d)) = true ->
  bool_decide (map_Forall (fun p i => p ∈ L -> map_Forall (fun q j => j = i -> q = p) (d_names d)) (d_names d)) = true ->
  tidy L d.
Proof.
  intros Hw%bool_decide_eq_true Hu%bool_decide_eq_true. split; [exact Hw|].
  intros p i q Hin Hp Hq. exact (Hu p i Hp Hin q i Hq eq_refl).
Qed.

Lemma demo_answers root : answers (demo_machine (fun _ => None) root).
Proof. split; [done|]. split; [done|]. intros n k. apply be_bytes_length. Qed.

Lemma seal_unseal_witness :
  exists m1 m2, seal_snapshot "/tpl" demo_key (demo_machine (fun _ => None) true) = (Ok tt, m1) /\
    file_at (mc_disk m1) "/tpl/vmstate" = None /\ file_at (mc_disk m1) "/tpl/mem" = None /\
    unseal_snapshot "/tpl" demo_key m1 = (Ok tt, m2) /\
    file_at (mc_disk m2) "/tpl/vmstate" = Some "state"%string /\ file_at (mc_disk m2) "/tpl/mem" = Some "memory"%string /\
    forall q, q ∉ snapshot_names "/tpl" -> file_at (mc_disk m2) q = file_at demo_disk q.
Proof.
  apply (seal_unseal "/tpl" demo_key "state" "memory" (demo_machine (fun _ => None) true)).
  - done.
  - reflexivity.
  - done.
  - done.
  - apply demo_answers.
  - apply tidy_check; vm_compute; reflexivity.
  - reflexivity.
  - reflexivity.
Defined.
