(* ===== verification/FcFindings.v ===== *)
(** * Where the files and the network are not what the source says

    Runs of the Firecracker backend on concrete hosts, evaluated: the snapshot of a
    template zeroed by a destruction, the sealed snapshot of a parent overwritten by
    the pause of its fork, plaintext left by a resume that failed, and a network
    namespace left by a creation that failed. *)

From Stdlib Require Import ZArith Lia Bool List String Ascii.
From stdpp Require Import base tactics list gmap strings.
From S2P Require Import Prelude RustStr Utf8 Json Auth Proto Snapcrypt Backend Machine NetLive Restore Pool FcBackend FcSafety FcSnapshots.

Open Scope Z_scope.
Import RefAead.

Definition at_path (b : FcBackend) (p : string) : option string := file_at (mc_disk (fb_machine b)) p.

(** With a snapshot key armed, destroying a sandbox that was never paused zeroes the
    template: its [vmstate] and [mem] are hard links to the template's. *)
Lemma destroy_zeroes_template :
  at_path demo_keyed "/tpl/mem" = Some "memory"%string /\
  at_path (fc_destroy "000000000001" demo_keyed) "/tpl/mem" = Some (zeros_of "memory").
Proof. vm_compute. auto. Qed.

(** A host where each snapshot of a guest is another one. *)
Definition varied_env : Env :=
  let e := demo_env (fun _ => None) true in
  mkEnv (e_err e) (e_exited e) (e_reply e) (e_random e) (e_now e) (e_wall_ns e) (e_out e)
        (fun n => ("state"%string, "memory at " ++s dec (Z.of_nat n))) (e_room e) (e_canon e) (e_root e) (e_dns e).
Definition varied_machine : Machine :=
  let m := demo_machine (fun _ => None) true in
  mkMachine varied_env (mc_step m) (mc_slept m) (mc_disk m) (mc_procs m) (mc_pid m) (mc_net m) (mc_trace m).

Definition parent_paused : FcBackend :=
  (fc_pause "000000000001" (b_set_snapshot_key (Some demo_key) (fc_create "/tpl" default_spec (fc_new demo_cfg "/run" varied_machine)).2)).2.
Definition forked : FcBackend := (fc_fork "000000000001" parent_paused).2.
Definition fork_id : string := Eval vm_compute in id_of (fc_fork "000000000001" parent_paused).1.
Definition fork_paused : FcBackend := (fc_pause fork_id forked).2.

Definition resumed_memory (b : FcBackend) : option string :=
  at_path (fc_resume "000000000001" b).2 "/run/000000000001/mem".

(** The fork shares its parent's sealed files and its own pause writes through them:
    the parent, paused all along, resumes with the memory of the fork. *)
Lemma fork_overwrites_parent :
  is_Some (fb_live fork_paused !! fork_id) /\
  exists a b, resumed_memory parent_paused = Some a /\ resumed_memory fork_paused = Some b /\ a <> b.
Proof. split; [vm_compute; eauto|]. do 2 eexists. split; [vm_compute; reflexivity|]. split; [vm_compute; reflexivity|]. discriminate. Qed.

(** A host whose calls fail from the n-th on. *)
Definition failing_from (n : nat) (k : nat) : option string := if (n <=? k)%nat then Some "EIO"%string else None.

Definition sealed_pause (n : nat) : FcBackend :=
  (fc_pause "000000000001"
     (b_set_snapshot_key (Some demo_key)
        (fc_create "/tpl" default_spec (fc_new demo_cfg "/run" (demo_machine (failing_from n) true))).2)).2.

(** A resume that decrypts the snapshot and then fails to start the microVM leaves the
    memory of the guest in the clear, next to the sealed file. *)
Lemma failed_resume_leaves_plaintext :
  let b := sealed_pause 80 in
  at_path b "/run/000000000001/mem" = None /\
  is_ok (fc_resume "000000000001" b).1 = false /\
  at_path (fc_resume "000000000001" b).2 "/run/000000000001/mem" = Some "paused memory"%string.
Proof. vm_compute. auto. Qed.

Definition egress_spec : SandboxSpec := mkSpec 1 128 300 300 [] caps_empty None Egress.
Definition failing_at (n : nat) (k : nat) : option string := if (n =? k)%nat then Some "EIO"%string else None.
Definition egress (err : nat -> option string) : result BackendCreate string * FcBackend :=
  fc_create "/tpl" egress_spec (fc_new demo_cfg "/run" (demo_machine err true)).

(** A creation whose network fails half-way removes the directory and leaves the
    network namespace and the veth. *)
Lemma failed_egress_leaves_netns :
  is_ok (egress (failing_at 31)).1 = false /\ fb_live (egress (failing_at 31)).2 = ∅ /\
  elements (n_spaces (mc_net (fb_machine (egress (failing_at 31)).2))) <> [].
Proof. vm_compute. split; [done|]. split; [done|]. discriminate. Qed.

(** The route back to the guests is one for the host: the second sandbox with a
    network takes it from the first, whose replies no longer reach it. *)
Lemma second_egress_takes_route :
  let b1 := egress (fun _ => None) in
  let b2 := fc_create "/tpl" egress_spec b1.2 in
  is_ok b1.1 = true /\ is_ok b2.1 = true /\ size (fb_live b2.2) = 2%nat /\
  size (n_routes (mc_net (fb_machine b2.2))) = 1%nat /\
  n_routes (mc_net (fb_machine b1.2)) !! GUEST_CIDR <> n_routes (mc_net (fb_machine b2.2)) !! GUEST_CIDR.
Proof. vm_compute. split; [done|]. split; [done|]. split; [done|]. split; [done|]. discriminate. Qed.
