(* ===== verification/GvBackend.v ===== *)
(** * The gVisor backend (crates/sl-node/src/gvisorbackend.rs)

    Sandboxes as containers of runsc: a bundle directory with a private copy of the
    template's root file system, extracted once per template, and a patched OCI
    configuration.  The backend offers no capability, so pause, resume, fork and
    the pools are the trait's defaults.  SHA-256, serde_json's values, the tree
    debugfs extracts and the configuration runsc writes are parameters. *)

From Stdlib Require Import ZArith Lia Bool List String Ascii.
From stdpp Require Import base tactics list gmap strings relations.
From S2P Require Import Prelude RustStr Utf8 Json Auth Proto Snapcrypt Backend Text Machine Restore.

Open Scope Z_scope.

(** What the backend uses of other programs and crates. *)
Class OciTools : Type := {
  gv_sha256 : string -> string;
  (** the files debugfs rdump finds in an image, by path *)
  rdump_tree : string -> list (string * string);
  (** what runsc spec writes *)
  spec_text : string;
  (** serde_json: parsing, assignment below a path, the values and the printer *)
  JValue : Type;
  jv_parse : string -> option JValue;
  jv_set : JValue -> list string -> JValue -> JValue;
  jv_false : JValue;
  jv_strings : list string -> JValue;
  jv_pretty : JValue -> string
}.

Record GvBackend : Type := mkGv {
  gv_runsc_bin : string;
  gv_run_root : string;
  gv_rootfs_cache : string;
  gv_global_args : list string;
  gv_live : gmap string string;
  gv_machine : Machine
}.

Notation GM := (M GvBackend string).

Definition gv_set_live (l : gmap string string) (b : GvBackend) : GvBackend :=
  mkGv (gv_runsc_bin b) (gv_run_root b) (gv_rootfs_cache b) (gv_global_args b) l (gv_machine b).
Definition gv_host {A} (c : HM A) : GM A := fun b =>
  let '(r, m) := c (gv_machine b) in
  (r, mkGv (gv_runsc_bin b) (gv_run_root b) (gv_rootfs_cache b) (gv_global_args b) (gv_live b) m).
Definition gv_get {A} (f : GvBackend -> A) : GM A := fun b => (Ok (f b), b).

Definition gv_new (runsc_bin run_root : string) (m : Machine) : GvBackend :=
  mkGv runsc_bin run_root (join_path run_root ".gvisor-rootfs")
       ["--root"; join_path run_root ".gvisor-state"; "--rootless"; "--platform=systrap"; "--network=none"]%string ∅ m.

(** Runs a command to its end: its number, and its exit status when it is not zero. *)
Definition run_status (what tool : string) (args : list string) : HM (nat * option string) :=
  let? n := because what host_call in
  let? _ := emit (ETool tool args) in
  let? rc := observe (fun e _ => e_exited e n) in
  mret (n, rc).

Definition gv_probe (runsc_bin : string) : HM bool :=
  let? r := mtry (run_status "" runsc_bin ["--version"%string]) in
  mret (match r with Ok (_, None) => true | _ => false end).

(** The files of a tree, written below a directory. *)
Definition put_tree (dir : string) (fs : list (string * string)) (d : Disk) : Disk :=
  fold_left (fun d '(p, c) => write_over (join_path dir p) c d) fs d.

(** cp -a of a directory to a name that is not there. *)
Definition copy_tree (src dst : string) (d : Disk) : Disk :=
  let fs := omap (fun '(p, i) => c ← d_data d !! i; r ← strip_prefix (join_path src "") p; Some (r, c)) (map_to_list (d_names d)) in
  let d := put_tree dst fs d in
  mkDisk (d_names d) (d_data d) ({[dst]} ∪ d_dirs d) (d_next d).

Section Gvisor.
Context `{OciTools}.

Definition ensure_rootfs_cache (b : GvBackend) (template : string) : HM string :=
  let key := hex (str_take 8 (gv_sha256 template)) in
  let dst := join_path (gv_rootfs_cache b) key in
  let rootfs := join_path dst "rootfs" in
  let done := join_path dst ".done" in
  let busybox := join_path rootfs "bin/busybox" in
  let? d := path_exists done in
  let? bb := path_exists busybox in
  if d && bb then mret rootfs
  else
    let? _ := quietly (remove_dir_all dst) in
    let? _ := because "建 gVisor rootfs 缓存失败" (create_dir_all rootfs) in
    let ext4 := join_path template "rootfs.ext4" in
    let? n := because "debugfs 启动失败（装 e2fsprogs?）" host_call in
    let? _ := emit (ETool "debugfs" ["-R"; "rdump / " ++s rootfs; ext4]%string) in
    let? img := ask_disk (fun d => file_at d ext4) in
    let? _ := on_disk (put_tree rootfs (match img with Some c => rdump_tree c | None => [] end)) in
    let? bb := path_exists busybox in
    if negb bb then
      let? err := observe (fun e _ => e_out e n) in
      mfail ("debugfs 抽取 rootfs 失败: " ++s trim (from_utf8_lossy err))
    else
      let? _ := quietly (let? _ := host_call in on_disk (write_over done "ok")) in
      mret rootfs.

Definition patch_config (cfg : JValue) : JValue :=
  jv_set (jv_set cfg ["process"; "terminal"]%string jv_false) ["process"; "args"]%string
         (jv_strings ["/bin/sh"; "-c"; "sleep 2147483647"]%string).

Definition prepare_bundle (b : GvBackend) (id cache_rootfs : string) : HM string :=
  let bundle := join_path (gv_run_root b) id in
  let? _ := quietly (remove_dir_all bundle) in
  let? _ := because "建 gVisor bundle 失败" (create_dir_all bundle) in
  let dst_rootfs := join_path bundle "rootfs" in
  let? cp := run_status "拷贝 gVisor rootfs 失败" "cp" ["-a"; "--reflink=auto"; cache_rootfs; dst_rootfs]%string in
  match cp with
  | (_, Some _) => mfail "拷贝 gVisor rootfs 非零退出"
  | (_, None) =>
      let? _ := on_disk (copy_tree cache_rootfs dst_rootfs) in
      let? sp := run_status "runsc spec 启动失败" (gv_runsc_bin b) ["spec"; "--bundle"; bundle]%string in
      match sp with
      | (_, Some _) => mfail "runsc spec 生成 config.json 失败"
      | (_, None) =>
          let cfg_path := join_path bundle "config.json" in
          let? _ := on_disk (write_over cfg_path spec_text) in
          let? raw := because "读 config.json 失败" (read_file cfg_path) in
          match jv_parse raw with
          | None => mfail "解析 config.json 失败"
          | Some cfg =>
              let? _ := because "写 config.json 失败" host_call in
              let? _ := on_disk (write_over cfg_path (jv_pretty (patch_config cfg))) in
              mret bundle
          end
      end
  end.

Definition destroy_by_bundle (b : GvBackend) (id bundle : string) : HM unit :=
  let? _ := quietly (run_status "" (gv_runsc_bin b) (gv_global_args b ++ ["kill"; id; "KILL"]%string)) in
  let? _ := quietly (run_status "" (gv_runsc_bin b) (gv_global_args b ++ ["delete"; "--force"; id]%string)) in
  quietly (remove_dir_all bundle).

(** The last line of a file's text; none of a file that cannot be read. *)
Definition last_line (p : string) : HM string :=
  let? r := mtry (read_to_string p) in
  mret (match r with Ok c => default ""%string (last (lines c)) | Err _ => ""%string end).

(** runsc run --detach: the container's output goes to the log. *)
Definition gv_run (b : GvBackend) (id bundle : string) : HM Z :=
  let log := join_path bundle "init.log" in
  let? _ := because "建 gVisor init.log 失败" (create_file log) in
  let? run_at := instant in
  let? _ := host_call in
  let? st := run_status "runsc run 启动失败" (gv_runsc_bin b) (gv_global_args b ++ ["run"; "--detach"; "--bundle"; bundle; id]%string) in
  let '(n, rc) := st in
  let? out := observe (fun e _ => e_out e n) in
  let? _ := on_disk (write_over log out) in
  match rc with
  | Some code =>
      let? _ := destroy_by_bundle b id bundle in
      let? tail := last_line log in
      mfail ("runsc run --detach 失败（rc=" ++s code ++s "）: " ++s tail)
  | None => elapsed_ms run_at
  end.

(** The host's part of [create]. *)
Definition gv_container (b : GvBackend) (template : string) : HM (string * string * string * Z * Z) :=
  let? isdir := is_directory template in
  if negb isdir then mfail ("模板目录不存在: " ++s template)
  else
    let? template := abspath template in
    let? t0 := instant in
    let? cache_rootfs := ensure_rootfs_cache b template in
    let? idb := host_random 6 in
    let id := hex idb in
    let? bundle := prepare_bundle b id cache_rootfs in
    let? copy_ms := elapsed_ms t0 in
    let? resume_ms := gv_run b id bundle in
    let? mid := host_random 16 in
    mret (id, bundle, hex mid, copy_ms, resume_ms).

Definition gv_create (template : string) (spec : SandboxSpec) : GM BackendCreate :=
  let? b := gv_get (fun b => b) in
  let? r := gv_host (gv_container b template) in
  let '(id, bundle, machine_id, copy_ms, resume_ms) := r in
  let? _ := fun b => (Ok tt, gv_set_live (<[id := bundle]> (gv_live b)) b) in
  mret (mkBc id machine_id "" "" (Z.min (2 ^ 128 - 1) (copy_ms + resume_ms)) copy_ms 0 0 resume_ms false false).

Definition gv_destroy (id : string) (b : GvBackend) : GvBackend :=
  match gv_live b !! id with
  | None => b
  | Some bundle => gv_set_live (delete id (gv_live b)) (gv_host (destroy_by_bundle b id bundle) b).2
  end.

Definition gv_exec_target (b : GvBackend) (id : string) : option ExecTarget :=
  (fun _ => Runsc (gv_runsc_bin b) (gv_global_args b) id) <$> gv_live b !! id.
Definition gv_instance_dir (b : GvBackend) (id : string) : option string := gv_live b !! id.
Definition gv_log_path (b : GvBackend) (id : string) : option string := (fun p => join_path p "init.log") <$> gv_live b !! id.

Definition gv_id (b : GvBackend) : string := "gvisor".

#[export] Instance gv_backend : SandboxBackend GvBackend := {|
  b_id := gv_id;
  b_capabilities := fun _ => caps_empty;
  b_create := gv_create;
  b_destroy := gv_destroy;
  b_exec_target := gv_exec_target;
  b_instance_dir := gv_instance_dir;
  b_log_path := gv_log_path;
  b_enable_warm_pool := default_enable_warm_pool gv_id;
  b_enable_hot_pool := default_enable_hot_pool gv_id;
  b_pool_wait_ready := default_wait_ready;
  b_hot_wait_ready := default_wait_ready;
  b_pool_stats := default_pool_stats;
  b_set_snapshot_key := default_set_snapshot_key;
  b_pause := default_pause gv_id;
  b_resume := default_resume gv_id;
  b_fork := default_fork gv_id
|}.
End Gvisor.

(** ** The interface of the orchestrator *)

Section GvLaws.
Context `{OciTools}.

Definition same_config (b b' : GvBackend) : Prop :=
  gv_runsc_bin b' = gv_runsc_bin b /\ gv_global_args b' = gv_global_args b.

Lemma create_shape t spec b : let '(r, b') := gv_create t spec b in
  same_config b b' /\ gv_machine b' = (gv_container b t (gv_machine b)).2 /\
  match r with
  | Ok bc => exists bundle, gv_live b' = <[bc_id bc := bundle]> (gv_live b) /\
      exists mid c1 c2, (gv_container b t (gv_machine b)).1 = Ok (bc_id bc, bundle, mid, c1, c2)
  | Err e => gv_live b' = gv_live b /\ (gv_container b t (gv_machine b)).1 = Err e
  end.
Proof.
  unfold gv_create, mbind, gv_get, gv_host. destruct (gv_container b t (gv_machine b)) as [[[[[[id bundle] mid] c1] c2]|e] m']; simpl; [|done].
  split; [done|]. split; [done|]. exists bundle. split; [done|]. by exists mid, c1, c2.
Qed.

Lemma destroy_live id b : gv_live (gv_destroy id b) = delete id (gv_live b).
Proof.
  unfold gv_destroy. destruct (gv_live b !! id) as [p|] eqn:E; [|by rewrite delete_id].
  unfold gv_host. by destruct (destroy_by_bundle b id p (gv_machine b)).
Qed.

#[export] Instance gv_backend_laws : BackendLaws GvBackend.
Proof.
  refine {| instances := fun b => dom (gv_live b) |}; simpl.
  - intros t spec b. pose proof (create_shape t spec b) as Hc. destruct (gv_create t spec b) as [[bc|e] b'];
      destruct Hc as (_ & _ & Hl); (split; [done|]); [destruct Hl as (bundle & -> & _); by rewrite dom_insert_L|by destruct Hl as [-> _]].
  - done.
  - intros id b. split; [done|]. by rewrite destroy_live, dom_delete_L.
  - done.
  - done.
  - done.
  - intros id b Hs. apply elem_of_dom. unfold gv_exec_target, gv_instance_dir, gv_log_path in Hs.
    destruct (gv_live b !! id); [done|]. simpl in Hs. destruct Hs as [Hs|[Hs|Hs]]; by destruct Hs.
Defined.

(** ** Containers *)

(** The arguments of a run or of a removal by this backend, after the global ones. *)
Definition run_of (bin : string) (g : list string) (e : HostEvent) (id : string) : Prop :=
  exists bundle, e = ETool bin (g ++ ["run"; "--detach"; "--bundle"; bundle; id]%string).
Definition removal_of (bin : string) (g : list string) (e : HostEvent) (id : string) : Prop :=
  e = ETool bin (g ++ ["delete"; "--force"; id]%string).

(** The container was started and its removal was not asked for since. *)
Definition running (bin : string) (g : list string) (tr : list HostEvent) (id : string) : Prop :=
  exists l e l', tr = l ++ e :: l' /\ run_of bin g e id /\ Forall (fun x => ~ removal_of bin g x id) l'.

Lemma running_snoc bin g tr e id : running bin g (tr ++ [e]) id ->
  run_of bin g e id \/ (running bin g tr id /\ ~ removal_of bin g e id).
Proof.
  intros (l & x & l' & E & Hr & Hf). destruct l' as [|y l' _] using rev_ind.
  - apply app_inj_tail in E as [_ ->]. by left.
  - rewrite app_comm_cons, app_assoc in E. apply app_inj_tail in E as [-> ->]. apply Forall_app in Hf as [Hf He].
    right. apply Forall_cons in He as [He _]. split; [|done]. by exists l, x, l'.
Qed.

(** No container was started that was not there. *)
Definition calm (bin : string) (g : list string) (m m' : Machine) : Prop :=
  forall id, running bin g (mc_trace m') id -> running bin g (mc_trace m) id.

#[export] Instance calm_stable bin g : Stable (calm bin g).
Proof.
  split; [|intros m; unfold calm; simpl; done..]. split; [by intros m id|]. intros a b c H1 H2 id Hr. by apply H1, H2.
Qed.

Lemma calm_event bin g t a : length a <> (length g + 5)%nat -> Silent (calm bin g) (ETool t a).
Proof.
  intros Hl m id Hr. apply running_snoc in Hr as [(b & [= _ ->])|[Hr _]]; [|done]. rewrite length_app in Hl. simpl in Hl. lia.
Qed.

Lemma status_later what t a : Keeps later (run_status what t a).
Proof. unfold run_status. solve_keeps. Qed.
Lemma status_calm bin g what t a : length a <> (length g + 5)%nat -> Keeps (calm bin g) (run_status what t a).
Proof. intros Hl. pose proof (calm_event bin g t a Hl) as Hs. unfold run_status. solve_keeps. Qed.

Lemma status_ok what t a m : no_err m ->
  run_status what t a m = (Ok (mc_step m, e_exited (mc_env m) (mc_step m)), step_on (log_event (ETool t a) (step_on m))).
Proof. intros Hn. unfold run_status, mbind, because, map_err. by rewrite host_call_ok. Qed.

(** [g ++ [c; d; e]] starts nothing. *)
Ltac not_a_run := rewrite ?length_app; simpl; lia.

Lemma cache_calm b t g : Keeps (calm (gv_runsc_bin b) g) (ensure_rootfs_cache b t).
Proof.
  assert (forall x y, Silent (calm (gv_runsc_bin b) g) (ETool "debugfs" ["-R"; x; y]%string)) by (intros; apply calm_event; not_a_run).
  unfold ensure_rootfs_cache. solve_keeps.
Qed.
Lemma bundle_calm b id c g : Keeps (calm (gv_runsc_bin b) g) (prepare_bundle b id c).
Proof.
  assert (forall w t a x d y, Keeps (calm (gv_runsc_bin b) g) (run_status w t [a; x; d; y])) by (intros; apply status_calm; not_a_run).
  assert (forall w t a x d, Keeps (calm (gv_runsc_bin b) g) (run_status w t [a; x; d])) by (intros; apply status_calm; not_a_run).
  unfold prepare_bundle. solve_keeps.
Qed.
#[local] Instance cache_later b t : Keeps later (ensure_rootfs_cache b t).
Proof. unfold ensure_rootfs_cache. solve_keeps. Qed.
#[local] Instance bundle_later b id c : Keeps later (prepare_bundle b id c).
Proof. pose proof status_later. unfold prepare_bundle. solve_keeps. Qed.
#[local] Instance destroy_later b id p : Keeps later (destroy_by_bundle b id p).
Proof. pose proof status_later. unfold destroy_by_bundle. solve_keeps. Qed.

(** The removal of a sandbox asks runsc to delete it. *)
Lemma destroy_removes b id p m id' : no_err m ->
  running (gv_runsc_bin b) (gv_global_args b) (mc_trace (destroy_by_bundle b id p m).2) id' ->
  running (gv_runsc_bin b) (gv_global_args b) (mc_trace m) id' /\ id' <> id.
Proof.
  intros Hn Hr. unfold destroy_by_bundle in Hr. rewrite !quietly_then, quietly_ok in Hr. set (bin := gv_runsc_bin b) in *. set (g := gv_global_args b) in *.
  rewrite (status_ok _ _ _ m Hn) in Hr. cbn [snd] in Hr.
  assert (Keeps (calm bin g) (remove_dir_all p)) as Hk by apply _. apply Hk in Hr. clear Hk.
  rewrite status_ok in Hr by done. cbn [snd mc_trace step_on log_event] in Hr.
  apply running_snoc in Hr as [(bd & [= E])|[Hr Hd]]. { apply app_inj_1 in E as [_ E]; [done|done]. }
  apply running_snoc in Hr as [(bd & [= E])|[Hr _]]. { apply app_inj_1 in E as [_ E]; [done|done]. }
  split; [done|]. intros ->. by apply Hd.
Qed.

(** [c] starts at most the container its result names. *)
Definition starts_only {A} (b : GvBackend) (P : A -> string -> Prop) (c : HM A) : Prop := forall m id, no_err m ->
  running (gv_runsc_bin b) (gv_global_args b) (mc_trace (c m).2) id ->
  running (gv_runsc_bin b) (gv_global_args b) (mc_trace m) id \/ exists a, (c m).1 = Ok a /\ P a id.

Lemma only_after {A B} b (c : HM A) (k : A -> HM B) P :
  Keeps (calm (gv_runsc_bin b) (gv_global_args b)) c -> Keeps later c ->
  (forall a, starts_only b P (k a)) -> starts_only b P (let? a := c in k a).
Proof.
  intros Hc Hl Hk m id Hn. specialize (Hc m). specialize (Hl m). unfold mbind. destruct (c m) as [[a|e] m1]; simpl in *.
  - intros Hr. destruct (Hk a m1 id) as [Hx|Hx]; [by eapply no_err_later|done| |by right]. left. by apply Hc.
  - intros Hr. left. by apply Hc.
Qed.

Lemma starts_none {A} b (c : HM A) P : Keeps (calm (gv_runsc_bin b) (gv_global_args b)) c -> starts_only b P c.
Proof. intros Hc m id _ Hr. left. by apply Hc. Qed.

(** [c] starts nothing, and when the container is still there at its end, succeeds. *)
Definition keeps_or_removes {A} (b : GvBackend) (id : string) (c : HM A) : Prop := forall m id', no_err m ->
  running (gv_runsc_bin b) (gv_global_args b) (mc_trace (c m).2) id' ->
  running (gv_runsc_bin b) (gv_global_args b) (mc_trace m) id' /\ (id' = id -> is_ok (c m).1 = true).

Lemma keeps_after {A B} b id (c : HM A) (k : A -> HM B) :
  Keeps (calm (gv_runsc_bin b) (gv_global_args b)) c -> Keeps later c -> (forall m, is_ok (c m).1 = true) ->
  (forall a, keeps_or_removes b id (k a)) -> keeps_or_removes b id (let? a := c in k a).
Proof.
  intros Hc Hl Ht Hk m id' Hn. specialize (Hc m). specialize (Hl m). specialize (Ht m). unfold mbind.
  destruct (c m) as [[a|e] m1]; simpl in *; [|done]. intros Hr. apply Hk in Hr as [Hr Ho]; [|by eapply no_err_later].
  split; [by apply Hc|done].
Qed.

Lemma removed_then {A} b id bundle (c : HM A) :
  Keeps (calm (gv_runsc_bin b) (gv_global_args b)) c -> keeps_or_removes b id (let? _ := destroy_by_bundle b id bundle in c).
Proof.
  intros Hc m id' Hn Hr.
  assert (running (gv_runsc_bin b) (gv_global_args b) (mc_trace (destroy_by_bundle b id bundle m).2) id') as Hd.
  { unfold mbind in Hr. destruct (destroy_by_bundle b id bundle m) as [[u|e] m1]; [by apply Hc|done]. }
  by apply destroy_removes in Hd as [Hd Hne].
Qed.

Lemma run_then {A} b id bundle what (k : nat * option string -> HM A) :
  (forall r, keeps_or_removes b id (k r)) ->
  starts_only b (fun _ id' => id' = id)
    (let? st := run_status what (gv_runsc_bin b) (gv_global_args b ++ ["run"; "--detach"; "--bundle"; bundle; id]%string) in k st).
Proof.
  intros Hk m id' Hn Hr. unfold mbind in *. rewrite status_ok in * by done. apply Hk in Hr as [Hr Ho]; [|done].
  apply running_snoc in Hr as [(bd & [= E])|[Hr _]]; [|by left]. apply app_inv_head in E. injection E as _ ->.
  specialize (Ho eq_refl). destruct (k _ _) as [[a|e] m1]; [|done]. right. by exists a.
Qed.

Lemma run_starts b id bundle : starts_only b (fun _ id' => id' = id) (gv_run b id bundle).
Proof.
  unfold gv_run. cbv zeta. apply only_after; [apply _|apply _|intros _]. apply only_after; [apply _|apply _|intros t].
  apply only_after; [apply _|apply _|intros _]. apply run_then. intros [n rc].
  apply keeps_after; [apply _|apply _|done|intros out]. apply keeps_after; [apply _|apply _|done|intros _].
  destruct rc as [code|].
  - apply removed_then. unfold last_line. solve_keeps.
  - intros m id' _ Hr. split; [|done]. assert (Keeps (calm (gv_runsc_bin b) (gv_global_args b)) (elapsed_ms t)) as Hk by apply _. by apply Hk.
Qed.

Lemma container_starts b t : starts_only b (fun r id => exists p x c d, r = (id, p, x, c, d)) (gv_container b t).
Proof.
  unfold gv_container. apply only_after; [apply _|apply _|intros d]. destruct (negb d); [apply starts_none, _|].
  apply only_after; [apply _|apply _|intros t']. apply only_after; [apply _|apply _|intros t0].
  apply only_after; [apply cache_calm|apply _|intros cache]. apply only_after; [apply _|apply _|intros idb]. cbv zeta.
  apply only_after; [apply bundle_calm|apply _|intros bundle]. apply only_after; [apply _|apply _|intros c].
  intros m id Hn Hr. pose proof (run_starts b (hex idb) bundle m id Hn) as Hs. unfold mbind at 1. unfold mbind at 1 in Hr.
  destruct (gv_run b (hex idb) bundle m) as [[r|e] m1]; simpl in *; [|left; by destruct Hs as [?|(? & ? & _)]].
  destruct Hs as [?|(? & _ & ->)]; [done|by left|]. right. unfold mbind, host_random, observe. eexists. split; [done|]. by do 4 eexists.
Qed.
(** ** Runs *)

Inductive gv_step : GvBackend -> GvBackend -> Prop :=
| gv_step_create t spec b : gv_step b (gv_create t spec b).2
| gv_step_destroy id b : gv_step b (gv_destroy id b).

Definition gv_owned (b : GvBackend) : Prop := no_err (gv_machine b) /\
  forall id, running (gv_runsc_bin b) (gv_global_args b) (mc_trace (gv_machine b)) id -> id ∈ dom (gv_live b).

#[local] Instance run_later b id p : Keeps later (gv_run b id p).
Proof. pose proof status_later. unfold gv_run, last_line. solve_keeps. Qed.
#[local] Instance container_later b t : Keeps later (gv_container b t).
Proof. unfold gv_container. solve_keeps. Qed.

Lemma create_owned t spec b : gv_owned b -> gv_owned (gv_create t spec b).2.
Proof.
  intros [Hn Ho]. pose proof (create_shape t spec b) as Hc. pose proof (container_starts b t (gv_machine b)) as Hs.
  pose proof (container_later b t (gv_machine b)) as Hl. destruct (gv_create t spec b) as [r b'] eqn:E. destruct Hc as ([Hb Hg] & Hm & Hr).
  simpl. split; [rewrite Hm; by eapply no_err_later|]. rewrite Hb, Hg, Hm. intros id Hid. specialize (Hs id Hn Hid).
  destruct r as [bc|e].
  - destruct Hr as (bundle & -> & mid & c1 & c2 & Ec). rewrite dom_insert. destruct Hs as [Hs|(a & Ea & p & x & c & d & ->)]; [set_solver|].
    rewrite Ec in Ea. injection Ea as -> _ _ _ _. set_solver.
  - destruct Hr as [-> Ec]. destruct Hs as [Hs|(a & Ea & _)]; [by apply Ho|]. by rewrite Ec in Ea.
Qed.

Lemma destroy_owned id b : gv_owned b -> gv_owned (gv_destroy id b).
Proof.
  intros [Hn Ho]. unfold gv_destroy. destruct (gv_live b !! id) as [p|] eqn:E; [|done]. unfold gv_host.
  pose proof (destroy_later b id p (gv_machine b)) as Hl. pose proof (destroy_removes b id p (gv_machine b)) as Hd.
  destruct (destroy_by_bundle b id p (gv_machine b)) as [r m1]. simpl in *. split; [by eapply no_err_later|].
  intros id' Hr. simpl in Hr. apply Hd in Hr as [Hr Hne]; [|done]. simpl. rewrite dom_delete. apply elem_of_difference.
  split; [by apply Ho|by apply not_elem_of_singleton].
Qed.
End GvLaws.

(**  no gVisor container runs unowned.  On a host that can launch programs, whatever
    their exit statuses: after any sequence of creations and destructions, a
    container that was started and whose removal was not asked for since is in the
    table of instances. *)
Theorem gv_containers_owned `{OciTools} (bin run_root : string) (m : Machine) (b : GvBackend) (id : string) :
  no_err m -> mc_trace m = [] -> rtc gv_step (gv_new bin run_root m) b ->
  running (gv_runsc_bin b) (gv_global_args b) (mc_trace (gv_machine b)) id -> id ∈ dom (gv_live b).
Proof.
  intros Hn Ht Hr. assert (gv_owned (gv_new bin run_root m)) as H0.
  { split; [done|]. intros i (l & e & l' & E & _). simpl in E. rewrite Ht in E. by destruct l. }
  assert (gv_owned b) as [_ Ho]; [|apply Ho]. induction Hr as [|b1 b2 b3 Hs _ IH]; [done|]. apply IH.
  destruct Hs; [by apply create_owned|by apply destroy_owned].
Qed.

(** ** A run *)

Module DemoTools.
#[export] Instance demo_tools : OciTools := {|
  gv_sha256 := fun s => be_bytes 32 (be_val s 0);
  rdump_tree := fun _ => [("bin/busybox"%string, "elf"%string)];
  spec_text := "{}";
  JValue := string;
  jv_parse := fun s => Some s;
  jv_set := fun v _ w => (v ++s w)%string;
  jv_false := "false";
  jv_strings := fun l => String.concat "," l;
  jv_pretty := fun v => v
|}.
End DemoTools.
Import DemoTools.

(** The exit statuses of the commands. *)
Definition gv_machine_with (exits : nat -> option string) : Machine :=
  let e := demo_env (fun _ => None) true in
  let m := demo_machine (fun _ => None) true in
  mkMachine (mkEnv (e_err e) exits (e_reply e) (e_random e) (e_now e) (e_wall_ns e) (fun _ => "no space left"%string) (e_memory e)
               (e_room e) (e_canon e) (e_root e) (e_dns e))
            (mc_step m) (mc_slept m) (mc_disk m) (mc_procs m) (mc_pid m) (mc_net m) [].
Definition demo_gv (exits : nat -> option string) : result BackendCreate string * GvBackend :=
  gv_create "/tpl" default_spec (gv_new "runsc" "/run" (gv_machine_with exits)).

Definition started_id : string := Eval vm_compute in match (demo_gv (fun _ => None)).1 with Ok bc => bc_id bc | Err e => e end.
Definition started_trace : list HostEvent := Eval vm_compute in mc_trace (gv_machine (demo_gv (fun _ => None)).2).

Lemma gv_containers_owned_witness : started_id ∈ dom (gv_live (demo_gv (fun _ => None)).2).
Proof.
  apply (gv_containers_owned "runsc" "/run" (gv_machine_with (fun _ => None)) (demo_gv (fun _ => None)).2 started_id).
  - intros n. reflexivity.
  - reflexivity.
  - apply rtc_once. exact (gv_step_create "/tpl" default_spec (gv_new "runsc" "/run" (gv_machine_with (fun _ => None)))).
  - exists (take 3 started_trace), (ETool "runsc" (drop 3 started_trace ≫= fun e => match e with ETool _ a => a | _ => [] end)), [].
    split; [vm_compute; reflexivity|]. split; [|constructor]. exists ("/run/" ++s started_id). vm_compute. reflexivity.
Defined.

(** The log of a container that did not start is read after it was removed: the error
    never says why. *)
Lemma failed_run_has_no_reason :
  exists k, (demo_gv (fun n => if (n =? k)%nat then Some "Some(1)"%string else None)).1 =
    Err ("runsc run --detach 失败（rc=Some(1)）: " ++s "")%string.
Proof. exists 19%nat. vm_compute. reflexivity. Qed.

(** A bundle that could not be completed stays on disk. *)
Lemma failed_bundle_stays :
  let r := demo_gv (fun n => if (n =? 11)%nat then Some "Some(1)"%string else None) in
  is_ok r.1 = false /\ gv_live r.2 = ∅ /\ is_Some (file_at (mc_disk (gv_machine r.2)) ("/run/" ++s started_id ++s "/rootfs/bin/busybox")).
Proof. vm_compute. split; [done|]. split; [done|]. by eexists. Qed.
