(* ===== verification/Base64.v ===== *)
(** * Base64 of the REST API (crates/sl-node/src/api.rs)

    The encoder and the decoder that carry file contents and command output through
    text; the decoder drops white space and padding, since the guest's base64 wraps
    its lines. *)

From Stdlib Require Import ZArith Lia Bool List String Ascii.
From stdpp Require Import base tactics list strings.
From S2P Require Import Prelude RustStr.

Open Scope Z_scope.

Definition B64 : string := "ABCDEFGHIJKLMNOPQRSTUVWXYZabcdefghijklmnopqrstuvwxyz0123456789+/".

Fixpoint char_at (s : string) (n : nat) : ascii :=
  match s, n with
  | String c _, O => c
  | String _ s', S n' => char_at s' n'
  | EmptyString, _ => "000"%char
  end.
Definition b64_at (i : Z) : ascii := char_at B64 (Z.to_nat i).

Definition or3 (b0 b1 b2 : Z) : Z := Z.lor (Z.lor (Z.shiftl b0 16) (Z.shiftl b1 8)) b2.
Definition sextet (n k : Z) : ascii := b64_at (Z.land (Z.shiftr n k) 63).

(** Three bytes at a time, the last ones padded. *)
Fixpoint b64_encode (input : string) : string :=
  match input with
  | EmptyString => ""%string
  | String a EmptyString =>
      let n := or3 (byte_val a) 0 0 in
      String (sextet n 18) (String (sextet n 12) "==")
  | String a (String b EmptyString) =>
      let n := or3 (byte_val a) (byte_val b) 0 in
      String (sextet n 18) (String (sextet n 12) (String (sextet n 6) "="))
  | String a (String b (String c rest)) =>
      let n := or3 (byte_val a) (byte_val b) (byte_val c) in
      String (sextet n 18) (String (sextet n 12) (String (sextet n 6) (String (sextet n 0) (b64_encode rest))))
  end.

(** The table of the decoder: none for a byte outside the alphabet. *)
Fixpoint index_of (c : ascii) (s : string) (i : Z) : option Z :=
  match s with
  | EmptyString => None
  | String d s' => if Ascii.eqb c d then Some i else index_of c s' (i + 1)
  end.
Definition b64_val (c : ascii) : option Z := index_of c B64 0.

(** [u8::is_ascii_whitespace] *)
Definition is_ascii_whitespace (c : ascii) : bool :=
  existsb (Z.eqb (byte_val c)) [9; 10; 12; 13; 32].

Fixpoint clean (s : string) : string :=
  match s with
  | EmptyString => ""%string
  | String c s' => if negb (is_ascii_whitespace c) && negb (Ascii.eqb c "=") then String c (clean s') else clean s'
  end.

(** [b as char], as text *)
Definition byte_as_char (c : ascii) : string :=
  let v := byte_val c in
  if v <? 128 then String c "" else String (byte_of (Z.lor 192 (Z.shiftr v 6))) (String (byte_of (Z.lor 128 (Z.land v 63))) "").

Definition bad_length : string := "base64 长度非法".
Definition bad_char (c : ascii) : string := "非法 base64 字符: " ++s byte_as_char c.

(** [acc] after the characters of a chunk; the missing ones count zero. *)
Fixpoint accumulate (cs : list ascii) (acc : Z) : result Z string :=
  match cs with
  | [] => Ok acc
  | c :: cs' =>
      match b64_val c with
      | None => Err (bad_char c)
      | Some d => accumulate cs' (Z.lor (as_u32 (Z.shiftl acc 6)) d)
      end
  end.
Definition zeros_in (k : nat) (acc : Z) : Z := Nat.iter k (fun a => as_u32 (Z.shiftl a 6)) acc.

Definition byte_of_acc (acc k : Z) : ascii := byte_of (Z.shiftr acc k).

Fixpoint decode_chunks (s : string) : result string string :=
  match s with
  | EmptyString => Ok ""%string
  | String a EmptyString => Err bad_length
  | String a (String b EmptyString) =>
      match accumulate [a; b] 0 with
      | Err e => Err e
      | Ok acc => let acc := zeros_in 2 acc in Ok (String (byte_of_acc acc 16) "")
      end
  | String a (String b (String c EmptyString)) =>
      match accumulate [a; b; c] 0 with
      | Err e => Err e
      | Ok acc => let acc := zeros_in 1 acc in Ok (String (byte_of_acc acc 16) (String (byte_of_acc acc 8) ""))
      end
  | String a (String b (String c (String d rest))) =>
      match accumulate [a; b; c; d] 0 with
      | Err e => Err e
      | Ok acc =>
          match decode_chunks rest with
          | Err e => Err e
          | Ok out => Ok (String (byte_of_acc acc 16) (String (byte_of_acc acc 8) (String (byte_of_acc acc 0) out)))
          end
      end
  end.

Definition b64_decode (input : string) : result string string := decode_chunks (clean input).

(** ** Round trip *)

Lemma b64_val_at i : 0 <= i < 64 -> b64_val (b64_at i) = Some i /\ is_ascii_whitespace (b64_at i) = false /\ b64_at i <> "="%char.
Proof.
  intros Hi. assert (forallb (fun i => bool_decide (b64_val (b64_at i) = Some i) && negb (is_ascii_whitespace (b64_at i)) && negb (Ascii.eqb (b64_at i) "="))
    (map Z.of_nat (seq 0 64)) = true) as Hf by reflexivity.
  rewrite forallb_forall in Hf. specialize (Hf i). rewrite !andb_true_iff, !negb_true_iff in Hf.
  destruct Hf as [[H1 H2] H3]; [apply in_map_iff; exists (Z.to_nat i); rewrite in_seq; lia|].
  split; [by apply bool_decide_eq_true in H1|]. split; [done|]. by apply Ascii.eqb_neq.
Qed.

Lemma lor_add a b k : 0 <= k -> 0 <= b < 2 ^ k -> Z.lor (Z.shiftl a k) b = a * 2 ^ k + b.
Proof.
  intros Hk Hb. pose proof (Z.add_lor_land (Z.shiftl a k) b) as E. rewrite <- Z.shiftl_mul_pow2 by done.
  cut (Z.land (Z.shiftl a k) b = 0); [lia|].
  apply Z.bits_inj'. intros i Hi. rewrite Z.land_spec, Z.bits_0. destruct (Z.ltb_spec i k).
  - by rewrite Z.shiftl_spec_low.
  - replace (Z.testbit b i) with false; [by rewrite andb_false_r|]. symmetry. destruct (Z.eq_dec b 0) as [->|]; [apply Z.bits_0|].
    apply Z.bits_above_log2; [lia|]. apply Z.lt_le_trans with k; [|lia]. apply Z.log2_lt_pow2; lia.
Qed.

Lemma or3_add a b c : 0 <= a < 256 -> 0 <= b < 256 -> 0 <= c < 256 -> or3 a b c = a * 2 ^ 16 + b * 2 ^ 8 + c.
Proof.
  intros Ha Hb Hc. unfold or3. rewrite lor_add; [|lia|rewrite Z.shiftl_mul_pow2; lia].
  replace (a * 2 ^ 16 + Z.shiftl b 8) with (Z.shiftl (a * 2 ^ 8 + b) 8) by (rewrite !Z.shiftl_mul_pow2; lia).
  rewrite lor_add; lia.
Qed.

Lemma sextet_mod n k : 0 <= k -> Z.land (Z.shiftr n k) 63 = (n / 2 ^ k) mod 64.
Proof. intros Hk. change 63 with (Z.ones 6). by rewrite Z.land_ones, Z.shiftr_div_pow2. Qed.

Lemma sextet_val n k : 0 <= k -> b64_val (sextet n k) = Some ((n / 2 ^ k) mod 64).
Proof. intros Hk. unfold sextet. rewrite sextet_mod by done. apply b64_val_at, Z.mod_pos_bound. lia. Qed.

Lemma clean_sextet n k s : 0 <= k -> clean (String (sextet n k) s) = String (sextet n k) (clean s).
Proof.
  intros Hk. unfold sextet. rewrite sextet_mod by done. destruct (b64_val_at ((n / 2 ^ k) mod 64)) as (_ & H1 & H2); [apply Z.mod_pos_bound; lia|].
  simpl. rewrite H1. by apply Ascii.eqb_neq in H2 as ->.
Qed.

(** One character more. *)
Lemma push acc d : 0 <= acc < 2 ^ 18 -> 0 <= d < 64 -> Z.lor (as_u32 (Z.shiftl acc 6)) d = acc * 64 + d.
Proof. intros Ha Hd. rewrite as_u32_id by (rewrite Z.shiftl_mul_pow2; lia). rewrite lor_add; lia. Qed.

Lemma accumulate_cons n k cs acc : 0 <= k -> 0 <= acc < 2 ^ 18 ->
  accumulate (sextet n k :: cs) acc = accumulate cs (acc * 64 + (n / 2 ^ k) mod 64).
Proof. intros Hk Ha. cbn [accumulate]. rewrite sextet_val by done. rewrite push; [done|done|apply Z.mod_pos_bound; lia]. Qed.

Lemma digits n : 0 <= n < 2 ^ 24 ->
  n = (((n / 2 ^ 18) mod 64 * 64 + (n / 2 ^ 12) mod 64) * 64 + (n / 2 ^ 6) mod 64) * 64 + n mod 64.
Proof. intros Hn. change (2 ^ 18) with 262144. change (2 ^ 12) with 4096. change (2 ^ 6) with 64. change (2 ^ 24) with 16777216 in Hn. Z.div_mod_to_equations. lia. Qed.

Lemma byte_acc acc k c : 0 <= k -> (acc / 2 ^ k) mod 256 = byte_val c -> byte_of_acc acc k = c.
Proof. intros Hk H. unfold byte_of_acc, byte_of. rewrite Z.shiftr_div_pow2, H by done. unfold byte_val. by rewrite N2Z.id, ascii_N_embedding. Qed.

(** The accumulator of the characters of three bytes. *)
Lemma accumulate_four n : 0 <= n < 2 ^ 24 -> accumulate [sextet n 18; sextet n 12; sextet n 6; sextet n 0] 0 = Ok n.
Proof.
  intros Hn. pose proof (digits n Hn) as Hd. assert (forall x, 0 <= x mod 64 < 64) as Hm by (intros; apply Z.mod_pos_bound; lia).
  pose proof (Hm (n / 2 ^ 18)). pose proof (Hm (n / 2 ^ 12)). pose proof (Hm (n / 2 ^ 6)).
  rewrite !accumulate_cons by lia. cbn [accumulate]. f_equal. change (2 ^ 0) with 1. rewrite Z.div_1_r. lia.
Qed.

Lemma zeros_in_1 acc : 0 <= acc < 2 ^ 26 -> zeros_in 1 acc = acc * 64.
Proof. intros Ha. change (zeros_in 1 acc) with (as_u32 (Z.shiftl acc 6)). rewrite Z.shiftl_mul_pow2, as_u32_id; lia. Qed.
Lemma zeros_in_2 acc : 0 <= acc < 2 ^ 20 -> zeros_in 2 acc = acc * 4096.
Proof. intros Ha. change (zeros_in 2 acc) with (zeros_in 1 (zeros_in 1 acc)). rewrite (zeros_in_1 acc) by lia. rewrite zeros_in_1; lia. Qed.

Lemma accumulate_three n : 0 <= n < 2 ^ 24 -> n mod 64 = 0 ->
  exists acc, accumulate [sextet n 18; sextet n 12; sextet n 6] 0 = Ok acc /\ zeros_in 1 acc = n.
Proof.
  intros Hn H0. pose proof (digits n Hn) as Hd. assert (forall x, 0 <= x mod 64 < 64) as Hm by (intros; apply Z.mod_pos_bound; lia).
  pose proof (Hm (n / 2 ^ 18)). pose proof (Hm (n / 2 ^ 12)). pose proof (Hm (n / 2 ^ 6)).
  rewrite !accumulate_cons by lia. eexists. split; [reflexivity|]. rewrite zeros_in_1; lia.
Qed.

Lemma accumulate_two n : 0 <= n < 2 ^ 24 -> n mod 4096 = 0 ->
  exists acc, accumulate [sextet n 18; sextet n 12] 0 = Ok acc /\ zeros_in 2 acc = n.
Proof.
  intros Hn H0. pose proof (digits n Hn) as Hd. assert (forall x, 0 <= x mod 64 < 64) as Hm by (intros; apply Z.mod_pos_bound; lia).
  pose proof (Hm (n / 2 ^ 18)). pose proof (Hm (n / 2 ^ 12)). pose proof (Hm (n / 2 ^ 6)).
  assert (n mod 64 = 0 /\ (n / 2 ^ 6) mod 64 = 0) as [H6 H7] by (change (2 ^ 6) with 64; Z.div_mod_to_equations; lia).
  rewrite !accumulate_cons by lia. eexists. split; [reflexivity|]. rewrite zeros_in_2; lia.
Qed.

Lemma three_bytes (s : string) (P : string -> Prop) :
  P ""%string -> (forall a, P (String a "")) -> (forall a b, P (String a (String b ""))) ->
  (forall a b c r, P r -> P (String a (String b (String c r)))) -> P s.
Proof.
  intros H0 H1 H2 H3. cut (forall n s, (String.length s <= n)%nat -> P s); [intros Hc; by apply (Hc (String.length s))|].
  induction n as [|n IH]; intros t Hl; (destruct t as [|a [|b [|c r]]]; [done|by simpl in *; try lia; auto..|]); simpl in Hl; [lia|].
  apply H3, IH. lia.
Qed.

Lemma bytes_back a b c : 0 <= a < 256 -> 0 <= b < 256 -> 0 <= c < 256 ->
  let n := a * 2 ^ 16 + b * 2 ^ 8 + c in (n / 2 ^ 16) mod 256 = a /\ (n / 2 ^ 8) mod 256 = b /\ (n / 2 ^ 0) mod 256 = c.
Proof. intros Ha Hb Hc n. unfold n. change (2 ^ 16) with 65536. change (2 ^ 8) with 256. change (2 ^ 0) with 1. Z.div_mod_to_equations. lia. Qed.

Lemma decode_encode_clean s : decode_chunks (clean (b64_encode s)) = Ok s.
Proof.
  apply (three_bytes s).
  - done.
  - intros a. pose proof (byte_val_range a) as Ra. cbn [b64_encode]. cbv zeta. rewrite or3_add by lia. set (n := _ + _).
    rewrite !clean_sextet by lia. change (clean "==") with ""%string. cbn [decode_chunks].
    destruct (accumulate_two n) as (acc & -> & Hz); [unfold n; lia|unfold n; Z.div_mod_to_equations; lia|]. cbv zeta. rewrite Hz.
    destruct (bytes_back (byte_val a) 0 0) as (E1 & _); [lia..|]. by rewrite (byte_acc n 16 a).
  - intros a b. pose proof (byte_val_range a). pose proof (byte_val_range b). cbn [b64_encode]. cbv zeta. rewrite or3_add by lia. set (n := _ + _).
    rewrite !clean_sextet by lia. change (clean "=") with ""%string. cbn [decode_chunks].
    destruct (accumulate_three n) as (acc & -> & Hz); [unfold n; lia|unfold n; Z.div_mod_to_equations; lia|]. cbv zeta. rewrite Hz.
    destruct (bytes_back (byte_val a) (byte_val b) 0) as (E1 & E2 & _); [lia..|]. by rewrite (byte_acc n 16 a), (byte_acc n 8 b).
  - intros a b c r IH. pose proof (byte_val_range a). pose proof (byte_val_range b). pose proof (byte_val_range c).
    cbn [b64_encode]. cbv zeta. rewrite or3_add by lia. set (n := _ + _). rewrite !clean_sextet by lia. cbn [decode_chunks].
    rewrite accumulate_four by (unfold n; lia). rewrite IH. destruct (bytes_back (byte_val a) (byte_val b) (byte_val c)) as (E1 & E2 & E3); [lia..|].
    by rewrite (byte_acc n 16 a), (byte_acc n 8 b), (byte_acc n 0 c).
Qed.

(** Base64 carries any bytes.  Whatever white space and padding the text was given on
    the way, what [b64_encode] made of a string of bytes decodes to these bytes. *)
Theorem b64_roundtrip (s t : string) : clean t = clean (b64_encode s) -> b64_decode t = Ok s.
Proof. intros E. unfold b64_decode. rewrite E. apply decode_encode_clean. Qed.

Lemma b64_roundtrip_witness : b64_decode ("aGVs" ++s String "010" "bG8") = Ok "hello"%string.
Proof. apply (b64_roundtrip "hello"). vm_compute. reflexivity. Defined.
