(* ===== verification/Http.v ===== *)
(** * HTTP by hand (crates/sl-node/src/api.rs and fcapi.rs)

    The request reader and the response writer of the REST API and of the gateway,
    and the client of the Firecracker API: both find the end of the header in what
    has arrived so far and read as many bytes more as Content-Length says.  A
    connection is the list of what its reads return. *)

From Stdlib Require Import ZArith Lia Bool List String Ascii.
From stdpp Require Import base tactics list strings.
From S2P Require Import Prelude RustStr Utf8 Json Proto Snapcrypt Backend Text.

Open Scope Z_scope.

Definition CR : ascii := "013".
Definition LF : ascii := "010".
Definition CRLF : string := String CR (String LF "").
Definition CRLF2 : string := CRLF ++s CRLF.

(** ** Headers *)

(** [buf.windows(4).position(|w| w == b"\r\n\r\n")] *)
Fixpoint find_crlfcrlf (buf : string) : option nat :=
  if starts_with CRLF2 buf then Some 0%nat
  else match buf with
       | EmptyString => None
       | String _ buf' => S <$> find_crlfcrlf buf'
       end.

(** [text.split("\r\n")] *)
Fixpoint split_crlf (text : string) : list string :=
  match text with
  | EmptyString => [""%string]
  | String c text' =>
      match text' with
      | String d text'' =>
          if Ascii.eqb c CR && Ascii.eqb d LF then ""%string :: split_crlf text''
          else match split_crlf text' with p :: ps => String c p :: ps | [] => [String c ""] end
      | EmptyString => [String c ""]
      end
  end.

Definition to_ascii_lowercase (c : ascii) : ascii :=
  let v := byte_val c in if (65 <=? v) && (v <=? 90) then byte_of (v + 32) else c.
Fixpoint eq_ignore_ascii_case (a b : string) : bool :=
  match a, b with
  | EmptyString, EmptyString => true
  | String x a', String y b' => Ascii.eqb (to_ascii_lowercase x) (to_ascii_lowercase y) && eq_ignore_ascii_case a' b'
  | _, _ => false
  end.

(** The value of the first header of that name. *)
Definition header_value (name line : string) : option string :=
  kv ← split_once ":" line;
  if eq_ignore_ascii_case (trim kv.1) name then Some (trim kv.2) else None.

Fixpoint first_some {A} (f : string -> option A) (l : list string) : option A :=
  match l with
  | [] => None
  | x :: l' => match f x with Some a => Some a | None => first_some f l' end
  end.

Definition extract_header (head name : string) : option string :=
  first_some (header_value name) (split_crlf (from_utf8_lossy head)).

Definition strip_bearer (v : string) : option string :=
  match strip_prefix "Bearer " v with
  | Some t => Some t
  | None => strip_prefix "bearer " v
  end.

Definition api_key_of_line (line : string) : option string :=
  kv ← split_once ":" line;
  let k := trim kv.1 in
  let bearer := if eq_ignore_ascii_case k "authorization" then trim <$> strip_bearer (trim kv.2) else None in
  match bearer with
  | Some t => Some t
  | None => if eq_ignore_ascii_case k "x-api-key" then Some (trim kv.2) else None
  end.

Definition extract_api_key (head : string) : option string :=
  first_some api_key_of_line (split_crlf (from_utf8_lossy head)).

Definition content_length (head : string) : Z :=
  match extract_header head "content-length" with
  | Some v => default 0 (parse_uint u64_max v)
  | None => 0
  end.

(** [head.split(|&b| b == b'\n').next()] *)
Definition first_line (head : string) : string :=
  match split_once LF head with Some (l, _) => l | None => head end.

Definition parse_request_line (head : string) : result (string * string) string :=
  match split_whitespace (from_utf8_lossy (first_line head)) with
  | [] => Err "请求行无方法"%string
  | [_] => Err "请求行无路径"%string
  | m :: p :: _ => Ok (m, p)
  end.

(** ** Reading a message *)

(** What the reads of a connection return; none is the end. *)
Definition Reads : Type := list (result string string).

(** [Some limit]: the most that is kept while the end of the header is sought. *)
Fixpoint read_head (what eof : string) (limit : option nat) (buf : string) (rs : Reads) : result (nat * string * Reads) string :=
  match find_crlfcrlf buf with
  | Some p => Ok (p, buf, rs)
  | None =>
      match rs with
      | [] => Err eof
      | Err e :: _ => Err (what ++s ": " ++s e)
      | Ok c :: rs' =>
          if String.eqb c "" then Err eof
          else
            let buf := buf ++s c in
            if match limit with Some l => (l <? String.length buf)%nat | None => false end then Err "请求头过大"%string
            else read_head what eof limit buf rs'
      end
  end.

Fixpoint read_body (what : string) (want : Z) (buf : string) (rs : Reads) : result string string :=
  if want <=? Z.of_nat (String.length buf) then Ok buf
  else
    match rs with
    | [] => Ok buf
    | Err e :: _ => Err (what ++s ": " ++s e)
    | Ok c :: rs' => if String.eqb c "" then Ok buf else read_body what want (buf ++s c) rs'
    end.

(** [head_end + 4 + content_length(head)], on 64 bits *)
Definition wanted (head_end : nat) (head : string) : Z := as_u64 (Z.of_nat head_end + 4 + content_length head).

Definition HEADER_LIMIT : nat := 64 * 1024.

Record HttpRequest : Type := mkRequest {
  rq_method : string;
  rq_path : string;
  rq_api_key : option string;
  rq_traceparent : option string;
  rq_body : string
}.

Definition read_request (rs : Reads) : result HttpRequest string :=
  match read_head "读请求头失败" "请求未含完整 header（连接过早关闭）" (Some HEADER_LIMIT) "" rs with
  | Err e => Err e
  | Ok (head_end, buf, rs') =>
      let head := str_take head_end buf in
      match parse_request_line head with
      | Err e => Err e
      | Ok (method, path) =>
          match read_body "读请求体失败" (wanted head_end head) buf rs' with
          | Err e => Err e
          | Ok buf => Ok (mkRequest method path (extract_api_key head) (extract_header head "traceparent") (str_drop (head_end + 4) buf))
          end
      end
  end.

(** ** Responses *)

Definition reason (code : Z) : string :=
  if code =? 200 then "OK" else if code =? 201 then "Created" else if code =? 204 then "No Content"
  else if code =? 400 then "Bad Request" else if code =? 404 then "Not Found"
  else if code =? 500 then "Internal Server Error" else if code =? 501 then "Not Implemented" else "OK".

(** What [write_response] writes. *)
Definition response_text (code : Z) (ctype body : string) : string :=
  "HTTP/1.1 " ++s dec code ++s " " ++s reason code ++s CRLF ++s "Content-Type: " ++s ctype ++s CRLF ++s
  "Content-Length: " ++s dec (Z.of_nat (String.length body)) ++s CRLF ++s "Connection: close" ++s CRLF2 ++s body.

(** [err_json] *)
Definition err_json (msg : string) : string :=
  "{" ++s quoted "error" ++s ":" ++s
  quoted (replace_char quote (String backslash (String quote "")) (replace_char backslash (String backslash (String backslash "")) msg))
  ++s "}".

(** ** The Firecracker client *)

Definition fc_request_text (method path body : string) : string :=
  method ++s " " ++s path ++s " HTTP/1.1" ++s CRLF ++s "Host: localhost" ++s CRLF ++s "Accept: application/json" ++s CRLF ++s
  "Content-Type: application/json" ++s CRLF ++s "Content-Length: " ++s dec (Z.of_nat (String.length body)) ++s CRLF ++s
  "Connection: close" ++s CRLF2 ++s body.

Definition parse_http_response (buf : string) : result (Z * string) string :=
  match find_crlfcrlf buf with
  | None => Err "响应无完整 header"%string
  | Some sep =>
      let line := from_utf8_lossy (first_line (str_take sep buf)) in
      match (c ← split_whitespace line !! 1%nat; parse_uint 65535 c) with
      | None => Err ("状态行无法解析: " ++s debug_str line)
      | Some code => Ok (code, trim (from_utf8_lossy (str_drop (sep + 4) buf)))
      end
  end.

(** [FcApi::raw_with_timeout] on an open connection. *)
Definition fc_response (rs : Reads) : result (Z * string) string :=
  match read_head "读响应头失败" "响应未含完整 header（连接过早关闭）" None "" rs with
  | Err e => Err e
  | Ok (head_end, buf, rs') =>
      match read_body "读响应体失败" (wanted head_end (str_take head_end buf)) buf rs' with
      | Err e => Err e
      | Ok buf => parse_http_response buf
      end
  end.

(** [expect_2xx] *)
Definition expect_2xx (method path : string) (rs : Reads) : result unit string :=
  match fc_response rs with
  | Err e => Err e
  | Ok (code, resp) =>
      if (200 <=? code) && (code <? 300) then Ok tt
      else Err ("FC " ++s method ++s " " ++s path ++s " -> " ++s dec code ++s ": " ++s resp)
  end.

(** ** The bytes of a message, however they arrive *)

(** The reads bring these bytes, at most [n] at a time. *)
Definition brings (n : nat) (rs : Reads) (bytes : string) : Prop :=
  exists cs, rs = map Ok cs /\ Forall (fun c => c <> ""%string /\ (String.length c <= n)%nat) cs /\ String.concat "" cs = bytes.

Lemma starts_with_long q a b : (String.length q <= String.length a)%nat -> starts_with q (a ++s b) = starts_with q a.
Proof.
  revert a. induction q as [|c q IH]; intros a Hl; [by rewrite !starts_with_nil|]. destruct a as [|d a]; simpl in *; [lia|].
  unfold starts_with. simpl. destruct (Ascii.eqb c d); [|done]. apply (IH a). lia.
Qed.

Lemma find_length a p : find_crlfcrlf a = Some p -> (p + 4 <= String.length a)%nat.
Proof.
  revert p. induction a as [|c a IH]; intros p; cbn [find_crlfcrlf]; [done|].
  destruct (starts_with CRLF2 (String c a)) eqn:E.
  - intros [= <-]. apply starts_with_true in E as [r E]. rewrite E, app_length_s. simpl. lia.
  - destruct (find_crlfcrlf a) as [k|]; simpl; [|done]. intros [= <-]. specialize (IH k eq_refl). lia.
Qed.

Lemma find_app a b p : find_crlfcrlf a = Some p -> find_crlfcrlf (a ++s b) = Some p.
Proof.
  revert p. induction a as [|c a IH]; intros p Hp; pose proof (find_length _ _ Hp) as Hl; simpl in Hl; [lia|].
  cbn [String.append]. cbn [find_crlfcrlf] in *. change (String c (a ++s b)) with (String c a ++s b). rewrite starts_with_long by (simpl; lia).
  destruct (starts_with CRLF2 (String c a)); [done|]. destruct (find_crlfcrlf a) as [k|]; [|done]. by rewrite (IH k).
Qed.

Lemma find_prefix a b p : find_crlfcrlf (a ++s b) = Some p ->
  find_crlfcrlf a = if (p + 4 <=? String.length a)%nat then Some p else None.
Proof.
  intros Hp. destruct (Nat.leb_spec (p + 4) (String.length a)) as [Hl|Hl].
  - revert p Hp Hl. induction a as [|c a IH]; intros p Hp Hl; simpl in Hl; [lia|].
    cbn [String.append] in Hp. cbn [find_crlfcrlf] in *. change (String c (a ++s b)) with (String c a ++s b) in Hp.
    rewrite starts_with_long in Hp by (simpl; lia). destruct (starts_with CRLF2 (String c a)); [done|].
    destruct (find_crlfcrlf (a ++s b)) as [k|] eqn:E; [|done]. injection Hp as <-. by rewrite (IH k eq_refl ltac:(lia)).
  - destruct (find_crlfcrlf a) as [q|] eqn:E; [|done]. pose proof (find_length _ _ E). apply (find_app _ b) in E. rewrite Hp in E. injection E as ->. lia.
Qed.

Lemma read_head_arrives what eof limit n text p : find_crlfcrlf text = Some p ->
  match limit with Some l => (p + 3 + n <= l)%nat | None => True end ->
  forall cs buf, Forall (fun c => c <> ""%string /\ (String.length c <= n)%nat) cs -> buf ++s String.concat "" cs = text ->
  exists buf' cs', read_head what eof limit buf (map Ok cs) = Ok (p, buf', map Ok cs') /\
    Forall (fun c => c <> ""%string /\ (String.length c <= n)%nat) cs' /\ buf' ++s String.concat "" cs' = text.
Proof.
  intros Hp Hlim. induction cs as [|c cs IH]; intros buf Hf Ht.
  - simpl in Ht. rewrite app_nil_s in Ht. subst buf. cbn [map read_head]. rewrite Hp. exists text, []. split; [done|]. split; [done|]. by rewrite app_nil_s.
  - pose proof Hp as Hb. rewrite <- Ht in Hb. apply find_prefix in Hb. cbn [map read_head]. rewrite Hb.
    destruct (Nat.leb_spec (p + 4) (String.length buf)) as [Hl|Hl]; [by exists buf, (c :: cs)|].
    apply Forall_cons in Hf as [[Hc Hn] Hf]. apply String.eqb_neq in Hc. rewrite Hc.
    replace (match limit with Some l => (l <? String.length (buf ++s c))%nat | None => false end) with false; cycle 1.
    { destruct limit as [l|]; [|done]. symmetry. apply Nat.ltb_ge. rewrite app_length_s. lia. }
    apply IH; [done|]. by rewrite app_assoc_s, <- concat_cons.
Qed.

Lemma read_body_arrives what n text want : want = Z.of_nat (String.length text) ->
  forall cs buf, Forall (fun c => c <> ""%string /\ (String.length c <= n)%nat) cs -> buf ++s String.concat "" cs = text ->
  read_body what want buf (map Ok cs) = Ok text.
Proof.
  intros ->. induction cs as [|c cs IH]; intros buf Hf Ht.
  - simpl in Ht. rewrite app_nil_s in Ht. subst buf. simpl. by rewrite Z.leb_refl.
  - apply Forall_cons in Hf as [[Hc Hn] Hf]. cbn [map read_body]. apply String.eqb_neq in Hc. rewrite Hc.
    destruct (Z.leb_spec (Z.of_nat (String.length text)) (Z.of_nat (String.length buf))) as [Hl|Hl].
    + apply (f_equal String.length) in Ht. rewrite concat_cons, !app_length_s in Ht. apply String.eqb_neq in Hc. destruct c; [done|]. simpl in Ht. lia.
    + apply IH; [done|]. by rewrite app_assoc_s, <- concat_cons.
Qed.

Lemma read_head_found what eof limit rs : forall b p buf rs', read_head what eof limit b rs = Ok (p, buf, rs') -> find_crlfcrlf buf = Some p.
Proof.
  induction rs as [|r rs IH]; intros b p buf rs'; cbn [read_head]; destruct (find_crlfcrlf b) eqn:E; try (by intros [= <- <- <-]); try done.
  destruct r as [c|e]; [|done]. destruct (String.eqb c ""); [done|]. destruct (match limit with Some l => _ | None => _ end); [done|]. apply IH.
Qed.

(** The whole message is read, however it was cut. *)
Lemma message_arrives what1 eof limit what2 n rs head body :
  let text := head ++s CRLF2 ++s body in
  find_crlfcrlf text = Some (String.length head) -> content_length head = Z.of_nat (String.length body) ->
  Z.of_nat (String.length text) < 2 ^ 64 -> match limit with Some l => (String.length head + 3 + n <= l)%nat | None => True end ->
  brings n rs text ->
  exists buf rs', read_head what1 eof limit "" rs = Ok (String.length head, buf, rs') /\ str_take (String.length head) buf = head /\
    read_body what2 (wanted (String.length head) head) buf rs' = Ok text.
Proof.
  intros text Hp Hc H64 Hlim (cs & -> & Hf & Ht).
  destruct (read_head_arrives what1 eof limit n text _ Hp Hlim cs "" Hf Ht) as (buf & cs' & Er & Hf' & Ht').
  exists buf, (map Ok cs'). split; [done|].
  assert (String.length head + 4 <= String.length buf)%nat as Hl.
  { eapply find_length, read_head_found, Er. }
  split.
  - apply (f_equal (str_take (String.length head))) in Ht'. rewrite str_take_app in Ht' by lia. rewrite Ht'. apply str_take_exact.
  - eapply read_body_arrives; [|exact Hf'|done]. unfold wanted. rewrite Hc.
    assert (Z.of_nat (String.length text) = Z.of_nat (String.length head) + 4 + Z.of_nat (String.length body)) as El.
    { unfold text. rewrite !app_length_s. simpl. lia. }
    rewrite as_u64_id by lia. lia.
Qed.

Lemma drop_head head body : str_drop (String.length head + 4) (head ++s CRLF2 ++s body) = body.
Proof.
  rewrite <- app_assoc_s. replace (String.length head + 4)%nat with (String.length (head ++s CRLF2)) by (rewrite app_length_s; simpl; lia).
  apply str_drop_exact.
Qed.

Lemma request_arrives (head body method path : string) (rs : Reads) :
  find_crlfcrlf (head ++s CRLF2 ++s body) = Some (String.length head) ->
  parse_request_line head = Ok (method, path) ->
  content_length head = Z.of_nat (String.length body) -> Z.of_nat (String.length (head ++s CRLF2 ++s body)) < 2 ^ 64 ->
  (String.length head + 3 + 1024 <= HEADER_LIMIT)%nat ->
  brings 1024 rs (head ++s CRLF2 ++s body) ->
  read_request rs = Ok (mkRequest method path (extract_api_key head) (extract_header head "traceparent") body).
Proof.
  intros Hp Hl Hc H64 Hlim Hb. unfold read_request.
  destruct (message_arrives "读请求头失败" "请求未含完整 header（连接过早关闭）" (Some HEADER_LIMIT) "读请求体失败" 1024 rs head body)
    as (buf & rs' & Er & Ht & Eb); try done. rewrite Er. cbv zeta. rewrite Ht, Hl, Eb. by rewrite drop_head.
Qed.

(**  a request is read whole, however the network cut it.  For any way in which the
    bytes of a request whose header announces its body arrive, in pieces of at most
    the reader's buffer, the request is the same: its method and path, its API key,
    its trace context and exactly its body. *)
Theorem request_any_chunking (head body method path : string) (rs : Reads) :
  find_crlfcrlf (head ++s CRLF2 ++s body) = Some (String.length head) ->
  parse_request_line head = Ok (method, path) ->
  content_length head = Z.of_nat (String.length body) -> Z.of_nat (String.length (head ++s CRLF2 ++s body)) < 2 ^ 64 ->
  (String.length head + 3 + 1024 <= HEADER_LIMIT)%nat ->
  brings 1024 rs (head ++s CRLF2 ++s body) ->
  read_request rs = Ok (mkRequest method path (extract_api_key head) (extract_header head "traceparent") body).
Proof. exact (request_arrives head body method path rs). Qed.

Definition a_head : string := "POST /v1/sandboxes HTTP/1.1" ++s CRLF ++s "Authorization: Bearer t0k" ++s CRLF ++s "content-LENGTH: 5".

Lemma request_any_chunking_witness :
  read_request [Ok ("POST /v1/sandboxes HTTP/1.1" ++s CRLF); Ok ("Authorization: Bearer t0k" ++s CRLF ++s "content-LENGTH: 5" ++s String CR "");
                Ok (String LF (CRLF ++s "he")); Ok "llo"%string] =
    Ok (mkRequest "POST" "/v1/sandboxes" (Some "t0k"%string) None "hello").
Proof.
  apply (request_any_chunking a_head "hello" "POST" "/v1/sandboxes").
  - vm_compute. reflexivity.
  - vm_compute. reflexivity.
  - vm_compute. reflexivity.
  - vm_compute. reflexivity.
  - apply Nat.leb_le. vm_compute. reflexivity.
  - eexists [_; _; _; _]. split; [reflexivity|]. split; [|vm_compute; reflexivity].
    repeat constructor; try discriminate; apply Nat.leb_le; vm_compute; reflexivity.
Defined.
