(* ===== verification/HttpText.v ===== *)
(** * Requests the program writes itself

    The header the replicas and the gateway write for a relayed request is read back by
    the request reader: its method, its path and the length of its body. *)

From Stdlib Require Import ZArith Lia Bool List String Ascii.
From stdpp Require Import base tactics list strings.
From S2P Require Import Prelude RustStr Utf8 Json Proto Snapcrypt Backend Text Auth Http.

Open Scope Z_scope.

(** Printable ASCII without the space. *)
Definition visible_char (c : ascii) : bool := (33 <=? byte_val c) && (byte_val c <? 127).
Definition visible (s : string) : bool := forallb visible_char (list_ascii_of_string s).

Lemma visible_app a b : visible (a ++s b) = visible a && visible b.
Proof. unfold visible. induction a as [|c a IH]; simpl; [done|]. by rewrite IH, andb_assoc. Qed.

Lemma visible_cons c s : visible (String c s) = visible_char c && visible s.
Proof. reflexivity. Qed.

Lemma visible_ascii s : visible s = true -> is_ascii s = true.
Proof.
  unfold visible, is_ascii, visible_char. rewrite !forallb_forall. intros Hv c Hin. specialize (Hv c Hin). bool_prop. apply Z.ltb_lt. lia.
Qed.

Lemma visible_no_char c s : visible_char c = false -> visible s = true -> contains_char c s = false.
Proof.
  intros Hc. induction s as [|d s IH]; [done|]. rewrite visible_cons, andb_true_iff. intros [Hd Hs]. cbn [contains_char].
  rewrite IH by done. destruct (Ascii.eqb_spec c d); [congruence|done].
Qed.

Lemma dec_visible n : 0 <= n -> visible (dec n) = true.
Proof.
  intros Hn. unfold dec. rewrite (proj2 (Z.ltb_ge _ _) Hn).
  assert (forall f n acc, visible acc = true -> visible (dec_digits f n acc) = true) as G; [|by apply G].
  clear. induction f as [|f IH]; intros n acc Ha; [done|]. cbn [dec_digits].
  assert (visible (String (digit_char (n mod 10)) acc) = true) as Hd.
  { rewrite visible_cons, Ha, andb_true_r. pose proof (Z.mod_pos_bound n 10 ltac:(lia)). unfold visible_char, digit_char.
    rewrite byte_val_of by lia. apply andb_true_iff. split; [apply Z.leb_le|apply Z.ltb_lt]; lia. }
  destruct (n <? 10); [done|by apply IH].
Qed.

Lemma hex_visible s : visible (hex s) = true.
Proof.
  induction s as [|b s IH]; [done|]. cbn [hex]. rewrite !visible_cons, IH, andb_true_r. pose proof (byte_val_range b) as Hb.
  assert (forall d, 0 <= d < 16 -> visible_char (hex_digit d) = true) as Hd.
  { intros d Hd. unfold visible_char, hex_digit. destruct (d <? 10) eqn:E; bool_prop; rewrite byte_val_of by lia;
      apply andb_true_iff; (split; [apply Z.leb_le|apply Z.ltb_lt]); lia. }
  rewrite !Hd; [done|apply Z.mod_pos_bound; lia|split; [apply Z.div_pos; lia|apply Z.div_lt_upper_bound; lia]].
Qed.

(** ** White space *)

(** No white space character begins or ends with a visible one. *)
Lemma strip_space_visible c s : visible_char c = true -> strip_space (String c s) = None.
Proof.
  intros Hc. unfold strip_space. assert (Forall (fun w => exists d w', w = String d w' /\ visible_char d = false) white_space) as Hw.
  { repeat constructor; eexists _, _; split; reflexivity. }
  induction Hw as [|w l (d & w' & -> & Hd) Hl IH]; [done|]. cbn [strip_any strip_prefix].
  destruct (Ascii.eqb_spec d c) as [->|]; [congruence|exact IH].
Qed.

Lemma visible_last s d : visible (s ++s String d "") = true -> visible_char d = true.
Proof. rewrite visible_app, andb_true_iff. intros [_ Hd]. rewrite visible_cons in Hd. by apply andb_true_iff in Hd as [? _]. Qed.

Lemma strip_space_end_visible s : visible s = true -> strip_space_end s = None.
Proof.
  intros Hs. unfold strip_space_end. assert (Forall (fun w => exists w' d, w = w' ++s String d "" /\ visible_char d = false) white_space) as Hw.
  { unfold white_space, bytes. cbn [map app]. repeat constructor.
    all: first [ by exists ""%string; eexists; split; reflexivity
               | by eexists (String _ ""); eexists; split; reflexivity
               | by eexists (String _ (String _ "")); eexists; split; reflexivity ]. }
  induction Hw as [|w l (w' & d & -> & Hd) Hl IH]; [done|]. cbn [strip_any].
  destruct (strip_suffix (w' ++s String d "") s) as [r|] eqn:E; [|exact IH]. apply strip_suffix_some in E.
  rewrite E, <- app_assoc_s in Hs. apply visible_last in Hs. congruence.
Qed.

Lemma trim_visible s : visible s = true -> trim (" " ++s s) = s.
Proof.
  intros Hs. unfold trim, trim_start. change (" " ++s s)%string with (String " " s).
  assert (repeat_strip (String.length (String " " s)) strip_space (String " " s) = s) as ->.
  { cbn [String.length repeat_strip]. change (strip_space (String " " s)) with (Some s). destruct s as [|c s]; [done|].
    cbn [String.length repeat_strip]. rewrite strip_space_visible; [done|]. rewrite visible_cons in Hs. by apply andb_true_iff in Hs as [? _]. }
  unfold trim_end. destruct (String.length s); [done|]. cbn [repeat_strip]. by rewrite strip_space_end_visible.
Qed.

Lemma trim_start_visible c s : visible_char c = true -> trim_start (String c s) = String c s.
Proof. intros Hc. unfold trim_start. cbn [String.length repeat_strip]. by rewrite strip_space_visible. Qed.

(** Trimming keeps a visible first character. *)
Lemma strip_any_some l strip r : strip_any l strip = Some r -> exists w, In w l /\ strip w = Some r.
Proof.
  induction l as [|w l IH]; [done|]. cbn [strip_any]. destruct (strip w) as [r'|] eqn:E.
  - intros [= <-]. exists w. split; [by left|done].
  - intros (w' & Hin & Hw)%IH. exists w'. split; [by right|done].
Qed.

Lemma trim_id s : visible s = true -> trim s = s.
Proof.
  intros Hs. unfold trim. destruct s as [|c s]; [done|].
  assert (visible_char c = true) as Hc by (rewrite visible_cons in Hs; by apply andb_true_iff in Hs as [? _]).
  rewrite trim_start_visible by done. unfold trim_end. cbn [String.length repeat_strip]. by rewrite strip_space_end_visible.
Qed.

Lemma trim_first c k : visible_char c = true -> exists y, trim (String c k) = String c y.
Proof.
  intros Hc. unfold trim. rewrite trim_start_visible by done. unfold trim_end. generalize (String.length (String c k)) as fuel.
  assert (forall k r, strip_space_end (String c k) = Some r -> exists k', r = String c k') as Hs.
  { intros k0 r (w & Hin & Hw)%strip_any_some. apply strip_suffix_some in Hw. destruct r as [|d r]; [|injection Hw as <- _; by exists r].
    exfalso. cbn [String.append] in Hw. subst w. assert (forallb (fun w => match w with String d _ => negb (visible_char d) | "" => true end)%string white_space = true) as Hf by reflexivity.
    rewrite forallb_forall in Hf. specialize (Hf _ Hin). cbn in Hf. fold (visible_char c) in Hf. rewrite Hc in Hf. discriminate Hf. }
  intros fuel. revert k. induction fuel as [|fuel IH]; intros k; cbn [repeat_strip]; [by exists k|].
  destruct (strip_space_end (String c k)) as [r|] eqn:E; [|by exists k]. apply Hs in E as [k' ->]. apply IH.
Qed.

Lemma take_word_space w r : visible w = true -> take_word (w ++s String " " r) = (w, r).
Proof.
  induction w as [|c w IH]; intros Hw; [reflexivity|]. rewrite visible_cons in Hw. apply andb_true_iff in Hw as [Hc Hw].
  change (String c w ++s String " " r) with (String c (w ++s String " " r)). cbn [take_word]. rewrite strip_space_visible by done. by rewrite IH.
Qed.

Lemma words_cons n w r : visible w = true -> w <> ""%string -> words_aux (S n) (w ++s String " " r) = w :: words_aux n r.
Proof.
  intros Hw Hne. destruct w as [|c w]; [done|]. pose proof Hw as Hv. rewrite visible_cons in Hv. apply andb_true_iff in Hv as [Hc _].
  cbn [words_aux]. change (String c w ++s String " " r) with (String c (w ++s String " " r)) at 1 2. rewrite trim_start_visible by done.
  change (String c (w ++s String " " r)) with (String c w ++s String " " r). rewrite take_word_space by done.
  destruct (String.eqb_spec (String c w ++s String " " r) ""); [done|reflexivity].
Qed.

(** ** Lines *)

Lemma split_crlf_app a b : contains_char CR a = false -> split_crlf (a ++s CRLF ++s b) = a :: split_crlf b.
Proof.
  induction a as [|c a IH]; intros Ha; [reflexivity|]. cbn [contains_char] in Ha. apply orb_false_iff in Ha as [Hc Ha].
  change (String c a ++s CRLF ++s b) with (String c (a ++s CRLF ++s b)). cbn [split_crlf]. rewrite IH by done.
  destruct (a ++s CRLF ++s b) as [|d t] eqn:E; [by destruct a|]. by rewrite Ascii.eqb_sym, Hc.
Qed.

Lemma split_crlf_none a : contains_char CR a = false -> split_crlf a = [a].
Proof.
  induction a as [|c a IH]; intros Ha; [reflexivity|]. cbn [contains_char] in Ha. apply orb_false_iff in Ha as [Hc Ha].
  cbn [split_crlf]. destruct a as [|d a]; [done|]. rewrite Ascii.eqb_sym, Hc. cbn [andb]. by rewrite IH.
Qed.

Lemma find_skip a b : contains_char CR a = false -> find_crlfcrlf (a ++s b) = (fun k => String.length a + k)%nat <$> find_crlfcrlf b.
Proof.
  induction a as [|c a IH]; intros Ha; [cbn [String.append String.length]; by destruct (find_crlfcrlf b)|]. cbn [contains_char] in Ha. apply orb_false_iff in Ha as [Hc Ha].
  change (String c a ++s b) with (String c (a ++s b)). cbn [find_crlfcrlf].
  replace (starts_with CRLF2 (String c (a ++s b))) with false; [|unfold starts_with; cbn [CRLF2 CRLF String.append strip_prefix]; by rewrite Hc].
  rewrite IH by done. by destruct (find_crlfcrlf b).
Qed.

Lemma starts_crlf2 a b c s : starts_with CRLF2 (String a (String b (String c s))) = true -> a = CR /\ b = LF /\ c = CR.
Proof. intros [r E]%starts_with_true. injection E as -> -> -> _. done. Qed.

Lemma find_line c s : c <> CR -> find_crlfcrlf (CRLF ++s String c s) = (fun k => 2 + k)%nat <$> find_crlfcrlf (String c s).
Proof.
  intros Hc. set (t := String c s). change (CRLF ++s t) with (String CR (String LF t)).
  assert (starts_with CRLF2 (String CR (String LF t)) = false) as E1.
  { destruct (starts_with _ _) eqn:E; [|done]. by apply starts_crlf2 in E as (_ & _ & ?). }
  assert (find_crlfcrlf (String CR (String LF t)) = S <$> (S <$> find_crlfcrlf t)) as ->.
  { cbn [find_crlfcrlf]. rewrite E1. reflexivity. }
  by destruct (find_crlfcrlf t).
Qed.

(** ** The header of a relayed request *)

Definition relay_lines (m p host : string) (n : Z) : string :=
  m ++s " " ++s p ++s " HTTP/1.1" ++s CRLF ++s ("Host: " ++s host) ++s CRLF ++s ("Content-Length: " ++s dec n) ++s CRLF ++s "Connection: close".

Section Relayed.
Context (m p host : string) (n : Z) (body : string).
Context (Hm : visible m = true) (Hm0 : m <> ""%string) (Hp : visible p = true) (Hp0 : p <> ""%string)
        (Hh : visible host = true) (Hn : 0 <= n).

Definition request_line : string := m ++s " " ++s p ++s " HTTP/1.1".

Lemma relay_lines_eq :
  relay_lines m p host n = request_line ++s CRLF ++s ("Host: " ++s host) ++s CRLF ++s ("Content-Length: " ++s dec n) ++s CRLF ++s "Connection: close".
Proof. unfold relay_lines, request_line. by rewrite !app_assoc_s. Qed.

Lemma no_cr : contains_char CR request_line = false /\ contains_char CR ("Host: " ++s host) = false /\ contains_char CR ("Content-Length: " ++s dec n) = false.
Proof.
  unfold request_line. rewrite !contains_char_app. pose proof (dec_visible n Hn).
  rewrite (visible_no_char CR m), (visible_no_char CR p), (visible_no_char CR host), (visible_no_char CR (dec n)) by done. done.
Qed.

Lemma relay_found : find_crlfcrlf (relay_lines m p host n ++s CRLF2 ++s body) = Some (String.length (relay_lines m p host n)).
Proof.
  destruct no_cr as (H1 & H2 & H3).
  assert (forall a t, contains_char CR a = false -> (exists c s, a = String c s) -> find_crlfcrlf (CRLF ++s a ++s t) = (fun k => String.length CRLF + (String.length a + k))%nat <$> find_crlfcrlf t) as Hstep.
  { intros a t Ha (c & s & ->). change (String c s ++s t) with (String c (s ++s t)). rewrite find_line.
    - change (String c (s ++s t)) with (String c s ++s t). rewrite find_skip by done. by destruct (find_crlfcrlf t).
    - intros ->. discriminate Ha. }
  rewrite relay_lines_eq, !app_assoc_s. rewrite find_skip by done.
  rewrite <- (app_assoc_s "Host: " host). rewrite Hstep by (done || by eexists _, _).
  rewrite <- (app_assoc_s "Content-Length: " (dec n)). rewrite Hstep by (done || by eexists _, _).
  rewrite (Hstep "Connection: close" (CRLF2 ++s body)) by (done || by eexists _, _).
  replace (find_crlfcrlf (CRLF2 ++s body)) with (Some 0%nat) by reflexivity. cbn [fmap option_fmap option_map]. f_equal.
  rewrite !app_length_s. lia.
Qed.

Lemma relay_text_ascii : from_utf8_lossy (relay_lines m p host n) = relay_lines m p host n.
Proof.
  apply from_utf8_lossy_valid, is_ascii_valid. unfold relay_lines. pose proof (dec_visible n Hn).
  rewrite !is_ascii_app, (visible_ascii m), (visible_ascii p), (visible_ascii host), (visible_ascii (dec n)) by done. done.
Qed.

Lemma relay_request_line : parse_request_line (relay_lines m p host n) = Ok (m, p).
Proof.
  unfold parse_request_line. assert (first_line (relay_lines m p host n) = m ++s String " " (p ++s String " " ("HTTP/1.1" ++s String CR ""))) as ->.
  { unfold first_line. rewrite (proj2 (split_once_some LF _ (m ++s String " " (p ++s String " " ("HTTP/1.1" ++s String CR ""))) (("Host: " ++s host) ++s CRLF ++s ("Content-Length: " ++s dec n) ++s CRLF ++s "Connection: close"))); [done|].
    split; [|rewrite contains_char_app; cbn [contains_char]; rewrite contains_char_app, (visible_no_char LF m), (visible_no_char LF p) by done; done].
    change (m ++s String " " (p ++s String " " ("HTTP/1.1" ++s String CR ""))) with (m ++s " " ++s p ++s " HTTP/1.1" ++s String CR "").
    unfold relay_lines. rewrite !app_assoc_s. reflexivity. }
  rewrite from_utf8_lossy_valid.
  - unfold split_whitespace. rewrite app_length_s. destruct m as [|c m']; [done|]. cbn [String.length Nat.add].
    rewrite words_cons by done. rewrite app_length_s. destruct p as [|d p']; [done|]. cbn [String.length Nat.add]. rewrite Nat.add_succ_r.
    by rewrite words_cons by done.
  - apply is_ascii_valid. rewrite is_ascii_app, visible_ascii by done. change (String " " (p ++s String " " ("HTTP/1.1" ++s String CR "")))
      with (" " ++s p ++s String " " ("HTTP/1.1" ++s String CR "")). rewrite !is_ascii_app, (visible_ascii p) by done. done.
Qed.

(** The method does not read as the name of the length header. *)
Context (Hc : match m with String c _ => Ascii.eqb (to_ascii_lowercase c) "c" = false | EmptyString => True end).

Lemma relay_length : n <= u64_max -> content_length (relay_lines m p host n) = n.
Proof.
  intros Hmax. unfold content_length, extract_header. rewrite relay_text_ascii, relay_lines_eq. destruct no_cr as (H1 & H2 & H3).
  rewrite split_crlf_app by done. rewrite split_crlf_app by done. rewrite split_crlf_app by done. cbn [first_some].
  assert (header_value "content-length" request_line = None) as ->.
  { unfold header_value. destruct (split_once ":" request_line) as [[k v]|] eqn:E; [|done]. cbn [mbind option_bind fst snd].
    apply split_once_some in E as [E _]. unfold request_line in E. destruct m as [|c m']; [done|]. destruct k as [|c' k'].
    - reflexivity.
    - injection E as <- _. rewrite visible_cons, andb_true_iff in Hm. destruct Hm as [Hv _].
      destruct (trim_first c k' Hv) as [y Ey]. 
      change ((if eq_ignore_ascii_case (trim (String c k')) "content-length" then Some (trim v) else None) = None). rewrite Ey. cbn [eq_ignore_ascii_case].
      change (to_ascii_lowercase "c") with "c"%char. by rewrite Hc. }
  assert (header_value "content-length" ("Host: " ++s host) = None) as ->.
  { unfold header_value. rewrite (proj2 (split_once_some ":" ("Host: " ++s host) "Host" (" " ++s host)) (conj eq_refl eq_refl)). reflexivity. }
  assert (header_value "content-length" ("Content-Length: " ++s dec n) = Some (dec n)) as ->.
  { unfold header_value. rewrite (proj2 (split_once_some ":" ("Content-Length: " ++s dec n) "Content-Length" (" " ++s dec n)) (conj eq_refl eq_refl)).
    change (Some (trim (" " ++s dec n)) = Some (dec n)). by rewrite trim_visible by (by apply dec_visible). }
  by rewrite parse_uint_dec by lia.
Qed.

(** The whole request is read back, however it arrives. *)
Lemma relay_read rs :
  n = Z.of_nat (String.length body) -> Z.of_nat (String.length (relay_lines m p host n ++s CRLF2 ++s body)) < 2 ^ 64 ->
  (String.length (relay_lines m p host n) + 3 + 1024 <= HEADER_LIMIT)%nat -> brings 1024 rs (relay_lines m p host n ++s CRLF2 ++s body) ->
  exists key tp, read_request rs = Ok (mkRequest m p key tp body).
Proof.
  intros Hbody H64 Hlim Hb. eexists _, _. apply request_arrives; [apply relay_found|apply relay_request_line| |done|done|done].
  rewrite <- Hbody. apply relay_length. rewrite !app_length_s in H64. unfold u64_max. lia.
Qed.
End Relayed.
