(* ===== verification/Metrics.v ===== *)
(** * Metrics (crates/sl-node/src/metrics.rs)

    The counters and the two latency histograms of a replica and their text.  The
    sum of a histogram is a binary64 in the source: it adds whole milliseconds, and
    stays exact below 2^53, where it is modelled as an integer. *)

From Stdlib Require Import ZArith Lia Bool List String Ascii.
From stdpp Require Import base tactics list strings.
From S2P Require Import Prelude RustStr Json.

Open Scope Z_scope.

Definition BUCKETS_MS : list Z := [10; 25; 50; 75; 100; 150; 250; 500; 1000; 2000].

(** One count per bound, and the last for what is above them all. *)
Record Hist : Type := mkHist { h_counts : list Z; h_sum_ms : Z; h_count : Z }.
Definition hist_default : Hist := mkHist (repeat 0 11) 0 0.

Fixpoint bucket_index (bs : list Z) (ms : Z) : nat :=
  match bs with
  | [] => O
  | b :: bs' => if ms <=? b then O else S (bucket_index bs' ms)
  end.

Fixpoint incr_at (i : nat) (l : list Z) : list Z :=
  match l, i with
  | [], _ => []
  | x :: l', O => u64_add x 1 :: l'
  | x :: l', S i' => x :: incr_at i' l'
  end.

Definition hist_observe (ms : Z) (h : Hist) : Hist :=
  mkHist (incr_at (bucket_index BUCKETS_MS ms) (h_counts h)) (h_sum_ms h + ms) (u64_add (h_count h) 1).

Definition nl : string := String "010" "".

Fixpoint render_buckets (name : string) (bs counts : list Z) (cum : Z) : string :=
  match bs, counts with
  | b :: bs', c :: counts' =>
      let cum := u64_add cum c in
      name ++s "_bucket{le=" ++s quoted (dec b) ++s "} " ++s dec cum ++s nl ++s render_buckets name bs' counts' cum
  | _, c :: _ => name ++s "_bucket{le=" ++s quoted "+Inf" ++s "} " ++s dec (u64_add cum c) ++s nl
  | _, [] => ""%string
  end.

Definition hist_render (name help : string) (h : Hist) : string :=
  "# HELP " ++s name ++s " " ++s help ++s nl ++s "# TYPE " ++s name ++s " histogram" ++s nl ++s
  render_buckets name BUCKETS_MS (h_counts h) 0 ++s
  name ++s "_sum " ++s dec (h_sum_ms h) ++s nl ++s name ++s "_count " ++s dec (h_count h) ++s nl.

Record Metrics : Type := mkMetrics {
  me_created : Z;
  me_destroyed : Z;
  me_current : Z;
  me_pool_hits : Z;
  me_pool_misses : Z;
  me_exec_total : Z;
  me_api_total : Z;
  me_api_errors : Z;
  me_create_hist : Hist;
  me_exec_hist : Hist;
  me_node_id : string
}.

Definition metrics_new : Metrics := mkMetrics 0 0 0 0 0 0 0 0 hist_default hist_default "".

Definition record_create (total_ms : Z) (pool_hit : bool) (m : Metrics) : Metrics :=
  mkMetrics (u64_add (me_created m) 1) (me_destroyed m) (i64_add (me_current m) 1)
    (if pool_hit then u64_add (me_pool_hits m) 1 else me_pool_hits m)
    (if pool_hit then me_pool_misses m else u64_add (me_pool_misses m) 1)
    (me_exec_total m) (me_api_total m) (me_api_errors m) (hist_observe total_ms (me_create_hist m)) (me_exec_hist m) (me_node_id m).

Definition record_destroy (m : Metrics) : Metrics :=
  mkMetrics (me_created m) (u64_add (me_destroyed m) 1)
    (if me_current m <=? 0 then 0 else me_current m - 1)
    (me_pool_hits m) (me_pool_misses m) (me_exec_total m) (me_api_total m) (me_api_errors m) (me_create_hist m) (me_exec_hist m)
    (me_node_id m).

Definition record_exec (ms : Z) (m : Metrics) : Metrics :=
  mkMetrics (me_created m) (me_destroyed m) (me_current m) (me_pool_hits m) (me_pool_misses m) (u64_add (me_exec_total m) 1)
    (me_api_total m) (me_api_errors m) (me_create_hist m) (hist_observe ms (me_exec_hist m)) (me_node_id m).

Definition record_api (code : Z) (m : Metrics) : Metrics :=
  mkMetrics (me_created m) (me_destroyed m) (me_current m) (me_pool_hits m) (me_pool_misses m) (me_exec_total m)
    (u64_add (me_api_total m) 1) (if 400 <=? code then u64_add (me_api_errors m) 1 else me_api_errors m)
    (me_create_hist m) (me_exec_hist m) (me_node_id m).

Definition set_metrics_node (id : string) (m : Metrics) : Metrics :=
  mkMetrics (me_created m) (me_destroyed m) (me_current m) (me_pool_hits m) (me_pool_misses m) (me_exec_total m)
    (me_api_total m) (me_api_errors m) (me_create_hist m) (me_exec_hist m) id.

Definition counter (name help : string) (v : Z) : string :=
  "# HELP " ++s name ++s " " ++s help ++s nl ++s "# TYPE " ++s name ++s " counter" ++s nl ++s name ++s " " ++s dec v ++s nl.

(** [dropped] counts the spans the trace exporter gave up. *)
Definition metrics_render (version : string) (dropped : Z) (m : Metrics) : string :=
  counter "sandlocker_sandboxes_created_total" "沙箱创建累计" (me_created m) ++s
  counter "sandlocker_sandboxes_destroyed_total" "沙箱销毁累计" (me_destroyed m) ++s
  counter "sandlocker_pool_hits_total" "池命中累计" (me_pool_hits m) ++s
  counter "sandlocker_pool_misses_total" "池未命中（冷路径）累计" (me_pool_misses m) ++s
  counter "sandlocker_exec_total" "exec 累计" (me_exec_total m) ++s
  counter "sandlocker_api_requests_total" "API 请求累计" (me_api_total m) ++s
  counter "sandlocker_api_errors_total" "API 错误（>=400）累计" (me_api_errors m) ++s
  counter "sandlocker_otlp_spans_dropped_total" "OTLP span 丢弃累计（队列满或导出失败）" dropped ++s
  "# HELP sandlocker_sandboxes_current 当前存活沙箱数" ++s nl ++s "# TYPE sandlocker_sandboxes_current gauge" ++s nl ++s
  "sandlocker_sandboxes_current " ++s dec (Z.max 0 (me_current m)) ++s nl ++s
  (if String.eqb (me_node_id m) "" then ""%string
   else
     "# HELP sandlocker_build_info 本副本身份（值恒为 1，信息在标签上）" ++s nl ++s "# TYPE sandlocker_build_info gauge" ++s nl ++s
     "sandlocker_build_info{node=" ++s quoted (me_node_id m) ++s ",version=" ++s quoted version ++s "} 1" ++s nl) ++s
  hist_render "sandlocker_create_latency_ms" "沙箱创建延迟(ms)" (me_create_hist m) ++s
  hist_render "sandlocker_exec_latency_ms" "exec 延迟(ms)" (me_exec_hist m).

(** ** The histogram counts every observation once *)

(** The number of observations at most [b]. *)
Definition at_most (b : Z) (xs : list Z) : Z := Z.of_nat (length (filter (fun x => x <= b) xs)).

Definition observed (xs : list Z) : Hist := fold_left (fun h x => hist_observe x h) xs hist_default.

(** What the text shows for the k-th bound: the counts up to it. *)
Definition cumulative (k : nat) (h : Hist) : Z := foldr u64_add 0 (take (S k) (h_counts h)).

Lemma incr_length i l : length (incr_at i l) = length l.
Proof. revert i. induction l as [|x l IH]; intros [|i]; simpl; [done..|by rewrite IH]. Qed.

Lemma foldr_u64 (l : list Z) : foldr u64_add 0 l = as_u64 (foldr Z.add 0 l).
Proof.
  induction l as [|x l IH]; [done|]. cbn [foldr]. rewrite IH. unfold u64_add, as_u64. by rewrite Z.add_mod_idemp_r by lia.
Qed.

Lemma foldr_incr i l k : (i < length l)%nat ->
  as_u64 (foldr Z.add 0 (take k (incr_at i l))) = as_u64 (foldr Z.add 0 (take k l) + (if (i <? k)%nat then 1 else 0)).
Proof.
  revert i k. induction l as [|x l IH]; intros i k Hi; simpl in Hi; [lia|]. destruct k as [|k]; [done|]. destruct i as [|i]; cbn [incr_at take foldr].
  - unfold u64_add, as_u64. rewrite Z.add_mod_idemp_l by lia. f_equal. simpl. lia.
  - specialize (IH i k ltac:(lia)). unfold as_u64 in *. rewrite <- Z.add_mod_idemp_r, IH, Z.add_mod_idemp_r by lia.
    f_equal. change (S i <? S k)%nat with (i <? k)%nat. lia.
Qed.

Lemma bucket_le bs ms k b : Sorted.StronglySorted Z.le bs -> bs !! k = Some b -> (bucket_index bs ms <? S k)%nat = (ms <=? b).
Proof.
  revert k. induction bs as [|c bs IH]; intros k Hs Hk; [done|]. inversion Hs as [|? ? Hs' Hf]; subst. cbn [bucket_index].
  destruct k as [|k]; simpl in Hk.
  - injection Hk as ->. destruct (Z.leb_spec ms b); [done|]. by destruct (bucket_index bs ms).
  - destruct (Z.leb_spec ms c) as [Hl|Hl].
    + symmetry. apply Z.leb_le. rewrite List.Forall_forall in Hf. specialize (Hf b). apply list_elem_of_lookup_2, list_elem_of_In, Hf in Hk. lia.
    + change (S (bucket_index bs ms) <? S (S k))%nat with (bucket_index bs ms <? S k)%nat. by apply IH.
Qed.

Lemma buckets_sorted : Sorted.StronglySorted Z.le BUCKETS_MS.
Proof. repeat constructor; lia. Qed.

Lemma bucket_index_bound bs ms : (bucket_index bs ms <= length bs)%nat.
Proof. induction bs as [|b bs IH]; simpl; [done|]. destruct (ms <=? b); lia. Qed.

Lemma observed_snoc xs x : observed (xs ++ [x]) = hist_observe x (observed xs).
Proof. unfold observed. by rewrite fold_left_app. Qed.

Lemma observed_length xs : length (h_counts (observed xs)) = 11%nat.
Proof. induction xs as [|x xs IH] using rev_ind; [done|]. rewrite observed_snoc. simpl. by rewrite incr_length. Qed.

(**  the histogram says how many were at most each bound.  After any observations,
    the count shown for a bound is the number of them that are at most the bound, on
    64 bits, and the total is their number. *)
Theorem histogram_exact (xs : list Z) (k : nat) (b : Z) :
  BUCKETS_MS !! k = Some b ->
  cumulative k (observed xs) = as_u64 (at_most b xs) /\ h_count (observed xs) = as_u64 (Z.of_nat (length xs)) /\
  h_sum_ms (observed xs) = foldr Z.add 0 xs.
Proof.
  intros Hk. unfold cumulative. rewrite foldr_u64. induction xs as [|x xs (I1 & I2 & I3)] using rev_ind; [split; [|done]; revert Hk; do 11 (destruct k as [|k]; [done|]); done|].
  rewrite observed_snoc. unfold hist_observe. cbn [h_counts h_count h_sum_ms]. split; [|split].
  - rewrite foldr_incr; [|rewrite observed_length; pose proof (bucket_index_bound BUCKETS_MS x); simpl in *; lia].
    rewrite (bucket_le _ _ _ b) by (done || apply buckets_sorted). unfold at_most in *. rewrite filter_app, length_app, Nat2Z.inj_add.
    unfold as_u64 in *. rewrite <- Z.add_mod_idemp_l, I1, Z.add_mod_idemp_l by lia. f_equal. f_equal. rewrite filter_cons, filter_nil.
    destruct (Z.leb_spec x b); case_decide; simpl; lia.
  - rewrite I2, length_app. unfold u64_add, as_u64. rewrite Z.add_mod_idemp_l by lia. f_equal. simpl. lia.
  - rewrite I3, foldr_app. simpl. clear. induction xs as [|y xs IH]; simpl in *; lia.
Qed.

Lemma histogram_exact_witness : cumulative 3 (observed [5; 60; 3000]) = 2 /\ h_count (observed [5; 60; 3000]) = 3.
Proof. destruct (histogram_exact [5; 60; 3000] 3 75) as (H1 & H2 & _); [reflexivity|]. split; [exact H1|exact H2]. Defined.
