(* ===== verification/Routes.v ===== *)
(** * Routes of the REST API (crates/sl-node/src/api.rs)

    From a method and a path to a route, and what a route asks for: the operation a
    key has to allow, the sandbox it is about, its name in the audit log and in
    traces, and the ticket that carries it to the node that owns the sandbox. *)

From Stdlib Require Import ZArith Lia Bool List String Ascii.
From stdpp Require Import base tactics list gmap strings.
From S2P Require Import Prelude RustStr Utf8 Json Store Auth Quota Backend Text Gateway.

Open Scope Z_scope.

Inductive Route : Type :=
| CreateSandbox
| ListSandboxes
| GetSandbox (id : string)
| DeleteSandbox (id : string)
| Keepalive (id : string)
| Pause (id : string)
| Resume (id : string)
| Fork (id : string)
| TicketRoute (id : string)
| Expose (id : string)
| Unexpose (id : string) (port : Z)
| ListExposes (id : string)
| ExecRoute (id : string)
| PutFile (id path : string)
| GetFile (id path : string)
| Logs (id : string)
| ListTemplates
| BuildTemplate
| ListBackends
| AuditRoute
| MetricsRoute
| NotFound.

#[global] Instance Route_eq_dec : EqDecision Route.
Proof. solve_decision. Defined.

Definition required_op (r : Route) : option Op :=
  match r with
  | ListSandboxes | GetSandbox _ | Logs _ | ListExposes _ | GetFile _ _ | ListTemplates | ListBackends | AuditRoute => Some OpRead
  | BuildTemplate => Some OpBuild
  | CreateSandbox | DeleteSandbox _ | Keepalive _ | Pause _ | Resume _ | Fork _ | TicketRoute _ | Expose _ | Unexpose _ _
  | ExecRoute _ | PutFile _ _ => Some OpWrite
  | MetricsRoute | NotFound => None
  end.

Definition audit_action (r : Route) : string :=
  match r with
  | CreateSandbox => "create_sandbox"
  | DeleteSandbox _ => "delete_sandbox"
  | Keepalive _ => "keepalive"
  | Pause _ => "pause"
  | Resume _ => "resume"
  | Fork _ => "fork"
  | TicketRoute _ => "mint_ticket"
  | Expose _ => "expose"
  | Unexpose _ _ => "unexpose"
  | ExecRoute _ => "exec"
  | PutFile _ _ => "put_file"
  | BuildTemplate => "build_template"
  | _ => "other"
  end.

Definition sandbox_id (r : Route) : option string :=
  match r with
  | GetSandbox id | DeleteSandbox id | Keepalive id | Pause id | Resume id | Fork id | TicketRoute id | Expose id
  | Unexpose id _ | ListExposes id | ExecRoute id | Logs id | PutFile id _ | GetFile id _ => Some id
  | _ => None
  end.

(** [path.split('?').next()] *)
Definition before_query (path : string) : string := match split "?" path with p :: _ => p | [] => path end.

(** [trim_matches('/')] *)
Definition trim_slashes (s : string) : string :=
  let s := repeat_strip (String.length s) (strip_prefix "/") s in
  repeat_strip (String.length s) (strip_suffix "/") s.

Definition segments (path : string) : list string :=
  let trimmed := trim_slashes (before_query path) in
  if String.eqb trimmed "" then [] else split "/" trimmed.

Definition parse_route (method path : string) : Route :=
  let meth := String.eqb method in
  match segments path with
  | [a] => if meth "GET" && String.eqb a "metrics" then MetricsRoute else NotFound
  | [v; a] =>
      if negb (String.eqb v "v1") then NotFound
      else if meth "POST" && String.eqb a "sandboxes" then CreateSandbox
      else if meth "GET" && String.eqb a "sandboxes" then ListSandboxes
      else if meth "GET" && String.eqb a "templates" then ListTemplates
      else if meth "GET" && String.eqb a "backends" then ListBackends
      else if meth "GET" && String.eqb a "audit" then AuditRoute
      else if meth "POST" && String.eqb a "templates:build" then BuildTemplate
      else NotFound
  | [v; a; id] =>
      if negb (String.eqb v "v1" && String.eqb a "sandboxes") then NotFound
      else if meth "GET" then GetSandbox id
      else if meth "DELETE" then DeleteSandbox id
      else NotFound
  | [v; a; id; op] =>
      if negb (String.eqb v "v1" && String.eqb a "sandboxes") then NotFound
      else if meth "POST" then
        (if String.eqb op "keepalive" then Keepalive id
         else if String.eqb op "pause" then Pause id
         else if String.eqb op "resume" then Resume id
         else if String.eqb op "fork" then Fork id
         else if String.eqb op "ticket" then TicketRoute id
         else if String.eqb op "expose" then Expose id
         else if String.eqb op "exec" then ExecRoute id
         else NotFound)
      else if meth "GET" then
        (if String.eqb op "exposes" then ListExposes id
         else if String.eqb op "logs" then Logs id
         else NotFound)
      else NotFound
  | v :: a :: id :: op :: rest =>
      if negb (String.eqb v "v1" && String.eqb a "sandboxes") then NotFound
      else if String.eqb op "expose" then
        match rest with
        | [gp] => if meth "DELETE" then match parse_uint (2 ^ 32 - 1) gp with Some p => Unexpose id p | None => NotFound end else NotFound
        | _ => NotFound
        end
      else if String.eqb op "files" then
        (if meth "PUT" then PutFile id (join "/" rest)
         else if meth "GET" then GetFile id (join "/" rest)
         else NotFound)
      else NotFound
  | [] => NotFound
  end.

Definition parse_exec_stream (method path : string) : option string :=
  if negb (String.eqb method "POST") then None
  else
    match segments path with
    | [v; a; id; e; s] =>
        if String.eqb v "v1" && String.eqb a "sandboxes" && String.eqb e "exec" && String.eqb s "stream" then Some id else None
    | _ => None
    end.

(** The action, the method, the signed port and the rest of the query. *)
Definition forwardable_route (r : Route) : option (Action * string * Z * string) :=
  match r with
  | ExecRoute _ => Some (AExec, "POST", 0, "")
  | Logs _ => Some (ALogs, "GET", 0, "")
  | GetFile _ p => Some (AFile, "GET", 0, "&p=" ++s p)
  | PutFile _ p => Some (AFile, "PUT", 0, "&p=" ++s p)
  | Pause _ => Some (APause, "POST", 0, "")
  | Resume _ => Some (AResume, "POST", 0, "")
  | Fork _ => Some (AFork, "POST", 0, "")
  | DeleteSandbox _ => Some (ADestroy, "DELETE", 0, "")
  | Keepalive _ => Some (AKeepalive, "POST", 0, "")
  | Expose _ => Some (AExpose, "POST", 0, "")
  | Unexpose _ gp => Some (AUnexpose, "DELETE", gp, "")
  | ListExposes _ => Some (AExposes, "GET", 0, "")
  | _ => None
  end%string.

Definition route_name (r : Route) : string :=
  match r with
  | CreateSandbox => "/v1/sandboxes"
  | ListSandboxes => "/v1/sandboxes"
  | GetSandbox _ => "/v1/sandboxes/{id}"
  | DeleteSandbox _ => "/v1/sandboxes/{id}"
  | Keepalive _ => "/v1/sandboxes/{id}/keepalive"
  | Pause _ => "/v1/sandboxes/{id}/pause"
  | Resume _ => "/v1/sandboxes/{id}/resume"
  | Fork _ => "/v1/sandboxes/{id}/fork"
  | TicketRoute _ => "/v1/sandboxes/{id}/ticket"
  | Expose _ => "/v1/sandboxes/{id}/expose"
  | Unexpose _ _ => "/v1/sandboxes/{id}/expose/{port}"
  | ListExposes _ => "/v1/sandboxes/{id}/exposes"
  | ExecRoute _ => "/v1/sandboxes/{id}/exec"
  | PutFile _ _ | GetFile _ _ => "/v1/sandboxes/{id}/files/{path}"
  | Logs _ => "/v1/sandboxes/{id}/logs"
  | ListTemplates => "/v1/templates"
  | BuildTemplate => "/v1/templates:build"
  | ListBackends => "/v1/backends"
  | AuditRoute => "/v1/audit"
  | MetricsRoute => "/metrics"
  | NotFound => "unknown"
  end.

Definition quota_status (e : string) : Z :=
  if starts_with QUOTA_EXCEEDED e then 429
  else if starts_with UNSUPPORTED_BY_BACKEND e then 409
  else 400.

(** ** A route has a path *)

(** The request a client makes for a route. *)
Definition route_request (r : Route) : option (string * list string) :=
  match r with
  | CreateSandbox => Some ("POST", ["v1"; "sandboxes"])
  | ListSandboxes => Some ("GET", ["v1"; "sandboxes"])
  | ListTemplates => Some ("GET", ["v1"; "templates"])
  | ListBackends => Some ("GET", ["v1"; "backends"])
  | AuditRoute => Some ("GET", ["v1"; "audit"])
  | MetricsRoute => Some ("GET", ["metrics"])
  | BuildTemplate => Some ("POST", ["v1"; "templates:build"])
  | GetSandbox id => Some ("GET", ["v1"; "sandboxes"; id])
  | DeleteSandbox id => Some ("DELETE", ["v1"; "sandboxes"; id])
  | Keepalive id => Some ("POST", ["v1"; "sandboxes"; id; "keepalive"])
  | Pause id => Some ("POST", ["v1"; "sandboxes"; id; "pause"])
  | Resume id => Some ("POST", ["v1"; "sandboxes"; id; "resume"])
  | Fork id => Some ("POST", ["v1"; "sandboxes"; id; "fork"])
  | TicketRoute id => Some ("POST", ["v1"; "sandboxes"; id; "ticket"])
  | Expose id => Some ("POST", ["v1"; "sandboxes"; id; "expose"])
  | Unexpose id p => Some ("DELETE", ["v1"; "sandboxes"; id; "expose"; dec p])
  | ListExposes id => Some ("GET", ["v1"; "sandboxes"; id; "exposes"])
  | ExecRoute id => Some ("POST", ["v1"; "sandboxes"; id; "exec"])
  | Logs id => Some ("GET", ["v1"; "sandboxes"; id; "logs"])
  | PutFile id p => Some ("PUT", "v1" :: "sandboxes" :: id :: "files" :: split "/" p)
  | GetFile id p => Some ("GET", "v1" :: "sandboxes" :: id :: "files" :: split "/" p)
  | NotFound => None
  end%string.

(** A segment: not empty, and without the characters that end one. *)
Definition segment_ok (s : string) : bool :=
  negb (String.eqb s "") && negb (contains_char "/" s) && negb (contains_char "?" s).

Definition path_of (segs : list string) : string := "/" ++s join "/" segs.

Definition route_ok (r : Route) : Prop :=
  match r with Unexpose _ p => 0 <= p < 2 ^ 32 | _ => True end /\
  match route_request r with Some (_, segs) => forallb segment_ok segs = true | None => True end.

Lemma segment_ok_spec s : segment_ok s = true ->
  s <> ""%string /\ contains_char "/" s = false /\ contains_char "?" s = false.
Proof.
  unfold segment_ok. rewrite !andb_true_iff, !negb_true_iff. intros [[H1 H2] H3]. split; [by apply String.eqb_neq|done].
Qed.

Lemma join_no_char c segs : c <> "/"%char -> forallb (fun s => negb (contains_char c s)) segs = true -> contains_char c (join "/" segs) = false.
Proof.
  intros Hc. induction segs as [|s segs IH]; [done|]. cbn [forallb]. intros [H1 H2]%andb_true_iff. apply negb_true_iff in H1.
  destruct segs as [|t segs]; [done|]. change (join "/" (s :: t :: segs)) with (s ++s String "/" (join "/" (t :: segs))).
  rewrite contains_char_app, H1. cbn [contains_char orb]. rewrite IH by done. apply orb_false_iff. split; [|done]. by apply Ascii.eqb_neq.
Qed.

Lemma repeat_strip_none n strip s : strip s = None -> repeat_strip n strip s = s.
Proof. intros E. destruct n; simpl; [done|]. by rewrite E. Qed.

Lemma split_app_char c r : split c (r ++s String c "") = split c r ++ [""%string].
Proof.
  induction r as [|d r IH]; simpl; [by rewrite Ascii.eqb_refl|]. destruct (Ascii.eqb d c); [by rewrite IH|]. rewrite IH.
  pose proof (split_nonempty c r). by destruct (split c r).
Qed.

(** The segments of a path made of segments are these. *)
Lemma segments_path segs : segs <> [] -> forallb segment_ok segs = true -> segments (path_of segs) = segs.
Proof.
  intros Hne Hf. rewrite forallb_forall in Hf.
  assert (forall s, In s segs -> s <> ""%string /\ contains_char "/" s = false /\ contains_char "?" s = false) as Hs
    by (intros s Hin; by apply segment_ok_spec, Hf).
  assert (split "/" (join "/" segs) = segs) as Hj by (apply split_join; [done|]; apply Forall_forall; intros s Hin; by apply Hs, list_elem_of_In).
  assert (contains_char "?" (join "/" segs) = false) as Hq.
  { apply join_no_char; [done|]. apply forallb_forall. intros s Hin. apply Hs in Hin as (_ & _ & ->). done. }
  unfold segments, before_query, path_of. rewrite split_no_sep by done. unfold trim_slashes.
  assert (strip_prefix "/" (join "/" segs) = None) as Hp.
  { destruct (strip_prefix "/" (join "/" segs)) as [r|] eqn:E; [|done]. apply strip_prefix_some in E. rewrite E in Hj. simpl in Hj.
    destruct segs as [|s segs]; [done|]. injection Hj as Hj _. destruct (Hs s); [by left|]. by subst. }
  assert (strip_suffix "/" (join "/" segs) = None) as Hx.
  { destruct (strip_suffix "/" (join "/" segs)) as [r|] eqn:E; [|done]. apply strip_suffix_some in E. rewrite E, split_app_char in Hj.
    assert (In ""%string segs) as Hin by (rewrite <- Hj; apply in_or_app; right; by left). by destruct (Hs _ Hin). }
  cbn [String.append String.length repeat_strip]. change (strip_prefix "/" (String "/" (join "/" segs))) with (Some (join "/" segs)).
  cbv beta iota zeta. rewrite (repeat_strip_none _ _ _ Hp), (repeat_strip_none _ _ _ Hx).
  destruct (String.eqb_spec (join "/" segs) "") as [E|_]; [|done]. rewrite E in Hj. simpl in Hj. destruct (Hs ""%string); [|done]. rewrite <- Hj. by left.
Qed.

(**  every route is reached by its path.  For every route whose parts can be segments
    of a path, the method and the path a client uses for it parse to that route, with
    the sandbox, the file and the port they name. *)
Theorem route_roundtrip (r : Route) (method : string) (segs : list string) :
  route_request r = Some (method, segs) -> route_ok r -> parse_route method (path_of segs) = r.
Proof.
  intros Hr [Hp Hok]. rewrite Hr in Hok. assert (segs <> []) as Hne by (destruct r; try discriminate Hr; by injection Hr as <- <-).
  unfold parse_route. rewrite segments_path by done. destruct r; try discriminate Hr; injection Hr as <- <-; try reflexivity.
  - cbn. rewrite parse_uint_dec by lia. done.
  - pose proof (split_nonempty "/" path) as Hs. pose proof (join_split "/" path) as Hj. destruct (split "/" path) as [|x l]; [done|]. rewrite <- Hj. reflexivity.
  - pose proof (split_nonempty "/" path) as Hs. pose proof (join_split "/" path) as Hj. destruct (split "/" path) as [|x l]; [done|]. rewrite <- Hj. reflexivity.
Qed.

Lemma route_roundtrip_witness : parse_route "DELETE" "/v1/sandboxes/ab12/expose/8080" = Unexpose "ab12" 8080.
Proof.
  apply (route_roundtrip (Unexpose "ab12" 8080) "DELETE" ["v1"; "sandboxes"; "ab12"; "expose"; "8080"]%string).
  - vm_compute. reflexivity.
  - split; [lia|]. vm_compute. reflexivity.
Defined.
