(* ===== verification/Api.v ===== *)
(** * The REST API (crates/sl-node/src/api.rs)

    What happens between a request and its response: authorisation against the key
    table and the project of the sandbox, placement of a creation, forwarding to the
    node that owns the sandbox, the handlers over the orchestrator, the exposed ports
    and the data plane, audit and metrics; and the same handlers behind a verified
    ticket.  The state is the orchestrator with the store the keys and the audit log
    live in too, the audit sequence, the exposed ports, the metrics and the events
    handed to the log sink.  Trace spans are left out: they carry no state a request
    depends on. *)

From Stdlib Require Import ZArith Lia Bool List String Ascii.
From stdpp Require Import base tactics list gmap strings.
From S2P Require Import Prelude RustStr Utf8 Json Store Auth Quota Sched AuditLog Proto Snapcrypt Backend Orch Gateway Cluster Text Base64 Http Metrics Routes.

Open Scope Z_scope.

(** What the API uses of serde_json besides reading fields: the members of an object in
    key order, the elements of an array, a string as a literal, and the text of a
    parse error. *)
Class ApiJson `{SerdeJson} : Type := {
  vas_object : Value -> option (list (string * Value));
  vas_array : Value -> option (list Value);
  json_literal : string -> string;
  slice_error : string -> string
}.

Record ExposeHandle : Type := mkExpose { x_host_port : Z; x_bind : string; x_guest_port : Z }.

Record Api (S B : Type) : Type := mkApi {
  ap_orch : Orch.Orch S B;
  ap_seq : Z;
  ap_exposes : gmap string (gmap Z ExposeHandle);
  ap_metrics : Metrics;
  ap_sink : list string
}.
Arguments mkApi {S B}.
Arguments ap_orch {S B}.
Arguments ap_seq {S B}.
Arguments ap_exposes {S B}.
Arguments ap_metrics {S B}.
Arguments ap_sink {S B}.

(** The cluster identity of a replica. *)
Record Remote : Type := mkRemote { rt_node_id : string; rt_gw_url : option string; rt_sched : Policy }.

(** What does not change while the daemon serves. *)
Record ApiConfig : Type := mkApiConfig {
  ac_require : bool;
  ac_template_root : string;
  ac_allow_public : bool;
  ac_gateway : Gateway.Gateway;
  ac_remote : Remote;
  ac_version : string
}.

(** The start of a streamed command: the connection, the request, the answer and the
    frames that follow it. *)
Inductive StreamStart : Type :=
| NotConnected (e : string)
| NotSent (e : string)
| NoAnswer (e : string)
| Answered (r : Response) (frames : list string).

(** What a request finds outside: the clock, random bytes, files, guests, sockets and
    the gateway. *)
Record ApiEnv : Type := mkApiEnv {
  en_now : Z;
  en_host : Host;
  en_fresh : string;
  en_nonce : string;
  en_ticket : string;
  en_exec : ExecTarget -> string -> result (Z * string * string) string;
  en_exec_ms : Z;
  en_read : string -> result string string;
  en_listen : string -> Z -> result Z string;
  en_stream : string -> string -> StreamStart;
  en_proxy : string -> Z -> string -> result string string;
  en_relay : string -> string -> string -> result Reads string;
  en_traceparent : string;
  en_dropped : Z
}.

(** A response: its status, content type and body. *)
Definition Response3 : Type := Z * string * string.
Definition JSON : string := "application/json".
Definition failed (code : Z) (e : string) : Response3 := (code, JSON, err_json e).

Section Api.
Context (Sha256 : string -> string) {S B : Type} `{Store S} `{SandboxBackend B} `{ApiJson}.
Context (cfg : ApiConfig) (env : ApiEnv).

Notation A := (Api S B).
Notation AM := (M A string).

Definition set_orch (o : Orch.Orch S B) (a : A) : A := mkApi o (ap_seq a) (ap_exposes a) (ap_metrics a) (ap_sink a).
Definition on_orch {T} (m : M (Orch.Orch S B) string T) : AM T := fun a =>
  let '(r, o) := m (ap_orch a) in (r, set_orch o a).
Definition ask_orch {T} (f : Orch.Orch S B -> T) : AM T := fun a => (Ok (f (ap_orch a)), a).
Definition metric (f : Metrics -> Metrics) : AM unit := fun a =>
  (Ok tt, mkApi (ap_orch a) (ap_seq a) (ap_exposes a) (f (ap_metrics a)) (ap_sink a)).
Definition sink_emit (e : string) : AM unit := fun a =>
  (Ok tt, mkApi (ap_orch a) (ap_seq a) (ap_exposes a) (ap_metrics a) (ap_sink a ++ [e])).
Definition set_exposes (x : gmap string (gmap Z ExposeHandle)) : AM unit := fun a =>
  (Ok tt, mkApi (ap_orch a) (ap_seq a) x (ap_metrics a) (ap_sink a)).
Definition or_fail {T} (o : option T) (e : string) : AM T := match o with Some v => mret v | None => mfail e end.
Definition lift {T} (r : result T string) : AM T := match r with Ok v => mret v | Err e => mfail e end.

(** A handler's answer as a response. *)
Definition answer {T} (m : AM T) (ok : T -> Response3) (err : string -> Response3) : AM Response3 :=
  let? r := mtry m in mret (match r with Ok v => ok v | Err e => err e end).

(** ** Authorisation *)

(** The project of the caller, none when keys are not required. *)
Definition authorize (op : Op) (sid key : option string) : M A (Z * string) (option string) :=
  if negb (ac_require cfg) then mret None
  else
    match key with
    | None => mfail (401, err_json "缺 API Key（Authorization: Bearer <token> 或 X-API-Key）")
    | Some key =>
        let? r := fun a => let '(r, a') := on_orch (on_store (lookup_key Sha256 key)) a in (Ok r, a') in
        match r with
        | Err e => mfail (500, err_json e)
        | Ok None => mfail (401, err_json "API Key 无效")
        | Ok (Some rec) =>
            if negb (allows (k_scope rec) op) then
              mfail (403, err_json ("作用域不足：" ++s scope_as_str (k_scope rec) ++s " 不允许该操作"))
            else
              match sid with
              | None => mret (Some (k_project rec))
              | Some id =>
                  let? p := fun a => let '(r, a') := on_orch (sandbox_project id) a in (Ok r, a') in
                  match p with
                  | Err e => mfail (500, err_json e)
                  | Ok (Some p) => if String.eqb p (k_project rec) then mret (Some (k_project rec)) else mfail (403, err_json "跨项目访问被拒")
                  | Ok None => mfail (404, err_json "未知沙箱")
                  end
              end
        end
    end.

(** ** Handlers *)

Definition body_json (body : string) : AM Value := or_fail (from_slice body) ("请求体非 JSON: " ++s slice_error body).
Definition or_braces (body : string) : string := if String.eqb body "" then "{}"%string else body.

Definition get_i64 (v : Value) (k : string) (d : Z) : Z := default d (vget v k ≫= vas_i64).
Definition get_text (v : Value) (k : string) : option string := vget v k ≫= vas_str.

(** [Path::join] *)
Definition path_join (d p : string) : string := if starts_with "/" p then p else d ++s "/" ++s p.

Definition resolve_template (name : string) : AM string :=
  let? latest := on_orch (store_get ("template/" ++s name ++s "/latest")) in
  match latest with
  | None => mfail ("模板未注册: " ++s name ++s "（先 `sandlocker build`）")
  | Some latest =>
      let version := trim (from_utf8_lossy latest) in
      let dir := path_join (path_join (ac_template_root cfg) name) version in
      if negb (is_dir (en_host env) dir) then mfail ("模板目录缺失: " ++s dir) else mret dir
  end.

Definition metadata_of (v : Value) : list (string * string) :=
  match vget v "env" ≫= vas_object with
  | Some fields => omap (fun '(k, x) => (fun s => (k, s)) <$> vas_str x) fields
  | None => []
  end.

Definition network_of (v : Value) : result NetworkMode string :=
  match get_text v "network" with
  | None => Ok NoNetwork
  | Some n =>
      if String.eqb n "none" then Ok NoNetwork
      else if String.eqb n "egress" then Ok Egress
      else Err ("network 取值 none|egress，得到 " ++s debug_str n)
  end.

Definition spec_of (v : Value) : result SandboxSpec string :=
  let ttl := get_i64 v "ttl" 300 in
  match (match vget v "required_capabilities" ≫= vas_array with
         | Some arr => from_names (omap vas_str arr)
         | None => Ok caps_empty
         end) with
  | Err e => Err e
  | Ok required =>
      match network_of v with
      | Err e => Err e
      | Ok network =>
          Ok (mkSpec (as_u32 (get_i64 v "cpu" 2)) (as_u32 (get_i64 v "mem" 512)) ttl (get_i64 v "idle" ttl)
                (metadata_of v) required (get_text v "backend") network)
      end
  end.

Definition bool_text (b : bool) : string := if b then "true" else "false".

Definition created_json (name : string) (out : CreateOutcome) : string :=
  "{" ++s quoted "id" ++s ":" ++s quoted (co_id out) ++s "," ++s quoted "state" ++s ":" ++s quoted "running" ++s "," ++s
  quoted "machine_id" ++s ":" ++s quoted (co_machine_id out) ++s "," ++s quoted "template" ++s ":" ++s quoted name ++s "," ++s
  quoted "total_ms" ++s ":" ++s dec (co_total_ms out) ++s "," ++s quoted "copy_ms" ++s ":" ++s dec (co_copy_ms out) ++s "," ++s
  quoted "api_ready_ms" ++s ":" ++s dec (co_api_ready_ms out) ++s "," ++s quoted "load_ms" ++s ":" ++s dec (co_load_ms out) ++s "," ++s
  quoted "resume_ms" ++s ":" ++s dec (co_resume_ms out) ++s "," ++s quoted "pool_hit" ++s ":" ++s bool_text (co_pool_hit out) ++s "," ++s
  quoted "hot_hit" ++s ":" ++s bool_text (co_hot_hit out) ++s "}".

Definition create_event (project : option string) (out : CreateOutcome) : string :=
  "{" ++s quoted "event" ++s ":" ++s quoted "sandbox_create" ++s "," ++s quoted "id" ++s ":" ++s quoted (co_id out) ++s "," ++s
  quoted "project" ++s ":" ++s quoted (default "-"%string project) ++s "," ++s quoted "total_ms" ++s ":" ++s dec (co_total_ms out) ++s "," ++s
  quoted "copy_ms" ++s ":" ++s dec (co_copy_ms out) ++s "," ++s quoted "load_ms" ++s ":" ++s dec (co_load_ms out) ++s "," ++s
  quoted "resume_ms" ++s ":" ++s dec (co_resume_ms out) ++s "," ++s quoted "pool_hit" ++s ":" ++s
  bool_text (co_pool_hit out || co_hot_hit out) ++s "}".

Definition tag (id : string) (project : option string) : AM unit :=
  match project with Some p => on_orch (tag_project id p) | None => mret tt end.

Definition create_sandbox (body : string) (project : option string) : AM string :=
  let? v := body_json body in
  let? name := or_fail (get_text v "template") "缺 template 字段" in
  let? spec := lift (spec_of v) in
  let? _ := on_orch (check_quota project (sp_vcpus spec) (sp_mem_mib spec)) in
  let? dir := resolve_template name in
  let? out := on_orch (create_in (en_host env) (en_now env) dir spec) in
  let? _ := metric (record_create (co_total_ms out) (co_pool_hit out || co_hot_hit out)) in
  let? _ := sink_emit (create_event project out) in
  let? _ := tag (co_id out) project in
  mret (created_json name out).

Definition forked_json (out : CreateOutcome) : string :=
  "{" ++s quoted "id" ++s ":" ++s quoted (co_id out) ++s "," ++s quoted "state" ++s ":" ++s quoted "running" ++s "," ++s
  quoted "machine_id" ++s ":" ++s quoted (co_machine_id out) ++s "," ++s quoted "forked_from" ++s ":" ++s
  quoted (default ""%string (co_forked_from out)) ++s "," ++s quoted "total_ms" ++s ":" ++s dec (co_total_ms out) ++s "," ++s
  quoted "copy_ms" ++s ":" ++s dec (co_copy_ms out) ++s "}".

Definition fork_sandbox (id body : string) (project : option string) : AM string :=
  let? v := body_json (or_braces body) in
  let ttl := get_i64 v "ttl" 300 in
  let spec := mkSpec (sp_vcpus default_spec) (sp_mem_mib default_spec) ttl (get_i64 v "idle" ttl) (sp_metadata default_spec)
                (sp_required default_spec) (sp_backend default_spec) (sp_network default_spec) in
  let? _ := on_orch (check_quota project (sp_vcpus spec) (sp_mem_mib spec)) in
  let? out := on_orch (Orch.fork (en_host env) (en_now env) (en_fresh env) (en_nonce env) id spec) in
  let? _ := metric (record_create (co_total_ms out) (co_pool_hit out || co_hot_hit out)) in
  let? _ := tag (co_id out) project in
  mret (forked_json out).

Definition mint_ticket (id body : string) : AM string :=
  let? v := body_json (or_braces body) in
  let? action := or_fail (get_text v "action" ≫= action_from_str) "缺/非法 action（exec|file|logs|port）" in
  if is_control action then mfail ("action=" ++s action_as_str action ++s " 是控制面动作，不签发 ticket（请用对应 /v1 端点）")
  else
    let port := as_u32 (get_i64 v "port" 0) in
    let ttl := get_i64 v "ttl" 300 in
    mret ("{" ++s quoted "url" ++s ":" ++s quoted (mint Sha256 (ac_gateway cfg) (en_ticket env) id action port ttl (en_now env)) ++s "}").

Definition expose_json (h : ExposeHandle) (guest_port : Z) : string :=
  "{" ++s quoted "url" ++s ":" ++s quoted ("http://" ++s x_bind h ++s ":" ++s dec (x_host_port h) ++s "/") ++s "," ++s
  quoted "bind" ++s ":" ++s quoted (x_bind h) ++s "," ++s quoted "host_port" ++s ":" ++s dec (x_host_port h) ++s "," ++s
  quoted "guest_port" ++s ":" ++s dec guest_port ++s "}".

Definition exposed (id : string) (a : A) : gmap Z ExposeHandle := default ∅ (ap_exposes a !! id).

Definition is_loopback (bind : string) : bool := String.eqb bind "127.0.0.1" || String.eqb bind "localhost" || String.eqb bind "::1".

Definition unknown_or_gone : string := "未知沙箱或已回收".

(** Up to the start of the listener: its handle, and whether it was there already. *)
Definition expose_begin (id body : string) : AM (bool * Z * ExposeHandle) :=
  let? v := body_json (or_braces body) in
  let? port := or_fail (vget v "port" ≫= vas_u64) "缺/非法 port" in
  let guest_port := as_u32 port in
  let host_port := as_u16 (default 0 (vget v "host_port" ≫= vas_u64)) in
  let bind := default "127.0.0.1"%string (get_text v "bind") in
  let? there := fun a => (Ok (exposed id a !! guest_port), a) in
  match there with
  | Some h => mret (true, guest_port, h)
  | None =>
      if negb (is_loopback bind) && negb (ac_allow_public cfg) then
        mfail ("bind=" ++s bind ++s " 为非回环地址，纯 L4 透传无鉴权；如确需对外暴露，守护须带 --expose-allow-public")
      else
        let? tgt := ask_orch (exec_target id) in
        let? tgt := or_fail tgt unknown_or_gone in
        match tgt with
        | Vsock _ =>
            let? actual := lift (en_listen env bind host_port) in
            mret (false, guest_port, mkExpose actual bind guest_port)
        | Runsc _ _ _ => mfail "端口暴露仅 FC 后端（vsock）支持"
        end
  end.

(** The entry in the registry, under its own lock. *)
Definition expose_end (id : string) (x : bool * Z * ExposeHandle) : AM string :=
  let '(there, guest_port, h) := x in
  let? _ := if there then mret tt else fun a => set_exposes (<[id := <[guest_port := h]> (exposed id a)]> (ap_exposes a)) a in
  mret (expose_json h guest_port).

Definition expose_port (id body : string) : AM string :=
  let? x := expose_begin id body in expose_end id x.

(** The listeners of a sandbox are stopped and forgotten. *)
Definition drop_exposes (id : string) : AM unit := fun a => set_exposes (delete id (ap_exposes a)) a.

Fixpoint join_commas (l : list string) : string :=
  match l with [] => ""%string | [x] => x | x :: l' => x ++s "," ++s join_commas l' end.
Definition json_array (l : list string) : string := "[" ++s join_commas l ++s "]".

(** [iter]: the order of the values of a hash map. *)
Definition list_exposes (iter : gmap Z ExposeHandle -> list ExposeHandle) (id : string) (a : A) : string :=
  json_array (map (fun h => expose_json h (x_guest_port h)) (iter (exposed id a))).

Definition unexpose (id : string) (gp : Z) : AM Response3 := fun a =>
  match exposed id a !! gp with
  | Some _ => (Ok (204, JSON, ""%string), (set_exposes (<[id := delete gp (exposed id a)]> (ap_exposes a)) a).2)
  | None => (Ok (failed 404 "未暴露该端口"), a)
  end.

(** ** Data plane *)

Definition guest_target (id : string) : AM ExecTarget :=
  let? t := ask_orch (exec_target id) in or_fail t unknown_or_gone.

Definition exec_json (code : Z) (out err : string) : string :=
  "{" ++s quoted "exit_code" ++s ":" ++s dec code ++s "," ++s quoted "stderr" ++s ":" ++s json_literal err ++s "," ++s
  quoted "stdout" ++s ":" ++s json_literal out ++s "}".

Definition exec_in (id body : string) : AM string :=
  let? v := body_json body in
  let? cmd := or_fail (get_text v "cmd") "缺 cmd 字段" in
  let? target := guest_target id in
  let? r := lift (en_exec env target cmd) in
  let '(code, out, err) := r in
  let? _ := metric (record_exec (en_exec_ms env)) in
  mret (exec_json code out err).

(** [s.replace('\'', "'\\''")] between single quotes. *)
Definition single_quote (s : string) : string := "'" ++s replace_char "'" "'\''" s ++s "'".
Definition guest_path (fpath : string) : string := single_quote ("/" ++s trim_start_slashes fpath).

Definition put_file (id fpath body : string) : AM unit :=
  let? target := guest_target id in
  let? r := lift (en_exec env target ("printf %s '" ++s b64_encode body ++s "' | base64 -d > " ++s guest_path fpath)) in
  let '(code, _, err) := r in
  if negb (code =? 0) then mfail ("写文件失败（exit=" ++s dec code ++s "）: " ++s trim err) else mret tt.

Definition get_file (id fpath : string) : AM string :=
  let? target := guest_target id in
  let? r := lift (en_exec env target ("base64 " ++s guest_path fpath)) in
  let '(code, out, err) := r in
  if negb (code =? 0) then mfail ("读文件失败（exit=" ++s dec code ++s "）: " ++s trim err) else lift (b64_decode out).

Definition read_logs (id : string) : AM string :=
  let? p := ask_orch (log_path id) in
  let? p := or_fail p unknown_or_gone in
  match en_read env p with Ok c => mret c | Err e => mfail ("读日志失败: " ++s e) end.

Definition template_item (kv : string * string) : option string :=
  rest ← strip_prefix "template/" kv.1;
  name ← strip_suffix "/latest" rest;
  Some ("{" ++s quoted "name" ++s ":" ++s quoted name ++s "," ++s quoted "version" ++s ":" ++s
        quoted (trim (from_utf8_lossy kv.2)) ++s "}").
Definition list_templates : AM string :=
  let? kvs := on_orch (store_list "template/") in
  mret (json_array (omap template_item kvs)).

Definition backend_item (b : BackendInfo) : string :=
  "{" ++s quoted "id" ++s ":" ++s quoted (bi_id b) ++s "," ++s quoted "capabilities" ++s ":" ++s
  json_array (map quoted (bi_capabilities b)) ++s "}".
Definition list_backends (o : Orch.Orch S B) : string := json_array (map backend_item (backends_info o)).

(** ** Operations shared by the API and the gateway *)

Definition paused_json (id : string) : string :=
  "{" ++s quoted "id" ++s ":" ++s quoted id ++s "," ++s quoted "state" ++s ":" ++s quoted "paused" ++s "}".
Definition resumed_json (id mid : string) : string :=
  "{" ++s quoted "id" ++s ":" ++s quoted id ++s "," ++s quoted "state" ++s ":" ++s quoted "running" ++s "," ++s
  quoted "machine_id" ++s ":" ++s quoted mid ++s "}".
Definition alive_json (id : string) (lease : Z) (ttl : option Z) : string :=
  "{" ++s quoted "id" ++s ":" ++s quoted id ++s "," ++s quoted "lease_deadline" ++s ":" ++s dec lease ++s "," ++s
  quoted "ttl_deadline" ++s ":" ++s match ttl with Some t => dec t | None => "null"%string end ++s "}".
Definition destroy_event (id : string) (project : option string) : string :=
  "{" ++s quoted "event" ++s ":" ++s quoted "sandbox_destroy" ++s "," ++s quoted "id" ++s ":" ++s quoted id ++s "," ++s
  quoted "project" ++s ":" ++s quoted (default "-"%string project) ++s "}".

Definition conflict_or_unknown (e : string) : Response3 := if starts_with UNSUPPORTED_BY_BACKEND e then failed 409 e else failed 404 e.

Definition pause_response (id : string) : AM Response3 :=
  answer (on_orch (Orch.pause (en_now env) (en_fresh env) (en_nonce env) id)) (fun _ => (200, JSON, paused_json id)) conflict_or_unknown.
Definition resume_response (id : string) : AM Response3 :=
  answer (on_orch (Orch.resume (en_fresh env) (en_nonce env) id)) (fun mid => (200, JSON, resumed_json id mid)) conflict_or_unknown.
Definition keepalive_response (id : string) : AM Response3 :=
  let? r := mtry (on_orch (keepalive (en_now env) id)) in
  match r with
  | Ok lease => let? ttl := ask_orch (ttl_deadline id) in mret (200, JSON, alive_json id lease ttl)
  | Err _ => mret (failed 404 "未知沙箱")
  end.
Definition destroyed (id : string) (project : option string) (r : result (list string) string) : AM Response3 :=
  match r with
  | Ok _ =>
      let? _ := drop_exposes id in
      let? _ := metric record_destroy in
      let? _ := sink_emit (destroy_event id project) in
      mret (204, JSON, ""%string)
  | Err _ => mret (failed 404 "未知沙箱")
  end.

Context (iter : gmap Z ExposeHandle -> list ExposeHandle).

Definition dispatch (method path body : string) (project : option string) : AM Response3 :=
  match parse_route method path with
  | TicketRoute id => answer (mint_ticket id body) (fun v => (200, JSON, v)) (failed 400)
  | CreateSandbox => answer (create_sandbox body project) (fun v => (201, JSON, v)) (fun e => failed (quota_status e) e)
  | ListSandboxes => answer (on_orch (list_meta_for project)) (fun l => (200, JSON, json_array l)) (failed 500)
  | GetSandbox id =>
      answer (on_orch (get_meta id)) (fun m => match m with Some m => (200, JSON, m) | None => failed 404 "未知沙箱" end) (failed 500)
  | DeleteSandbox id => let? r := mtry (on_orch (destroy id)) in destroyed id project r
  | Keepalive id => keepalive_response id
  | Pause id => pause_response id
  | Resume id => resume_response id
  | Fork id => answer (fork_sandbox id body project) (fun v => (201, JSON, v)) (fun e => failed (quota_status e) e)
  | Expose id => answer (expose_port id body) (fun v => (201, JSON, v)) (failed 400)
  | Unexpose id gp => unexpose id gp
  | ListExposes id => fun a => (Ok (200, JSON, list_exposes iter id a), a)
  | ExecRoute id => answer (exec_in id body) (fun v => (200, JSON, v)) (failed 500)
  | PutFile id p => answer (put_file id p body) (fun _ => (204, JSON, ""%string)) (failed 500)
  | GetFile id p => answer (get_file id p) (fun b => (200, "application/octet-stream"%string, b)) (failed 500)
  | Logs id => answer (read_logs id) (fun b => (200, "text/plain; charset=utf-8"%string, b)) (failed 404)
  | ListTemplates => answer list_templates (fun v => (200, JSON, v)) (failed 500)
  | ListBackends => fun a => (Ok (200, JSON, list_backends (ap_orch a)), a)
  | AuditRoute => answer (on_orch (list_audit project)) (fun l => (200, JSON, json_array l)) (failed 500)
  | MetricsRoute =>
      fun a => (Ok (200, "text/plain; version=0.0.4; charset=utf-8"%string, metrics_render (ac_version cfg) (en_dropped env) (ap_metrics a)), a)
  | BuildTemplate => mret (failed 501 "M1 单机版 templates:build 未实现，请用 `sandlocker build <file.toml>`")
  | NotFound => mret (failed 404 "no such route")
  end.
(** ** Streamed commands *)

Definition respond (r : Response3) : string := let '(code, ctype, body) := r in response_text code ctype body.

Definition event_line (stream data : string) : string :=
  "{" ++s quoted "stream" ++s ":" ++s quoted stream ++s "," ++s quoted "data" ++s ":" ++s quoted (b64_encode data) ++s "}" ++s String LF "".

(** One line per block of output; the exit code ends it, a frame that is not one is
    skipped. *)
Fixpoint ndjson (frames : list string) : string :=
  match frames with
  | [] => ""%string
  | f :: frames' =>
      match parse_exec_output f with
      | Some (Stdout b) => event_line "stdout" b ++s ndjson frames'
      | Some (Stderr b) => event_line "stderr" b ++s ndjson frames'
      | Some (Exit code) => "{" ++s quoted "exit_code" ++s ":" ++s dec code ++s "}" ++s String LF ""
      | None => ndjson frames'
      end
  end.

Definition ndjson_head : string :=
  "HTTP/1.1 200 OK" ++s CRLF ++s "Content-Type: application/x-ndjson" ++s CRLF ++s "Connection: close" ++s CRLF2.

(** What the client is sent. *)
Definition exec_stream_hijack (id body : string) : AM string := fun a =>
  (Ok (match from_slice (or_braces body) with
       | None => respond (failed 400 ("请求体非 JSON: " ++s slice_error (or_braces body)))
       | Some v =>
           match get_text v "cmd" with
           | None => respond (failed 400 "缺 cmd 字段")
           | Some cmd =>
               match exec_target id (ap_orch a) with
               | None => respond (failed 404 unknown_or_gone)
               | Some (Runsc _ _ _) => respond (failed 400 "流式 exec 仅 FC 后端（vsock）支持")
               | Some (Vsock vsock) =>
                   match en_stream env vsock cmd with
                   | NotConnected e => respond (failed 502 ("连 guest 失败: " ++s e))
                   | NotSent e => respond (failed 502 ("发 ExecStream 失败: " ++s e))
                   | NoAnswer e => respond (failed 502 ("读 ack 失败: " ++s e))
                   | Answered Acked frames => ndjson_head ++s ndjson frames
                   | Answered (Error m) _ => respond (failed 500 ("guest 执行错误: " ++s m))
                   | Answered other _ => respond (failed 502 ("非预期 ack: " ++s debug_response other))
                   end
               end
           end
       end), a).

(** ** Tickets *)

(** The project is the sandbox's own, none when it cannot be read. *)
Definition own_project (id : string) : AM (option string) :=
  let? r := mtry (on_orch (sandbox_project id)) in mret (match r with Ok p => p | Err _ => None end).

Definition proxy_port (t : Ticket) (gpath : string) : AM string := fun a =>
  (Ok (match exec_target (t_sid t) (ap_orch a) with
       | Some (Vsock vsock) =>
           match en_proxy env vsock (t_port t) gpath with Ok raw => raw | Err e => respond (failed 502 e) end
       | Some (Runsc _ _ _) => respond (failed 400 "端口暴露仅 FC 后端（vsock）支持")
       | None => respond (failed 404 unknown_or_gone)
       end), a).

Definition responded (m : AM Response3) : AM string := let? r := m in mret (respond r).

Definition gw_file (t : Ticket) (method p body : string) : AM Response3 :=
  if String.eqb method "PUT" then answer (put_file (t_sid t) p body) (fun _ => (204, JSON, ""%string)) (failed 500)
  else answer (get_file (t_sid t) p) (fun b => (200, "application/octet-stream"%string, b)) (failed 500).

Definition gw_fork (t : Ticket) (body : string) : AM Response3 :=
  let? project := own_project (t_sid t) in
  answer (fork_sandbox (t_sid t) body project) (fun v => (201, JSON, v)) (fun e => failed (quota_status e) e).

Definition gw_destroy (t : Ticket) : AM Response3 :=
  let? project := own_project (t_sid t) in
  let? r := mtry (on_orch (destroy (t_sid t))) in
  destroyed (t_sid t) project r.

Definition serve_gw_ticket (t : Ticket) (method path body : string) : AM string :=
  let p := default ""%string (parse_query path !! "p"%string) in
  let at_path x := String.eqb (before_query path) ("/gw/" ++s x) in
  let sid := t_sid t in
  match t_action t with
  | AExec => if at_path "exec"%string then responded (answer (exec_in sid body) (fun v => (200, JSON, v)) (failed 500)) else mret (respond (failed 403 "ticket 动作与路径不符"))
  | AFile => if at_path "file"%string then responded (gw_file t method p body) else mret (respond (failed 403 "ticket 动作与路径不符"))
  | ALogs =>
      if at_path "logs"%string then responded (answer (read_logs sid) (fun b => (200, "text/plain; charset=utf-8"%string, b)) (failed 404))
      else mret (respond (failed 403 "ticket 动作与路径不符"))
  | AStream => if at_path "stream"%string then exec_stream_hijack sid body else mret (respond (failed 403 "ticket 动作与路径不符"))
  | APort => if at_path "p"%string then proxy_port t p else mret (respond (failed 403 "ticket 动作与路径不符"))
  | APause => if at_path "pause"%string then responded (pause_response sid) else mret (respond (failed 403 "ticket 动作与路径不符"))
  | AResume => if at_path "resume"%string then responded (resume_response sid) else mret (respond (failed 403 "ticket 动作与路径不符"))
  | AFork => if at_path "fork"%string then responded (gw_fork t body) else mret (respond (failed 403 "ticket 动作与路径不符"))
  | ADestroy => if at_path "destroy"%string then responded (gw_destroy t) else mret (respond (failed 403 "ticket 动作与路径不符"))
  | AKeepalive => if at_path "keepalive"%string then responded (keepalive_response sid) else mret (respond (failed 403 "ticket 动作与路径不符"))
  | AExpose => if at_path "expose"%string then responded (answer (expose_port sid body) (fun v => (201, JSON, v)) (failed 400)) else mret (respond (failed 403 "ticket 动作与路径不符"))
  | AUnexpose => if at_path "unexpose"%string then responded (unexpose sid (t_port t)) else mret (respond (failed 403 "ticket 动作与路径不符"))
  | AExposes =>
      if at_path "exposes"%string then responded (fun a => (Ok (200, JSON, list_exposes iter sid a), a))
      else mret (respond (failed 403 "ticket 动作与路径不符"))
  | ACreate =>
      if at_path "create"%string then
        responded (answer (create_sandbox body None) (fun v => (201, JSON, v)) (fun e => failed (quota_status e) e))
      else mret (respond (failed 403 "ticket 动作与路径不符"))
  end.

(** ** Forwarding *)

(** Where the sandbox is, when it is not here and there is a gateway. *)
Definition remote_owner (id : string) : AM (option string) :=
  match rt_gw_url (ac_remote cfg) with
  | None => mret None
  | Some _ =>
      let? t := ask_orch (exec_target id) in
      match t with
      | Some _ => mret None
      | None =>
          let? r := mtry (on_orch (store_get (sandbox_node_key id))) in
          mret (match r with
                | Ok (Some v) =>
                    let owner := from_utf8_lossy v in
                    if String.eqb owner (rt_node_id (ac_remote cfg)) then None else Some owner
                | _ => None
                end)
      end
  end.

(** [url.split_once("/gw/")], the second part. *)
Fixpoint after_gw (url : string) : option string :=
  match strip_prefix "/gw/" url with
  | Some r => Some r
  | None => match url with EmptyString => None | String _ url' => after_gw url' end
  end.

(** The status code of a response, from the first bytes of its blocks. *)
Fixpoint relay_loop (code : Z) (head out : string) (rs : Reads) : result (Z * string) string :=
  match rs with
  | [] => Ok (if code =? 0 then 502 else code, out)
  | Err e :: _ => Err ("读网关响应失败: " ++s e)
  | Ok c :: rs' =>
      if String.eqb c "" then Ok (if code =? 0 then 502 else code, out)
      else
        let head := if code =? 0 then head ++s str_take 64 c else head in
        let code := if code =? 0 then default 0 (w ← split_whitespace (from_utf8_lossy head) !! 1%nat; parse_uint 65535 w) else code in
        relay_loop code head (out ++s c) rs'
  end.

Definition host_of (base : string) : string :=
  repeat_strip (String.length base) (strip_suffix "/") (repeat_strip (String.length base) (strip_prefix "http://") base).

Definition relay_head (method target body : string) : string :=
  method ++s " " ++s target ++s " HTTP/1.1" ++s CRLF ++s "Host: sandlocker-gw" ++s CRLF ++s "Content-Length: " ++s
  dec (Z.of_nat (String.length body)) ++s CRLF ++s "Connection: close" ++s CRLF2.

(** The status and the bytes of the gateway's response. *)
Definition relay_via_gw (sid : string) (action : Action) (port : Z) (method extra_query body : string) : AM (Z * string) :=
  match rt_gw_url (ac_remote cfg) with
  | None => mfail "未配置 --gw-url，无法跨节点转发"
  | Some base =>
      match after_gw (mint Sha256 (ac_gateway cfg) (en_ticket env) sid action port 60 (en_now env)) with
      | None => mfail "ticket URL 异常"
      | Some r =>
          match en_relay env (host_of base) (relay_head method ("/gw/" ++s r ++s extra_query) body) body with
          | Err e => mfail e
          | Ok rs => lift (relay_loop 0 "" "" rs)
          end
      end
  end.

(** The text after [needle]. *)
Fixpoint after_str (needle s : string) : option string :=
  match strip_prefix needle s with
  | Some r => Some r
  | None => match s with EmptyString => None | String _ s' => after_str needle s' end
  end.
Definition json_str_field (body key : string) : option string :=
  rest ← after_str (quoted key ++s ":" ++s String quote "") (from_utf8_lossy body);
  head (split quote rest).

Definition split_http_body (raw : string) : string :=
  match find_crlfcrlf raw with Some i => str_drop (i + 4) raw | None => ""%string end.

(** A creation that is placed elsewhere: its status and what the client is sent; none
    when it belongs here. *)
Definition schedule_create (body : string) (project : option string) : AM (option (Z * string)) :=
  match rt_gw_url (ac_remote cfg), from_slice (or_braces body) with
  | None, _ | _, None => mret None
  | Some _, Some v =>
      let vcpus := default 2 (vget v "cpu" ≫= vas_u64) in
      let mem := default 512 (vget v "mem" ≫= vas_u64) in
      let? nodes := mtry (on_orch survey_nodes) in
      match nodes with
      | Err _ => mret None
      | Ok nodes =>
          match place nodes vcpus mem (rt_node_id (ac_remote cfg)) (rt_sched (ac_remote cfg)) with
          | None => mret None
          | Some target =>
              if String.eqb target (rt_node_id (ac_remote cfg)) then mret None
              else
                let? q := match project with
                          | Some p => mtry (on_orch (on_store (check p vcpus mem 0)))
                          | None => mret (Ok tt)
                          end in
                match q with
                | Err e =>
                    let? _ := metric (record_api (quota_status e)) in
                    mret (Some (quota_status e, respond (failed (quota_status e) e)))
                | Ok _ =>
                    let? r := mtry (relay_via_gw (NODE_TARGET_PREFIX ++s target) ACreate 0 "POST" ("&tp=" ++s en_traceparent env) body) in
                    match r with
                    | Err e => mret (Some (502, respond (failed 502 ("调度到节点 " ++s target ++s " 失败: " ++s e))))
                    | Ok (code, raw) =>
                        let? _ := metric (record_api code) in
                        let resp := split_http_body raw in
                        let? _ := match project, json_str_field resp "id" with
                                  | Some p, Some id =>
                                      if code =? 201 then let? _ := mtry (on_orch (tag_project id p)) in mret tt else mret tt
                                  | _, _ => mret tt
                                  end in
                        mret (Some (code, respond (code, JSON, resp)))
                    end
                end
          end
      end
  end.

(** ** Audit *)

Definition audit_record (actor action target : string) (code : Z) : AM unit := fun a =>
  let '(r, (s, seq)) := record (en_now env) actor action target code (o_store (ap_orch a), ap_seq a) in
  (r, mkApi (set_store s (ap_orch a)) seq (ap_exposes a) (ap_metrics a) (ap_sink a)).

Definition record_audit (r : Route) (project : option string) (code : Z) : AM unit :=
  if negb (ac_require cfg) then mret tt
  else
    match required_op r with
    | None | Some OpRead => mret tt
    | Some _ =>
        let? _ := mtry (audit_record (default "-"%string project) (audit_action r) (default "-"%string (sandbox_id r)) code) in
        mret tt
    end.

(** ** A connection *)

(** The rest of [handle_conn] once the caller is known: what the client is sent. *)
Definition serve_local (rq : HttpRequest) (route : Route) (project : option string) : AM string :=
  let? r := dispatch (rq_method rq) (rq_path rq) (rq_body rq) project in
  let code := r.1.1 in
  let? _ := match route with MetricsRoute => mret tt | _ => metric (record_api code) end in
  let? _ := record_audit route project code in
  mret (respond r).

Definition serve_forwarded (rq : HttpRequest) (route : Route) (project : option string) : AM string :=
  match forwardable_route route, sandbox_id route with
  | Some (action, m, port, extra), Some id =>
      let? owner := remote_owner id in
      match owner with
      | None => serve_local rq route project
      | Some _ =>
          let? r := relay_via_gw id action port m (extra ++s "&tp=" ++s en_traceparent env) (rq_body rq) in
          let? _ := metric (record_api r.1) in
          let? _ := record_audit route project r.1 in
          mret r.2
      end
  | _, _ => serve_local rq route project
  end.

Definition serve_authorized (rq : HttpRequest) (route : Route) (project : option string) : AM string :=
  let? sched := match route with CreateSandbox => schedule_create (rq_body rq) project | _ => mret None end in
  match sched with
  | Some (code, text) => let? _ := record_audit route project code in mret text
  | None => serve_forwarded rq route project
  end.

(** [authorize], with its refusal as what the client is sent. *)
Definition authorized (op : Op) (sid key : option string) (k : option string -> AM string) : AM string := fun a =>
  match authorize op sid key a with
  | (Ok p, a') => k p a'
  | (Err (code, b), a') => (Ok (response_text code JSON b), a')
  end.

(** A streamed command, here or at the node that owns the sandbox. *)
Definition serve_stream (id body : string) : AM string :=
  let? owner := remote_owner id in
  match owner with
  | Some _ =>
      let? r := relay_via_gw id AStream 0 "POST" "" body in
      let? _ := metric (record_api r.1) in
      mret r.2
  | None => exec_stream_hijack id body
  end.

Definition handle_request (rq : HttpRequest) : AM string :=
  match parse_exec_stream (rq_method rq) (rq_path rq) with
  | Some id =>
      authorized OpWrite (Some id) (rq_api_key rq) (fun _ => serve_stream id (rq_body rq))
  | None =>
      let route := parse_route (rq_method rq) (rq_path rq) in
      match required_op route with
      | None => serve_authorized rq route None
      | Some op => authorized op (sandbox_id route) (rq_api_key rq) (serve_authorized rq route)
      end
  end.

Definition handle_conn (rs : Reads) : AM string :=
  let? rq := lift (read_request rs) in handle_request rq.
(** ** The gateway inside the daemon *)

(** The nonces are a set of the process, or keys of the store the orchestrator uses. *)
Definition gw_verify (used : option (gset string)) (q : gmap string string) : AM (result Ticket string * option (gset string)) := fun a =>
  match used with
  | Some u =>
      match verify Sha256 (ac_gateway cfg) q (en_now env) (Local u : NonceGuard S) with
      | (r, Local u') => (Ok (r, Some u'), a)
      | (r, Shared _) => (Ok (r, None), a)
      end
  | None =>
      match verify Sha256 (ac_gateway cfg) q (en_now env) (Shared (o_store (ap_orch a))) with
      | (r, Shared s') => (Ok (r, None), set_orch (set_store s' (ap_orch a)) a)
      | (r, Local u') => (Ok (r, Some u'), a)
      end
  end.

(** What the client is sent, and the nonces used by then. *)
Definition handle_gw_conn (used : option (gset string)) (rs : Reads) : AM (string * option (gset string)) :=
  let? rq := lift (read_request rs) in
  let? v := gw_verify used (parse_query (rq_path rq)) in
  let? text := match v.1 with
               | Err e => mret (respond (failed 403 ("ticket 无效: " ++s e)))
               | Ok t => serve_gw_ticket t (rq_method rq) (rq_path rq) (rq_body rq)
               end in
  mret (text, v.2).
End Api.
