(* ===== verification/ApiSafety.v ===== *)
(** * What the REST API promises

    With keys required, a request has an effect only under a key of the key table
    whose scope allows the operation and whose project owns the sandbox; and an
    operation relayed to the node that owns the sandbox does there what it would
    have done here. *)

From Stdlib Require Import ZArith Lia Bool List String Ascii.
From stdpp Require Import base tactics list gmap strings.
From S2P Require Import Prelude RustStr Utf8 Json Store Sqlite SqliteSpec StoreTheorems Auth Quota Sched AuditLog Proto Snapcrypt Backend Orch OrchSafety OrchReaper OrchTenancy Gateway Cluster Text Base64 Http Metrics Routes Api.

Open Scope Z_scope.

Section Authorisation.
Context (Sha256 : string -> string) {S B : Type} `{StoreLaws S} `{SandboxBackend B} `{ApiJson}.
Context (cfg : ApiConfig) (env : ApiEnv) (iter : gmap Z ExposeHandle -> list ExposeHandle).

Notation A := (Api S B).
Definition api_abs (a : A) : AStore := o_abs (ap_orch a).
Definition api_ready (a : A) : Prop := o_ready (ap_orch a).

(** Two states of the daemon that differ only in how the store got to hold the same
    data. *)
Definition same (a a' : A) : Prop :=
  exists s, a' = set_orch (set_store s (ap_orch a)) a /\ inv s /\ healthy s /\ abs s = api_abs a.

(** The record of a token in the key table. *)
Definition key_record (d : AStore) (token : string) : option ApiKeyRecord :=
  kv ← a_kv d !! key_store_key Sha256 token; decode (kv_value kv).

(** The key entitles its holder to the operation on the sandbox, for a project. *)
Definition entitled (d : AStore) (op : Op) (sid key : option string) (project : string) : Prop :=
  exists token rec, key = Some token /\ key_record d token = Some rec /\ allows (k_scope rec) op = true /\
    k_project rec = project /\ forall id, sid = Some id -> project_of d id = Some project.

Lemma set_store_same (s s' : S) (o : Orch.Orch S B) : set_store s' (set_store s o) = set_store s' o.
Proof. by destruct o. Qed.

Lemma same_refl (a : A) : api_ready a -> same a a.
Proof. intros [Hi Hh]. exists (o_store (ap_orch a)). destruct a as [[] ? ? ? ?]. done. Qed.

Lemma same_trans (a b c : A) : same a b -> same b c -> same a c.
Proof.
  intros (s & -> & Hi & Hh & Ha) (s' & -> & Hi' & Hh' & Ha'). exists s'. split; [|split_and!; [done|done|by rewrite Ha']].
  by destruct a as [[] ? ? ? ?].
Qed.

Lemma same_ready (a b : A) : same a b -> api_ready b /\ api_abs b = api_abs a.
Proof. intros (s & -> & Hi & Hh & Ha). done. Qed.

(** The same on a store that may fail: the data is as it was, and a store that answered
    still does. *)
Definition near (a a' : A) : Prop :=
  exists s, a' = set_orch (set_store s (ap_orch a)) a /\ inv s /\ abs s = api_abs a /\ (healthy (o_store (ap_orch a)) -> healthy s).

Lemma near_refl (a : A) : inv (o_store (ap_orch a)) -> near a a.
Proof. intros Hi. exists (o_store (ap_orch a)). by destruct a as [[] ? ? ? ?]. Qed.

Lemma near_trans (a b c : A) : near a b -> near b c -> near a c.
Proof.
  intros (s & -> & Hi & Ha & Hh) (s' & -> & Hi' & Ha' & Hh'). exists s'. split; [by destruct a as [[] ? ? ? ?]|].
  split_and!; [done|by rewrite Ha'|]. intros Hx. by apply Hh', Hh.
Qed.

Lemma near_same (a b : A) : healthy (o_store (ap_orch a)) -> near a b -> same a b.
Proof. intros Hx (s & -> & Hi & Ha & Hh). exists s. auto. Qed.

(** A read of one key: what is there, or an error of a store that does not answer. *)
Lemma get_any {T} (m : M (Orch.Orch S B) string T) k (f : option KeyValue -> T) (a : A) :
  (forall o, m o = (let? kv := on_store (text (get k)) in mret (f kv)) o) -> inv (o_store (ap_orch a)) ->
  exists r a', on_orch m a = (r, a') /\ near a a' /\
    (r = Ok (f (a_kv (api_abs a) !! k)) \/ exists e, r = Err e /\ ~ healthy (o_store (ap_orch a))).
Proof.
  intros Hm Hi. unfold on_orch. rewrite Hm. unfold mbind, on_store, text. pose proof (get_meets k (o_store (ap_orch a)) Hi) as G.
  destruct (get k (o_store (ap_orch a))) as [r s]. destruct G as (Hi' & [Ha Hr] & Hb). destruct r as [v|e].
  - eexists _, _. split; [reflexivity|]. split; [exists s; split_and!; [done|done|done|by intros [? _]%Hb]|]. left. by subst v.
  - eexists _, _. split; [reflexivity|]. split; [exists s; split_and!; [done|done|done|by intros [? _]%Hb]|].
    right. eexists. split; [reflexivity|]. intros [_ Hn]%Hb. destruct e; [apply Hn; by eexists|done].
Qed.

Lemma lookup_key_any token (a : A) :
  inv (o_store (ap_orch a)) ->
  exists r a', (on_orch (on_store (lookup_key Sha256 token)) a : result (option ApiKeyRecord) string * A) = (r, a') /\ near a a' /\
    (r = Ok (key_record (api_abs a) token) \/ exists e, r = Err e /\ ~ healthy (o_store (ap_orch a))).
Proof.
  intros Hi. destruct (get_any (on_store (lookup_key Sha256 token)) (key_store_key Sha256 token)
    (fun kv => match kv with Some kv => decode (kv_value kv) | None => None end) a) as (r & a' & E & Hn & Hr); [|done|].
  - intros o. unfold lookup_key, on_store, mbind, mret. by destruct (text (get _) (o_store o)) as [[]?].
  - exists r, a'. split; [exact E|]. split; [done|]. unfold key_record.
    destruct Hr as [->|?]; [left|by right]. by destruct (a_kv (api_abs a) !! _).
Qed.

Lemma sandbox_project_any id (a : A) :
  inv (o_store (ap_orch a)) ->
  exists r a', on_orch (sandbox_project id) a = (r, a') /\ near a a' /\
    (r = Ok (project_of (api_abs a) id) \/ exists e, r = Err e /\ ~ healthy (o_store (ap_orch a))).
Proof. intros Hi. exact (get_any (sandbox_project id) (project_key id) (fun kv => (fun kv => from_utf8_lossy (kv_value kv)) <$> kv) a (fun _ => eq_refl) Hi). Qed.

Lemma sandbox_project_same id (a : A) :
  api_ready a -> exists a', on_orch (sandbox_project id) a = (Ok (project_of (api_abs a) id), a') /\ same a a'.
Proof.
  intros Hr. destruct (sandbox_project_total id (ap_orch a) Hr) as (s & E & Hs). exists (set_orch (set_store s (ap_orch a)) a).
  split; [unfold on_orch; by rewrite E|by exists s].
Qed.

(** What [authorize] decides, on any store. *)
Lemma authorize_gate op sid key (a : A) :
  ac_require cfg = true -> inv (o_store (ap_orch a)) ->
  exists a', near a a' /\
    ((exists p, entitled (api_abs a) op sid key p /\ authorize Sha256 cfg op sid key a = (Ok (Some p), a')) \/
     exists code e, authorize Sha256 cfg op sid key a = (Err (code, err_json e), a') /\
       ((In code [401; 403; 404] /\ forall p, ~ entitled (api_abs a) op sid key p) \/
        (code = 500 /\ ~ healthy (o_store (ap_orch a))))).
Proof.
  intros Hq Hi. unfold authorize. rewrite Hq. cbn [negb].
  assert (forall (code : Z) e (a' : A), In code [401; 403; 404] -> (forall p, ~ entitled (api_abs a) op sid key p) ->
    (exists p, entitled (api_abs a) op sid key p /\ (@Err (option string) _ (code, err_json e), a') = (Ok (Some p), a')) \/
    exists c e', (@Err (option string) _ (code, err_json e), a') = (Err (c, err_json e'), a') /\
      ((In c [401; 403; 404] /\ forall p, ~ entitled (api_abs a) op sid key p) \/ (c = 500 /\ ~ healthy (o_store (ap_orch a))))) as Hno
    by (intros code e a' Hc He; right; exists code, e; split; [done|by left]).
  destruct key as [token|].
  2:{ exists a. split; [by apply near_refl|]. apply Hno; [by left|by intros p (? & ? & ? & _)]. }
  destruct (lookup_key_any token a Hi) as (r & a1 & E1 & Hn1 & Hr). unfold mbind. cbv beta. rewrite E1. cbv beta iota.
  destruct Hr as [->|(e & -> & Hh)].
  2:{ exists a1. split; [done|]. right. exists 500, e. split; [reflexivity|by right]. }
  destruct (key_record (api_abs a) token) as [rec|] eqn:Ek.
  2:{ exists a1. split; [done|]. apply Hno; [by left|]. intros p (? & ? & [= <-] & ? & _); congruence. }
  destruct (allows (k_scope rec) op) eqn:Eo; cbn [negb].
  2:{ exists a1. split; [done|]. apply Hno; [by right; left|]. intros p (? & ? & [= <-] & ? & ? & _); congruence. }
  destruct sid as [id|].
  2:{ exists a1. split; [done|]. left. exists (k_project rec). split; [by exists token, rec|reflexivity]. }
  pose proof Hn1 as (s1 & Es1 & Hi1 & Ha1 & Hh1). assert (api_abs a1 = api_abs a) as Ea by (by subst a1).
  assert (inv (o_store (ap_orch a1))) as Hia1 by (by subst a1).
  destruct (sandbox_project_any id a1 Hia1) as (r & a2 & E2 & Hn2 & Hr). cbv beta. rewrite E2. cbv beta iota.
  exists a2. split; [by eapply near_trans|]. rewrite Ea in Hr. destruct Hr as [->|(e & -> & Hh)].
  2:{ right. exists 500, e. split; [reflexivity|]. right. split; [done|]. intros Hx. apply Hh. subst a1. by apply Hh1. }
  destruct (project_of (api_abs a) id) as [p|] eqn:Ep.
  - destruct (String.eqb_spec p (k_project rec)) as [->|Hne].
    + left. exists (k_project rec). split; [|reflexivity]. exists token, rec. split_and!; [done..|]. by intros ? [= <-].
    + apply Hno; [by right; left|]. intros p' (? & ? & [= <-] & ? & _ & <- & Hp). specialize (Hp id eq_refl). congruence.
  - apply Hno; [by do 2 right; left|]. intros p' (? & ? & [= <-] & ? & _ & <- & Hp). specialize (Hp id eq_refl). congruence.
Qed.

(** What a request needs: an operation and the sandbox it is about. *)
Definition request_needs (rq : HttpRequest) : option (Op * option string) :=
  match parse_exec_stream (rq_method rq) (rq_path rq) with
  | Some id => Some (OpWrite, Some id)
  | None =>
      let route := parse_route (rq_method rq) (rq_path rq) in
      (fun op => (op, sandbox_id route)) <$> required_op route
  end.

(** What is done for a caller of the project. *)
Definition carry_out (rq : HttpRequest) (project : string) : M A string string :=
  match parse_exec_stream (rq_method rq) (rq_path rq) with
  | Some id => serve_stream Sha256 cfg env id (rq_body rq)
  | None => serve_authorized Sha256 cfg env iter rq (parse_route (rq_method rq) (rq_path rq)) (Some project)
  end.

Lemma authorized_gate op sid key k (a : A) :
  ac_require cfg = true -> inv (o_store (ap_orch a)) ->
  exists a', near a a' /\
    ((exists p, entitled (api_abs a) op sid key p /\ authorized Sha256 cfg op sid key k a = k (Some p) a') \/
     exists code e, authorized Sha256 cfg op sid key k a = (Ok (response_text code JSON (err_json e)), a') /\
       ((In code [401; 403; 404] /\ forall p, ~ entitled (api_abs a) op sid key p) \/
        (code = 500 /\ ~ healthy (o_store (ap_orch a))))).
Proof.
  intros Hq Hi. destruct (authorize_gate op sid key a Hq Hi) as (a' & Hs & [(p & He & Ha)|(code & e & Ha & Hc)]);
    exists a'; (split; [done|]); unfold authorized; rewrite Ha; [left|right]; eauto 6.
Qed.

Lemma authorized_total op sid key k (a : A) :
  ac_require cfg = true -> api_ready a ->
  exists a', same a a' /\
    ((exists p, entitled (api_abs a) op sid key p /\ authorized Sha256 cfg op sid key k a = k (Some p) a') \/
     ((forall p, ~ entitled (api_abs a) op sid key p) /\
        exists code e, In code [401; 403; 404] /\ authorized Sha256 cfg op sid key k a = (Ok (response_text code JSON (err_json e)), a'))).
Proof.
  intros Hq [Hi Hh]. destruct (authorized_gate op sid key k a Hq Hi) as (a' & Hn & [(p & He & Ha)|(code & e & Ha & [[Hc Hno]|[_ ?]])]); [| |done];
    exists a'; (split; [by apply near_same|]); eauto 8.
Qed.

(** A request that needs no key is a scrape of the metrics or has no route. *)
Lemma open_routes rq :
  request_needs rq = None -> parse_route (rq_method rq) (rq_path rq) = MetricsRoute \/ parse_route (rq_method rq) (rq_path rq) = NotFound.
Proof.
  unfold request_needs. destruct (parse_exec_stream _ _); [done|]. destruct (parse_route _ _); cbn; try discriminate; auto.
Qed.

Lemma open_request rq (a : A) :
  request_needs rq = None ->
  exists text m, handle_request Sha256 cfg env iter rq a =
    (Ok text, mkApi (ap_orch a) (ap_seq a) (ap_exposes a) m (ap_sink a)).
Proof.
  unfold request_needs, handle_request. destruct (parse_exec_stream _ _); [done|].
  set (r := parse_route (rq_method rq) (rq_path rq)). destruct (required_op r) eqn:Er; [done|]. intros _.
  assert (exists x, dispatch Sha256 cfg env iter (rq_method rq) (rq_path rq) (rq_body rq) None a = (Ok x, a)) as [x Hd].
  { unfold dispatch. fold r. destruct r; try discriminate Er; eexists; reflexivity. }
  unfold serve_authorized, serve_forwarded, serve_local, record_audit, mbind. rewrite Er.
  destruct r; try discriminate Er; cbn [forwardable_route]; unfold mret at 1; rewrite Hd; unfold metric, mret;
    destruct (ac_require cfg); destruct a; eexists _, _; reflexivity.
Qed.
End Authorisation.

(** C4: with keys required, every request passes one gate, whether or not the store
    answers.  A request that needs an operation is carried out for the project of its
    key only when the key is in the key table, its scope allows the operation, and the
    sandbox it names, if any, belongs to the key's project.  Otherwise it is answered
    401, 403 or 404, or, when the store fails under the lookups of the gate, 500, and
    nothing has changed: no sandbox, instance, exposed port, stored key, audit entry or
    metric.  A holder of such a key is turned away only in that last case.  The routes
    that need no key, the scrape of the metrics and a request without a route, touch
    nothing but the request counters. *)
Theorem request_gate (Sha256 : string -> string) {S B : Type} `{StoreLaws S} `{SandboxBackend B} `{ApiJson}
    (cfg : ApiConfig) (env : ApiEnv) (iter : gmap Z ExposeHandle -> list ExposeHandle) (rq : HttpRequest) (a : Api S B) :
  ac_require cfg = true -> inv (o_store (ap_orch a)) ->
  match request_needs rq with
  | Some (op, sid) =>
      exists a', near a a' /\
        ((exists p, entitled Sha256 (api_abs a) op sid (rq_api_key rq) p /\
            handle_request Sha256 cfg env iter rq a = carry_out Sha256 cfg env iter rq p a') \/
         exists code e, handle_request Sha256 cfg env iter rq a = (Ok (response_text code JSON (err_json e)), a') /\
           ((In code [401; 403; 404] /\ forall p, ~ entitled Sha256 (api_abs a) op sid (rq_api_key rq) p) \/
            (code = 500 /\ ~ healthy (o_store (ap_orch a)))))
  | None =>
      (parse_route (rq_method rq) (rq_path rq) = MetricsRoute \/ parse_route (rq_method rq) (rq_path rq) = NotFound) /\
      exists text m, handle_request Sha256 cfg env iter rq a =
        (Ok text, mkApi (ap_orch a) (ap_seq a) (ap_exposes a) m (ap_sink a))
  end.
Proof.
  intros Hq Hi. destruct (request_needs rq) as [[op sid]|] eqn:En; [|split; [by apply open_routes|by apply open_request]].
  unfold request_needs in En. unfold handle_request, carry_out.
  destruct (parse_exec_stream (rq_method rq) (rq_path rq)) as [id|].
  - injection En as <- <-. exact (authorized_gate Sha256 cfg OpWrite (Some id) (rq_api_key rq) _ a Hq Hi).
  - destruct (required_op (parse_route (rq_method rq) (rq_path rq))) as [o|]; [|done]. injection En as <- <-.
    exact (authorized_gate Sha256 cfg o _ (rq_api_key rq) _ a Hq Hi).
Qed.

(** ** Relaying *)

Lemma strip_prefix_long p x y : (String.length p <= String.length x)%nat ->
  strip_prefix p (x ++s y) = (fun r => r ++s y) <$> strip_prefix p x.
Proof.
  revert x; induction p as [|c p IH]; intros [|d x] Hl; simpl in *; try done; [lia|].
  destruct (Ascii.eqb c d); [|done]. apply IH. lia.
Qed.

Lemma after_gw_cons c s : after_gw (String c s) = match strip_prefix "/gw/" (String c s) with Some r => Some r | None => after_gw s end.
Proof. reflexivity. Qed.

(** The first [/gw/] of a URL whose base has none. *)
Lemma after_gw_base base t : after_gw (base ++s "/gw/") = Some ""%string -> after_gw (base ++s "/gw/" ++s t) = Some t.
Proof.
  rewrite <- app_assoc_s. induction base as [|c base IH]; [done|].
  change ((String c base) ++s "/gw/") with (String c (base ++s "/gw/")). intros Hg.
  assert (String.length "/gw/" <= String.length (String c (base ++s "/gw/")))%nat as Hl.
  { cbn [String.length]. rewrite app_length_s. simpl. lia. }
  pose proof (strip_prefix_long "/gw/" _ t Hl) as Hx. rewrite after_gw_cons in Hg.
  destruct (strip_prefix "/gw/" (String c (base ++s "/gw/"))) as [r|] eqn:E.
  { injection Hg as ->. apply strip_prefix_some in E.
    apply (f_equal String.length) in E. cbn [String.length] in E. rewrite app_length_s in E. simpl in E. lia. }
  change (String c (base ++s "/gw/") ++s t) with (String c ((base ++s "/gw/") ++s t)) in *.
  rewrite after_gw_cons, Hx. by apply IH.
Qed.

Lemma join_snoc c ps x : ps <> [] -> join c ps ++s String c x = join c (ps ++ [x]).
Proof.
  induction ps as [|p ps IH]; [done|]. intros _. destruct ps as [|p' ps]; [done|].
  change (join c (p :: p' :: ps)) with (p ++s String c (join c (p' :: ps))). rewrite app_assoc_s.
  change (String c (join c (p' :: ps)) ++s String c x) with (String c (join c (p' :: ps) ++s String c x)). by rewrite IH.
Qed.

(** The file a route names, as a parameter of the relayed request. *)
Definition file_param (r : Route) : list (string * string) :=
  match r with GetFile _ p | PutFile _ p => [("p"%string, p)] | _ => [] end.

Section Relay.
Context (Sha256 : string -> string) {S B : Type} `{StoreLaws S} `{SandboxBackend B} `{ApiJson}.

(** The path of the relayed request. *)
Definition relay_path (g : Gateway) (nb : string) (now : Z) (tp : string) (r : Route) (id : string) (action : Action) (port : Z) : string :=
  ("/gw/" ++s gw_segment action) ++s
    String "?" (join "&" (ticket_params Sha256 (gw_secret g) id action port (i64_saturating_add now 60) (hex nb) ++
                          map (fun kv => kv.1 ++s String "=" kv.2) (file_param r ++ [("tp"%string, tp)]))).

Lemma relay_path_eq g nb now tp r id action m port extra :
  forwardable_route r = Some (action, m, port, extra) ->
  "/gw/" ++s (gw_segment action ++s String "?" (join "&" (ticket_params Sha256 (gw_secret g) id action port (i64_saturating_add now 60) (hex nb)))) ++s
    extra ++s "&tp=" ++s tp = relay_path g nb now tp r id action port.
Proof.
  intros Hf. unfold relay_path. set (ps := ticket_params _ _ _ _ _ _ _). rewrite !app_assoc_s. do 2 f_equal.
  change (String "?" (join "&" ps) ++s extra ++s "&tp=" ++s tp) with (String "?" (join "&" ps ++s extra ++s "&tp=" ++s tp)). f_equal.
  assert (ps <> []) as Hne by done. clearbody ps.
  assert (extra = ""%string /\ file_param r = [] \/ exists p, extra = ("&p=" ++s p)%string /\ file_param r = [("p"%string, p)]) as [[-> ->]|(p & -> & ->)].
  { destruct r; try discriminate Hf; injection Hf as <- <- <- <-; first [by left|right; eexists; split; reflexivity]. }
  - change ("" ++s "&tp=" ++s tp)%string with (String "&" ("tp" ++s String "=" tp)). by rewrite join_snoc.
  - change (("&p=" ++s p) ++s "&tp=" ++s tp)%string with ((String "&" ("p" ++s String "=" p)) ++s String "&" ("tp" ++s String "=" tp)).
    rewrite <- app_assoc_s, join_snoc, join_snoc by (done || by destruct ps). by rewrite <- app_assoc.
Qed.

(** Texts that may stand in the query of the relayed request. *)
Definition relayable (tp : string) (r : Route) (id : string) : Prop :=
  plain_sid id /\ plain_sid tp /\ Forall (fun kv => plain_sid kv.2) (file_param r).

Lemma relay_path_query g nb now tp r id action port :
  relayable tp r id -> 0 <= port -> 0 <= i64_saturating_add now 60 ->
  parse_query (relay_path g nb now tp r id action port) =
    fold_left query_pair (ticket_params Sha256 (gw_secret g) id action port (i64_saturating_add now 60) (hex nb) ++
                          map (fun kv => kv.1 ++s String "=" kv.2) (file_param r ++ [("tp"%string, tp)])) ∅.
Proof.
  intros (Hid & Htp & Hf) Hp He. apply parse_query_pairs; [by destruct action|done|]. apply Forall_app_2; [by apply ticket_params_plain|].
  rewrite map_app. apply Forall_app_2; [|apply Forall_singleton; by apply (plain_param "tp")].
  destruct r; try apply Forall_nil_2; inversion_clear Hf; apply Forall_singleton; by apply (plain_param "p").
Qed.

Lemma relay_path_base g nb now tp r id action port :
  before_query (relay_path g nb now tp r id action port) = "/gw/" ++s gw_segment action.
Proof. unfold before_query, relay_path. rewrite split_sep_app; [done|]. by destruct action. Qed.

Lemma relay_path_file g nb now tp r id action port p :
  relayable tp r id -> 0 <= port -> 0 <= i64_saturating_add now 60 -> file_param r = [("p"%string, p)] ->
  parse_query (relay_path g nb now tp r id action port) !! "p"%string = Some p.
Proof.
  intros Hr Hp He Hf. rewrite relay_path_query by done. rewrite Hf, fold_left_app. cbn [app map fold_left fst snd].
  rewrite (query_pair_eq _ "tp" tp) by done. rewrite lookup_insert_ne by done.
  rewrite (query_pair_eq _ "p" p) by done. apply lookup_insert_eq.
Qed.

(** The relayed request carries a ticket for what the route asks. *)
Lemma relay_verifies g g' nb now tp r id action port t used :
  gw_secret g' = gw_secret g -> relayable tp r id -> 0 <= port < 2 ^ 32 -> 0 <= i64_saturating_add now 60 ->
  hex nb ∉ used -> t < i64_saturating_add now 60 ->
  verify Sha256 g' (parse_query (relay_path g nb now tp r id action port)) t (Local used : NonceGuard S) =
    (Ok (mkTicket id action port), Local ({[hex nb]} ∪ used)).
Proof.
  intros Hsec Hr Hp He Hu Ht. rewrite relay_path_query by (done || lia). set (exp := i64_saturating_add now 60) in *.
  destruct (ticket_query Sha256 (gw_secret g) id action port exp (hex nb) (file_param r ++ [("tp"%string, tp)])) as (Q1 & Q2 & Q3 & Q4 & Q5 & Q6).
  { apply Forall_app_2; [|apply Forall_singleton; split; [set_solver|done]].
    destruct r; try apply Forall_nil_2; apply Forall_singleton; split; [set_solver|done|set_solver|done]. }
  assert (in_i64 exp) as Hexp by (unfold exp, i64_saturating_add, in_i64, i64_min, i64_max; lia).
  set (q := fold_left _ _ _) in *. clearbody q. rewrite <- Hsec in Q6. rewrite (verify_run Sha256 g' _ t _ id action port exp (hex nb) Q1).
  - unfold mbind, consume. by rewrite decide_False.
  - rewrite Q2. apply action_roundtrip.
  - rewrite Q3. apply parse_uint_dec. lia.
  - rewrite Q4. by apply parse_i64_dec.
  - exact Q5.
  - exact Q6.
  - exact Ht.
Qed.
End Relay.

(** C7: relaying an operation does not change what it does (ADR-22).  For every route that
    is relayed, the replica sends the gateway a request whose ticket verifies, at any
    gateway with the shared secret, for exactly the sandbox, the action and the port of
    the route; and the owning node, given that ticket and request, has the effect and
    sends the response that its own API has for the route, for the project the
    sandbox belongs to.  This is for ids, file paths and trace parents without the
    characters ['&'] and ['?'] ([relayable]): they go into the query of the
    relayed request as they are, and a path with an ampersand names another file there
    ([relayed_file_truncated]). *)
Theorem relay_transparent (Sha256 : string -> string) {S B : Type} `{StoreLaws S} `{SandboxBackend B} `{ApiJson}
    (cfg node_cfg : ApiConfig) (env node_env : ApiEnv) (iter : gmap Z ExposeHandle -> list ExposeHandle)
    (method path body id : string) (action : Action) (m : string) (port : Z) (extra base : string) :
  let r := parse_route method path in
  let g := ac_gateway cfg in
  let target := relay_path Sha256 g (en_ticket env) (en_now env) (en_traceparent env) r id action port in
  forwardable_route r = Some (action, m, port, extra) -> sandbox_id r = Some id ->
  relayable (en_traceparent env) r id -> 0 <= port < 2 ^ 32 -> 0 <= i64_saturating_add (en_now env) 60 ->
  rt_gw_url (ac_remote cfg) = Some base -> after_gw (gw_base g ++s "/gw/") = Some ""%string ->
  (forall a : Api S B, relay_via_gw Sha256 cfg env id action port m (extra ++s "&tp=" ++s en_traceparent env) body a =
     match en_relay env (host_of base) (relay_head m target body) body with
     | Err e => (Err e, a)
     | Ok rs => (relay_loop 0 "" "" rs, a)
     end) /\
  (forall g' t used, gw_secret g' = gw_secret g -> hex (en_ticket env) ∉ used -> t < i64_saturating_add (en_now env) 60 ->
     verify Sha256 g' (parse_query target) t (Local used : NonceGuard S) =
       (Ok (mkTicket id action port), Local ({[hex (en_ticket env)]} ∪ used))) /\
  (forall a : Api S B, api_ready a -> exists a', same a a' /\
     serve_gw_ticket node_cfg node_env iter (mkTicket id action port) m target body a =
       responded (dispatch Sha256 node_cfg node_env iter method path body (project_of (api_abs a) id)) a').
Proof.
  intros r g target Hf Hid Hrel Hp He Hu Hb. split_and!.
  - intros a. unfold relay_via_gw. rewrite Hu. fold g. rewrite mint_shape, after_gw_base by done.
    rewrite (relay_path_eq Sha256 g _ _ _ r id action m port extra Hf). fold target.
    destruct (en_relay env (host_of base) _ body) as [rs|e]; [|done]. by destruct (relay_loop 0 "" "" rs).
  - intros g' t used Hsec Hn Ht. by apply relay_verifies.
  - intros a Hr. unfold dispatch. fold r.
    assert (before_query target = "/gw/" ++s gw_segment action) as Hbase by apply relay_path_base.
    assert (forall p, file_param r = [("p"%string, p)] -> parse_query target !! "p"%string = Some p) as Hfile
      by (intros p; apply relay_path_file; [done|lia|done]).
    destruct (sandbox_project_same id a Hr) as (a1 & E1 & Hs1).
    unfold serve_gw_ticket. rewrite Hbase. clearbody target. clearbody r.
    destruct r; try discriminate Hf; injection Hf as <- <- <- <-; injection Hid as <-; cbn [t_action t_sid t_port gw_segment action_as_str];
      rewrite String.eqb_refl;
      try (rewrite (Hfile _ eq_refl)).
    all: try (exists a; split; [by apply same_refl|reflexivity]).
    all: exists a1; split; [done|].
    all: unfold gw_destroy, gw_fork, own_project, responded, mbind, mtry; cbn [t_sid]; rewrite E1; reflexivity.
Qed.

(** ** Audit *)

Lemma run_bind {St E T U} (m : M St E T) (f : T -> M St E U) s u s' :
  (let? x := m in f x) s = (Ok u, s') -> exists x s1, m s = (Ok x, s1) /\ f x s1 = (Ok u, s').
Proof. unfold mbind. destruct (m s) as [[x|e] s1]; [|done]. eauto. Qed.

(** A streamed command is carried out and leaves no audit entry, whatever it ran. *)
Lemma stream_not_audited (Sha256 : string -> string) {S B : Type} `{StoreLaws S} `{SandboxBackend B} `{ApiJson}
    (cfg : ApiConfig) (env : ApiEnv) (iter : gmap Z ExposeHandle -> list ExposeHandle) (rq : HttpRequest) (id : string) (a : Api S B) :
  ac_require cfg = true -> api_ready a -> rt_gw_url (ac_remote cfg) = None ->
  parse_exec_stream (rq_method rq) (rq_path rq) = Some id ->
  exists text a', handle_request Sha256 cfg env iter rq a = (Ok text, a') /\ same a a'.
Proof.
  intros Hq Hr Hu Hs. unfold handle_request. rewrite Hs.
  destruct (authorized_total Sha256 cfg OpWrite (Some id) (rq_api_key rq) (fun _ => serve_stream Sha256 cfg env id (rq_body rq)) a Hq Hr)
    as (a' & Hsame & [(p & _ & ->)|(_ & code & e & _ & ->)]); [|eauto].
  unfold serve_stream, remote_owner, mbind. rewrite Hu. unfold exec_stream_hijack, mret. eexists _, a'. split; [reflexivity|done].
Qed.

(** ** Witnesses *)

Module RefApi.
Import RefJson RefBackend.

#[export] Instance ref_api_json : ApiJson := {|
  vas_object := fun v => match v with Some (JObj fs) => Some (map (fun '(k, x) => (k, Some x)) fs) | _ => None end;
  vas_array := fun _ => None;
  json_literal := fun s => render (JStr s);
  slice_error := fun _ => "expected value"%string
|}.

Definition same_text (t : string) : string := t.

(** Two projects, each with a key; the sandbox is of the first. *)
Definition a_store : SqliteStore :=
  store_after [OPut (key_store_key same_text "t1") (Auth.encode (mkKey "o" "p" ReadWrite)) None;
               OPut (key_store_key same_text "t2") (Auth.encode (mkKey "o" "q" ReadWrite)) None;
               OPut "sandbox/a/project" "p" None].
Definition an_api : Api SqliteStore Ref :=
  mkApi (set_store a_store an_orch) 0 {["a" := {[8080 := mkExpose 40000 "127.0.0.1" 8080]}]} metrics_new [].
Definition local_gateway : Gateway := mkGateway (gw_secret a_gateway) "http://127.0.0.1:8081".
Definition a_cfg : ApiConfig := mkApiConfig true "/templates" false local_gateway (mkRemote "n1" (Some "http://gw:9000"%string) (mkPolicy 1)) "1".
Definition an_env : ApiEnv :=
  mkApiEnv 1000 a_host "fresh" "nonce" "12-rand-byte" (fun _ _ => Ok (0, "out"%string, ""%string)) 3 (fun _ => Ok "log"%string)
    (fun _ _ => Ok 40000) (fun _ _ => Answered Acked []) (fun _ _ _ => Ok ""%string) (fun _ _ _ => Err "refused"%string) "00-1-2-01" 0.
Definition in_order (m : gmap Z ExposeHandle) : list ExposeHandle := map snd (map_to_list m).
Definition a_request (method path key : string) : HttpRequest := mkRequest method path (Some key) None ""%string.

Lemma an_api_ready : api_ready an_api.
Proof. apply store_after_inv. Qed.
End RefApi.
Import RefJson RefBackend RefApi.

(** The other project's key does not delete the sandbox, whether the store answers or
    fails at the lookup of the key. *)
Definition failing_api : Api SqliteStore Ref :=
  mkApi (set_store (mkSqlite (conn a_store) [Some "disk I/O error"%string] (watchers a_store) (chans a_store)) an_orch) 0 ∅ metrics_new [].
Lemma failing_inv : inv (o_store (ap_orch failing_api)).
Proof.
  assert (sq_inv a_store) as Ha by apply store_after_inv. unfold failing_api, inv. cbn [ap_orch o_store set_store SqliteStore_Laws].
  unfold sq_inv in *. exact Ha.
Qed.
Lemma request_gate_witness :
  (exists code e a', In code [401; 403; 404] /\ near an_api a' /\
    handle_request same_text a_cfg an_env in_order (a_request "DELETE" "/v1/sandboxes/a" "t2") an_api =
      (Ok (response_text code JSON (err_json e)), a')) /\
  (exists code e a', near failing_api a' /\
    handle_request same_text a_cfg an_env in_order (a_request "DELETE" "/v1/sandboxes/a" "t2") failing_api =
      (Ok (response_text code JSON (err_json e)), a')).
Proof.
  split.
  - destruct (request_gate same_text a_cfg an_env in_order (a_request "DELETE" "/v1/sandboxes/a" "t2") an_api eq_refl (proj1 an_api_ready))
      as (a' & Hs & [(p & (token & rec & [= <-] & Hk & _ & Hp & Hid) & _)|(code & e & He & [[Hc _]|[_ Hn]])]).
    + exfalso. specialize (Hid "a"%string eq_refl). vm_compute in Hk. vm_compute in Hid. injection Hk as <-. injection Hid as <-. discriminate Hp.
    + exists code, e, a'. done.
    + destruct (Hn (proj2 an_api_ready)).
  - destruct (request_gate same_text a_cfg an_env in_order (a_request "DELETE" "/v1/sandboxes/a" "t2") failing_api eq_refl failing_inv)
      as (a' & Hs & [(p & (token & rec & [= <-] & Hk & _ & Hp & Hid) & _)|(code & e & He & _)]).
    + exfalso. specialize (Hid "a"%string eq_refl). vm_compute in Hk. vm_compute in Hid. injection Hk as <-. injection Hid as <-. discriminate Hp.
    + exists code, e, a'. done.
Defined.

Lemma relay_transparent_witness :
  verify same_text a_gateway
    (parse_query (relay_path same_text local_gateway "12-rand-byte" 1000 "00-1-2-01" (Unexpose "a" 8080) "a" AUnexpose 8080)) 1059
    (Local ∅ : NonceGuard SqliteStore) = (Ok (mkTicket "a" AUnexpose 8080), Local ({[hex "12-rand-byte"]} ∪ ∅)).
Proof.
  assert (1059 < i64_saturating_add 1000 60) as Ht by (unfold i64_saturating_add, i64_min, i64_max; lia).
  assert (0 <= i64_saturating_add 1000 60) as He by (unfold i64_saturating_add, i64_min, i64_max; lia).
  pose proof (relay_transparent same_text (S := SqliteStore) (B := RefBackend.Ref) a_cfg a_cfg an_env an_env in_order
    "DELETE" "/v1/sandboxes/a/expose/8080" "" "a" AUnexpose "DELETE" 8080 "" "http://gw:9000" eq_refl eq_refl) as G.
  destruct G as (_ & G & _); [|lia|exact He|reflexivity|vm_compute; reflexivity|].
  - repeat split; constructor.
  - exact (G a_gateway 1059 ∅ eq_refl (not_elem_of_empty _) Ht).
Defined.

(** A path with an ampersand names another file when it is relayed. *)
Lemma relayed_file_truncated :
  forwardable_route (parse_route "GET" "/v1/sandboxes/a/files/etc/a&b") = Some (AFile, "GET"%string, 0, "&p=etc/a&b"%string) /\
  parse_query "/gw/file?sid=a&p=etc/a&b" !! "p"%string = Some "etc/a"%string.
Proof. split; vm_compute; reflexivity. Qed.
