(* ===== verification/Dataplane.v ===== *)
(** * The data plane (crates/sl-node/src/dataplane.rs)

    The standalone gateway and the nodes behind it: nodes dial out and park idle
    connections at the gateway; for a client the gateway verifies the ticket, looks up
    the node that owns the sandbox, borrows one of its connections and writes the ticket
    and the request on it; the node trusts the ticket and serves the request.  A
    connection is a number, and what can be read from it is the bytes that come before
    its end or an error.  The inside of a connection and the copying of bytes once it is
    lent are in Duplex and Relay. *)

From Stdlib Require Import ZArith Lia Bool List String Ascii.
From stdpp Require Import base tactics list gmap strings sorting.
From S2P Require Import Prelude RustStr Utf8 Json Store Sqlite SqliteSpec StoreTheorems Cluster Auth Proto Snapcrypt Backend Text Gateway Http Metrics Routes Api.

Open Scope Z_scope.

Definition PROTO : string := "sl-gw/1".
Definition OPEN : string := "OPEN ".

(** ** Lines *)

(** The bytes, and the error after them if there is one. *)
Record Input : Type := mkInput { in_bytes : string; in_error : option string }.

Fixpoint read_line_from (max : nat) (out bytes : string) (e : option string) : result (string * string) string :=
  match bytes with
  | EmptyString => match e with Some e => Err ("读协议行失败: " ++s e) | None => Err "对端在协议行前关闭"%string end
  | String b bytes' =>
      if Ascii.eqb b LF then Ok (out, bytes')
      else
        let out := out ++s String b "" in
        if (max <? String.length out)%nat then Err "协议行过长"%string else read_line_from max out bytes' e
  end.

(** The line, and what can be read after it. *)
Definition read_line (max : nat) (i : Input) : result (string * Input) string :=
  match read_line_from max "" (in_bytes i) (in_error i) with
  | Err e => Err e
  | Ok (out, rest) =>
      let line := from_utf8_lossy out in
      Ok (repeat_strip (String.length line) (strip_suffix (String CR "")) line, mkInput rest (in_error i))
  end.

(** ** The pool of the gateway *)

Definition Chan : Type := nat.

Record NodePool : Type := mkPool {
  np_inner : gmap string (list (Chan * Z));
  np_taken : Z;
  np_misses : Z;
  np_closed : list Chan
}.

Definition pool_new : NodePool := mkPool ∅ 0 0 [].

Definition park (node_id : string) (ch : Chan) (now : Z) (p : NodePool) : NodePool :=
  mkPool (<[node_id := default [] (np_inner p !! node_id) ++ [(ch, now)]]> (np_inner p)) (np_taken p) (np_misses p) (np_closed p).

(** The first one that is not too old; the older ones before it are closed. *)
Fixpoint pop_fresh (max_idle now : Z) (q : list (Chan * Z)) : option Chan * list (Chan * Z) * list Chan :=
  match q with
  | [] => (None, [], [])
  | (ch, since) :: q' =>
      if Z.max 0 (now - since) <=? max_idle then (Some ch, q', [])
      else let '(r, q'', closed) := pop_fresh max_idle now q' in (r, q'', ch :: closed)
  end.

Definition try_take (max_idle : Z) (node_id : string) (now : Z) (p : NodePool) : option Chan * NodePool :=
  match np_inner p !! node_id with
  | None => (None, p)
  | Some q =>
      let '(r, q', closed) := pop_fresh max_idle now q in
      (r, mkPool (<[node_id := q']> (np_inner p)) (match r with Some _ => np_taken p + 1 | None => np_taken p end) (np_misses p) (np_closed p ++ closed))
  end.

Definition miss (p : NodePool) : NodePool := mkPool (np_inner p) (np_taken p) (np_misses p + 1) (np_closed p).

(** What happens while a taker waits: connections parked, and the time it wakes. *)
Definition Wakes : Type := list (list (string * Chan * Z) * Z).
Definition parked_all (ps : list (string * Chan * Z)) (p : NodePool) : NodePool :=
  fold_left (fun p '(node, ch, t) => park node ch t p) ps p.

(** Waking without an event is the end of the wait. *)
Fixpoint take_conn (max_idle : Z) (node_id : string) (deadline now : Z) (wakes : Wakes) (p : NodePool) : option Chan * NodePool :=
  match try_take max_idle node_id now p with
  | (Some ch, p') => (Some ch, p')
  | (None, p') =>
      if deadline - now <=? 0 then (None, miss p')
      else
        match wakes with
        | [] => match try_take max_idle node_id deadline p' with (Some ch, p'') => (Some ch, p'') | (None, p'') => (None, miss p'') end
        | (ps, now') :: wakes' => take_conn max_idle node_id deadline now' wakes' (parked_all ps p')
        end
  end.

Definition pair_le (a b : string * nat) : Prop := str_lt a.1 b.1 = true \/ (a.1 = b.1 /\ (a.2 <= b.2)%nat).
#[global] Instance pair_le_dec a b : Decision (pair_le a b) := ltac:(unfold pair_le; apply _).

Definition depths (p : NodePool) : list (string * nat) :=
  merge_sort pair_le (map (fun '(k, q) => (k, length q)) (map_to_list (np_inner p))).

(** ** The node *)

(** The first line of a connection a node dials. *)
Definition greeting (node_id : string) : string := PROTO ++s " data " ++s node_id ++s String LF "".

Section Ops.
Context `{SerdeJson}.

Definition open_line (t : Ticket) : string :=
  OPEN ++s "{" ++s quoted "sid" ++s ":" ++s quoted (t_sid t) ++s "," ++s quoted "action" ++s ":" ++s quoted (action_as_str (t_action t)) ++s "," ++s
  quoted "port" ++s ":" ++s dec (t_port t) ++s "}" ++s String LF "".

(** The ticket on a borrowed connection and what follows it, none when the gateway
    closed it.  [parse_error]: the text of a parse error. *)
Definition serve_one (parse_error : string -> string) (i : Input) : result (option (Ticket * Input)) string :=
  match read_line 4096 i with
  | Err _ => Ok None
  | Ok (line, rest) =>
      match strip_prefix OPEN line with
      | None => Err ("非法开流行: " ++s line)
      | Some json =>
          match from_slice json with
          | None => Err ("开流行非 JSON: " ++s parse_error json)
          | Some v =>
              match vget v "sid" ≫= vas_str with
              | None => Err "开流行缺 sid"%string
              | Some sid =>
                  match (vget v "action" ≫= vas_str) ≫= action_from_str with
                  | None => Err "开流行 action 非法"%string
                  | Some action => Ok (Some (mkTicket sid action (as_u32 (default 0 (vget v "port" ≫= vas_u64))), rest))
                  end
              end
          end
      end
  end.

(** ** The gateway *)

(** The greeting of a node: the node the connection is parked for. *)
Definition accept_node (ch : Chan) (now : Z) (i : Input) (p : NodePool) : result unit string * NodePool :=
  match read_line 512 i with
  | Err e => (Err e, p)
  | Ok (line, _) =>
      match split_whitespace line with
      | proto :: rest =>
          if negb (String.eqb proto PROTO) then (Err ("协议版本不符: " ++s line), p)
          else
            match rest with
            | role :: rest' =>
                if negb (String.eqb role "data") then (Err ("未知角色: " ++s line), p)
                else match rest' with node_id :: _ => (Ok tt, park node_id ch now p) | [] => (Err "问候行缺 node_id"%string, p) end
            | [] => (Err ("未知角色: " ++s line), p)
            end
      | [] => (Err ("协议版本不符: " ++s line), p)
      end
  end.

Context (Sha256 : string -> string) {S : Type} `{Store S}.

Definition owner_of (sid : string) : M S string (option string) :=
  let? kv := text (get (sandbox_node_key sid)) in
  mret ((fun kv => from_utf8_lossy (kv_value kv)) <$> kv).

(** An answer of the gateway's own, or a connection that now carries the request. *)
Inductive ClientOutcome : Type :=
| Answer (text : string)
| Lent (ch : Chan) (sent : string).

Definition forwarded_head (method path body : string) : string :=
  method ++s " " ++s path ++s " HTTP/1.1" ++s CRLF ++s "Host: sandlocker" ++s CRLF ++s "Content-Length: " ++s
  dec (Z.of_nat (String.length body)) ++s CRLF ++s "Connection: close" ++s CRLF2.

Record GwEnv : Type := mkGwEnv {
  ge_now : Z;
  ge_clock : Z;
  ge_wait : Z;
  ge_max_idle : Z;
  ge_wakes : Wakes;
  ge_writes : Chan -> bool
}.

(** Both handles of the gateway are of one store. *)
Definition gw_check (g : Gateway) (q : gmap string string) (now : Z) : M S string (result Ticket string) := fun s =>
  match verify Sha256 g q now (Shared s) with
  | (r, Shared s') => (Ok r, s')
  | (r, Local _) => (Ok r, s)
  end.

Definition answered (code : Z) (e : string) : ClientOutcome := Answer (response_text code "application/json" (err_json e)).

(** The node a ticket is for. *)
Definition target_of (t : Ticket) : M S string (option string) :=
  match node_target t with Some n => mret (Some n) | None => owner_of (t_sid t) end.

Definition borrow (env : GwEnv) (rq : HttpRequest) (t : Ticket) (owner : string) (p : NodePool) : ClientOutcome * NodePool :=
  match take_conn (ge_max_idle env) owner (ge_clock env + ge_wait env) (ge_clock env) (ge_wakes env) p with
  | (None, p') => (answered 503 ("节点 " ++s owner ++s " 未接入网关（无可用数据面连接）"), p')
  | (Some ch, p') =>
      if ge_writes env ch then (Lent ch (open_line t ++s forwarded_head (rq_method rq) (rq_path rq) (rq_body rq) ++s rq_body rq), p')
      else (answered 502 "节点连接已失效", mkPool (np_inner p') (np_taken p') (np_misses p') (np_closed p' ++ [ch]))
  end.

Definition handle_client (g : Gateway) (env : GwEnv) (rs : Reads) : M (S * NodePool) string ClientOutcome := fun st =>
  match read_request rs with
  | Err e => (Err e, st)
  | Ok rq =>
      let '(s, p) := st in
      match gw_check g (parse_query (rq_path rq)) (ge_now env) s with
      | (Err e, s1) => (Err e, (s1, p))
      | (Ok (Err e), s1) => (Ok (answered 403 ("ticket 无效: " ++s e)), (s1, p))
      | (Ok (Ok t), s1) =>
          match target_of t s1 with
          | (Err e, s2) => (Err e, (s2, p))
          | (Ok None, s2) => (Ok (answered 404 "未知沙箱或已回收"), (s2, p))
          | (Ok (Some owner), s2) => let '(r, p') := borrow env rq t owner p in (Ok r, (s2, p'))
          end
      end
  end.
End Ops.

(** The node's side of a borrowed connection ([serve]'s agent): the ticket, then the
    request that follows it.  [cut]: how the bytes arrive. *)
Definition agent_serve {S B : Type} `{Store S} `{SandboxBackend B} `{ApiJson} (cfg : ApiConfig) (env : ApiEnv)
    (iter : gmap Z ExposeHandle -> list ExposeHandle) (parse_error : string -> string) (cut : Input -> Reads) (i : Input)
    : M (Api S B) string (option string) :=
  match serve_one parse_error i with
  | Err e => mfail e
  | Ok None => mret None
  | Ok (Some (t, rest)) =>
      match read_request (cut rest) with
      | Err e => mfail e
      | Ok rq => let? text := serve_gw_ticket cfg env iter t (rq_method rq) (rq_path rq) (rq_body rq) in mret (Some text)
      end
  end.
