(* ===== verification/Forwarding.v ===== *)
(** * Forwarding between nodes, end to end

    A request that reaches the wrong replica goes to the gateway with a ticket, from the
    gateway to a connection of the node that owns the sandbox, and is carried out there.
    The connections of the pool are lent once, to the node's own requests only. *)

From Stdlib Require Import ZArith Lia Bool List String Ascii.
From stdpp Require Import base tactics list gmap strings sorting.
From S2P Require Import Prelude RustStr Utf8 Json Store Sqlite SqliteSpec StoreTheorems Cluster Auth Quota Proto Snapcrypt Backend Orch OrchSafety OrchReaper OrchTenancy Gateway Text Base64 Http HttpText Metrics Routes Api ApiSafety Dataplane.

Open Scope Z_scope.

(** ** The pool *)

Section Pool.
Context (max_idle : Z).

(** The connections parked for a node. *)
Definition queue (p : NodePool) (node : string) : list Chan := map fst (default [] (np_inner p !! node)).

(** No connection is parked twice. *)
Definition unique (p : NodePool) : Prop :=
  (forall node, NoDup (queue p node)) /\ (forall n1 n2 ch, ch ∈ queue p n1 -> ch ∈ queue p n2 -> n1 = n2).

Definition parked (p : NodePool) (ch : Chan) : Prop := exists node, ch ∈ queue p node.

Lemma queue_park p node ch now n : queue (park node ch now p) n = if decide (n = node) then queue p node ++ [ch] else queue p n.
Proof.
  unfold queue, park. cbn [np_inner]. case_decide as Hn.
  - subst n. rewrite lookup_insert_eq. simpl. by rewrite List.map_app.
  - by rewrite lookup_insert_ne.
Qed.

Lemma unique_park p node ch now : unique p -> ~ parked p ch -> unique (park node ch now p).
Proof.
  intros [Hn Hd] Hf. assert (forall n c, c ∈ queue (park node ch now p) n -> (c = ch /\ n = node) \/ c ∈ queue p n) as Hin.
  { intros n c. rewrite queue_park. case_decide as E; [subst n|auto]. rewrite elem_of_app, list_elem_of_singleton. intros [?|?]; auto. }
  split.
  - intros n. rewrite queue_park. case_decide as E; [|done]. apply NoDup_app. split; [done|]. split; [|apply NoDup_singleton].
    intros c Hc Hx%list_elem_of_singleton. apply Hf. exists node. by subst c.
  - intros n1 n2 c H1 H2. apply Hin in H1. apply Hin in H2.
    destruct H1 as [[E1 E2]|H1]; destruct H2 as [[E3 E4]|H2]; [congruence| | |by eapply Hd]; exfalso; apply Hf; subst c.
    + by exists n2.
    + by exists n1.
Qed.

(** What [pop_fresh] leaves is a suffix of the queue. *)
Lemma pop_fresh_suffix now q r q' closed :
  pop_fresh max_idle now q = (r, q', closed) ->
  exists pre, q = pre ++ q' /\ match r with Some ch => exists since pre', pre = pre' ++ [(ch, since)] | None => q' = [] end.
Proof.
  revert r q' closed; induction q as [|[c since] q IH]; intros r q' closed; cbn [pop_fresh].
  - intros [= <- <- <-]. by exists [].
  - destruct (_ <=? _).
    + intros [= <- <- <-]. exists [(c, since)]. split; [done|]. by exists since, [].
    + destruct (pop_fresh max_idle now q) as [[r0 q0] cl] eqn:E. intros [= <- <- <-]. destruct (IH _ _ _ eq_refl) as (pre & -> & Hr).
      exists ((c, since) :: pre). split; [done|]. destruct r0 as [ch|]; [|done]. destruct Hr as (s & pre' & ->). by exists s, ((c, since) :: pre').
Qed.

(** A connection that is lent was parked for that node, and leaves the pool; the others
    stay or are closed. *)
Lemma try_take_spec node now p r p' :
  try_take max_idle node now p = (r, p') ->
  (forall n ch, ch ∈ queue p' n -> ch ∈ queue p n) /\ (unique p -> unique p') /\
  forall ch, r = Some ch -> ch ∈ queue p node /\ (unique p -> ~ parked p' ch).
Proof.
  unfold try_take. destruct (np_inner p !! node) as [q|] eqn:Eq.
  2:{ intros [= <- <-]. split; [done|]. split; [done|]. by intros ch. }
  destruct (pop_fresh max_idle now q) as [[r0 q'] closed] eqn:E. intros [= <- <-].
  destruct (pop_fresh_suffix _ _ _ _ _ E) as (pre & -> & Hr).
  assert (forall n, queue (mkPool (<[node := q']> (np_inner p)) (match r0 with Some _ => np_taken p + 1 | None => np_taken p end) (np_misses p) (np_closed p ++ closed)) n
            = if decide (n = node) then map fst q' else queue p n) as Hq.
  { intros n. unfold queue. cbn [np_inner]. case_decide as En; [subst n; by rewrite lookup_insert_eq|by rewrite lookup_insert_ne]. }
  assert (queue p node = map fst pre ++ map fst q') as Hp by (unfold queue; rewrite Eq; cbn; by rewrite map_app).
  assert (forall n ch, ch ∈ (if decide (n = node) then map fst q' else queue p n) -> ch ∈ queue p n) as Hsub.
  { intros n ch. case_decide as En; [subst n; rewrite Hp; set_solver|done]. }
  split; [intros n ch; rewrite Hq; apply Hsub|]. split.
  - intros [Hn Hd]. split.
    + intros n. rewrite Hq. case_decide as En; [|done]. specialize (Hn node). rewrite Hp in Hn. by apply NoDup_app in Hn as (_ & _ & ?).
    + intros n1 n2 ch. rewrite !Hq. intros H1%Hsub H2%Hsub. by eapply Hd.
  - intros ch ->. destruct Hr as (since & pre' & ->). rewrite map_app in Hp. cbn [map fst] in Hp. split; [rewrite Hp; set_solver|].
    intros [Hn Hd] (n & Hin). rewrite Hq in Hin. case_decide as En.
    + subst n. specialize (Hn node). rewrite Hp in Hn. apply NoDup_app in Hn as (_ & Hdis & _). apply (Hdis ch); [set_solver|done].
    + apply En, (Hd n node ch Hin). rewrite Hp. set_solver.
Qed.

(** The steps of the threads of the gateway, each under the lock: a node's connection
    arrives, a taker looks. *)
Inductive PoolEvent : Type :=
| PPark (node : string) (ch : Chan) (now : Z)
| PTry (node : string) (now : Z).

(** Who was lent what. *)
Fixpoint lent (evs : list PoolEvent) (p : NodePool) : list (string * Chan) :=
  match evs with
  | [] => []
  | PPark node ch now :: evs' => lent evs' (park node ch now p)
  | PTry node now :: evs' =>
      match try_take max_idle node now p with
      | (Some ch, p') => (node, ch) :: lent evs' p'
      | (None, p') => lent evs' p'
      end
  end.

Fixpoint arrivals (evs : list PoolEvent) : list (string * Chan) :=
  match evs with [] => [] | PPark node ch _ :: evs' => (node, ch) :: arrivals evs' | PTry _ _ :: evs' => arrivals evs' end.

Lemma lent_from evs p node ch : (node, ch) ∈ lent evs p -> ch ∈ queue p node \/ (node, ch) ∈ arrivals evs.
Proof.
  revert p; induction evs as [|[n c t|n t] evs IH]; intros p; cbn [lent arrivals]; [by intros ?%not_elem_of_nil| |].
  - intros [Hq|Hin]%IH; [|right; by right]. rewrite queue_park in Hq. case_decide as E; [|by left]. subst n.
    apply elem_of_app in Hq as [?|Hc%list_elem_of_singleton]; [by left|]. right. subst c. by left.
  - destruct (try_take max_idle n t p) as [[c|] p'] eqn:E; destruct (try_take_spec _ _ _ _ _ E) as (Hsub & _ & Hc).
    + intros [Heq|Hin]%elem_of_cons; [injection Heq as -> ->; left; by apply (Hc c)|]. apply IH in Hin as [?|?]; [left; by apply Hsub|by right].
    + intros [?|?]%IH; [left; by apply Hsub|by right].
Qed.

Lemma lent_nodup evs p :
  unique p -> NoDup (map snd (arrivals evs)) -> (forall ch, parked p ch -> ch ∉ map snd (arrivals evs)) -> NoDup (map snd (lent evs p)).
Proof.
  revert p; induction evs as [|[n c t|n t] evs IH]; intros p Hu Hnd Hf; cbn [lent arrivals map snd] in *; [constructor| |].
  - apply NoDup_cons in Hnd as [Hc Hnd]. apply IH; [|done|].
    + apply unique_park; [done|]. intros Hp. apply (Hf c Hp). by left.
    + intros ch [node Hq]. rewrite queue_park in Hq. case_decide as E.
      * apply elem_of_app in Hq as [Hq|Hq%list_elem_of_singleton]; [|by subst ch]. intros Hin. apply (Hf ch); [by exists n|by right].
      * intros Hin. apply (Hf ch); [by exists node|by right].
  - destruct (try_take max_idle n t p) as [[c|] p'] eqn:E; destruct (try_take_spec _ _ _ _ _ E) as (Hsub & Hu' & Hc).
    + cbn [map snd]. destruct (Hc c eq_refl) as [Hq Hnp]. apply NoDup_cons. split; [|apply IH; [by apply Hu'|done|]].
      * intros Hin. apply list_elem_of_In, in_map_iff in Hin as ([node c'] & <- & Hin). apply list_elem_of_In in Hin.
        apply lent_from in Hin as [Hin|Hin]; [apply (Hnp Hu); by exists node|].
        apply (Hf c'); [by exists n|]. apply list_elem_of_In, in_map_iff. exists (node, c'). split; [done|by apply list_elem_of_In].
      * intros ch [node Hch]. apply Hf. exists node. by apply Hsub.
    + apply IH; [by apply Hu'|done|]. intros ch [node Hch]. apply Hf. exists node. by apply Hsub.
Qed.
End Pool.

(**  a borrowed connection is one client's alone, and its node's.  Whatever the order in which
    nodes park connections and clients look for one, from an empty pool no connection is
    lent twice, and each one that is lent was parked by the node it was asked for. *)
Theorem connections_exclusive (max_idle : Z) (evs : list PoolEvent) :
  NoDup (map snd (arrivals evs)) ->
  NoDup (map snd (lent max_idle evs pool_new)) /\ forall node ch, (node, ch) ∈ lent max_idle evs pool_new -> (node, ch) ∈ arrivals evs.
Proof.
  assert (forall node, queue pool_new node = []) as He by (intros node; unfold queue; cbn; by rewrite lookup_empty).
  intros Hnd. split.
  - apply lent_nodup; [|done|intros ch [node Hq]; rewrite He in Hq; by apply not_elem_of_nil in Hq].
    split; intros; rewrite ?He in *; [constructor|]. by apply not_elem_of_nil in H.
  - intros node ch [Hq|?]%lent_from; [|done]. rewrite He in Hq. by apply not_elem_of_nil in Hq.
Qed.

Definition a_pool_run : list PoolEvent :=
  [PPark "n1" 1%nat 0; PPark "n2" 2%nat 0; PTry "n1" 5; PTry "n1" 6; PPark "n1" 3%nat 7; PTry "n2" 100; PTry "n1" 8].

Lemma connections_exclusive_witness :
  lent 60 a_pool_run pool_new = [("n1"%string, 1%nat); ("n1"%string, 3%nat)] /\ NoDup (map snd (lent 60 a_pool_run pool_new)).
Proof.
  split; [vm_compute; reflexivity|]. apply (connections_exclusive 60 a_pool_run). repeat constructor; set_solver.
Defined.

(** ** The ticket and the request on a connection *)

Lemma parked_all_from ps p node ch :
  ch ∈ queue (parked_all ps p) node -> ch ∈ queue p node \/ exists t, (node, ch, t) ∈ ps.
Proof.
  revert p; induction ps as [|[[n c] t] ps IH]; intros p; [by left|]. unfold parked_all. cbn [fold_left].
  intros [Hq|[t' Hin]]%IH; [|right; exists t'; by right]. rewrite queue_park in Hq. case_decide as E; [|by left]. subst n.
  apply elem_of_app in Hq as [?|Hc%list_elem_of_singleton]; [by left|]. right. exists t. subst c. by left.
Qed.

(** A connection of the node: parked before, or while the client waited. *)
Definition of_node (p : NodePool) (wakes : Wakes) (node : string) (ch : Chan) : Prop :=
  ch ∈ queue p node \/ exists ps now t, (ps, now) ∈ wakes /\ (node, ch, t) ∈ ps.

Lemma take_conn_from max_idle node deadline wakes now p ch p' :
  take_conn max_idle node deadline now wakes p = (Some ch, p') -> of_node p wakes node ch.
Proof.
  revert now p; induction wakes as [|[ps now'] wakes IH]; intros now p; cbn [take_conn];
    destruct (try_take max_idle node now p) as [[c|] p1] eqn:E; destruct (try_take_spec _ _ _ _ _ _ E) as (Hsub & _ & Hc).
  - intros [= <- _]. left. by apply (Hc c).
  - destruct (_ <=? _); [done|]. destruct (try_take max_idle node deadline p1) as [[c|] p2] eqn:E2; [|done]. intros [= <- _].
    destruct (try_take_spec _ _ _ _ _ _ E2) as (_ & _ & Hc2). left. apply Hsub. by apply (Hc2 c).
  - intros [= <- _]. left. by apply (Hc c).
  - destruct (_ <=? _); [done|]. intros [[Hq|[t Hin]]%parked_all_from|(ps' & n' & t & Hw & Hin)]%IH.
    + left. by apply Hsub.
    + right. exists ps, now', t. split; [by left|done].
    + right. exists ps', n', t. split; [by right|done].
Qed.

Lemma read_line_from_app max out line rest e :
  contains_char LF line = false -> (String.length out + String.length line <= max)%nat ->
  read_line_from max out (line ++s String LF rest) e = Ok (out ++s line, rest).
Proof.
  revert out; induction line as [|c line IH]; intros out Hl Hm; cbn [String.append read_line_from].
  - by rewrite Ascii.eqb_refl, app_nil_s.
  - cbn [contains_char] in Hl. apply orb_false_iff in Hl as [Hc Hl]. rewrite Ascii.eqb_sym, Hc. cbn [String.length] in Hm.
    assert (String.length (out ++s String c "") = S (String.length out)) as Hn by (rewrite app_length_s; simpl; lia).
    rewrite Hn. rewrite (proj2 (Nat.ltb_ge _ _)) by lia. rewrite IH by (done || lia). by rewrite app_assoc_s.
Qed.

(** A line of printable text is read as it was written. *)
Lemma read_line_written max line rest e :
  is_ascii line = true -> contains_char LF line = false -> contains_char CR line = false -> (String.length line <= max)%nat ->
  read_line max (mkInput (line ++s String LF rest) e) = Ok (line, mkInput rest e).
Proof.
  intros Ha Hl Hc Hm. unfold read_line. cbn [in_bytes in_error]. rewrite read_line_from_app by (done || simpl; lia). cbn [String.append].
  rewrite from_utf8_lossy_valid by by apply is_ascii_valid. destruct (String.length line); [done|]. cbn [repeat_strip].
  destruct (strip_suffix (String CR "") line) as [r|] eqn:E; [|done]. apply strip_suffix_some in E.
  rewrite E, contains_char_app in Hc. cbn [contains_char] in Hc. by rewrite Ascii.eqb_refl, orb_true_r in Hc.
Qed.

(** A ticket whose sandbox has a printable name without quotes and backslashes, and that
    fits on a line. *)
Definition plain_ticket (t : Ticket) : Prop :=
  visible (t_sid t) = true /\ json_escape (t_sid t) = t_sid t /\ (String.length (open_line t) <= 4097)%nat /\ 0 <= t_port t < 2 ^ 32.

Definition ticket_json (t : Ticket) : json :=
  JObj [("sid"%string, JStr (t_sid t)); ("action"%string, JStr (action_as_str (t_action t))); ("port"%string, JNum (t_port t))].

Section Opened.
Context {HJ : SerdeJson} {HL : SerdeJsonLaws}.

Lemma open_line_eq t : plain_ticket t -> open_line t = (OPEN ++s render (ticket_json t)) ++s String LF "".
Proof.
  intros (_ & He & _). unfold ticket_json. rewrite render_obj. cbn [fields_text render]. rewrite He.
  assert (json_escape (action_as_str (t_action t)) = action_as_str (t_action t)) as -> by by destruct (t_action t).
  unfold open_line. rewrite !app_assoc_s. reflexivity.
Qed.

Lemma ticket_json_wf t : visible (t_sid t) = true -> 0 <= t_port t < 2 ^ 32 -> wf_json (ticket_json t) = true.
Proof.
  intros Hv Hp. cbn [ticket_json wf_json forallb fst snd]. assert (plain_text (t_sid t) = true) as ->.
  { unfold plain_text. rewrite is_ascii_valid by by apply visible_ascii. cbn [andb]. apply forallb_forall. intros c Hin.
    unfold visible in Hv. rewrite forallb_forall in Hv. specialize (Hv c Hin). unfold visible_char in Hv. lia. }
  assert (plain_text (action_as_str (t_action t)) = true) as -> by by destruct (t_action t).
  unfold i64_min, u64_max. rewrite (proj2 (Z.leb_le _ _)) by lia. rewrite (proj2 (Z.leb_le _ _)) by lia. reflexivity.
Qed.

Lemma quoted_ascii s : is_ascii (quoted s) = is_ascii s.
Proof. unfold quoted. change (String quote (s ++s String quote "")) with (String quote "" ++s (s ++s String quote "")). rewrite !is_ascii_app. apply andb_true_r. Qed.

Lemma quoted_contains c s : Ascii.eqb c quote = false -> contains_char c (quoted s) = contains_char c s.
Proof.
  intros Hc. unfold quoted. cbn [contains_char]. rewrite contains_char_app. cbn [contains_char]. rewrite Hc. cbn [orb]. apply orb_false_r.
Qed.

Lemma line_printable t :
  json_escape (t_sid t) = t_sid t -> visible (t_sid t) = true -> 0 <= t_port t ->
  let line := OPEN ++s render (ticket_json t) in
  is_ascii line = true /\ contains_char LF line = false /\ contains_char CR line = false.
Proof.
  intros He Hv Hp line. unfold line, ticket_json. rewrite render_obj. cbn [fields_text render]. rewrite He.
  assert (visible (action_as_str (t_action t)) = true) as Hact by by destruct (t_action t).
  assert (json_escape (action_as_str (t_action t)) = action_as_str (t_action t)) as -> by by destruct (t_action t).
  pose proof (dec_visible _ Hp) as Hd.
  set (a := t_sid t) in *. set (b := action_as_str (t_action t)) in *. set (d := dec (t_port t)) in *. clearbody a b d.
  split_and!.
  - rewrite !is_ascii_app, !quoted_ascii, !(visible_ascii a), !(visible_ascii b), !(visible_ascii d) by done. reflexivity.
  - rewrite !contains_char_app, !quoted_contains, (visible_no_char LF a), (visible_no_char LF b), (visible_no_char LF d) by done. reflexivity.
  - rewrite !contains_char_app, !quoted_contains, (visible_no_char CR a), (visible_no_char CR b), (visible_no_char CR d) by done. reflexivity.
Qed.

Lemma serve_one_opened parse_error t rest e :
  plain_ticket t -> serve_one parse_error (mkInput (open_line t ++s rest) e) = Ok (Some (t, mkInput rest e)).
Proof.
  intros Ht. pose proof (open_line_eq t Ht) as Eo. destruct Ht as (Hv & He & Hlen & Hp). rewrite Eo in *. rewrite app_assoc_s. unfold serve_one.
  change (String LF "" ++s rest) with (String LF rest). rewrite app_length_s in Hlen. cbn [String.length] in Hlen.
  pose proof (line_printable t He Hv ltac:(lia)) as (Ha & Hl & Hc).
  rewrite read_line_written by (done || lia). rewrite strip_prefix_app. rewrite from_slice_render by by apply ticket_json_wf.
  unfold ticket_json. rewrite !vget_obj. unfold Json.field; cbn [List.rev List.app List.find fst snd String.eqb Ascii.eqb Bool.eqb option_map base.mbind option_bind].
  rewrite !vas_str_str. cbn [base.mbind option_bind]. rewrite action_roundtrip.
  rewrite vas_u64_num by (right; unfold in_u64, u64_max; lia). rewrite (proj2 (Z.leb_le 0 (t_port t))) by lia. cbn [default].
  destruct t as [sid act port]. cbn [t_sid t_action t_port] in *. unfold as_u32, id. rewrite Z.mod_small by lia. done.
Qed.
End Opened.

(** A request whose line is printable and whose header fits. *)
Definition plain_request (rq : HttpRequest) : Prop :=
  let head := relay_lines (rq_method rq) (rq_path rq) "sandlocker" (Z.of_nat (String.length (rq_body rq))) in
  visible (rq_method rq) = true /\ visible (rq_path rq) = true /\ rq_path rq <> ""%string /\
  match rq_method rq with String c _ => Ascii.eqb (to_ascii_lowercase c) "c" = false | EmptyString => False end /\
  (String.length head + 3 + 1024 <= HEADER_LIMIT)%nat /\ Z.of_nat (String.length (head ++s CRLF2 ++s rq_body rq)) < 2 ^ 64.

Lemma forwarded_head_lines method path body :
  forwarded_head method path body ++s body = relay_lines method path "sandlocker" (Z.of_nat (String.length body)) ++s CRLF2 ++s body.
Proof. unfold forwarded_head, relay_lines. rewrite !app_assoc_s. reflexivity. Qed.

(** The node reads the request the gateway forwards. *)
Lemma forwarded_read rq rs :
  plain_request rq -> brings 1024 rs (forwarded_head (rq_method rq) (rq_path rq) (rq_body rq) ++s rq_body rq) ->
  exists key tp, read_request rs = Ok (mkRequest (rq_method rq) (rq_path rq) key tp (rq_body rq)).
Proof.
  intros (Hm & Hp & Hp0 & Hc & Hlim & H64) Hb. rewrite forwarded_head_lines in Hb.
  apply (relay_read (rq_method rq) (rq_path rq) "sandlocker" (Z.of_nat (String.length (rq_body rq))) (rq_body rq)); try done; try lia.
  - by destruct (rq_method rq).
  - by destruct (rq_method rq).
Qed.

(** C8: a lent connection carries the ticket and the request, whole.  When the gateway
    forwards a client's request, the ticket verified there; the connection is one that
    the node of the ticket parked (the node it names, else the owner in the store); and
    the node at its other end, however the bytes arrive, does for that ticket what its
    gateway door does for the client's own method, path and body. *)
Theorem forwarded_intact (Sha256 : string -> string) {S B : Type} `{Store S} `{SandboxBackend B}
    {HJ : SerdeJson} {HA : ApiJson} {HL : SerdeJsonLaws}
    (g : Gateway) (env : GwEnv) (rs : Reads) (rq : HttpRequest) (s s' : S) (p p' : NodePool) (ch : Chan) (sent : string) :
  read_request rs = Ok rq -> plain_request rq ->
  handle_client Sha256 g env rs (s, p) = (Ok (Lent ch sent), (s', p')) ->
  exists t owner s1, gw_check Sha256 g (parse_query (rq_path rq)) (ge_now env) s = (Ok (Ok t), s1) /\
    target_of t s1 = (Ok (Some owner), s') /\ of_node p (ge_wakes env) owner ch /\
    (plain_ticket t -> forall (cfg : ApiConfig) (node_env : ApiEnv) iter parse_error cut e,
       (forall i, brings 1024 (cut i) (in_bytes i)) ->
       forall a : Api S B, agent_serve cfg node_env iter parse_error cut (mkInput sent e) a =
         (let? text := serve_gw_ticket cfg node_env iter t (rq_method rq) (rq_path rq) (rq_body rq) in mret (Some text)) a).
Proof.
  intros Hr Hpl. unfold handle_client. rewrite Hr. destruct (gw_check _ _ _ _ s) as [[[t|e]|e] s1] eqn:Eg; try done.
  destruct (target_of t s1) as [[[owner|]|e] s2] eqn:Et; try done. unfold borrow.
  destruct (take_conn _ _ _ _ _ p) as [[c|] p1] eqn:Ek; [|done]. destruct (ge_writes env c); [|done].
  remember (open_line t ++s _) as line eqn:El. intros [= -> <- -> _]. subst line.
  exists t, owner, s1. split_and!; [done|done|by eapply take_conn_from|].
  intros Ht cfg node_env iter parse_error cut e Hcut a. unfold agent_serve. rewrite serve_one_opened by done.
  destruct (forwarded_read rq _ Hpl (Hcut (mkInput _ e))) as (key & tp & ->). reflexivity.
Qed.

Import RefJson RefBackend RefApi.

Definition a_gw_path : string := "/gw/exec" ++s
  String "?" (join "&" (ticket_params toy_hash (gw_secret a_gateway) "a" AExec 0 1060 (hex "12-rand-byte"))).
Definition a_gw_request : HttpRequest := mkRequest "POST" a_gw_path None None "{}".
Definition a_gw_reads : Reads := [Ok (forwarded_head "POST" a_gw_path "{}" ++s "{}")].
Definition a_gw_store : SqliteStore := store_after [OPut (sandbox_node_key "a") "n1" None].
Definition a_gw_env : GwEnv := mkGwEnv 1001 5 10 60 [([("n1"%string, 7%nat, 6)], 6)] (fun _ => true).

(** The client waits, the owner parks connection 7, and the request goes there. *)
Lemma forwarded_intact_witness :
  exists sent s' p' t owner s1, handle_client toy_hash a_gateway a_gw_env a_gw_reads (a_gw_store, pool_new) = (Ok (Lent 7%nat sent), (s', p')) /\
    gw_check toy_hash a_gateway (parse_query a_gw_path) 1001 a_gw_store = (Ok (Ok t), s1) /\
    target_of t s1 = (Ok (Some owner), s') /\ of_node pool_new (ge_wakes a_gw_env) owner 7%nat.
Proof.
  assert (match (handle_client toy_hash a_gateway a_gw_env a_gw_reads (a_gw_store, pool_new)).1 with Ok (Lent ch _) => (ch =? 7)%nat | _ => false end = true) as E by (vm_compute; reflexivity).
  destruct (handle_client toy_hash a_gateway a_gw_env a_gw_reads (a_gw_store, pool_new)) as [[[x|ch sent]|e] [s' p']] eqn:Er; try discriminate E. cbn [fst] in E. apply Nat.eqb_eq in E. subst ch.
  destruct (forwarded_intact toy_hash (S := SqliteStore) (B := Ref) a_gateway a_gw_env a_gw_reads a_gw_request a_gw_store s'
              pool_new p' 7%nat sent) as (t & owner & s1 & H1 & H2 & H3 & _).
  - vm_compute. reflexivity.
  - split; [reflexivity|]. split; [vm_compute; reflexivity|]. split; [discriminate|]. split; [reflexivity|]. split.
    + apply Nat.leb_le. vm_compute. reflexivity.
    + vm_compute. reflexivity.
  - exact Er.
  - exists sent, s', p', t, owner, s1. split; [exact eq_refl|]. split; [exact H1|]. split; [exact H2|exact H3].
Defined.
