(* ===== verification/Duplex.v ===== *)
(** * The full-duplex connection of the data plane ([Duplex] of crates/sl-node/src/dataplane.rs)

    A connection between a node and the gateway is used by several threads at once: the
    TLS state machine is behind one lock, the writing half of the socket behind another,
    and decrypted bytes wait in a buffer.  The model is a machine whose threads execute
    [do_read], [do_write] and [drain_plaintext] one action at a time, in any order that
    the locks allow.  The TLS state machine (rustls) is a parameter.  The theorems: the
    records of concurrent writers reach the socket in the order they were made, the
    locks cannot deadlock, and the reader gets exactly the plaintext of the stream.  The
    plaintext variant hands its calls to the socket and has no state of its own. *)

From Stdlib Require Import ZArith Lia Bool List String Ascii.
From stdpp Require Import base tactics list option strings.
From S2P Require Import Prelude RustStr Proto.

Open Scope Z_scope.

Definition RELAY_BUF : nat := 32 * 1024.
#[global] Opaque RELAY_BUF.

(** ** The TLS state machine *)

Class TlsConn (C : Type) : Type := {
  (** [writer().write_all] *)
  tls_write : string -> C -> result unit string * C;
  wants_write : C -> bool;
  (** The records that [write_tls] appends to the caller's buffer. *)
  write_tls : C -> result string string * C;
  (** [reader().read]: none when it would block. *)
  tls_read : nat -> C -> result (option string) string * C;
  (** The number of bytes it took. *)
  read_tls : string -> C -> result nat string * C;
  process_new_packets : C -> result unit string * C
}.

(** ** Threads *)

Inductive Op : Type := ReadOp (n : nat) | WriteOp (buf : string).

#[global] Instance Op_eq_dec : EqDecision Op.
Proof. solve_decision. Defined.

Inductive Outcome : Type := ReadEnd (r : result string string) | WriteEnd (r : result nat string).

(** Where a thread is.  [again] tells the second call of [drain_plaintext] in the loop
    of [do_read] from the first. *)
Inductive Pc : Type :=
| Idle
| Plaintext (n : nat)
| DrainLock (n : nat) (again : bool)
| DrainRead (n : nat) (again got : bool)
| DrainCollect (n : nat) (again got : bool) (pending : string)
| DrainSock (n : nat) (again got : bool) (pending : string)
| DrainSend (n : nat) (again got : bool) (pending : string)
| Receive (n : nat)
| Feed (n : nat) (chunk : string)
| WriteLock (buf : string)
| WriteConn (buf : string)
| WriteCollect (len : nat) (out : string)
| WriteSock (len : nat) (out : string)
| WriteDrop (len : nat) (out : string)
| WriteSend (len : nat) (out : string).

#[global] Instance Pc_eq_dec : EqDecision Pc.
Proof. solve_decision. Defined.

Record Thread : Type := mkThread { th_pc : Pc; th_todo : list Op; th_done : list Outcome }.

(** [d_made] records what [write_tls] has returned so far, in order; no code reads it. *)
Record Duplex (C : Type) : Type := mkDuplex {
  d_conn : C;
  d_conn_lock : option nat;
  d_sock_lock : option nat;
  d_plain : string;
  d_incoming : list (result string string);
  d_sock : Sink;
  d_made : string;
  d_threads : list Thread
}.
Arguments mkDuplex {C}.
Arguments d_conn {C}. Arguments d_conn_lock {C}. Arguments d_sock_lock {C}. Arguments d_plain {C}.
Arguments d_incoming {C}. Arguments d_sock {C}. Arguments d_made {C}. Arguments d_threads {C}.

Definition set_conn {C} (c : C) (d : Duplex C) : Duplex C :=
  mkDuplex c (d_conn_lock d) (d_sock_lock d) (d_plain d) (d_incoming d) (d_sock d) (d_made d) (d_threads d).
Definition set_conn_lock {C} (l : option nat) (d : Duplex C) : Duplex C :=
  mkDuplex (d_conn d) l (d_sock_lock d) (d_plain d) (d_incoming d) (d_sock d) (d_made d) (d_threads d).
Definition set_sock_lock {C} (l : option nat) (d : Duplex C) : Duplex C :=
  mkDuplex (d_conn d) (d_conn_lock d) l (d_plain d) (d_incoming d) (d_sock d) (d_made d) (d_threads d).
Definition set_plain {C} (p : string) (d : Duplex C) : Duplex C :=
  mkDuplex (d_conn d) (d_conn_lock d) (d_sock_lock d) p (d_incoming d) (d_sock d) (d_made d) (d_threads d).
Definition set_incoming {C} (i : list (result string string)) (d : Duplex C) : Duplex C :=
  mkDuplex (d_conn d) (d_conn_lock d) (d_sock_lock d) (d_plain d) i (d_sock d) (d_made d) (d_threads d).
Definition set_sock {C} (s : Sink) (d : Duplex C) : Duplex C :=
  mkDuplex (d_conn d) (d_conn_lock d) (d_sock_lock d) (d_plain d) (d_incoming d) s (d_made d) (d_threads d).
Definition add_made {C} (b : string) (d : Duplex C) : Duplex C :=
  mkDuplex (d_conn d) (d_conn_lock d) (d_sock_lock d) (d_plain d) (d_incoming d) (d_sock d) (d_made d ++s b) (d_threads d).
Definition set_thread {C} (t : nat) (th : Thread) (d : Duplex C) : Duplex C :=
  mkDuplex (d_conn d) (d_conn_lock d) (d_sock_lock d) (d_plain d) (d_incoming d) (d_sock d) (d_made d) (<[t := th]> (d_threads d)).

Section Machine.
Context {C : Type} `{TlsConn C}.

(** Received bytes go into the state machine piece by piece, as it takes them. *)
Fixpoint feed (fuel : nat) (cur : string) (c : C) : result unit string * C :=
  match fuel, cur with
  | S k, String _ _ =>
      match read_tls cur c with
      | (Err e, c1) => (Err e, c1)
      | (Ok O, c1) => (Ok tt, c1)
      | (Ok used, c1) =>
          match process_new_packets c1 with
          | (Err e, c2) => (Err ("TLS: " ++s e), c2)
          | (Ok _, c2) => feed k (str_drop used cur) c2
          end
      end
  | _, _ => (Ok tt, c)
  end.

Section Step.
Context (t : nat) (th : Thread) (d : Duplex C).

Definition goto (pc : Pc) (d : Duplex C) : Duplex C := set_thread t (mkThread pc (th_todo th) (th_done th)) d.
Definition finish (o : Outcome) (d : Duplex C) : Duplex C := set_thread t (mkThread Idle (th_todo th) (th_done th ++ [o])) d.

(** Back in [do_read] after a drain. *)
Definition drained (n : nat) (again got : bool) : Pc := if again || got then Plaintext n else Receive n.

Definition lock_conn (pc : Pc) : option (Duplex C) :=
  match d_conn_lock d with None => Some (set_conn_lock (Some t) (goto pc d)) | Some _ => None end.
Definition lock_sock (pc : Pc) : option (Duplex C) :=
  match d_sock_lock d with None => Some (set_sock_lock (Some t) (goto pc d)) | Some _ => None end.

(** One turn of a loop that collects records, and what comes after it. *)
Definition collect (more : string -> Pc) (done : Duplex C) (failed : string -> Outcome) : Duplex C :=
  if wants_write (d_conn d) then
    match write_tls (d_conn d) with
    | (Ok b, c) => add_made b (set_conn c (goto (more b) d))
    | (Err e, c) => set_conn_lock None (set_conn c (finish (failed e) d))
    end
  else done.

(** [drain_plaintext] *)
Definition step_drain : option (Duplex C) :=
  match th_pc th with
  | DrainLock n again => lock_conn (DrainRead n again false)
  | DrainRead n again got =>
      Some (match tls_read RELAY_BUF (d_conn d) with
            | (Ok None, c) | (Ok (Some EmptyString), c) => set_conn c (goto (DrainCollect n again got "") d)
            | (Ok (Some b), c) => set_conn c (set_plain (d_plain d ++s b) (goto (DrainRead n again true) d))
            | (Err e, c) => set_conn_lock None (set_conn c (finish (ReadEnd (Err e)) d))
            end)
  | DrainCollect n again got pending =>
      Some (collect (fun b => DrainCollect n again got (pending ++s b))
              (set_conn_lock None (goto (match pending with EmptyString => drained n again got | _ => DrainSock n again got pending end) d))
              (fun e => ReadEnd (Err e)))
  | DrainSock n again got pending => lock_sock (DrainSend n again got pending)
  | DrainSend n again got pending =>
      Some (match write_all pending (d_sock d) with
            | (Ok _, sk) => set_sock_lock None (set_sock sk (goto (drained n again got) d))
            | (Err e, sk) => set_sock_lock None (set_sock sk (finish (ReadEnd (Err (io_text e))) d))
            end)
  | _ => None
  end.

Definition step_read : option (Duplex C) :=
  match th_pc th with
  | Plaintext n =>
      Some (match d_plain d with
            | EmptyString => goto (DrainLock n false) d
            | p => set_plain (str_drop n p) (finish (ReadEnd (Ok (str_take n p))) d)
            end)
  | Receive n =>
      Some (match d_incoming d with
            | [] => finish (ReadEnd (Ok ""%string)) d
            | Err e :: rest => set_incoming rest (finish (ReadEnd (Err e)) d)
            | Ok EmptyString :: rest => set_incoming rest (finish (ReadEnd (Ok ""%string)) d)
            | Ok chunk :: rest => set_incoming rest (goto (Feed n chunk) d)
            end)
  | Feed n chunk =>
      match d_conn_lock d with
      | Some _ => None
      | None =>
          Some (match feed (String.length chunk) chunk (d_conn d) with
                | (Ok _, c) => set_conn c (goto (DrainLock n true) d)
                | (Err e, c) => set_conn c (finish (ReadEnd (Err e)) d)
                end)
      end
  | _ => step_drain
  end.

Definition step_write : option (Duplex C) :=
  match th_pc th with
  | WriteLock buf => lock_conn (WriteConn buf)
  | WriteConn buf =>
      Some (match tls_write buf (d_conn d) with
            | (Ok _, c) => set_conn c (goto (WriteCollect (String.length buf) "") d)
            | (Err e, c) => set_conn_lock None (set_conn c (finish (WriteEnd (Err e)) d))
            end)
  | WriteCollect len out =>
      Some (collect (fun b => WriteCollect len (out ++s b)) (goto (WriteSock len out) d) (fun e => WriteEnd (Err e)))
  | WriteSock len out => lock_sock (WriteDrop len out)
  | WriteDrop len out => Some (set_conn_lock None (goto (WriteSend len out) d))
  | WriteSend len out =>
      Some (match write_all out (d_sock d) with
            | (Ok _, sk) => set_sock_lock None (set_sock sk (finish (WriteEnd (Ok len)) d))
            | (Err e, sk) => set_sock_lock None (set_sock sk (finish (WriteEnd (Err (io_text e))) d))
            end)
  | _ => None
  end.

Definition is_write (pc : Pc) : bool :=
  match pc with WriteLock _ | WriteConn _ | WriteCollect _ _ | WriteSock _ _ | WriteDrop _ _ | WriteSend _ _ => true | _ => false end.

(** The next call of a thread that is in none. *)
Definition step_idle : option (Duplex C) :=
  match th_todo th with
  | [] => None
  | ReadOp n :: ops => Some (set_thread t (mkThread (Plaintext n) ops (th_done th)) d)
  | WriteOp buf :: ops => Some (set_thread t (mkThread (WriteLock buf) ops (th_done th)) d)
  end.

Definition step_thread : option (Duplex C) :=
  match th_pc th with
  | Idle => step_idle
  | pc => if is_write pc then step_write else step_read
  end.
End Step.

(** None: the thread waits for a lock, or has nothing to do. *)
Definition step (t : nat) (d : Duplex C) : option (Duplex C) :=
  match d_threads d !! t with Some th => step_thread t th d | None => None end.

Inductive reaches : Duplex C -> Duplex C -> Prop :=
| reaches_refl d : reaches d d
| reaches_step d d' d'' t : reaches d d' -> step t d' = Some d'' -> reaches d d''.

(** The machine under a given order of turns; a turn of a thread that waits is lost. *)
Definition play (turns : list nat) (d : Duplex C) : Duplex C :=
  fold_left (fun d t => default d (step t d)) turns d.

(** A connection after its handshake ([wrap_tls]). *)
Definition wrap_tls (c : C) (incoming : list (result string string)) (room : option nat) (calls : list (list Op)) : Duplex C :=
  mkDuplex c None None "" incoming (mkSink "" room) "" (map (fun ops => mkThread Idle ops []) calls).
End Machine.

(** ** Who holds the locks *)

Definition holds_conn (pc : Pc) : bool :=
  match pc with DrainRead _ _ _ | DrainCollect _ _ _ _ | WriteConn _ | WriteCollect _ _ | WriteSock _ _ | WriteDrop _ _ => true | _ => false end.
Definition holds_sock (pc : Pc) : bool :=
  match pc with DrainSend _ _ _ _ | WriteDrop _ _ | WriteSend _ _ => true | _ => false end.

Definition owned (holds : Pc -> bool) (lock : option nat) (ths : list Thread) : Prop :=
  forall t, lock = Some t <-> exists th, ths !! t = Some th /\ holds (th_pc th) = true.

(** How a step of a thread may change a lock. *)
Definition handed (holds : Pc -> bool) (t : nat) (pc pc' : Pc) (lock lock' : option nat) : Prop :=
  (holds pc' = holds pc /\ lock' = lock) \/ (lock = None /\ holds pc' = true /\ lock' = Some t) \/
  (holds pc = true /\ holds pc' = false /\ lock' = None).

Lemma owned_step holds t th th' lock lock' ths :
  owned holds lock ths -> ths !! t = Some th -> handed holds t (th_pc th) (th_pc th') lock lock' ->
  owned holds lock' (<[t := th']> ths).
Proof.
  intros Ho Ht Hh u. pose proof (lookup_lt_Some _ _ _ Ht) as Hlt. destruct (decide (u = t)) as [->|Hu].
  - rewrite list_lookup_insert_eq by done. pose proof (Ho t) as Hot.
    destruct Hh as [[E ->]|[(-> & E & ->)|(E & E' & ->)]]; naive_solver congruence.
  - rewrite list_lookup_insert_ne by done. pose proof (Ho u) as Hou. pose proof (Ho t) as Hot.
    destruct Hh as [[E ->]|[(-> & E & ->)|(E & E' & ->)]]; naive_solver congruence.
Qed.

(** What the holder of a lock has in hand. *)
Definition held {A} (f : Pc -> A) (none : A) (lock : option nat) (ths : list Thread) : A :=
  match lock with Some t => match ths !! t with Some th => f (th_pc th) | None => none end | None => none end.

#[global] Arguments held : simpl never.

Lemma held_self {A} (f : Pc -> A) none t th ths : (t < length ths)%nat -> held f none (Some t) (<[t := th]> ths) = f (th_pc th).
Proof. intros. unfold held. by rewrite list_lookup_insert_eq. Qed.

Lemma held_at {A} (f : Pc -> A) none t th ths : ths !! t = Some th -> held f none (Some t) ths = f (th_pc th).
Proof. unfold held. by intros ->. Qed.

Lemma held_other {A} (f : Pc -> A) none t th lock ths : lock <> Some t -> held f none lock (<[t := th]> ths) = held f none lock ths.
Proof. destruct lock as [u|]; [|done]. intros. unfold held. by rewrite list_lookup_insert_ne by congruence. Qed.

Lemma owned_not holds t th lock ths : owned holds lock ths -> ths !! t = Some th -> holds (th_pc th) = false -> lock <> Some t.
Proof. intros Ho Ht E El. apply Ho in El as (th' & E1 & E2). congruence. Qed.

Lemma owned_is holds t th lock ths : owned holds lock ths -> ths !! t = Some th -> holds (th_pc th) = true -> lock = Some t.
Proof. intros Ho Ht E. apply Ho. eauto. Qed.

(** ** Records in order *)

(** The records a writer has collected, before and after it has the socket. *)
Definition collected (pc : Pc) : string := match pc with WriteCollect _ out | WriteSock _ out => out | _ => "" end.
Definition sending (pc : Pc) : string := match pc with WriteDrop _ out | WriteSend _ out => out | _ => "" end.
Definition collecting (pc : Pc) : bool := match pc with WriteCollect _ _ => true | _ => false end.

(** A reader has no records to send. *)
Definition no_answer (pc : Pc) : bool :=
  match pc with DrainCollect _ _ _ pending => String.eqb pending "" | DrainSock _ _ _ _ | DrainSend _ _ _ _ => false | _ => true end.

(** The records that what was received calls for are none (no key update, no alert);
    collecting into memory does not fail. *)
Class CalmLaws (C : Type) `{TlsConn C} : Type := {
  calm_write_tls c : exists b, (write_tls c).1 = Ok b;
  calm_read n c : wants_write c = false -> wants_write (tls_read n c).2 = false;
  calm_read_tls s c : wants_write c = false -> wants_write (read_tls s c).2 = false;
  calm_process c : wants_write c = false -> wants_write (process_new_packets c).2 = false;
  calm_failed s c e : (tls_write s c).1 = Err e -> wants_write c = false -> wants_write (tls_write s c).2 = false
}.

(** What was made is on the socket, or on its way: [rest], unless the socket broke. *)
Definition stream (made : string) (sk : Sink) (rest : string) : Prop :=
  exists r, made = sk_out sk ++s r /\ (sk_room sk <> Some O -> r = rest).

Lemma stream_write made sk a b : stream made sk (a ++s b) -> stream made (write_all a sk).2 b.
Proof.
  intros (r & -> & Hr). unfold write_all. destruct sk as [o [room|]]; cbn [sk_out sk_room snd] in *.
  - destruct (String.length a <=? room)%nat eqn:E; [|apply Nat.leb_gt in E]; cbn [snd].
    + destruct room as [|room].
      * apply Nat.leb_le in E. destruct a; [|simpl in E; lia]. exists r. rewrite app_nil_s. by split.
      * rewrite Hr by done. exists b. cbn [sk_out]. by rewrite app_assoc_s.
    + destruct room as [|room].
      * exists r. cbn [sk_out sk_room]. rewrite app_nil_s. by split.
      * rewrite Hr by done. exists (str_drop (S room) a ++s b). cbn [sk_out sk_room]. split; [|done].
        by rewrite app_assoc_s, <- (app_assoc_s (str_take _ _)), str_take_drop.
  - rewrite Hr by done. exists b. cbn [sk_out]. by rewrite app_assoc_s.
Qed.

Section Order.
Context {C : Type} `{CalmLaws C}.

Record ordered (d : Duplex C) : Prop := {
  or_conn : owned holds_conn (d_conn_lock d) (d_threads d);
  or_sock : owned holds_sock (d_sock_lock d) (d_threads d);
  or_calm : wants_write (d_conn d) = true -> held collecting false (d_conn_lock d) (d_threads d) = true;
  or_quiet : Forall (fun th => no_answer (th_pc th) = true) (d_threads d);
  or_stream : stream (d_made d) (d_sock d)
    (held sending "" (d_sock_lock d) (d_threads d) ++s held collected "" (d_conn_lock d) (d_threads d))
}.

Lemma feed_calm fuel s (c : C) : wants_write c = false -> wants_write (feed fuel s c).2 = false.
Proof.
  revert s c. induction fuel as [|k IH]; intros s c Hc; [by destruct s|]. destruct s as [|a s]; [done|]. cbn [feed].
  pose proof (calm_read_tls (String a s) c Hc) as H1. destruct (read_tls (String a s) c) as [[[|u]|e] c1]; cbn [snd] in H1; [done| |done].
  pose proof (calm_process c1 H1) as H2. destruct (process_new_packets c1) as [[[]|e] c2]; [by apply IH|done].
Qed.

Lemma held_keep {A} (f : Pc -> A) none t th th' lock ths :
  ths !! t = Some th -> f (th_pc th') = f (th_pc th) -> held f none lock (<[t := th']> ths) = held f none lock ths.
Proof.
  intros Ht E. pose proof (lookup_lt_Some _ _ _ Ht). destruct (decide (lock = Some t)) as [->|Hn]; [|by apply held_other].
  by rewrite held_self, (held_at f none t th ths).
Qed.

Lemma moved d t th th' c' cl' sl' p' i' sk' m' :
  ordered d -> d_threads d !! t = Some th ->
  handed holds_conn t (th_pc th) (th_pc th') (d_conn_lock d) cl' -> handed holds_sock t (th_pc th) (th_pc th') (d_sock_lock d) sl' ->
  no_answer (th_pc th') = true ->
  (wants_write c' = true -> held collecting false cl' (<[t := th']> (d_threads d)) = true) ->
  stream m' sk' (held sending "" sl' (<[t := th']> (d_threads d)) ++s held collected "" cl' (<[t := th']> (d_threads d))) ->
  ordered (mkDuplex c' cl' sl' p' i' sk' m' (<[t := th']> (d_threads d))).
Proof.
  intros Ho Ht Hc Hs Hn Hw Hst. split; cbn [d_conn d_conn_lock d_sock_lock d_threads d_made d_sock]; [| |done| |done].
  - eapply owned_step; [apply Ho|done|done].
  - eapply owned_step; [apply Ho|done|done].
  - apply Forall_insert; [apply Ho|done].
Qed.

Lemma moved_quietly d t th th' p' i' :
  ordered d -> d_threads d !! t = Some th ->
  holds_conn (th_pc th') = holds_conn (th_pc th) -> holds_sock (th_pc th') = holds_sock (th_pc th) -> no_answer (th_pc th') = true ->
  collecting (th_pc th') = collecting (th_pc th) -> sending (th_pc th') = sending (th_pc th) -> collected (th_pc th') = collected (th_pc th) ->
  ordered (mkDuplex (d_conn d) (d_conn_lock d) (d_sock_lock d) p' i' (d_sock d) (d_made d) (<[t := th']> (d_threads d))).
Proof.
  intros Ho Ht Hc Hs Hn E1 E2 E3. eapply moved; [done|done|by left|by left|done| |].
  - rewrite (held_keep _ _ _ th) by done. apply Ho.
  - rewrite !(held_keep _ _ _ th) by done. apply Ho.
Qed.

(** A thread that has the connection and does not collect finds nothing to send. *)
Lemma calm_holder d t th : ordered d -> d_threads d !! t = Some th -> holds_conn (th_pc th) = true -> collecting (th_pc th) = false ->
  wants_write (d_conn d) = false.
Proof.
  intros Ho Ht Hc Hn. destruct (wants_write (d_conn d)) eqn:E; [|done]. apply Ho in E.
  pose proof (owned_is _ _ _ _ _ (or_conn d Ho) Ht Hc) as El. rewrite El, (held_at _ _ _ th) in E by done. congruence.
Qed.

Lemma calm_free d : ordered d -> d_conn_lock d = None -> wants_write (d_conn d) = false.
Proof. intros Ho E. destruct (wants_write (d_conn d)) eqn:Ew; [|done]. apply Ho in Ew. by rewrite E in Ew. Qed.

(** Taking and giving back the connection with nothing collected. *)
Lemma moved_conn d t th th' c' cl' p' i' :
  ordered d -> d_threads d !! t = Some th -> handed holds_conn t (th_pc th) (th_pc th') (d_conn_lock d) cl' ->
  holds_sock (th_pc th') = holds_sock (th_pc th) -> no_answer (th_pc th') = true -> sending (th_pc th') = sending (th_pc th) ->
  collected (th_pc th) = ""%string -> collected (th_pc th') = ""%string ->
  (wants_write c' = true -> cl' = Some t /\ collecting (th_pc th') = true) ->
  ordered (mkDuplex c' cl' (d_sock_lock d) p' i' (d_sock d) (d_made d) (<[t := th']> (d_threads d))).
Proof.
  intros Ho Ht Hc Hs Hn Es E1 E2 Hw. pose proof (lookup_lt_Some _ _ _ Ht) as Hlt. eapply moved; [done|done|done|by left|done| |].
  - intros [-> Hw']%Hw. by rewrite held_self.
  - rewrite (held_keep _ _ _ th) by done. pose proof (or_stream d Ho) as Hst. revert Hst.
    destruct Hc as [[_ ->]|[(-> & _ & ->)|(Eh & _ & ->)]].
    + rewrite (held_keep collected _ _ th) by congruence. done.
    + by rewrite (held_self collected), E2.
    + rewrite (owned_is _ _ _ _ _ (or_conn d Ho) Ht Eh), (held_at collected _ _ th), E1 by done. done.
Qed.

Lemma step_read_ordered t th d d' : ordered d -> d_threads d !! t = Some th -> step_read t th d = Some d' -> ordered d'.
Proof.
  intros Ho Ht. pose proof (Forall_lookup_1 _ _ _ _ (or_quiet d Ho) Ht) as Hn. cbn beta in Hn. destruct th as [pc todo dn]. unfold step_read, step_drain.
  destruct pc; cbn [th_pc] in *; try done.
  - intros [= <-]. case_match; unfold goto, finish, set_thread, set_plain; cbn; by apply (moved_quietly _ _ _ _ _ _ Ho Ht).
  - unfold lock_conn. case_match eqn:El; [done|]. intros [= <-]. apply (moved_conn d t _ _ _ _ _ _ Ho Ht); try done; [by right; left|].
    intros Hw. change (wants_write (d_conn d) = true) in Hw. by rewrite (calm_free d Ho El) in Hw.
  - intros [= <-]. pose proof (calm_holder d t _ Ho Ht eq_refl eq_refl) as Hc. apply (calm_read RELAY_BUF) in Hc.
    destruct (tls_read RELAY_BUF (d_conn d)) as [[[[|a b]|]|e] c]; cbn [snd] in Hc;
      apply (moved_conn d t _ _ _ _ _ _ Ho Ht); try done; try (by left); try (by right; right); intros Hw; cbn in Hw; congruence.
  - apply String.eqb_eq in Hn as ->. intros [= <-]. pose proof (calm_holder d t _ Ho Ht eq_refl eq_refl) as Hc. unfold collect. rewrite Hc.
    unfold drained. destruct (again || got); apply (moved_conn d t _ _ _ _ _ _ Ho Ht); try done; try (by right; right); intros Hw; cbn in Hw; congruence.
  - intros [= <-]. repeat case_match; unfold goto, finish, set_thread, set_incoming; cbn; by apply (moved_quietly _ _ _ _ _ _ Ho Ht).
  - case_match eqn:El; [done|]. intros [= <-]. pose proof (feed_calm (String.length chunk) chunk _ (calm_free d Ho El)) as Hc.
    destruct (feed _ _ _) as [[u|e] c]; cbn [snd] in Hc; apply (moved_conn d t _ _ _ _ _ _ Ho Ht); try done; try (by left); intros Hw; cbn in Hw; congruence.
Qed.

Lemma step_write_ordered t th d d' : ordered d -> d_threads d !! t = Some th -> step_write t th d = Some d' -> ordered d'.
Proof.
  intros Ho Ht. pose proof (lookup_lt_Some _ _ _ Ht) as Hlt. destruct th as [pc todo dn]. unfold step_write. destruct pc; cbn [th_pc] in *; try done.
  - unfold lock_conn. case_match eqn:El; [done|]. intros [= <-]. apply (moved_conn d t _ _ _ _ _ _ Ho Ht); try done; [by right; left|].
    intros Hw. change (wants_write (d_conn d) = true) in Hw. by rewrite (calm_free d Ho El) in Hw.
  - intros [= <-]. pose proof (owned_is _ _ _ _ _ (or_conn d Ho) Ht eq_refl) as El.
    pose proof (calm_failed buf (d_conn d)) as Hf. pose proof (calm_holder d t _ Ho Ht eq_refl eq_refl) as Hc.
    destruct (tls_write buf (d_conn d)) as [[u|e] c]; cbn [fst snd] in Hf; apply (moved_conn d t _ _ _ _ _ _ Ho Ht); try done.
    + by left.
    + by right; right.
    + cbn. rewrite (Hf e); done.
  - intros [= <-]. unfold collect. pose proof (owned_is _ _ _ _ _ (or_conn d Ho) Ht eq_refl) as El. destruct (wants_write (d_conn d)) eqn:Ew.
    + destruct (calm_write_tls (d_conn d)) as [b Eb]. destruct (write_tls (d_conn d)) as [r c]. cbn [fst] in Eb. subst r.
      eapply moved; [done|done|by left|by left|done| |]; cbn; rewrite El.
      * by rewrite held_self.
      * rewrite (held_keep sending _ _ _ _ _ _ Ht), (held_self collected) by done. cbn. pose proof (or_stream d Ho) as (r & E & Hr).
        rewrite El, (held_at collected _ _ _ _ Ht) in Hr. cbn in Hr. exists (r ++s b). rewrite E, app_assoc_s. split; [done|].
        intros Hne. rewrite Hr by done. by rewrite app_assoc_s.
    + eapply moved; [done|done|by left|by left|done|congruence|]. cbn. rewrite !(held_keep _ _ _ _ _ _ _ Ht) by done. apply Ho.
  - unfold lock_sock. case_match eqn:El; [done|]. intros [= <-]. pose proof (owned_is _ _ _ _ _ (or_conn d Ho) Ht eq_refl) as Ec.
    eapply moved; [done|done|by left|by right; left|done| |]; cbn.
    + by rewrite (calm_holder d t _ Ho Ht).
    + rewrite (held_self sending), Ec, (held_self collected) by done. cbn. rewrite app_nil_s. pose proof (or_stream d Ho) as Hst.
      rewrite El, Ec, (held_at collected _ _ _ _ Ht) in Hst. done.
  - intros [= <-]. apply (moved_conn d t _ _ _ _ _ _ Ho Ht); try done; [by right; right|]. cbn. by rewrite (calm_holder d t _ Ho Ht).
  - intros [= <-]. pose proof (owned_is _ _ _ _ _ (or_sock d Ho) Ht eq_refl) as El.
    assert (Hs : stream (d_made d) (write_all out (d_sock d)).2 (held collected "" (d_conn_lock d) (d_threads d))).
    { apply stream_write. pose proof (or_stream d Ho) as Hst. by rewrite El, (held_at sending _ _ _ _ Ht) in Hst. }
    destruct (write_all out (d_sock d)) as [[u|e] sk]; cbn [snd] in Hs.
    all: eapply moved; [done|done|by left|by right; right|done|rewrite (held_keep collecting _ _ _ _ _ _ Ht) by done; apply Ho|].
    all: rewrite (held_keep collected _ _ _ _ _ _ Ht) by done; exact Hs.
Qed.

Lemma step_ordered t d d' : ordered d -> step t d = Some d' -> ordered d'.
Proof.
  intros Ho. unfold step. destruct (d_threads d !! t) as [th|] eqn:Ht; [|done]. unfold step_thread.
  destruct (is_write (th_pc th)) eqn:Ew.
  - intros Hs. apply (step_write_ordered t th d); [done|done|]. by destruct (th_pc th).
  - destruct (decide (th_pc th = Idle)) as [E|E]; [rewrite E|].
    + unfold step_idle. destruct (th_todo th) as [|[n|buf] ops]; [done| |]; intros [= <-].
      all: apply (moved_quietly _ _ _ _ _ _ Ho Ht); by rewrite ?E.
    + intros Hs. apply (step_read_ordered t th d); [done|done|]. by destruct (th_pc th).
Qed.

Definition idle (d : Duplex C) : Prop := Forall (fun th => th_pc th = Idle /\ th_todo th = []) (d_threads d).

Lemma starts_ordered (c : C) incoming room calls : wants_write c = false -> ordered (wrap_tls c incoming room calls).
Proof.
  intros Hc. assert (Hi : forall t th, map (fun ops => mkThread Idle ops []) calls !! t = Some th -> th_pc th = Idle).
  { intros t th. rewrite list_lookup_fmap. destruct (calls !! t); [|done]. by intros [= <-]. }
  split; cbn; [| |congruence| |by exists ""%string].
  - intros t. split; [done|]. intros (th & E & Hp). by rewrite (Hi t th E) in Hp.
  - intros t. split; [done|]. intros (th & E & Hp). by rewrite (Hi t th E) in Hp.
  - apply Forall_lookup. intros t th E. by rewrite (Hi t th E).
Qed.

Lemma reaches_ordered d d' : ordered d -> reaches d d' -> ordered d'.
Proof. intros Ho. induction 1 as [|d d' d'' t _ IH Hs]; [done|]. eapply step_ordered; [by apply IH|done]. Qed.

(** Whoever holds the socket can go on, and so can whoever holds the connection when
    the socket is free. *)
Lemma no_deadlock d t th : ordered d -> d_threads d !! t = Some th -> th_pc th <> Idle \/ th_todo th <> [] -> exists u, is_Some (step u d).
Proof.
  intros Ho Ht Hb. destruct (d_sock_lock d) as [u|] eqn:Es; [|destruct (d_conn_lock d) as [u|] eqn:Ec].
  - pose proof (proj1 (or_sock d Ho u) Es) as (tu & Eu & Hp). exists u. unfold step, step_thread. rewrite Eu.
    destruct tu as [[] todo dn]; try done; eexists; reflexivity.
  - pose proof (proj1 (or_conn d Ho u) Ec) as (tu & Eu & Hp). exists u. unfold step, step_thread. rewrite Eu.
    destruct tu as [[] todo dn]; try done; cbn; unfold step_write, lock_sock; cbn; rewrite ?Es; eexists; reflexivity.
  - exists t. unfold step, step_thread. rewrite Ht. destruct th as [[] todo dn]; cbn in *;
      unfold step_write, step_read, step_drain, step_idle, lock_sock, lock_conn; cbn; rewrite ?Es, ?Ec; try (eexists; reflexivity).
    destruct todo as [|[] ops]; [by destruct Hb|eexists; reflexivity|eexists; reflexivity].
Qed.
End Order.

(** C13: However the threads of a connection interleave, what is on the socket is at any
    time a beginning of the records in the order the state machine made them, and all of
    them when no call is under way and the socket did not break; the locks never
    deadlock: as long as some call is not finished, some thread can go on. *)
Theorem records_in_order {C : Type} `{CalmLaws C} (c : C) incoming room calls (d : Duplex C) :
  wants_write c = false -> reaches (wrap_tls c incoming room calls) d ->
  (exists rest, d_made d = sk_out (d_sock d) ++s rest) /\
  (idle d -> sk_room (d_sock d) <> Some O -> sk_out (d_sock d) = d_made d) /\
  (~ idle d -> exists t, is_Some (step t d)).
Proof.
  intros Hc Hr. pose proof (reaches_ordered _ _ (starts_ordered c incoming room calls Hc) Hr) as Ho.
  pose proof (or_stream d Ho) as (rest & E & Hrest). split_and!; [by exists rest| |].
  - intros Hi Hroom. rewrite E, (Hrest Hroom). unfold idle in Hi. rewrite Forall_lookup in Hi.
    assert (Hh : forall f lock, f Idle = ""%string -> held f "" lock (d_threads d) = ""%string).
    { intros f [t|] Ef; [|done]. unfold held. destruct (d_threads d !! t) as [th|] eqn:Et; [|done]. by rewrite (proj1 (Hi t th Et)). }
    by rewrite !Hh, !app_nil_s.
  - intros Hi. apply not_Forall_Exists in Hi; [|intros th; apply _]. apply Exists_exists in Hi as (th & Hin & Hn).
    apply list_elem_of_lookup in Hin as (t & Ht). apply (no_deadlock d t th Ho Ht). destruct (decide (th_pc th = Idle)); [right|by left].
    intros Et. by apply Hn.
Qed.

(** ** The plaintext of a stream *)

(** [total c s]: the plaintext that [c] yields when it is given [s] and nothing more. *)
Class PlainLaws (C : Type) `{TlsConn C} : Type := {
  total : C -> string -> string;
  total_read n c c' a b s : tls_read n c = (Ok (Some (String a b)), c') -> total c s = String a b ++s total c' s;
  total_dry n c c' r s : tls_read n c = (Ok r, c') -> r = None \/ r = Some ""%string -> total c' s = total c s /\ total c' "" = ""%string;
  total_write buf c s : total (tls_write buf c).2 s = total c s;
  total_write_tls c s : total (write_tls c).2 s = total c s;
  total_taken cur c u c' : read_tls cur c = (Ok u, c') -> cur <> ""%string -> u <> O;
  total_feed cur c u c' c'' x s : read_tls cur c = (Ok u, c') -> process_new_packets c' = (Ok x, c'') ->
    total c (cur ++s s) = total c'' (str_drop u cur ++s s)
}.

Fixpoint bytes_of (rs : list (result string string)) : string :=
  match rs with [] => "" | Ok b :: rs' => b ++s bytes_of rs' | Err _ :: rs' => bytes_of rs' end.
Fixpoint concat_s (bs : list string) : string := match bs with [] => "" | b :: bs' => b ++s concat_s bs' end.

Lemma concat_snoc bs b : concat_s (bs ++ [b]) = concat_s bs ++s b.
Proof. induction bs as [|a bs IH]; cbn; [by rewrite app_nil_s|]. by rewrite IH, app_assoc_s. Qed.

(** The bytes a reader has taken from the socket and not yet given to the state machine. *)
Definition chunk_of (pc : Pc) : string := match pc with Feed _ chunk => chunk | _ => "" end.
(** Where a reader knows that no decrypted bytes wait, and that the state machine has none. *)
Definition empty_at (pc : Pc) : bool :=
  match pc with
  | DrainLock _ _ | Receive _ | Feed _ _ => true
  | DrainRead _ _ got | DrainCollect _ _ got _ | DrainSock _ _ got _ | DrainSend _ _ got _ => negb got
  | _ => false
  end.
Definition dry_at (pc : Pc) : bool :=
  match pc with DrainCollect _ _ _ _ | DrainSock _ _ _ _ | DrainSend _ _ _ _ | Receive _ => true | _ => false end.
(** The size of the buffer of the read under way. *)
Definition size_at (pc : Pc) : option nat :=
  match pc with
  | Plaintext n | DrainLock n _ | DrainRead n _ _ | DrainCollect n _ _ _ | DrainSock n _ _ _ | DrainSend n _ _ _ | Receive n | Feed n _ => Some n
  | _ => None
  end.
Definition asks (op : Op) : Prop := match op with ReadOp n => n <> O | WriteOp _ => True end.
Definition writes (op : Op) : Prop := match op with ReadOp _ => False | WriteOp _ => True end.
(** The outcomes of the reads of a thread. *)
Fixpoint reads_in (os : list Outcome) : list (result string string) :=
  match os with [] => [] | ReadEnd r :: os' => r :: reads_in os' | WriteEnd _ :: os' => reads_in os' end.

Section Reading.
Context {C : Type} `{PlainLaws C}.

Lemma feed_total fuel cur (c c' : C) x s : (String.length cur <= fuel)%nat -> feed fuel cur c = (Ok x, c') -> total c (cur ++s s) = total c' s.
Proof.
  revert cur c. induction fuel as [|k IH]; intros cur c Hl; destruct cur as [|a cur]; cbn [feed]; try (cbn in Hl; lia); [intros Hf; by simplify_eq..|].
  destruct (read_tls (String a cur) c) as [[u|e] c1] eqn:E1; [|done]. destruct u as [|u].
  - by destruct (total_taken _ _ _ _ E1).
  - destruct (process_new_packets c1) as [[y|e] c2] eqn:E2; [|done]. intros Hf. rewrite (total_feed _ _ _ _ _ _ _ E1 E2).
    eapply IH; [|done]. rewrite str_drop_length. cbn in Hl |- *. lia.
Qed.

(** What the reader [th] has got, and what is left of [whole]. *)
Record rest_of (whole : string) (th : Thread) (d : Duplex C) (bs : list string) : Prop := {
  ro_whole : whole = concat_s bs ++s d_plain d ++s total (d_conn d) (chunk_of (th_pc th) ++s bytes_of (d_incoming d));
  ro_empty : empty_at (th_pc th) = true -> d_plain d = ""%string;
  ro_dry : dry_at (th_pc th) = true -> total (d_conn d) "" = ""%string;
  ro_ended : ""%string ∈ bs -> d_plain d = ""%string /\ total (d_conn d) "" = ""%string /\ d_incoming d = [] /\ chunk_of (th_pc th) = ""%string
}.

Definition full (r : result string string) : Prop := match r with Ok b => b <> ""%string | Err _ => False end.

Record reading (r : nat) (whole : string) (d : Duplex C) : Prop := {
  re_others t th : t <> r -> d_threads d !! t = Some th -> Forall writes (th_todo th) /\ size_at (th_pc th) = None;
  re_reader th : d_threads d !! r = Some th -> Forall asks (th_todo th) /\ size_at (th_pc th) <> Some O /\
    forall bs, reads_in (th_done th) = map Ok bs -> rest_of whole th d bs;
  re_chunks : Forall full (d_incoming d)
}.

(** What a step outside of a read does. *)
Record aside (t : nat) (th : Thread) (d d' : Duplex C) : Prop := {
  as_plain : d_plain d' = d_plain d;
  as_incoming : d_incoming d' = d_incoming d;
  as_total s : total (d_conn d') s = total (d_conn d) s;
  as_thread : exists th', d_threads d' = <[t := th']> (d_threads d) /\ reads_in (th_done th') = reads_in (th_done th) /\
    ((th_todo th' = th_todo th /\ size_at (th_pc th') = None) \/
     (exists op, th_todo th = op :: th_todo th' /\ match op with ReadOp n => th_pc th' = Plaintext n | WriteOp _ => size_at (th_pc th') = None end))
}.

Lemma reads_in_app os os' : reads_in (os ++ os') = reads_in os ++ reads_in os'.
Proof. induction os as [|[] os IH]; cbn; [done|by f_equal|done]. Qed.

Lemma aside_same t th th' (d d' : Duplex C) :
  d_plain d' = d_plain d -> d_incoming d' = d_incoming d -> (forall s, total (d_conn d') s = total (d_conn d) s) ->
  d_threads d' = <[t := th']> (d_threads d) -> th_todo th' = th_todo th -> size_at (th_pc th') = None ->
  reads_in (th_done th') = reads_in (th_done th) -> aside t th d d'.
Proof. intros. split; [done..|]. exists th'. split_and!; [done|done|by left]. Qed.

Lemma reads_in_write os w : reads_in (os ++ [WriteEnd w]) = reads_in os.
Proof. rewrite reads_in_app. apply app_nil_r. Qed.

Lemma step_aside t th d d' : d_threads d !! t = Some th -> size_at (th_pc th) = None -> step t d = Some d' -> aside t th d d'.
Proof.
  intros Ht Hz. unfold step. rewrite Ht. destruct th as [pc todo dn]. cbn [th_pc] in Hz. unfold step_thread, step_write, lock_conn, lock_sock. cbn [th_pc].
  destruct pc; try done; cbn [is_write].
  - unfold step_idle. cbn [th_todo]. destruct todo as [|[n|buf] ops]; [done| |]; intros [= <-].
    all: split; cbn; [done..|]; eexists; split_and!; [done|done|right; eexists; by split].
  - case_match; [done|]. intros [= <-]. by eapply aside_same.
  - intros [= <-]. pose proof (total_write buf (d_conn d)) as Hw. destruct (tls_write buf (d_conn d)) as [[x|e] c].
    all: eapply aside_same; try done; cbn; by rewrite ?reads_in_write.
  - intros [= <-]. unfold collect. destruct (wants_write (d_conn d)); [|by eapply aside_same].
    pose proof (total_write_tls (d_conn d)) as Hw. destruct (write_tls (d_conn d)) as [[b|e] c].
    all: eapply aside_same; try done; cbn; by rewrite ?reads_in_write.
  - case_match; [done|]. intros [= <-]. by eapply aside_same.
  - intros [= <-]. by eapply aside_same.
  - intros [= <-]. destruct (write_all out (d_sock d)) as [[x|e] sk].
    all: eapply aside_same; try done; cbn; by rewrite ?reads_in_write.
Qed.

Lemma aside_reading r whole t th d d' :
  reading r whole d -> d_threads d !! t = Some th -> size_at (th_pc th) = None -> aside t th d d' -> reading r whole d'.
Proof.
  intros [Ho Hr Hch] Ht Hz [Hp Hi Htot (th' & Eth & Erd & Htd)]. pose proof (lookup_lt_Some _ _ _ Ht) as Hlt. split; rewrite ?Eth, ?Hi; [| |done].
  - intros u thu Hu. destruct (decide (u = t)) as [->|Hn].
    + rewrite list_lookup_insert_eq by done. intros [= <-]. destruct (Ho t th Hu Ht) as [Hw _].
      destruct Htd as [[E1 E2]|(op & E1 & E2)]; [by rewrite E1|]. rewrite E1 in Hw. inversion Hw as [|? ? Hop Hw']. subst. split; [done|]. by destruct op.
    + rewrite list_lookup_insert_ne by done. by apply Ho.
  - intros thr. destruct (decide (r = t)) as [->|Hn].
    + rewrite list_lookup_insert_eq by done. intros [= <-]. destruct (Hr th Ht) as (Hw & _ & Hb). rewrite Erd.
      assert (chunk_of (th_pc th) = ""%string) as Ech by by destruct (th_pc th).
      assert (chunk_of (th_pc th') = ""%string /\ empty_at (th_pc th') = false /\ dry_at (th_pc th') = false) as (Ec' & Ee & Ed).
      { destruct Htd as [[E1 E2]|([n|buf] & E1 & E2)]; [by destruct (th_pc th')|by rewrite E2|by destruct (th_pc th')]. }
      split_and!.
      * destruct Htd as [[E1 E2]|(op & E1 & E2)]; [by rewrite E1|]. rewrite E1 in Hw. by inversion Hw.
      * destruct Htd as [[E1 E2]|([n|buf] & E1 & E2)]; [by rewrite E2| |by rewrite E2]. rewrite E2. cbn. rewrite E1 in Hw. inversion Hw. naive_solver.
      * intros bs Hbs. destruct (Hb bs Hbs) as [Hwh _ _ Hend]. split; rewrite ?Ec', ?Ee, ?Ed, ?Hp, ?Hi, ?Htot; [by rewrite Ech in Hwh|done|done|].
        intros Hin. by destruct (Hend Hin) as (? & ? & ? & _).
    + rewrite list_lookup_insert_ne by done. intros Hthr. destruct (Hr thr Hthr) as (Hw & Hs & Hb). split_and!; [done|done|].
      intros bs Hbs. destruct (Hb bs Hbs). split; rewrite ?Hp, ?Hi, ?Htot; done.
Qed.

Lemma reads_in_ok os x bs : reads_in (os ++ [ReadEnd (Ok x)]) = map Ok bs -> exists bs0, bs = bs0 ++ [x] /\ reads_in os = map Ok bs0.
Proof.
  rewrite reads_in_app. cbn. destruct bs as [|b bs' _] using rev_ind; [by destruct (reads_in os)|]. rewrite map_app. cbn.
  intros [E1 [= <-]]%app_inj_tail. by exists bs'.
Qed.

Lemma reads_in_err os e bs : ~ reads_in (os ++ [ReadEnd (Err e)]) = map Ok bs.
Proof.
  rewrite reads_in_app. cbn. destruct bs as [|b bs' _] using rev_ind; [by destruct (reads_in os)|]. rewrite map_app. cbn. by intros [_ ?]%app_inj_tail.
Qed.

Lemma reader_moved r whole th th' d c' cl' sl' p' i' sk' m' :
  reading r whole d -> d_threads d !! r = Some th -> th_todo th' = th_todo th -> size_at (th_pc th') <> Some O -> Forall full i' ->
  let d' := mkDuplex c' cl' sl' p' i' sk' m' (<[r := th']> (d_threads d)) in
  (forall bs, reads_in (th_done th') = map Ok bs -> rest_of whole th' d' bs) -> reading r whole d'.
Proof.
  intros [Ho Hr Hch] Ht E Hz Hf d' Hb. pose proof (lookup_lt_Some _ _ _ Ht) as Hlt. subst d'. split; cbn; [| |done].
  - intros t tht Hn. rewrite list_lookup_insert_ne by done. by apply Ho.
  - intros tht. rewrite list_lookup_insert_eq by done. intros [= <-]. rewrite E. split_and!; [apply (Hr th Ht)|done|done].
Qed.

Lemma take_nonempty n a b : n <> O -> str_take n (String a b) <> ""%string.
Proof. by destruct n. Qed.

(** Delivering decrypted bytes. *)
Lemma rest_given whole th th' d d' bs x y :
  rest_of whole th d bs -> x <> ""%string -> d_plain d = x ++s y -> chunk_of (th_pc th) = ""%string -> th_pc th' = Idle ->
  d_plain d' = y -> d_conn d' = d_conn d -> d_incoming d' = d_incoming d -> rest_of whole th' d' (bs ++ [x]).
Proof.
  intros [Hw _ _ He] Hx Hp Hc Hi Ep Ec Ei. split; rewrite ?Hi, ?Ep, ?Ec, ?Ei; [|done|done|].
  - rewrite concat_snoc, Hw, Hp, Hc. by rewrite !app_assoc_s.
  - intros [Hin|Hin%list_elem_of_singleton]%elem_of_app; [|congruence]. destruct (He Hin) as (E & _). rewrite E in Hp. by destruct x.
Qed.

(** The end of the stream. *)
Lemma rest_ended whole th th' d d' bs :
  rest_of whole th d bs -> empty_at (th_pc th) = true -> dry_at (th_pc th) = true -> chunk_of (th_pc th) = ""%string -> th_pc th' = Idle ->
  d_plain d' = d_plain d -> d_conn d' = d_conn d -> d_incoming d = [] -> d_incoming d' = [] -> rest_of whole th' d' (bs ++ [""%string]).
Proof.
  intros [Hw Hem Hd He] Ee Ed Hc Hi Ep Ec Ei Ei'. split; rewrite ?Hi, ?Ep, ?Ec, ?Ei'; [|done|done|].
  - rewrite concat_snoc, app_nil_s, Hw, Hc, Ei. done.
  - intros _. by rewrite (Hem Ee), (Hd Ed).
Qed.

Lemma step_reading r whole th d d' : reading r whole d -> d_threads d !! r = Some th -> size_at (th_pc th) <> None -> step r d = Some d' -> reading r whole d'.
Proof.
  intros HR Ht Hz. pose proof (re_reader _ _ _ HR th Ht) as (_ & Hn & Hb). pose proof (re_chunks _ _ _ HR) as Hch.
  unfold step. rewrite Ht. destruct th as [pc todo dn]. unfold step_thread, step_read, step_drain, lock_conn, lock_sock. cbn [th_pc th_done] in *.
  destruct pc as [|n|n ag|n ag got|n ag got pend|n ag got pend|n ag got pend|n|n chunk|buf|buf|len out|len out|len out|len out]; try done; cbn [is_write].
  - intros [= <-]. destruct (d_plain d) as [|a b] eqn:Ep; apply (reader_moved _ _ _ _ _ _ _ _ _ _ _ _ HR Ht); try done.
    + intros bs [W1 W2 W3 W4]%Hb. by split.
    + intros bs (bs0 & -> & Hbs)%reads_in_ok. eapply (rest_given _ _ _ d); [by apply Hb|apply take_nonempty; intros ->; by apply Hn|by rewrite Ep, str_take_drop|done..].
  - case_match; [done|]. intros [= <-]. apply (reader_moved _ _ _ _ _ _ _ _ _ _ _ _ HR Ht); try done. intros bs [W1 W2 W3 W4]%Hb. by split.
  - intros [= <-]. destruct (tls_read RELAY_BUF (d_conn d)) as [[[[|a b]|]|e] c] eqn:Er; apply (reader_moved _ _ _ _ _ _ _ _ _ _ _ _ HR Ht); try done.
    + intros bs [W1 W2 W3 W4]%Hb. cbn in *. pose proof (fun s => total_dry _ _ _ _ s Er (or_intror eq_refl)) as Hd.
      split; cbn; [by rewrite (proj1 (Hd _))|done|intros _; apply (Hd ""%string)|]. intros Hin. rewrite (proj2 (Hd ""%string)). naive_solver.
    + intros bs [W1 W2 W3 W4]%Hb. cbn in *. split; cbn; [by rewrite W1, (total_read _ _ _ _ _ _ Er), !app_assoc_s|done|done|].
      intros (_ & Hd & _)%W4. by rewrite (total_read _ _ _ _ _ _ Er) in Hd.
    + intros bs [W1 W2 W3 W4]%Hb. cbn in *. pose proof (fun s => total_dry _ _ _ _ s Er (or_introl eq_refl)) as Hd.
      split; cbn; [by rewrite (proj1 (Hd _))|done|intros _; apply (Hd ""%string)|]. intros Hin. rewrite (proj2 (Hd ""%string)). naive_solver.
    + by intros bs Hbs%reads_in_err.
  - intros [= <-]. unfold collect. destruct (wants_write (d_conn d)).
    + pose proof (total_write_tls (d_conn d)) as Hw. destruct (write_tls (d_conn d)) as [[b|e] c]; cbn in Hw.
      * apply (reader_moved _ _ _ _ _ _ _ _ _ _ _ _ HR Ht); try done. intros bs [W1 W2 W3 W4]%Hb. cbn in *. split; cbn; rewrite ?Hw; done.
      * apply (reader_moved _ _ _ _ _ _ _ _ _ _ _ _ HR Ht); try done. by intros bs Hbs%reads_in_err.
    + apply (reader_moved _ _ _ _ _ _ _ _ _ _ _ _ HR Ht); try done; cbn; unfold drained; [by destruct pend; [destruct (ag || got)|]|].
      intros bs [W1 W2 W3 W4]%Hb. cbn in *. destruct pend; [|by split]. destruct ag, got; cbn; by split.
  - case_match; [done|]. intros [= <-]. apply (reader_moved _ _ _ _ _ _ _ _ _ _ _ _ HR Ht); try done. intros bs [W1 W2 W3 W4]%Hb. by split.
  - intros [= <-]. destruct (write_all pend (d_sock d)) as [[x|e] sk]; apply (reader_moved _ _ _ _ _ _ _ _ _ _ _ _ HR Ht); try done; cbn; unfold drained.
    + by destruct (ag || got).
    + intros bs [W1 W2 W3 W4]%Hb. cbn in *. destruct ag, got; cbn; by split.
    + by intros bs Hbs%reads_in_err.
  - intros [= <-]. destruct (d_incoming d) as [|[[|a b]|e] rest] eqn:Ei; try (by inversion Hch as [|? ? Hf]; destruct Hf).
    + apply (reader_moved _ _ _ _ _ _ _ _ _ _ _ _ HR Ht); try done; [cbn; by rewrite Ei|].
      intros bs (bs0 & -> & Hbs)%reads_in_ok. eapply (rest_ended _ _ _ d); [by apply Hb|done..].
    + inversion Hch. apply (reader_moved _ _ _ _ _ _ _ _ _ _ _ _ HR Ht); try done.
      intros bs [W1 W2 W3 W4]%Hb. cbn in *. rewrite Ei in *. split; cbn; [done|done|done|]. by intros (_ & _ & ? & _)%W4.
  - case_match; [done|]. intros [= <-]. destruct (feed (String.length chunk) chunk (d_conn d)) as [[x|e] c] eqn:Ef; apply (reader_moved _ _ _ _ _ _ _ _ _ _ _ _ HR Ht); try done.
    + intros bs [W1 W2 W3 W4]%Hb. cbn in *. assert (Hft := fun s => feed_total _ _ _ _ _ s (Nat.le_refl _) Ef). split; cbn; [by rewrite <- Hft|done|done|].
      intros Hin. destruct (W4 Hin) as (? & Ht0 & ? & ->). split_and!; [done| |done|done]. rewrite <- Hft. cbn. done.
    + by intros bs Hbs%reads_in_err.
Qed.
End Reading.

Section Returns.
Context {C : Type} `{CL : CalmLaws C} {PL : PlainLaws C}.

(** How far a read is from its end, apart from what it has still to decrypt and to receive. *)
Definition rank (pc : Pc) : nat :=
  match pc with
  | Plaintext _ => 6
  | DrainLock _ again => if again then 10 else 5
  | DrainRead _ again got => if again || got then 9 else 4
  | DrainCollect _ again got _ => if again || got then 8 else 3
  | Receive _ => 2
  | Feed _ _ => 11
  | _ => 0
  end.
Definition to_go (pc : Pc) (d : Duplex C) : nat :=
  rank pc + 20 * String.length (total (d_conn d) (chunk_of pc ++s bytes_of (d_incoming d))) + 12 * length (d_incoming d).

(** Only [r] may hold the connection. *)
Definition unhindered (r : nat) (d : Duplex C) : Prop := d_conn_lock d = None \/ d_conn_lock d = Some r.

Definition goes_on (r : nat) (th : Thread) (d d' : Duplex C) : Prop :=
  ordered d' /\ unhindered r d' /\ exists th', d_threads d' !! r = Some th' /\
    ((th_pc th' = Idle /\ exists x, th_done th' = th_done th ++ [ReadEnd x]) \/
     (size_at (th_pc th') <> None /\ th_done th' = th_done th /\ (to_go (th_pc th') d' < to_go (th_pc th) d)%nat)).

Lemma read_goes_on r th d : ordered d -> unhindered r d -> d_threads d !! r = Some th -> size_at (th_pc th) <> None ->
  exists d', step r d = Some d' /\ goes_on r th d d'.
Proof.
  intros Ho Hu Ht Hz. pose proof (lookup_lt_Some _ _ _ Ht) as Hlt. pose proof (Forall_lookup_1 _ _ _ _ (or_quiet d Ho) Ht) as Hn. cbn beta in Hn.
  assert (Hsp : forall d', step r d = Some d' -> (unhindered r d' /\ exists th', d_threads d' !! r = Some th' /\
    ((th_pc th' = Idle /\ exists x, th_done th' = th_done th ++ [ReadEnd x]) \/
     (size_at (th_pc th') <> None /\ th_done th' = th_done th /\ (to_go (th_pc th') d' < to_go (th_pc th) d)%nat))) ->
     exists d'', step r d = Some d'' /\ goes_on r th d d'').
  { intros d' Hs Hg. exists d'. split; [done|]. split; [by eapply step_ordered|done]. }
  assert (Hfree : holds_conn (th_pc th) = false -> d_conn_lock d = None).
  { intros Hh. destruct Hu as [?|E]; [done|]. by destruct (owned_not _ _ _ _ _ (or_conn d Ho) Ht Hh). }
  destruct th as [pc todo dn]. unfold step, step_thread, step_read, step_drain, lock_conn in *. rewrite Ht in *. cbn [th_pc th_done] in *.
  destruct pc as [|n|n ag|n ag got|n ag got pend|n ag got pend|n ag got pend|n|n chunk|buf|buf|len out|len out|len out|len out]; try done; cbn [is_write] in *;
    try (pose proof (Hfree eq_refl) as El; clear Hfree; try rewrite El in Hsp |- *); eapply Hsp; try reflexivity.
  - destruct (d_plain d) as [|a b]; (split; [by left|]); cbn; rewrite list_lookup_insert_eq by done; eexists; (split; [done|]); [right|left; eauto].
    split_and!; [done|done|]. unfold to_go. cbn. lia.
  - split; [by right|]. cbn. rewrite list_lookup_insert_eq by done. eexists; split; [done|]. right. split_and!; [done|done|].
    unfold to_go. cbn. destruct ag; cbn; lia.
  - destruct (tls_read RELAY_BUF (d_conn d)) as [[[[|a b]|]|e] c] eqn:Er; (split; [by first [exact Hu|left]|]); cbn; rewrite list_lookup_insert_eq by done;
      eexists; (split; [done|]); [right|right|right|left; by eauto]; (split_and!; [done|done|]); unfold to_go; cbn.
    + rewrite (proj1 (total_dry _ _ _ _ _ Er (or_intror eq_refl))). destruct (ag || got); cbn; lia.
    + rewrite (total_read _ _ _ _ _ _ Er), orb_true_r. cbn. rewrite app_length_s. destruct (ag || got); cbn; lia.
    + rewrite (proj1 (total_dry _ _ _ _ _ Er (or_introl eq_refl))). destruct (ag || got); cbn; lia.
  - apply String.eqb_eq in Hn as ->. pose proof (calm_holder d r _ Ho Ht eq_refl eq_refl) as Hc. unfold collect. rewrite Hc.
    split; [by left|]. cbn. rewrite list_lookup_insert_eq by done. eexists; split; [done|]. right. unfold to_go, drained. cbn.
    destruct (ag || got); cbn; (split_and!; [done|done|lia]).
  - destruct (d_incoming d) as [|[[|a b]|e] rest] eqn:Ei; (split; [by left|]); cbn; rewrite list_lookup_insert_eq by done;
      eexists; (split; [done|]); [by left; eauto|by left; eauto| |by left; eauto].
    right. split_and!; [done|done|]. unfold to_go. cbn. rewrite Ei. cbn. lia.
  - destruct (feed (String.length chunk) chunk (d_conn d)) as [[x|e] c] eqn:Ef; (split; [by left|]); cbn;
      rewrite list_lookup_insert_eq by done; eexists; (split; [done|]); [right|by left; eauto].
    split_and!; [done|done|]. unfold to_go. cbn. rewrite <- (feed_total _ _ _ _ _ _ (Nat.le_refl _) Ef). lia.
Qed.

Lemma read_finishes r th d k : (to_go (th_pc th) d <= k)%nat -> ordered d -> unhindered r d -> d_threads d !! r = Some th -> size_at (th_pc th) <> None ->
  exists m th', (m <= S k)%nat /\ d_threads (play (repeat r m) d) !! r = Some th' /\ th_pc th' = Idle /\ exists x, th_done th' = th_done th ++ [ReadEnd x].
Proof.
  revert th d. induction k as [|k IH]; intros th d Hk Ho Hu Ht Hz.
  all: destruct (read_goes_on r th d Ho Hu Ht Hz) as (d' & Hs & Ho' & Hu' & th' & Ht' & [[Hi Hd]|(Hz' & Hd & Hlt)]);
    [exists 1%nat, th'; cbn; rewrite Hs; split_and!; [lia|done..]|].
  - lia.
  - destruct (IH th' d') as (m & th'' & Hm & Ht'' & Hi & Hd''); [lia|done..|]. exists (S m), th''. cbn. rewrite Hs. cbn. rewrite <- Hd.
    split_and!; [lia|done..].
Qed.
End Returns.

Section Run.
Context {C : Type} `{TlsConn C}.

Lemma play_reaches turns (d : Duplex C) : reaches d (play turns d).
Proof.
  induction turns as [|t turns IH] using rev_ind; [constructor|]. unfold play. rewrite fold_left_app. cbn. fold (play turns d).
  destruct (step t (play turns d)) eqn:E; cbn; [by eapply reaches_step|done].
Qed.

(** Thread [r] reads, with buffers that have room; the others write. *)
Definition one_reader (r : nat) (calls : list (list Op)) : Prop :=
  forall t ops, calls !! t = Some ops -> Forall (if decide (t = r) then asks else writes) ops.
End Run.

Lemma starts_reading {C : Type} `{PlainLaws C} (c : C) r incoming room calls :
  one_reader r calls -> Forall full incoming -> reading r (total c (bytes_of incoming)) (wrap_tls c incoming room calls).
Proof.
  intros Ho Hf. split; cbn; [| |done].
  - intros t th Hn. rewrite list_lookup_fmap. destruct (calls !! t) as [ops|] eqn:E; [|done]. intros [= <-]. cbn. pose proof (Ho t ops E) as Hw.
    by rewrite decide_False in Hw.
  - intros th. rewrite list_lookup_fmap. destruct (calls !! r) as [ops|] eqn:E; [|done]. intros [= <-]. cbn. pose proof (Ho r ops E) as Hw.
    rewrite decide_True in Hw by done. split_and!; [done|done|]. intros [|b bs]; [|done]. intros _. split; cbn; [done|done|done|]. by intros ?%not_elem_of_nil.
Qed.

Lemma reaches_reading {C : Type} `{PlainLaws C} r whole (d d' : Duplex C) : reading r whole d -> reaches d d' -> reading r whole d'.
Proof.
  intros HR. induction 1 as [|d d' d'' t _ IH Hs]; [done|]. specialize (IH HR). pose proof Hs as Hs'. unfold step in Hs'.
  destruct (d_threads d' !! t) as [th|] eqn:Ht; [|done]. destruct (size_at (th_pc th)) as [n|] eqn:Ez.
  - destruct (decide (t = r)) as [->|Hn]; [eapply step_reading; [done|done|congruence|done]|].
    destruct (re_others _ _ _ IH t th Hn Ht) as [_ E]. congruence.
  - eapply aside_reading; [done|done|done|]. by apply step_aside.
Qed.

(** C15: However the reads of one thread interleave with the writes of others and however
    the network cuts the stream, the bytes the reads return are a beginning of the
    plaintext of the stream, in order and each once, bytes that came with the handshake
    included, as long as no read fails; a read that returns no bytes comes after all of
    the plaintext.  A read that no other thread keeps from the connection returns. *)
Theorem reads_deliver {C : Type} `{CL : CalmLaws C} {PL : PlainLaws C} (c : C) r incoming room calls (d : Duplex C) th bs :
  wants_write c = false -> one_reader r calls -> Forall full incoming -> reaches (wrap_tls c incoming room calls) d ->
  d_threads d !! r = Some th -> reads_in (th_done th) = map Ok bs ->
  (exists rest, total c (bytes_of incoming) = concat_s bs ++s rest) /\
  (""%string ∈ bs -> concat_s bs = total c (bytes_of incoming)) /\
  (size_at (th_pc th) <> None -> d_conn_lock d = None \/ d_conn_lock d = Some r ->
   exists m th' x, d_threads (play (repeat r m) d) !! r = Some th' /\ th_pc th' = Idle /\ th_done th' = th_done th ++ [ReadEnd x]).
Proof.
  intros Hc H1 Hf Hr Ht Hbs. pose proof (reaches_reading _ _ _ _ (starts_reading c r incoming room calls H1 Hf) Hr) as HR.
  destruct (re_reader _ _ _ HR th Ht) as (_ & _ & Hb). destruct (Hb bs Hbs) as [Hw _ _ He]. split_and!; [by eexists| |].
  - intros Hin. destruct (He Hin) as (E1 & E2 & E3 & E4). rewrite Hw, E1, E3, E4. cbn. by rewrite E2, !app_nil_s.
  - intros Hz Hu. pose proof (reaches_ordered _ _ (starts_ordered c incoming room calls Hc) Hr) as Ho.
    destruct (read_finishes r th d _ (Nat.le_refl _) Ho Hu Ht Hz) as (m & th' & _ & Ht' & Hi & x & Hd). by exists m, th', x.
Qed.

(** ** A connection to try it on *)

(** A record is its bytes in brackets; every received byte is a record of its own, and
    an exclamation mark calls for an answer when [answers]. *)
Record Toy : Type := mkToy { y_out : list string; y_seen : string; y_plain : string }.

Definition LIMIT : nat := 16 * 1024.
Definition PIECE : nat := 4 * 1024.
#[local] Opaque LIMIT PIECE.

Definition toy_answers (answers : bool) (s : string) : list string :=
  if answers && contains_char "!" s then ["[ack]"%string] else [].

Definition toy (answers : bool) : TlsConn Toy := {|
  tls_write buf c := (Ok tt, mkToy (y_out c ++ [("[" ++s buf ++s "]")%string]) (y_seen c) (y_plain c));
  wants_write c := match y_out c with [] => false | _ => true end;
  write_tls c := match y_out c with [] => (Ok ""%string, c) | b :: bs => (Ok b, mkToy bs (y_seen c) (y_plain c)) end;
  tls_read n c := match y_plain c with
                  | EmptyString => (Ok None, c)
                  | String a p => (Ok (Some (String a (str_take n p))), mkToy (y_out c) (y_seen c) (str_drop n p))
                  end;
  read_tls s c := if (LIMIT <? String.length (y_plain c))%nat then (Err "received plaintext buffer full"%string, c)
                  else match s with
                       | EmptyString => (Ok O, c)
                       | String a s' => (Ok (S (Nat.min PIECE (String.length s'))), mkToy (y_out c) (String a (str_take PIECE s')) (y_plain c ++s String a (str_take PIECE s')))
                       end;
  process_new_packets c := (Ok tt, mkToy (y_out c ++ toy_answers answers (y_seen c)) "" (y_plain c))
|}.

#[local] Instance toy_calm : @CalmLaws Toy (toy false).
Proof.
  split.
  - intros [[|b bs] seen p]; cbn; eauto.
  - intros n [[|b bs] seen [|a p]]; done.
  - intros s [[|b bs] seen p] Hc; [|done]. cbn [read_tls toy]. destruct (_ <? _)%nat; [done|]. by destruct s.
  - intros [[|b bs] seen p]; done.
  - done.
Qed.

Lemma drop_min n s : str_drop (Nat.min n (String.length s)) s = str_drop n s.
Proof.
  destruct (Nat.le_ge_cases n (String.length s)); [by rewrite Nat.min_l|]. rewrite Nat.min_r by done.
  assert (Hz : forall m, (String.length s <= m)%nat -> str_drop m s = ""%string).
  { intros m Hm. assert (E : String.length (str_drop m s) = O) by (rewrite str_drop_length; lia). by destruct (str_drop m s). }
  by rewrite !Hz.
Qed.

#[local] Instance toy_plain answers : @PlainLaws Toy (toy answers).
Proof.
  unshelve refine (@Build_PlainLaws Toy (toy answers) (fun c s => y_plain c ++s s) _ _ _ _ _ _).
  - intros n [bs seen [|x p]] c' a b s; cbn; [done|]. intros [= <- <- <-]. cbn. by rewrite <- (app_assoc_s (str_take n p)), str_take_drop.
  - intros n [bs seen [|x p]] c' r s; cbn; [|intros [= <- <-]; naive_solver]. by intros [= <- <-] _.
  - done.
  - by intros [[|b bs] seen p] s.
  - intros [|a s] c u c' E Hs; [done|]. cbn [read_tls toy] in E. destruct (_ <? _)%nat; naive_solver.
  - intros [|a cur] c u c' c'' x s; cbn [read_tls process_new_packets toy]; (destruct (_ <? _)%nat; [done|]); intros [= <- <-] [= <- <-]; cbn; [by rewrite ?app_nil_s|].
    rewrite drop_min, app_assoc_s. cbn. by rewrite <- (app_assoc_s (str_take _ _)), str_take_drop.
Qed.

Definition fresh_toy : Toy := mkToy [] "" "hi".

(** One thread reads what came with the handshake and what the peer sends, two write. *)
Definition three_calls : list (list Op) := [[ReadOp 8; ReadOp 2; ReadOp 8; ReadOp 8]; [WriteOp "a"; WriteOp "b"]; [WriteOp "c"]].
Definition some_turns : list nat := [1; 1; 2; 1; 0; 1; 1; 2; 1; 2; 1; 2; 2; 2; 2; 2; 1; 2]%nat ++ repeat 2%nat 5 ++ repeat 0%nat 20 ++ repeat 1%nat 20 ++ repeat 0%nat 40.
Definition some_run : Duplex Toy := @play Toy (toy false) some_turns (wrap_tls fresh_toy [Ok "pe"%string; Ok "er"%string] None three_calls).

Lemma records_in_order_witness :
  idle some_run /\ d_made some_run = "[a][c][b]"%string /\ sk_out (d_sock some_run) = d_made some_run.
Proof.
  assert (Hi : idle some_run) by (vm_compute; repeat (apply List.Forall_cons; [by split|]); apply List.Forall_nil).
  split_and!; [exact Hi|vm_compute; reflexivity|].
  apply (@records_in_order Toy (toy false) toy_calm fresh_toy [Ok "pe"%string; Ok "er"%string] None three_calls some_run);
    [reflexivity|apply play_reaches|exact Hi|vm_compute; discriminate].
Defined.

Definition reader_done : Thread := default (mkThread Idle [] []) (d_threads some_run !! 0%nat).

Lemma reads_deliver_witness :
  reads_in (th_done reader_done) = map Ok ["hi"; "pe"; "er"; ""]%string /\
  concat_s ["hi"; "pe"; "er"; ""]%string = @total Toy (toy false) (toy_plain false) fresh_toy "peer".
Proof.
  split; [vm_compute; reflexivity|].
  apply (@reads_deliver Toy (toy false) toy_calm (toy_plain false) fresh_toy 0 [Ok "pe"%string; Ok "er"%string] None three_calls some_run reader_done
           ["hi"; "pe"; "er"; ""]%string); [reflexivity| | |apply play_reaches|vm_compute; reflexivity|vm_compute; reflexivity|].
  - intros [|[|[|t]]] ops; cbn; intros [= <-]; (apply List.Forall_forall; cbn; intuition (subst; done)).
  - apply List.Forall_forall; cbn; intuition (subst; done).
  - do 3 apply list_elem_of_further. apply list_elem_of_here.
Defined.

(** ** What the locks leave open *)

(** [drain_plaintext] gives the connection back before it takes the socket: a writer
    that comes in between sends its record first. *)
Lemma drain_overtaken :
  let d := @play Toy (toy true) (repeat 0%nat 12 ++ repeat 1%nat 10 ++ repeat 0%nat 10)
             (wrap_tls (mkToy [] "" "") [Ok "!"%string] None [[ReadOp 8]; [WriteOp "x"]]) in
  d_made d = "[ack][x]"%string /\ sk_out (d_sock d) = "[x][ack]"%string.
Proof. vm_compute. done. Qed.

(** A read of the socket is given to the state machine as a whole before anything is
    taken out of it: a state machine that holds back at 16 KiB fails the read, although
    its buffer would be emptied right after. *)
Lemma backlog_fails :
  let d := @play Toy (toy false) (repeat 0%nat 30)
             (wrap_tls (mkToy [] "" "") [Ok (str_take 32768 (String.concat "" (repeat "0123456789abcdef"%string 2048)))] None [[ReadOp 8]]) in
  (th_done <$> d_threads d !! 0%nat) = Some [ReadEnd (Err "received plaintext buffer full"%string)].
Proof. vm_compute. done. Qed.
