(* ===== verification/Agent.v ===== *)
(** * The dialling agent of a node ([start_node_agent] of crates/sl-node/src/dataplane.rs)

    A node keeps connections to the gateway open: each of its dialling threads dials,
    waits until the gateway lends the connection to a client, hands the stream to a new
    thread and dials again; when too many streams run it serves the stream itself, so
    that no new connection is offered meanwhile.  The model is a machine whose events
    are the actions of the dialling threads and of the stream threads, in any order; the
    counter of running streams is read and raised in separate actions, as in the code.
    Dialling itself and what is served are arguments. *)

From Stdlib Require Import ZArith Lia Bool List String Ascii.
From stdpp Require Import base tactics list option strings.
From S2P Require Import Prelude RustStr Proto Gateway Routes Dataplane.

Open Scope Z_scope.

(** ** Dialling *)

Record AgentCfg : Type := mkAgent { ag_gw_addr : string; ag_node_id : string; ag_pool : Z; ag_max_streams : Z }.

(** [resolve], [connect]: the address of the gateway and the connection to it; [secure]:
    the handshake when certificates are configured; [plain]: the socket cloned otherwise.
    The state is what is written on the connection. *)
Definition dial_once {A : Type} (cfg : AgentCfg) (resolve : result (list A) string) (connect : A -> result unit string)
    (secure : option (result unit string)) (plain : result unit string) : M Sink string unit :=
  match resolve with
  | Err e => mfail ("解析 " ++s ag_gw_addr cfg ++s " 失败: " ++s e)
  | Ok [] => mfail (ag_gw_addr cfg ++s " 无可用地址")
  | Ok (addr :: _) =>
      match connect addr with
      | Err e => mfail ("connect: " ++s e)
      | Ok _ =>
          match default plain secure with
          | Err e => mfail e
          | Ok _ => fun sk =>
              match write_all (greeting (ag_node_id cfg)) sk with
              | (Err e, sk') => (Err ("写问候行失败: " ++s io_text e), sk')
              | (Ok _, sk') => (Ok tt, sk')
              end
          end
      end
  end.

(** ** The threads *)

(** Where a dialling thread is.  [Opened]: it has a ticket; [Counting]: it read the
    counter and goes to raise it; [Spawning]: it raised it. *)
Inductive Dial : Type :=
| Dialling (backoff : Z)
| Sleeping (backoff : Z)
| Waiting
| Opened
| Counting
| Spawning
| InPlace
| Dead.

#[global] Instance Dial_eq_dec : EqDecision Dial.
Proof. solve_decision. Defined.

(** [a_running] streams are served by threads of their own, [a_leaving] of them have
    ended and not lowered the counter yet; [a_lost] ended without lowering it. *)
Record Agent : Type := mkState {
  a_inflight : Z;
  a_dials : list Dial;
  a_running : Z;
  a_leaving : Z;
  a_lost : Z;
  a_slept : list Z
}.

Inductive AgentEvent : Type :=
| DialFails (i : nat)
| Wakes (i : nat)
| DialWorks (i : nat)
| NotOpened (i : nat)
| Opens (i : nat)
| Loads (i : nat)
| Counts (i : nat)
| Spawns (i : nat) (ok : bool)
| Served (i : nat)
| Panics (i : nat)
| StreamEnds
| StreamPanics
| Leaves.

Definition MAX_BACKOFF : Z := 30.

Definition set_dial (i : nat) (p : Dial) (a : Agent) : Agent :=
  mkState (a_inflight a) (<[i := p]> (a_dials a)) (a_running a) (a_leaving a) (a_lost a) (a_slept a).
Definition add_inflight (n : Z) (a : Agent) : Agent :=
  mkState (as_u64 (a_inflight a + n)) (a_dials a) (a_running a) (a_leaving a) (a_lost a) (a_slept a).
Definition add_running (n : Z) (a : Agent) : Agent :=
  mkState (a_inflight a) (a_dials a) (a_running a + n) (a_leaving a) (a_lost a) (a_slept a).
Definition add_leaving (n : Z) (a : Agent) : Agent :=
  mkState (a_inflight a) (a_dials a) (a_running a) (a_leaving a + n) (a_lost a) (a_slept a).
Definition add_lost (n : Z) (a : Agent) : Agent :=
  mkState (a_inflight a) (a_dials a) (a_running a) (a_leaving a) (a_lost a + n) (a_slept a).
Definition add_slept (t : Z) (a : Agent) : Agent :=
  mkState (a_inflight a) (a_dials a) (a_running a) (a_leaving a) (a_lost a) (a_slept a ++ [t]).

Section Machine.
Context (cfg : AgentCfg).

(** A pool of none is one, and so is a limit of none. *)
Definition dials : Z := Z.max 1 (ag_pool cfg).
Definition max_streams : Z := Z.max 1 (ag_max_streams cfg).

(** One turn of a dialling thread. *)
Definition dial_step (i : nat) (ev : AgentEvent) (p : Dial) (a : Agent) : option Agent :=
  match ev, p with
  | DialFails _, Dialling b => Some (set_dial i (Sleeping b) (add_slept b a))
  | Wakes _, Sleeping b => Some (set_dial i (Dialling (Z.min (b * 2) MAX_BACKOFF)) a)
  | DialWorks _, Dialling _ => Some (set_dial i Waiting a)
  | NotOpened _, Waiting => Some (set_dial i (Dialling 1) a)
  | Opens _, Waiting => Some (set_dial i Opened a)
  | Loads _, Opened => Some (set_dial i (if max_streams <=? a_inflight a then InPlace else Counting) a)
  | Counts _, Counting => Some (add_inflight 1 (set_dial i Spawning a))
  | Spawns _ true, Spawning => Some (add_running 1 (set_dial i (Dialling 1) a))
  | Spawns _ false, Spawning => Some (add_inflight (-1) (set_dial i (Dialling 1) a))
  | Served _, InPlace => Some (set_dial i (Dialling 1) a)
  | Panics _, InPlace => Some (set_dial i Dead a)
  | _, _ => None
  end.

(** The dialling thread of an event. *)
Definition thread_of (ev : AgentEvent) : option nat :=
  match ev with
  | DialFails i | Wakes i | DialWorks i | NotOpened i | Opens i | Loads i | Counts i | Spawns i _ | Served i | Panics i => Some i
  | StreamEnds | StreamPanics | Leaves => None
  end.

Definition agent_step (ev : AgentEvent) (a : Agent) : option Agent :=
  match thread_of ev with
  | Some i => match a_dials a !! i with Some p => dial_step i ev p a | None => None end
  | None =>
      match ev with
      | StreamEnds => if 0 <? a_running a then Some (add_leaving 1 (add_running (-1) a)) else None
      | StreamPanics => if 0 <? a_running a then Some (add_lost 1 (add_running (-1) a)) else None
      | _ => if 0 <? a_leaving a then Some (add_inflight (-1) (add_leaving (-1) a)) else None
      end
  end.

(** [tls]: the certificates of the configuration, read once. *)
Definition start_node_agent (tls : option (result unit string)) : result Agent string :=
  match tls with
  | Some (Err e) => Err e
  | _ => Ok (mkState 0 (replicate (Z.to_nat dials) (Dialling 1)) 0 0 0 [])
  end.

Fixpoint agent_run (evs : list AgentEvent) (a : Agent) : option Agent :=
  match evs with
  | [] => Some a
  | ev :: evs' => match agent_step ev a with Some a' => agent_run evs' a' | None => None end
  end.
End Machine.

(** ** How many streams run *)

Definition count (p : Dial) (ds : list Dial) : Z := Z.of_nat (length (filter (fun q => q = p) ds)).
Definition hit (p q : Dial) : Z := if decide (q = p) then 1 else 0.

Lemma count_cons p q ds : count p (q :: ds) = hit p q + count p ds.
Proof. unfold count, hit. rewrite filter_cons. destruct (decide (q = p)); cbn [length]; lia. Qed.

Lemma count_insert p i q r ds : ds !! i = Some r -> count p (<[i := q]> ds) = count p ds - hit p r + hit p q.
Proof.
  revert i. induction ds as [|x ds IH]; intros [|i] E; [done|done| |].
  - injection E as ->. change (<[0%nat := q]> (r :: ds)) with (q :: ds). rewrite !count_cons. lia.
  - change (<[S i := q]> (x :: ds)) with (x :: <[i := q]> ds). rewrite !count_cons, (IH i E). lia.
Qed.

Lemma count_bound p ds : 0 <= count p ds <= Z.of_nat (length ds).
Proof. unfold count. pose proof (length_filter (fun q => q = p) ds). lia. Qed.

Lemma count_two p q ds : p <> q -> count p ds + count q ds <= Z.of_nat (length ds).
Proof.
  intros Hn. induction ds as [|x ds IH]; [done|]. rewrite !count_cons. unfold hit. cbn [length].
  destruct (decide (x = p)), (decide (x = q)); (congruence || lia).
Qed.

(** The waits between attempts. *)
Definition patient (p : Dial) : Prop := match p with Dialling b | Sleeping b => 1 <= b <= MAX_BACKOFF | _ => True end.

Section Bound.
Context (cfg : AgentCfg) (room : max_streams cfg + dials cfg <= u64_max).

Record sane (a : Agent) : Prop := {
  sn_dials : Z.of_nat (length (a_dials a)) = dials cfg;
  sn_counts : 0 <= a_running a /\ 0 <= a_leaving a /\ 0 <= a_lost a;
  sn_inflight : a_inflight a = a_running a + a_leaving a + a_lost a + count Spawning (a_dials a);
  sn_bound : a_inflight a + count Counting (a_dials a) <= max_streams cfg - 1 + dials cfg;
  sn_patient : Forall patient (a_dials a);
  sn_slept : Forall (fun t => 1 <= t <= MAX_BACKOFF) (a_slept a)
}.

Lemma sane_start : sane (mkState 0 (replicate (Z.to_nat (dials cfg)) (Dialling 1)) 0 0 0 []).
Proof.
  assert (Hc : forall p n, p <> Dialling 1 -> count p (replicate n (Dialling 1)) = 0).
  { intros p n Hp. induction n as [|n IH]; [done|]. cbn [replicate]. rewrite count_cons, IH. unfold hit. by rewrite decide_False by congruence. }
  assert (1 <= max_streams cfg) by (unfold max_streams; lia). assert (1 <= dials cfg) by (unfold dials; lia).
  split; cbn; rewrite ?Hc, ?length_replicate by done; try lia; [|done]. apply Forall_replicate. cbn. unfold MAX_BACKOFF. lia.
Qed.

Lemma dial_sane i ev p a a' : sane a -> a_dials a !! i = Some p -> dial_step cfg i ev p a = Some a' -> sane a'.
Proof.
  intros [Hd (Hr & Hl & Ho) Hi Hb Hp Hs] Ht. pose proof (Forall_lookup_1 _ _ _ _ Hp Ht) as Hpi.
  pose proof (fun q x => count_insert q i x p (a_dials a) Ht) as Hc.
  assert (H1 : 1 <= max_streams cfg) by (unfold max_streams; lia).
  pose proof (count_bound Counting (a_dials a)) as Hcc. pose proof (count_bound Spawning (a_dials a)) as Hcs.
  assert (Hpos : p = Spawning -> 1 <= count Spawning (a_dials a)).
  { intros ->. pose proof (Hc Spawning Dead) as E. unfold hit in E. rewrite decide_True, decide_False in E by done.
    pose proof (count_bound Spawning (<[i:=Dead]> (a_dials a))). lia. }
  assert (Hctr : p = Opened -> count Counting (a_dials a) + 1 <= dials cfg).
  { intros ->. pose proof (count_two Counting Opened (a_dials a)) as Hw. pose proof (Hc Opened Dead) as E. unfold hit in E. rewrite decide_True, decide_False in E by done.
    pose proof (count_bound Opened (<[i:=Dead]> (a_dials a))). specialize (Hw ltac:(done)). lia. }
  unfold dial_step. destruct ev, p; try done; try (destruct ok); cbn [patient] in Hpi; intros [= <-].
  all: try (destruct (max_streams cfg <=? a_inflight a) eqn:El; [apply Z.leb_le in El|apply Z.leb_gt in El]).
  all: try specialize (Hpos eq_refl); try specialize (Hctr eq_refl); split; cbn; rewrite ?length_insert, ?Hc; unfold hit, MAX_BACKOFF in *.
  all: rewrite ?as_u64_id by (unfold u64_max in *; lia); repeat case_decide; try done; try lia.
  all: first [apply Forall_insert; [done|] | apply Forall_app; split; [done|apply Forall_singleton]]; cbn; unfold MAX_BACKOFF; lia.
Qed.

Lemma agent_step_sane ev a a' : sane a -> agent_step cfg ev a = Some a' -> sane a'.
Proof.
  intros Hs. unfold agent_step. destruct (thread_of ev) as [i|].
  - destruct (a_dials a !! i) as [p|] eqn:Ht; [|done]. by apply dial_sane.
  - destruct Hs as [Hd (Hr & Hl & Ho) Hi Hb Hp Hs]. pose proof (count_bound Spawning (a_dials a)). pose proof (count_bound Counting (a_dials a)).
    assert (He : forall b (x y : Agent), (0 <? b) = true -> Some x = Some y -> 0 < b /\ x = y) by (intros b x y ?%Z.ltb_lt [= ->]; done).
    destruct ev; try (by destruct (0 <? a_leaving a) eqn:E; [|done]; intros [? <-]%(He _ _ _ E); split; cbn; rewrite ?as_u64_id by (unfold u64_max in *; lia); (done || lia)).
    all: by destruct (0 <? a_running a) eqn:E; [|done]; intros [? <-]%(He _ _ _ E); split; cbn; (done || lia).
Qed.

Lemma agent_run_sane evs a a' : sane a -> agent_run cfg evs a = Some a' -> sane a'.
Proof.
  revert a. induction evs as [|ev evs IH]; intros a Hs; cbn; [by intros [= <-]|]. destruct (agent_step cfg ev a) as [a1|] eqn:E; [|done].
  apply IH. by eapply agent_step_sane.
Qed.
End Bound.

(** C27: Along any interleaving of the dialling threads and the streams, the counter is
    the number of streams that run in threads of their own, are just being handed over
    or have not been taken off yet, apart from streams that panicked; it never passes
    the limit by more than the number of dialling threads, less one, and so with the
    streams served in place no more than the limit and twice the dialling threads, less
    one, run at a time.  A thread waits between 1 and 30 seconds between attempts. *)
Theorem streams_bounded (cfg : AgentCfg) (tls : option (result unit string)) (start a : Agent) (evs : list AgentEvent) :
  max_streams cfg + dials cfg <= u64_max -> start_node_agent cfg tls = Ok start -> agent_run cfg evs start = Some a ->
  a_inflight a = a_running a + a_leaving a + a_lost a + count Spawning (a_dials a) /\
  a_inflight a <= max_streams cfg - 1 + dials cfg /\
  a_running a + count InPlace (a_dials a) <= max_streams cfg - 1 + 2 * dials cfg /\
  Forall (fun t => 1 <= t <= 30) (a_slept a).
Proof.
  intros Hroom Hst Hrun. assert (start = mkState 0 (replicate (Z.to_nat (dials cfg)) (Dialling 1)) 0 0 0 []) as ->.
  { unfold start_node_agent in Hst. destruct tls as [[[]|e]|]; congruence. }
  destruct (agent_run_sane cfg Hroom _ _ _ (sane_start cfg) Hrun) as [Hd (Hr & Hl & Ho) Hi Hb _ Hs].
  pose proof (count_bound Counting (a_dials a)). pose proof (count_bound Spawning (a_dials a)). pose proof (count_bound InPlace (a_dials a)).
  split_and!; [done|lia|lia|done].
Qed.

(** ** The limit is not a limit *)

Definition two_dials : AgentCfg := mkAgent "gw:9443" "n1" 2 1.

(** Two threads read the counter before either raises it, and then both serve in place. *)
Definition crowd : list AgentEvent :=
  [DialWorks 0; DialWorks 1; Opens 0; Opens 1; Loads 0; Loads 1; Counts 0; Counts 1; Spawns 0 true; Spawns 1 true;
   DialWorks 0; DialWorks 1; Opens 0; Opens 1; Loads 0; Loads 1].

Lemma streams_bounded_witness :
  exists a, agent_run two_dials crowd (mkState 0 [Dialling 1; Dialling 1] 0 0 0 []) = Some a /\ a_inflight a = 2 /\
    a_running a + count InPlace (a_dials a) <= 4.
Proof.
  eexists. split; [vm_compute; reflexivity|]. split; [reflexivity|].
  apply (streams_bounded two_dials None (mkState 0 [Dialling 1; Dialling 1] 0 0 0 []) _ crowd); [vm_compute; discriminate|vm_compute; reflexivity|vm_compute; reflexivity].
Defined.

(** With a limit of one, four streams run. *)
Lemma limit_passed :
  exists a, agent_run two_dials crowd (mkState 0 [Dialling 1; Dialling 1] 0 0 0 []) = Some a /\ a_running a + count InPlace (a_dials a) = 4.
Proof. eexists. split; vm_compute; reflexivity. Qed.

(** A stream that panics is counted for ever: with a limit of one the node serves all
    later streams in place, though none runs. *)
Lemma panic_counts :
  exists a, agent_run two_dials [DialWorks 0; Opens 0; Loads 0; Counts 0; Spawns 0 true; StreamPanics; DialWorks 0; Opens 0; Loads 0]
              (mkState 0 [Dialling 1; Dialling 1] 0 0 0 []) = Some a /\ a_running a = 0 /\ a_dials a = [InPlace; Dialling 1].
Proof. eexists. split_and!; vm_compute; reflexivity. Qed.

(** The waits of a thread whose gateway is away double up to half a minute. *)
Fixpoint fail_times (n : nat) : list AgentEvent := match n with O => [] | S k => [DialFails 0; Wakes 0] ++ fail_times k end.

Lemma backoff_doubles :
  a_slept <$> agent_run two_dials (fail_times 7) (mkState 0 [Dialling 1; Dialling 1] 0 0 0 []) = Some [1; 2; 4; 8; 16; 30; 30].
Proof. vm_compute. reflexivity. Qed.
