(* ===== verification/Daemon.v ===== *)
(** * The daemon's loops (crates/sl-node/src/api.rs, [serve])

    One turn of each background thread of the daemon: the heartbeat of the node, the
    campaign for leadership, and the reaper of the leader, which ends sandboxes and
    stops the listeners of their exposed ports; and the runs of the daemon, which
    interleave the requests of the API, the tickets of the gateway and the reaper. *)

From Stdlib Require Import ZArith Lia Bool List String Ascii.
From stdpp Require Import base tactics list gmap strings relations.
From S2P Require Import Prelude RustStr Utf8 Json Store Sqlite SqliteSpec StoreTheorems Cluster Election Auth Quota Sched Retention AuditLog Proto Snapcrypt Backend Orch OrchSafety OrchReaper OrchTenancy Gateway Text Base64 Http Metrics Routes Api ApiSafety.

Open Scope Z_scope.

Section Loops.
Context {S B : Type} `{Store S} `{SandboxBackend B} `{ApiJson}.

(** ** Heartbeat *)

(** [std::cmp::max(cfg.tick_secs as i64 * 3, 15)] *)
Definition heartbeat_ttl (tick_secs : Z) : Z := Z.max (as_i64 (as_i64 tick_secs * 3)) 15.
(** [std::cmp::max((ttl / 3) as u64, 1)], in seconds. *)
Definition heartbeat_period (ttl : Z) : Z := Z.max (as_u64 (Z.quot ttl 3)) 1.

Definition ok_option {St E A} (m : M St E A) : M St E (option A) :=
  let? r := mtry m in mret (match r with Ok a => Some a | Err _ => None end).

Definition heartbeat_start (now : Z) (node_id meta : string) (ttl : Z) : M S StoreError (option Z) :=
  ok_option (register_node now node_id meta ttl).

(** After the sleep: renew and rewrite the key, or register again. *)
Definition heartbeat_turn (now : Z) (node_id meta : string) (ttl : Z) (lease : option Z) : M S StoreError (option Z) :=
  let? alive := match lease with
                | Some l => let? r := mtry (heartbeat now l) in mret (is_ok r)
                | None => mret false
                end in
  if (alive : bool) then let? _ := mtry (put (node_key node_id) meta lease) in mret lease
  else ok_option (register_node now node_id meta ttl).

(** ** Election *)

(** The flag the reaper reads. *)
Definition election_turn (now : Z) : M (S * Election) StoreError bool :=
  let? r := mtry (try_campaign now) in mret (match r with Ok b => b | Err _ => false end).

(** ** The reaper *)

Definition forget_one (_ : unit) (id : string) : M (Api S B) string unit :=
  let? _ := drop_exposes id in metric record_destroy.
Definition forget (ids : list string) : M (Api S B) string unit := mfold forget_one ids tt.

(** [if let Ok(ids) = m { .. }] *)
Definition and_forget (m : M (Orch.Orch S B) string (list string)) : M (Api S B) string unit :=
  let? r := mtry (on_orch m) in
  match r with Ok ids => forget ids | Err _ => mret tt end.

Definition reaper_turn (iter : gmap string LiveMeta -> list (string * LiveMeta))
    (retain_iter : gmap string (Z * option Z) -> list (string * (Z * option Z))) (now : Z) (leader : bool) : M (Api S B) string unit :=
  if negb leader then mret tt
  else
    let? _ := and_forget (tick iter now) in
    let? _ := and_forget orch_reclaim_orphans in
    and_forget (gc_retention retain_iter now).
End Loops.

(** ** A node that beats in time stays registered *)

(** What happens to the store: turns of this node's thread, sweeps of expired leases by
    the leader, writes of others. *)
Inductive HbEvent : Type :=
| HbTurn (now : Z)
| HbSweep (now : Z)
| HbWrite (k v : string).

Section Heartbeats.
Context {S : Type} `{StoreLaws S} (node_id meta : string) (ttl : Z).

Definition hb_step (st : S * option Z) (e : HbEvent) : S * option Z :=
  let '(s, lease) := st in
  match e with
  | HbTurn now => match heartbeat_turn now node_id meta ttl lease s with (Ok l, s') => (s', l) | (Err _, s') => (s', lease) end
  | HbSweep now => ((lease_sweep now s).2, lease)
  | HbWrite k v => ((put k v None s).2, lease)
  end.

(** Every sweep comes before the last turn's lease runs out. *)
Fixpoint on_time (exp : Z) (evs : list HbEvent) : Prop :=
  match evs with
  | [] => True
  | HbTurn now :: evs' => on_time (i64_add now ttl) evs'
  | HbSweep now :: evs' => now < exp /\ on_time exp evs'
  | HbWrite k v :: evs' => k <> node_key node_id /\ on_time exp evs'
  end.

Definition ready_store (s : S) : Prop := inv s /\ healthy s.

(** The node's key is there, under the lease the thread holds, until [exp]. *)
Definition beating (a : AStore) (lease : option Z) (exp : Z) : Prop :=
  exists l kv, lease = Some l /\ a_kv a !! node_key node_id = Some kv /\ kv_value kv = meta /\ kv_lease kv = Some l /\
    a_leases a !! l = Some (mkLease ttl exp).

(** The lease the thread holds, if it exists, is one it was granted. *)
Definition own_lease (a : AStore) (lease : option Z) : Prop :=
  forall l x, lease = Some l -> a_leases a !! l = Some x -> l_ttl x = ttl.

Lemma beating_write a lease exp k v : k <> node_key node_id -> beating a lease exp -> beating (a_write k v None a) lease exp.
Proof.
  intros Hk (l & kv & H1 & H2 & H3 & H4 & H5). exists l, kv. rewrite a_write_kv, decide_False by done. done.
Qed.

Lemma beating_sweep a lease exp now ks a' :
  now < exp -> reap_post a (SelExpired now) (Ok ks) a' -> beating a lease exp -> beating a' lease exp.
Proof.
  intros Hlt (_ & Hks & ->) (l & kv & H1 & H2 & H3 & H4 & H5). exists l, kv. simpl.
  assert (sel_lease (SelExpired now) l (mkLease ttl exp) = false) as Hsel by (simpl; apply Z.leb_gt; lia).
  rewrite a_remove_all_kv, bool_decide_eq_false_2.
  - do 4 (split; [done|]). unfold leases_after. by apply map_lookup_filter_Some.
  - intros Hin. apply list_elem_of_In, Hks in Hin as (kv' & l' & x' & G1 & G2 & G3 & G4).
    assert (kv' = kv) as -> by congruence. assert (l' = l) as -> by congruence. congruence.
Qed.

Lemma beating_put a l exp : a_leases a !! l = Some (mkLease ttl exp) -> beating (a_write (node_key node_id) meta (Some l) a) (Some l) exp.
Proof. intros Hl. eexists l, _. rewrite a_write_kv, decide_True by done. done. Qed.

(** Registration on a store that answers. *)
Lemma wp_register_node now s (Q : result (option Z) StoreError -> S -> Prop) :
  ready_store s ->
  (forall l s', ready_store s' -> beating (abs s') (Some l) (i64_add now ttl) -> Q (Ok (Some l)) s') ->
  wp (ok_option (register_node now node_id meta ttl)) s Q.
Proof.
  intros [Hi Hh] HQ. unfold ok_option. apply wp_bind, wp_try. unfold register_node. apply wp_bind.
  eapply wp_meets_healthy; [apply grant_meets|done|done| |intros i s' _ _ []].
  intros l s1 Hi1 Hh1 (_ & _ & Ha1). apply wp_bind. assert (a_leases (abs s1) !! l = Some (mkLease ttl (i64_add now ttl))) as Hl.
  { rewrite Ha1. apply lookup_insert_eq. }
  apply wp_leased_put; [done|done|by rewrite Hl|]. intros rev s2 Hi2 Hh2 Ha2. apply wp_ret. cbn beta iota. apply wp_ret, HQ; [by split|].
  rewrite Ha2. by apply beating_put.
Qed.

(** A turn renews the lease, or replaces one that is gone. *)
Lemma wp_heartbeat_turn now lease s :
  ready_store s -> own_lease (abs s) lease ->
  wp (heartbeat_turn now node_id meta ttl lease) s (fun r s' =>
    exists l, r = Ok (Some l) /\ ready_store s' /\ beating (abs s') (Some l) (i64_add now ttl)).
Proof.
  intros [Hi Hh] Hown. unfold heartbeat_turn. apply wp_bind. destruct lease as [l|].
  2:{ apply wp_ret. cbn beta iota. apply wp_register_node; [by split|]. eauto. }
  apply wp_bind, wp_try. unfold heartbeat. eapply wp_meets_healthy; [apply keepalive_meets|done|done| |].
  - intros exp s1 Hi1 Hh1 (x & Hx & -> & Ha1). apply wp_ret. cbn beta iota. apply wp_bind, wp_try.
    assert (a_leases (abs s1) !! l = Some (mkLease ttl (i64_add now ttl))) as Hl.
    { rewrite Ha1, (Hown l x eq_refl Hx). apply lookup_insert_eq. }
    apply wp_leased_put; [done|done|by rewrite Hl|]. intros rev s2 Hi2 Hh2 Ha2. apply wp_ret. exists l. split; [done|].
    split; [by split|]. rewrite Ha2. by apply beating_put.
  - intros i s1 Hi1 Hh1 _. apply wp_ret. cbn beta iota. apply wp_register_node; [by split|]. eauto.
Qed.

Lemma beating_own a lease exp : beating a lease exp -> own_lease a lease.
Proof. intros (l & kv & -> & _ & _ & _ & Hl) l' x [= <-] Hx. rewrite Hl in Hx. by injection Hx as <-. Qed.

Lemma hb_step_turn now st :
  ready_store st.1 -> own_lease (abs st.1) st.2 ->
  ready_store (hb_step st (HbTurn now)).1 /\ beating (abs (hb_step st (HbTurn now)).1) (hb_step st (HbTurn now)).2 (i64_add now ttl).
Proof.
  destruct st as [s lease]. intros Hr Ho. pose proof (wp_heartbeat_turn now lease s Hr Ho) as G. unfold wp in G. cbn [hb_step].
  destruct (heartbeat_turn now node_id meta ttl lease s) as [r s']. cbn [fst snd] in G. destruct G as (l & -> & Hr' & Hb). done.
Qed.

Lemma hb_run exp evs st :
  ready_store st.1 -> beating (abs st.1) st.2 exp -> on_time exp evs ->
  exists exp', beating (abs (fold_left hb_step evs st).1) (fold_left hb_step evs st).2 exp'.
Proof.
  revert exp st; induction evs as [|[now|now|k v] evs IH]; intros exp st Hr Hb Ht; cbn [fold_left]; [by exists exp| | |].
  - destruct (hb_step_turn now st Hr (beating_own _ _ _ Hb)) as [Hr' Hb']. by eapply IH.
  - destruct Ht as [Hlt Ht]. destruct st as [s lease]. destruct Hr as [Hi Hh]. pose proof (sweep_meets now s Hi) as G. cbn [hb_step].
    destruct (lease_sweep now s) as [r s']. destruct G as (Hi' & G & Hq). destruct (Hq Hh) as [Hh' Hn].
    destruct r as [ks|[e|i]]; [|exfalso; apply Hn; by eexists|by destruct G].
    eapply (IH exp); [by split|by eapply beating_sweep|done].
  - destruct Ht as [Hk Ht]. destruct st as [s lease]. destruct Hr as [Hi Hh]. pose proof (put_meets k v None s Hi) as G. cbn [hb_step].
    destruct (put k v None s) as [r s']. destruct G as (Hi' & G & Hq). destruct (Hq Hh) as [Hh' Hn].
    destruct r as [rev|[e|i]]; [|exfalso; apply Hn; by eexists|by destruct G]. destruct G as (_ & Ha & _).
    eapply (IH exp); [by split|cbn; rewrite Ha; by apply beating_write|done].
Qed.
End Heartbeats.

(** C37: a node whose heartbeat is on time stays registered.  From any store that answers and
    whatever became of the lease before, after a turn of the heartbeat thread and any
    sequence of turns, sweeps and writes of others in which each sweep comes within the
    lease time of the last turn, the node's liveness key is there with its capacity,
    under the lease the thread holds; so its sandboxes are not orphans. *)
Theorem heartbeat_keeps_node {S : Type} `{StoreLaws S} (node_id meta : string) (ttl now : Z) (evs : list HbEvent) (s : S) (lease : option Z) :
  inv s -> healthy s -> own_lease ttl (abs s) lease -> on_time node_id ttl (i64_add now ttl) evs ->
  let st := fold_left (hb_step node_id meta ttl) (HbTurn now :: evs) (s, lease) in
  exists l kv, st.2 = Some l /\ a_kv (abs st.1) !! node_key node_id = Some kv /\ kv_value kv = meta /\ kv_lease kv = Some l.
Proof.
  intros Hi Hh Ho Ht. cbn [fold_left]. destruct (hb_step_turn node_id meta ttl now (s, lease) (conj Hi Hh) Ho) as [Hr Hb].
  destruct (hb_run node_id meta ttl _ evs _ Hr Hb Ht) as (exp & l & kv & H1 & H2 & H3 & H4 & _). by exists l, kv.
Qed.

Lemma heartbeat_keeps_node_witness :
  let st := fold_left (hb_step "n1" "{}" 15) [HbTurn 1000; HbSweep 1014; HbTurn 1014; HbWrite "sandbox/a/state" "running"; HbSweep 1020]
              (store_after [], Some 7) in
  exists l kv, st.2 = Some l /\ a_kv (abs st.1) !! node_key "n1" = Some kv /\ kv_value kv = "{}"%string /\ kv_lease kv = Some l.
Proof.
  apply (heartbeat_keeps_node "n1" "{}" 15 1000 [HbSweep 1014; HbTurn 1014; HbWrite "sandbox/a/state" "running"; HbSweep 1020] (store_after []) (Some 7)).
  - apply store_after_inv.
  - apply store_after_inv.
  - intros l x _ Hx. vm_compute in Hx. discriminate Hx.
  - repeat split; try (vm_compute; reflexivity). discriminate.
Defined.
