(* ===== verification/DaemonSafety.v ===== *)
(** * Listeners and their sandboxes

    The runs of the daemon at the grain of its locks: whole requests, single sections
    under the lock of the orchestrator, and the exposures, destructions and reaper turns
    of several threads with the steps of each between those of the others.  A listener is
    for a live sandbox, or for one whose destruction has yet to stop it, or for one that
    was ended between the two locks of an exposure. *)

From Stdlib Require Import ZArith Lia Bool List String Ascii.
From stdpp Require Import base tactics list gmap strings relations.
From S2P Require Import Prelude RustStr Utf8 Json Store Sqlite SqliteSpec StoreTheorems Cluster Election Auth Quota Sched Retention AuditLog Proto Snapcrypt Backend Orch OrchSafety OrchReaper OrchTenancy Gateway Text Base64 Http Metrics Routes Api ApiSafety Daemon.

Open Scope Z_scope.

(** ** Methods of the store that leave it answering *)

Section Sane.
Context {S : Type} `{StoreLaws S}.

Definition sane {E A} (m : M S E A) : Prop := forall s, ready_store s -> ready_store (m s).2.

Lemma sane_meets {A} (m : M S StoreError A) post : meets inv healthy abs m post -> sane m.
Proof. intros Hm s [Hi Hh]. specialize (Hm s Hi). destruct (m s) as [r s']. destruct Hm as (Hi' & _ & Hb). split; [done|by apply Hb]. Qed.

Lemma sane_ret {E A} (x : A) : sane (mret x : M S E A).
Proof. by intros s Hs. Qed.
Lemma sane_fail {E A} (e : E) : sane (mfail e : M S E A).
Proof. by intros s Hs. Qed.
Lemma sane_bind {E A A'} (m : M S E A) (f : A -> M S E A') : sane m -> (forall x, sane (f x)) -> sane (mbind m f).
Proof. intros Hm Hf s Hs. unfold mbind. specialize (Hm s Hs). destruct (m s) as [[x|e] s1]; [by apply Hf|done]. Qed.
Lemma sane_try {E A} (m : M S E A) : sane m -> sane (mtry m).
Proof. intros Hm s Hs. unfold mtry. specialize (Hm s Hs). by destruct (m s). Qed.
Lemma sane_text {A} (m : M S StoreError A) : sane m -> sane (text m).
Proof. intros Hm s Hs. unfold text. specialize (Hm s Hs). by destruct (m s). Qed.
Lemma sane_mfold {E A A'} (body : A' -> A -> M S E A') xs b : (forall b x, sane (body b x)) -> sane (mfold body xs b).
Proof. intros Hb. revert b; induction xs as [|x xs IH]; intros b; [apply sane_ret|]. apply sane_bind; [apply Hb|intros; apply IH]. Qed.
Lemma sane_mfor {E A} xs (body : A -> M S E unit) : (forall x, sane (body x)) -> sane (mfor xs body).
Proof. intros Hb. induction xs as [|x xs IH]; [apply sane_ret|]. apply sane_bind; [apply Hb|intros; apply IH]. Qed.
Lemma sane_reified {E' A} (m : M S StoreError A) : sane m -> sane (fun s => let '(r, s') := m s in (@Ok _ E' r, s')).
Proof. intros Hm s Hs. specialize (Hm s Hs). by destruct (m s). Qed.

Lemma sane_get k : sane (get k). Proof. eapply sane_meets, get_meets. Qed.
Lemma sane_list p : sane (list_prefix p). Proof. eapply sane_meets, list_meets. Qed.
Lemma sane_put k v l : sane (put k v l). Proof. eapply sane_meets, put_meets. Qed.
Lemma sane_delete k : sane (delete_key k). Proof. eapply sane_meets, delete_meets. Qed.
Lemma sane_cas k e v l : sane (compare_and_swap k e v l). Proof. eapply sane_meets, cas_meets. Qed.
Lemma sane_grant now ttl : sane (lease_grant now ttl). Proof. eapply sane_meets, grant_meets. Qed.
Lemma sane_keepalive now l : sane (lease_keepalive now l). Proof. eapply sane_meets, keepalive_meets. Qed.
Lemma sane_revoke l : sane (lease_revoke l). Proof. eapply sane_meets, revoke_meets. Qed.
Lemma sane_sweep now : sane (lease_sweep now). Proof. eapply sane_meets, sweep_meets. Qed.
End Sane.

Create HintDb sane.
#[export] Hint Resolve sane_ret sane_fail sane_get sane_list sane_put sane_delete sane_cas sane_grant sane_keepalive sane_revoke
  sane_sweep : sane.

Ltac sane :=
  repeat first
    [ solve [auto with sane nocore]
    | match goal with
      | |- sane (mbind _ _) => apply sane_bind; [|intros ?]
      | |- sane (mtry _) => apply sane_try
      | |- sane (text _) => apply sane_text
      | |- sane (mfold _ _ _) => apply sane_mfold; intros ? ?
      | |- sane (mfor _ _) => apply sane_mfor; intros ?
      | |- sane (let '(_, _) := ?x in _) => destruct x
      | |- sane (match ?x with _ => _ end) => destruct x
      end ].

Section SaneOps.
Context {S : Type} `{StoreLaws S} `{SerdeJson}.

Lemma sane_lookup_key sha token : sane (lookup_key sha token).
Proof. unfold lookup_key. sane. Qed.
Lemma sane_check p v m st : sane (check p v m st).
Proof. unfold check, get_limits, usage. sane. Qed.
Lemma sane_survey : sane survey.
Proof. unfold survey. sane. Qed.
Lemma sane_audit_list : sane audit_list.
Proof. unfold audit_list. sane. Qed.
Lemma sane_gc iter now : sane (gc_expired iter now).
Proof. unfold gc_expired, gc_one. sane. Qed.
Lemma sane_reclaim p : sane (reclaim_orphans p).
Proof. unfold reclaim_orphans, live_nodes, reclaim_one. sane. Qed.
Lemma sane_set_pin sid pin l : sane (set_pin sid pin l).
Proof. unfold set_pin. sane. Qed.
Lemma sane_set_retention sid d l : sane (set_retention sid d l).
Proof. unfold set_retention. sane. Qed.
Lemma sane_set_size sid d l : sane (set_size sid d l).
Proof. unfold set_size. sane. Qed.
Lemma sane_consume nonce exp now : sane (consume_shared nonce exp now).
Proof. unfold consume_shared. sane. Qed.
End SaneOps.
#[export] Hint Resolve sane_lookup_key sane_check sane_survey sane_audit_list sane_gc sane_reclaim sane_set_pin sane_set_retention
  sane_set_size sane_consume : sane.

(** ** Methods of the orchestrator that end no sandbox *)

Section Grows.
Context {S B : Type} `{StoreLaws S} `{SandboxBackend B} `{SerdeJson} (n : nat).

Notation O := (Orch S B).
Notation OM := (M O string).

(** The store answers, and every sandbox is routed to one of the [n] backends. *)
Definition good (o : O) : Prop :=
  o_ready o /\ length (o_backends o) = n /\ forall id m, o_live o !! id = Some m -> (lm_backend m < n)%nat.

Definition mono (o o' : O) : Prop := forall id, is_Some (o_live o !! id) -> is_Some (o_live o' !! id).

Definition grows {A} (m : OM A) : Prop := forall o, good o -> good (m o).2 /\ mono o (m o).2.

Lemma grows_same {A} (m : OM A) : (forall o, (m o).2 = o) -> grows m.
Proof. intros Hm o Ho. rewrite Hm. split; [done|by intros id]. Qed.
Lemma grows_ret {A} (x : A) : grows (mret x : OM A).
Proof. by apply grows_same. Qed.
Lemma grows_fail {A} e : grows (mfail e : OM A).
Proof. by apply grows_same. Qed.
Lemma grows_ask {A} (f : O -> A) : grows (ask f).
Proof. by apply grows_same. Qed.
Lemma grows_bind {A A'} (m : OM A) (f : A -> OM A') : grows m -> (forall x, grows (f x)) -> grows (mbind m f).
Proof.
  intros Hm Hf o Ho. unfold mbind. destruct (Hm o Ho) as [Hg Hmo]. destruct (m o) as [[x|e] o1]; [|done].
  destruct (Hf x o1 Hg) as [Hg' Hmo']. split; [done|]. intros id Hid. by apply Hmo', Hmo.
Qed.
Lemma grows_try {A} (m : OM A) : grows m -> grows (mtry m).
Proof. intros Hm o Ho. unfold mtry. specialize (Hm o Ho). by destruct (m o). Qed.
Lemma grows_ignore {A} (m : OM A) : grows m -> grows (ignore m).
Proof. intros Hm. apply grows_bind; [by apply grows_try|intros; apply grows_ret]. Qed.

Lemma grows_store {A} (m : M S string A) : sane m -> grows (on_store m).
Proof.
  intros Hm o (Hr & Hn & Hl). unfold on_store. specialize (Hm _ Hr). destruct (m (o_store o)) as [r s].
  split; [by split|by intros id].
Qed.

Lemma grows_backend {A} idx (m : M B string A) : grows (on_backend idx m).
Proof.
  intros o (Hr & Hn & Hl). unfold on_backend. destruct (o_backends o !! idx) as [b|]; [|by apply (grows_same (panic_index : OM A))].
  destruct (m b) as [r b']. split; [|by intros id]. split; [done|]. split; [|done]. simpl. by rewrite length_insert.
Qed.

(** After a call of a backend its index is known to exist. *)
Lemma grows_bind_backend {A A'} idx (m : M B string A) (f : A -> OM A') :
  ((idx < n)%nat -> forall x, grows (f x)) -> grows (let? x := on_backend idx m in f x).
Proof.
  intros Hf o Ho. destruct (decide (idx < n)%nat) as [Hlt|Hge].
  - apply grows_bind; [apply grows_backend|by apply Hf|done].
  - unfold mbind, on_backend. rewrite lookup_ge_None_2; [by apply (grows_same (panic_index : OM A))|]. destruct Ho as (_ & -> & _). lia.
Qed.

Lemma grows_backend_of id : grows (backend_of id).
Proof. apply grows_same. intros o. unfold backend_of. by destruct (o_live o !! id). Qed.
Lemma grows_require_cap idx cap : grows (require_cap idx cap).
Proof. apply grows_same. intros o. unfold require_cap. destruct (o_backends o !! idx); [|done]. by destruct (caps_contains _ _). Qed.
Lemma grows_select spec : grows (select_backend spec).
Proof.
  apply grows_same. intros o. unfold select_backend. destruct (match sp_backend spec with Some _ => _ | None => _ end) as [idx|e]; [|done].
  destruct (negb _); [|done]. destruct (o_backends o !! idx); [|done]. by destruct (missing_from _ _).
Qed.
Lemma grows_of_result {A} (r : result A string) : grows (of_result r : OM A).
Proof. destruct r; [apply grows_ret|apply grows_fail]. Qed.
End Grows.

Create HintDb grows.
#[export] Hint Resolve grows_ret grows_fail grows_ask grows_backend grows_backend_of grows_require_cap grows_select grows_of_result : grows.

Ltac grows :=
  repeat first
    [ solve [auto with grows nocore]
    | match goal with
      | |- grows _ (on_store _) => apply grows_store; sane
      | |- grows _ (mbind _ _) => apply grows_bind; [|intros ?]
      | |- grows _ (mtry _) => apply grows_try
      | |- grows _ (ignore _) => apply grows_ignore
      | |- grows _ (upd_backend _ _) => apply grows_backend
      | |- grows _ (let '(_, _) := ?x in _) => destruct x
      | |- grows _ (match ?x with _ => _ end) => destruct x
      end ].

Section GrowsOps.
Context {S B : Type} `{StoreLaws S} `{SandboxBackend B} `{SerdeJson} (n : nat).

Notation O := (Orch S B).
Notation OM := (M O string).

Lemma grows_sandbox_project id : grows n (sandbox_project id : OM _).
Proof. unfold sandbox_project. grows. Qed.
Hint Resolve grows_sandbox_project : grows.
Lemma grows_snap_key fresh nonce id : grows n (snap_key_for fresh nonce id : OM _).
Proof. unfold snap_key_for. grows. Qed.
Hint Resolve grows_snap_key : grows.
Lemma grows_arm fresh nonce idx id : grows n (arm_snapshot_key fresh nonce idx id : OM _).
Proof. unfold arm_snapshot_key. grows. Qed.
Hint Resolve grows_arm : grows.
Lemma grows_pause now fresh nonce id : grows n (Orch.pause now fresh nonce id : OM _).
Proof. unfold Orch.pause, sandbox_mem_mib. grows. Qed.
Lemma grows_resume fresh nonce id : grows n (Orch.resume fresh nonce id : OM _).
Proof. unfold Orch.resume. grows. Qed.
Lemma grows_keepalive now id : grows n (keepalive now id : OM _).
Proof. unfold keepalive. grows. Qed.
Lemma grows_tag id p : grows n (tag_project id p : OM _).
Proof. unfold tag_project. grows. Qed.

Lemma grows_or_rollback {A} (m : M S StoreError A) idx lease id what : sane m -> grows n (or_rollback m idx lease id what : OM _).
Proof. intros Hm. unfold or_rollback, rollback. apply grows_bind; [apply grows_store; by apply sane_reified|]. intros r. grows. Qed.

Lemma grows_register host now bc idx spec template ff : (idx < n)%nat -> grows n (register host now bc idx spec template ff : OM _).
Proof.
  intros Hidx. unfold register. apply grows_bind; [apply grows_store; apply sane_reified; auto with sane|]. intros [lease|e]; [|grows].
  apply grows_bind; [apply grows_or_rollback; auto with sane|intros _].
  apply grows_bind; [apply grows_or_rollback; auto with sane|intros _].
  apply grows_bind; [auto with grows|intros node].
  apply grows_bind; [destruct node; [apply grows_or_rollback; auto with sane|grows]|intros _].
  apply grows_bind; [grows|intros _]. intros o (Hr & Hn & Hl). unfold mbind, ask. simpl. split; [split; [done|split; [done|]]|].
  - intros id m Hm. simpl in Hm. apply lookup_insert_Some in Hm as [[_ <-]|[_ Hm]]; [done|by eapply Hl].
  - intros id Hid. simpl. destruct (decide (id = bc_id bc)) as [->|Hne]; [by rewrite lookup_insert_eq|by rewrite lookup_insert_ne].
Qed.

Lemma grows_create host now template spec : grows n (create_in host now template spec : OM _).
Proof.
  unfold create_in. destruct (negb _); [grows|]. destruct (abspath host template) as [t|e]; [|grows].
  apply grows_bind; [grows|intros idx]. apply grows_bind_backend. intros Hlt bc. by apply grows_register.
Qed.

Lemma grows_fork host now fresh nonce id spec : grows n (Orch.fork host now fresh nonce id spec : OM _).
Proof.
  unfold Orch.fork. apply grows_bind; [grows|intros idx]. do 2 (apply grows_bind; [grows|intros _]).
  apply grows_bind_backend. intros Hlt bc. apply grows_bind; [grows|intros tpl]. by apply grows_register.
Qed.

Lemma grows_list_meta p : grows n (list_meta_for p : OM _).
Proof. unfold list_meta_for. grows. Qed.
Lemma grows_get_meta id : grows n (get_meta id : OM _).
Proof. unfold get_meta. grows. Qed.
Lemma grows_store_get k : grows n (store_get k : OM _).
Proof. unfold store_get. grows. Qed.
Lemma grows_store_list p : grows n (store_list p : OM _).
Proof. unfold store_list. grows. Qed.
Lemma grows_list_audit p : grows n (list_audit p : OM _).
Proof. unfold list_audit. grows. Qed.
Lemma grows_survey : grows n (survey_nodes : OM _).
Proof. unfold survey_nodes. grows. Qed.
Lemma grows_reclaim : grows n (orch_reclaim_orphans : OM _).
Proof. unfold orch_reclaim_orphans. grows. Qed.
Lemma grows_gc iter now : grows n (gc_retention iter now : OM _).
Proof. unfold gc_retention. grows. Qed.
Lemma grows_check_quota p v m : grows n (check_quota p v m : OM _).
Proof. unfold check_quota. grows. Qed.

(** Destruction removes the sandbox alone. *)
Lemma destroy_good id (o : O) :
  good n o ->
  good n (destroy id o).2 /\ (forall id', id' <> id -> is_Some (o_live o !! id') -> is_Some (o_live (destroy id o).2 !! id')) /\
  (is_ok (destroy id o).1 = false -> mono o (destroy id o).2) /\ (is_Some (o_live o !! id) -> is_ok (destroy id o).1 = true).
Proof.
  intros (Hr & Hn & Hl). unfold destroy, mbind, take_live. destruct (o_live o !! id) as [m|] eqn:Em.
  - destruct (lookup_lt_is_Some_2 (o_backends o) (lm_backend m)) as [b Eb]; [rewrite Hn; by eapply Hl|].
    unfold upd_backend, on_backend. cbn [o_backends set_live]. rewrite Eb. unfold on_store, text. cbn [o_store set_backends set_live].
    destruct Hr as [Hi Hh]. pose proof (revoke_meets (lm_lease m) (o_store o) Hi) as G.
    destruct (lease_revoke (lm_lease m) (o_store o)) as [r s]. destruct G as (Hi' & G & Hb). destruct (Hb Hh) as [Hh' Hnb].
    destruct r as [ks|[e|i]]; [|exfalso; apply Hnb; by eexists|by destruct G]. cbn [fst snd err_text is_ok].
    split; [|split; [|done]].
    + split; [by split|]. split; [simpl; by rewrite length_insert|]. intros id' m' Hm'. simpl in Hm'.
      apply lookup_delete_Some in Hm' as [_ Hm']. by eapply Hl.
    + intros id' Hne Hs. simpl. by rewrite lookup_delete_ne.
  - unfold mfail. cbn [fst snd is_ok]. rewrite (delete_id _ _ Em). destruct o. split; [done|]. split; [by intros id'|]. split; [intros _; by intros id'|].
    simpl in *. by intros [].
Qed.
End GrowsOps.
#[export] Hint Resolve grows_sandbox_project grows_snap_key grows_arm grows_pause grows_resume grows_keepalive grows_tag
  grows_create grows_fork grows_list_meta grows_get_meta grows_store_get grows_store_list grows_list_audit grows_survey
  grows_reclaim grows_gc grows_check_quota : grows.

(** ** Methods of the API that leave no listener behind *)

Section Safe.
Context {S B : Type} `{StoreLaws S} `{SandboxBackend B} `{ApiJson} (n : nat) (X : string -> Prop).

Notation A := (Api S B).

(** A port is exposed only for a live sandbox, or for one of the exceptions [X]. *)
Definition hosted (a : A) : Prop :=
  forall id ports, ap_exposes a !! id = Some ports -> ports <> ∅ -> is_Some (o_live (ap_orch a) !! id) \/ X id.

Definition sound (a : A) : Prop := good n (ap_orch a) /\ hosted a.

Lemma sound_store s seq mx k (a : A) :
  ready_store s -> sound a -> sound (mkApi (set_store s (ap_orch a)) seq (ap_exposes a) mx k).
Proof. intros Hs [(Hr & Hn & Hl) Hh]. split; [|exact Hh]. split; [exact Hs|done]. Qed.

Definition safe {E T} (m : M A E T) : Prop := forall a, sound a -> sound (m a).2.

Lemma safe_same {E T} (m : M A E T) : (forall a, (m a).2 = a) -> safe m.
Proof. intros Hm a Ha. by rewrite Hm. Qed.
Lemma safe_ret {E T} (x : T) : safe (mret x : M A E T).
Proof. by apply safe_same. Qed.
Lemma safe_fail {E T} (e : E) : safe (mfail e : M A E T).
Proof. by apply safe_same. Qed.
Lemma safe_read {E T} (f : A -> result T E) : safe (fun a => (f a, a)).
Proof. by apply safe_same. Qed.
Lemma safe_bind {E T U} (m : M A E T) (f : T -> M A E U) : safe m -> (forall x, safe (f x)) -> safe (mbind m f).
Proof. intros Hm Hf a Ha. unfold mbind. specialize (Hm a Ha). destruct (m a) as [[x|e] a1]; [by apply Hf|done]. Qed.
Lemma safe_try {E T} (m : M A E T) : safe m -> safe (mtry m).
Proof. intros Hm a Ha. unfold mtry. specialize (Hm a Ha). by destruct (m a). Qed.
Lemma safe_or_fail {T} (o : option T) e : safe (or_fail o e : M A string T).
Proof. destruct o; [apply safe_ret|apply safe_fail]. Qed.
Lemma safe_lift {T} (r : result T string) : safe (lift r : M A string T).
Proof. destruct r; [apply safe_ret|apply safe_fail]. Qed.
Lemma safe_ask {T} (f : Orch.Orch S B -> T) : safe (ask_orch f : M A string T).
Proof. by apply safe_same. Qed.
Lemma safe_metric f : safe (metric f : M A string unit).
Proof. by intros a Ha. Qed.
Lemma safe_sink e : safe (sink_emit e : M A string unit).
Proof. by intros a Ha. Qed.

Lemma safe_orch {T} (m : M (Orch.Orch S B) string T) : grows n m -> safe (on_orch m).
Proof.
  intros Hm a [Hg Hh]. unfold on_orch. destruct (Hm _ Hg) as [Hg' Hmo]. destruct (m (ap_orch a)) as [r o].
  split; [done|]. intros id ports Hp Hne. destruct (Hh id ports Hp Hne) as [Hs|Hx]; [left; by apply Hmo|by right].
Qed.

Lemma safe_reified {E' T} (m : M A string T) : safe m -> safe (fun a => let '(r, a') := m a in (@Ok _ E' r, a')).
Proof. intros Hm a Ha. specialize (Hm a Ha). by destruct (m a). Qed.

Lemma safe_answer {T} (m : M A string T) ok err : safe m -> safe (answer m ok err).
Proof. intros Hm. unfold answer. apply safe_bind; [by apply safe_try|intros; apply safe_ret]. Qed.

Lemma safe_responded (m : M A string Response3) : safe m -> safe (responded m).
Proof. intros Hm. unfold responded. apply safe_bind; [done|intros; apply safe_ret]. Qed.

(** Fewer listeners. *)
Lemma safe_drop id : safe (drop_exposes id : M A string unit).
Proof. intros a [Hg Hh]. split; [done|]. intros id' ports Hp. simpl in Hp. apply lookup_delete_Some in Hp as [_ Hp]. by apply Hh. Qed.

Lemma safe_unexpose id gp : safe (unexpose id gp : M A string Response3).
Proof.
  intros a [Hg Hh]. unfold unexpose. destruct (exposed id a !! gp) as [h|] eqn:E; [|done]. split; [done|].
  intros id' ports Hp Hne. simpl in *. apply lookup_insert_Some in Hp as [[<- <-]|[_ Hp]]; [|by eapply Hh].
  unfold exposed in *. destruct (ap_exposes a !! id) as [ports|] eqn:Ep; [|done]. apply (Hh id ports Ep). intros ->. done.
Qed.

Lemma expose_begin_run cfg env id body there gp h (a a' : Api S B) :
  expose_begin cfg env id body a = (Ok (there, gp, h), a') -> a' = a /\ (there = false -> is_Some (o_live (ap_orch a) !! id)).
Proof.
  intros E. unfold expose_begin, body_json in E. apply run_bind in E as (v & b1 & E1 & E). unfold or_fail in E1. destruct (from_slice _); [|done].
  injection E1 as <- <-. apply run_bind in E as (port & b2 & E2 & E). unfold or_fail in E2. destruct (_ ≫= _); [|done].
  injection E2 as <- <-. apply run_bind in E as (at_port & b3 & E3 & E). injection E3 as <- <-.
  destruct (exposed id a !! _); [by injection E as <- _ _ <-|]. destruct (_ && _); [done|].
  apply run_bind in E as (tgt & b4 & E4 & E). injection E4 as <- <-. apply run_bind in E as (t & b5 & E5 & E).
  unfold or_fail in E5. destruct (exec_target id (ap_orch a)) eqn:Et; [|done]. injection E5 as <- <-.
  assert (is_Some (o_live (ap_orch a) !! id)) as Hl by (unfold exec_target, routed in Et; by destruct (o_live (ap_orch a) !! id)).
  destruct e; [|done]. apply run_bind in E as (act & b6 & E6 & E). unfold lift in E6. destruct (en_listen _ _ _); [|done].
  injection E6 as <- <-. by injection E as <- _ _ <-.
Qed.

(** A new listener is for a sandbox that is live. *)
Lemma safe_expose cfg env id body : safe (expose_port cfg env id body : M A string string).
Proof.
  intros a Ha. unfold expose_port, mbind.
  destruct (expose_begin cfg env id body a) as [[[[there gp] h]|e] a1] eqn:E.
  - assert (a1 = a /\ (there = false -> is_Some (o_live (ap_orch a) !! id))) as [-> Hlive] by (by eapply expose_begin_run).
    unfold expose_end, mbind. destruct there; [done|]. destruct Ha as [Hg Hh]. split; [done|].
    intros id' ports Hp Hne. simpl in *. apply lookup_insert_Some in Hp as [[<- _]|[_ Hp]]; [left; by apply Hlive|by eapply Hh].
  - assert (a1 = a) as ->; [|done]. revert E. unfold expose_begin, body_json, or_fail, lift, mbind, mret, mfail, ask_orch.
    repeat (case_match; try (by intros [= _ <-]); simplify_eq/=).
    all: try (by intros [= _ <-]).
Qed.

(** Destruction takes its listeners with it. *)
Lemma safe_destroy id project :
  safe (let? r := mtry (on_orch (destroy id)) in destroyed id project r : M A string Response3).
Proof.
  intros a [Hg Hh]. unfold mbind, mtry, on_orch. destruct (destroy_good n id (ap_orch a) Hg) as (Hg' & Hoth & Herr & _).
  destruct (destroy id (ap_orch a)) as [[ks|e] o] eqn:E; cbn [fst snd] in *.
  - unfold destroyed, mbind, drop_exposes, set_exposes, metric, sink_emit, mret. simpl. split; [done|].
    intros id' ports Hp Hne. simpl in *. apply lookup_delete_Some in Hp as [Hd Hp]. destruct (Hh id' ports Hp Hne) as [Hs|Hx]; [left; by apply Hoth|by right].
  - split; [done|]. intros id' ports Hp Hne. destruct (Hh id' ports Hp Hne) as [Hs|Hx]; [left; by apply (Herr eq_refl)|by right].
Qed.
End Safe.

Create HintDb safe.
#[export] Hint Resolve safe_ret safe_fail safe_read safe_or_fail safe_lift safe_ask safe_metric safe_sink safe_drop safe_unexpose
  safe_expose safe_destroy : safe.

Ltac safe :=
  repeat first
    [ solve [auto with safe nocore]
    | match goal with
      | |- safe _ _ (on_orch _) => apply safe_orch; grows
      | |- safe _ _ (answer _ _ _) => apply safe_answer
      | |- safe _ _ (responded _) => apply safe_responded
      | |- safe _ _ (mtry _) => apply safe_try
      | |- safe _ _ (let? r := mtry (on_orch (destroy _)) in destroyed _ _ r) => apply safe_destroy
      | |- safe _ _ (mbind _ _) => apply safe_bind; [|intros ?]
      | |- safe _ _ (fun a => let '(_, _) := _ a in (Ok _, _)) => apply safe_reified
      | |- safe _ _ (fun a => (_, a)) => apply safe_read
      | |- safe _ _ (let '(_, _) := ?x in _) => destruct x
      | |- safe _ _ (match ?x with _ => _ end) => destruct x
      end ].

Section SafeOps.
Context (Sha256 : string -> string) {S B : Type} `{StoreLaws S} `{SandboxBackend B} `{ApiJson} (n : nat) (X : string -> Prop).
Context (cfg : ApiConfig) (env : ApiEnv) (iter : gmap Z ExposeHandle -> list ExposeHandle).

Notation A := (Api S B).

Lemma safe_authorize op sid key : safe n X (authorize Sha256 cfg op sid key : M A _ _).
Proof. unfold authorize. safe. Qed.

Lemma safe_create body project : safe n X (create_sandbox cfg env body project : M A _ _).
Proof. unfold create_sandbox, body_json, resolve_template, tag. safe. Qed.

Lemma safe_fork id body project : safe n X (fork_sandbox env id body project : M A _ _).
Proof. unfold fork_sandbox, body_json, tag. safe. Qed.

Lemma safe_exec id body : safe n X (exec_in env id body : M A _ _).
Proof. unfold exec_in, body_json, guest_target. safe. Qed.
Lemma safe_put_file id p body : safe n X (put_file env id p body : M A _ _).
Proof. unfold put_file, guest_target. safe. Qed.
Lemma safe_get_file id p : safe n X (get_file env id p : M A _ _).
Proof. unfold get_file, guest_target. safe. Qed.
Lemma safe_read_logs id : safe n X (read_logs env id : M A _ _).
Proof. unfold read_logs. safe. Qed.
Lemma safe_templates : safe n X (list_templates : M A _ _).
Proof. unfold list_templates. safe. Qed.
Lemma safe_mint id body : safe n X (mint_ticket Sha256 cfg env id body : M A _ _).
Proof. unfold mint_ticket, body_json. safe. Qed.
Lemma safe_pause id : safe n X (pause_response env id : M A _ _).
Proof. unfold pause_response. safe. Qed.
Lemma safe_resume id : safe n X (resume_response env id : M A _ _).
Proof. unfold resume_response. safe. Qed.
Lemma safe_keepalive id : safe n X (keepalive_response env id : M A _ _).
Proof. unfold keepalive_response. safe. Qed.
Hint Resolve safe_authorize safe_create safe_fork safe_exec safe_put_file safe_get_file safe_read_logs safe_templates safe_mint
  safe_pause safe_resume safe_keepalive : safe.

Lemma safe_dispatch method path body project : safe n X (dispatch Sha256 cfg env iter method path body project : M A _ _).
Proof. unfold dispatch. safe. Qed.

Lemma safe_stream_local id body : safe n X (exec_stream_hijack env id body : M A _ _).
Proof. by apply safe_same. Qed.
Lemma safe_proxy t p : safe n X (proxy_port env t p : M A _ _).
Proof. by apply safe_same. Qed.
Lemma safe_own_project id : safe n X (own_project id : M A _ _).
Proof. unfold own_project. safe. Qed.
Hint Resolve safe_dispatch safe_stream_local safe_proxy safe_own_project : safe.

Lemma safe_ticket t method path body : safe n X (serve_gw_ticket cfg env iter t method path body : M A _ _).
Proof. unfold serve_gw_ticket, gw_file, gw_fork, gw_destroy. safe. Qed.
Hint Resolve safe_ticket : safe.

Lemma safe_remote_owner id : safe n X (remote_owner cfg id : M A _ _).
Proof. unfold remote_owner. safe. Qed.
Lemma safe_relay sid action port method extra body : safe n X (relay_via_gw Sha256 cfg env sid action port method extra body : M A _ _).
Proof. unfold relay_via_gw. safe. Qed.
Hint Resolve safe_remote_owner safe_relay : safe.

Lemma safe_schedule body project : safe n X (schedule_create Sha256 cfg env body project : M A _ _).
Proof. unfold schedule_create. safe. Qed.

Lemma safe_audit_record actor action target code : safe n X (audit_record env actor action target code : M A _ _).
Proof.
  intros a Ha. pose proof Ha as [(Hr & _) _]. unfold audit_record, record, mbind, next_seq, on_fst. cbn [fst snd].
  pose proof (sane_text _ (sane_put (audit_key (en_now env) (ap_seq a)) (audit_entry (en_now env) actor action target code) None) _ Hr) as Hs.
  destruct (text _ (o_store (ap_orch a))) as [[x|e] s]; by apply sound_store.
Qed.
Hint Resolve safe_schedule safe_audit_record : safe.

Lemma safe_record_audit r project code : safe n X (record_audit cfg env r project code : M A _ _).
Proof. unfold record_audit. safe. Qed.
Hint Resolve safe_record_audit : safe.

Lemma safe_request rq : safe n X (handle_request Sha256 cfg env iter rq : M A _ _).
Proof.
  assert (forall op sid key (k : option string -> M A string string), (forall p, safe n X (k p)) -> safe n X (authorized Sha256 cfg op sid key k)) as Hau.
  { intros op sid key k Hk a Ha. unfold authorized. pose proof (safe_authorize op sid key a Ha) as Hs.
    destruct (authorize Sha256 cfg op sid key a) as [[p|[code b]] a']; [by apply Hk|done]. }
  assert (forall route project, safe n X (serve_authorized Sha256 cfg env iter rq route project : M A _ _)) as Hsa.
  { intros route project. unfold serve_authorized, serve_forwarded, serve_local. safe. }
  unfold handle_request. destruct (parse_exec_stream _ _); [apply Hau; intros p; unfold serve_stream; safe|].
  cbv zeta. destruct (required_op _); [by apply Hau|apply Hsa].
Qed.

Lemma safe_gw_verify used q : safe n X (gw_verify Sha256 cfg env used q : M A _ _).
Proof.
  intros a Ha. pose proof Ha as [(Hr & _) _]. unfold gw_verify. destruct used as [u|].
  - by destruct (verify _ _ _ _ (Local u)) as [r [u'|s]].
  - destruct (verify_cases Sha256 (ac_gateway cfg) q (en_now env) (Shared (o_store (ap_orch a)))) as [[e ->]|(tk & exp & nonce & _ & _ & _ & ->)].
    + by apply sound_store.
    + unfold mbind, consume. pose proof (sane_consume nonce exp (en_now env) _ Hr) as Hs.
      destruct (consume_shared nonce exp (en_now env) (o_store (ap_orch a))) as [[[]|e] s]; by apply sound_store.
Qed.

Lemma safe_gw_conn used rs : safe n X (handle_gw_conn Sha256 cfg env iter used rs : M A _ _).
Proof. unfold handle_gw_conn. pose proof safe_gw_verify. safe. Qed.
End SafeOps.

(** ** The reaper *)

Section Reaping.
Context {S B : Type} `{StoreLaws S} `{SandboxBackend B} `{ApiJson} (n : nat) (X : string -> Prop).

Notation O := (Orch S B).

(** What was live is live or in the list. *)
Definition accounted (o o' : O) (ids : list string) : Prop :=
  forall id, is_Some (o_live o !! id) -> is_Some (o_live o' !! id) \/ In id ids.

Lemma reap_ttl_run ids acc (o : O) :
  good n o -> NoDup ids -> (forall id, In id ids -> is_Some (o_live o !! id)) ->
  exists o', mfold reap_ttl ids acc o = (Ok (acc ++ ids), o') /\ good n o' /\ accounted o o' ids.
Proof.
  revert acc o; induction ids as [|id ids IH]; intros acc o Hg Hnd Hin; cbn [mfold].
  - exists o. rewrite app_nil_r. split; [done|]. split; [done|]. intros id' Hs. by left.
  - apply NoDup_cons in Hnd as [Hni Hnd]. destruct (destroy_good n id o Hg) as (Hg1 & Hoth & _ & Hok).
    specialize (Hok (Hin id (or_introl eq_refl))). unfold mbind at 1.
    assert (reap_ttl acc id o = (res_map (fun _ => acc ++ [id]) (destroy id o).1, (destroy id o).2)) as ->
      by (unfold reap_ttl, mbind, mret; by destruct (destroy id o) as [[]?]).
    destruct (destroy id o) as [[ks|e] o1]; [|done]. cbn [fst snd res_map] in *.
    destruct (IH (acc ++ [id]) o1 Hg1 Hnd) as (o' & E & Hg' & Ha).
    { intros id' Hi. apply Hoth; [|apply Hin; by right]. intros ->. by apply Hni, list_elem_of_In. }
    exists o'. rewrite E, <- app_assoc. split; [done|]. split; [done|]. intros id' Hs. destruct (decide (id' = id)) as [->|Hne].
    + right. by left.
    + destruct (Ha id' (Hoth id' Hne Hs)); [by left|right; by right].
Qed.

Lemma reap_idle_run ids acc (o : O) :
  good n o -> exists acc' o', mfold reap_idle ids acc o = (Ok acc', o') /\ good n o' /\ incl acc acc' /\ accounted o o' acc'.
Proof.
  revert acc o; induction ids as [|id ids IH]; intros acc o Hg; cbn [mfold].
  - exists acc, o. split; [done|]. split; [done|]. split; [apply incl_refl|]. intros id' Hs. by left.
  - unfold mbind at 1. assert (exists acc1 o1, reap_idle acc id o = (Ok acc1, o1) /\ good n o1 /\ incl acc acc1 /\ accounted o o1 acc1) as G.
    { unfold reap_idle, mbind, take_live. destruct Hg as (Hr & Hn & Hl). destruct (o_live o !! id) as [m|] eqn:Em.
      - destruct (lookup_lt_is_Some_2 (o_backends o) (lm_backend m)) as [b Eb]; [rewrite Hn; by eapply Hl|].
        unfold upd_backend, on_backend. cbn [o_backends set_live]. rewrite Eb. eexists _, _. split; [reflexivity|]. split; [|split; [apply incl_appl, incl_refl|]].
        + split; [done|]. split; [simpl; by rewrite length_insert|]. intros id' m' Hm'. simpl in Hm'. apply lookup_delete_Some in Hm' as [_ Hm']. by eapply Hl.
        + intros id' Hs. simpl. destruct (decide (id' = id)) as [->|Hne]; [right; apply in_or_app; right; by left|left; by rewrite lookup_delete_ne].
      - exists acc, o. rewrite (delete_id _ _ Em). split; [by destruct o|]. split; [by split; [|split]|]. split; [apply incl_refl|]. intros id' Hs. by left. }
    destruct G as (acc1 & o1 & -> & Hg1 & Hi1 & Ha1). destruct (IH acc1 o1 Hg1) as (acc' & o' & -> & Hg' & Hi' & Ha').
    exists acc', o'. split; [done|]. split; [done|]. split; [by eapply incl_tran|]. intros id' Hs.
    destruct (Ha1 id' Hs) as [Hs1|Hin]; [by apply Ha'|right; by apply Hi'].
Qed.

(** A turn of the reaper reports all it ended. *)
Lemma tick_good iter now (o : O) :
  good n o -> iterates iter -> exists ids o', tick iter now o = (Ok ids, o') /\ good n o' /\ accounted o o' ids.
Proof.
  intros Hg Hit. unfold tick. unfold mbind at 1, ask. destruct (ttl_expired_spec iter now o Hit) as [Hnd Hids].
  set (due := ttl_expired_ids iter now o) in *.
  destruct (reap_ttl_run due [] o Hg Hnd) as (o1 & E1 & Hg1 & Ha1).
  { intros id Hin. destruct (proj1 (Hids id) Hin) as (m & Hm & _). by eexists. }
  unfold mbind at 1. rewrite E1. cbn [app]. unfold mbind at 1. unfold on_store, text.
  destruct Hg1 as ([Hi Hh] & Hn & Hl). pose proof (sweep_meets now (o_store o1) Hi) as G.
  destruct (lease_sweep now (o_store o1)) as [r s]. destruct G as (Hi' & G & Hb). destruct (Hb Hh) as [Hh' Hnb].
  destruct r as [ks|[e|i]]; [|exfalso; apply Hnb; by eexists|by destruct G]. cbn [err_text].
  destruct (reap_idle_run (sort_dedup (omap sandbox_id_of_key ks)) due (set_store s o1)) as (ids & o' & -> & Hg' & Hinc & Ha').
  { by split; [split|split]. }
  exists ids, o'. split; [done|]. split; [done|]. intros id Hs. destruct (Ha1 id Hs) as [Hs1|Hin]; [by apply Ha'|right; by apply Hinc].
Qed.

(** Forgetting stops the listeners of the sandboxes in the list, and of no other. *)
Lemma forget_run ids (a : Api S B) :
  exists a', forget ids a = (Ok tt, a') /\ ap_orch a' = ap_orch a /\
    forall id, ap_exposes a' !! id = if bool_decide (id ∈ ids) then None else ap_exposes a !! id.
Proof.
  unfold forget. revert a; induction ids as [|id ids IH]; intros a; cbn [mfold].
  - exists a. split; [done|]. split; [done|]. intros id. rewrite bool_decide_eq_false_2; [done|apply not_elem_of_nil].
  - unfold mbind at 1. change (forget_one tt id a) with (@Ok unit string tt, mkApi (ap_orch a) (ap_seq a) (delete id (ap_exposes a)) (record_destroy (ap_metrics a)) (ap_sink a)). cbv beta iota.
    match goal with |- context [mfold _ ids tt ?x] => destruct (IH x) as (a' & -> & Ho & Hx) end.
    exists a'. split; [done|]. split; [by rewrite Ho|]. intros id'. rewrite Hx. cbn [ap_exposes].
    destruct (decide (id' = id)) as [->|Hne].
    + rewrite lookup_delete_eq, (bool_decide_eq_true_2 (id ∈ id :: ids)) by (by left). by destruct (bool_decide _).
    + rewrite lookup_delete_ne by done. destruct (decide (id' ∈ ids)) as [Hin|Hni].
      * rewrite !bool_decide_eq_true_2; [done|by right|done].
      * rewrite !bool_decide_eq_false_2; [done|by intros [->|?]%elem_of_cons|done].
Qed.

Lemma safe_and_forget (m : M O string (list string)) :
  (forall o, good n o -> good n (m o).2 /\ match (m o).1 with Ok ids => accounted o (m o).2 ids | Err _ => mono o (m o).2 end) ->
  safe n X (and_forget m : M (Api S B) string unit).
Proof.
  intros Hm a [Hg Hh]. unfold and_forget, mbind, mtry, on_orch. destruct (Hm _ Hg) as [Hg' Ha]. destruct (m (ap_orch a)) as [[ids|e] o]; cbn [fst snd] in *.
  - destruct (forget_run ids (set_orch o a)) as (a' & -> & Ho & Hx). cbn [snd]. split; [by rewrite Ho|].
    intros id ports Hp Hne. rewrite Hx in Hp. case_bool_decide as Hin; [done|]. rewrite Ho. cbn.
    destruct (Hh id ports Hp Hne) as [Hs|Hex]; [|by right]. left.
    destruct (Ha id Hs) as [?|Hi]; [done|]. by apply list_elem_of_In in Hi.
  - split; [done|]. intros id ports Hp Hne. destruct (Hh id ports Hp Hne) as [Hs|Hex]; [left; by apply Ha|by right].
Qed.

Lemma grows_accounted (m : M O string (list string)) :
  grows n m -> forall o, good n o -> good n (m o).2 /\ match (m o).1 with Ok ids => accounted o (m o).2 ids | Err _ => mono o (m o).2 end.
Proof. intros Hm o Ho. destruct (Hm o Ho) as [Hg Hmo]. split; [done|]. destruct (m o).1; [|done]. intros id Hs. left. by apply Hmo. Qed.

Lemma safe_reaper iter retain_iter now leader : iterates iter -> safe n X (reaper_turn iter retain_iter now leader : M (Api S B) string unit).
Proof.
  intros Hit. unfold reaper_turn. destruct (negb leader); [apply safe_ret|]. apply safe_bind; [|intros _; apply safe_bind; [|intros _]].
  - apply safe_and_forget. intros o Hg. destruct (tick_good iter now o Hg Hit) as (ids & o' & -> & Hg' & Ha). done.
  - apply safe_and_forget, grows_accounted. grows.
  - apply safe_and_forget, grows_accounted. grows.
Qed.
End Reaping.

(** ** Runs of the daemon *)

Section Runs.
Context (Sha256 : string -> string) {S B : Type} `{StoreLaws S} `{SandboxBackend B} `{ApiJson}.

(** One thing at a time: a request, a ticket served here or through the gateway of the
    daemon, a turn of the reaper, or a change of the store by someone else. *)
Inductive api_step : Api S B -> Api S B -> Prop :=
| step_request cfg env iter rq a : api_step a (handle_request Sha256 cfg env iter rq a).2
| step_ticket cfg env iter t method path body a : api_step a (serve_gw_ticket cfg env iter t method path body a).2
| step_gw_conn cfg env iter used rs a : api_step a (handle_gw_conn Sha256 cfg env iter used rs a).2
| step_reaper iter retain_iter now leader a : iterates iter -> api_step a (reaper_turn iter retain_iter now leader a).2
| step_others s a : inv s -> healthy s -> api_step a (set_orch (set_store s (ap_orch a)) a).

Lemma api_step_sound n X a a' : api_step a a' -> sound n X a -> sound n X a'.
Proof.
  intros Hs Ha. destruct Hs.
  - by apply safe_request.
  - by apply safe_ticket.
  - by apply safe_gw_conn.
  - by apply safe_reaper.
  - by apply sound_store.
Qed.

(** *** The grain of the locks

    A handler takes the lock of the orchestrator once for each method it calls, and the
    lock of the registry of listeners once for each change of it; other threads run in
    between.  A thread that has work left after a section is a task. *)
Inductive Task : Type :=
| Exposing (id : string) (x : bool * Z * ExposeHandle)
| Dropping (ids : list string).

(** One section under the orchestrator's lock, of the methods that end no sandbox. *)
Inductive section : forall T, M (Orch S B) string T -> Prop :=
| sec_project id : section _ (sandbox_project id)
| sec_lookup token : section _ (on_store (lookup_key Sha256 token))
| sec_quota p v m : section _ (check_quota p v m)
| sec_create host now template spec : section _ (create_in host now template spec)
| sec_fork host now fresh nonce id spec : section _ (Orch.fork host now fresh nonce id spec)
| sec_tag id p : section _ (tag_project id p)
| sec_pause now fresh nonce id : section _ (Orch.pause now fresh nonce id)
| sec_resume fresh nonce id : section _ (Orch.resume fresh nonce id)
| sec_keepalive now id : section _ (keepalive now id)
| sec_list_meta p : section _ (list_meta_for p)
| sec_get_meta id : section _ (get_meta id)
| sec_store_get k : section _ (store_get k)
| sec_store_list p : section _ (store_list p)
| sec_list_audit p : section _ (list_audit p)
| sec_survey : section _ survey_nodes.

Inductive reaps : M (Orch S B) string (list string) -> Prop :=
| reaps_tick iter now : iterates iter -> reaps (tick iter now)
| reaps_orphans : reaps orch_reclaim_orphans
| reaps_retention iter now : reaps (gc_retention iter now).

(** One step of one thread. *)
Inductive move : Api S B * list Task -> Api S B * list Task -> Prop :=
| mv_whole a a' ts : api_step a a' -> move (a, ts) (a', ts)
| mv_section T (m : M (Orch S B) string T) a ts : section T m -> move (a, ts) ((on_orch m a).2, ts)
| mv_audit env actor action target code a ts : move (a, ts) ((audit_record env actor action target code a).2, ts)
| mv_metric f a ts : move (a, ts) ((metric f a).2, ts)
| mv_sink e a ts : move (a, ts) ((sink_emit e a).2, ts)
| mv_expose_begin cfg env id body x a a' ts :
    expose_begin cfg env id body a = (Ok x, a') -> move (a, ts) (a', Exposing id x :: ts)
| mv_expose_end id x a ts1 ts2 :
    move (a, ts1 ++ Exposing id x :: ts2) ((expose_end id x a).2, ts1 ++ ts2)
| mv_unexpose id gp a ts : move (a, ts) ((unexpose id gp a).2, ts)
| mv_destroy id a ts :
    move (a, ts) ((on_orch (destroy id) a).2, match (destroy id (ap_orch a)).1 with Ok _ => Dropping [id] :: ts | Err _ => ts end)
| mv_reap m a ts :
    reaps m -> move (a, ts) ((on_orch m a).2, match (m (ap_orch a)).1 with Ok ids => Dropping ids :: ts | Err _ => ts end)
| mv_drop id ids a ts1 ts2 :
    move (a, ts1 ++ Dropping (id :: ids) :: ts2) ((drop_exposes id a).2, ts1 ++ Dropping ids :: ts2)
| mv_dropped a ts1 ts2 : move (a, ts1 ++ Dropping [] :: ts2) (a, ts1 ++ ts2).

(** The sandboxes of the exposures between their two locks, and of the listeners that
    are still to be stopped. *)
Definition exposing (ts : list Task) (id : string) : Prop := exists gp h, In (Exposing id (false, gp, h)) ts.
Definition dropping (ts : list Task) (id : string) : Prop := exists ids, In (Dropping ids) ts /\ In id ids.

(** [raced]: the sandboxes that were ended while an exposure of them was between its
    locks. *)
Record Daemon : Type := mkDaemon { d_api : Api S B; d_tasks : list Task; d_raced : string -> Prop }.

Definition ended (a a' : Api S B) (id : string) : Prop := is_Some (o_live (ap_orch a) !! id) /\ o_live (ap_orch a') !! id = None.

Definition thread_step (d d' : Daemon) : Prop :=
  move (d_api d, d_tasks d) (d_api d', d_tasks d') /\
  forall id, d_raced d' id <-> d_raced d id \/ (exposing (d_tasks d) id /\ ended (d_api d) (d_api d') id).

(** *** The invariant *)

Definition excused (ts : list Task) (R : string -> Prop) (id : string) : Prop := R id \/ dropping ts id.

Record steady (n : nat) (d : Daemon) : Prop := {
  st_sound : sound n (excused (d_tasks d) (d_raced d)) (d_api d);
  st_exposing : forall id, exposing (d_tasks d) id -> is_Some (o_live (ap_orch (d_api d)) !! id) \/ d_raced d id
}.

Lemma sound_weaken n (X Y : string -> Prop) (a : Api S B) : (forall id, X id -> Y id) -> sound n X a -> sound n Y a.
Proof. intros HXY [Hg Hh]. split; [done|]. intros id ports Hp Hne. destruct (Hh id ports Hp Hne); [by left|right; auto]. Qed.

Lemma section_grows n T m : section T m -> grows n m.
Proof. destruct 1; grows. Qed.

Lemma reaps_good n m : reaps m -> forall o, good n o ->
  good n (m o).2 /\ match (m o).1 with Ok ids => accounted o (m o).2 ids | Err _ => mono o (m o).2 end.
Proof.
  destruct 1 as [iter now Hit| |].
  - intros o Hg. destruct (tick_good n iter now o Hg Hit) as (ids & o' & -> & Hg' & Ha). done.
  - apply grows_accounted. grows.
  - apply grows_accounted. grows.
Qed.

(** Some sandboxes end, and their listeners are to be stopped. *)
Lemma sound_ends n (X Y : string -> Prop) o' (a : Api S B) :
  good n o' -> (forall id, X id -> Y id) -> (forall id, is_Some (o_live (ap_orch a) !! id) -> is_Some (o_live o' !! id) \/ Y id) ->
  sound n X a -> sound n Y (set_orch o' a).
Proof.
  intros Hg HXY Hend [_ Hh]. split; [done|]. intros id ports Hp Hne. destruct (Hh id ports Hp Hne) as [Hs|Hx]; [by apply Hend|right; auto].
Qed.

Lemma in_mid {T} (x y : T) l1 l2 : In x (l1 ++ l2) -> In x (l1 ++ y :: l2).
Proof. rewrite !in_app_iff. cbn. tauto. Qed.

Lemma excused_mid t ts1 ts2 R id : excused (ts1 ++ ts2) R id -> excused (ts1 ++ t :: ts2) R id.
Proof. intros [?|(ids & Hin & Hi)]; [by left|right]. exists ids. split; [by apply in_mid|done]. Qed.

(** A listener for an id that is excused, registered or kept by the end of an exposure. *)
Lemma expose_end_sound n X id x (a : Api S B) :
  (forall gp h, x = (false, gp, h) -> is_Some (o_live (ap_orch a) !! id) \/ X id) -> sound n X a -> sound n X (expose_end id x a).2.
Proof.
  intros Hid [Hg Hh]. destruct x as [[[] gp] h]; unfold expose_end, mbind; cbn; [done|]. split; [done|].
  intros id' ports Hp Hne. simpl in Hp. apply lookup_insert_Some in Hp as [[<- _]|[_ Hp]]; [by eapply Hid|by eapply Hh].
Qed.

(** The listeners of an id are stopped: it needs no excuse. *)
Lemma drop_sound n (X Y : string -> Prop) id (a : Api S B) :
  (forall i, X i -> Y i \/ i = id) -> sound n X a -> sound n Y (drop_exposes id a).2.
Proof.
  intros HXY [Hg Hh]. split; [done|]. intros id' ports Hp Hne. simpl in Hp. apply lookup_delete_Some in Hp as [Hd Hp].
  destruct (Hh id' ports Hp Hne) as [?|Hx]; [by left|right]. destruct (HXY _ Hx) as [?|E]; [done|]. by symmetry in E.
Qed.

Lemma move_sound n a ts a' ts' (R R' : string -> Prop) :
  move (a, ts) (a', ts') -> (forall id, R id -> R' id) -> (forall id, exposing ts id -> is_Some (o_live (ap_orch a) !! id) \/ R id) ->
  sound n (excused ts R) a -> sound n (excused ts' R') a'.
Proof.
  intros Hm HR Hex Ha. assert (sound n (excused ts R') a) as Ha'
    by (eapply sound_weaken; [|exact Ha]; intros id [?|?]; [left; auto|by right]).
  assert (forall o' ids t, good n o' -> accounted (ap_orch a) o' ids -> t = Dropping ids -> sound n (excused (t :: ts) R') (set_orch o' a)) as Hend.
  { intros o' ids t Hg Hacc ->. eapply sound_ends; [done| | |exact Ha'].
    - intros id. apply (excused_mid _ []).
    - intros id Hs. destruct (Hacc id Hs) as [?|Hi]; [by left|]. right. right. exists ids. split; [by left|done]. }
  inversion Hm; subst; clear Hm.
  - by eapply api_step_sound.
  - eapply safe_orch; [by eapply section_grows|done].
  - by apply safe_audit_record.
  - by apply safe_metric.
  - by apply safe_sink.
  - destruct x as [[there gp] h]. match goal with E : expose_begin _ _ _ _ _ = _ |- _ => apply expose_begin_run in E as [-> _] end.
    eapply sound_weaken; [|exact Ha']. intros id'. apply (excused_mid _ []).
  - apply expose_end_sound; [|eapply sound_weaken; [|exact Ha']].
    + intros gp h ->. destruct (Hex id) as [?|?]; [exists gp, h; apply in_or_app; right; by left|by left|right; left; auto].
    + intros id' [?|(ids & Hin & Hi)]; [by left|right]. exists ids. split; [|done].
      apply in_app_or in Hin as [?|[?|?]]; [apply in_or_app; by left|done|apply in_or_app; by right].
  - by apply safe_unexpose.
  - destruct Ha' as [Hg Hh]. destruct (destroy_good n id (ap_orch a) Hg) as (Hg' & Hoth & Herr & _). unfold on_orch.
    destruct (destroy id (ap_orch a)) as [[ks|e] o']; cbn [fst snd] in *.
    + eapply Hend; [done| |done]. intros id' Hs. destruct (decide (id' = id)) as [->|Hne]; [right; by left|left; by apply Hoth].
    + eapply sound_ends; [done|done| |by split]. intros id' Hs. left. by apply (Herr eq_refl).
  - pose proof Ha' as [Hg _]. match goal with Hr : reaps _ |- _ => destruct (reaps_good n _ Hr (ap_orch a) Hg) as [Hg' Hacc] end.
    unfold on_orch. destruct (m (ap_orch a)) as [[ids|e] o']; cbn [fst snd] in *; [by eapply Hend|].
    eapply sound_ends; [done|done| |exact Ha']. intros id Hs. left. by apply Hacc.
  - eapply drop_sound; [|exact Ha']. intros i [?|(js & Hin & Hi)]; [by left; left|].
    apply in_app_or in Hin as [Hin|[[= <-]|Hin]].
    + left. right. exists js. split; [apply in_or_app; by left|done].
    + destruct Hi as [<-|Hi]; [by right|left; right]. exists ids. split; [apply in_or_app; right; by left|done].
    + left. right. exists js. split; [apply in_or_app; right; by right|done].
  - eapply sound_weaken; [|exact Ha']. intros id [?|(ids & Hin & Hi)]; [by left|right]. exists ids. split; [|done].
    apply in_app_or in Hin as [?|[[= <-]|?]]; [apply in_or_app; by left|done|apply in_or_app; by right].
Qed.

(** A new exposure is of a live sandbox. *)
Lemma move_exposing a ts a' ts' id :
  move (a, ts) (a', ts') -> exposing ts' id -> exposing ts id \/ (is_Some (o_live (ap_orch a) !! id) /\ a' = a).
Proof.
  assert (forall t l1 l2, exposing (l1 ++ l2) id -> exposing (l1 ++ t :: l2) id) as Hmid.
  { intros t l1 l2 (gp & h & Hin). exists gp, h. by apply in_mid. }
  assert (forall ids l1 l2, exposing (l1 ++ Dropping ids :: l2) id -> exposing (l1 ++ l2) id) as Hdrop.
  { intros ids l1 l2 (gp & h & Hin). exists gp, h. apply in_app_or in Hin as [?|[?|?]]; [apply in_or_app; by left|done|apply in_or_app; by right]. }
  intros Hm (gp & h & Hin). inversion Hm; subst; clear Hm; try (left; by exists gp, h).
  - destruct x as [[there gp'] h']. match goal with E : expose_begin _ _ _ _ _ = _ |- _ => apply expose_begin_run in E as [-> Hl] end.
    destruct Hin as [[= <- -> <- <-]|Hin]; [right; by split; [apply Hl|]|left; by exists gp, h].
  - left. apply Hmid. by exists gp, h.
  - left. destruct (destroy id0 (ap_orch a)).1; [|by exists gp, h]. destruct Hin as [?|Hin]; [done|by exists gp, h].
  - left. destruct (m (ap_orch a)).1; [|by exists gp, h]. destruct Hin as [?|Hin]; [done|by exists gp, h].
  - left. apply Hmid, (Hdrop ids). by exists gp, h.
  - left. apply Hmid. by exists gp, h.
Qed.

Lemma thread_step_steady n d d' : thread_step d d' -> steady n d -> steady n d'.
Proof.
  intros [Hm HR] [Hs He]. split.
  - eapply move_sound; [exact Hm| |exact He|exact Hs]. intros id Hr. apply HR. by left.
  - intros id Hx. destruct (o_live (ap_orch (d_api d')) !! id) as [m|] eqn:El; [by left|right]. apply HR.
    destruct (move_exposing _ _ _ _ id Hm Hx) as [Hx0|[Hl Ea]]; [|rewrite Ea in El; rewrite El in Hl; by destruct Hl].
    destruct (He id Hx0) as [Hl|Hr]; [right|by left]. by split; [|split].
Qed.

Lemma thread_steps_steady n d d' : rtc thread_step d d' -> steady n d -> steady n d'.
Proof. induction 1 as [|x y z Hst Hr IH]; intros Hd; [exact Hd|]. by apply IH, (thread_step_steady n x). Qed.
End Runs.
Arguments Daemon : clear implicits.

(** C6: no listener outlives its sandbox, but for one race.  From a daemon that has just
    started, after any steps of its threads on a store that answers (whole requests,
    tickets and reaper turns; single sections of them under the orchestrator's lock; and
    exposures, destructions and reaper turns with the steps of other threads between
    theirs), a port is exposed only for a sandbox in the table of live ones, for one
    whose destruction or reaping has yet to reach its listeners, or for one that was
    ended between the two locks of an exposure of it ([expose_destroy_race]).  So once no
    thread has work left and no exposure was overtaken by the end of its sandbox, every
    listener is for a live sandbox. *)
Theorem no_dangling_listeners (Sha256 : string -> string) {S B : Type} `{StoreLaws S} `{SandboxBackend B} `{ApiJson}
    (a0 : Api S B) (d : Daemon S B) :
  api_ready a0 -> o_live (ap_orch a0) = ∅ -> ap_exposes a0 = ∅ ->
  rtc (thread_step Sha256) (mkDaemon a0 [] (fun _ => False)) d ->
  (forall id gp h, ap_exposes (d_api d) !! id ≫= (fun ports => ports !! gp) = Some h ->
     is_Some (o_live (ap_orch (d_api d)) !! id) \/ dropping (d_tasks d) id \/ d_raced d id) /\
  (d_tasks d = [] -> (forall id, ~ d_raced d id) ->
     forall id gp h, ap_exposes (d_api d) !! id ≫= (fun ports => ports !! gp) = Some h ->
       is_Some (o_live (ap_orch (d_api d)) !! id)).
Proof.
  intros Hr Hl Hx Hrun. assert (steady (length (o_backends (ap_orch a0))) (mkDaemon a0 [] (fun _ => False))) as Hstart.
  { split; [|by intros id (gp & h & [])]. split; [split; [exact Hr|split; [done|]]|]; cbn.
    - intros id' m Hm. by rewrite Hl, lookup_empty in Hm.
    - intros id' ports Hp. by rewrite Hx, lookup_empty in Hp. }
  destruct (thread_steps_steady Sha256 _ _ _ Hrun Hstart) as [[_ Hh] _].
  assert (forall id gp h, ap_exposes (d_api d) !! id ≫= (fun ports => ports !! gp) = Some h ->
     is_Some (o_live (ap_orch (d_api d)) !! id) \/ dropping (d_tasks d) id \/ d_raced d id) as Hall.
  { intros id gp h He. destruct (ap_exposes (d_api d) !! id) as [ports|] eqn:Ep; [|done].
    destruct (Hh id ports Ep) as [?|[?|?]]; [|by left|by right; right|by right; left].
    intros ->. cbn in He. by rewrite lookup_empty in He. }
  split; [exact Hall|]. intros Ht Hn id gp h He. destruct (Hall id gp h He) as [?|[(ids & Hin & _)|Hrc]]; [done| |by destruct (Hn id)].
  rewrite Ht in Hin. destruct Hin.
Qed.

(** ** A run *)

Import RefJson RefBackend RefApi.

Definition open_cfg : ApiConfig := mkApiConfig false "/templates" false local_gateway (mkRemote "n1" None (mkPolicy 1)) "1".
Definition fresh_api : Api SqliteStore Ref :=
  mkApi (set_store (store_after [OPut "template/t/latest" "v1" None]) an_orch) 0 ∅ metrics_new [].
Definition post (path : string) (body : json) : HttpRequest := mkRequest "POST" path None None (render body).
Definition create_request : HttpRequest := post "/v1/sandboxes" (JObj [("template"%string, JStr "t")]).
Definition expose_body : json := JObj [("port"%string, JNum 8080)].
Definition api_run (rq : HttpRequest) (a : Api SqliteStore Ref) : Api SqliteStore Ref := (handle_request same_text open_cfg an_env in_order rq a).2.
Definition created_api : Api SqliteStore Ref := api_run create_request fresh_api.
Definition exposed_api : Api SqliteStore Ref := api_run (post "/v1/sandboxes/i0/expose" expose_body) created_api.

(** One thread, taking whole requests. *)
Lemma whole_step (a a' : Api SqliteStore Ref) :
  api_step same_text a a' -> thread_step same_text (mkDaemon a [] (fun _ => False)) (mkDaemon a' [] (fun _ => False)).
Proof. intros Hs. split; [by apply mv_whole|]. intros id. cbn. split; [tauto|]. intros [[]|[(gp & h & []) _]]. Qed.

Lemma no_dangling_listeners_witness :
  let d := mkDaemon exposed_api [] (fun _ => False) in
  rtc (thread_step same_text) (mkDaemon fresh_api [] (fun _ => False)) d /\ is_Some (o_live (ap_orch exposed_api) !! "i0"%string).
Proof.
  cbv zeta. assert (rtc (thread_step same_text) (mkDaemon fresh_api [] (fun _ => False)) (mkDaemon exposed_api [] (fun _ => False))) as Hrun.
  { apply (rtc_l _ _ (mkDaemon created_api [] (fun _ => False)));
      [apply whole_step; exact (step_request same_text open_cfg an_env in_order create_request fresh_api)|].
    apply rtc_once, whole_step. exact (step_request same_text open_cfg an_env in_order (post "/v1/sandboxes/i0/expose" expose_body) created_api). }
  split; [exact Hrun|].
  destruct (no_dangling_listeners same_text fresh_api (mkDaemon exposed_api [] (fun _ => False))) as [_ Hq];
    [apply store_after_inv|reflexivity|reflexivity|exact Hrun|].
  apply (Hq eq_refl (fun _ x => x) "i0"%string 8080 (mkExpose 40000 "127.0.0.1" 8080)). vm_compute. reflexivity.
Defined.

(** The handler of an exposure looks the sandbox up under one lock and registers the
    listener under another: three steps of two threads leave a listener behind, with no
    work left. *)
Lemma expose_destroy_race :
  exists x a3, (expose_begin open_cfg an_env "i0" (render expose_body) created_api).1 = Ok x /\
    rtc (move same_text) (created_api, []) (a3, []) /\
    bool_decide (is_Some (o_live (ap_orch a3) !! "i0"%string)) = false /\
    bool_decide (is_Some (ap_exposes a3 !! "i0"%string ≫= (fun ports => ports !! 8080))) = true.
Proof.
  assert (exists x, expose_begin open_cfg an_env "i0" (render expose_body) created_api = (Ok x, created_api) /\
    x = (false, 8080, mkExpose 40000 "127.0.0.1" 8080)) as (x & Eb & Ex) by (eexists; split; [vm_compute; reflexivity|reflexivity]).
  set (a2 := api_run (mkRequest "DELETE" "/v1/sandboxes/i0" None None "") created_api).
  exists x, (expose_end "i0" x a2).2. split; [by rewrite Eb|]. split; [|subst x; split; vm_compute; reflexivity].
  apply (rtc_l _ _ (created_api, [Exposing "i0" x])); [by eapply mv_expose_begin|].
  apply (rtc_l _ _ (a2, [Exposing "i0" x])); [|apply rtc_once; exact (mv_expose_end same_text "i0" x a2 [] [])].
  apply mv_whole. exact (step_request same_text open_cfg an_env in_order (mkRequest "DELETE" "/v1/sandboxes/i0" None None "") created_api).
Qed.

(** Collecting an expired snapshot removes its keys and lease from the store; the sandbox
    stays in the table and in its backend, and the reaper counts it as destroyed. *)
Lemma gc_leaves_instances {S B : Type} `{Store S} iter now (o : Orch S B) :
  o_live (gc_retention iter now o).2 = o_live o /\ o_backends (gc_retention iter now o).2 = o_backends o.
Proof. unfold gc_retention, on_store. by destruct (gc_expired iter now (o_store o)). Qed.

(** A request for a sandbox of another node, when the gateway does not answer, ends
    without a response and without an audit entry. *)
Definition away_api : Api SqliteStore Ref :=
  mkApi (set_store (store_after [OPut (key_store_key same_text "t1") (Auth.encode (mkKey "o" "p" ReadWrite)) None;
                                 OPut "sandbox/a/project" "p" None; OPut "sandbox/a/node" "n2" None]) an_orch) 0 ∅ metrics_new [].
Lemma relay_failure_unanswered :
  (handle_request same_text a_cfg an_env in_order (a_request "DELETE" "/v1/sandboxes/a" "t1") away_api).1 = Err "refused"%string /\
  ap_seq (handle_request same_text a_cfg an_env in_order (a_request "DELETE" "/v1/sandboxes/a" "t1") away_api).2 = 0.
Proof. split; vm_compute; reflexivity. Qed.
