(* ===== verification/ApiAudit.v ===== *)
(** * The audit log

    With keys required, a request that changes something and is answered leaves one
    entry in the audit log: [Unrecorded] says of each handler that it writes none itself,
    and [record_audit] writes the one of the request. *)

From Stdlib Require Import ZArith Lia Bool List String Ascii.
From stdpp Require Import base tactics list gmap strings.
From S2P Require Import Prelude RustStr Utf8 Json Store Sqlite SqliteSpec StoreTheorems Auth Quota Sched AuditLog Proto Snapcrypt Backend Orch OrchSafety OrchReaper OrchTenancy Gateway Cluster Text Base64 Http Metrics Routes Api ApiSafety DaemonSafety.

Open Scope Z_scope.

(** ** Handlers that record nothing *)

Section Unrecorded.
Context {S B : Type}.

Notation A := (Api S B).

(** Every record takes the next number of the counter; the handler takes none. *)
Definition unrecorded {E T} (m : M A E T) : Prop := forall a, ap_seq (m a).2 = ap_seq a.

Lemma un_ret {E T} (x : T) : unrecorded (mret x : M A E T).
Proof. by intros a. Qed.
Lemma un_fail {E T} (e : E) : unrecorded (mfail e : M A E T).
Proof. by intros a. Qed.
Lemma un_read {E T} (f : A -> result T E) : unrecorded (fun a => (f a, a)).
Proof. by intros a. Qed.
Lemma un_bind {E T U} (m : M A E T) (f : T -> M A E U) : unrecorded m -> (forall x, unrecorded (f x)) -> unrecorded (mbind m f).
Proof. intros Hm Hf a. unfold mbind. specialize (Hm a). destruct (m a) as [[x|e] a1]; [by rewrite Hf|done]. Qed.
Lemma un_try {E T} (m : M A E T) : unrecorded m -> unrecorded (mtry m).
Proof. intros Hm a. unfold mtry. specialize (Hm a). by destruct (m a). Qed.
Lemma un_reified {E' T} (m : M A string T) : unrecorded m -> unrecorded (fun a => let '(r, a') := m a in (@Ok _ E' r, a')).
Proof. intros Hm a. specialize (Hm a). by destruct (m a). Qed.
Lemma un_or_fail {T} (o : option T) e : unrecorded (or_fail o e : M A string T).
Proof. by destruct o. Qed.
Lemma un_lift {T} (r : result T string) : unrecorded (lift r : M A string T).
Proof. by destruct r. Qed.
Lemma un_ask {T} (f : Orch.Orch S B -> T) : unrecorded (ask_orch f : M A string T).
Proof. by intros a. Qed.
Lemma un_orch {T} (m : M (Orch.Orch S B) string T) : unrecorded (on_orch m).
Proof. intros a. unfold on_orch. by destruct (m (ap_orch a)). Qed.
Lemma un_metric f : unrecorded (metric f : M A string unit).
Proof. by intros a. Qed.
Lemma un_sink e : unrecorded (sink_emit e : M A string unit).
Proof. by intros a. Qed.
Lemma un_set_exposes f : unrecorded (fun a => set_exposes (f a) a : result unit string * A).
Proof. by intros a. Qed.
Lemma un_drop id : unrecorded (drop_exposes id : M A string unit).
Proof. by intros a. Qed.
Lemma un_unexpose id gp : unrecorded (unexpose id gp : M A string Response3).
Proof. intros a. unfold unexpose. by destruct (exposed id a !! gp). Qed.
End Unrecorded.

Create HintDb unrecorded.
#[export] Hint Resolve un_ret un_fail un_read un_or_fail un_lift un_ask un_orch un_metric un_sink un_set_exposes un_drop un_unexpose : unrecorded.

Ltac unrecorded :=
  repeat first
    [ solve [auto with unrecorded nocore]
    | match goal with
      | |- unrecorded (answer _ _ _) => unfold answer
      | |- unrecorded (responded _) => unfold responded
      | |- unrecorded (destroyed _ _ _) => unfold destroyed
      | |- unrecorded (mtry _) => apply un_try
      | |- unrecorded (mbind _ _) => apply un_bind; [|intros ?]
      | |- unrecorded (fun a => let '(_, _) := _ a in (Ok _, _)) => apply un_reified
      | |- unrecorded (fun a => (_, a)) => apply un_read
      | |- unrecorded (let '(_, _) := ?x in _) => destruct x
      | |- unrecorded (match ?x with _ => _ end) => destruct x
      end
    | progress cbv zeta ].

Section UnrecordedOps.
Context (Sha256 : string -> string) {S B : Type} `{Store S} `{SandboxBackend B} `{ApiJson}.
Context (cfg : ApiConfig) (env : ApiEnv) (iter : gmap Z ExposeHandle -> list ExposeHandle).

Notation A := (Api S B).

Lemma un_authorize op sid key : unrecorded (authorize Sha256 cfg op sid key : M A _ _).
Proof. unfold authorize. unrecorded. Qed.
Lemma un_expose id body : unrecorded (expose_port cfg env id body : M A _ _).
Proof. unfold expose_port, expose_begin, expose_end, body_json. unrecorded. Qed.
Hint Resolve un_expose : unrecorded.
Lemma un_dispatch method path body project : unrecorded (dispatch Sha256 cfg env iter method path body project : M A _ _).
Proof.
  unfold dispatch, create_sandbox, fork_sandbox, exec_in, put_file, get_file, read_logs, list_templates, mint_ticket, pause_response,
    resume_response, keepalive_response, resolve_template, tag, guest_target, body_json. unrecorded.
Qed.
Lemma un_remote_owner id : unrecorded (remote_owner cfg id : M A _ _).
Proof. unfold remote_owner. unrecorded. Qed.
Lemma un_relay sid action port method extra body : unrecorded (relay_via_gw Sha256 cfg env sid action port method extra body : M A _ _).
Proof. unfold relay_via_gw. unrecorded. Qed.
Hint Resolve un_remote_owner un_relay : unrecorded.
Lemma un_schedule body project : unrecorded (schedule_create Sha256 cfg env body project : M A _ _).
Proof. unfold schedule_create. unrecorded. Qed.
End UnrecordedOps.
#[export] Hint Resolve un_authorize un_dispatch un_remote_owner un_relay un_schedule : unrecorded.

(** ** The record of a request *)

(** [record_audit] writes one entry, with the caller, the action, the sandbox and the
    status. *)
Lemma record_audit_writes {S B : Type} `{Store S} (cfg : ApiConfig) (env : ApiEnv) r project code (a : Api S B) op :
  ac_require cfg = true -> required_op r = Some op -> op <> OpRead ->
  record_audit cfg env r project code a =
    (Ok tt, (audit_record env (default "-"%string project) (audit_action r) (default "-"%string (sandbox_id r)) code a).2).
Proof.
  intros Hq Ho Hne. unfold record_audit. rewrite Hq, Ho. destruct op; try done; cbn [negb]; unfold mbind, mtry, mret;
    by destruct (audit_record _ _ _ _ _ _).
Qed.

(** An answering store takes the record: the entry of the log is under the next number. *)
Lemma audit_record_stored {S B : Type} `{StoreLaws S} (env : ApiEnv) actor action target code (a : Api S B) :
  api_ready a ->
  let a' := (audit_record env actor action target code a).2 in
  ap_seq a' = u64_add (ap_seq a) 1 /\
  kv_value <$> a_kv (api_abs a') !! audit_key (en_now env) (ap_seq a) = Some (audit_entry (en_now env) actor action target code).
Proof.
  intros [Hi Hh]. unfold audit_record, record, mbind, next_seq, on_fst, text. cbn [fst snd].
  pose proof (put_meets (audit_key (en_now env) (ap_seq a)) (audit_entry (en_now env) actor action target code) None _ Hi) as G.
  destruct (put _ _ _ (o_store (ap_orch a))) as [r s]. destruct G as (_ & G & Hb). destruct (Hb Hh) as [_ Hn].
  destruct r as [rev|[e|i]]; [|exfalso; apply Hn; by eexists|by destruct G as [? _]]. destruct G as (_ & Ha & _).
  split; [done|]. unfold api_abs, o_abs. cbn [err_text]. unfold mret. cbn [ap_orch o_store set_store snd]. rewrite Ha. unfold a_write. cbn [a_kv]. by rewrite lookup_insert_eq.
Qed.

Section Audited.
Context (Sha256 : string -> string) {S B : Type} `{StoreLaws S} `{SandboxBackend B} `{ApiJson}.
Context (cfg : ApiConfig) (env : ApiEnv) (iter : gmap Z ExposeHandle -> list ExposeHandle) (n : nat) (seq : Z).

(** Nothing is recorded yet since the counter stood at [seq], and the store answers. *)
Definition unrecorded_yet (a : Api S B) : Prop := ap_seq a = seq /\ sound n (fun _ => True) a.

Lemma unrecorded_run {E T} (m : M (Api S B) E T) x (a a' : Api S B) :
  unrecorded m -> safe n (fun _ => True) m -> m a = (x, a') -> unrecorded_yet a -> unrecorded_yet a'.
Proof. intros Hu Hs E1 [Hq Ha]. specialize (Hu a). specialize (Hs a Ha). rewrite E1 in *. by split; [rewrite <- Hq|]. Qed.

(** The run ended by recording the request with this status, its only record. *)
Definition ended_audited (r : Route) (p : string) (code : Z) (a' : Api S B) : Prop :=
  ap_seq a' = u64_add seq 1 /\
  kv_value <$> a_kv (api_abs a') !! audit_key (en_now env) seq =
    Some (audit_entry (en_now env) p (audit_action r) (default "-"%string (sandbox_id r)) code).

Context (r : Route) (op : Op) (p : string).
Context (Hq : ac_require cfg = true) (Ho : required_op r = Some op) (Hw : op <> OpRead).

Lemma audit_then code text (a a' : Api S B) :
  unrecorded_yet a ->
  (let? _ := record_audit cfg env r (Some p) code in mret text : M (Api S B) string string) a = (Ok text, a') ->
  ended_audited r p code a'.
Proof.
  intros [Es [[Hr _] _]]. unfold mbind. rewrite (record_audit_writes cfg env r (Some p) code a op Hq Ho Hw). unfold mret. intros [= <-].
  unfold ended_audited. rewrite <- Es. by apply audit_record_stored.
Qed.

Lemma local_audited rq text (a a' : Api S B) :
  unrecorded_yet a -> serve_local Sha256 cfg env iter rq r (Some p) a = (Ok text, a') ->
  exists code ctype b, text = response_text code ctype b /\ ended_audited r p code a'.
Proof.
  unfold serve_local. intros Ha ([[code ctype] b] & a1 & Hd & E)%run_bind. apply run_bind in E as (u & a2 & Hm & E).
  exists code, ctype, b. assert (text = response_text code ctype b) as ->.
  { cbn [fst] in E. apply run_bind in E as (u' & a3 & _ & E). unfold mret in E. cbn [respond] in E. congruence. }
  split; [done|]. eapply audit_then; [|exact E]. eapply unrecorded_run; [| |exact Hm|]; [unrecorded|safe|].
  eapply unrecorded_run; [| |exact Hd|exact Ha]; [unrecorded|apply safe_dispatch].
Qed.

(** What comes back from the gateway. *)
Definition relayed (id : string) (code : Z) (text : string) : Prop :=
  exists action port m extra body a, relay_via_gw Sha256 cfg env id action port m extra body (a : Api S B) = (Ok (code, text), a).

Lemma relay_keeps id action port m extra body (a a' : Api S B) x :
  relay_via_gw Sha256 cfg env id action port m extra body a = (Ok x, a') -> a' = a.
Proof.
  unfold relay_via_gw. destruct (rt_gw_url _); [|done]. destruct (after_gw _); [|done]. destruct (en_relay _ _ _ _) as [rs|e]; [|done].
  unfold lift. by destruct (relay_loop 0 "" "" rs); intros [= _ <-].
Qed.

Lemma forwarded_audited rq text (a a' : Api S B) :
  unrecorded_yet a -> serve_forwarded Sha256 cfg env iter rq r (Some p) a = (Ok text, a') ->
  exists code, ended_audited r p code a' /\
    ((exists ctype b, text = response_text code ctype b) \/ exists id, sandbox_id r = Some id /\ relayed id code text).
Proof.
  unfold serve_forwarded. intros Ha E.
  assert (forall a0, unrecorded_yet a0 -> serve_local Sha256 cfg env iter rq r (Some p) a0 = (Ok text, a') ->
    exists code, ended_audited r p code a' /\
      ((exists ctype b, text = response_text code ctype b) \/ exists id, sandbox_id r = Some id /\ relayed id code text)) as Hl.
  { intros a0 Ha0 (code & ctype & b & Ht & He)%local_audited; [|done]. exists code. split; [done|]. left. by exists ctype, b. }
  destruct (forwardable_route r) as [[[[action m] port] extra]|]; [|by eapply Hl].
  destruct (sandbox_id r) as [id|] eqn:Eid; [|by eapply Hl].
  apply run_bind in E as (owner & a1 & Hown & E).
  assert (unrecorded_yet a1) as Ha1 by (eapply unrecorded_run; [| |exact Hown|exact Ha]; [unrecorded|apply safe_remote_owner]).
  destruct owner as [owner|]; [|by eapply Hl]. apply run_bind in E as ([code raw] & a2 & Er & E).
  assert (a2 = a1) as -> by (by eapply relay_keeps). apply run_bind in E as (u & a3 & Hm & E). cbn [fst snd] in E.
  assert (text = raw) as -> by (apply run_bind in E as (u' & a4 & _ & E); unfold mret in E; congruence).
  exists code. split; [|right; exists id; split; [done|]; unfold relayed; eauto 8].
  eapply audit_then; [|exact E]. eapply unrecorded_run; [| |exact Hm|exact Ha1]; [unrecorded|safe].
Qed.
End Audited.

(** A creation placed elsewhere is answered with the status it is recorded with. *)
Lemma schedule_create_text (Sha256 : string -> string) {S B : Type} `{StoreLaws S} `{SandboxBackend B} `{ApiJson}
    (cfg : ApiConfig) (env : ApiEnv) body project code text (a a' : Api S B) :
  schedule_create Sha256 cfg env body project a = (Ok (Some (code, text)), a') -> exists ctype b, text = response_text code ctype b.
Proof.
  unfold schedule_create. destruct (rt_gw_url _); [|done]. destruct (from_slice _) as [v|]; [|done].
  intros (nodes & a1 & _ & Hrun)%run_bind. destruct nodes as [nodes|]; [|done].
  destruct (place _ _ _ _ _) as [target|]; [|done]. destruct (String.eqb _ _); [done|].
  apply run_bind in Hrun as (q & a2 & _ & Hrun). destruct q as [u|e].
  - apply run_bind in Hrun as (rr & a3 & _ & Hrun). destruct rr as [[c raw]|e].
    + apply run_bind in Hrun as (u1 & a4 & _ & Hrun). apply run_bind in Hrun as (u2 & a5 & _ & Hrun).
      unfold mret in Hrun. injection Hrun as <- <- _. by eexists _, _.
    + unfold mret in Hrun. injection Hrun as <- <- _. by eexists _, _.
  - apply run_bind in Hrun as (u1 & a4 & _ & Hrun). unfold mret in Hrun. injection Hrun as <- <- _. by eexists _, _.
Qed.

(** C35: every mutation that is answered is in the audit log, once (FR-7.3).  With keys
    required, on a store that answers and with every live sandbox on a backend the daemon
    has, a request for a route that changes something, under a key entitled to it, that
    gets its answer has taken exactly one number of the log's counter, and the log holds
    under that number the entry of the request: the time, the key's project, the action
    of the route, the sandbox, and the status the client was sent, whether it was served
    here, placed on another node or relayed to the sandbox's owner.  A streamed command is
    not a route of the table and is left out: it is answered and leaves no entry
    ([stream_not_audited]); a relayed request whose owner does not answer is not answered
    either. *)
Theorem mutations_audited (Sha256 : string -> string) {S B : Type} `{StoreLaws S} `{SandboxBackend B} `{ApiJson}
    (cfg : ApiConfig) (env : ApiEnv) (iter : gmap Z ExposeHandle -> list ExposeHandle) (rq : HttpRequest) (op : Op)
    (text p : string) (a a' : Api S B) :
  let r := parse_route (rq_method rq) (rq_path rq) in
  ac_require cfg = true -> good (length (o_backends (ap_orch a))) (ap_orch a) -> parse_exec_stream (rq_method rq) (rq_path rq) = None ->
  required_op r = Some op -> op <> OpRead -> entitled Sha256 (api_abs a) op (sandbox_id r) (rq_api_key rq) p ->
  handle_request Sha256 cfg env iter rq a = (Ok text, a') ->
  exists code,
    ap_seq a' = u64_add (ap_seq a) 1 /\
    kv_value <$> a_kv (api_abs a') !! audit_key (en_now env) (ap_seq a) =
      Some (audit_entry (en_now env) p (audit_action r) (default "-"%string (sandbox_id r)) code) /\
    ((exists ctype b, text = response_text code ctype b) \/
     exists id, sandbox_id r = Some id /\ relayed (S := S) (B := B) Sha256 cfg env id code text).
Proof.
  intros r Hq Hg Hx Ho Hw Hent. unfold handle_request. rewrite Hx. fold r. rewrite Ho. set (n := length _) in *.
  destruct (authorized_total Sha256 cfg op (sandbox_id r) (rq_api_key rq) (serve_authorized Sha256 cfg env iter rq r) a Hq (proj1 Hg))
    as (a1 & Hsame & [(p' & Hent' & ->)|(Hno & _)]); [|by destruct (Hno p)].
  assert (p' = p) as -> by (destruct Hent as (t & rec & ? & ? & _ & <- & _), Hent' as (t' & rec' & ? & ? & _ & <- & _); congruence).
  assert (unrecorded_yet n (ap_seq a) a1) as Ha1.
  { destruct Hsame as (s & -> & Hi & Hh & _). split; [done|]. split; [|intros id ports _ _; by right]. by destruct Hg as (_ & ? & ?). }
  assert (forall code, ended_audited env (ap_seq a) r p code a' ->
    ((exists ctype b, text = response_text code ctype b) \/ exists id, sandbox_id r = Some id /\ relayed (S := S) (B := B) Sha256 cfg env id code text) ->
    exists code, ap_seq a' = u64_add (ap_seq a) 1 /\
      kv_value <$> a_kv (api_abs a') !! audit_key (en_now env) (ap_seq a) =
        Some (audit_entry (en_now env) p (audit_action r) (default "-"%string (sandbox_id r)) code) /\
      ((exists ctype b, text = response_text code ctype b) \/
       exists id, sandbox_id r = Some id /\ relayed (S := S) (B := B) Sha256 cfg env id code text)) as Hend
    by (intros code [? ?] ?; exists code; auto).
  unfold serve_authorized. intros (sched & a2 & Hs & Hrun)%run_bind.
  assert (unrecorded_yet n (ap_seq a) a2) as Ha2.
  { eapply unrecorded_run; [| |exact Hs|exact Ha1]; destruct r; unrecorded; safe; apply safe_schedule. }
  destruct sched as [[code txt]|].
  - assert (text = txt) as -> by (apply run_bind in Hrun as (u & a3 & _ & Hrun); unfold mret in Hrun; congruence).
    apply (Hend code); [by eapply audit_then|]. left. destruct r; try (unfold mret in Hs; discriminate Hs). by eapply schedule_create_text.
  - eapply forwarded_audited in Hrun as (code & He & Ht); [by apply (Hend code)|done..].
Qed.

(** ** Witness *)

Import RefJson RefBackend RefApi.

Lemma no_live id m : o_live (ap_orch an_api) !! id = Some m -> False.
Proof. done. Qed.

Lemma mutations_audited_witness :
  let r := a_request "DELETE" "/v1/sandboxes/a/expose/8080" "t1" in
  exists text a' code, handle_request same_text a_cfg an_env in_order r an_api = (Ok text, a') /\
    ap_seq a' = 1 /\
    kv_value <$> a_kv (api_abs a') !! audit_key 1000 0 = Some (audit_entry 1000 "p" "unexpose" "a" code).
Proof.
  set (r := a_request "DELETE" "/v1/sandboxes/a/expose/8080" "t1"). cbv zeta.
  assert (is_ok (handle_request same_text a_cfg an_env in_order r an_api).1 = true) as Hok by (vm_compute; reflexivity).
  destruct (handle_request same_text a_cfg an_env in_order r an_api) as [[text|e] a'] eqn:E; [|discriminate Hok].
  destruct (mutations_audited same_text a_cfg an_env in_order r OpWrite text "p" an_api a' eq_refl
    (conj an_api_ready (conj eq_refl (fun id m Hm => match no_live id m Hm with end))) eq_refl eq_refl)
    as (code & Hs & Hc & _); [discriminate| |exact E|exists text, a', code; split; [reflexivity|split; [exact Hs|exact Hc]]].
  exists "t1"%string. eexists. split; [reflexivity|]. split; [vm_compute; reflexivity|]. split; [reflexivity|].
  split; [reflexivity|]. intros id [= <-]. vm_compute. reflexivity.
Defined.

