(* ===== verification/FileTree.v ===== *)
(** * Directory trees with symbolic links

    What the image builder sees of the file system: directories, files and symbolic
    links by their real place, the resolution of a path, and the calls of [std::fs]
    with the paths of [std::path].  The n-th call may fail, as the environment says;
    a recursive removal that fails leaves what the environment says.  Owners, modes
    and hard links are not kept. *)

From Stdlib Require Import ZArith Lia Bool List String Ascii.
From stdpp Require Import base tactics list gmap strings.
From S2P Require Import Prelude RustStr Utf8 Text.

Open Scope Z_scope.

(** ** Paths *)

Inductive Component : Type :=
| RootDir
| CurDir
| ParentDir
| Normal (name : string).

#[global] Instance component_eq_dec : EqDecision Component.
Proof. solve_decision. Defined.

Notation Path := (list Component).

Definition piece (s : string) : list Component :=
  if String.eqb s "" || String.eqb s "." then [] else if String.eqb s ".." then [ParentDir] else [Normal s].

(** [Path::new(s).components()]: a leading dot counts, others do not. *)
Definition components (s : string) : Path :=
  match split "/" s with
  | p :: ps =>
      (if String.eqb p "" && negb (String.eqb s "") then [RootDir] else if String.eqb p "." then [CurDir] else piece p) ++ concat (map piece ps)
  | [] => []
  end.

(** [a.join(b)] *)
Definition path_join (a b : Path) : Path :=
  match b with
  | RootDir :: _ => b
  | CurDir :: b' => match a with [] => b | _ => a ++ b' end
  | _ => a ++ b
  end.

Definition file_name (p : Path) : option string := match last p with Some (Normal s) => Some s | _ => None end.

Definition parent (p : Path) : option Path :=
  match last p with None | Some RootDir => None | Some _ => Some (take (pred (length p)) p) end.

(** ** The tree *)

Inductive Node : Type :=
| NDir
| NFile (data : string)
| NLink (target : Path).

#[global] Instance node_eq_dec : EqDecision Node.
Proof. solve_decision. Defined.

(** By real place: the names from the root. *)
Notation Place := (list string).
Notation Tree := (gmap Place Node).

Definition is_dir (fs : Tree) (r : Place) : bool := match r with [] => true | _ => match fs !! r with Some NDir => true | _ => false end end.

(** Resolution from a place.  [links]: the links that may still be followed; the last
    component is followed only if [follow].  A last component that is not there
    resolves to where it would be. *)
Fixpoint walk (links : nat) (fs : Tree) (follow : bool) : Place -> Path -> option Place :=
  fix go (cur : Place) (p : Path) : option Place :=
    match p with
    | [] => Some cur
    | RootDir :: p' => go [] p'
    | CurDir :: p' => go cur p'
    | ParentDir :: p' => go (take (pred (length cur)) cur) p'
    | Normal n :: p' =>
        let here := cur ++ [n] in
        match fs !! here with
        | Some NDir => go here p'
        | Some (NFile _) => match p' with [] => Some here | _ => None end
        | None => match p' with [] => Some here | _ => None end
        | Some (NLink t) =>
            match p', follow with
            | [], false => Some here
            | _, _ => match links with O => None | S k => walk k fs follow cur (t ++ p') end
            end
        end
    end.

(** The kernel's limit. *)
Definition MAX_LINKS : nat := 40.

Definition under (r p : Place) : bool := bool_decide (r `prefix_of` p).

(** ** Calls *)

Record Host : Type := mkHost { h_tree : Tree; h_call : nat }.

(** What the n-th call fails with, and what a failing removal leaves. *)
Record Faults : Type := mkFaults { f_err : nat -> option string; f_left : nat -> Place -> bool; f_cwd : Place }.

Section Calls.
Context (io : Faults).

Definition place (fs : Tree) (follow : bool) (p : Path) : option Place := walk MAX_LINKS fs follow (f_cwd io) p.

(** A call that fails without an effect, or acts on the tree. *)
Definition call {A} (f : Tree -> result A string * Tree) : M Host string A := fun h =>
  match f_err io (h_call h) with
  | Some e => (Err e, mkHost (h_tree h) (S (h_call h)))
  | None => let '(r, fs) := f (h_tree h) in (r, mkHost fs (S (h_call h)))
  end.

Definition no_entry : string := "No such file or directory (os error 2)".
Definition other_kind : string := "wrong kind of file".

(** [p.exists()] *)
Definition exists_at (p : Path) (fs : Tree) : bool :=
  match place fs true p with Some r => is_dir fs r || bool_decide (is_Some (fs !! r)) | None => false end.
Definition exists_ (p : Path) : M Host string bool := fun h =>
  (Ok (match f_err io (h_call h) with Some _ => false | None => exists_at p (h_tree h) end), mkHost (h_tree h) (S (h_call h))).

(** [fs::read(p)] *)
Definition data_at (p : Path) (fs : Tree) : result string string :=
  match place fs true p with
  | Some r => match fs !! r with Some (NFile d) => Ok d | Some _ => Err other_kind | None => if is_dir fs r then Err other_kind else Err no_entry end
  | None => Err no_entry
  end.
Definition read (p : Path) : M Host string string := call (fun fs => (data_at p fs, fs)).

(** [fs::write(p, d)], [File::create(p)] then writes. *)
Definition write_at (p : Path) (d : string) (fs : Tree) : result unit string * Tree :=
  match place fs true p with
  | Some r => if is_dir fs r then (Err other_kind, fs) else (Ok tt, <[r := NFile d]> fs)
  | None => (Err no_entry, fs)
  end.
Definition write (p : Path) (d : string) : M Host string unit := call (write_at p d).

(** [fs::create_dir_all(p)]: one directory after the other. *)
Fixpoint mkdirs (done : Path) (p : Path) (fs : Tree) : result unit string * Tree :=
  match p with
  | [] => (Ok tt, fs)
  | c :: p' =>
      let q := done ++ [c] in
      match place fs true q with
      | None => (Err no_entry, fs)
      | Some r =>
          if is_dir fs r then mkdirs q p' fs
          else
            match place fs false q with
            | None => (Err no_entry, fs)
            | Some r' => match fs !! r' with Some _ => (Err other_kind, fs) | None => mkdirs q p' (<[r' := NDir]> fs) end
            end
      end
  end.
Definition create_dir_all (p : Path) : M Host string unit := call (mkdirs [] p).

(** [fs::symlink_metadata(p)] *)
Definition node_at (p : Path) (fs : Tree) : option Node :=
  r ← place fs false p; if is_dir fs r then Some NDir else fs !! r.
Definition symlink_metadata (p : Path) : M Host string Node :=
  call (fun fs => (match node_at p fs with Some n => Ok n | None => Err no_entry end, fs)).

(** [fs::read_dir(p)]: the names in it. *)
Definition names_in (r : Place) (fs : Tree) : list string :=
  omap (fun q => if bool_decide (length q = S (length r)) && under r q then last q else None) (elements (dom fs)).
Definition read_dir (p : Path) : M Host string (list string) :=
  call (fun fs => (match place fs true p with
                   | Some r => if is_dir fs r then Ok (names_in r fs) else Err other_kind
                   | None => Err no_entry
                   end, fs)).

(** [fs::remove_file(p)] *)
Definition remove_file (p : Path) : M Host string unit :=
  call (fun fs => match place fs false p with
                  | Some r => match fs !! r with Some NDir => (Err other_kind, fs) | Some _ => (Ok tt, delete r fs) | None => (Err no_entry, fs) end
                  | None => (Err no_entry, fs)
                  end).

Definition prune (r : Place) (keep : Place -> bool) (fs : Tree) : Tree := filter (fun '(q, _) => under r q = false \/ keep q = true) fs.

(** [fs::remove_dir_all(p)]: a link is removed, not followed. *)
Definition remove_dir_all (p : Path) : M Host string unit := fun h =>
  let fs := h_tree h in
  let next fs' := mkHost fs' (S (h_call h)) in
  match place fs false p with
  | Some r =>
      if is_dir fs r then
        match f_err io (h_call h) with
        | Some e => (Err e, next (prune r (f_left io (h_call h)) fs))
        | None => (Ok tt, next (prune r (fun _ => false) fs))
        end
      else match fs !! r with
           | Some (NLink _) => match f_err io (h_call h) with Some e => (Err e, next fs) | None => (Ok tt, next (delete r fs)) end
           | Some _ => (Err other_kind, next fs)
           | None => (Err no_entry, next fs)
           end
  | None => (Err no_entry, next fs)
  end.

(** [fs::copy(a, b)] *)
Definition copy (a b : Path) : M Host string unit :=
  call (fun fs => match data_at a fs with Ok d => write_at b d fs | Err e => (Err e, fs) end).
End Calls.
