(* ===== verification/Oci.v ===== *)
(** * Images as root file systems (crates/sl-node/src/oci.rs)

    An image is pulled from a registry or loaded from an archive, its layers are
    flattened into a directory under the whiteout rules of OverlayFS, the guest agent is
    put in and the directory is made into a file system image, cached by the digest of
    the source.  The HTTP client, the tar and gzip readers, SHA-256 and mke2fs are
    parameters; the file system is the tree of [FileTree]. *)

From Stdlib Require Import ZArith Lia Bool List String Ascii.
From stdpp Require Import base tactics list gmap strings.
From S2P Require Import Prelude RustStr Utf8 Text Json Auth FileTree.

Open Scope Z_scope.

(** ** References *)

Record OciRef : Type := mkRef { r_registry : string; r_repo : string; r_reference : string }.

Inductive Source : Type :=
| Local (p : Path)
| Remote (r : OciRef)
| Archive (p : Path) (shown : string).

Definition canonical (r : OciRef) : string :=
  let sep := if starts_with "sha256:" (r_reference r) then "@"%string else ":"%string in
  r_registry r ++s "/" ++s r_repo r ++s sep ++s r_reference r.

(** [s.rsplit_once(c)] *)
Fixpoint rsplit_once (c : ascii) (s : string) : option (string * string) :=
  match s with
  | EmptyString => None
  | String d s' =>
      match rsplit_once c s' with
      | Some (a, b) => Some (String d a, b)
      | None => if Ascii.eqb d c then Some (""%string, s') else None
      end
  end.

Definition DOCKER_IO : string := "registry-1.docker.io".

Definition split_digest (s : string) : result (string * option string) string :=
  match split_once "@" s with
  | Some (n, d) => if starts_with "sha256:" d then Ok (n, Some d) else Err ("不支持的 digest 形式: " ++s d)
  | None => Ok (s, None)
  end.

Definition split_registry (name_tag : string) : string * string :=
  match split_once "/" name_tag with
  | Some (first, rest) =>
      if contains_char "." first || contains_char ":" first || String.eqb first "localhost" then (first, rest) else (DOCKER_IO, name_tag)
  | None => (DOCKER_IO, name_tag)
  end.

Definition split_tag (remainder : string) : string * option string :=
  match rsplit_once ":" remainder with
  | Some (r, t) => if negb (contains_char "/" t) && negb (String.eqb t "") then (r, Some t) else (remainder, None)
  | None => (remainder, None)
  end.

Definition parse_ref (s : string) : result OciRef string :=
  let s := trim s in
  if String.eqb s "" then Err "镜像引用为空"%string
  else
    match split_digest s with
    | Err e => Err e
    | Ok (name_tag, digest) =>
        let '(registry, remainder) := split_registry name_tag in
        let '(repo, tag) := match digest with Some _ => (remainder, None) | None => split_tag remainder end in
        if String.eqb repo "" then Err ("镜像引用缺少 repo: " ++s s)
        else
          let repo := if String.eqb registry DOCKER_IO && negb (contains_char "/" repo) then "library/" ++s repo else repo in
          Ok (mkRef registry repo (match digest with Some d => d | None => default "latest"%string tag end))
    end.

(** ** Parameters *)

Class OciJson `{SerdeJson} : Type := {
  varray : Value -> option (list Value);
  json_error : string -> string
}.

(** A response of the HTTP client: the body in the pieces that are read, and as text. *)
Record Response : Type := mkResponse {
  rs_status : Z;
  rs_header : string -> option string;
  rs_chunks : list (result string string);
  rs_string : result string string
}.

(** The tar reader over a possibly compressed stream. *)
Class TarCrate : Type := {
  Entry : Type;
  entries : bool -> string -> result (list (result Entry string)) string;
  entry_path : Entry -> result Path string;
  unpack_in : Entry -> Place -> Tree -> result unit string * Tree;
  unpack : bool -> string -> Place -> Tree -> result unit string * Tree
}.

Record OciEnv : Type := mkOciEnv {
  oe_io : Faults;
  oe_http : nat -> string -> option string -> option string -> result Response string;
  oe_mke2fs : Tree -> Path -> string -> result (option string) string;
  oe_envd : option string;
  oe_size : option string;
  oe_var : string -> option string;
  oe_proxy : string -> result unit string
}.

Section Ops.
Context (Sha256 : string -> string) `{OciJson} `{TarCrate} (env : OciEnv).

Notation IO := (M Host string).
Notation io := (oe_io env).

Definition lift_r {A} (r : result A string) : IO A := fun h => (r, h).
Definition or_fail {A} (o : option A) (e : string) : IO A := match o with Some a => mret a | None => mfail e end.
(** [m.map_err(|e| format!("{what}{e}"))] *)
Definition described {A} (what : string) (m : IO A) : IO A := fun h =>
  match m h with (Err e, h') => (Err (what ++s e), h') | r => r end.
(** [let _ = m;] *)
Definition ignored {A} (m : IO A) : IO unit := let? _ := mtry m in mret tt.

Definition parse_json (what data : string) : IO Value :=
  match from_slice data with Some v => mret v | None => mfail (what ++s json_error data) end.

Definition digest_of (data : string) : string := "sha256:" ++s hex (Sha256 data).

(** ** The registry *)

Definition ACCEPT_MANIFEST : string :=
  "application/vnd.oci.image.index.v1+json, application/vnd.docker.distribution.manifest.list.v2+json, application/vnd.oci.image.manifest.v1+json, application/vnd.docker.distribution.manifest.v2+json".

Definition call_lenient (url shown : string) (accept token : option string) : IO Response := fun h =>
  let h' := mkHost (h_tree h) (S (h_call h)) in
  match oe_http env (h_call h) url accept token with
  | Ok r => (Ok r, h')
  | Err t => (Err ("HTTP 传输错误 " ++s shown ++s ": " ++s t), h')
  end.

Fixpoint read_chunks (cs : list (result string string)) (acc : string) : result string string :=
  match cs with
  | [] => Ok acc
  | Ok c :: cs' => read_chunks cs' (acc ++s c)
  | Err e :: _ => Err ("读响应体失败: " ++s e)
  end.
Definition read_body (r : Response) : result string string := read_chunks (rs_chunks r) "".

Fixpoint find_at (pat s : string) : option string :=
  match strip_prefix pat s with
  | Some r => Some r
  | None => match s with EmptyString => None | String _ s' => find_at pat s' end
  end.

Definition wa_field (header key : string) : option string :=
  rest ← find_at (key ++s "=" ++s String quote "") header;
  p ← split_once quote rest; Some p.1.

Definition fetch_token (registry repo : string) : IO (option string) :=
  let? probe := call_lenient ("https://" ++s registry ++s "/v2/") "/v2/" None None in
  if rs_status probe =? 200 then mret None
  else if rs_status probe =? 401 then
    let? wa := or_fail (rs_header probe "www-authenticate") "401 响应无 WWW-Authenticate 头" in
    let? realm := or_fail (wa_field wa "realm") "challenge 缺 realm" in
    let url := realm ++s "?scope=repository:" ++s repo ++s ":pull" ++s
               match wa_field wa "service" with Some s => "&service=" ++s s | None => ""%string end in
    let? tr := call_lenient url url None None in
    if negb (rs_status tr =? 200) then mfail ("token 换取失败 status=" ++s dec (rs_status tr))
    else
      let? body := described "读 token 响应失败: " (lift_r (rs_string tr)) in
      let? v := parse_json "解析 token JSON 失败: " body in
      let? tok := or_fail (match vget v "token" with Some t => Some t | None => vget v "access_token" end ≫= vas_str)
                    "token 响应无 token/access_token 字段" in
      mret (Some tok)
  else mfail ("/v2/ 探测返回意外 status=" ++s dec (rs_status probe)).

(** [o.and_then(|v| v.get(k))] *)
Definition vsub (o : option Value) (k : string) : option Value := v ← o; vget v k.

Definition is_amd64 (m : Value) : bool :=
  String.eqb (default "" (vsub (vget m "platform") "os" ≫= vas_str)) "linux" &&
  String.eqb (default "" (vsub (vget m "platform") "architecture" ≫= vas_str)) "amd64".

Fixpoint first_amd64 (ms : list Value) : option string :=
  match ms with
  | [] => None
  | m :: ms' =>
      if is_amd64 m then match vget m "digest" ≫= vas_str with Some d => Some d | None => first_amd64 ms' end else first_amd64 ms'
  end.

Definition select_amd64 (index : Value) : IO string :=
  let? arr := or_fail (vget index "manifests" ≫= varray) "index 无 manifests" in
  or_fail (first_amd64 arr) "multi-arch index 未找到 linux/amd64（MVP 仅支持 amd64，multi-arch 为 stretch）".

Definition verify_digest (bytes digest : string) : result unit string :=
  if String.eqb (digest_of bytes) digest then Ok tt
  else Err ("blob digest 不符：期望 " ++s digest ++s " 实得 " ++s digest_of bytes ++s "（拒绝）").

(** The connected client: the reference and the token. *)
Record Client : Type := mkClient { c_reg : OciRef; c_token : option string }.

(** The first variable that is set is the one that counts, even a blank one. *)
Definition proxy_from_env : option string :=
  v ← foldr (fun k r => match oe_var env k with Some v => Some v | None => r end) None
        ["HTTPS_PROXY"%string; "https_proxy"%string; "ALL_PROXY"%string; "all_proxy"%string];
  if String.eqb (trim v) "" then None else Some (trim v).

Definition connect (reg : OciRef) : IO Client :=
  let? _ := match proxy_from_env with
            | Some purl => described ("解析代理 " ++s purl ++s " 失败: ") (lift_r (oe_proxy env purl))
            | None => mret tt
            end in
  let? token := fetch_token (r_registry reg) (r_repo reg) in mret (mkClient reg token).

Definition authed_get (c : Client) (url : string) (accept : option string) : IO Response := call_lenient url url accept (c_token c).

(** An index leads to another manifest; a registry can go on for ever, so the turns are
    bounded here: none is no answer yet. *)
Fixpoint get_manifest (turns : nat) (c : Client) (reference : string) : IO (option (string * string)) :=
  match turns with
  | O => mret None
  | S k =>
      let url := "https://" ++s r_registry (c_reg c) ++s "/v2/" ++s r_repo (c_reg c) ++s "/manifests/" ++s reference in
      let? resp := authed_get c url (Some ACCEPT_MANIFEST) in
      if negb (rs_status resp =? 200) then mfail ("取 manifest 失败 status=" ++s dec (rs_status resp) ++s " (" ++s url ++s ")")
      else
        let? bytes := lift_r (read_body resp) in
        let? v := parse_json "解析 manifest JSON 失败: " bytes in
        match vget v "manifests" ≫= varray with
        | Some _ => let? sub := select_amd64 v in get_manifest k c sub
        | None => mret (Some (bytes, default (digest_of bytes) (rs_header resp "Docker-Content-Digest")))
        end
  end.

Definition blob_url (c : Client) (digest : string) : string :=
  "https://" ++s r_registry (c_reg c) ++s "/v2/" ++s r_repo (c_reg c) ++s "/blobs/" ++s digest.

Definition get_blob_bytes (c : Client) (digest : string) : IO string :=
  let? resp := authed_get c (blob_url c digest) None in
  if negb (rs_status resp =? 200) then mfail ("取 blob 失败 status=" ++s dec (rs_status resp) ++s " (" ++s digest ++s ")")
  else
    let? bytes := lift_r (read_body resp) in
    let? _ := lift_r (verify_digest bytes digest) in
    mret bytes.

(** The pieces go to the file one by one. *)
Fixpoint write_layer (out : Path) (cs : list (result string string)) (acc : string) : IO string :=
  match cs with
  | [] => mret acc
  | Err e :: _ => mfail ("读 layer 流失败: " ++s e)
  | Ok c :: cs' =>
      let? _ := described "写 layer 临时文件失败: " (write io out (acc ++s c)) in
      write_layer out cs' (acc ++s c)
  end.

Definition get_blob_to_file (c : Client) (digest : string) (out : Path) : IO unit :=
  let? resp := authed_get c (blob_url c digest) None in
  if negb (rs_status resp =? 200) then mfail ("取 layer blob 失败 status=" ++s dec (rs_status resp) ++s " (" ++s digest ++s ")")
  else
    let? _ := described "建 layer 临时文件失败: " (write io out "") in
    let? data := write_layer out (rs_chunks resp) "" in
    if String.eqb (digest_of data) digest then mret tt
    else
      let? _ := ignored (remove_file io out) in
      mfail ("layer digest 不符：期望 " ++s digest ++s " 实得 " ++s digest_of data ++s "（拒绝）").

(** ** Flattening *)

(** Nothing but names below the stage. *)
Fixpoint safe_join (out : Path) (rel : Path) : option Path :=
  match rel with
  | [] => Some out
  | Normal s :: rel' => safe_join (out ++ [Normal s]) rel'
  | CurDir :: rel' => safe_join out rel'
  | _ => None
  end.

Definition remove_path (p : Path) : IO unit :=
  let? md := mtry (symlink_metadata io p) in
  match md with
  | Ok NDir => ignored (remove_dir_all io p)
  | Ok _ => ignored (remove_file io p)
  | Err _ => mret tt
  end.

Definition clear_dir_contents (dir : Path) : IO unit :=
  let? names := mtry (read_dir io dir) in
  match names with
  | Ok ns => mfor ns (fun n => remove_path (dir ++ [Normal n]))
  | Err _ => mret tt
  end.

Definition OPAQUE : string := ".wh..wh..opq".
Definition WHITEOUT : string := ".wh.".

Definition entry_name (path : Path) : string :=
  match file_name path with Some s => if valid_utf8 s then s else ""%string | None => ""%string end.

Definition unpack_entry (e : Entry) (stage : Path) : IO unit :=
  call io (fun fs => match place io fs true stage with Some r => unpack_in e r fs | None => (Err no_entry, fs) end).

Definition flatten_entry (stage : Path) (e : Entry) : IO unit :=
  let? path := described "读 entry 路径失败: " (lift_r (entry_path e)) in
  let fname := entry_name path in
  if String.eqb fname OPAQUE then
    match (match parent path with
           | Some (c :: p) => safe_join stage (c :: p)
           | _ => Some stage
           end) with
    | Some dir => clear_dir_contents dir
    | None => mret tt
    end
  else
    match strip_prefix WHITEOUT fname with
    | Some name =>
        match safe_join stage (path_join (default [] (parent path)) (components name)) with
        | Some target => remove_path target
        | None => mret tt
        end
    | None => described "展平 entry 失败: " (unpack_entry e stage)
    end.

Definition is_gzip (data : string) : bool := starts_with (bytes [31; 139]) data.

Definition flatten_one (stage layer : Path) : IO unit :=
  let? data := described "打开 layer 失败: " (read io layer) in
  if String.eqb data "" then mret tt
  else
    let? es := described "读 tar entries 失败: " (lift_r (entries (is_gzip data) data)) in
    mfor es (fun e => let? e := described "读 tar entry 失败: " (lift_r e) in flatten_entry stage e).

Definition flatten_layers (layers : list Path) (stage : Path) : IO unit :=
  let? _ := described "建 staging 目录失败: " (create_dir_all io stage) in
  mfor layers (flatten_one stage).

(** ** Baking *)

Definition ROOTFS_MIN_MIB : Z := 256.
Definition ENVD_REL : string := "target/x86_64-unknown-linux-musl/release/sl-envd".

Definition sl_envd_path : IO Path :=
  let p := components (default ENVD_REL (oe_envd env)) in
  let? there := exists_ io p in
  if (there : bool) then mret p else mfail "未找到 sl-envd 静态二进制".

(** Directories are not followed through links, so the tree bounds the depth. *)
Fixpoint dir_bytes (depth : nat) (dir : Path) : IO Z :=
  match depth with
  | O => mret 0
  | S k =>
      let? names := mtry (read_dir io dir) in
      match names with
      | Err _ => mret 0
      | Ok ns =>
          mfold (fun total n =>
            let? md := mtry (symlink_metadata io (dir ++ [Normal n])) in
            match md with
            | Ok NDir => let? sub := dir_bytes k (dir ++ [Normal n]) in mret (u64_add total sub)
            | Ok (NFile d) => mret (u64_add total (Z.of_nat (String.length d)))
            | _ => mret total
            end) ns 0
      end
  end.

Definition auto_rootfs_size (stage : Path) : IO string := fun h =>
  (let? bytes := dir_bytes (S (size (h_tree h))) stage in
   let mib := bytes / (1024 * 1024) in
   mret (dec (as_u64 (mib * 14) / 10 + ROOTFS_MIN_MIB) ++s "M")) h.

Definition sub (p : Path) (s : string) : Path := path_join p (components s).

Definition bake_rootfs (stage out : Path) : IO unit :=
  let? envd := sl_envd_path in
  let sbin := sub stage "sbin" in
  let? _ := described "建 sbin 失败: " (create_dir_all io sbin) in
  let envd_dst := sub sbin "sl-envd" in
  let? _ := described "装 sl-envd 失败: " (copy io envd envd_dst) in
  let? _ := described "chmod sl-envd 失败: " (call io (fun fs => (Ok tt, fs))) in
  let etc := sub stage "etc" in
  let? _ := described "建 etc 失败: " (create_dir_all io etc) in
  let? _ := described "写 hostname 失败: " (write io (sub etc "hostname") ("sandlocker-oci" ++s String "010" "")) in
  let machine_id := sub etc "machine-id" in
  let? there := exists_ io machine_id in
  let? _ := if (there : bool) then ignored (remove_file io machine_id) else mret tt in
  let? _ := mfor ["proc"%string; "sys"%string; "dev"%string; "tmp"%string] (fun d => ignored (create_dir_all io (sub stage d))) in
  let? size := match oe_size env with
               | Some s => if negb (String.eqb (trim s) "") then mret s else auto_rootfs_size stage
               | None => auto_rootfs_size stage
               end in
  let? _ := ignored (remove_file io out) in
  let? made := described "执行 mke2fs 失败（装 e2fsprogs？）: " (fun h => (oe_mke2fs env (h_tree h) stage size, h)) in
  match made with
  | Some image => write io out image
  | None => mfail ("mke2fs 失败（size=" ++s size ++s "，可 SL_OCI_ROOTFS_SIZE 调大）")
  end.

(** ** The configuration of an image *)

Record OciConfig : Type := mkConfig {
  oc_env : list (string * string);
  oc_workdir : option string;
  oc_user : option string;
  oc_cmd : list string;
  oc_entrypoint : list string
}.

Definition str_array (cfg : option Value) (key : string) : list string :=
  match vsub cfg key ≫= varray with Some a => omap vas_str a | None => [] end.

Definition nonempty (cfg : option Value) (key : string) : option string :=
  s ← (vsub cfg key ≫= vas_str); if String.eqb s "" then None else Some s.

Definition parse_config (blob : string) : result OciConfig string :=
  match from_slice blob with
  | None => Err ("解析 image config 失败: " ++s json_error blob)
  | Some v =>
      let cfg := vget v "config" in
      Ok (mkConfig (omap (fun item => kv ← vas_str item; split_once "=" kv) (default [] (vsub cfg "Env" ≫= varray)))
            (nonempty cfg "WorkingDir") (nonempty cfg "User") (str_array cfg "Cmd") (str_array cfg "Entrypoint"))
  end.

(** ** Archives *)

Record ArchiveImage : Type := mkImage { ai_layers : list Path; ai_config : string; ai_id : string }.

Definition flatten_extract_plain (tar_path dst : Path) : IO unit :=
  let? data := described "打开 tarball 失败: " (read io tar_path) in
  described "解包 tarball 失败: "
    (call io (fun fs => match place io fs true dst with Some r => unpack (is_gzip data) data r fs | None => (Err no_entry, fs) end)).

Fixpoint layer_strings (ls : list Value) : option (list string) :=
  match ls with
  | [] => Some []
  | l :: ls' => s ← vas_str l; r ← layer_strings ls'; Some (s :: r)
  end.

Definition blob_path (extract : Path) (digest : string) : Path :=
  sub (sub (sub extract "blobs") "sha256") (default digest (strip_prefix "sha256:" digest)).

Definition listed_manifest (ms : list Value) : option string :=
  match List.find (fun m => bool_decide ((vsub (vget m "platform") "architecture" ≫= vas_str) = Some "amd64"%string)) ms with
  | Some m => vget m "digest" ≫= vas_str
  | None => m ← head ms; vget m "digest" ≫= vas_str
  end.

Fixpoint layer_digests (ls : list Value) : option (list string) :=
  match ls with
  | [] => Some []
  | l :: ls' => s ← (vget l "digest" ≫= vas_str); r ← layer_digests ls'; Some (s :: r)
  end.

Definition load_oci_layout (extract : Path) : IO ArchiveImage :=
  let? bytes := described "读 index.json 失败: " (read io (sub extract "index.json")) in
  let? idx := parse_json "解析 index.json 失败: " bytes in
  let? manifests := or_fail (vget idx "manifests" ≫= varray) "index.json 无 manifests" in
  let? digest := or_fail (listed_manifest manifests) "index.json 未定位 manifest digest" in
  let? bytes := described "读 manifest blob 失败: " (read io (blob_path extract digest)) in
  let? first := parse_json "解析 manifest blob 失败: " bytes in
  let? manifest :=
    match vget first "manifests" ≫= varray with
    | Some _ =>
        let? digest := select_amd64 first in
        let? bytes := described "读子 manifest 失败: " (read io (blob_path extract digest)) in
        parse_json "解析子 manifest 失败: " bytes
    | None => mret first
    end in
  let? config_digest := or_fail (vsub (vget manifest "config") "digest" ≫= vas_str) "manifest 缺 config.digest" in
  let? config := described "读 config blob 失败: " (read io (blob_path extract config_digest)) in
  let? layers := or_fail (vget manifest "layers" ≫= varray) "manifest 缺 layers" in
  let? ds := or_fail (layer_digests layers) "layer 缺 digest" in
  mret (mkImage (map (blob_path extract) ds) config config_digest).

Definition load_archive (path work : Path) : IO ArchiveImage :=
  let extract := sub work "extract" in
  let? _ := described "建解包目录失败: " (create_dir_all io extract) in
  let? _ := flatten_extract_plain path extract in
  let dm := sub extract "manifest.json" in
  let? docker := exists_ io dm in
  if (docker : bool) then
    let? bytes := described "读 manifest.json 失败: " (read io dm) in
    let? arr := parse_json "解析 manifest.json 失败: " bytes in
    let? first := or_fail (a ← varray arr; head a) "manifest.json 数组为空" in
    let? config_rel := or_fail (vget first "Config" ≫= vas_str) "manifest.json 缺 Config" in
    let? layers := or_fail (vget first "Layers" ≫= varray) "manifest.json 缺 Layers" in
    let? config := described ("读 config " ++s config_rel ++s " 失败: ") (read io (sub extract config_rel)) in
    let? rels := or_fail (layer_strings layers) "Layers 项非字符串" in
    mret (mkImage (map (sub extract) rels) config (digest_of config))
  else
    let? layout := exists_ io (sub extract "index.json") in
    if (layout : bool) then load_oci_layout extract
    else mfail "无法识别 tarball：既无 manifest.json（docker-archive）也无 index.json（oci-archive）".

(** ** The cache and the entry points *)

Definition CACHE_ROOT : string := "build/oci-cache".
Definition BAKE_RECIPE_VER : string := "r1".

Record OciResult : Type := mkResult {
  or_source : string;
  or_digest : string;
  or_layers : nat;
  or_bytes : Z;
  or_rootfs : Path;
  or_config : OciConfig
}.

Definition bake_recipe_tag : IO string :=
  let? p := mtry sl_envd_path in
  let? b := match p with Ok p => mtry (read io p) | Err e => mret (Err e) end in
  mret (BAKE_RECIPE_VER ++s "-" ++s match b with Ok b => String.substring 0 8 (hex (Sha256 b)) | Err _ => "noenvd"%string end).

(** A cut inside a character is a panic. *)
Definition cache_dir_for (digest : string) : IO Path :=
  let short := default digest (strip_prefix "sha256:" digest) in
  let cut := String.substring 0 16 short in
  if valid_utf8 cut then
    let? tag := bake_recipe_tag in
    mret (sub (components CACHE_ROOT) (cut ++s "-" ++s tag))
  else mfail "panic: byte index 16 is not a char boundary".

Definition try_cache (source digest : string) (layers : nat) : IO (option OciResult) :=
  let? dir := cache_dir_for digest in
  let rootfs := sub dir "rootfs.ext4" in
  let? there := exists_ io rootfs in
  if negb there then mret None
  else
    let? there := exists_ io (sub dir "config.json") in
    if negb there then mret None
    else
      let? blob := mtry (read io (sub dir "config.json")) in
      match blob with
      | Err _ => mret None
      | Ok blob =>
          match parse_config blob with
          | Err _ => mret None
          | Ok config =>
              let? data := mtry (read io rootfs) in
              match data with
              | Err _ => mret None
              | Ok image => mret (Some (mkResult source digest layers (Z.of_nat (String.length image)) rootfs config))
              end
          end
      end.

Definition finish_bake (source digest config_blob : string) (layer_files : list Path) (dir : Path) : IO OciResult :=
  let stage := sub dir "stage" in
  let? _ := ignored (remove_dir_all io stage) in
  let? _ := flatten_layers layer_files stage in
  let? config := lift_r (parse_config config_blob) in
  let rootfs := sub dir "rootfs.ext4" in
  let? _ := bake_rootfs stage rootfs in
  let? _ := described "写 config.json 失败: " (write io (sub dir "config.json") config_blob) in
  let? _ := ignored (remove_dir_all io stage) in
  let? _ := ignored (remove_dir_all io (sub dir "layers")) in
  let? image := described "读 ext4 大小失败: " (read io rootfs) in
  mret (mkResult source digest (length layer_files) (Z.of_nat (String.length image)) rootfs config).

Definition layer_file (tmp : Path) (i : nat) : Path := sub tmp ("layer" ++s dec (Z.of_nat i) ++s ".tar").

Fixpoint download_layers (c : Client) (tmp : Path) (i : nat) (ds : list string) : IO (list Path) :=
  match ds with
  | [] => mret []
  | d :: ds' =>
      let? _ := get_blob_to_file c d (layer_file tmp i) in
      let? rest := download_layers c tmp (S i) ds' in
      mret (layer_file tmp i :: rest)
  end.

Definition remote_to_rootfs (turns : nat) (r : OciRef) : IO (option OciResult) :=
  let source := canonical r in
  let? client := connect r in
  let? got := get_manifest turns client (r_reference r) in
  match got with
  | None => mret None
  | Some (manifest_bytes, digest) =>
      let? manifest := parse_json "解析 manifest 失败: " manifest_bytes in
      let? layers := or_fail (vget manifest "layers" ≫= varray) "manifest 缺 layers" in
      let ds := omap (fun l => vget l "digest" ≫= vas_str) layers in
      let? hit := try_cache source digest (length ds) in
      match hit with
      | Some hit => mret (Some hit)
      | None =>
          let? config_digest := or_fail (vsub (vget manifest "config") "digest" ≫= vas_str) "manifest 缺 config.digest" in
          let? config_blob := get_blob_bytes client config_digest in
          let? dir := cache_dir_for digest in
          let? _ := described "建缓存目录失败: " (create_dir_all io dir) in
          let tmp := sub dir "layers" in
          let? _ := described "建 layer 临时目录失败: " (create_dir_all io tmp) in
          let? files := download_layers client tmp 0 ds in
          let? res := finish_bake source digest config_blob files dir in
          mret (Some res)
      end
  end.

Definition archive_to_rootfs (path : Path) (shown : string) : IO OciResult :=
  let source := "docker-archive:" ++s shown in
  let? there := exists_ io path in
  if negb there then mfail ("tarball 不存在: " ++s shown)
  else
    let staging := sub (components CACHE_ROOT) ".archive-staging" in
    let? _ := ignored (remove_dir_all io staging) in
    let? _ := described "建 archive 暂存失败: " (create_dir_all io staging) in
    let? img := load_archive path staging in
    let? hit := try_cache source (ai_id img) (length (ai_layers img)) in
    match hit with
    | Some hit => let? _ := ignored (remove_dir_all io staging) in mret hit
    | None =>
        let? dir := cache_dir_for (ai_id img) in
        let? _ := described "建缓存目录失败: " (create_dir_all io dir) in
        let? res := mtry (finish_bake source (ai_id img) (ai_config img) (ai_layers img) dir) in
        let? _ := ignored (remove_dir_all io staging) in
        lift_r res
    end.

Definition source_to_rootfs (turns : nat) (source : Source) : IO (option OciResult) :=
  match source with
  | Local _ => mfail "Local 源不走 OCI 路径"
  | Remote r => remote_to_rootfs turns r
  | Archive p shown => let? r := archive_to_rootfs p shown in mret (Some r)
  end.

(** ** Which kind of source *)

Fixpoint after_prefix (ps : list string) (s : string) : option (string * string) :=
  match ps with
  | [] => None
  | p :: ps' => match strip_prefix p s with Some r => Some (p, r) | None => after_prefix ps' s end
  end.

Definition looks_local (s : string) : bool :=
  ends_with ".ext4" s || ends_with ".img" s || starts_with "./" s || starts_with "../" s || starts_with "/" s.

Definition classify (from : string) : IO Source :=
  let s := trim from in
  if String.eqb s "" then mfail "from 为空"
  else
    match after_prefix ["docker-archive:"%string; "oci-archive:"%string] s with
    | Some (pfx, rest) => if String.eqb rest "" then mfail (pfx ++s " 后缺少 tarball 路径") else mret (Archive (components rest) rest)
    | None =>
        match after_prefix ["docker://"%string; "oci://"%string] s with
        | Some (_, rest) => let? r := lift_r (parse_ref rest) in mret (Remote r)
        | None =>
            let? there := exists_ io (components s) in
            if (there : bool) then mret (Local (components s))
            else if looks_local s then mfail ("base rootfs(from) 不存在: " ++s s)
            else let? r := lift_r (parse_ref s) in mret (Remote r)
        end
    end.
End Ops.
