(* ===== verification/OciSafety.v ===== *)
(** * What flattening an image gives

    The stage after flattening is the union that OverlayFS would show, and nothing
    outside it has changed, when no link is in the way; what links and the order of
    entries can do instead is shown by examples. *)

From Stdlib Require Import ZArith Lia Bool List String Ascii.
From stdpp Require Import base tactics list gmap strings.
From S2P Require Import Prelude RustStr Utf8 Text Json Auth HttpText FileTree Oci.

Open Scope Z_scope.

(** ** Paths in a tree without links *)

Definition normals (p : Place) : Path := map Normal p.

(** Every place on the way is a directory. *)
Fixpoint dirs_to (fs : Tree) (cur s : Place) : Prop :=
  match s with [] => True | n :: s' => fs !! (cur ++ [n]) = Some NDir /\ dirs_to fs (cur ++ [n]) s' end.

Lemma dirs_to_app fs cur a b : dirs_to fs cur (a ++ b) <-> dirs_to fs cur a /\ dirs_to fs (cur ++ a) b.
Proof.
  revert cur; induction a as [|n a IH]; intros cur; simpl; [rewrite app_nil_r; naive_solver|].
  rewrite IH, <- app_assoc. simpl. naive_solver.
Qed.

Lemma dirs_to_last fs cur s : s <> [] -> dirs_to fs cur s -> fs !! (cur ++ s) = Some NDir.
Proof. destruct s as [|x s] using rev_ind; [done|]. intros _ [_ [Hx _]]%dirs_to_app. by rewrite <- app_assoc in Hx. Qed.

Lemma walk_normal l fs f cur n p : fs !! (cur ++ [n]) = Some NDir -> walk l fs f cur (Normal n :: p) = walk l fs f (cur ++ [n]) p.
Proof. intros Hn. destruct l; simpl; by rewrite Hn. Qed.

(** Directories are entered. *)
Lemma walk_dirs l fs f s cur p : dirs_to fs cur s -> walk l fs f cur (normals s ++ p) = walk l fs f (cur ++ s) p.
Proof.
  revert cur; induction s as [|n s IH]; intros cur; [by rewrite app_nil_r|]. intros [Hn Hs].
  change (normals (n :: s) ++ p) with (Normal n :: (normals s ++ p)). by rewrite walk_normal, IH, <- app_assoc.
Qed.

Definition no_link (o : option Node) : Prop := match o with Some (NLink _) => False | _ => True end.

Lemma walk_name l fs f cur x : no_link (fs !! (cur ++ [x])) -> walk l fs f cur [Normal x] = Some (cur ++ [x]).
Proof. intros Hn. destruct l; simpl; destruct (fs !! (cur ++ [x])) as [[]|]; try done; by destruct l. Qed.

Lemma normals_app a b : normals (a ++ b) = normals a ++ normals b.
Proof. apply map_app. Qed.

Lemma walk_found l fs f cur a x : dirs_to fs cur a -> no_link (fs !! (cur ++ a ++ [x])) -> walk l fs f cur (normals (a ++ [x])) = Some (cur ++ a ++ [x]).
Proof. intros Ha Hx. rewrite normals_app, walk_dirs by done. cbn [normals map]. rewrite app_assoc in *. by apply walk_name. Qed.

(** What resolves below a directory without links is what it says. *)
Lemma walk_inv l fs f cur a x q :
  (forall b, b <> [] -> no_link (fs !! (cur ++ b))) -> walk l fs f cur (normals (a ++ [x])) = Some q -> dirs_to fs cur a /\ q = cur ++ a ++ [x].
Proof.
  revert cur; induction a as [|n a IH]; intros cur Hf.
  - cbn [app normals map]. rewrite walk_name by by apply Hf. by intros [= <-].
  - cbn [app]. change (normals (n :: a ++ [x])) with (Normal n :: normals (a ++ [x])). intros Hw.
    assert (exists y p, normals (a ++ [x]) = y :: p) as (y & p & Ey) by (destruct a; by eexists _, _).
    assert (fs !! (cur ++ [n]) = Some NDir) as Hn.
    { pose proof (Hf [n]) as Hl. rewrite Ey in Hw. destruct l; simpl in Hw; destruct (fs !! (cur ++ [n])) as [[]|]; try done; by destruct Hl. }
    rewrite walk_normal in Hw by done. apply IH in Hw as [Hd ->].
    + split; [done|]. by rewrite <- app_assoc.
    + intros b Hb. rewrite <- app_assoc. by apply Hf.
Qed.

(** ** A stage *)

Lemma under_app r p : under r (r ++ p) = true.
Proof. apply bool_decide_eq_true. by exists p. Qed.

Lemma under_self r : under r r = true.
Proof. by apply bool_decide_eq_true. Qed.

Lemma under_spec r q : under r q = true <-> exists p, q = r ++ p.
Proof. unfold under. rewrite bool_decide_eq_true. done. Qed.

(** A directory without links in it, whose nodes are all in directories. *)
Record staged (r : Place) (fs : Tree) : Prop := {
  st_dir : fs !! r = Some NDir;
  st_links : forall p, no_link (fs !! (r ++ p));
  st_closed : forall p x n, fs !! (r ++ p ++ [x]) = Some n -> fs !! (r ++ p) = Some NDir
}.

Lemma staged_dirs r fs p x n : staged r fs -> fs !! (r ++ p ++ [x]) = Some n -> dirs_to fs r p.
Proof.
  intros Hs. revert x n; induction p as [|y p IH] using rev_ind; intros x n Hn; [done|].
  apply (st_closed r fs Hs) in Hn. apply dirs_to_app. split; [by eapply IH|]. simpl. by rewrite <- app_assoc.
Qed.

(** The files of the stage. *)
Definition view (r : Place) (fs : Tree) (p : Place) : option string := match fs !! (r ++ p) with Some (NFile d) => Some d | _ => None end.

(** Two trees that differ below [r] only. *)
Definition same_outside (r : Place) (fs fs' : Tree) : Prop := forall q, under r q = false -> fs' !! q = fs !! q.

Lemma same_outside_trans r a b c : same_outside r a b -> same_outside r b c -> same_outside r a c.
Proof. intros H1 H2 q Hq. by rewrite H2, H1. Qed.

#[export] Hint Resolve st_dir st_links st_closed same_outside_trans : rust.

Lemma prune_lookup r keep fs q : prune r keep fs !! q = if under r q && negb (keep q) then None else fs !! q.
Proof.
  unfold prune. destruct (under r q && negb (keep q)) eqn:E.
  - apply map_lookup_filter_None. right. intros n _ [Hu|Hk]; bool_prop; congruence.
  - destruct (fs !! q) eqn:Eq; [|apply map_lookup_filter_None; by left]. apply map_lookup_filter_Some. split; [done|].
    apply andb_false_iff in E as [?|?%negb_false_iff]; auto.
Qed.

(** ** What the tar reader promises *)

Inductive Kind : Type :=
| KFile (data : string)
| KDir
| KOther.

(** The directories along a path, made where there is nothing. *)
Fixpoint put_dirs (r p : Place) (fs : Tree) : Tree :=
  match p with
  | [] => fs
  | n :: p' => put_dirs (r ++ [n]) p' (match fs !! (r ++ [n]) with Some _ => fs | None => <[r ++ [n] := NDir]> fs end)
  end.

(** Only directories are on the way. *)
Definition clear_way (r p : Place) (fs : Tree) : Prop :=
  forall a b, p = a ++ b -> a <> [] -> fs !! (r ++ a) = None \/ fs !! (r ++ a) = Some NDir.

(** Extraction stays below its directory; without links in the way, an extracted entry
    is there with its directories, and neither takes the place of a directory nor goes
    through a file. *)
Class TarLaws `{TarCrate} : Type := {
  entry_kind : Entry -> Kind;
  unpack_contained : forall e r fs, same_outside r fs (unpack_in e r fs).2;
  unpack_file : forall e r fs fs' a x d, staged r fs -> entry_path e = Ok (normals (a ++ [x])) -> entry_kind e = KFile d ->
    unpack_in e r fs = (Ok tt, fs') ->
    clear_way r a fs /\ fs !! (r ++ a ++ [x]) <> Some NDir /\ fs' = <[r ++ a ++ [x] := NFile d]> (put_dirs r a fs);
  unpack_dir : forall e r fs fs' a x, staged r fs -> entry_path e = Ok (normals (a ++ [x])) -> entry_kind e = KDir ->
    unpack_in e r fs = (Ok tt, fs') -> clear_way r (a ++ [x]) fs /\ fs' = put_dirs r (a ++ [x]) fs
}.

Definition strictly (a q : Place) : bool := under a q && negb (bool_decide (a = q)).

Lemma strictly_spec a q : strictly a q = true <-> exists x p, q = a ++ x :: p.
Proof.
  unfold strictly. rewrite andb_true_iff, negb_true_iff, bool_decide_eq_false, under_spec. split.
  - intros [[[|x p] ->] Hn]; [by rewrite app_nil_r in Hn|eauto].
  - intros (x & p & ->). split; [eauto|]. intros Ha. apply (f_equal length) in Ha. rewrite length_app in Ha. cbn [length] in Ha. lia.
Qed.

Lemma under_trans q w p : under q w = true -> under w p = true -> under q p = true.
Proof. unfold under. rewrite !bool_decide_eq_true. apply transitivity. Qed.

Lemma under_r r w p : under (r ++ w) (r ++ p) = under w p.
Proof.
  unfold under. apply bool_decide_ext. split; intros [k Hk]; exists k; [|by rewrite Hk, app_assoc].
  rewrite <- (app_assoc r) in Hk. by apply app_inv_head in Hk.
Qed.

Lemma strictly_r r w p : strictly (r ++ w) (r ++ p) = strictly w p.
Proof. unfold strictly. rewrite under_r. do 2 f_equal. apply bool_decide_ext. split; [apply app_inv_head|by intros ->]. Qed.

(** A place on the way below [r]. *)
Definition on_way (r p q : Place) : bool := strictly r q && under q (r ++ p).

Lemma on_way_spec r p q : on_way r p q = true <-> exists a b, p = a ++ b /\ a <> [] /\ q = r ++ a.
Proof.
  unfold on_way. rewrite andb_true_iff, strictly_spec, under_spec. split.
  - intros [(x & a & ->) [b Hb]]. rewrite <- app_assoc in Hb. apply app_inv_head in Hb. by exists (x :: a), b.
  - intros (a & b & -> & Ha & ->). destruct a as [|x a]; [done|]. split; [eauto|]. exists b. by rewrite <- app_assoc.
Qed.

Lemma put_dirs_lookup r p fs q : clear_way r p fs -> put_dirs r p fs !! q = if on_way r p q then Some NDir else fs !! q.
Proof.
  revert r fs; induction p as [|n p IH]; intros r fs Hc.
  - cbn [put_dirs]. destruct (on_way r [] q) eqn:E; [|done]. apply on_way_spec in E as (a & b & Hab & Ha & _). by destruct a.
  - cbn [put_dirs]. set (fs1 := match fs !! (r ++ [n]) with Some _ => fs | None => _ end).
    assert (forall q, fs1 !! q = if decide (q = r ++ [n]) then Some NDir else fs !! q) as H1.
    { intros q'. unfold fs1. destruct (Hc [n] p eq_refl) as [E|E]; [done| |]; rewrite E; case_decide as Eq; subst; try done.
      - apply lookup_insert_eq.
      - by rewrite lookup_insert_ne. }
    rewrite IH.
    + rewrite H1. destruct (on_way r (n :: p) q) eqn:E.
      * apply on_way_spec in E as ([|m a] & b & Hab & Ha & ->); [done|]. injection Hab as -> ->.
        destruct a as [|m' a]; [rewrite decide_True by done; by case_match|].
        replace (on_way (r ++ [m]) ((m' :: a) ++ b) (r ++ m :: m' :: a)) with true; [done|]. symmetry. apply on_way_spec.
        exists (m' :: a), b. by rewrite <- app_assoc.
      * destruct (on_way (r ++ [n]) p q) eqn:E2.
        -- apply on_way_spec in E2 as (a & b & -> & Ha & ->). apply not_true_iff_false in E. exfalso. apply E, on_way_spec.
           exists (n :: a), b. by rewrite <- app_assoc.
        -- rewrite decide_False; [done|]. intros ->. apply not_true_iff_false in E. apply E, on_way_spec. by exists [n], p.
    + intros a b -> Ha. rewrite H1, <- app_assoc. case_decide as Eq.
      * apply app_inv_head in Eq. by destruct a.
      * apply (Hc (n :: a) b); done.
Qed.

(** ** Layers as OverlayFS reads them *)

Inductive Item : Type :=
| IFile (p : Place) (d : string)
| IDir (p : Place)
| IWhite (p : Place)
| IOpaque (p : Place).

(** What a later item of the same layer takes away. *)
Definition takes (it : Item) (p : Place) : bool :=
  match it with IWhite w => under w p | IOpaque o => strictly o p | _ => false end.

(** What a layer hides of the layers below: what its markers name, what is below one of
    its files, and what is where it has directories. *)
Definition hides (it : Item) (p : Place) : bool :=
  takes it p ||
  match it with
  | IFile f _ => strictly f p || strictly p f
  | IDir d => bool_decide (p = d) || strictly p d
  | _ => false
  end.

(** The last file of the layer at a place. *)
Definition file_in (items : list Item) (p : Place) : option string :=
  fold_left (fun r it => match it with IFile f d => if bool_decide (f = p) then Some d else r | _ => r end) items None.

Definition overlay_layer (below : Place -> option string) (items : list Item) (p : Place) : option string :=
  match file_in items p with
  | Some d => Some d
  | None => if existsb (fun it => hides it p) items then None else below p
  end.

(** The union of layers, the lowest first. *)
Definition overlay (layers : list (list Item)) : Place -> option string := fold_left overlay_layer layers (fun _ => None).

Definition content (it : Item) : option Place := match it with IFile p _ | IDir p => Some p | _ => None end.

(** No marker comes after what it would take away. *)
Definition markers_first (items : list Item) : Prop :=
  forall pre it post c p, items = pre ++ it :: post -> In c pre -> content c = Some p -> takes it p = false.

(** An entry of the archive is an item of the layer. *)
Inductive reads_as `{TarLaws} (e : Entry) : Item -> Prop :=
| reads_file a x d : entry_path e = Ok (normals (a ++ [x])) -> entry_kind e = KFile d -> starts_with WHITEOUT x = false ->
    reads_as e (IFile (a ++ [x]) d)
| reads_dir a x : entry_path e = Ok (normals (a ++ [x])) -> entry_kind e = KDir -> starts_with WHITEOUT x = false ->
    reads_as e (IDir (a ++ [x]))
| reads_white a n : entry_path e = Ok (normals (a ++ [WHITEOUT ++s n])) -> valid_utf8 (WHITEOUT ++s n) = true ->
    components n = [Normal n] -> n <> ".wh..opq"%string -> reads_as e (IWhite (a ++ [n]))
| reads_opaque a : entry_path e = Ok (normals (a ++ [OPAQUE])) -> reads_as e (IOpaque a).

Lemma last_normals a x : last (normals (a ++ [x])) = Some (Normal x).
Proof. rewrite normals_app. apply last_snoc. Qed.

Lemma file_name_normals a x : file_name (normals (a ++ [x])) = Some x.
Proof. unfold file_name. by rewrite last_normals. Qed.

Lemma parent_normals a x : parent (normals (a ++ [x])) = Some (normals a).
Proof.
  unfold parent. rewrite last_normals. f_equal. rewrite normals_app, length_app. cbn [normals map length].
  apply take_app_length'. lia.
Qed.

Lemma safe_join_normals out a : safe_join out (normals a) = Some (out ++ normals a).
Proof.
  revert out; induction a as [|x a IH]; intros out; [by rewrite app_nil_r|].
  change (safe_join (out ++ [Normal x]) (normals a) = Some (out ++ Normal x :: normals a)). by rewrite IH, <- app_assoc.
Qed.

Lemma is_dir_at fs q : q <> [] -> is_dir fs q = true <-> fs !! q = Some NDir.
Proof. destruct q; [done|]. intros _. cbn [is_dir]. destruct (fs !! _) as [[]|]; naive_solver. Qed.

Lemma snoc_cases (w : Place) : w <> [] -> exists a x, w = a ++ [x].
Proof. intros Hw. destruct w as [|x a] using rev_ind; [done|]. eauto. Qed.

Section Flatten.
Context `{TarLaws} (env : OciEnv).
Context (s : Place) (Hs : s <> []) (Hquiet : forall n, f_err (oe_io env) n = None).

Notation io := (oe_io env).
Notation stage := (normals s).
Notation r := (f_cwd io ++ s).

(** The stage is reached through directories. *)
Definition reached (fs : Tree) : Prop := dirs_to fs (f_cwd io) s.

Definition good (fs : Tree) : Prop := reached fs /\ staged r fs.

Lemma call_quiet {A} (f : Tree -> result A string * Tree) h : call io f h = ((f (h_tree h)).1, mkHost (f (h_tree h)).2 (S (h_call h))).
Proof. unfold call. rewrite Hquiet. by destruct (f (h_tree h)). Qed.

Lemma place_in fs f p : reached fs -> place io fs f (stage ++ p) = walk MAX_LINKS fs f r p.
Proof. intros Hr. unfold place. by rewrite walk_dirs. Qed.

Lemma place_stage fs f : reached fs -> place io fs f stage = Some r.
Proof. intros Hr. unfold place. rewrite <- (app_nil_r stage), walk_dirs by done. reflexivity. Qed.

Lemma r_not_nil : r <> [].
Proof. intros [_ ?]%app_eq_nil. done. Qed.

(** The subtree at a place of the stage, in the three cases. *)
Lemma staged_place fs f w : good fs -> w <> [] ->
  (place io fs f (stage ++ normals w) = Some (r ++ w)) \/
  (place io fs f (stage ++ normals w) = None /\ fs !! (r ++ w) = None).
Proof.
  intros [Hr Hst] (a & x & ->)%snoc_cases. rewrite place_in by done.
  destruct (walk MAX_LINKS fs f r (normals (a ++ [x]))) as [q|] eqn:E.
  - left. f_equal. apply walk_inv in E as [_ ->]; [done|]. intros b _. by apply st_links.
  - right. split; [done|]. destruct (fs !! (r ++ a ++ [x])) eqn:En; [|done]. exfalso.
    rewrite (walk_found MAX_LINKS fs f r a x) in E; [done|by eapply staged_dirs|]. by apply st_links.
Qed.

Definition nothing_left (_ : Place) : bool := false.

Lemma staged_below fs w q : staged r fs -> fs !! (r ++ w) <> Some NDir -> q <> [] -> fs !! (r ++ w ++ q) = None.
Proof.
  intros Hst Hn. induction q as [|x q IH] using rev_ind; [done|]. intros _. destruct (fs !! (r ++ w ++ q ++ [x])) eqn:E; [|done]. exfalso.
  rewrite (app_assoc w) in E. apply (st_closed r fs Hst) in E. destruct q as [|y q]; [by rewrite app_nil_r in E|].
  by rewrite IH in E.
Qed.

Lemma prune_leaf fs w : staged r fs -> fs !! (r ++ w) <> Some NDir -> prune (r ++ w) nothing_left fs = delete (r ++ w) fs.
Proof.
  intros Hst Hn. apply map_eq. intros q. rewrite prune_lookup. cbn [nothing_left negb]. rewrite andb_true_r.
  destruct (decide (q = r ++ w)) as [->|Hq]; [|].
  { rewrite lookup_delete_eq. replace (under (r ++ w) (r ++ w)) with true; [done|]. symmetry. by apply bool_decide_eq_true. }
  rewrite lookup_delete_ne by done. destruct (under (r ++ w) q) eqn:E; [|done]. apply under_spec in E as [p ->].
  symmetry. rewrite <- app_assoc. apply staged_below; [done|done|]. intros ->. by rewrite app_nil_r in Hq.
Qed.

(** A removal takes the subtree. *)
Lemma remove_path_spec w h : good (h_tree h) -> w <> [] ->
  exists n, remove_path env (stage ++ normals w) h = (Ok tt, mkHost (prune (r ++ w) nothing_left (h_tree h)) n).
Proof.
  intros Hg Hw. destruct h as [fs c]. cbn [h_tree] in *. unfold remove_path, ignored, mbind, mtry, mret, symlink_metadata, remove_dir_all, remove_file.
  rewrite !call_quiet. cbn [h_tree h_call fst snd]. unfold node_at.
  assert (r ++ w <> []) as Hne by (intros [? _]%app_eq_nil; by apply r_not_nil).
  destruct (staged_place fs false w Hg Hw) as [E|[E En]]; rewrite E; cbn [base.mbind option_bind].
  - pose proof (st_links r fs (proj2 Hg) w) as Hl. destruct (is_dir fs (r ++ w)) eqn:Ed.
    + cbn [h_tree h_call fst snd]. rewrite E, Ed, Hquiet. by eexists.
    + assert (fs !! (r ++ w) <> Some NDir) as Hnd by (rewrite <- is_dir_at by done; congruence).
      rewrite (prune_leaf fs w (proj2 Hg) Hnd). destruct (fs !! (r ++ w)) as [[|d|t]|] eqn:En; try done.
      * rewrite call_quiet. cbn [h_tree h_call fst snd]. rewrite E, En. by eexists.
      * rewrite delete_id by done. by eexists.
  - rewrite (prune_leaf fs w (proj2 Hg)) by congruence. rewrite delete_id by done. by eexists.
Qed.

Lemma outside_below w q : under r q = false -> under (r ++ w) q = false.
Proof. intros Hq. destruct (under (r ++ w) q) eqn:E; [|done]. rewrite (under_trans r (r ++ w) q) in Hq; [done|apply under_app|done]. Qed.

(** The way to the stage is not in it. *)
Lemma reached_outside fs fs' : (forall q, under r q = false \/ q = r -> fs' !! q = fs !! q) -> reached fs -> reached fs'.
Proof.
  unfold reached. intros Ho. assert (forall a b, s = a ++ b -> dirs_to fs (f_cwd io) a -> dirs_to fs' (f_cwd io) a) as Hgen.
  { intros a. induction a as [|x a IH] using rev_ind; intros b Hab; [done|]. intros [Ha [Hx _]]%dirs_to_app. apply dirs_to_app.
    split; [apply (IH (x :: b)); [by rewrite Hab, <- app_assoc|done]|]. split; [|done]. rewrite Ho; [done|].
    destruct b as [|y b]; [right; by rewrite Hab, app_nil_r, app_assoc|]. left. destruct (under r _) eqn:E; [|done].
    apply under_spec in E as [k Hk]. rewrite <- app_assoc in Hk. apply (f_equal length) in Hk. rewrite Hab, !length_app in Hk. cbn [length] in Hk. lia. }
  intros Hr. by apply (Hgen s []); [rewrite app_nil_r|].
Qed.

(** Taking away a part of the tree that is closed downwards. *)
Lemma good_filter fs fs' (gone : Place -> bool) :
  good fs -> (forall q, fs' !! q = if gone q then None else fs !! q) -> (forall q, gone q = true -> under r q = true /\ q <> r) ->
  (forall q x, gone q = true -> gone (q ++ [x]) = true) -> good fs'.
Proof.
  intros [Hr Hst] Hq Hu Hdown. assert (gone r = false) as Hgr by (destruct (gone r) eqn:E; [|done]; by apply Hu in E as [_ ?]).
  split.
  - eapply reached_outside, Hr. intros q [Ho| ->]; rewrite Hq; [|by rewrite Hgr].
    destruct (gone q) eqn:E; [|done]. apply Hu in E as [? _]. congruence.
  - split.
    + rewrite Hq, Hgr. by apply st_dir.
    + intros p. rewrite Hq. destruct (gone (r ++ p)); [done|]. by apply st_links.
    + intros p x n. rewrite !Hq. destruct (gone (r ++ p ++ [x])) eqn:E; [done|]. intros Hn.
      destruct (gone (r ++ p)) eqn:E2; [apply (Hdown _ x) in E2; rewrite <- app_assoc in E2; congruence|]. by eapply st_closed.
Qed.

Lemma prune_good fs w : good fs -> w <> [] -> good (prune (r ++ w) nothing_left fs).
Proof.
  intros Hg Hw. eapply (good_filter fs _ (under (r ++ w)) Hg).
  - intros q. rewrite prune_lookup. cbn [nothing_left negb]. by rewrite andb_true_r.
  - intros q Hq. split; [by eapply under_trans; [apply under_app|]|]. intros ->. apply under_spec in Hq as [k Hk].
    apply (f_equal length) in Hk. rewrite !length_app in Hk. destruct w; [done|]. cbn [length] in Hk. lia.
  - intros q x Hq. eapply under_trans; [done|apply under_app].
Qed.

Lemma remove_names o ns h : good (h_tree h) ->
  exists fs' n, mfor ns (fun x => remove_path env ((stage ++ normals o) ++ [Normal x])) h = (Ok tt, mkHost fs' n) /\ good fs' /\
    forall q, fs' !! q = if existsb (fun x => under (r ++ o ++ [x]) q) ns then None else h_tree h !! q.
Proof.
  revert h; induction ns as [|x ns IH]; intros h Hg; [destruct h as [fs c]; by exists fs, c|]. cbn [mfor existsb]. unfold mbind.
  assert (o ++ [x] <> []) as Hne by by destruct o.
  destruct (remove_path_spec (o ++ [x]) h Hg Hne) as [n E]. rewrite normals_app, (app_assoc stage) in E. cbn [normals map] in E. rewrite E.
  destruct (IH (mkHost (prune (r ++ o ++ [x]) nothing_left (h_tree h)) n)) as (fs' & n' & E' & Hg' & Hq); [by apply prune_good|].
  exists fs', n'. split; [exact E'|]. split; [done|]. intros q. rewrite Hq. cbn [h_tree]. rewrite prune_lookup. cbn [nothing_left negb]. rewrite andb_true_r.
  by destruct (under (r ++ o ++ [x]) q), (existsb _ ns).
Qed.

Lemma names_in_spec q0 fs x : x ∈ names_in q0 fs <-> is_Some (fs !! (q0 ++ [x])).
Proof.
  unfold names_in. rewrite list_elem_of_omap. split.
  - intros (q & Hq & E). apply elem_of_elements, elem_of_dom in Hq. case_bool_decide as Hl; [|done]. cbn [andb] in E.
    destruct (under q0 q) eqn:Eu; [|done]. apply under_spec in Eu as [p ->]. rewrite length_app in Hl.
    destruct p as [|y [|z p]]; cbn [length] in Hl; [lia| |lia]. rewrite last_snoc in E. by injection E as ->.
  - intros Hq. exists (q0 ++ [x]). split; [by apply elem_of_elements, elem_of_dom|]. rewrite bool_decide_true by (rewrite length_app; simpl; lia).
    cbn [andb]. by rewrite under_app, last_snoc.
Qed.

(** Clearing a directory takes what is below it. *)
Lemma clear_spec o h : good (h_tree h) ->
  exists fs' n, clear_dir_contents env (stage ++ normals o) h = (Ok tt, mkHost fs' n) /\ good fs' /\
    forall q, fs' !! q = if strictly (r ++ o) q then None else h_tree h !! q.
Proof.
  intros Hg. destruct h as [fs c]. cbn [h_tree] in *. unfold clear_dir_contents, mbind, mtry, read_dir. rewrite call_quiet. cbn [h_tree h_call fst snd].
  assert (r ++ o <> []) as Hne by (intros [? _]%app_eq_nil; by apply r_not_nil).
  assert (fs !! (r ++ o) <> Some NDir -> forall q, strictly (r ++ o) q = true -> fs !! q = None) as Hnone.
  { intros Hn q (x & p & ->)%strictly_spec. rewrite <- (app_assoc r). apply staged_below; [by apply Hg|done|done]. }
  assert (place io fs true (stage ++ normals o) = Some (r ++ o) \/ place io fs true (stage ++ normals o) = None /\ fs !! (r ++ o) = None) as [E|[E En]].
  { destruct o as [|y o]; [left; cbn [normals map]; rewrite !app_nil_r; by apply place_stage, Hg|by apply staged_place]. }
  - rewrite E. destruct (is_dir fs (r ++ o)) eqn:Ed.
    + destruct (remove_names o (names_in (r ++ o) fs) (mkHost fs (S c)) Hg) as (fs' & n & E' & Hg' & Hq). exists fs', n.
      split; [exact E'|]. split; [done|]. intros q. rewrite Hq. cbn [h_tree].
      destruct (strictly (r ++ o) q) eqn:Es.
      * apply strictly_spec in Es as (x & p & ->). destruct (existsb _ _) eqn:Ex; [done|]. destruct (fs !! ((r ++ o) ++ x :: p)) eqn:Eq; [|done]. exfalso.
        apply not_true_iff_false in Ex. apply Ex, existsb_exists. exists x. split.
        -- apply list_elem_of_In, names_in_spec. destruct p as [|y p]; [by rewrite Eq|].
           destruct (snoc_cases (y :: p)) as (a & z & Ez); [done|]. rewrite Ez in Eq.
           replace ((r ++ o) ++ x :: a ++ [z]) with (r ++ (o ++ x :: a) ++ [z]) in Eq by (by rewrite <- !app_assoc).
           apply staged_dirs in Eq; [|by apply Hg]. replace (o ++ x :: a) with ((o ++ [x]) ++ a) in Eq by (by rewrite <- app_assoc).
           apply dirs_to_app in Eq as [Eq _]. apply dirs_to_last in Eq; [|by destruct o]. rewrite <- (app_assoc r). by rewrite Eq.
        -- apply under_spec. exists p. by rewrite <- !app_assoc.
      * destruct (existsb _ _) eqn:Ex; [|done]. apply existsb_exists in Ex as (x & _ & [p ->]%under_spec). exfalso.
        apply not_true_iff_false in Es. apply Es, strictly_spec. exists x, p. by rewrite <- !app_assoc.
    + exists fs, (S c). split; [done|]. split; [done|]. intros q. destruct (strictly (r ++ o) q) eqn:Es; [|done]. apply Hnone; [|done].
      rewrite <- is_dir_at by done. congruence.
  - rewrite E. exists fs, (S c). split; [done|]. split; [done|]. intros q. destruct (strictly (r ++ o) q) eqn:Es; [|done]. apply Hnone; [congruence|done].
Qed.

(** The item is there. *)
Definition present (it : Item) (fs : Tree) : Prop :=
  match it with
  | IFile p _ => exists d, fs !! (r ++ p) = Some (NFile d)
  | IDir p => fs !! (r ++ p) = Some NDir
  | _ => True
  end.

(** What an item does to the files. *)
Definition apply_item (v : Place -> option string) (it : Item) (p : Place) : option string :=
  match it with
  | IFile f d => if bool_decide (f = p) then Some d else v p
  | _ => if takes it p then None else v p
  end.

Definition done_to (it : Item) (fs fs' : Tree) : Prop :=
  good fs' /\ (forall p, view r fs' p = apply_item (view r fs) it p) /\ present it fs' /\
  forall c, present c fs -> (forall p, content c = Some p -> takes it p = false) -> present c fs'.

Lemma r_app_on_way p q : on_way r p q = true -> q <> r /\ under r q = true.
Proof.
  intros (a & b & -> & Ha & ->)%on_way_spec. split; [|apply under_app]. intros E. apply (f_equal length) in E. rewrite length_app in E.
  destruct a; [done|]. cbn [length] in E. lia.
Qed.

(** Adding a node at the end of a way of directories. *)
Lemma good_insert fs fs' a x n :
  good fs -> clear_way r a fs -> no_link (Some n) -> fs !! (r ++ a ++ [x]) <> Some NDir \/ n = NDir ->
  (forall q, fs' !! q = if bool_decide (q = r ++ a ++ [x]) then Some n else if on_way r a q then Some NDir else fs !! q) -> good fs'.
Proof.
  intros [Hr Hst] Hc Hl Hx Hq.
  assert (forall q, under r q = false \/ q = r -> fs' !! q = fs !! q) as Ho.
  { intros q Hu. rewrite Hq. assert (on_way r a q = false) as ->.
    { destruct (on_way r a q) eqn:E; [|done]. apply r_app_on_way in E as [? ?]. destruct Hu; congruence. }
    rewrite bool_decide_false; [done|]. intros ->. destruct Hu as [Hu|Hu]; [by rewrite under_app in Hu|].
    apply (f_equal length) in Hu. rewrite !length_app in Hu. cbn [length] in Hu. lia. }
  split; [by eapply reached_outside|]. split.
  - rewrite Ho by by right. by apply st_dir.
  - intros p. rewrite Hq. case_bool_decide; [done|]. destruct (on_way r a (r ++ p)); [done|]. by apply st_links.
  - intros p y m. assert (fs !! (r ++ p) = Some NDir \/ on_way r a (r ++ p) = true \/ p = [] -> fs' !! (r ++ p) = Some NDir) as Hd.
    { intros Hp. rewrite Hq. case_bool_decide as Eb.
      - destruct Hx as [Hx| ->]; [|done]. rewrite <- Eb in Hx. destruct Hp as [?|[Hp| ->]]; [done| |].
        + apply on_way_spec in Hp as (b & c & -> & Hb & Hp). rewrite Eb in Hp. apply app_inv_head, (f_equal length) in Hp.
          rewrite !length_app in Hp. cbn [length] in Hp. lia.
        + rewrite app_nil_r in Hx. by destruct Hx; apply st_dir.
      - destruct (on_way r a (r ++ p)); [done|]. destruct Hp as [?|[?| ->]]; [done|done|]. rewrite app_nil_r. by apply st_dir. }
    rewrite (Hq (r ++ p ++ [y])). case_bool_decide as Eb; [|destruct (on_way r a (r ++ p ++ [y])) eqn:Eo].
    + intros _. apply app_inv_head, app_inj_tail in Eb as [-> _]. apply Hd. destruct a as [|z a]; [by do 2 right|].
      right; left. apply on_way_spec. exists (z :: a), []. by rewrite app_nil_r.
    + intros _. apply on_way_spec in Eo as (b & c & -> & Hb & Eo). apply app_inv_head in Eo. subst b. apply Hd.
      destruct p as [|z p]; [by do 2 right|]. right; left. apply on_way_spec. exists (z :: p), ([y] ++ c). by rewrite <- app_assoc.
    + intros Hm. apply Hd. left. by eapply st_closed.
Qed.

Lemma view_other fs fs' p : fs' !! (r ++ p) = fs !! (r ++ p) -> view r fs' p = view r fs p.
Proof. intros E. unfold view. by rewrite E. Qed.

(** On a clear way there are no files. *)
Lemma way_no_file a fs p : clear_way r a fs -> on_way r a (r ++ p) = true -> fs !! (r ++ p) = None \/ fs !! (r ++ p) = Some NDir.
Proof. intros Hc (b & c & -> & Hb & Hp)%on_way_spec. rewrite Hp. by apply (Hc b c). Qed.

Lemma done_file fs a x d : good fs -> clear_way r a fs -> fs !! (r ++ a ++ [x]) <> Some NDir ->
  done_to (IFile (a ++ [x]) d) fs (<[r ++ a ++ [x] := NFile d]> (put_dirs r a fs)).
Proof.
  intros Hg Hc Hx. set (fs' := <[r ++ a ++ [x] := NFile d]> (put_dirs r a fs)).
  assert (forall q, fs' !! q = if bool_decide (q = r ++ a ++ [x]) then Some (NFile d) else if on_way r a q then Some NDir else fs !! q) as Hq.
  { intros q. unfold fs'. case_bool_decide as E; [subst q; apply lookup_insert_eq|]. rewrite lookup_insert_ne by done. by apply put_dirs_lookup. }
  split; [|split; [|split]].
  - eapply (good_insert fs fs' a x (NFile d)); auto. exact I.
  - intros p. cbn [apply_item]. unfold view. rewrite Hq. case_bool_decide as E.
    + apply app_inv_head in E. subst p. by rewrite bool_decide_true.
    + rewrite bool_decide_false by (intros <-; done). destruct (on_way r a (r ++ p)) eqn:Eo; [|done].
      by destruct (way_no_file a fs p Hc Eo) as [-> | ->].
  - exists d. rewrite Hq. by rewrite bool_decide_true.
  - intros [p d'|p|p|p] Hp _; cbn [present] in *; try done; rewrite Hq; case_bool_decide as E.
    + eauto.
    + destruct Hp as [d0 Hp]. destruct (on_way r a (r ++ p)) eqn:Eo; [|eauto]. destruct (way_no_file a fs p Hc Eo); congruence.
    + congruence.
    + by destruct (on_way r a (r ++ p)).
Qed.

Lemma on_way_snoc a x q : on_way r (a ++ [x]) q = bool_decide (q = r ++ a ++ [x]) || on_way r a q.
Proof.
  apply eq_true_iff_eq. rewrite orb_true_iff, bool_decide_eq_true, !on_way_spec. split.
  - intros (b & c & Hbc & Hb & ->). destruct c as [|z c _] using rev_ind; [left; rewrite app_nil_r in Hbc; by subst b|right].
    rewrite app_assoc in Hbc. apply app_inj_tail in Hbc as [-> _]. by exists b, c.
  - intros [-> |(b & c & -> & Hb & ->)]; [exists (a ++ [x]), []; rewrite app_nil_r; split_and!; [done|by destruct a|done]|].
    exists b, (c ++ [x]). by rewrite <- app_assoc.
Qed.

Lemma done_dir fs a x : good fs -> clear_way r (a ++ [x]) fs -> done_to (IDir (a ++ [x])) fs (put_dirs r (a ++ [x]) fs).
Proof.
  intros Hg Hc. assert (clear_way r a fs) as Ha by (intros b c -> Hb; apply (Hc b (c ++ [x])); [by rewrite <- app_assoc|done]).
  pose proof (fun q => put_dirs_lookup r (a ++ [x]) fs q Hc) as Hq.
  split; [|split; [|split]].
  - apply (good_insert fs _ a x NDir Hg Ha); [done|by right|]. intros q. rewrite Hq, on_way_snoc. by case_bool_decide.
  - intros p. cbn [apply_item takes]. unfold view. rewrite Hq. destruct (on_way r (a ++ [x]) (r ++ p)) eqn:Eo; [|done].
    by destruct (way_no_file _ fs p Hc Eo) as [-> | ->].
  - cbn [present]. by rewrite Hq, on_way_snoc, bool_decide_true.
  - intros [p d'|p|p|p] Hp _; cbn [present] in *; try done; rewrite Hq; destruct (on_way r (a ++ [x]) (r ++ p)) eqn:Eo; try done.
    destruct Hp as [d0 Hp]. destruct (way_no_file _ fs p Hc Eo); congruence.
Qed.

(** A marker takes what it names. *)
Lemma done_marker it fs fs' : good fs' -> content it = None -> (forall p, fs' !! (r ++ p) = if takes it p then None else fs !! (r ++ p)) ->
  done_to it fs fs'.
Proof.
  intros Hg Hc Hq. split; [done|]. split; [|split; [by destruct it|]].
  - intros p. assert (apply_item (view r fs) it p = if takes it p then None else view r fs p) as -> by by destruct it.
    unfold view. rewrite Hq. by destruct (takes it p).
  - intros [p d'|p|p|p] Hp Ht; cbn [present content] in *; try done; specialize (Ht p eq_refl); by rewrite Hq, Ht.
Qed.

Lemma done_white fs w : good fs -> w <> [] -> done_to (IWhite w) fs (prune (r ++ w) nothing_left fs).
Proof.
  intros Hg Hw. apply done_marker; [by apply prune_good|done|]. intros p. rewrite prune_lookup. cbn [nothing_left negb takes].
  by rewrite andb_true_r, under_r.
Qed.

Lemma done_opaque fs fs' o : good fs' -> (forall q, fs' !! q = if strictly (r ++ o) q then None else fs !! q) -> done_to (IOpaque o) fs fs'.
Proof. intros Hg Hq. apply done_marker; [done|done|]. intros p. cbn [takes]. by rewrite Hq, strictly_r. Qed.

Definition unpack_failed (m : string) : Prop := exists e, m = "展平 entry 失败: " ++s e.

Definition step_ok (it : Item) (res : result unit string) (fs fs' : Tree) : Prop :=
  same_outside r fs fs' /\ match res with Ok _ => done_to it fs fs' | Err m => unpack_failed m end.

Lemma plain_name_unpacked x : starts_with WHITEOUT x = false ->
  let fname := if valid_utf8 x then x else ""%string in String.eqb fname OPAQUE = false /\ strip_prefix WHITEOUT fname = None.
Proof.
  intros Hx. assert (forall f, strip_prefix WHITEOUT f = None -> String.eqb f OPAQUE = false) as Ho.
  { intros f Hf. apply String.eqb_neq. intros ->. discriminate Hf. }
  cbv zeta. destruct (valid_utf8 x); [|done]. unfold starts_with in Hx. destruct (strip_prefix WHITEOUT x) eqn:E; [done|]. auto.
Qed.

Lemma unpack_step e it h : good (h_tree h) -> reads_as e it -> content it <> None ->
  let '(res, h') := described "展平 entry 失败: " (unpack_entry env e stage) h in step_ok it res (h_tree h) (h_tree h').
Proof.
  intros Hg He Hc. unfold described, unpack_entry. rewrite call_quiet. rewrite (place_stage _ true (proj1 Hg)).
  pose proof (unpack_contained e r (h_tree h)) as Ho. destruct (unpack_in e r (h_tree h)) as [[[]|m] fs'] eqn:E; cbn [fst snd h_tree] in *.
  - split; [done|]. destruct He as [a x d Hp Hk Hn|a x Hp Hk Hn|a n|a]; try done.
    + destruct (unpack_file e r _ fs' a x d (proj2 Hg) Hp Hk E) as (Hw & Hx & ->). by apply done_file.
    + destruct (unpack_dir e r _ fs' a x (proj2 Hg) Hp Hk E) as (Hw & ->). by apply done_dir.
  - split; [done|]. by exists m.
Qed.

Lemma flatten_entry_spec e it h : good (h_tree h) -> reads_as e it ->
  let '(res, h') := flatten_entry env stage e h in step_ok it res (h_tree h) (h_tree h').
Proof.
  intros Hg He. pose proof He as He0. unfold flatten_entry, entry_name.
  assert (forall p, entry_path e = Ok p -> forall (k : Path -> M Host string unit), (let? path := described "读 entry 路径失败: " (lift_r (entry_path e)) in k path) h = k p h) as Hb.
  { intros p Hp k. unfold mbind, described, lift_r. by rewrite Hp. }
  destruct He as [a x d Hp Hk Hn|a x Hp Hk Hn|a n Hp Hv Hcn Hno|a Hp]; rewrite (Hb _ Hp), file_name_normals.
  - destruct (plain_name_unpacked x Hn) as [-> ->]. by apply (unpack_step e (IFile (a ++ [x]) d)).
  - destruct (plain_name_unpacked x Hn) as [-> ->]. by apply (unpack_step e (IDir (a ++ [x]))).
  - rewrite Hv. assert (String.eqb (WHITEOUT ++s n) OPAQUE = false) as ->.
    { apply String.eqb_neq. intros E. apply Hno. change OPAQUE with (WHITEOUT ++s ".wh..opq") in E. by injection E. }
    rewrite strip_prefix_app, parent_normals, Hcn.
    change (path_join (default [] (Some (normals a))) [Normal n]) with (normals a ++ normals [n]). rewrite <- normals_app, safe_join_normals.
    destruct (remove_path_spec (a ++ [n]) h Hg) as [c ->]; [by destruct a|]. cbn [h_tree]. split; [|apply done_white; [done|by destruct a]].
    intros q Hq. rewrite prune_lookup. by rewrite (outside_below (a ++ [n]) q Hq).
  - cbn [valid_utf8]. change (if valid_utf8 OPAQUE then OPAQUE else ""%string) with OPAQUE. rewrite String.eqb_refl, parent_normals.
    assert ((match Some (normals a) with Some (c :: p) => safe_join stage (c :: p) | _ => Some stage end) = Some (stage ++ normals a)) as Ej.
    { destruct a as [|x a]; [by rewrite app_nil_r|]. exact (safe_join_normals stage (x :: a)). }
    rewrite Ej. destruct (clear_spec a h Hg) as (fs' & c & -> & Hg' & Hq). cbn [h_tree]. split; [|by apply done_opaque].
    intros q Hu. rewrite Hq. destruct (strictly (r ++ a) q) eqn:Es; [|done]. unfold strictly in Es. by rewrite (outside_below a q Hu) in Es.
Qed.

(** ** Layers *)

Definition layer_done (items : list Item) (fs fs' : Tree) : Prop :=
  good fs' /\ (forall p, view r fs' p = fold_left apply_item items (view r fs) p) /\ Forall (fun it => present it fs') items.

Definition run_ok (res : result unit string) (fs fs' : Tree) (Q : Prop) : Prop :=
  same_outside r fs fs' /\ match res with Ok _ => Q | Err m => unpack_failed m end.

Lemma apply_item_ext v v' it p : (forall p, v p = v' p) -> apply_item v it p = apply_item v' it p.
Proof. intros Hv. destruct it; cbn [apply_item]; by rewrite Hv. Qed.

Lemma flatten_entries es items h : good (h_tree h) -> Forall2 reads_as es items -> markers_first items ->
  let '(res, h') := mfor (map Ok es) (fun e => let? e := described "读 tar entry 失败: " (lift_r e) in flatten_entry env stage e) h in
  run_ok res (h_tree h) (h_tree h') (layer_done items (h_tree h) (h_tree h')).
Proof.
  intros Hg Hes Hm. set (body := fun e => _).
  assert (forall e h, body (Ok e) h = flatten_entry env stage e h) as Hbody by done. clearbody body.
  revert items Hes Hm. induction es as [|e es IH] using rev_ind; intros items Hes Hm.
  { inversion Hes; subst. cbn. split; [done|]. split; [done|]. split; [done|constructor]. }
  apply Forall2_app_inv_l in Hes as (pre & l & Hpre & Hl & ->). apply Forall2_cons_inv_l in Hl as (it & l' & He & Hl' & ->). inversion Hl'; subst l'.
  assert (markers_first pre) as Hm' by (intros a c b d p -> Hin Hd; apply (Hm a c (b ++ [it]) d p); [by rewrite <- app_assoc|done|done]).
  specialize (IH pre Hpre Hm'). rewrite map_app, mfor_app. unfold mbind at 1. destruct (mfor (map Ok es) body h) as [[[]|m] h1]; [|done].
  destruct IH as (Ho & Hg1 & Hv1 & Hp1). cbn [map mfor]. unfold mbind. rewrite Hbody.
  pose proof (flatten_entry_spec e it h1 Hg1 He) as Hstep. destruct (flatten_entry env stage e h1) as [[[]|m] h2].
  - destruct Hstep as (Ho2 & Hg2 & Hv2 & Hp2 & Hkeep). cbn [mret]. split; [by eapply same_outside_trans|]. split; [done|]. split.
    + intros p. rewrite fold_left_app. cbn [fold_left]. rewrite Hv2. by apply apply_item_ext.
    + apply Forall_app. split; [|by constructor]. rewrite List.Forall_forall in *. intros c Hc. apply Hkeep; [by apply Hp1|].
      intros p Hcp. by apply (Hm pre it [] c p).
  - destruct Hstep as (Ho2 & Hf). split; [by eapply same_outside_trans|done].
Qed.

Lemma file_in_snoc items it p :
  file_in (items ++ [it]) p = match it with IFile f d => if bool_decide (f = p) then Some d else file_in items p | _ => file_in items p end.
Proof. unfold file_in. by rewrite fold_left_app. Qed.

Lemma file_in_some items p d : file_in items p = Some d -> In (IFile p d) items.
Proof.
  induction items as [|it items IH] using rev_ind; [done|]. rewrite file_in_snoc, in_app_iff. destruct it; try (intros; left; by apply IH).
  case_bool_decide as E; [|intros; left; by apply IH]. intros [= ->]. subst. right. by left.
Qed.

Lemma fold_items items v p : markers_first items ->
  fold_left apply_item items v p = match file_in items p with Some d => Some d | None => if existsb (fun it => takes it p) items then None else v p end.
Proof.
  induction items as [|it items IH] using rev_ind; intros Hm; [done|].
  rewrite fold_left_app, file_in_snoc, existsb_app. cbn [fold_left existsb]. rewrite orb_false_r.
  assert (markers_first items) as Hm' by (intros a c b d q -> Hin Hd; apply (Hm a c (b ++ [it]) d q); [by rewrite <- app_assoc|done|done]).
  specialize (IH Hm'). destruct (takes it p) eqn:Et.
  - assert (file_in items p = None) as En.
    { destruct (file_in items p) as [d|] eqn:E; [|done]. apply file_in_some in E. by rewrite (Hm items it [] (IFile p d) p) in Et. }
    rewrite orb_true_r. destruct it; try discriminate Et; cbn [apply_item]; by rewrite Et, En.
  - rewrite orb_false_r. destruct it; cbn [apply_item]; rewrite ?Et, IH; try done. by case_bool_decide.
Qed.

(** What is there excludes files above and below it. *)
Lemma present_excludes fs it p q : good fs -> present it fs -> content it = Some q ->
  match it with IFile f _ => strictly f p || strictly p f | IDir d => bool_decide (p = d) || strictly p d | _ => false end = true -> view r fs p = None.
Proof.
  intros [_ Hst] Hp Hc. assert (forall f, is_Some (fs !! (r ++ f)) -> strictly p f = true -> view r fs p = None) as Habove.
  { intros f [n Hn] (x & l & ->)%strictly_spec. unfold view. destruct (snoc_cases (x :: l)) as (a & z & Ez); [done|]. rewrite Ez in Hn.
    rewrite (app_assoc p) in Hn. apply staged_dirs in Hn; [|done]. apply dirs_to_app in Hn as [Hn _]. destruct p as [|y p].
    - rewrite app_nil_r. by rewrite (st_dir r fs Hst).
    - by rewrite (dirs_to_last fs r (y :: p)). }
  destruct it as [f d|f|f|f]; try done; cbn [present] in Hp; rewrite orb_true_iff; intros [E|E].
  - apply strictly_spec in E as (x & l & ->). unfold view. rewrite staged_below; [done|done| |done]. destruct Hp as [d' Hp]. congruence.
  - destruct Hp as [d' Hp]. eapply Habove; [|done]. by rewrite Hp.
  - apply bool_decide_eq_true in E as ->. unfold view. by rewrite Hp.
  - eapply Habove; [|done]. by rewrite Hp.
Qed.

Lemma layer_overlay items fs fs' p : layer_done items fs fs' -> markers_first items -> view r fs' p = overlay_layer (view r fs) items p.
Proof.
  intros (Hg & Hv & Hp) Hm. pose proof (Hv p) as Hvp. rewrite (fold_items items _ p Hm) in Hvp. unfold overlay_layer.
  destruct (file_in items p) as [d|]; [done|]. destruct (existsb (fun it => hides it p) items) eqn:Eh.
  - apply existsb_exists in Eh as (it & Hin & Hh). unfold hides in Hh. apply orb_true_iff in Hh as [Ht|Hh].
    + rewrite Hvp. replace (existsb _ items) with true; [done|]. symmetry. apply existsb_exists. eauto.
    + rewrite List.Forall_forall in Hp. destruct (content it) as [q|] eqn:Ec; [by eapply present_excludes; eauto|by destruct it].
  - rewrite Hvp. replace (existsb (fun it => takes it p) items) with false; [done|]. symmetry. apply not_true_iff_false. intros (it & Hin & Ht)%existsb_exists.
    apply not_true_iff_false in Eh. apply Eh, existsb_exists. exists it. split; [done|]. unfold hides. by rewrite Ht.
Qed.

(** A file, outside the stage, that holds a layer. *)
Definition holds_layer (fs : Tree) (lp : Path) (items : list Item) : Prop :=
  exists a x data es, lp = normals (a ++ [x]) /\ dirs_to fs (f_cwd io) a /\ fs !! (f_cwd io ++ a ++ [x]) = Some (NFile data) /\
    under r (f_cwd io ++ a ++ [x]) = false /\ data <> ""%string /\ entries (is_gzip data) data = Ok (map Ok es) /\ Forall2 reads_as es items.

Lemma dirs_to_outside fs fs' cur a q : same_outside r fs fs' -> under r (cur ++ a ++ q) = false -> dirs_to fs cur a -> dirs_to fs' cur a.
Proof.
  intros Ho. revert cur; induction a as [|x a IH]; intros cur Hu; [done|]. intros [Hx Ha]. split.
  - rewrite Ho; [done|]. destruct (under r (cur ++ [x])) eqn:E; [|done].
    rewrite (under_trans _ _ (cur ++ (x :: a) ++ q) E) in Hu; [done|]. apply under_spec. exists (a ++ q). by rewrite <- app_assoc.
  - apply IH; [|done]. by rewrite <- app_assoc.
Qed.

Lemma holds_layer_outside fs fs' lp items : same_outside r fs fs' -> holds_layer fs lp items -> holds_layer fs' lp items.
Proof.
  intros Ho (a & x & data & es & -> & Hd & Hf & Hu & Hrest). exists a, x, data, es. split; [done|]. split; [by eapply dirs_to_outside|].
  split; [by rewrite Ho|]. done.
Qed.

Lemma flatten_one_spec lp items h : good (h_tree h) -> holds_layer (h_tree h) lp items -> markers_first items ->
  let '(res, h') := flatten_one env stage lp h in run_ok res (h_tree h) (h_tree h') (layer_done items (h_tree h) (h_tree h')).
Proof.
  intros Hg (a & x & data & es & -> & Hd & Hf & Hu & Hne & He & Hes) Hm. unfold flatten_one, mbind, described, FileTree.read. rewrite call_quiet.
  unfold data_at, place. rewrite (walk_found MAX_LINKS _ true _ a x Hd) by by rewrite Hf. rewrite Hf. cbn [fst snd].
  rewrite (proj2 (String.eqb_neq _ _) Hne). unfold lift_r at 1. rewrite He.
  exact (flatten_entries es items (mkHost (h_tree h) (S (h_call h))) Hg Hes Hm).
Qed.

Lemma overlay_layer_ext v v' items p : (forall p, v p = v' p) -> overlay_layer v items p = overlay_layer v' items p.
Proof. intros Hv. unfold overlay_layer. destruct (file_in items p); [done|]. by rewrite Hv. Qed.

Lemma overlay_ext layers v v' p : (forall p, v p = v' p) -> fold_left overlay_layer layers v p = fold_left overlay_layer layers v' p.
Proof. revert v v'; induction layers as [|l layers IH]; intros v v' Hv; [apply Hv|]. cbn [fold_left]. apply IH. intros q. by apply overlay_layer_ext. Qed.

Lemma flatten_all lps layers h : good (h_tree h) -> Forall2 (holds_layer (h_tree h)) lps layers -> Forall markers_first layers ->
  let '(res, h') := mfor lps (flatten_one env stage) h in
  run_ok res (h_tree h) (h_tree h') (forall p, view r (h_tree h') p = fold_left overlay_layer layers (view r (h_tree h)) p).
Proof.
  revert layers h; induction lps as [|lp lps IH]; intros layers h Hg Hl Hm; inversion Hl as [|? items ? layers' Hlp Hl']; subst; [done|].
  inversion Hm as [|? ? Hmi Hm']; subst. cbn [mfor]. unfold mbind. pose proof (flatten_one_spec lp items h Hg Hlp Hmi) as Hone.
  destruct (flatten_one env stage lp h) as [[[]|m] h1]; [|done]. destruct Hone as (Ho & Hdone).
  specialize (IH layers' h1 (proj1 Hdone)). destruct (mfor lps (flatten_one env stage) h1) as [res h2].
  destruct IH as (Ho2 & Hres); [|done|].
  - eapply Forall2_impl; [exact Hl'|]. intros. by eapply holds_layer_outside.
  - split; [by eapply same_outside_trans|]. destruct res; [|done]. intros p. rewrite Hres. cbn [fold_left]. apply overlay_ext.
    intros q. by apply layer_overlay.
Qed.

Lemma mkdirs_existing fs b d rest : dirs_to fs (f_cwd io) (d ++ b) -> mkdirs io (normals d) (normals b ++ rest) fs = mkdirs io (normals (d ++ b)) rest fs.
Proof.
  revert d; induction b as [|n b IH]; intros d Hd; [by rewrite app_nil_r|].
  change (normals (n :: b) ++ rest) with (Normal n :: (normals b ++ rest)). cbn [mkdirs].
  assert (dirs_to fs (f_cwd io) (d ++ [n])) as Hdn by (apply (dirs_to_app _ _ (d ++ [n]) b); by rewrite <- app_assoc).
  change [Normal n] with (normals [n]). rewrite <- normals_app.
  assert (place io fs true (normals (d ++ [n])) = Some (f_cwd io ++ d ++ [n])) as ->.
  { unfold place. rewrite <- (app_nil_r (normals (d ++ [n]))), walk_dirs by done. reflexivity. }
  assert (is_dir fs (f_cwd io ++ d ++ [n]) = true) as ->.
  { apply is_dir_at; [intros [_ [_ ?]%app_eq_nil]%app_eq_nil; done|]. apply dirs_to_last; [by destruct d|done]. }
  rewrite (IH (d ++ [n])) by by rewrite <- app_assoc. by rewrite <- app_assoc.
Qed.

(** The parent of the stage is there, and nothing of the stage. *)
Definition fresh_stage (fs : Tree) : Prop :=
  (exists b y, s = b ++ [y] /\ dirs_to fs (f_cwd io) b) /\ forall q, under r q = true -> fs !! q = None.

Lemma stage_made fs : fresh_stage fs -> exists fs', mkdirs io [] stage fs = (Ok tt, fs') /\ good fs' /\ same_outside r fs fs' /\ forall p, view r fs' p = None.
Proof.
  intros [(b & y & Eb & Hb) Hn]. assert (fs !! r = None) as Hr by (apply Hn, under_self).
  exists (<[r := NDir]> fs). split.
  - change (@nil Component) with (normals []). rewrite Eb, normals_app, mkdirs_existing by done. cbn [app normals map mkdirs].
    assert (forall f, place io fs f (normals b ++ [Normal y]) = Some r) as Hp.
    { intros f. change [Normal y] with (normals [y]). rewrite <- normals_app. unfold place. rewrite (walk_found MAX_LINKS fs f _ b y Hb); [by rewrite Eb|].
      rewrite <- Eb. by rewrite Hr. }
    change (map Normal b) with (normals b). rewrite !Hp. destruct (is_dir fs r) eqn:Ed; [apply is_dir_at in Ed; [congruence|apply r_not_nil]|].
    by rewrite Hr, <- Eb.
  - assert (forall p, p <> [] -> (<[r := NDir]> fs : Tree) !! (r ++ p) = None) as Hin.
    { intros p Hp. rewrite lookup_insert_ne; [apply Hn, under_app|]. intros E. apply (f_equal length) in E. rewrite !length_app in E.
      destruct p; [done|]. cbn [length] in E. lia. }
    split; [|split].
    + split.
      * unfold reached. rewrite Eb. apply dirs_to_app. split; [|split; [rewrite <- app_assoc, <- Eb; apply lookup_insert_eq|done]].
        eapply (dirs_to_outside fs _ _ b []); [| |exact Hb].
        -- intros q Hq. apply lookup_insert_ne. intros <-. rewrite <- Eb, under_self in Hq. done.
        -- destruct (under r _) eqn:E; [|done]. apply under_spec in E as [k Hk]. apply (f_equal length) in Hk.
           rewrite Eb, !length_app in Hk. cbn [length] in Hk. lia.
      * split; [apply lookup_insert_eq| |].
        -- intros [|x p]; [rewrite app_nil_r; by rewrite lookup_insert_eq|]. by rewrite Hin.
        -- intros p x n. by rewrite Hin by by destruct p.
    + intros q Hq. apply lookup_insert_ne. intros <-. by rewrite under_self in Hq.
    + intros [|x p]; unfold view; [by rewrite app_nil_r, lookup_insert_eq|]. by rewrite Hin.
Qed.
End Flatten.

(** C9: flattening layers gives the union that OverlayFS would show (ADR-18).  Into a stage that is
    not there yet, from layers whose entries are files, directories, whiteouts and
    opaque markers, each marker before what it would take away: every path has the
    contents of the highest layer that has it and that no layer above hides, by a
    whiteout of it or of a directory over it, by an opaque directory over it, by a file
    over it or by a directory in its place.  Whether it succeeds or an entry cannot be
    unpacked, nothing outside the stage changes. *)
Theorem flatten_is_overlay `{TarLaws} (env : OciEnv) (s : Place) (lps : list Path) (layers : list (list Item)) (h : Host) :
  let r := f_cwd (oe_io env) ++ s in
  (forall n, f_err (oe_io env) n = None) -> s <> [] -> fresh_stage env s (h_tree h) ->
  Forall2 (holds_layer env s (h_tree h)) lps layers -> Forall markers_first layers ->
  let '(res, h') := flatten_layers env lps (normals s) h in
  same_outside r (h_tree h) (h_tree h') /\
  match res with
  | Ok _ => forall p, view r (h_tree h') p = overlay layers p
  | Err m => unpack_failed m
  end.
Proof.
  intros r Hq Hs Hf Hl Hm. destruct (stage_made env s Hs (h_tree h) Hf) as (fs1 & E1 & Hg & Ho & Hv).
  unfold flatten_layers, mbind, described, create_dir_all. rewrite (call_quiet env Hq), E1. cbn [fst snd].
  assert (Forall2 (holds_layer env s fs1) lps layers) as Hl1 by (eapply Forall2_impl; [exact Hl|]; intros; by eapply holds_layer_outside).
  pose proof (flatten_all env s Hs Hq lps layers (mkHost fs1 (S (h_call h))) Hg Hl1 Hm) as Hall.
  destruct (mfor lps (flatten_one env (normals s)) (mkHost fs1 (S (h_call h)))) as [res h']. destruct Hall as (Ho2 & Hres).
  split; [by eapply same_outside_trans|]. destruct res; [|done]. intros p. rewrite Hres. by apply overlay_ext.
Qed.

(** ** A tar reader, and examples *)

(** [markers_first] by running. *)
Fixpoint markers_after (seen : list Place) (items : list Item) : bool :=
  match items with
  | [] => true
  | it :: items' =>
      forallb (fun p => negb (takes it p)) seen && markers_after (match content it with Some p => p :: seen | None => seen end) items'
  end.

Lemma markers_after_first seen items : markers_after seen items = true ->
  forall pre it post p, items = pre ++ it :: post -> (In p seen \/ exists c, In c pre /\ content c = Some p) -> takes it p = false.
Proof.
  revert seen; induction items as [|i items IH]; intros seen Hm [|i' pre] it post p E; simplify_eq/=; bool_prop.
  - intros [Hin|(c & [] & _)]. rewrite forallb_forall in *. by apply negb_true_iff; eauto.
  - intros Hp. eapply IH; [eassumption|done|]. destruct Hp as [Hin|(c & [->|Hin] & Hc)].
    + left. destruct (content i'); [by right|done].
    + left. rewrite Hc. by left.
    + right. eauto.
Qed.

Lemma markers_first_run items : markers_after [] items = true -> markers_first items.
Proof. intros Hm pre it post c p E Hin Hc. eapply markers_after_first; eauto. Qed.

Module RefTar.
Inductive RefEntry : Type := mkEntry (path : Place) (kind : Kind) (link : option Path).

Fixpoint way_ok (r p : Place) (fs : Tree) : bool :=
  match p with
  | [] => true
  | n :: p' => match fs !! (r ++ [n]) with None | Some NDir => way_ok (r ++ [n]) p' fs | _ => false end
  end.

Lemma way_ok_clear r p fs : way_ok r p fs = true -> clear_way r p fs.
Proof.
  revert r; induction p as [|n p IH]; intros r Hw [|m a] b E Ha; try done. injection E as <- ->. cbn [way_ok] in Hw.
  assert (fs !! (r ++ [n]) = None \/ fs !! (r ++ [n]) = Some NDir) as Hn by (destruct (fs !! (r ++ [n])) as [[]|]; auto; done).
  destruct a as [|k a]; [done|].
  assert (way_ok (r ++ [n]) ((k :: a) ++ b) fs = true) as Hw' by (by destruct Hn as [E|E]; rewrite E in Hw).
  destruct (IH _ Hw' (k :: a) b eq_refl) as [E|E]; [done| |]; rewrite <- app_assoc in E; auto.
Qed.

Lemma put_dirs_outside r p fs : same_outside r fs (put_dirs r p fs).
Proof.
  revert r fs; induction p as [|n p IH]; intros r fs q Hq; [done|]. cbn [put_dirs].
  assert (under (r ++ [n]) q = false) as Hq'.
  { destruct (under (r ++ [n]) q) eqn:E; [|done]. by rewrite (under_trans r (r ++ [n]) q (under_app _ _) E) in Hq. }
  rewrite IH by done. destruct (fs !! (r ++ [n])); [done|]. apply lookup_insert_ne. intros <-. by rewrite under_self in Hq'.
Qed.

Definition node_of (k : Kind) (l : option Path) : Node := match k, l with KFile d, _ => NFile d | _, Some t => NLink t | _, _ => NDir end.

Definition extract (e : RefEntry) (r : Place) (fs : Tree) : result unit string * Tree :=
  match e with
  | mkEntry p KDir None => if way_ok r p fs then (Ok tt, put_dirs r p fs) else (Err "exists"%string, fs)
  | mkEntry p k l =>
      let a := removelast p in
      if way_ok r a fs && negb (bool_decide (fs !! (r ++ p) = Some NDir)) then (Ok tt, <[r ++ p := node_of k l]> (put_dirs r a fs))
      else (Err "exists"%string, fs)
  end.

Definition regular (e : RefEntry) : Kind := match e with mkEntry _ k None => k | mkEntry _ (KFile d) _ => KFile d | _ => KOther end.

(** Archives by name. *)
Definition archives (data : string) : list RefEntry :=
  if String.eqb data "lower" then
    [mkEntry ["app"; "keep"] (KFile "keep") None; mkEntry ["app"; "gone"] (KFile "gone") None; mkEntry ["data"; "old"] (KFile "old") None]%string
  else if String.eqb data "upper" then
    [mkEntry ["app"; ".wh.gone"] (KFile "") None; mkEntry ["data"; ".wh..wh..opq"] (KFile "") None;
     mkEntry ["data"; "fresh"] (KFile "fresh") None; mkEntry ["app"; "new"] (KFile "new") None]%string
  else if String.eqb data "late marker" then
    [mkEntry ["data"; "fresh"] (KFile "fresh") None; mkEntry ["data"; ".wh..wh..opq"] (KFile "") None]%string
  else if String.eqb data "link" then [mkEntry ["d"] KOther (Some [RootDir; Normal "home"])]%string
  else if String.eqb data "through link" then [mkEntry ["d"; ".wh..wh..opq"] (KFile "") None]%string
  else [].

#[export] Instance ref_tar : TarCrate := {|
  Entry := RefEntry;
  entries := fun _ data => Ok (map Ok (archives data));
  entry_path := fun e => match e with mkEntry p _ _ => Ok (normals p) end;
  unpack_in := extract;
  unpack := fun _ data r fs => (Ok tt, fold_left (fun fs e => (extract e r fs).2) (archives data) fs)
|}.

Lemma normals_inj a b : normals a = normals b -> a = b.
Proof. revert b; induction a as [|x a IH]; intros [|y b] E; try done. injection E as -> E. f_equal. by apply IH. Qed.

Lemma extract_contained e r fs : same_outside r fs (extract e r fs).2.
Proof.
  assert (forall p k l, same_outside r fs (let a := removelast p in
    if way_ok r a fs && negb (bool_decide (fs !! (r ++ p) = Some NDir)) then (Ok tt, <[r ++ p := node_of k l]> (put_dirs r a fs))
    else (Err "exists"%string, fs) : result unit string * Tree).2) as Hput.
  { intros p k l. cbv zeta. destruct (_ && _); [|done]. cbn [snd]. intros q Hq. rewrite lookup_insert_ne; [by apply put_dirs_outside|].
    intros <-. by rewrite under_app in Hq. }
  destruct e as [p k l]. unfold extract. destruct k; [apply Hput| |apply Hput]. destruct l; [apply Hput|].
  destruct (way_ok r p fs); [apply put_dirs_outside|done].
Qed.

#[export] Instance ref_tar_laws : TarLaws.
Proof.
  refine {| entry_kind := regular; unpack_contained := extract_contained |}.
  - intros [p k l] r fs fs' a x d _ [= Ep%normals_inj] Hk. subst p. unfold unpack_in, ref_tar, extract. assert (k = KFile d) as ->.
    { unfold regular in Hk. by destruct k, l; simplify_eq/=. }
    cbv zeta. rewrite removelast_last. destruct (way_ok r a fs) eqn:Ew; [|done]. case_bool_decide as Ed; [done|].
    intros [= <-]. split; [by apply way_ok_clear|]. by destruct l.
  - intros [p k l] r fs fs' a x _ [= Ep%normals_inj] Hk. subst p. assert (k = KDir /\ l = None) as [-> ->] by by destruct k, l.
    cbn. destruct (way_ok r (a ++ [x]) fs) eqn:Ew; [|done]. intros [= <-]. split; [by apply way_ok_clear|done].
Defined.

Lemma ref_reads_file a x d : starts_with WHITEOUT x = false -> reads_as (mkEntry (a ++ [x]) (KFile d) None) (IFile (a ++ [x]) d).
Proof. by apply reads_file. Qed.

Definition no_faults : Faults := mkFaults (fun _ => None) (fun _ _ => false) [].
Definition ref_env : OciEnv := mkOciEnv no_faults (fun _ _ _ _ => Err "no network"%string) (fun _ _ _ => Ok None) None None (fun _ => None) (fun _ => Ok tt).

Definition layers_on (l1 l2 : string) : Host :=
  mkHost {[ ["l1"%string] := NFile l1; ["l2"%string] := NFile l2; ["home"%string] := NDir; ["home"; "notes"]%string := NFile "mine" ]} 0.
End RefTar.
Import RefTar.

Notation flattened l1 l2 := (flatten_layers ref_env [normals ["l1"%string]; normals ["l2"%string]] (normals ["stage"%string]) (layers_on l1 l2)).

Definition lower_items : list Item := [IFile ["app"; "keep"] "keep"; IFile ["app"; "gone"] "gone"; IFile ["data"; "old"] "old"]%string.
Definition upper_items : list Item := [IWhite ["app"; "gone"]; IOpaque ["data"]; IFile ["data"; "fresh"] "fresh"; IFile ["app"; "new"] "new"]%string.

Lemma flatten_is_overlay_witness :
  let v := view ["stage"%string] (h_tree (flattened "lower" "upper").2) in
  is_ok (flattened "lower" "upper").1 = true /\ v ["app"; "keep"]%string = Some "keep"%string /\ v ["app"; "gone"]%string = None /\
  v ["data"; "old"]%string = None /\ v ["data"; "fresh"]%string = Some "fresh"%string.
Proof.
  assert (is_ok (flattened "lower" "upper").1 = true) as Hok by (vm_compute; reflexivity).
  assert (Forall2 (holds_layer ref_env ["stage"%string] (h_tree (layers_on "lower" "upper"))) [normals ["l1"%string]; normals ["l2"%string]] [lower_items; upper_items]) as Hl.
  { constructor; [|constructor; [|constructor]].
    - exists [], "l1"%string, "lower"%string, (archives "lower"). split_and!; [reflexivity|exact I|vm_compute; reflexivity|vm_compute; reflexivity|discriminate|reflexivity|].
      cbv [archives String.eqb Ascii.eqb Bool.eqb]. unfold lower_items, upper_items.
      constructor; [exact (ref_reads_file ["app"%string] "keep"%string "keep"%string eq_refl)|].
      constructor; [exact (ref_reads_file ["app"%string] "gone"%string "gone"%string eq_refl)|].
      constructor; [exact (ref_reads_file ["data"%string] "old"%string "old"%string eq_refl)|constructor].
    - exists [], "l2"%string, "upper"%string, (archives "upper"). split_and!; [reflexivity|exact I|vm_compute; reflexivity|vm_compute; reflexivity|discriminate|reflexivity|].
      cbv [archives String.eqb Ascii.eqb Bool.eqb]. unfold lower_items, upper_items.
      constructor; [exact (reads_white (mkEntry ["app"; ".wh.gone"]%string (KFile "") None) ["app"%string] "gone"%string eq_refl eq_refl eq_refl ltac:(done))|].
      constructor; [exact (reads_opaque (mkEntry ["data"; ".wh..wh..opq"]%string (KFile "") None) ["data"%string] eq_refl)|].
      constructor; [exact (ref_reads_file ["data"%string] "fresh"%string "fresh"%string eq_refl)|].
      constructor; [exact (ref_reads_file ["app"%string] "new"%string "new"%string eq_refl)|constructor]. }
  assert (fresh_stage ref_env ["stage"%string] (h_tree (layers_on "lower" "upper"))) as Hf.
  { split; [exists [], "stage"%string; split; [reflexivity|exact I]|]. intros q [p ->]%under_spec. cbn [layers_on h_tree]. repeat (rewrite lookup_insert_ne by done). by rewrite lookup_singleton_ne. }
  assert (Forall markers_first [lower_items; upper_items]) as Hm.
  { constructor; [|constructor; [|constructor]]; apply markers_first_run; vm_compute; reflexivity. }
  pose proof (flatten_is_overlay ref_env ["stage"%string] [normals ["l1"%string]; normals ["l2"%string]] [lower_items; upper_items]
                (layers_on "lower" "upper") (fun _ => eq_refl) ltac:(done) Hf Hl Hm) as G.
  cbv zeta. split; [exact Hok|].
  destruct (flatten_layers ref_env _ _ _) as [[[]|m] h']; [|discriminate Hok]. destruct G as [_ G]. change (f_cwd (oe_io ref_env) ++ ["stage"%string]) with ["stage"%string] in G.
  cbn [snd]. rewrite !G. vm_compute. repeat split.
Defined.

(** A layer may put a link to a directory of the host into the stage; an opaque marker of a
    later layer then empties that directory: [safe_join] looks at the text of the path
    only. *)
Lemma whiteout_follows_links :
  h_tree (layers_on "link" "through link") !! ["home"; "notes"]%string = Some (NFile "mine") /\
  is_ok (flattened "link" "through link").1 = true /\
  h_tree (flattened "link" "through link").2 !! ["home"; "notes"]%string = None.
Proof. vm_compute. repeat split. Qed.

(** An opaque marker that comes late in a layer takes the layer's own files, which the
    union shows. *)
Lemma late_marker_takes_own_layer :
  view ["stage"%string] (h_tree (flattened "lower" "late marker").2) ["data"; "fresh"]%string = None /\
  overlay [lower_items; [IFile ["data"; "fresh"]%string "fresh"; IOpaque ["data"%string]]] ["data"; "fresh"]%string = Some "fresh"%string.
Proof. vm_compute. repeat split. Qed.
