(* ===== verification/OciPull.v ===== *)
(** * What pulling an image promises

    References have one canonical form; the layers and the configuration that are
    baked have the digests that the manifest lists.  What is not checked is shown by
    examples. *)

From Stdlib Require Import ZArith Lia Bool List String Ascii.
From stdpp Require Import base tactics list gmap strings.
From S2P Require Import Prelude RustStr Utf8 Text Json Auth HttpText FileTree Oci OciSafety.

Open Scope Z_scope.

(** ** References *)

Lemma rsplit_once_some c s a b : rsplit_once c s = Some (a, b) <-> s = a ++s String c b /\ contains_char c b = false.
Proof.
  assert (forall s, rsplit_once c s = None <-> contains_char c s = false) as Hnone.
  { clear. induction s as [|d s IH]; [done|]. cbn [rsplit_once contains_char]. destruct (rsplit_once c s) as [[a b]|].
    - split; [done|]. intros [_ Hs]%orb_false_iff. by apply IH in Hs.
    - rewrite (proj1 IH eq_refl), orb_false_r, Ascii.eqb_sym. by destruct (Ascii.eqb c d). }
  revert a b; induction s as [|d s IH]; intros a b; cbn [rsplit_once].
  - split; [done|]. intros [E _]. by destruct a.
  - destruct (rsplit_once c s) as [[a' b']|] eqn:E.
    + split.
      * intros [= <- <-]. destruct (proj1 (IH a' b') eq_refl) as [-> Hb]. done.
      * intros [E' Hb]. destruct a as [|d' a].
        -- injection E' as -> ->. apply Hnone in Hb. congruence.
        -- injection E' as -> ->. assert (Some (a', b') = Some (a, b)) as [= -> ->] by (by apply IH). done.
    + apply Hnone in E. split.
      * destruct (Ascii.eqb_spec d c) as [->|]; [|done]. by intros [= <- <-].
      * intros [E' Hb]. destruct a as [|d' a]; [injection E' as -> ->; by rewrite Ascii.eqb_refl|].
        injection E' as -> ->. rewrite contains_char_app in E. cbn [contains_char] in E. by rewrite Ascii.eqb_refl, orb_true_r in E.
Qed.

Lemma split_once_none c s : split_once c s = None <-> contains_char c s = false.
Proof.
  induction s as [|d s IH]; [done|]. cbn [split_once contains_char]. rewrite (Ascii.eqb_sym c d). destruct (Ascii.eqb d c); [done|]. cbn [orb].
  destruct (split_once c s) as [[a b]|]; [|by rewrite <- IH]. split; [done|]. intros Hs. by apply IH in Hs.
Qed.

Definition qualifies (registry : string) : bool := contains_char "." registry || contains_char ":" registry || String.eqb registry "localhost".

(** References in normal form. *)
Record normal_ref (r : OciRef) : Prop := {
  nr_registry : qualifies (r_registry r) = true /\ contains_char "/" (r_registry r) = false /\ contains_char "@" (r_registry r) = false;
  nr_repo : r_repo r <> ""%string /\ contains_char "@" (r_repo r) = false /\ (r_registry r = DOCKER_IO -> contains_char "/" (r_repo r) = true);
  nr_reference : starts_with "sha256:" (r_reference r) = true \/
    (r_reference r <> ""%string /\ contains_char "/" (r_reference r) = false /\ contains_char ":" (r_reference r) = false /\ contains_char "@" (r_reference r) = false);
  nr_visible : visible (r_registry r) && visible (r_repo r) && visible (r_reference r) = true
}.

Lemma split_registry_normal r rest : normal_ref r -> split_registry (r_registry r ++s String "/" rest) = (r_registry r, rest).
Proof.
  intros [(Hq & Hs & _) _ _ _]. unfold split_registry. rewrite (proj2 (split_once_some "/" _ (r_registry r) rest)) by done.
  unfold qualifies in Hq. by rewrite Hq.
Qed.

Lemma no_colon_no_digest s : contains_char ":" s = false -> starts_with "sha256:" s = false.
Proof.
  intros Hs. destruct (starts_with "sha256:" s) eqn:E; [|done]. apply starts_with_true in E as [t ->]. discriminate Hs.
Qed.

(** The canonical text of a normal reference parses to it. *)
Lemma canonical_parse r : normal_ref r -> parse_ref (canonical r) = Ok r.
Proof.
  intros Hr. pose proof Hr as [(Hq & Hs & Ha) (Hne & Hra & Hlib) Href Hv]. apply andb_true_iff in Hv as [[Hv1 Hv2]%andb_true_iff Hv3].
  assert (visible (canonical r) = true) as Hvis.
  { unfold canonical. rewrite !visible_app, Hv1, Hv2, Hv3. by destruct (starts_with _ _). }
  unfold parse_ref. rewrite trim_id by done. assert (canonical r <> ""%string) as Hcne.
  { unfold canonical. destruct (r_registry r); done. }
  rewrite (proj2 (String.eqb_neq _ _) Hcne). unfold canonical. assert (forall repo, repo = r_repo r -> (if String.eqb (r_registry r) DOCKER_IO && negb (contains_char "/" repo) then "library/" ++s repo else repo) = r_repo r) as Hl.
  { intros repo ->. destruct (String.eqb_spec (r_registry r) DOCKER_IO) as [E|]; [|done]. by rewrite (Hlib E). }
  destruct Href as [Hd|(Hn & Ht1 & Ht2 & Ht3)].
  - rewrite Hd. unfold split_digest. rewrite (proj2 (split_once_some "@" _ (r_registry r ++s "/" ++s r_repo r) (r_reference r))).
    + rewrite Hd. change ("/" ++s r_repo r) with (String "/" (r_repo r)). rewrite split_registry_normal by done.
      rewrite (proj2 (String.eqb_neq _ _) Hne), Hl by done. by destruct r.
    + split; [by rewrite !app_assoc_s|]. rewrite !contains_char_app, Ha, Hra. done.
  - rewrite (no_colon_no_digest _ Ht2). unfold split_digest. rewrite (proj2 (split_once_none "@" _)).
    + change ("/" ++s r_repo r ++s ":" ++s r_reference r) with (String "/" (r_repo r ++s String ":" (r_reference r))). rewrite split_registry_normal by done.
      unfold split_tag. rewrite (proj2 (rsplit_once_some ":" _ (r_repo r) (r_reference r))) by done.
      rewrite Ht1, (proj2 (String.eqb_neq _ _) Hn). cbn [negb andb]. rewrite (proj2 (String.eqb_neq _ _) Hne), Hl by done. by destruct r.
    + rewrite !contains_char_app, Ha, Hra, Ht3. done.
Qed.

Lemma visible_split a c b : visible (a ++s String c b) = true -> visible a = true /\ visible b = true.
Proof. rewrite visible_app, visible_cons, !andb_true_iff. naive_solver. Qed.

Lemma split_registry_spec n : visible n = true -> contains_char "@" n = false ->
  let '(reg, rest) := split_registry n in
  qualifies reg = true /\ contains_char "/" reg = false /\ contains_char "@" reg = false /\ visible reg = true /\ visible rest = true /\ contains_char "@" rest = false.
Proof.
  intros Hv Ha. unfold split_registry. destruct (split_once "/" n) as [[f rest]|] eqn:E; [|done].
  destruct (contains_char "." f || contains_char ":" f || String.eqb f "localhost") eqn:Eq; [|done].
  apply split_once_some in E as [-> Hf]. rewrite contains_char_app in Ha. cbn [contains_char] in Ha. apply orb_false_iff in Ha as [Ha1 Ha2].
  apply visible_split in Hv as [Hv1 Hv2]. done.
Qed.

(** What [parse_ref] returns is in normal form. *)
Lemma parse_normal s r : visible s = true -> parse_ref s = Ok r -> normal_ref r.
Proof.
  intros Hv. unfold parse_ref. rewrite trim_id by done. destruct (String.eqb s ""); [done|].
  destruct (split_digest s) as [[n dg]|] eqn:Ed; [|done].
  assert (visible n = true /\ contains_char "@" n = false /\ match dg with Some d => starts_with "sha256:" d = true /\ visible d = true | None => True end) as (Hvn & Han & Hdg).
  { unfold split_digest in Ed. destruct (split_once "@" s) as [[n' d]|] eqn:E.
    - apply split_once_some in E as [-> Hn]. apply visible_split in Hv as [Hv1 Hv2]. destruct (starts_with "sha256:" d) eqn:Es; [|done]. injection Ed as <- <-. done.
    - injection Ed as <- <-. apply split_once_none in E. done. }
  pose proof (split_registry_spec n Hvn Han) as Hreg. destruct (split_registry n) as [reg rest]. destruct Hreg as (Hq & Hs & Ha & Hvr & Hvrest & Harest).
  assert (forall repo tag, (match dg with Some _ => (rest, None) | None => split_tag rest end) = (repo, tag) ->
    visible repo = true /\ contains_char "@" repo = false /\ match tag with Some t => dg = None /\ t <> ""%string /\ contains_char "/" t = false /\ contains_char ":" t = false /\ contains_char "@" t = false /\ visible t = true | None => True end) as Htag.
  { intros repo tag. destruct dg as [d|]; [by intros [= <- <-]|]. unfold split_tag. destruct (rsplit_once ":" rest) as [[a t]|] eqn:E; [|by intros [= <- <-]].
    apply rsplit_once_some in E as [-> Ht]. destruct (negb (contains_char "/" t) && negb (String.eqb t "")) eqn:Ec; [|by intros [= <- <-]].
    intros [= <- <-]. bool_prop. apply visible_split in Hvrest as [Hv1 Hv2]. rewrite contains_char_app in Harest. cbn [contains_char] in Harest.
    apply orb_false_iff in Harest as [Ha1 Ha2]. done. }
  destruct (match dg with Some _ => (rest, None) | None => split_tag rest end) as [repo tag]. destruct (Htag repo tag eq_refl) as (Hvrepo & Harepo & Ht).
  destruct (String.eqb_spec repo ""%string) as [|Hne]; [done|]. intros [= <-].
  split; cbn [r_registry r_repo r_reference].
  - done.
  - destruct (String.eqb_spec reg DOCKER_IO) as [->|Hreg]; cbn [andb]; [|done]. destruct (contains_char "/" repo) eqn:Esl; cbn [negb]; [done|].
    split; [done|]. split; [exact Harepo|reflexivity].
  - destruct dg as [d|]; [by left; apply Hdg|right]. destruct tag as [t|]; [|done]. by destruct Ht as (_ & ? & ? & ? & ? & _).
  - rewrite Hvr. assert (visible (match dg with Some d => d | None => default "latest"%string tag end) = true) as ->.
    { destruct dg; [by apply Hdg|]. destruct tag; [|done]. by apply Ht. }
    rewrite andb_true_r. cbn [andb]. destruct (_ && _); exact Hvrepo.
Qed.

(**  an image reference has one meaning however it is written.  The canonical text of what a
    reference parses to, which names the image in logs and in the manifest of the
    template, parses to the same registry, repository and tag or digest. *)
Theorem canonical_reparses (s : string) (r : OciRef) : visible s = true -> parse_ref s = Ok r -> parse_ref (canonical r) = Ok r.
Proof. intros Hv Hp. by apply canonical_parse, (parse_normal s). Qed.

Lemma canonical_reparses_witness :
  parse_ref "python:3.12-slim" = Ok (mkRef "registry-1.docker.io" "library/python" "3.12-slim") /\
  parse_ref "registry-1.docker.io/library/python:3.12-slim" = Ok (mkRef "registry-1.docker.io" "library/python" "3.12-slim").
Proof.
  assert (parse_ref "python:3.12-slim" = Ok (mkRef "registry-1.docker.io" "library/python" "3.12-slim")) as E by (vm_compute; reflexivity).
  split; [exact E|]. exact (canonical_reparses "python:3.12-slim" _ eq_refl E).
Defined.

(** ** Layers on disk *)

Definition layer_name (i : nat) : string := "layer" ++s dec (Z.of_nat i) ++s ".tar".

Lemma layer_name_inj i j : layer_name i = layer_name j -> i = j.
Proof. unfold layer_name. intros E%app_inv_head_s%app_inv_tail_s%dec_inj; lia. Qed.

Lemma layer_name_component i : components (layer_name i) = [Normal (layer_name i)].
Proof.
  unfold components. assert (contains_char "/" (layer_name i) = false) as Hs.
  { unfold layer_name. rewrite !contains_char_app, (dec_no_char "/" (Z.of_nat i)) by (lia || done). done. }
  rewrite split_no_sep by done. reflexivity.
Qed.

Lemma layer_file_place t i : layer_file (normals t) i = normals (t ++ [layer_name i]).
Proof. unfold layer_file, sub. fold (layer_name i). rewrite layer_name_component, normals_app. reflexivity. Qed.

Section Download.
Context (Sha256 : string -> string) `{OciJson} (env : OciEnv) (t : Place).
Notation io := (oe_io env).
Notation at_ i := (f_cwd io ++ t ++ [layer_name i]).

(** The directory of the layers is reached through directories, and has no directories
    or links where layers go. *)
Definition layers_dir (fs : Tree) : Prop :=
  dirs_to fs (f_cwd io) t /\ forall i, match fs !! at_ i with Some NDir | Some (NLink _) => False | _ => True end.

Lemma at_inj i j : at_ i = at_ j -> i = j.
Proof. intros E%app_inv_head%app_inv_head. apply layer_name_inj. exact (f_equal (List.hd ""%string) E). Qed.

Lemma dirs_to_insert fs cur a x b n : dirs_to fs cur a -> dirs_to (<[cur ++ a ++ x :: b := n]> fs) cur a.
Proof.
  revert cur; induction a as [|y a IH]; intros cur; [done|]. intros [Hy Ha]. split.
  - rewrite lookup_insert_ne; [done|]. intros E%app_inv_head. destruct a; discriminate E.
  - change (cur ++ (y :: a) ++ x :: b) with (cur ++ [y] ++ (a ++ x :: b)). rewrite (app_assoc cur [y]). by apply IH.
Qed.

Lemma layers_dir_insert fs i d : layers_dir fs -> layers_dir (<[at_ i := NFile d]> fs).
Proof.
  intros [Hd Hn]. split; [by apply dirs_to_insert|]. intros j. destruct (decide (i = j)) as [->|Hij]; [by rewrite lookup_insert_eq|].
  rewrite lookup_insert_ne; [apply Hn|]. intros E. by apply at_inj in E.
Qed.

Lemma layer_place fs i : layers_dir fs -> place io fs true (layer_file (normals t) i) = Some (at_ i) /\ is_dir fs (at_ i) = false.
Proof.
  intros [Hd Hn]. specialize (Hn i). rewrite layer_file_place. unfold place. split.
  - apply walk_found; [done|]. by destruct (fs !! at_ i) as [[]|].
  - destruct (is_dir fs (at_ i)) eqn:E; [|done]. apply is_dir_at in E; [by rewrite E in Hn|].
    intros [_ [_ ?]%app_eq_nil]%app_eq_nil. done.
Qed.

(** Writing a layer writes there and nowhere else, or fails. *)
Lemma write_layer_file i d h : layers_dir (h_tree h) ->
  let '(r, h') := write io (layer_file (normals t) i) d h in
  match r with Ok _ => h_tree h' = <[at_ i := NFile d]> (h_tree h) | Err _ => h_tree h' = h_tree h end.
Proof.
  intros Hl. unfold write, call, write_at. destruct (f_err io (h_call h)); [done|].
  destruct (layer_place (h_tree h) i Hl) as [-> ->]. done.
Qed.

Lemma layer_data fs i d : layers_dir fs -> fs !! at_ i = Some (NFile d) -> data_at io (layer_file (normals t) i) fs = Ok d.
Proof. intros Hl Hf. unfold data_at. destruct (layer_place fs i Hl) as [-> _]. by rewrite Hf. Qed.

(** Only the i-th layer differs. *)
Definition only_layer (i : nat) (fs fs' : Tree) : Prop := layers_dir fs' /\ forall j, i <> j -> fs' !! at_ j = fs !! at_ j.

Lemma only_layer_insert i d fs : layers_dir fs -> only_layer i fs (<[at_ i := NFile d]> fs).
Proof. intros Hl. split; [by apply layers_dir_insert|]. intros j Hij. apply lookup_insert_ne. intros E. by apply at_inj in E. Qed.

Lemma write_layer_data i cs acc data h h' :
  layers_dir (h_tree h) -> h_tree h !! at_ i = Some (NFile acc) -> write_layer env (layer_file (normals t) i) cs acc h = (Ok data, h') ->
  only_layer i (h_tree h) (h_tree h') /\ h_tree h' !! at_ i = Some (NFile data).
Proof.
  revert acc h; induction cs as [|[c|e] cs IH]; intros acc h Hl Hf; cbn [write_layer]; [by intros [= <- <-]| |done].
  unfold mbind, described. pose proof (write_layer_file i (acc ++s c) h Hl) as Hw.
  destruct (write io (layer_file (normals t) i) (acc ++s c) h) as [[[]|e] h1]; [|done]. intros Hrest.
  apply IH in Hrest as [[Hl' Ho] Hd]; [|rewrite Hw; by apply layers_dir_insert|rewrite Hw; apply lookup_insert_eq].
  split; [|done]. split; [done|]. intros j Hij. rewrite Ho by done. rewrite Hw. by apply only_layer_insert.
Qed.

Lemma blob_to_file_verified c d i h h' :
  layers_dir (h_tree h) -> get_blob_to_file Sha256 env c d (layer_file (normals t) i) h = (Ok tt, h') ->
  only_layer i (h_tree h) (h_tree h') /\ exists data, h_tree h' !! at_ i = Some (NFile data) /\ digest_of Sha256 data = d.
Proof.
  intros Hl. unfold get_blob_to_file, mbind, authed_get, call_lenient. destruct (oe_http env (h_call h) _ _ _) as [resp|e]; [|done].
  destruct (negb (rs_status resp =? 200)); [done|]. set (h0 := mkHost (h_tree h) (S (h_call h))).
  unfold described. pose proof (write_layer_file i "" h0 Hl) as Hw. destruct (write io (layer_file (normals t) i) "" h0) as [[[]|e] h1]; [|done].
  cbn [h0 h_tree] in Hw. destruct (write_layer env (layer_file (normals t) i) (rs_chunks resp) "" h1) as [[data|e] h2] eqn:E; [|done].
  apply (write_layer_data i) in E as [[Hl2 Ho2] Hd2]; [|rewrite Hw; by apply layers_dir_insert|rewrite Hw; apply lookup_insert_eq].
  destruct (String.eqb_spec (digest_of Sha256 data) d) as [Hdg|]; [|unfold ignored, mbind, mtry; by destruct (remove_file _ _ _)].
  intros [= <-]. split; [|eauto]. split; [done|]. intros j Hij. rewrite Ho2 by done. rewrite Hw. by apply only_layer_insert.
Qed.

Lemma download_verified c ds i h files h' :
  layers_dir (h_tree h) -> download_layers Sha256 env c (normals t) i ds h = (Ok files, h') ->
  layers_dir (h_tree h') /\ (forall j, (j < i)%nat -> h_tree h' !! at_ j = h_tree h !! at_ j) /\
  Forall2 (fun f d => exists data, data_at io f (h_tree h') = Ok data /\ digest_of Sha256 data = d) files ds.
Proof.
  revert i h files; induction ds as [|d ds IH]; intros i h files Hl; cbn [download_layers]; [intros [= <- <-]; by split|].
  unfold mbind. destruct (get_blob_to_file Sha256 env c d (layer_file (normals t) i) h) as [[[]|e] h1] eqn:E1; [|done].
  apply blob_to_file_verified in E1 as ((Hl1 & Ho1) & data & Hf1 & Hd1); [|done].
  destruct (download_layers Sha256 env c (normals t) (S i) ds h1) as [[rest|e] h2] eqn:E2; [|done]. intros [= <- <-].
  apply IH in E2 as (Hl2 & Ho2 & Hrest); [|done]. split; [done|]. split.
  - intros j Hj. rewrite Ho2 by lia. apply Ho1. lia.
  - constructor; [|done]. exists data. split; [|done]. apply layer_data; [done|]. rewrite Ho2 by lia. done.
Qed.
End Download.

(** C21: no unverified layer is baked.  When the layers of a manifest have been downloaded, each
    file that is going to be flattened holds, in the order of the manifest, bytes whose
    SHA-256 is the digest the manifest lists for it, however the network cut them into
    pieces and whatever else failed; and a configuration is returned only with the
    digest that was asked for. *)
Theorem layers_verified (Sha256 : string -> string) `{OciJson} (env : OciEnv) (t : Place) (c : Client) (ds : list string) (h h' : Host) (files : list Path) :
  layers_dir env t (h_tree h) ->
  download_layers Sha256 env c (normals t) 0 ds h = (Ok files, h') ->
  Forall2 (fun f d => exists data, data_at (oe_io env) f (h_tree h') = Ok data /\ digest_of Sha256 data = d) files ds /\
  forall digest h1 bytes h2, get_blob_bytes Sha256 env c digest h1 = (Ok bytes, h2) -> digest_of Sha256 bytes = digest.
Proof.
  intros Hl Hd. split; [by apply (download_verified Sha256 env t c ds 0 h files h')|].
  intros digest h1 bytes h2. unfold get_blob_bytes, mbind, authed_get, call_lenient. destruct (oe_http env (h_call h1) _ _ _) as [resp|e]; [|done].
  destruct (negb _); [done|]. unfold lift_r. destruct (read_body resp) as [b|e]; [|done]. unfold verify_digest.
  destruct (String.eqb_spec (digest_of Sha256 b) digest) as [<-|]; [|done]. by intros [= <- _].
Qed.

(** ** Examples *)

Module RefPull.
Import RefJson RefTar.

(** Arrays as objects with the keys 0, 1, ... *)
#[export] Instance ref_oci_json : OciJson := {|
  varray := fun v => match v with Some (JObj ((k, x) :: fs)) => if String.eqb k "0" then Some (map (fun '(_, x) => Some x) ((k, x) :: fs)) else None | _ => None end;
  json_error := fun _ => "expected value"%string
|}.

Definition plain_hash (s : string) : string := s.

(** A registry that answers every request with the same bytes, in two pieces. *)
Definition registry_of (a b : string) (headers : string -> option string) : OciEnv :=
  mkOciEnv no_faults (fun _ _ _ _ => Ok (mkResponse 200 headers [Ok a; Ok b] (Ok (a ++s b)))) (fun _ _ _ => Ok None) None None (fun _ => None) (fun _ => Ok tt).
Definition no_headers (_ : string) : option string := None.
Definition a_client : Client := mkClient (mkRef "registry.io" "x" "latest") None.
Definition in_w : Host := mkHost {[ ["w"%string] := NDir ]} 0.
End RefPull.
Import RefJson RefTar RefPull.

Lemma layers_verified_witness :
  let env := registry_of "ab" "c" no_headers in
  exists h' files, download_layers plain_hash env a_client (normals ["w"%string]) 0 ["sha256:616263"%string] in_w = (Ok files, h') /\
    Forall2 (fun f d => exists data, data_at (oe_io env) f (h_tree h') = Ok data /\ digest_of plain_hash data = d) files ["sha256:616263"%string].
Proof.
  cbv zeta. set (env := registry_of "ab" "c" no_headers).
  assert (is_ok (download_layers plain_hash env a_client (normals ["w"%string]) 0 ["sha256:616263"%string] in_w).1 = true) as Hok by (vm_compute; reflexivity).
  assert (layers_dir env ["w"%string] (h_tree in_w)) as Hl.
  { split; [split; [vm_compute; reflexivity|exact I]|]. intros i. cbn [in_w h_tree]. by rewrite lookup_singleton_ne. }
  destruct (download_layers plain_hash env a_client (normals ["w"%string]) 0 ["sha256:616263"%string] in_w) as [[files|e] h'] eqn:E; [|discriminate Hok].
  exists h', files. split; [exact eq_refl|]. exact (proj1 (layers_verified plain_hash env ["w"%string] a_client ["sha256:616263"%string] in_w h' files Hl E)).
Defined.

(** A manifest asked for by its digest is taken whatever its digest is. *)
Lemma manifest_not_verified :
  let m := render (JObj [("layers"%string, JObj [("0"%string, JStr "x")])]) in
  fst (get_manifest plain_hash (registry_of m "" no_headers) 1 a_client "sha256:00" in_w) = Ok (Some (m, digest_of plain_hash m)) /\
  digest_of plain_hash m <> "sha256:00"%string.
Proof. split; [vm_compute; reflexivity|discriminate]. Qed.

(** The digest that names the cache directory is the registry's text: it may lead out of the
    cache. *)
Lemma cache_dir_escapes :
  fst (cache_dir_for plain_hash (registry_of "" "" no_headers) "sha256:../../../tmp/x" in_w) =
    Ok ([Normal "build"; Normal "oci-cache"; ParentDir; ParentDir; ParentDir; Normal "tmp"; Normal "x-r1-noenvd"])%string.
Proof. vm_compute. reflexivity. Qed.

(** The blobs of an OCI archive are not compared with their digests: the image is known by
    the digest that its manifest claims for the configuration. *)
Definition a_layout : Host :=
  let obj k v := JObj [(k, v)] in
  mkHost {[ ["x"%string] := NDir; ["x"; "blobs"]%string := NDir; ["x"; "blobs"; "sha256"]%string := NDir;
            ["x"; "index.json"]%string := NFile (render (obj "manifests" (obj "0" (obj "digest" (JStr "sha256:0a")))))%string;
            ["x"; "blobs"; "sha256"; "0a"]%string :=
              NFile (render (JObj [("config", obj "digest" (JStr "sha256:0b")); ("layers", obj "0" (obj "digest" (JStr "sha256:0c")))]))%string;
            ["x"; "blobs"; "sha256"; "0b"]%string := NFile "{}" ]} 0.

Lemma archive_blobs_not_verified :
  fst (load_oci_layout (registry_of "" "" no_headers) (normals ["x"%string]) a_layout) =
    Ok (mkImage [normals ["x"; "blobs"; "sha256"; "0c"]%string] "{}" "sha256:0b") /\
  digest_of plain_hash "{}" <> "sha256:0b"%string.
Proof. split; [vm_compute; reflexivity|discriminate]. Qed.
