(* ===== verification/Envd.v ===== *)
(** * The guest agent (crates/sl-envd/src/main.rs)

    Process 1 of a microVM: it collects the exit status of every child, answers the
    requests of the host over vsock, renews the identity of a restored clone, wipes its
    key before a snapshot, and runs commands, buffered or streamed.  Its state is what
    it keeps and what it changes of the guest: files by their path, the host name, the
    clock, the seeds given to the random pool and the table of collected children.  The
    environment says which calls fail, what the kernel's random source gives, what a
    command does and which children are collected meanwhile. *)

From Stdlib Require Import ZArith Lia Bool List String Ascii.
From stdpp Require Import base tactics list gmap strings.
From S2P Require Import Prelude RustStr Utf8 Text Json Auth Proto NetLive.

Open Scope Z_scope.

(** ** Collected children *)

Record ReapedInner : Type := mkReaped { rd_map : gmap Z Z; rd_order : list Z }.

Definition REAPED_CAP : nat := 4096.
Definition reaped_new : ReapedInner := mkReaped ∅ [].

Fixpoint evict (cap : nat) (map : gmap Z Z) (order : list Z) : ReapedInner :=
  match order with
  | old :: rest => if (cap <? length order)%nat then evict cap (delete old map) rest else mkReaped map order
  | [] => mkReaped map []
  end.

(** What the collecting thread does with a child. *)
Definition reap (cap : nat) (pid status : Z) (t : ReapedInner) : ReapedInner :=
  let order := match rd_map t !! pid with None => rd_order t ++ [pid] | Some _ => rd_order t end in
  evict cap (<[pid := status]> (rd_map t)) order.

(** One look of a waiter. *)
Definition take_status (pid : Z) (t : ReapedInner) : option (Z * ReapedInner) :=
  status ← rd_map t !! pid;
  Some (status, mkReaped (delete pid (rd_map t)) (List.filter (fun p => negb (p =? pid)) (rd_order t))).

(** [later]: what is collected while it waits; none: it waits for ever. *)
Fixpoint wait_reaped (pid : Z) (later : list (Z * Z)) (t : ReapedInner) : option (Z * ReapedInner) :=
  match take_status pid t with
  | Some r => Some r
  | None => match later with [] => None | (p, st) :: later' => wait_reaped pid later' (reap REAPED_CAP p st t) end
  end.

Definition exit_code_of (status : Z) : Z :=
  let low := Z.land status 127 in
  if low =? 0 then Z.land (Z.shiftr status 8) 255
  else if low <? 127 then 128 + low
  else -1.

(** ** The guest *)

Record Guest : Type := mkGuest {
  gu_files : gmap string string;
  gu_hostname : string;
  gu_clock : option (Z * Z);
  gu_pool : list string;
  gu_reaped : ReapedInner;
  gu_calls : nat
}.

Inductive RandomRead : Type :=
| RGot (bytes : string)
| RInterrupted
| RFailed.

Record Child : Type := mkChild { ch_pid : Z; ch_out : list string; ch_err : list string; ch_later : list (Z * Z) }.

(** What a command is started with. *)
Record Command : Type := mkCommand { cm_script : string; cm_env : list (string * string); cm_cwd : option string }.

(** A server of the guest: what its reads give, what it accepts, and how many pieces from
    the host reach it before its own end closes both ways. *)
Record Peer : Type := mkPeer { pe_reads : list string; pe_sink : Sink; pe_taken : nat }.

(** For each attempt to reach a port, whether the socket is made and whether it is
    accepted; what a terminal's shell writes. *)
Record GuestEnv : Type := mkGuestEnv {
  gv_fails : nat -> option string;
  gv_random : nat -> list RandomRead;
  gv_spawn : Command -> result Child string;
  gv_is_dir : string -> bool;
  gv_connect : Z -> nat -> result (result Peer string) string;
  gv_forkpty : result (list string) string
}.

(** The agent waits for ever. *)
Inductive Stuck : Type := Waiting (pid : Z).

Section Agent.
Context (env : GuestEnv).
Notation G := (M Guest Stuck).

Definition set_files (f : gmap string string -> gmap string string) (g : Guest) : Guest :=
  mkGuest (f (gu_files g)) (gu_hostname g) (gu_clock g) (gu_pool g) (gu_reaped g) (gu_calls g).
Definition set_reaped (t : ReapedInner) (g : Guest) : Guest :=
  mkGuest (gu_files g) (gu_hostname g) (gu_clock g) (gu_pool g) t (gu_calls g).

(** A call to the system: it fails without an effect, or acts. *)
Definition sys (f : Guest -> Guest) : G bool := fun g =>
  let next g := mkGuest (gu_files g) (gu_hostname g) (gu_clock g) (gu_pool g) (gu_reaped g) (S (gu_calls g)) in
  match gv_fails env (gu_calls g) with
  | Some _ => (Ok false, next g)
  | None => (Ok true, next (f g))
  end.

Definition write_file (path content : string) : G bool := sys (set_files <[path := content]>).

(** Fills from what each call gives; what is missing stays zero. *)
Fixpoint fill (reads : list RandomRead) (need : nat) (got : string) : string :=
  match need, reads with
  | O, _ => got
  | _, RGot (String c b) :: reads' => let part := str_take need (String c b) in fill reads' (need - String.length part) (got ++s part)
  | _, RInterrupted :: reads' => fill reads' need got
  | _, _ => got ++s str_take need (be_bytes need 0)
  end.

Definition getrandom (n : nat) : G string := fun g =>
  (Ok (fill (gv_random env (gu_calls g)) n ""),
   mkGuest (gu_files g) (gu_hostname g) (gu_clock g) (gu_pool g) (gu_reaped g) (S (gu_calls g))).

Fixpoint unhex_pairs (s : string) : option string :=
  match s with
  | EmptyString => Some ""%string
  | String a (String b s') => hi ← hex_val a; lo ← hex_val b; r ← unhex_pairs s'; Some (String (byte_of (hi * 16 + lo)) r)
  | String _ EmptyString => None
  end.
Definition unhex (s : string) : option string :=
  let s := trim s in
  if Nat.odd (String.length s) then None else unhex_pairs s.

Definition SESSION_KEY : string := "/etc/sl-session-key".

(** The file is emptied by opening it. *)
Definition write_private (path content : string) : G unit :=
  let? opened := write_file path "" in
  if (opened : bool) then let? _ := write_file path content in mret tt else mret tt.

Definition line (s : string) : string := s ++s String newline "".

Definition mix_seed (seed_hex : string) : G unit :=
  match unhex seed_hex with
  | Some seed =>
      let? opened := sys (fun g => g) in
      if (opened : bool) then
        let? _ := sys (fun g => mkGuest (gu_files g) (gu_hostname g) (gu_clock g) (gu_pool g ++ [seed]) (gu_reaped g) (gu_calls g)) in mret tt
      else mret tt
  | None => mret tt
  end.

Definition run_reinit (seed_hex hostname : string) (wall_time_ns : Z) : G Response :=
  let? rng_sample := getrandom 32 in
  let rng_hex := hex rng_sample in
  let? _ := mix_seed seed_hex in
  let? mid_bytes := getrandom 16 in
  let machine_id := hex mid_bytes in
  let? _ := write_file "/etc/machine-id" (line machine_id) in
  let? _ := sys (fun g => mkGuest (gu_files g) hostname (gu_clock g) (gu_pool g) (gu_reaped g) (gu_calls g)) in
  let? _ := write_file "/etc/hostname" (line hostname) in
  let? sk_bytes := getrandom 32 in
  let session_key_hex := hex sk_bytes in
  let? _ := write_private SESSION_KEY (line session_key_hex) in
  let tv := (wall_time_ns / 1000000000, (wall_time_ns mod 1000000000) / 1000) in
  let? _ := sys (fun g => mkGuest (gu_files g) (gu_hostname g) (Some tv) (gu_pool g) (gu_reaped g) (gu_calls g)) in
  mret (ReinitDone machine_id rng_hex session_key_hex).

Fixpoint zeros (s : string) : string := match s with EmptyString => ""%string | String _ s' => String "000" (zeros s') end.

Definition wipe (content : string) : G Response :=
  let? opened := sys (fun g => g) in
  let? _ := if (opened : bool) then let? _ := write_file SESSION_KEY (zeros content) in mret tt else mret tt in
  let? _ := sys (set_files (delete SESSION_KEY)) in
  mret Acked.

Definition run_wipe_keys : G Response :=
  let? looked := sys (fun g => g) in
  fun g => match (if (looked : bool) then gu_files g !! SESSION_KEY else None) with
           | Some content => wipe content g
           | None => (Ok Acked, g)
           end.

(** ** Commands *)

Definition apply_line (cmd : Command) (l : string) : Command :=
  let l := trim l in
  if String.eqb l "" || starts_with "#" l then cmd
  else
    match split_once "=" l with
    | None => cmd
    | Some (k, v) =>
        if String.eqb k "SL_WORKDIR" then
          if negb (String.eqb v "") && gv_is_dir env v then mkCommand (cm_script cmd) (cm_env cmd) (Some v) else cmd
        else if String.eqb k "SL_USER" then cmd
        else mkCommand (cm_script cmd) (cm_env cmd ++ [(k, v)]) (cm_cwd cmd)
    end.

Definition ENV_FILE : string := "/etc/sl-envd/env".

(** A file that is not text is not read. *)
Definition apply_env_file (files : gmap string string) (cmd : Command) : Command :=
  match files !! ENV_FILE with
  | Some text => if valid_utf8 text then fold_left apply_line (lines text) cmd else cmd
  | None => cmd
  end.

Definition spawn (script : string) : G (result Child string) := fun g =>
  (Ok (gv_spawn env (apply_env_file (gu_files g) (mkCommand script [] None))), g).

Definition spawn_failed (e : string) : Response := Error ("spawn /bin/sh 失败: " ++s e ++s "（rootfs 缺 /bin/sh？）").

Definition wait_child (c : Child) : G Z := fun g =>
  match wait_reaped (ch_pid c) (ch_later c) (gu_reaped g) with
  | Some (status, t) => (Ok status, set_reaped t g)
  | None => (Err (Waiting (ch_pid c)), g)
  end.

Definition run_exec (cmd : string) : G Response :=
  let? child := spawn cmd in
  match child with
  | Err e => mret (spawn_failed e)
  | Ok c =>
      let? status := wait_child c in
      mret (ExecDone (exit_code_of status) (from_utf8_lossy (String.concat "" (ch_out c))) (from_utf8_lossy (String.concat "" (ch_err c))))
  end.

Definition dispatch (req : Request) : G Response :=
  match req with
  | Ping data => mret (Pong data)
  | Exec cmd => run_exec cmd
  | Reinit seed_hex hostname wall_time_ns => run_reinit seed_hex hostname wall_time_ns
  | WipeKeys => run_wipe_keys
  | Connect _ => mret (Error "Connect 应由 handle_conn 处理")
  | Pty _ _ => mret (Error "Pty 应由 handle_conn 处理")
  | ExecStream _ => mret (Error "ExecStream 应由 handle_conn 处理")
  end.

(** ** Connections *)

Definition write_frame_fd (payload : string) : M Sink IoError unit :=
  let? _ := write_all (be_bytes 4 (as_u32 (Z.of_nat (String.length payload)))) in
  write_all payload.

(** Which pipe a piece came from. *)
Inductive Pipe : Type := POut | PErr.

Definition piece_frame (p : Pipe * string) : string :=
  match p with (POut, b) => exec_stdout_frame b | (PErr, b) => exec_stderr_frame b end.

(** The two forwarders, in the order in which they take the lock; one whose write failed
    goes on reading and drops what it reads. *)
Fixpoint forward (pieces : list (Pipe * string)) (out_alive err_alive : bool) (sk : Sink) : Sink :=
  match pieces with
  | [] => sk
  | p :: ps =>
      let alive := match p.1 with POut => out_alive | PErr => err_alive end in
      if alive then
        let '(r, sk') := write_frame_fd (piece_frame p) sk in
        forward ps (match p.1 with POut => is_ok r | PErr => out_alive end) (match p.1 with PErr => is_ok r | POut => err_alive end) sk'
      else forward ps out_alive err_alive sk
  end.

Context `{Serde Response} `{Serde Request}.

(** [order]: how the pieces of the pipes fall. *)
Definition handle_exec_stream (order : Child -> list (Pipe * string)) (cmd : string) : M (Guest * Sink) Stuck unit := fun '(g, sk) =>
  match spawn cmd g with
  | (Err e, g') => (Err e, (g', sk))
  | (Ok (Err e), g') => (Ok tt, (g', (write_msg (spawn_failed e) sk).2))
  | (Ok (Ok c), g') =>
      let '(ack, sk1) := write_msg Acked sk in
      match ack with
      | Err _ => match wait_child c g' with (Err e, g'') => (Err e, (g'', sk1)) | (Ok _, g'') => (Ok tt, (g'', sk1)) end
      | Ok _ =>
          let sk2 := forward (order c) true true sk1 in
          match wait_child c g' with
          | (Err e, g'') => (Err e, (g'', sk2))
          | (Ok status, g'') => (Ok tt, (g'', (write_frame_fd (exec_exit_frame (exit_code_of status)) sk2).2))
          end
      end
  end.

(** ** Tunnels and terminals *)

(** What one direction copies until the reader ends or the writer fails. *)
Fixpoint pipe_one (reads : list string) (to : Sink) : Sink :=
  match reads with
  | [] | EmptyString :: _ => to
  | b :: reads' => match write_all b to with (Ok _, to') => pipe_one reads' to' | (Err _, to') => to' end
  end.

(** The reads of a buffer of 16384 bytes. *)
Fixpoint reads_of (turns : nat) (s : string) : list string :=
  match turns, s with
  | S k, String _ _ => str_take 16384 s :: reads_of k (str_drop 16384 s)
  | _, _ => []
  end.

Fixpoint dial_tries (tries : nat) (last : string) (connects : nat -> result (result Peer string) string) : result Peer string :=
  match tries with
  | O => Err last
  | S k =>
      match connects (20 - tries)%nat with
      | Err e => Err e
      | Ok (Ok fd) => Ok fd
      | Ok (Err e) => dial_tries k e connects
      end
  end.
Definition dial_loopback (port : Z) : result Peer string := dial_tries 20 "no attempt" (gv_connect env (as_u16 port)).

(** The two directions: what the server has been given, and what the host has. *)
Definition splice_bidi (input : string) (vsock : Sink) (tcp : Peer) : Sink * Sink :=
  (pipe_one (take (pe_taken tcp) (reads_of (String.length input) input)) (pe_sink tcp), pipe_one (pe_reads tcp) vsock).

(** None: no tunnel was made. *)
Definition handle_connect (port : Z) (input : string) (sk : Sink) : option Sink * Sink :=
  match dial_loopback port with
  | Err e => (None, (write_msg (Error ("connect 127.0.0.1:" ++s dec port ++s " 失败: " ++s e)) sk).2)
  | Ok tcp =>
      match write_msg Acked sk with
      | (Err _, sk') => (None, sk')
      | (Ok _, sk') => let '(given, sk'') := splice_bidi input sk' tcp in (Some given, sk'')
      end
  end.

(** What the frames of a terminal do to its master side. *)
Record Master : Type := mkMaster { ms_typed : string; ms_size : Z * Z }.

Definition pty_input (m : Master) (payload : string) : Master :=
  match parse_pty_input payload with
  | Some (Stdin data) => mkMaster (ms_typed m ++s data) (ms_size m)
  | Some (Resize cols rows) => mkMaster (ms_typed m) (cols, rows)
  | None => m
  end.

(** The shell reads all that is typed; its output goes to the host as it is. *)
Definition handle_pty (cols rows : Z) (input : string) (sk : Sink) : option Master * Sink :=
  match gv_forkpty env with
  | Err e => (None, (write_msg (Error ("forkpty 失败: " ++s e)) sk).2)
  | Ok out =>
      match write_msg Acked sk with
      | (Err _, sk') => (None, sk')
      | (Ok _, sk') => (Some (fold_left pty_input (read_all input).1 (mkMaster "" (cols, rows))), pipe_one out sk')
      end
  end.

(** ** The connection *)

(** What becomes of a connection. *)
Inductive ConnEnd : Type :=
| Closed
| ReadFailed (e : IoError)
| WriteFailed (e : IoError)
| Tunnel (given : option Sink)
| Terminal (m : option Master)
| Streamed (cmd : string).

(** Every request takes four bytes at least, so the length bounds the turns. *)
Fixpoint handle_conn (turns : nat) (order : Child -> list (Pipe * string)) : M (Guest * string * Sink) Stuck ConnEnd := fun '(g, input, sk) =>
  match turns with
  | O => (Ok Closed, (g, input, sk))
  | S k =>
      match (read_msg : M string IoError Request) input with
      | (Err e, input') =>
          (Ok (match io_kind e with UnexpectedEof => Closed | _ => ReadFailed e end), (g, input', sk))
      | (Ok (Connect port), input') => let '(given, sk') := handle_connect port input' sk in (Ok (Tunnel given), (g, ""%string, sk'))
      | (Ok (Pty cols rows), input') => let '(m, sk') := handle_pty cols rows input' sk in (Ok (Terminal m), (g, ""%string, sk'))
      | (Ok (ExecStream cmd), input') =>
          match handle_exec_stream order cmd (g, sk) with
          | (Ok _, (g', sk')) => (Ok (Streamed cmd), (g', input', sk'))
          | (Err e, (g', sk')) => (Err e, (g', input', sk'))
          end
      | (Ok req, input') =>
          match dispatch req g with
          | (Err e, g') => (Err e, (g', input', sk))
          | (Ok resp, g') =>
              match write_msg resp sk with
              | (Err e, sk') => (Ok (WriteFailed e), (g', input', sk'))
              | (Ok _, sk') => handle_conn k order (g', input', sk')
              end
          end
      end
  end.
End Agent.
