(* ===== verification/EnvdSafety.v ===== *)
(** * What the guest agent promises

    The table of collected children stays bounded and keeps the status of a command
    until it is asked for; a connection answers its requests in order; a streamed
    command delivers its output, then its exit code; the session key does not survive a
    wipe. *)

From Stdlib Require Import ZArith Lia Bool List String Ascii.
From stdpp Require Import base tactics list gmap strings.
From S2P Require Import Prelude RustStr Utf8 Text Json Auth Proto NetLive Envd.

Open Scope Z_scope.

(** ** Collected children *)

Record table_ok (cap : nat) (t : ReapedInner) : Prop := {
  tb_nodup : NoDup (rd_order t);
  tb_dom : forall p, p ∈ rd_order t <-> is_Some (rd_map t !! p);
  tb_bound : (length (rd_order t) <= cap)%nat
}.

Lemma evict_spec cap map order :
  rd_order (evict cap map order) = drop (length order - cap) order /\
  forall p, rd_map (evict cap map order) !! p = if bool_decide (p ∈ take (length order - cap) order) then None else map !! p.
Proof.
  revert map; induction order as [|old rest IH]; intros map; [by split|]. cbn [evict].
  destruct (Nat.ltb_spec cap (length (old :: rest))) as [Hlt|Hge].
  - cbn [length] in *. replace (S (length rest) - cap)%nat with (S (length rest - cap)) by lia. cbn [drop take].
    destruct (IH (delete old map)) as [Ho Hm]. split; [done|]. intros p. rewrite Hm. destruct (decide (p = old)) as [->|Hne].
    + rewrite lookup_delete_eq. rewrite (bool_decide_true (old ∈ old :: _)) by by left. by case_bool_decide.
    + rewrite lookup_delete_ne by done. rewrite (bool_decide_ext (p ∈ old :: _) (p ∈ take (length rest - cap) rest)); [done|]. set_solver.
  - replace (length (old :: rest) - cap)%nat with O by lia. split; [done|]. intros p. rewrite bool_decide_false; [done|]. apply not_elem_of_nil.
Qed.

Lemma table_new cap : table_ok cap reaped_new.
Proof. split; cbn; [constructor| |lia]. intros p. rewrite lookup_empty. split; [by intros ?%not_elem_of_nil|by intros [? ?]]. Qed.

Lemma reap_ok cap pid status t : table_ok cap t -> table_ok cap (reap cap pid status t).
Proof.
  intros [Hn Hd Hb]. unfold reap. set (order := match rd_map t !! pid with None => rd_order t ++ [pid] | Some _ => rd_order t end).
  assert (NoDup order /\ forall p, p ∈ order <-> is_Some ((<[pid := status]> (rd_map t)) !! p)) as [Hn' Hd'].
  { unfold order. destruct (rd_map t !! pid) as [x|] eqn:E.
    - split; [done|]. intros p. rewrite Hd. destruct (decide (p = pid)) as [->|]; [by rewrite E, lookup_insert_eq|by rewrite lookup_insert_ne].
    - split.
      + apply NoDup_app. split; [done|]. split; [|apply NoDup_singleton]. intros x Hx ->%list_elem_of_singleton. apply Hd in Hx. by rewrite E in Hx; destruct Hx.
      + intros p. rewrite elem_of_app, list_elem_of_singleton, Hd. destruct (decide (p = pid)) as [->|]; [rewrite lookup_insert_eq; naive_solver|].
        rewrite lookup_insert_ne by done. naive_solver. }
  destruct (evict_spec cap (<[pid := status]> (rd_map t)) order) as [Ho Hm]. rewrite <- (take_drop (length order - cap) order) in Hn'.
  apply NoDup_app in Hn' as (_ & Hdis & Hn'). split; rewrite ?Ho.
  - done.
  - intros p. rewrite Hm. case_bool_decide as E.
    + split; [intros Hin; by destruct (Hdis p E Hin)|by intros [? ?]].
    + rewrite <- Hd'. assert (p ∈ order <-> p ∈ take (length order - cap) order \/ p ∈ drop (length order - cap) order) as -> by (by rewrite <- elem_of_app, take_drop).
      naive_solver.
  - rewrite length_drop. lia.
Qed.

Lemma filter_neq_elem p pid l : p ∈ List.filter (fun q => negb (q =? pid)) l <-> p ∈ l /\ p <> pid.
Proof. rewrite !list_elem_of_In, filter_In, negb_true_iff, Z.eqb_neq. done. Qed.

Lemma filter_NoDup (f : Z -> bool) l : NoDup l -> NoDup (List.filter f l).
Proof.
  induction 1 as [|x l Hx Hl IH]; [constructor|]. cbn [List.filter]. destruct (f x); [|done]. constructor; [|done].
  rewrite list_elem_of_In, filter_In, <- list_elem_of_In. naive_solver.
Qed.

Lemma take_ok cap pid t st t' : table_ok cap t -> take_status pid t = Some (st, t') -> table_ok cap t'.
Proof.
  intros [Hn Hd Hb]. unfold take_status. destruct (rd_map t !! pid) as [x|]; [|done]. intros [= _ <-]. split; cbn [rd_map rd_order].
  - by apply filter_NoDup.
  - intros p. rewrite filter_neq_elem, Hd. destruct (decide (p = pid)) as [->|]; [rewrite lookup_delete_eq; split; [naive_solver|by intros [? ?]]|].
    rewrite lookup_delete_ne by done. naive_solver.
  - etransitivity; [apply filter_length_le|done].
Qed.

(** What the threads do with the table. *)
Inductive ReapEvent : Type :=
| EvReap (pid status : Z)
| EvTake (pid : Z).

Definition ev_pid (e : ReapEvent) : Z := match e with EvReap p _ | EvTake p => p end.

Definition reap_step (cap : nat) (t : ReapedInner) (e : ReapEvent) : ReapedInner :=
  match e with
  | EvReap p st => reap cap p st t
  | EvTake p => match take_status p t with Some (_, t') => t' | None => t end
  end.
Definition reap_run (cap : nat) (evs : list ReapEvent) (t : ReapedInner) : ReapedInner := fold_left (reap_step cap) evs t.

Definition collected (evs : list ReapEvent) : nat := length (List.filter (fun e => match e with EvReap _ _ => true | _ => false end) evs).

Lemma reap_step_ok cap t e : table_ok cap t -> table_ok cap (reap_step cap t e).
Proof.
  intros Ht. destruct e as [p st|p]; cbn [reap_step]; [by apply reap_ok|]. destruct (take_status p t) as [[st t']|] eqn:E; [by eapply take_ok|done].
Qed.

Lemma reap_run_ok cap evs t : table_ok cap t -> table_ok cap (reap_run cap evs t).
Proof. revert t; induction evs as [|e evs IH]; intros t Ht; [done|]. by apply IH, reap_step_ok. Qed.

(** The status is in the table, with at most [k] newer ones. *)
Definition kept (pid st : Z) (k : nat) (t : ReapedInner) : Prop :=
  rd_map t !! pid = Some st /\ exists pre post, rd_order t = pre ++ pid :: post /\ (length post <= k)%nat.

Lemma evict_kept cap map pre pid post st k :
  map !! pid = Some st -> pid ∉ pre -> (length post <= k)%nat -> (k < cap)%nat -> kept pid st k (evict cap map (pre ++ pid :: post)).
Proof.
  intros Hm Hp Hk Hc. destruct (evict_spec cap map (pre ++ pid :: post)) as [Ho Hq]. set (n := (length (pre ++ pid :: post) - cap)%nat) in *.
  assert (n <= length pre)%nat as Hn by (unfold n; rewrite length_app; cbn [length]; lia). split.
  - rewrite Hq, take_app_le by done. rewrite bool_decide_false; [done|]. intros Hin. apply Hp. rewrite <- (take_drop n pre), elem_of_app. by left.
  - exists (drop n pre), post. by rewrite Ho, drop_app_le.
Qed.

Lemma kept_new cap pid st t : (0 < cap)%nat -> table_ok cap t -> rd_map t !! pid = None -> kept pid st 0 (reap cap pid st t).
Proof.
  intros Hc Ht Hn. unfold reap. rewrite Hn. apply evict_kept; [apply lookup_insert_eq| |done|done].
  intros [x Hx]%(tb_dom cap t Ht). congruence.
Qed.

Lemma pre_fresh cap t pre pid post : table_ok cap t -> rd_order t = pre ++ pid :: post -> pid ∉ pre.
Proof. intros Ht E. pose proof (tb_nodup cap t Ht) as Hn. rewrite E in Hn. apply NoDup_app in Hn as (_ & Hd & _). intros Hin. apply (Hd pid Hin). by left. Qed.

Lemma kept_reap cap p x pid st k t : table_ok cap t -> p <> pid -> (S k < cap)%nat -> kept pid st k t -> kept pid st (S k) (reap cap p x t).
Proof.
  intros Ht Hp Hk (Hm & pre & post & Ho & Hl). pose proof (pre_fresh cap t pre pid post Ht Ho) as Hf. unfold reap.
  assert ((<[p := x]> (rd_map t)) !! pid = Some st) as Hm' by by rewrite lookup_insert_ne.
  destruct (rd_map t !! p); rewrite Ho; [by apply evict_kept; [done|done|lia|lia]|].
  rewrite <- app_assoc. cbn [app]. apply evict_kept; [done|done|rewrite length_app; cbn [length]; lia|lia].
Qed.

Lemma kept_take cap p x pid st k t t' : table_ok cap t -> p <> pid -> kept pid st k t -> take_status p t = Some (x, t') -> kept pid st k t'.
Proof.
  intros Ht Hp (Hm & pre & post & Ho & Hl). unfold take_status. destruct (rd_map t !! p); [|done]. intros [= _ <-]. split; cbn [rd_map rd_order].
  - by rewrite lookup_delete_ne.
  - rewrite Ho, List.filter_app. cbn [List.filter]. rewrite (proj2 (Z.eqb_neq pid p)) by done. cbn [negb].
    eexists _, _. split; [done|]. etransitivity; [apply filter_length_le|done].
Qed.

Lemma kept_run cap pid st evs k t :
  table_ok cap t -> Forall (fun e => ev_pid e <> pid) evs -> (k + collected evs < cap)%nat -> kept pid st k t ->
  kept pid st (k + collected evs) (reap_run cap evs t).
Proof.
  revert k t; induction evs as [|e evs IH]; intros k t Ht Hf Hk Hkept; [by rewrite Nat.add_0_r|]. inversion Hf as [|? ? He Hf']; subst.
  change (reap_run cap (e :: evs) t) with (reap_run cap evs (reap_step cap t e)). destruct e as [p x|p]; cbn [ev_pid] in He.
  - assert (collected (EvReap p x :: evs) = S (collected evs)) as Ec by done. rewrite Ec in *.
    replace (k + S (collected evs))%nat with (S k + collected evs)%nat by lia. apply IH; [by apply reap_step_ok|done|lia|].
    apply kept_reap; [done|done|lia|done].
  - apply IH; [by apply reap_step_ok|done|done|]. cbn [reap_step]. destruct (take_status p t) as [[x t']|] eqn:E; [by eapply kept_take|done].
Qed.

(**  the exit status of a command is neither lost nor confused, and the table of children does
    not grow.  Whatever children are collected and asked for, in any order, the table
    never has more than its cap of entries; and when a child whose number is not in the
    table is collected, the one who asks for it gets its status, as long as fewer other
    children than the cap have been collected in between. *)
Theorem exit_status_kept (cap : nat) (before evs : list ReapEvent) (pid st : Z) :
  (0 < cap)%nat ->
  let t := reap_run cap before reaped_new in
  table_ok cap t /\
  (rd_map t !! pid = None -> Forall (fun e => ev_pid e <> pid) evs -> (collected evs < cap)%nat ->
   exists t', take_status pid (reap_run cap evs (reap cap pid st t)) = Some (st, t') /\ table_ok cap t' /\ rd_map t' !! pid = None).
Proof.
  intros Hc t. assert (table_ok cap t) as Ht by apply reap_run_ok, table_new. split; [done|]. intros Hn Hf Hk.
  pose proof (kept_run cap pid st evs 0 (reap cap pid st t) (reap_ok cap pid st t Ht) Hf Hk (kept_new cap pid st t Hc Ht Hn)) as [Hm _].
  assert (exists t', take_status pid (reap_run cap evs (reap cap pid st t)) = Some (st, t') /\ rd_map t' !! pid = None) as (t' & E & Hgone).
  { unfold take_status. rewrite Hm. cbn [base.mbind option_bind]. eexists. split; [done|]. apply lookup_delete_eq. }
  exists t'. split; [done|]. split; [|done]. eapply take_ok; [|exact E]. by apply reap_run_ok, reap_ok.
Qed.

Lemma exit_status_kept_witness :
  exists t', take_status 8 (reap_run 2 [EvReap 9 0] (reap 2 8 256 (reap_run 2 [EvReap 7 0] reaped_new))) = Some (256, t') /\ table_ok 2 t' /\ rd_map t' !! 8 = None.
Proof.
  refine (proj2 (exit_status_kept 2 [EvReap 7 0] [EvReap 9 0] 8 256 ltac:(lia)) _ _ _).
  - vm_compute. reflexivity.
  - constructor; [done|constructor].
  - cbn. lia.
Defined.

(** The status of an orphan stays until its number is asked for: a command that is given the
    same number is answered with it when it is asked for before it is collected. *)
Lemma orphan_status_is_taken :
  let t := reap REAPED_CAP 7 0 reaped_new in
  exists t', wait_reaped 7 [(7, 256)] t = Some (0, t') /\ exit_code_of 0 = 0 /\ exit_code_of 256 = 1.
Proof. eexists. vm_compute. repeat split. Qed.

(** A number that is in the table keeps its old place in the order: its new status goes with
    the oldest, and the one who asks for it waits for ever. *)
Lemma renewed_status_is_evicted :
  let t := reap 2 9 0 (reap 2 7 256 (reap 2 8 0 (reap 2 7 0 reaped_new))) in rd_map t !! 7 = None /\ wait_reaped 7 [] t = None.
Proof. vm_compute. repeat split. Qed.

(** ** Requests and answers *)

(** A request that is answered and leaves the connection as it is. *)
Definition answered_in_place (r : Request) : bool := match r with Connect _ | Pty _ _ | ExecStream _ => false | _ => true end.

Section Conn.
Context (env : GuestEnv) `{SerdeLaws Request} `{SerdeLaws Response}.

Fixpoint dispatch_all (reqs : list Request) : M Guest Stuck (list Response) :=
  match reqs with
  | [] => mret []
  | r :: reqs' => let? a := dispatch env r in let? rest := dispatch_all reqs' in mret (a :: rest)
  end.

Lemma conn_turn k order r b rest g sk :
  answered_in_place r = true -> fits_frame b -> from_vec b = Ok r ->
  handle_conn env (S k) order (g, frame b ++s rest, sk) =
    match dispatch env r g with
    | (Err e, g') => (Err e, (g', rest, sk))
    | (Ok resp, g') =>
        match write_msg resp sk with
        | (Err e, sk') => (Ok (WriteFailed e), (g', rest, sk'))
        | (Ok _, sk') => handle_conn env k order (g', rest, sk')
        end
    end.
Proof.
  intros Hr Hf Hv. change (S k) with (Nat.succ k). cbn [handle_conn Nat.succ]. rewrite (read_msg_frame b r rest Hf Hv). by destruct r.
Qed.

Lemma rpc_run order reqs : Forall sendable reqs -> Forall (fun r => answered_in_place r = true) reqs ->
  forall g g' resps out_in, dispatch_all reqs g = (Ok resps, g') -> Forall sendable resps ->
  exists w, mfor reqs write_msg (mkSink out_in None) = (Ok tt, mkSink (out_in ++s w) None) /\ (4 * length reqs <= String.length w)%nat /\
    forall k out, (length reqs < k)%nat -> exists w', handle_conn env k order (g, w, mkSink out None) = (Ok Closed, (g', ""%string, mkSink (out ++s w') None)) /\
      forall rest, read_msgs (length resps) (w' ++s rest) = (Ok resps, rest).
Proof.
  induction 1 as [|r reqs Hr Hrs IH]; intros Hp g g' resps out_in Hd Hresps.
  - cbn in Hd. injection Hd as <- <-. exists ""%string. rewrite app_nil_s. split; [done|]. split; [cbn; lia|]. intros [|k] out Hk; [cbn in Hk; lia|].
    exists ""%string. by rewrite app_nil_s.
  - inversion Hp as [|? ? Hp1 Hp2]; subst. cbn [dispatch_all] in Hd. unfold mbind in Hd. destruct (dispatch env r g) as [[a|e] g1] eqn:Ed; [|done].
    destruct (dispatch_all reqs g1) as [[rest|e] g2] eqn:Er; [|done]. injection Hd as <- <-. inversion Hresps as [|? ? Ha Hrest]; subst.
    destruct (write_msg_ok r out_in Hr) as (b & Hw & Hf & Hv).
    destruct (IH Hp2 g1 g2 rest (out_in ++s frame b) Er Hrest) as (w & Hws & Hlen & Hk). exists (frame b ++s w). split; [|split].
    + cbn [mfor]. unfold mbind. by rewrite Hw, Hws, app_assoc_s.
    + rewrite app_length_s, frame_length. cbn [length]. lia.
    + intros [|k] out Hlt; [cbn in Hlt; lia|]. rewrite (conn_turn k order r b w g _ Hp1 Hf Hv), Ed.
      destruct (write_msg_ok a out Ha) as (b' & Hw' & Hf' & Hv'). rewrite Hw'. cbn [length] in Hlt. destruct (Hk k (out ++s frame b') ltac:(lia)) as (w' & Hc & Hread).
      exists (frame b' ++s w'). rewrite Hc, app_assoc_s. split; [done|]. intros more. cbn [length read_msgs]. unfold mbind.
      by rewrite app_assoc_s, (read_msg_frame b' a _ Hf' Hv'), Hread.
Qed.
End Conn.

(** C20: requests on a connection are answered one by one, in order.  The bytes of any requests
    that do not take the connection over, written by the host with the protocol's
    writer, make the agent carry out exactly these requests, each on the state that the
    ones before it left, and end at the end of the input; the host reads off what the
    agent wrote exactly the answers, in the order of the requests. *)
Theorem rpc_in_order (env : GuestEnv) `{SerdeLaws Request} `{SerdeLaws Response} (order : Child -> list (Pipe * string))
    (reqs : list Request) (resps : list Response) (g g' : Guest) :
  Forall sendable reqs -> Forall (fun r => answered_in_place r = true) reqs ->
  dispatch_all env reqs g = (Ok resps, g') -> Forall sendable resps ->
  exists w w', mfor reqs write_msg (mkSink "" None) = (Ok tt, mkSink w None) /\
    handle_conn env (S (String.length w)) order (g, w, mkSink "" None) = (Ok Closed, (g', ""%string, mkSink w' None)) /\
    read_msgs (length resps) w' = (Ok resps, ""%string).
Proof.
  intros Hs Hp Hd Hr. destruct (rpc_run env order reqs Hs Hp g g' resps "" Hd Hr) as (w & Hw & Hlen & Hk).
  destruct (Hk (S (String.length w)) ""%string) as (w' & Hc & Hread); [lia|]. exists w, w'. split; [done|]. split; [done|].
  rewrite <- (app_nil_s w'). apply Hread.
Qed.

(** ** Streams *)

Definition of_pipe (p : Pipe) (pieces : list (Pipe * string)) : list string :=
  omap (fun '(q, b) => match p, q with POut, POut | PErr, PErr => Some b | _, _ => None end) pieces.

Definition output_of (p : Pipe * string) : ExecOutput := match p with (POut, b) => Stdout b | (PErr, b) => Stderr b end.

(** What the host has read of a pipe. *)
Definition read_out (p : Pipe) (os : list ExecOutput) : string :=
  String.concat "" (omap (fun o => match p, o with POut, Stdout b | PErr, Stderr b => Some b | _, _ => None end) os).

Lemma write_frame_fd_room p out : fits_frame p -> write_frame_fd p (mkSink out None) = (Ok tt, mkSink (out ++s frame p) None).
Proof.
  intros Hf. unfold write_frame_fd, mbind, write_all. cbn [sk_room sk_out]. rewrite app_assoc_s. unfold frame.
  rewrite as_u32_id; [done|]. unfold fits_frame, MAX_FRAME in Hf. lia.
Qed.

Lemma frames_app ps qs : frames (ps ++ qs) = frames ps ++s frames qs.
Proof. induction ps as [|p ps IH]; [done|]. cbn [app frames foldr]. fold (frames (ps ++ qs)) (frames ps). by rewrite IH, app_assoc_s. Qed.

Lemma forward_all pieces out : Forall (fun p => fits_frame (piece_frame p)) pieces ->
  forward pieces true true (mkSink out None) = mkSink (out ++s frames (map piece_frame pieces)) None.
Proof.
  intros Hf. revert out; induction Hf as [|p ps Hp Hf IH]; intros out; [by rewrite app_nil_s|]. cbn [forward]. rewrite write_frame_fd_room by done.
  assert ((match p.1 with POut => true | PErr => true end) = true) as -> by by destruct p.1. cbn [is_ok].
  assert (forall (b : bool), (match p.1 with POut => b | PErr => b end) = b) as Hb by (intros b; by destruct p.1). rewrite !Hb, IH.
  cbn [map frames foldr]. by rewrite app_assoc_s.
Qed.

Lemma exit_code_range st : in_i32 (exit_code_of st).
Proof.
  unfold exit_code_of. assert (forall x, 0 <= Z.land x 127 < 128) as H127 by (intros x; change 127 with (Z.ones 7); rewrite Z.land_ones by lia; apply Z.mod_pos_bound; lia).
  assert (forall x, 0 <= Z.land x 255 < 256) as H255 by (intros x; change 255 with (Z.ones 8); rewrite Z.land_ones by lia; apply Z.mod_pos_bound; lia).
  pose proof (H127 st). pose proof (H255 (Z.shiftr st 8)). unfold in_i32. repeat case_match; lia.
Qed.

Lemma read_all_frames ps : Forall fits_frame ps -> read_all (frames ps) = (ps, Some UnexpectedEof).
Proof.
  intros Hf. unfold read_all. destruct (read_frames_cut ps (String.length (frames ps)) (S (String.length (frames ps))) Hf) as (k & Hk & Hall).
  - rewrite str_take_all by lia. lia.
  - rewrite str_take_all in Hk by lia. rewrite Hk, Hall by lia. by rewrite firstn_all.
Qed.

Lemma piece_parsed p : parse_exec_output (piece_frame p) = Some (output_of p).
Proof. destruct p as [[] b]; [apply (parse_exec_frame (Stdout b))|apply (parse_exec_frame (Stderr b))]; done. Qed.

Lemma pieces_parsed ps code : in_i32 code ->
  omap parse_exec_output (map piece_frame ps ++ [exec_exit_frame code]) = map output_of ps ++ [Exit code].
Proof.
  intros Hc. induction ps as [|p ps IH]; cbn [map app omap list_omap].
  - change (exec_exit_frame code) with (exec_frame (Exit code)). by rewrite parse_exec_frame.
  - by rewrite piece_parsed, IH.
Qed.

Lemma read_out_pieces p ps code : read_out p (map output_of ps ++ [Exit code]) = String.concat "" (of_pipe p ps).
Proof.
  unfold read_out, of_pipe. f_equal. induction ps as [|[q b] ps IH]; cbn [map app omap list_omap]; [by destruct p|]. rewrite IH. by destruct p, q.
Qed.

(**  a streamed command delivers everything, then its exit code.  However the two pipes'
    pieces interleave, a host that keeps reading gets the acknowledgement, then frames
    whose standard output and standard error are exactly what the command wrote to each,
    then one frame with its exit code, which is the last. *)
Theorem stream_delivers (env : GuestEnv) `{SerdeLaws Response} (order : Child -> list (Pipe * string)) (cmd : string) (c : Child) (status : Z) (g g' : Guest) :
  spawn env cmd g = (Ok (Ok c), g) -> wait_child c g = (Ok status, g') -> sendable Acked ->
  of_pipe POut (order c) = ch_out c -> of_pipe PErr (order c) = ch_err c -> Forall (fun p => Z.of_nat (String.length p.2) <= 16384) (order c) ->
  exists b w os, handle_exec_stream env order cmd (g, mkSink "" None) = (Ok tt, (g', mkSink (frame b ++s w) None)) /\
    from_vec b = Ok Acked /\ (read_all w).2 = Some UnexpectedEof /\
    omap parse_exec_output (read_all w).1 = os ++ [Exit (exit_code_of status)] /\ length (read_all w).1 = S (length os) /\
    read_out POut os = String.concat "" (ch_out c) /\ read_out PErr os = String.concat "" (ch_err c).
Proof.
  intros Hs Hw Hack Ho He Hf. unfold handle_exec_stream. rewrite Hs. destruct (write_msg_ok Acked ""%string Hack) as (b & -> & _ & Hv). cbn [String.append].
  assert (Forall (fun p => fits_frame (piece_frame p)) (order c)) as Hfit.
  { eapply Forall_impl; [exact Hf|]. intros [q d] Hd. cbn [snd] in Hd. unfold fits_frame, MAX_FRAME. destruct q; cbn [piece_frame exec_stdout_frame exec_stderr_frame push String.length]; lia. }
  assert (fits_frame (exec_exit_frame (exit_code_of status))) as Hfe by (unfold fits_frame, MAX_FRAME, exec_exit_frame, push; cbn [String.length]; rewrite be_bytes_length; lia).
  rewrite forward_all, Hw by done. rewrite write_frame_fd_room by done. cbn [snd].
  set (ps := map piece_frame (order c) ++ [exec_exit_frame (exit_code_of status)]).
  assert (read_all (frames ps) = (ps, Some UnexpectedEof)) as Hra.
  { apply read_all_frames. apply Forall_app. split; [by apply Forall_map|by constructor]. }
  exists b, (frames ps), (map output_of (order c)). rewrite Hra. cbn [fst snd]. split_and!; [|done|done| | | |].
  - unfold ps. rewrite frames_app. cbn [frames foldr]. by rewrite app_nil_s, app_assoc_s.
  - apply pieces_parsed, exit_code_range.
  - unfold ps. rewrite length_app, !length_map. cbn [length]. lia.
  - rewrite <- Ho, <- (read_out_pieces POut (order c) 0). unfold read_out. by rewrite omap_app, app_nil_r.
  - rewrite <- He, <- (read_out_pieces PErr (order c) 0). unfold read_out. by rewrite omap_app, app_nil_r.
Qed.

Module RefGuest.
Definition a_child : Child := mkChild 7 ["hel"; "lo"]%string ["oops"]%string [(7, 256)].
Definition a_guest_env : GuestEnv :=
  mkGuestEnv (fun _ => None) (fun n => [RInterrupted; RGot "0123456789"; RGot "abcdefghijklmnopqrstuvwxyz"]%string) (fun _ => Ok a_child) (fun _ => false) (fun _ _ => Ok (Err "refused"%string)) (Err "no terminal"%string).
Definition a_guest : Guest := mkGuest ∅ "" None [] reaped_new 0.
Definition pieces_of (_ : Child) : list (Pipe * string) := [(POut, "hel"%string); (PErr, "oops"%string); (POut, "lo"%string)].
End RefGuest.
Import RefJson RefGuest.

Lemma rpc_in_order_witness :
  exists w w', handle_conn a_guest_env (S (String.length w)) pieces_of (a_guest, w, mkSink "" None) =
    (Ok Closed, (set_reaped (mkReaped ∅ []) a_guest, ""%string, mkSink w' None)) /\ read_msgs 2 w' = (Ok [Pong "hi"; ExecDone 1 "hello" "oops"], ""%string).
Proof.
  destruct (rpc_in_order a_guest_env pieces_of [Ping "hi"; Exec "x"] [Pong "hi"; ExecDone 1 "hello" "oops"] a_guest (set_reaped (mkReaped ∅ []) a_guest))
    as (w & w' & _ & Hc & Hr).
  - repeat constructor; cbn [representable request_serde_laws request_ok]; try (intros b [= <-]; vm_compute; discriminate); vm_compute; reflexivity.
  - repeat constructor.
  - vm_compute. reflexivity.
  - repeat constructor; cbn [representable response_serde_laws response_ok]; try (intros b [= <-]; vm_compute; discriminate); repeat split; vm_compute; try reflexivity; discriminate.
  - exists w, w'. split; [exact Hc|exact Hr].
Defined.

Lemma stream_delivers_witness :
  exists b w os, handle_exec_stream a_guest_env pieces_of "x" (a_guest, mkSink "" None) = (Ok tt, (set_reaped (mkReaped ∅ []) a_guest, mkSink (frame b ++s w) None)) /\
    read_out POut os = "hello"%string /\ read_out PErr os = "oops"%string /\ omap parse_exec_output (read_all w).1 = os ++ [Exit 1].
Proof.
  destruct (stream_delivers a_guest_env pieces_of "x" a_child 256 a_guest (set_reaped (mkReaped ∅ []) a_guest)) as (b & w & os & H1 & _ & _ & H2 & _ & H3 & H4).
  - reflexivity.
  - vm_compute. reflexivity.
  - split; [exact I|]. intros b [= <-]. vm_compute. discriminate.
  - reflexivity.
  - reflexivity.
  - repeat constructor; vm_compute; discriminate.
  - exists b, w, os. split; [exact H1|]. split; [exact H3|]. split; [exact H4|exact H2].
Defined.

(** ** Identity and keys *)

(** The key is still there only if it could not be looked for, or could be neither
    overwritten nor removed; another file is never touched. *)
Lemma wipe_keys_wipes (env : GuestEnv) (g : Guest) :
  let n := gu_calls g in
  let bad i := gv_fails env (n + i)%nat <> None in
  let '(r, g') := run_wipe_keys env g in
  r = Ok Acked /\ (forall p, p <> SESSION_KEY -> gu_files g' !! p = gu_files g !! p) /\
  (gu_files g' !! SESSION_KEY = None \/
   exists content, gu_files g !! SESSION_KEY = Some content /\
     (gu_files g' !! SESSION_KEY = Some (zeros content) \/
      gu_files g' !! SESSION_KEY = Some content /\ (bad 0%nat \/ bad 1%nat /\ bad 2%nat \/ bad 2%nat /\ bad 3%nat))).
Proof.
  cbv zeta. destruct g as [files host clock pool table n]. cbn [gu_calls gu_files]. unfold run_wipe_keys, wipe, mbind, sys, write_file, sys, mret.
  cbn [gu_calls gu_files set_files].
  replace (n + 0)%nat with n by lia. replace (n + 1)%nat with (S n) by lia. replace (n + 2)%nat with (S (S n)) by lia. replace (n + 3)%nat with (S (S (S n))) by lia.
  destruct (gv_fails env n) eqn:E0.
  { split; [done|]. split; [done|]. cbn [gu_files]. destruct (files !! SESSION_KEY) as [content|]; [right|by left]. exists content. split; [done|]. right. split; [done|]. by left. }
  cbn [gu_files gu_calls]. destruct (files !! SESSION_KEY) as [content|] eqn:Ek; [|split; [done|]; split; [done|]; by left].
  cbn [gu_calls]. destruct (gv_fails env (S n)) eqn:E1; cbn [gu_calls gu_files].
  - destruct (gv_fails env (S (S n))) eqn:E2; cbn [gu_calls gu_files set_files]; (split; [done|]).
    + split; [done|]. right. exists content. split; [done|]. right. split; [done|]. right. left. split; congruence.
    + split; [intros p Hp; by rewrite lookup_delete_ne|]. left. apply lookup_delete_eq.
  - destruct (gv_fails env (S (S n))) eqn:E2; cbn [gu_calls gu_files set_files]; (destruct (gv_fails env (S (S (S n)))) eqn:E3); cbn [gu_calls gu_files set_files]; (split; [done|]).
    + split; [done|]. right. exists content. split; [done|]. right. split; [done|]. right. right. split; congruence.
    + split; [intros p Hp; by rewrite lookup_delete_ne|]. left. apply lookup_delete_eq.
    + split; [intros p Hp; by rewrite lookup_insert_ne|]. right. exists content. split; [done|]. left. apply lookup_insert_eq.
    + split; [intros p Hp; by rewrite lookup_delete_ne, lookup_insert_ne|]. left. apply lookup_delete_eq.
Qed.

Lemma fill_length reads need got : String.length (fill reads need got) = (String.length got + need)%nat.
Proof.
  assert (forall n, String.length (str_take n (be_bytes n 0)) = n) as Hz by (intros n; rewrite str_take_length, be_bytes_length; lia).
  revert need got; induction reads as [|[b| |] reads IH]; intros [|need] got; cbn [fill]; rewrite ?app_length_s, ?Hz; try lia.
  - destruct b as [|c b]; [by rewrite app_length_s, Hz|]. rewrite IH, app_length_s, str_take_length. cbn [String.length]. lia.
  - by rewrite IH.
Qed.

(** The time of day in seconds and microseconds, from nanoseconds. *)
Lemma timeval_close ns : 0 <= ns -> let sec := ns / 1000000000 in let usec := (ns mod 1000000000) / 1000 in
  0 <= usec < 1000000 /\ sec * 1000000000 + usec * 1000 <= ns < sec * 1000000000 + usec * 1000 + 1000.
Proof. intros Hns. cbv zeta. pose proof (Z.div_mod ns 1000000000). pose proof (Z.mod_pos_bound ns 1000000000).
  pose proof (Z.div_mod (ns mod 1000000000) 1000). pose proof (Z.mod_pos_bound (ns mod 1000000000) 1000). lia. Qed.

Lemma sys_total env f g : exists b g', sys env f g = (Ok b, g').
Proof. unfold sys. destruct (gv_fails env (gu_calls g)); eauto. Qed.

Lemma run_bind_ok {St E A B} (m : M St E A) (f : A -> M St E B) s a s' : m s = (Ok a, s') -> (let? x := m in f x) s = f a s'.
Proof. intros Hm. unfold mbind. by rewrite Hm. Qed.

Lemma mix_seed_total env seed g : exists g', mix_seed env seed g = (Ok tt, g').
Proof.
  unfold mix_seed. destruct (unhex seed); [|by exists g]. destruct (sys_total env (fun g => g) g) as (b & g1 & E). rewrite (run_bind_ok _ _ _ _ _ E).
  destruct b; [|by exists g1]. match goal with |- context [sys env ?f] => destruct (sys_total env f g1) as (b & g2 & E2) end.
  rewrite (run_bind_ok _ _ _ _ _ E2). by exists g2.
Qed.

Lemma write_private_total env p c g : exists g', write_private env p c g = (Ok tt, g').
Proof.
  unfold write_private, write_file. destruct (sys_total env (set_files <[p := ""%string]>) g) as (b & g1 & E). rewrite (run_bind_ok _ _ _ _ _ E).
  destruct b; [|by exists g1]. destruct (sys_total env (set_files <[p := c]>) g1) as (b & g2 & E2). rewrite (run_bind_ok _ _ _ _ _ E2). by exists g2.
Qed.

Lemma reinit_answers env seed host ns g : exists m r k g', run_reinit env seed host ns g = (Ok (ReinitDone m r k), g') /\
  String.length m = 32%nat /\ String.length r = 64%nat /\ String.length k = 64%nat.
Proof.
  assert (forall n g, exists s g', getrandom env n g = (Ok s, g') /\ String.length (hex s) = (2 * n)%nat) as Hrnd.
  { intros n g0. unfold getrandom. eexists _, _. split; [done|]. by rewrite hex_length, fill_length. }
  unfold run_reinit, write_file. destruct (Hrnd 32%nat g) as (s0 & g0 & E0 & L0). rewrite (run_bind_ok _ _ _ _ _ E0).
  destruct (mix_seed_total env seed g0) as (g1 & E1). rewrite (run_bind_ok _ _ _ _ _ E1).
  destruct (Hrnd 16%nat g1) as (s2 & g2 & E2 & L2). rewrite (run_bind_ok _ _ _ _ _ E2).
  do 3 match goal with |- context [mbind (sys env ?f) _ ?g] => let b := fresh "b" in let g' := fresh "g" in let E := fresh "E" in
         destruct (sys_total env f g) as (b & g' & E); rewrite (run_bind_ok _ _ _ _ _ E); clear E end.
  match goal with |- context [mbind (getrandom env 32) _ ?g] => destruct (Hrnd 32%nat g) as (s3 & g6 & E3 & L3) end. rewrite (run_bind_ok _ _ _ _ _ E3).
  destruct (write_private_total env SESSION_KEY (line (hex s3)) g6) as (g7 & E4). rewrite (run_bind_ok _ _ _ _ _ E4).
  match goal with |- context [mbind (sys env ?f) _ g7] => destruct (sys_total env f g7) as (b8 & g8 & E5) end. rewrite (run_bind_ok _ _ _ _ _ E5).
  by exists (hex s2), (hex s0), (hex s3), g8.
Qed.

Lemma sys_quiet env f g : (forall n, gv_fails env n = None) ->
  sys env f g = (Ok true, let g := f g in mkGuest (gu_files g) (gu_hostname g) (gu_clock g) (gu_pool g) (gu_reaped g) (S (gu_calls g))).
Proof. intros Hq. unfold sys. by rewrite Hq. Qed.

Lemma mix_seed_quiet env seed g : (forall n, gv_fails env n = None) ->
  exists c, mix_seed env seed g = (Ok tt, mkGuest (gu_files g) (gu_hostname g) (gu_clock g) (gu_pool g ++ option_list (unhex seed)) (gu_reaped g) c).
Proof.
  intros Hq. unfold mix_seed. destruct (unhex seed); cbn [option_list]; [|rewrite app_nil_r; destruct g; by eexists].
  unfold mbind. rewrite !sys_quiet by done. cbn [gu_files gu_hostname gu_clock gu_pool gu_reaped gu_calls]. by eexists.
Qed.

Lemma reinit_quiet env seed host ns g m r k g' : (forall n, gv_fails env n = None) -> run_reinit env seed host ns g = (Ok (ReinitDone m r k), g') ->
  exists c, g' = mkGuest (<[SESSION_KEY := line k]> (<[SESSION_KEY := ""%string]> (<["/etc/hostname"%string := line host]> (<["/etc/machine-id"%string := line m]> (gu_files g)))))
    host (Some (ns / 1000000000, (ns mod 1000000000) / 1000)) (gu_pool g ++ option_list (unhex seed)) (gu_reaped g) c.
Proof.
  intros Hq. unfold run_reinit, write_private, write_file. unfold getrandom at 1. unfold mbind at 1.
  match goal with |- context [mbind (mix_seed env seed) _ ?h] => destruct (mix_seed_quiet env seed h Hq) as [c E]; rewrite (run_bind_ok _ _ _ _ _ E) end.
  unfold mbind, getrandom, mret. repeat (rewrite sys_quiet by done; cbn [gu_files gu_hostname gu_clock gu_pool gu_reaped gu_calls set_files]).
  intros [= <- <- <- <-]. by eexists.
Qed.

(**  a restored clone gets an identity of its own (ADR-12), and keeps no key across a snapshot (ADR-15).
    Renewing always answers, with a machine id of 16 bytes and a session key of 32, from
    random bytes read after the host's seed went in; when no call fails, these are the
    guest's machine id and key, its host name is the one the host gave and its clock is
    the host's to the microsecond; and a wipe then removes the key and no other file. *)
Theorem identity_renewed (env : GuestEnv) (seed host : string) (ns : Z) (g : Guest) :
  exists m r k g', run_reinit env seed host ns g = (Ok (ReinitDone m r k), g') /\
    String.length m = 32%nat /\ String.length r = 64%nat /\ String.length k = 64%nat /\
    ((forall n, gv_fails env n = None) ->
     gu_files g' !! "/etc/machine-id"%string = Some (line m) /\ gu_files g' !! "/etc/hostname"%string = Some (line host) /\
     gu_files g' !! SESSION_KEY = Some (line k) /\ gu_hostname g' = host /\
     (exists sec usec, gu_clock g' = Some (sec, usec) /\
        (0 <= ns -> 0 <= usec < 1000000 /\ sec * 1000000000 + usec * 1000 <= ns < sec * 1000000000 + usec * 1000 + 1000)) /\
     (forall s, unhex seed = Some s -> gu_pool g' = gu_pool g ++ [s]) /\
     exists g'', run_wipe_keys env g' = (Ok Acked, g'') /\ gu_files g'' = delete SESSION_KEY (gu_files g')).
Proof.
  destruct (reinit_answers env seed host ns g) as (m & r & k & g' & E & Lm & Lr & Lk). exists m, r, k, g'. split_and!; [done..|].
  intros Hq. destruct (reinit_quiet env seed host ns g m r k g' Hq E) as [c ->]. cbn [gu_files gu_hostname gu_clock gu_pool].
  split; [rewrite !lookup_insert_ne by done; apply lookup_insert_eq|]. split; [rewrite !lookup_insert_ne by done; apply lookup_insert_eq|].
  split; [apply lookup_insert_eq|]. split; [done|]. split.
  { eexists _, _. split; [done|]. apply timeval_close. }
  split; [by intros s ->|]. unfold run_wipe_keys, wipe, write_file, mbind, mret.
  repeat (rewrite sys_quiet by done; cbn [gu_files gu_hostname gu_clock gu_pool gu_reaped gu_calls set_files]). rewrite lookup_insert_eq.
  repeat (rewrite sys_quiet by done; cbn [gu_files gu_hostname gu_clock gu_pool gu_reaped gu_calls set_files]).
  eexists. split; [done|]. cbn [gu_files]. by rewrite delete_insert_eq.
Qed.

Lemma identity_renewed_witness :
  exists m r k g', run_reinit a_guest_env "00ff" "clone" 1722800000123456789 a_guest = (Ok (ReinitDone m r k), g') /\
    gu_files g' !! SESSION_KEY = Some (line k) /\ gu_hostname g' = "clone"%string.
Proof.
  destruct (identity_renewed a_guest_env "00ff" "clone" 1722800000123456789 a_guest) as (m & r & k & g' & E & _ & _ & _ & Hq).
  destruct (Hq (fun _ => eq_refl)) as (_ & _ & Hk & Hh & _). exists m, r, k, g'. split; [exact E|]. split; [exact Hk|exact Hh].
Defined.
