(* ===== verification/Relay.v ===== *)
(** * Copying bytes (crates/sl-node/src/dataplane.rs, crates/sl-node/src/expose.rs)

    The relay between a client of the gateway and the node that serves it, and the
    listener that exposes a port of a sandbox: the tunnel to the guest agent, the two
    directions of a connection, the loop that accepts clients and how it is stopped; the
    single request of the gateway to a port (gateway.rs) and the execution of a command
    on a target (backend.rs) use the same connection to the guest.
    Each direction is one thread with a reading half and a writing half of its own, so
    that the two do not share state.  The theorems: a relay hands on what it reads
    unchanged, and a client of an exposed port and the program behind it exchange
    exactly their bytes through the host, the wire protocol and the guest agent. *)

From Stdlib Require Import ZArith Lia Bool List String Ascii.
From stdpp Require Import base tactics list option strings.
From S2P Require Import Prelude RustStr Utf8 Json Proto Backend Gateway Envd EnvdSafety.

Open Scope Z_scope.

(** ** One direction *)

(** What one read of a socket gives; the list of them ends with the stream. *)
Inductive Got : Type := Bytes (b : string) | Interrupted | Failed (e : string).

Fixpoint copy_bytes (reads : list Got) (total : Z) : M Sink string Z :=
  match reads with
  | [] | Bytes EmptyString :: _ => mret total
  | Interrupted :: reads' => copy_bytes reads' total
  | Failed e :: _ => mfail e
  | Bytes b :: reads' => fun sk =>
      match write_all b sk with
      | (Err e, sk') => (Err (io_text e), sk')
      | (Ok _, sk') => copy_bytes reads' (u64_add total (Z.of_nat (String.length b))) sk'
      end
  end.

(** The writing half of a connection, and whether its end was announced. *)
Record Half : Type := mkHalf { h_sink : Sink; h_fin : bool }.

(** Copies a direction to its end, whatever the end is, and announces it. *)
Definition pump (reads : list Got) (h : Half) : Half := mkHalf (copy_bytes reads 0 (h_sink h)).2 true.

(** ** The relay of the gateway *)

(** The halves towards the client and the node, and whether the node's connection was closed. *)
Definition relay (clone : result unit string) (client_reads node_reads : list Got) (client node : Half) : result unit string * (Half * Half * bool) :=
  match clone with
  | Err e => (Err ("clone 客户端失败: " ++s e), (client, node, false))
  | Ok _ => (Ok tt, (pump node_reads client, pump client_reads node, true))
  end.

(** ** Exposed ports *)

Section Tunnel.
Context `{Serde Request} `{Serde Response} (debug : Response -> string).

(** [conn]: the connection to the guest agent; the state is what can be read from it and
    what was written to it. *)
Definition open_tunnel (conn : result unit string) (guest_port : Z) : M (string * Sink) string unit := fun '(input, sk) =>
  match conn with
  | Err e => (Err e, (input, sk))
  | Ok _ =>
      match write_msg (Connect guest_port) sk with
      | (Err e, sk') => (Err ("发 Connect 失败: " ++s io_text e), (input, sk'))
      | (Ok _, sk') =>
          match (read_msg : M string IoError Response) input with
          | (Err e, input') => (Err ("读 Connect ack 失败: " ++s io_text e), (input', sk'))
          | (Ok Acked, input') => (Ok tt, (input', sk'))
          | (Ok (Error message), input') => (Err ("guest Connect 失败: " ++s message), (input', sk'))
          | (Ok other, input') => (Err ("Connect ack 异常: " ++s debug other), (input', sk'))
          end
      end
  end.

(** The halves towards the client and the guest; a failed clone drops both sockets.
    [clones]: whether the sockets could be cloned. *)
Definition splice (clones : bool) (client_reads guest_reads : list Got) (client guest : Half) : Half * Half :=
  if clones then (pump guest_reads client, pump client_reads guest) else (client, guest).

(** The thread of one accepted client.  [cut]: how what the guest sends arrives.  None:
    no tunnel, the client's connection was shut down. *)
Definition serve_client (conn : result unit string) (guest_port : Z) (clones : bool) (input : string) (cut : string -> list Got)
    (client_reads : list Got) (client : Half) : option (Half * Half) * Sink :=
  match open_tunnel conn guest_port (input, mkSink "" None) with
  | (Ok _, (rest, sk)) =>
      let '(client', guest') := splice clones client_reads (cut rest) client (mkHalf sk false) in (Some (client', guest'), h_sink guest')
  | (Err _, (_, sk)) => (None, sk)
  end.

(** *** One request to a port of the guest *)

(** What one read of the answer gives. *)
Inductive Answered : Type := Part (b : string) | ConnectionReset | ReadError (e : string).

Fixpoint read_answer (reads : list Answered) (resp : string) : result string string :=
  match reads with
  | [] | Part EmptyString :: _ | ConnectionReset :: _ => Ok resp
  | Part b :: reads' => read_answer reads' (resp ++s b)
  | ReadError e :: _ => Err ("读 guest 响应失败: " ++s e)
  end.

(** The handshake is that of [open_tunnel]. *)
Definition proxy_port_http (conn : result unit string) (port : Z) (guest_path : string) (cut : string -> list Answered) : M (string * Sink) string string :=
  let? _ := open_tunnel conn port in
  fun '(input, sk) =>
    match write_all (proxy_request guest_path) sk with
    | (Err e, sk') => (Err ("写 guest 请求失败: " ++s io_text e), (input, sk'))
    | (Ok _, sk') =>
        (match read_answer (cut input) "" with
         | Err e => Err e
         | Ok EmptyString => Err "guest 服务无响应"%string
         | Ok resp => Ok resp
         end, (""%string, sk'))
    end.

(** *** Commands in a sandbox *)

(** [request] and [exec] of lib.rs on a connection. *)
Definition exec_on (cmd : string) : M (string * Sink) string (Z * string * string) := fun '(input, sk) =>
  match write_msg (Exec cmd) sk with
  | (Err e, sk') => (Err ("发请求失败: " ++s io_text e), (input, sk'))
  | (Ok _, sk') =>
      match (read_msg : M string IoError Response) input with
      | (Err e, input') => (Err ("收响应失败: " ++s io_text e), (input', sk'))
      | (Ok (ExecDone code out err), input') => (Ok (code, out, err), (input', sk'))
      | (Ok (Error message), input') => (Err ("envd 执行错误: " ++s message), (input', sk'))
      | (Ok other, input') => (Err ("非预期响应: " ++s debug other), (input', sk'))
      end
  end.

(** [connect]: the guest agent of a microVM; [run]: a program of the host with its
    status, output and errors. *)
Definition target_exec (connect : string -> result unit string) (run : list string -> result (option Z * string * string) string)
    (t : ExecTarget) (cmd : string) : M (string * Sink) string (Z * string * string) :=
  match t with
  | Vsock uds => match connect uds with Err e => mfail e | Ok _ => exec_on cmd end
  | Runsc bin global_args id =>
      match run ([bin] ++ global_args ++ ["exec"; id; "/bin/sh"; "-c"; cmd]%string) with
      | Err e => mfail ("runsc exec 启动失败: " ++s e)
      | Ok (code, out, err) => mret (default (-1) code, from_utf8_lossy out, from_utf8_lossy err)
      end
  end.
End Tunnel.

(** ** The listener *)

Definition ACCEPT_POLL : Z := 200.

(** What [accept] gives: a client, nothing yet, or another error. *)
Inductive Accepted : Type := Client (id : nat) | WouldBlock | AcceptFailed.

(** The turns of the loop: whether the flag is set when it looks, and what [accept]
    gives otherwise.  The clients that are served, the milliseconds slept, and whether
    the thread has ended and released the port. *)
Fixpoint accept_loop (turns : list (bool * Accepted)) : list nat * Z * bool :=
  match turns with
  | [] => ([], 0, false)
  | (true, _) :: _ => ([], 0, true)
  | (false, a) :: turns' =>
      let '(served, slept, ended) := accept_loop turns' in
      match a with
      | Client id => (id :: served, slept, ended)
      | WouldBlock | AcceptFailed => (served, slept + ACCEPT_POLL, ended)
      end
  end.

Record Handle : Type := mkHandle { hd_host_port : Z; hd_bind : string; hd_guest_port : Z; hd_stop : bool }.

Definition stop (h : Handle) : Handle := mkHandle (hd_host_port h) (hd_bind h) (hd_guest_port h) true.

(** [bound]: the port the system gave, or why it gave none. *)
Definition start_listener (bind : string) (host_port guest_port : Z) (bound local_port : result Z string) (nonblocking : result unit string) : result Handle string :=
  match bound with
  | Err e => Err ("bind " ++s bind ++s ":" ++s dec host_port ++s " 失败: " ++s e)
  | Ok _ =>
      match local_port with
      | Err e => Err e
      | Ok actual => match nonblocking with Err e => Err e | Ok _ => Ok (mkHandle actual bind guest_port false) end
      end
  end.

(** ** What is copied *)

Definition steady (g : Got) : Prop := match g with Bytes b => b <> ""%string | Interrupted => True | Failed _ => False end.
Fixpoint got_bytes (reads : list Got) : string :=
  match reads with [] => "" | Bytes b :: reads' => b ++s got_bytes reads' | _ :: reads' => got_bytes reads' end.

Lemma copy_beginning reads total sk : exists mid rest,
  sk_out (copy_bytes reads total sk).2 = sk_out sk ++s mid /\ got_bytes reads = mid ++s rest.
Proof.
  revert total sk. induction reads as [|[[|a b]| |e] reads IH]; intros total sk; cbn [copy_bytes].
  - exists ""%string, ""%string. by rewrite app_nil_s.
  - exists ""%string. eexists. by rewrite app_nil_s.
  - unfold write_all. destruct (sk_room sk) as [r|].
    + destruct (_ <=? r)%nat; cbn [got_bytes].
      * destruct (IH (u64_add total (Z.of_nat (String.length (String a b)))) (mkSink (sk_out sk ++s String a b) (Some (r - String.length (String a b))%nat))) as (mid & rest & E1 & E2).
        exists (String a b ++s mid), rest. cbn [sk_out] in E1. split; [by rewrite E1, app_assoc_s|by rewrite E2, app_assoc_s].
      * exists (str_take r (String a b)), (str_drop r (String a b) ++s got_bytes reads). split; [done|]. by rewrite <- app_assoc_s, str_take_drop.
    + destruct (IH (u64_add total (Z.of_nat (String.length (String a b)))) (mkSink (sk_out sk ++s String a b) None)) as (mid & rest & E1 & E2).
      cbn [got_bytes]. exists (String a b ++s mid), rest. cbn [sk_out] in E1. split; [by rewrite E1, app_assoc_s|by rewrite E2, app_assoc_s].
  - apply IH.
  - exists ""%string. eexists. by rewrite app_nil_s.
Qed.

Lemma copy_all reads total out : Forall steady reads ->
  (copy_bytes reads total (mkSink out None)).2 = mkSink (out ++s got_bytes reads) None.
Proof.
  intros Hs. revert total out. induction Hs as [|[[|a b]| |e] reads Hb Hs IH]; intros total out; cbn [copy_bytes got_bytes]; try done.
  - by rewrite app_nil_s.
  - cbn [write_all sk_room sk_out]. rewrite IH. by rewrite app_assoc_s.
Qed.

(**  Whatever fails in a relay, the client gets a beginning of what the node sent and
    the node a beginning of what the client sent, unchanged and in order, and then the
    end of the stream, and the node's connection is closed last; when no read and no
    write fails, each gets all of it, however the reads were cut or interrupted. *)
Theorem relay_verbatim (client_reads node_reads : list Got) (client node : Half) :
  exists client' node', relay (Ok tt) client_reads node_reads client node = (Ok tt, (client', node', true)) /\
    h_fin client' = true /\ h_fin node' = true /\
    (exists down rest, sk_out (h_sink client') = sk_out (h_sink client) ++s down /\ got_bytes node_reads = down ++s rest) /\
    (exists up rest, sk_out (h_sink node') = sk_out (h_sink node) ++s up /\ got_bytes client_reads = up ++s rest) /\
    (Forall steady node_reads -> sk_room (h_sink client) = None -> sk_out (h_sink client') = sk_out (h_sink client) ++s got_bytes node_reads) /\
    (Forall steady client_reads -> sk_room (h_sink node) = None -> sk_out (h_sink node') = sk_out (h_sink node) ++s got_bytes client_reads).
Proof.
  eexists _, _. split; [done|]. split; [done|]. split; [done|]. split; [apply copy_beginning|]. split; [apply copy_beginning|].
  destruct client as [[co cr] cf], node as [[no nr] nf]; cbn. split; intros Hs ->; by rewrite copy_all.
Qed.

(** ** Through the guest *)

Definition nonempty (p : string) : Prop := p <> ""%string.

Lemma reads_nonempty turns s : Forall nonempty (reads_of turns s).
Proof. revert s. induction turns as [|k IH]; intros [|a s]; cbn [reads_of]; constructor; [done|apply IH]. Qed.

Lemma drop_shorter n a s : n <> O -> (String.length (str_drop n (String a s)) <= String.length s)%nat.
Proof. intros Hn. rewrite str_drop_length. cbn [String.length]. lia. Qed.

Lemma buffer_room : 16384%nat <> O.
Proof. done. Qed.

Lemma reads_concat turns s : (String.length s <= turns)%nat -> String.concat "" (reads_of turns s) = s.
Proof.
  revert s. induction turns as [|k IH]; intros [|a s] Hl; cbn [reads_of]; try done; [cbn in Hl; lia|].
  rewrite concat_cons, IH, str_take_drop; [done|]. etransitivity; [apply drop_shorter, buffer_room|]. cbn [String.length] in Hl. lia.
Qed.

Lemma reads_count turns s : (length (reads_of turns s) <= String.length s)%nat.
Proof.
  revert s. induction turns as [|k IH]; intros [|a s]; cbn [reads_of length String.length]; try lia.
  pose proof (IH (str_drop 16384 (String a s))) as Hk. pose proof (drop_shorter 16384 a s buffer_room). lia.
Qed.

Lemma pipe_all reads out : Forall nonempty reads -> pipe_one reads (mkSink out None) = mkSink (out ++s String.concat "" reads) None.
Proof.
  intros Hr. revert out. induction Hr as [|[|a b] reads Hb Hr IH]; intros out; cbn [pipe_one]; [by rewrite app_nil_s|done|].
  cbn [write_all sk_room sk_out]. rewrite IH. by rewrite concat_cons, app_assoc_s.
Qed.

(** The guest's side of a tunnel. *)
Lemma guest_tunnel (env : GuestEnv) `{SerdeLaws Request} `{SerdeLaws Response} order g port (tcp : Peer) b b' data :
  fits_frame b -> from_vec b = Ok (Connect port) -> write_msg Acked (mkSink "" None) = (Ok tt, mkSink ("" ++s frame b') None) ->
  dial_loopback env port = Ok tcp -> sk_room (pe_sink tcp) = None -> (String.length data <= pe_taken tcp)%nat -> Forall nonempty (pe_reads tcp) ->
  handle_conn env 1 order (g, frame b ++s data, mkSink "" None) =
    (Ok (Tunnel (Some (mkSink (sk_out (pe_sink tcp) ++s data) None))), (g, ""%string, mkSink (frame b' ++s String.concat "" (pe_reads tcp)) None)).
Proof.
  intros Hf Hv Hw' Hd Hroom Htk Hpe. destruct tcp as [prs [po pr] ptk]. cbn in Hroom, Hpe, Htk. subst pr. cbn [handle_conn].
  rewrite (read_msg_frame b (Connect port)) by done. unfold handle_connect. rewrite Hd, Hw'. unfold splice_bidi. cbn [pe_reads pe_sink pe_taken].
  rewrite take_ge by (etransitivity; [apply reads_count|done]). rewrite !pipe_all by (done || apply reads_nonempty). by rewrite reads_concat.
Qed.

(** C14: A client of an exposed port and the program that listens on it in the guest
    exchange exactly their bytes: the host opens the tunnel with the wire protocol, the
    guest agent dials the port and answers, and from then on the program gets what the
    client sent and the client gets what the program wrote, then the end of the stream,
    for any bytes and however they are cut, when nothing breaks and the program reads to
    the end. *)
Theorem exposed_port_transparent (env : GuestEnv) `{SerdeLaws Request} `{SerdeLaws Response} (debug : Response -> string)
    (order : Child -> list (Pipe * string)) (g : Guest) (port : Z) (tcp : Peer) (cut : string -> list Got) (ups : list Got) (client : Half) :
  sendable (Connect port) -> sendable Acked -> dial_loopback env port = Ok tcp -> sk_room (pe_sink tcp) = None ->
  (String.length (got_bytes ups) <= pe_taken tcp)%nat -> Forall nonempty (pe_reads tcp) -> Forall steady ups ->
  (forall s, Forall steady (cut s) /\ got_bytes (cut s) = s) -> sk_room (h_sink client) = None ->
  exists reply sent client' guest' given,
    serve_client debug (Ok tt) port true reply cut ups client = (Some (client', guest'), sent) /\
    handle_conn env 1 order (g, sk_out sent, mkSink "" None) = (Ok (Tunnel (Some given)), (g, ""%string, mkSink reply None)) /\
    sk_out given = sk_out (pe_sink tcp) ++s got_bytes ups /\
    sk_out (h_sink client') = sk_out (h_sink client) ++s String.concat "" (pe_reads tcp) /\ h_fin client' = true.
Proof.
  intros Hc Ha Hd Hroom Htk Hpe Hup Hcut Hcl. destruct (write_msg_ok (Connect port) "" Hc) as (b & Hw & Hf & Hv).
  destruct (write_msg_ok Acked "" Ha) as (b' & Hw' & Hf' & Hv'). destruct client as [[co cr] cf]. cbn in Hcl. subst cr.
  exists (frame b' ++s String.concat "" (pe_reads tcp)). unfold serve_client, open_tunnel. rewrite Hw, (read_msg_frame b' Acked) by done. cbn [splice].
  destruct (Hcut (String.concat "" (pe_reads tcp))) as [Hs E]. unfold pump. cbn [h_sink]. rewrite !copy_all, E by done.
  eexists _, _, _, _. split; [done|]. split; [by apply (guest_tunnel env order g port)|done].
Qed.

(** A request to a port of the guest brings back what the program there wrote, and the
    program got the request, when nothing breaks and the program says something. *)
Theorem port_proxied (env : GuestEnv) `{SerdeLaws Request} `{SerdeLaws Response} (debug : Response -> string)
    (order : Child -> list (Pipe * string)) (g : Guest) (port : Z) (tcp : Peer) (guest_path : string) (cut : string -> list Answered) :
  sendable (Connect port) -> sendable Acked -> dial_loopback env port = Ok tcp -> sk_room (pe_sink tcp) = None ->
  (String.length (proxy_request guest_path) <= pe_taken tcp)%nat -> Forall nonempty (pe_reads tcp) -> pe_reads tcp <> [] ->
  (forall s resp, read_answer (cut s) resp = Ok (resp ++s s)) ->
  exists reply sent given,
    proxy_port_http debug (Ok tt) port guest_path cut (reply, mkSink "" None) = (Ok (String.concat "" (pe_reads tcp)), (""%string, sent)) /\
    handle_conn env 1 order (g, sk_out sent, mkSink "" None) = (Ok (Tunnel (Some given)), (g, ""%string, mkSink reply None)) /\
    sk_out given = sk_out (pe_sink tcp) ++s proxy_request guest_path.
Proof.
  intros Hc Ha Hd Hroom Htk Hpe Hne Hcut. destruct (write_msg_ok (Connect port) "" Hc) as (b & Hw & Hf & Hv).
  destruct (write_msg_ok Acked "" Ha) as (b' & Hw' & Hf' & Hv'). exists (frame b' ++s String.concat "" (pe_reads tcp)).
  unfold proxy_port_http, mbind, open_tunnel. rewrite Hw, (read_msg_frame b' Acked) by done. cbn [write_all sk_room sk_out]. rewrite Hcut.
  assert (Hn : exists x y, String.concat "" (pe_reads tcp) = String x y).
  { destruct (pe_reads tcp) as [|[|x p] ps]; [done|by inversion Hpe|]. rewrite concat_cons. cbn. eauto. }
  destruct Hn as (x & y & E). change ("" ++s String.concat "" (pe_reads tcp)) with (String.concat "" (pe_reads tcp)). rewrite E. rewrite <- E.
  eexists _, _. split; [done|]. split; [by apply (guest_tunnel env order g port)|done].
Qed.

(** What a command answers in the guest is what the host gets for it. *)
Theorem command_answered (env : GuestEnv) `{SerdeLaws Request} `{SerdeLaws Response} (debug : Response -> string) connect run
    (order : Child -> list (Pipe * string)) (g g' : Guest) (uds cmd out err : string) (code : Z) :
  connect uds = Ok tt -> sendable (Exec cmd) -> Envd.dispatch env (Exec cmd) g = (Ok (ExecDone code out err), g') -> sendable (ExecDone code out err) ->
  exists sent reply,
    target_exec debug connect run (Vsock uds) cmd (reply, mkSink "" None) = (Ok (code, out, err), (""%string, sent)) /\
    handle_conn env 2 order (g, sk_out sent, mkSink "" None) = (Ok Closed, (g', ""%string, mkSink reply None)).
Proof.
  intros Hcn Hs Hd Hr. destruct (write_msg_ok (Exec cmd) "" Hs) as (b & Hw & Hf & Hv). destruct (write_msg_ok (ExecDone code out err) "" Hr) as (b' & Hw' & Hf' & Hv').
  exists (mkSink (frame b) None), (frame b'). unfold target_exec, exec_on. rewrite Hcn, Hw, <- (app_nil_s (frame b')), (read_msg_frame b' (ExecDone code out err)) by done.
  split; [done|]. cbn [sk_out]. rewrite <- (app_nil_s (frame b)), (conn_turn env 1 order (Exec cmd) b "" g _ eq_refl Hf Hv), Hd, Hw'. by rewrite app_nil_s.
Qed.

Import RefJson RefGuest.

Definition web_server : Peer := mkPeer ["HTTP/1.1 200 OK"; " hello"]%string (mkSink "" None) 100.
Definition web_env : GuestEnv := mkGuestEnv (fun _ => None) (fun _ => []) (fun _ => Ok a_child) (fun _ => false) (fun _ _ => Ok (Ok web_server)) (Err "no terminal"%string).
Definition in_one (s : string) : list Got := match s with EmptyString => [] | _ => [Interrupted; Bytes s] end.

Lemma exposed_port_transparent_witness :
  exists reply sent client' guest' given,
    serve_client (fun _ => ""%string) (Ok tt) 3000 true reply in_one [Bytes "GET "; Interrupted; Bytes "/"] (mkHalf (mkSink "" None) false) = (Some (client', guest'), sent) /\
    handle_conn web_env 1 pieces_of (a_guest, sk_out sent, mkSink "" None) = (Ok (Tunnel (Some given)), (a_guest, ""%string, mkSink reply None)) /\
    sk_out given = "GET /"%string /\ sk_out (h_sink client') = "HTTP/1.1 200 OK hello"%string /\ h_fin client' = true.
Proof.
  apply (exposed_port_transparent web_env (fun _ => ""%string) pieces_of a_guest 3000 web_server in_one [Bytes "GET "; Interrupted; Bytes "/"] (mkHalf (mkSink "" None) false)).
  - split; [split; vm_compute; [discriminate|reflexivity]|]. intros b [= <-]. vm_compute. discriminate.
  - split; [exact I|]. intros b [= <-]. vm_compute. discriminate.
  - reflexivity.
  - reflexivity.
  - cbn. lia.
  - apply Forall_cons; split; [done|]. apply Forall_cons; split; [done|apply Forall_nil; exact I].
  - apply Forall_cons; split; [done|]. apply Forall_cons; split; [exact I|]. apply Forall_cons; split; [done|apply Forall_nil; exact I].
  - intros [|a s]; cbn; (split; [|by rewrite ?app_nil_s]); [apply Forall_nil; exact I|].
    apply Forall_cons; split; [exact I|]. apply Forall_cons; split; [done|apply Forall_nil; exact I].
  - reflexivity.
Defined.

(** After the flag is set no client is accepted any more, and the port is released. *)
Lemma stopped_accepts_none before after a :
  Forall (fun turn => turn.1 = false) before -> exists slept, accept_loop (before ++ (true, a) :: after) = (omap (fun turn => match turn.2 with Client id => Some id | _ => None end) before, slept, true).
Proof.
  induction 1 as [|[b x] before Hb _ [slept IH]]; cbn in *; [by exists 0|]. subst b. rewrite IH. destruct x; eauto.
Qed.
