(* ===== verification/Build.v ===== *)
(** * Building templates (crates/sl-node/src/build.rs)

    A template is built in a microVM of its own: the base root file system is copied,
    the build machine is given the files and the environment and runs the steps, then a
    fresh machine is booted from the result and snapshotted; the digests of the three
    files go into a manifest that is signed and put in the store.  Builds run on the
    host of [Machine], with its processes, networks, API calls and guest agents; the
    store is any implementation of [Store].  The TOML and JSON libraries, SHA-256 and
    ed25519 are parameters; the base image of a [from] is an interface that oci.rs
    implements. *)

From Stdlib Require Import ZArith Lia Bool List String Ascii.
From stdpp Require Import base tactics list gmap strings.
From S2P Require Import Prelude RustStr Utf8 Text Json Auth Store Proto Backend F64 Base64 FileTree Oci Machine NetLive Restore.

Open Scope Z_scope.

(** ** The template *)

Record CopySpec : Type := mkCopy { cp_src : string; cp_dst : string; cp_mode : option string }.

(** [BTreeMap]: pairs in the order of their keys. *)
Notation BTree := (list (string * string)).

Fixpoint btree_insert (k v : string) (m : BTree) : BTree :=
  match m with
  | [] => [(k, v)]
  | (k', v') :: m' => if String.eqb k k' then (k, v) :: m' else if str_lt k k' then (k, v) :: m else (k', v') :: btree_insert k v m'
  end.

(** What the file says; an absent field is none. *)
Record TemplateToml : Type := mkToml {
  tt_name : string;
  tt_version : option string;
  tt_from : option string;
  tt_env : option BTree;
  tt_workdir : option string;
  tt_user : option string;
  tt_copy : option (list CopySpec);
  tt_run : option (list string);
  tt_start_cmd : option string;
  tt_build_network : option string;
  tt_whitelist : option (list string);
  tt_vcpu : option Z;
  tt_mem_mib : option Z
}.

Record Template : Type := mkTemplate {
  t_name : string;
  t_version : option string;
  t_from : option string;
  t_env : BTree;
  t_workdir : option string;
  t_user : option string;
  t_copy : list CopySpec;
  t_run : list string;
  t_start_cmd : option string;
  t_build_network : string;
  t_whitelist : list string;
  t_vcpu : Z;
  t_mem_mib : Z
}.

Definition default_build_network : string := "deny".
Definition default_vcpu : Z := 1.
Definition default_mem_mib : Z := 128.

Definition with_defaults (t : TemplateToml) : Template :=
  mkTemplate (tt_name t) (tt_version t) (tt_from t) (default [] (tt_env t)) (tt_workdir t) (tt_user t) (default [] (tt_copy t))
    (default [] (tt_run t)) (tt_start_cmd t) (default default_build_network (tt_build_network t)) (default [] (tt_whitelist t))
    (default default_vcpu (tt_vcpu t)) (default default_mem_mib (tt_mem_mib t)).

(** ** Small tools *)

Definition contains_sub (p s : string) : bool := match find_at p s with Some _ => true | None => false end.

Definition validate_name (s what : string) : result unit string :=
  if String.eqb s "" || contains_char "/" s || contains_sub ".." s || existsb (fun w => contains_sub w s) white_space || starts_with "." s
  then Err (what ++s " 非法（不得含 / .. 空白或以 . 开头）: " ++s debug_str s)
  else Ok tt.

Definition parent_dir (path : string) : string :=
  match rsplit_once "/" path with
  | Some (EmptyString, _) => "/"
  | Some (d, _) => d
  | None => "."
  end.

(** [data.chunks(3)] *)
Fixpoint base64_encode (data : string) : string :=
  let enc b0 b1 b2 last2 last3 rest :=
    String (b64_at (Z.shiftr b0 2))
      (String (b64_at (Z.lor (Z.shiftl (Z.land b0 3) 4) (Z.shiftr b1 4)))
        (String (if last2 : bool then b64_at (Z.lor (Z.shiftl (Z.land b1 15) 2) (Z.shiftr b2 6)) else "="%char)
          (String (if last3 : bool then b64_at (Z.land b2 63) else "="%char) rest))) in
  match data with
  | EmptyString => ""%string
  | String a EmptyString => enc (byte_val a) 0 0 false false ""%string
  | String a (String b EmptyString) => enc (byte_val a) (byte_val b) 0 true false ""%string
  | String a (String b (String c data')) => enc (byte_val a) (byte_val b) (byte_val c) true true (base64_encode data')
  end.

(** A byte at which a slice of a text may start. *)
Definition boundary (s : string) : bool :=
  match s with EmptyString => true | String c _ => negb ((128 <=? byte_val c) && (byte_val c <? 192)) end.

(** None: the slice is not at a character, and the program panics. *)
Fixpoint unhex_slices (s : string) : option (option string) :=
  match s with
  | String a (String b s') =>
      if boundary s && boundary s' then
        match from_str_radix_16 (String a (String b "")) with
        | Some n => r ← unhex_slices s'; Some (option_map (String (byte_of n)) r)
        | None => Some None
        end
      else None
  | _ => Some (Some ""%string)
  end.
Definition unhex (s : string) : option (option string) :=
  let s := trim s in
  if Nat.odd (String.length s) then Some None else unhex_slices s.

Definition unhex_n (n : nat) (s : string) : option (option string) :=
  r ← unhex s; Some (b ← r; if (String.length b =? n)%nat then Some b else None).
Definition unhex32 : string -> option (option string) := unhex_n 32.
Definition unhex64 : string -> option (option string) := unhex_n 64.

(** ** Parameters *)

Class Ed25519 : Type := {
  public_key : string -> string;
  key_sign : string -> string -> string;
  vk_from_bytes : string -> bool;
  vk_verify : string -> string -> string -> bool
}.

Class Toml : Type := { from_toml : string -> result TemplateToml string }.

Record Adr16Key : Type := mkAdr16 { ak_template : string; ak_kernel : string; ak_vmm : string }.

Record Manifest : Type := mkManifest {
  mf_name : string;
  mf_version : string;
  mf_content_digest : string;
  mf_rootfs_sha256 : string;
  mf_vmstate_sha256 : string;
  mf_mem_sha256 : string;
  mf_adr16_key : Adr16Key;
  mf_build_network : string;
  mf_whitelist : list string;
  mf_vcpu : Z;
  mf_mem_mib : Z;
  mf_env : BTree;
  mf_workdir : option string;
  mf_user : option string;
  mf_start_cmd : option string;
  mf_run_digest : string;
  mf_run_steps : nat;
  mf_oci_source : option string;
  mf_oci_source_digest : option string;
  mf_image_cmd : option (list string);
  mf_image_entrypoint : option (list string);
  mf_pubkey_hex : string;
  mf_created_at : Z
}.

(** [serde_json::to_vec_pretty] of a manifest. *)
Class ManifestJson : Type := { to_vec_pretty : Manifest -> result string string }.

(** What oci.rs makes of a [from]. *)
Record Image : Type := mkImg { im_source : string; im_digest : string; im_rootfs : string; im_config : OciConfig }.
Inductive Base : Type :=
| BaseLocal (p : string)
| BaseImage (i : Image).
Class Images : Type := { resolve_base : string -> HM Base }.

(** The command line's part, with the environment variables the build reads. *)
Record BuildConfig : Type := mkBuildConfig {
  bc_cfg : Config;
  bc_rootfs : string;
  bc_store : option string;
  bc_home : option string;
  bc_dns : option string
}.

Inductive NetPlan : Type := Offline | Egress | RootRequired.

Definition net_plan (build_network : string) (root : bool) : result NetPlan string :=
  if String.eqb build_network "deny" || String.eqb build_network "whitelist" then Ok Offline
  else if String.eqb build_network "allow-all" then Ok (if root then Egress else RootRequired)
  else Err ("build_network 未知取值: " ++s debug_str build_network).

Definition lift_h {A} (r : result A string) : HM A := fun m => (r, m).

Section Build.
Context (Sha256 : string -> string) `{Ed25519} `{Toml} `{ManifestJson} `{Images} (cfg : BuildConfig).

Definition setup_build_net (tmpl : Template) (id : string) : HM (option LiveNet) :=
  let? root := is_root in
  let? plan := lift_h (net_plan (t_build_network tmpl) root) in
  match plan with
  | Offline => mret None
  | RootRequired => mfail "build_network=allow-all 需 root（ip/nft/netns 建 netns+NAT）；请 sudo，或改用 deny"
  | Egress =>
      let? uplink := match cf_uplink (bc_cfg cfg) with Some u => mret (Some u) | None => detect_uplink root end in
      match uplink with
      | None => mfail "未能确定上行网卡（--uplink <dev>）"
      | Some uplink => let? net := net_up id (ns_for id) uplink root in mret (Some net)
      end
  end.

(** ** Talking to the guest *)

(** A command whose exit code has to be zero. *)
Definition exec_ok (stream cmd what : string) : HM unit :=
  let? r := guest_exec stream cmd in
  let '(c, _, err) := r in
  if negb (c =? 0) then mfail (what ++s err) else mret tt.

Definition configure_guest_dns (stream : string) : HM unit :=
  let dns := default "1.1.1.1"%string (bc_dns cfg) in
  let? r := guest_exec stream ("printf 'nameserver %s\n' '" ++s dns ++s "' > /etc/resolv.conf") in
  let '(rc, _, e) := r in
  if negb (rc =? 0) then mfail ("guest 写 resolv.conf 失败（rc=" ++s dec rc ++s "）: " ++s trim e) else mret tt.

(** [bytes.chunks(n)] *)
Fixpoint chunks_of (fuel n : nat) (s : string) : list string :=
  match fuel, s with
  | S k, String _ _ => str_take n s :: chunks_of k n (str_drop n s)
  | _, _ => []
  end.

Definition B64_CHUNK : nat := Z.to_nat 60000.

Definition inject_file (stream dst mode data : string) : HM unit :=
  let b64 := base64_encode data in
  let tmp := dst ++s ".slb64" in
  let dir := parent_dir dst in
  let? _ := exec_ok stream ("mkdir -p '" ++s dir ++s "' && rm -f '" ++s tmp ++s "'") "建目录/清临时失败: " in
  let? _ := mfor (chunks_of (String.length b64) B64_CHUNK b64)
              (fun s => exec_ok stream ("printf %s '" ++s s ++s "' >> '" ++s tmp ++s "'") "写 base64 分块失败: ") in
  exec_ok stream ("base64 -d '" ++s tmp ++s "' > '" ++s dst ++s "' && chmod " ++s mode ++s " '" ++s dst ++s "' && rm -f '" ++s tmp ++s "'")
    "解码/落盘失败: ".

Definition env_line (k v : string) : string := k ++s "=" ++s v ++s lf.

Definition env_body (env : BTree) (workdir user : option string) : string :=
  "# sl-envd 构建期环境（ADR-18，sl-node --build 生成）" ++s lf ++s
  String.concat "" (map (fun kv => env_line kv.1 kv.2) env) ++s
  match workdir with Some w => env_line "SL_WORKDIR" w | None => ""%string end ++s
  match user with Some u => env_line "SL_USER" u | None => ""%string end.

Definition write_build_env (stream : string) (env : BTree) (workdir user : option string) : HM unit :=
  match env, workdir, user with
  | [], None, None => mret tt
  | _, _, _ => map_err (fun e => "写构建期 env 失败: " ++s e) (inject_file stream "/etc/sl-envd/env" "0644" (env_body env workdir user))
  end.

Definition assert_no_identity (stream when : string) : HM unit :=
  let? r := guest_exec stream "cat /etc/machine-id 2>/dev/null || true" in
  let '(_, out, _) := r in
  if negb (String.eqb (trim out) "") then
    mfail ("D5 违背（" ++s when ++s "）：/etc/machine-id 非空（=" ++s debug_str (trim out) ++s "）——预烘焙点前禁固定身份，" ++s
           "否则克隆共享 machine-id（ADR-12）。请勿在 base/RUN 里预置 machine-id。")
  else mret tt.

(** ** The machines *)

Definition boot_line (net : option LiveNet) : string :=
  match net with
  | Some _ => boot_args ++s " ip=" ++s GUEST_IP ++s "::" ++s GW_IP ++s ":255.255.255.252::eth0:off"
  | None => boot_args
  end.

Definition boot_build (api_host rootfs vsock : string) (vcpu mem_mib : Z) (net : option LiveNet) : HM string :=
  let put path fs := api_call api_host "PUT" path (raw_object fs) in
  let? _ := wait_api_ready api_host in
  let? _ := put "/machine-config"%string [("vcpu_count"%string, dec vcpu); ("mem_size_mib"%string, dec mem_mib)] in
  let? _ := put "/boot-source"%string
              [("kernel_image_path"%string, quoted (cf_kernel (bc_cfg cfg))); ("boot_args"%string, quoted (boot_line net))] in
  let? _ := put "/drives/rootfs"%string
              [("drive_id"%string, quoted "rootfs"); ("path_on_host"%string, quoted rootfs);
               ("is_root_device"%string, "true"%string); ("is_read_only"%string, "false"%string)] in
  let? _ := match net with
            | Some n => put "/network-interfaces/eth0"%string
                          [("iface_id"%string, quoted "eth0"); ("host_dev_name"%string, quoted (ln_tap n)); ("guest_mac"%string, quoted GUEST_MAC)]
            | None => mret tt
            end in
  let? _ := put "/vsock"%string [("guest_cid"%string, dec GUEST_CID); ("uds_path"%string, quoted vsock)] in
  let? _ := put "/actions"%string [("action_type"%string, quoted "InstanceStart")] in
  let? stream := wait_guest vsock in
  let? _ := because "设读超时失败" host_call in
  let? _ := ping stream "build" "Ping 自检失败: " in
  mret stream.

Definition fc_args (api_host : string) (net : option LiveNet) : list string :=
  match net with
  | Some n => ["ip"; "netns"; "exec"; ln_ns n; cf_fc_bin (bc_cfg cfg); "--api-sock"; api_host]%string
  | None => [cf_fc_bin (bc_cfg cfg); "--api-sock"; api_host]%string
  end.

Definition boot_and_connect (api_host console_log rootfs vsock : string) (vcpu mem_mib : Z) (net : option LiveNet) : HM (nat * string) :=
  let? child := spawn_with_log (fc_args api_host net) console_log in
  let? stream := or_cleanup (boot_build api_host rootfs vsock vcpu mem_mib net) (kill_group child) id in
  mret (child, stream).

(** [c], then the machine and its sockets go, and the network, whatever [c] answered. *)
Definition then_drop {A} (c : HM A) (child : nat) (api_host vsock : string) (net : option LiveNet) : HM A :=
  let? r := mtry c in
  let? _ := drop_vm child api_host vsock in
  let? _ := match net with Some n => net_down n | None => mret tt end in
  lift_h r.

(** A file of the context: where it goes, with which mode, and its bytes. *)
Notation Copied := (string * string * string)%type.

Definition run_step (stream : string) (i : nat) (step : string) : HM unit :=
  let? r := guest_exec stream step in
  let '(code, _, _) := r in
  if negb (code =? 0) then mfail ("RUN 第 " ++s dec (Z.of_nat i + 1) ++s " 步失败（exit=" ++s dec code ++s "）: " ++s step) else mret tt.

Fixpoint run_steps (stream : string) (i : nat) (steps : list string) : HM unit :=
  match steps with
  | [] => mret tt
  | s :: steps' => let? _ := run_step stream i s in run_steps stream (S i) steps'
  end.

Definition build_steps (stream : string) (tmpl : Template) (copies : list Copied) (net : option LiveNet)
    (env : BTree) (workdir user : option string) : HM unit :=
  let? _ := assert_no_identity stream "构建前 base rootfs" in
  let? _ := match net with Some _ => configure_guest_dns stream | None => mret tt end in
  let? _ := mfor copies (fun '(dst, mode, data) =>
              map_err (fun e => "COPY → " ++s dst ++s " 失败: " ++s e) (inject_file stream dst mode data)) in
  let? _ := write_build_env stream env workdir user in
  let? _ := run_steps stream 0 (t_run tmpl) in
  let? _ := assert_no_identity stream "RUN 之后" in
  let? r := guest_exec stream "sync" in
  if negb (r.1.1 =? 0) then mfail "sync 刷盘失败" else mret tt.

(** The network and the machine that are there when the boot or the time limit fails
    stay. *)
Definition run_build_phase (dir rootfs console_log : string) (tmpl : Template) (copies : list Copied)
    (env : BTree) (workdir user : option string) : HM unit :=
  let vsock := join_path dir "vsock.sock" in
  let api_host := join_path dir "api.sock" in
  let? net := setup_build_net tmpl dir in
  let? vm := boot_and_connect api_host console_log rootfs vsock (t_vcpu tmpl) (t_mem_mib tmpl) net in
  let '(child, stream) := vm in
  let? _ := map_err (fun e => "设 RUN 读超时失败: " ++s e) host_call in
  then_drop (build_steps stream tmpl copies net env workdir user) child api_host vsock net.

(** The last name of a directory. *)
Definition base_name (dir : string) : string := match rsplit_once "/" dir with Some (_, n) => n | None => dir end.

Definition bake_steps (stream api_host dir vmstate mem name : string) (tmpl : Template) : HM unit :=
  let? _ := match t_start_cmd tmpl with
            | None => mret tt
            | Some sc =>
                if contains_char "'" sc then mfail "start_cmd 含单引号，暂不支持"
                else
                  let? r := guest_exec stream ("setsid sh -c '" ++s sc ++s "' >/dev/null 2>&1 &") in
                  let '(c, _, err) := r in
                  if negb (c =? 0) then mfail ("拉起 start_cmd 失败（exit=" ++s dec c ++s "）: " ++s err) else mret tt
            end in
  let token := "sl-tmpl-" ++s name in
  let? r := guest_exec stream ("echo " ++s token ++s " > /tmp/sl-snap-marker") in
  let? _ := if negb (r.1.1 =? 0) then mfail "播种 marker 失败" else mret tt in
  let? _ := guest_exec stream "sleep 2" in
  let? r := guest_exec stream "cat /proc/uptime" in
  match head (split_whitespace r.1.2) ≫= parse_f64 with
  | None => mfail "读 guest uptime 失败"
  | Some snap_uptime =>
      let? _ := patch_vm api_host "Paused" in
      let? n := host_call in
      let? _ := emit (EApi api_host "PUT" "/snapshot/create"
                  (raw_object [("snapshot_type"%string, quoted "Full"); ("snapshot_path"%string, quoted vmstate); ("mem_file_path"%string, quoted mem)])) in
      let? img := observe (fun e _ => e_memory e n) in
      let? _ := on_disk (write_over vmstate img.1) in
      let? _ := on_disk (write_over mem img.2) in
      let? _ := map_err (fun e => "写 expect 失败: " ++s e) host_call in
      on_disk (write_over (join_path dir "expect") (token ++s lf ++s display_f64 snap_uptime ++s lf))
  end.

Definition run_prebake_phase (dir rootfs vmstate mem console_log : string) (tmpl : Template) : HM unit :=
  let vsock := join_path dir "vsock.sock" in
  let api_host := join_path dir "api.sock" in
  let? _ := mfor [vmstate; mem; vsock; api_host] (fun f => quietly (remove_file f)) in
  let? vm := boot_and_connect api_host console_log rootfs vsock (t_vcpu tmpl) (t_mem_mib tmpl) None in
  let '(child, stream) := vm in
  then_drop (bake_steps stream api_host dir vmstate mem (base_name dir) tmpl) child api_host vsock None.

(** ** Digests and keys *)

Definition sha256_file (path : string) : HM string :=
  let? c := map_err (fun e => "打开 " ++s path ++s " 失败: " ++s e) (read_file path) in
  let? _ := map_err (fun e => "哈希 " ++s path ++s " 失败: " ++s e) host_call in
  mret (Sha256 c).

Definition nul : string := String "000" "".
(** [x.to_le_bytes()] of [n] bytes. *)
Fixpoint le_bytes (n : nat) (x : Z) : string :=
  match n with O => ""%string | S n' => String (byte_of x) (le_bytes n' (Z.shiftr x 8)) end.

Definition terminated (l : list string) : string := String.concat "" (map (fun s => s ++s nul) l).

(** The bytes that are hashed. *)
Definition build_input (tmpl : Template) (base_key kernel_digest vmm_version : string) (copies : list Copied) : string :=
  "sl-build-id-v1" ++s nul ++s t_name tmpl ++s nul ++s
  le_bytes 8 (Z.of_nat (String.length base_key)) ++s base_key ++s kernel_digest ++s vmm_version ++s nul ++s t_build_network tmpl ++s nul ++s
  le_bytes 4 (t_vcpu tmpl) ++s le_bytes 4 (t_mem_mib tmpl) ++s
  terminated (t_whitelist tmpl) ++s terminated (t_run tmpl) ++s
  String.concat "" (map (fun '(dst, mode, data) =>
    dst ++s nul ++s mode ++s nul ++s le_bytes 8 (Z.of_nat (String.length data)) ++s data) copies) ++s
  terminated (map (fun kv => kv.1 ++s "=" ++s kv.2) (t_env tmpl)) ++s
  terminated (map (default ""%string) [t_workdir tmpl; t_user tmpl; t_start_cmd tmpl]).

Definition compute_build_id (tmpl : Template) (base_key kernel_digest vmm_version : string) (copies : list Copied) : string :=
  Sha256 (build_input tmpl base_key kernel_digest vmm_version copies).

Definition key_dir : HM string :=
  match bc_home cfg with Some h => mret (join_path h ".sandlocker") | None => mfail "未设置 HOME，无法定位签名密钥" end.

(** A buffer of [n] zeros, filled from its start. *)
Definition filled (n : nat) (got : string) : string := str_take n (got ++s be_bytes n 0).

Definition set_mode_600 (path : string) : HM unit := quietly host_call.

Definition load_or_create_key : HM string :=
  let? dir := key_dir in
  let path := join_path dir "signing.key" in
  let? r := mtry (read_file path) in
  match r with
  | Ok bytes => if (String.length bytes =? 32)%nat then mret bytes else mfail ("签名密钥长度非 32 字节: " ++s path)
  | Err _ =>
      let? got := host_random 32 in
      let secret := filled 32 got in
      let? _ := map_err (fun e => "建密钥目录失败: " ++s e) (create_dir_all dir) in
      let? _ := map_err (fun e => "写签名密钥失败: " ++s e) host_call in
      let? _ := on_disk (write_over path secret) in
      let? _ := set_mode_600 path in
      mret secret
  end.

Definition sign (key msg : string) : string := key_sign key msg.

(** None: a panic in [unhex]. *)
Definition verify (pubkey_hex sig_hex msg : string) : option bool :=
  pk ← unhex32 pubkey_hex;
  match pk with
  | None => Some false
  | Some pk =>
      sig ← unhex64 sig_hex;
      match sig with
      | None => Some false
      | Some sig => Some (vk_from_bytes pk && vk_verify pk msg sig)
      end
  end.

Definition firecracker_version : HM string :=
  let? r := mtry host_call in
  match r with
  | Err _ => mret "unknown"%string
  | Ok n =>
      let? out := observe (fun e _ => e_out e n) in
      mret (default "unknown"%string
        (l ← (if valid_utf8 out then head (lines out) else None); if String.eqb (trim l) "" then None else Some (trim l)))
  end.

Definition now_unix : HM Z := observe (fun e k => e_wall_ns e k / 1000000000).

(** ** The build *)

Definition in_range (lo hi x : Z) : bool := (lo <=? x) && (x <=? hi).

Definition check_template (t : Template) : result unit string :=
  match validate_name (t_name t) "name" with
  | Err e => Err e
  | Ok _ =>
      if negb (existsb (String.eqb (t_build_network t)) ["deny"; "allow-all"; "whitelist"]%string) then
        Err ("build_network 取值 deny|allow-all|whitelist，得到 " ++s debug_str (t_build_network t))
      else if negb (in_range 1 32 (t_vcpu t)) then Err ("vcpu 取值 1..=32，得到 " ++s dec (t_vcpu t))
      else if t_mem_mib t <? 128 then Err ("mem_mib 至少 128（MiB），得到 " ++s dec (t_mem_mib t))
      else match t_version t with Some v => validate_name v "version" | None => Ok tt end
  end.

Definition load_template (toml_path : string) : HM Template :=
  let? text := map_err (fun e => "读模板失败 " ++s toml_path ++s ": " ++s e) (read_to_string toml_path) in
  let? t := map_err (fun e => "解析 sandlocker.toml 失败: " ++s e) (lift_h (from_toml text)) in
  let t := with_defaults t in
  let? _ := lift_h (check_template t) in
  mret t.

(** Where the root file system is, what it counts for in the version, and the image. *)
Definition find_base (tmpl : Template) : HM (string * string * option Image) :=
  let? base := resolve_base (default (bc_rootfs cfg) (t_from tmpl)) in
  match base with
  | BaseLocal p =>
      let? there := path_exists p in
      if negb there then mfail ("base rootfs(from) 不存在: " ++s p)
      else let? d := sha256_file p in mret (p, d, None)
  | BaseImage i => mret (im_rootfs i, im_digest i, Some i)
  end.

(** [toml_path.parent()] of a path that does not end in a slash, joined with [src]. *)
Definition context_file (toml_path src : string) : string :=
  if starts_with "/" src then src
  else match rsplit_once "/" toml_path with
       | Some (d, _) => d ++s "/" ++s src
       | None => src
       end.

Fixpoint read_copies (toml_path : string) (cs : list CopySpec) : HM (list Copied) :=
  match cs with
  | [] => mret []
  | c :: cs' =>
      if contains_char "'" (cp_dst c) then mfail ("COPY dst 含单引号，暂不支持: " ++s debug_str (cp_dst c))
      else
        let src := context_file toml_path (cp_src c) in
        let? data := map_err (fun e => "读 COPY 源失败 " ++s src ++s ": " ++s e) (read_file src) in
        let? rest := read_copies toml_path cs' in
        mret ((cp_dst c, default "0644"%string (cp_mode c), data) :: rest)
  end.

Definition merged_env (img : option Image) (env : BTree) : BTree :=
  fold_left (fun m kv => btree_insert kv.1 kv.2 m) env
    (fold_left (fun m kv => btree_insert kv.1 kv.2 m) (match img with Some i => oc_env (im_config i) | None => [] end) []).

Definition or_image (o : option string) (img : option Image) (f : OciConfig -> option string) : option string :=
  match o with Some s => Some s | None => i ← img; f (im_config i) end.

Definition nonempty_list (l : list string) : option (list string) := match l with [] => None | _ => Some l end.

(** What a build leaves. *)
Record Artifact : Type := mkArtifact { ar_manifest : Manifest; ar_bytes : string; ar_sig : string }.

Definition TEMPLATES_ROOT : string := "build/templates".
Definition out_dir (name version : string) : string := join_path (join_path TEMPLATES_ROOT name) version.

Definition make_manifest (tmpl : Template) (version kernel_digest vmm_version rootfs_d vmstate_d mem_d pubkey : string)
    (img : option Image) (now : Z) : Manifest :=
  mkManifest (t_name tmpl) version (hex (Sha256 (rootfs_d ++s vmstate_d ++s mem_d))) (hex rootfs_d) (hex vmstate_d) (hex mem_d)
    (mkAdr16 version (str_take 12 (hex kernel_digest)) vmm_version) (t_build_network tmpl) (t_whitelist tmpl) (t_vcpu tmpl) (t_mem_mib tmpl)
    (merged_env img (t_env tmpl)) (or_image (t_workdir tmpl) img oc_workdir) (or_image (t_user tmpl) img oc_user) (t_start_cmd tmpl)
    (hex (Sha256 (terminated (t_run tmpl)))) (length (t_run tmpl)) (im_source <$> img) (im_digest <$> img)
    (i ← img; nonempty_list (oc_cmd (im_config i))) (i ← img; nonempty_list (oc_entrypoint (im_config i)))
    (hex pubkey) now.

(** The new directory, with nothing of an older build of the same version. *)
Definition fresh_dir (name version : string) : HM string :=
  let out := out_dir name version in
  let? there := path_exists out in
  let? _ := if (there : bool) then map_err (fun e => "清理旧产物失败: " ++s e) (remove_dir_all out) else mret tt in
  let? _ := map_err (fun e => "建产物目录失败: " ++s e) (create_dir_all out) in
  abspath out.

Definition write_bytes (path content what : string) : HM unit :=
  let? _ := map_err (fun e => what ++s e) host_call in on_disk (write_over path content).

(** The signature is over the bytes that are written. *)
Definition sign_manifest (dir key : string) (mf : Manifest) : HM Artifact :=
  let? bytes := map_err (fun e => "序列化 manifest 失败: " ++s e) (lift_h (to_vec_pretty mf)) in
  let? _ := write_bytes (join_path dir "manifest.json") bytes "写 manifest.json 失败: " in
  let sig := sign key bytes in
  let? _ := write_bytes (join_path dir "manifest.sig") (hex sig) "写 manifest.sig 失败: " in
  mret (mkArtifact mf bytes sig).

Definition require_tool (label p : string) : HM unit :=
  let? there := path_exists p in
  if (there : bool) then mret tt else mfail (label ++s " 不存在: " ++s p).

Definition build_artifact (toml_path : string) : HM Artifact :=
  let? tmpl := load_template toml_path in
  let? _ := require_tool "kernel" (cf_kernel (bc_cfg cfg)) in
  let? _ := require_tool "firecracker" (cf_fc_bin (bc_cfg cfg)) in
  let? base := find_base tmpl in
  let '(base_rootfs, base_key, img) := base in
  let? copies := read_copies toml_path (t_copy tmpl) in
  let? vmm_version := firecracker_version in
  let? kernel_digest := sha256_file (cf_kernel (bc_cfg cfg)) in
  let build_id := compute_build_id tmpl base_key kernel_digest vmm_version copies in
  let version := default (str_take 12 (hex build_id)) (t_version tmpl) in
  let? dir := fresh_dir (t_name tmpl) version in
  let rootfs := join_path dir "rootfs.ext4" in
  let vmstate := join_path dir "vmstate" in
  let mem := join_path dir "mem" in
  let? _ := map_err (fun e => "拷贝 base rootfs 失败: " ++s e) (copy_file base_rootfs rootfs) in
  let? _ := run_build_phase dir rootfs (join_path dir "console.build.log") tmpl copies
              (merged_env img (t_env tmpl)) (or_image (t_workdir tmpl) img oc_workdir) (or_image (t_user tmpl) img oc_user) in
  let? _ := run_prebake_phase dir rootfs vmstate mem (join_path dir "console.bake.log") tmpl in
  let? rootfs_d := sha256_file rootfs in
  let? vmstate_d := sha256_file vmstate in
  let? mem_d := sha256_file mem in
  let? key := load_or_create_key in
  let? now := now_unix in
  sign_manifest dir key (make_manifest tmpl version kernel_digest vmm_version rootfs_d vmstate_d mem_d (public_key key) img now).

(** ** The store *)

Context {St : Type} `{Store St}.

Definition template_key (name version : string) : string := "template/" ++s name ++s "/" ++s version.

Definition publish (a : Artifact) : M St string unit :=
  let name := mf_name (ar_manifest a) in
  let version := mf_version (ar_manifest a) in
  let? _ := fun s => match text (put (template_key name version) (ar_bytes a) None) s with
                     | (Err e, s') => (Err ("写 store（版本）失败: " ++s e), s')
                     | (Ok _, s') => (Ok tt, s')
                     end in
  fun s => match text (put (template_key name "latest") version None) s with
           | (Err e, s') => (Err ("写 store（latest）失败: " ++s e), s')
           | (Ok _, s') => (Ok tt, s')
           end.

(** The directory of the database. *)
Definition store_dir : string := parent_dir (default (join_path TEMPLATES_ROOT "sl.db") (bc_store cfg)).

Definition build (toml_path : string) : M (Machine * St) string Artifact := fun '(m, s) =>
  match (let? a := build_artifact toml_path in
         let? _ := map_err (fun e => "建 store 目录失败: " ++s e) (create_dir_all store_dir) in
         let? _ := map_err (fun e => "打开 store 失败: " ++s e) host_call in
         mret a) m with
  | (Err e, m') => (Err e, (m', s))
  | (Ok a, m') => match publish a s with (Ok _, s') => (Ok a, (m', s')) | (Err e, s') => (Err e, (m', s')) end
  end.
End Build.
