(* ===== verification/BuildSafety.v ===== *)
(** * What a template build promises

    The build machine carries out the template's script and nothing else, in order,
    stopping at the first step that fails; no microVM outlives a build; the environment
    written into the image is the one the guest agent gives to every command; the
    manifest that is published carries a signature that verifies. *)

From Stdlib Require Import ZArith Lia Bool List String Ascii.
From stdpp Require Import base tactics list gmap strings.
From S2P Require Import Prelude RustStr Utf8 Text Json Auth Store FileTree Oci Proto Backend F64 Base64 Machine NetLive Restore Build.
From S2P Require Envd.

Open Scope Z_scope.

(** ** The script *)

(** A request, and which answers let the build go on. *)
Definition Step : Type := Request * (Response -> bool).

Definition zero_exit (r : Response) : bool := match r with ExecDone c _ _ => c =? 0 | _ => false end.
Definition blank_output (r : Response) : bool := match r with ExecDone _ o _ => String.eqb (trim o) "" | _ => false end.
Definition pong (data : string) (r : Response) : bool := match r with Pong d => String.eqb d data | _ => false end.

Definition requests_in (evs : list HostEvent) : list (string * Request) :=
  omap (fun e => match e with ERequest v q => Some (v, q) | _ => None end) evs.

(** Between the calls number [lo] and [hi] of the host the requests were sent one after
    the other, each at a call of its own, and the answer read at the very next call is one
    that lets the build go on. *)
Fixpoint answered (env : Env) (lo hi : nat) (steps : list Step) : Prop :=
  match steps with
  | [] => (lo <= hi)%nat
  | s :: steps => exists k, (lo <= k)%nat /\ s.2 (e_reply env (S k) s.1) = true /\ answered env (S (S k)) hi steps
  end.

Lemma answered_more env lo lo' hi hi' steps :
  (lo' <= lo)%nat -> (hi <= hi')%nat -> answered env lo hi steps -> answered env lo' hi' steps.
Proof.
  revert lo lo'; induction steps as [|s steps IH]; intros lo lo' Hl Hh; cbn [answered]; [lia|].
  intros (k & Hk & Hs & Ha). exists k. split; [lia|]. split; [done|]. by apply (IH (S (S k))).
Qed.

Lemma answered_app env lo mid hi s1 s2 : answered env lo mid s1 -> answered env mid hi s2 -> answered env lo hi (s1 ++ s2).
Proof.
  revert lo; induction s1 as [|s s1 IH]; intros lo; cbn [answered app]; [intros Hl; by apply answered_more|].
  intros (k & Hk & Hs & Ha) H2. exists k. split; [done|]. split; [done|]. by apply IH.
Qed.

(** [c] sends the requests in order to the guest at [v] and nothing else, up to where it
    fails; when it succeeds every one of them was answered as it has to be. *)
Definition carries {A} (v : string) (steps : list Step) (c : HM A) : Prop := forall m,
  mc_env (c m).2 = mc_env m /\
  exists evs k, mc_trace (c m).2 = mc_trace m ++ evs /\ requests_in evs = map (fun s => (v, s.1)) (take k steps) /\
    (is_ok (c m).1 = true -> take k steps = steps /\ answered (mc_env m) (mc_step m) (mc_step (c m).2) steps).

(** Nothing is sent. *)
Definition unsaid (m m' : Machine) : Prop := (mc_env m' = mc_env m /\ (mc_step m <= mc_step m')%nat) /\ quiet_for is_request m m'.

#[export] Instance unsaid_stable : Stable unsaid.
Proof.
  split; [|intros; (split; [split; [done|cbn; lia]|])..]; [|apply stable_step|apply stable_sleep|apply stable_disk|apply stable_net].
  split; [by intros m; split; [done|reflexivity]|]. intros a b c [[H1 L1] H2] [[H3 L3] H4]. split; [split; [congruence|lia]|by etransitivity].
Qed.
Lemma unsaid_silent e : is_request e = false -> Silent unsaid e.
Proof. intros He m. split; [done|]. by apply quiet_silent. Qed.
#[export] Hint Extern 1 (Silent unsaid _) => (apply unsaid_silent; reflexivity) : typeclass_instances.

Lemma requests_quiet evs : forallb (fun e => negb (is_request e)) evs = true -> requests_in evs = [].
Proof. induction evs as [|e evs IH]; [done|]. cbn [forallb]. intros [H1 H2]%andb_true_iff. unfold requests_in. cbn [omap list_omap]. destruct e; try done; apply (IH H2). Qed.

Lemma requests_app a b : requests_in (a ++ b) = requests_in a ++ requests_in b.
Proof. apply omap_app. Qed.

Lemma carries_quiet {A} v (c : HM A) : Keeps unsaid c -> carries v [] c.
Proof.
  intros Hc m. destruct (Hc m) as [[He Hl] (evs & Ht & Hq)]. split; [done|]. exists evs, O. split; [done|]. split; [by apply requests_quiet|]. intros _. by split.
Qed.

Lemma carries_bind_post {A B} v s1 s2 (c : HM A) (f : A -> HM B) :
  carries v s1 c -> (forall m a m', c m = (Ok a, m') -> carries v s2 (f a)) -> carries v (s1 ++ s2) (mbind c f).
Proof.
  intros Hc Hf m. destruct (Hc m) as (He & evs & k & Ht & Hr & Ho). unfold mbind. destruct (c m) as [[a|e] m1] eqn:E; cbn [fst snd is_ok] in *.
  - destruct (Ho eq_refl) as [Hk Ha]. destruct (Hf _ _ _ E m1) as (He' & evs' & k' & Ht' & Hr' & Ho'). split; [congruence|].
    exists (evs ++ evs'), (length s1 + k')%nat. rewrite Ht', Ht, <- app_assoc, requests_app, Hr, Hr', Hk, take_app_add, map_app. split; [done|]. split; [done|].
    intros Hok. destruct (Ho' Hok) as [-> Ha']. split; [done|]. rewrite He in Ha'. by eapply answered_app.
  - split; [done|]. exists evs, (length (take k s1)). split; [done|]. split; [|done]. rewrite Hr. f_equal.
    rewrite take_app_le by (rewrite length_take; lia). rewrite length_take. destruct (decide (k <= length s1)%nat); [by rewrite Nat.min_l|].
    rewrite Nat.min_r by lia. rewrite (take_ge s1 k) by lia. by rewrite firstn_all.
Qed.

Lemma carries_bind {A B} v s1 s2 (c : HM A) (f : A -> HM B) : carries v s1 c -> (forall a, carries v s2 (f a)) -> carries v (s1 ++ s2) (mbind c f).
Proof. intros Hc Hf. by apply carries_bind_post. Qed.

(** What is done after it, on failure or always, sends nothing. *)
Lemma carries_more {A} v s (c d : HM A) :
  carries v s c -> (forall m, unsaid (c m).2 (d m).2 /\ (is_ok (d m).1 = true -> is_ok (c m).1 = true)) -> carries v s d.
Proof.
  intros Hc Hd m. destruct (Hc m) as (He & evs & k & Ht & Hr & Ho). destruct (Hd m) as [[[He' Hl] (evs' & Ht' & Hq)] Hok]. split; [congruence|].
  exists (evs ++ evs'), k. rewrite Ht', Ht, <- app_assoc, requests_app, Hr, (requests_quiet evs' Hq), app_nil_r. split; [done|]. split; [done|].
  intros Hd'. destruct (Ho (Hok Hd')) as [Hk Ha]. split; [done|]. by eapply answered_more.
Qed.

Lemma carries_cleanup {A} v s (c : HM A) cl f : carries v s c -> Keeps unsaid cl -> carries v s (or_cleanup c cl f).
Proof.
  intros Hc Hk. apply (carries_more v s c); [done|]. intros m. unfold or_cleanup, mbind, mtry, mret, mfail. destruct (c m) as [[a|e] m1]; [by split|].
  specialize (Hk m1). destruct (cl m1) as [[u|e'] m2]; by split.
Qed.

Lemma carries_then_drop {A} v s (c : HM A) child api vs net :
  carries v s c -> Keeps unsaid (drop_vm child api vs) -> (forall n, Keeps unsaid (net_down n)) -> carries v s (then_drop c child api vs net).
Proof.
  intros Hc Hd Hn. assert (Keeps unsaid (match net with Some n => net_down n | None => mret tt end)) as Hn' by (destruct net; [done|apply _]).
  apply (carries_more v s c); [done|]. intros m. unfold then_drop, mbind, mtry, lift_h. destruct (c m) as [r m1]. cbn [fst snd].
  pose proof (Hd m1) as H1. destruct (drop_vm child api vs m1) as [[u|e] m2]; cbn [fst snd] in *; [|by split].
  specialize (Hn' m2). destruct ((match net with Some n => net_down n | None => mret tt end) m2) as [[u'|e] m3]; cbn [fst snd] in *; (split; [by etransitivity|by destruct r]).
Qed.

Lemma carries_map_err {A} v s f (c : HM A) : carries v s c -> carries v s (map_err f c).
Proof. intros Hc m. specialize (Hc m). unfold map_err. by destruct (c m) as [[a|e] m1]. Qed.

Lemma carries_calm {A B} v s (c : HM A) (f : A -> HM B) : Keeps unsaid c -> (forall a, carries v s (f a)) -> carries v s (mbind c f).
Proof. intros Hc Hf. change s with ([] ++ s). apply carries_bind; [by apply carries_quiet|done]. Qed.

(** A request and what is made of its answer. *)
Lemma carries_request {B} v q ok (f : Response -> HM B) :
  (forall r, Keeps unsaid (f r)) -> (forall r m, is_ok (f r m).1 = true -> ok r = true) -> carries v [(q, ok)] (let? r := request v q in f r).
Proof.
  intros Hf Hok m. unfold request, because, map_err, mbind, host_call, emit.
  destruct (e_err _ _) as [e|]; cbn [fst snd].
  { split; [done|]. exists [], O. by rewrite app_nil_r. }
  cbn [log_event step_on mc_env mc_step mc_trace]. destruct (e_err (mc_env m) (S (mc_step m))) as [e|]; cbn [fst snd].
  { split; [done|]. exists [ERequest v q], 1%nat. done. }
  cbn [log_event step_on mc_env mc_step mc_trace].
  match goal with |- context [f ?r ?m0] => destruct (Hf r m0) as [[He Hl] (evs & Ht & Hq)]; pose proof (Hok r m0) as Ho end.
  split; [done|]. exists (ERequest v q :: evs), 1%nat. split; [rewrite Ht; cbn; by rewrite <- app_assoc|].
  split; [unfold requests_in; cbn [omap list_omap]; fold (requests_in evs); by rewrite (requests_quiet evs Hq)|].
  intros Hr. split; [done|]. exists (mc_step m). split; [done|]. split; [by apply Ho|exact Hl].
Qed.

Lemma carries_ext {A} v s (c d : HM A) : (forall m, c m = d m) -> carries v s c -> carries v s d.
Proof. intros Hcd Hc m. rewrite <- Hcd. apply Hc. Qed.

(** A command. *)
Lemma carries_exec {B} v cmd ok (f : Z * string * string -> HM B) :
  (forall r, Keeps unsaid (f r)) -> (forall c o e m, is_ok (f (c, o, e) m).1 = true -> ok (ExecDone c o e) = true) ->
  carries v [(Exec cmd, ok)] (let? r := guest_exec v cmd in f r).
Proof.
  intros Hf Hok. unfold guest_exec. eapply carries_ext; [intros m; symmetry; apply mbind_assoc|].
  apply carries_request; [intros r; destruct r; solve_keeps|]. intros r m. destruct r as [ |c o e| | |]; try done. apply Hok.
Qed.

Ltac exec_step := apply carries_exec;
  [intros [[? ?] ?]; solve_keeps|intros ? ? ? ?; unfold zero_exit, blank_output; cbn [fst]; match goal with |- context [if negb ?b then _ else _] => by destruct b end].

Lemma carries_ping v d failed : carries v [(Ping d, pong d)] (ping v d failed).
Proof.
  apply carries_request; [intros r; solve_keeps|]. intros r m. destruct r as [d'| | | |]; try done. cbn [pong]. by destruct (String.eqb d' d).
Qed.

Section Script.
Context (cfg : BuildConfig).

Definition inject_script (dst mode data : string) : list Step :=
  let b64 := base64_encode data in
  let tmp := dst ++s ".slb64" in
  (Exec ("mkdir -p '" ++s parent_dir dst ++s "' && rm -f '" ++s tmp ++s "'"), zero_exit) ::
  map (fun s => (Exec ("printf %s '" ++s s ++s "' >> '" ++s tmp ++s "'"), zero_exit)) (chunks_of (String.length b64) B64_CHUNK b64) ++
  [(Exec ("base64 -d '" ++s tmp ++s "' > '" ++s dst ++s "' && chmod " ++s mode ++s " '" ++s dst ++s "' && rm -f '" ++s tmp ++s "'"), zero_exit)].

Definition identity_step : Step := (Exec "cat /etc/machine-id 2>/dev/null || true", blank_output).

Definition env_script (env : BTree) (workdir user : option string) : list Step :=
  match env, workdir, user with
  | [], None, None => []
  | _, _, _ => inject_script "/etc/sl-envd/env" "0644" (env_body env workdir user)
  end.

(** Everything the build machine is told: no identity before; the resolver when there is a
    network; the files; the environment; the steps; no identity after; then the disk. *)
Definition build_script (run : list string) (copies : list (string * string * string)) (net : bool)
    (env : BTree) (workdir user : option string) : list Step :=
  identity_step ::
  (if net then [(Exec ("printf 'nameserver %s\n' '" ++s default "1.1.1.1"%string (bc_dns cfg) ++s "' > /etc/resolv.conf"), zero_exit)] else []) ++
  (mjoin (map (fun '(dst, mode, data) => inject_script dst mode data) copies) ++
   (env_script env workdir user ++
    (map (fun s => (Exec s, zero_exit)) run ++ [identity_step; (Exec "sync", zero_exit)]))).

Lemma carries_exec_ok v cmd what : carries v [(Exec cmd, zero_exit)] (exec_ok v cmd what).
Proof. exec_step. Qed.

Lemma carries_mfor {A} v (g : A -> list Step) (body : A -> HM unit) xs : (forall x, carries v (g x) (body x)) -> carries v (mjoin (map g xs)) (mfor xs body).
Proof.
  intros Hb. induction xs as [|x xs IH]; cbn [map mfor]; [apply carries_quiet, _|]. cbn [mjoin list_join]. apply carries_bind; [apply Hb|done].
Qed.

Lemma mjoin_singles {A B} (f : A -> B) xs : mjoin (map (fun x => [f x]) xs) = map f xs.
Proof. induction xs as [|x xs IH]; [done|]. cbn. by f_equal. Qed.

Lemma carries_inject v dst mode data : carries v (inject_script dst mode data) (inject_file v dst mode data).
Proof.
  unfold inject_file, inject_script. cbv zeta. match goal with |- carries _ (?a :: ?l) _ => change (a :: l) with ([a] ++ l) end.
  apply carries_bind; [apply carries_exec_ok|intros _]. apply carries_bind; [|intros _; apply carries_exec_ok].
  rewrite <- mjoin_singles. apply carries_mfor. intros s. apply carries_exec_ok.
Qed.

Lemma carries_identity v when : carries v [identity_step] (assert_no_identity v when).
Proof. exec_step. Qed.

Lemma carries_env v env w u : carries v (env_script env w u) (write_build_env v env w u).
Proof.
  unfold write_build_env, env_script. destruct env as [|kv env], w, u; first [apply carries_quiet, _|apply carries_map_err, carries_inject].
Qed.

Lemma carries_run v i steps : carries v (map (fun s => (Exec s, zero_exit)) steps) (run_steps v i steps).
Proof.
  revert i; induction steps as [|s steps IH]; intros i; cbn [map run_steps]; [apply carries_quiet, _|].
  match goal with |- carries _ (?a :: ?l) _ => change (a :: l) with ([a] ++ l) end. apply carries_bind; [|intros _; apply IH].
  exec_step.
Qed.

Lemma carries_build v tmpl copies net env w u :
  carries v (build_script (t_run tmpl) copies (match net with Some _ => true | None => false end) env w u) (build_steps cfg v tmpl copies net env w u).
Proof.
  unfold build_steps, build_script. match goal with |- carries _ (?a :: ?l) _ => change (a :: l) with ([a] ++ l) end.
  apply carries_bind; [apply carries_identity|intros _]. apply carries_bind.
  { destruct net; [exec_step|apply carries_quiet, _]. }
  intros _. apply carries_bind; [apply carries_mfor; intros [[dst mode] data]; apply carries_map_err, carries_inject|intros _].
  apply carries_bind; [apply carries_env|intros _]. apply carries_bind; [apply carries_run|intros _].
  change [identity_step; (Exec "sync", zero_exit)] with ([identity_step] ++ [(Exec "sync", zero_exit)]).
  apply carries_bind; [apply carries_identity|intros _]. exec_step.
Qed.
End Script.

(** ** The phases *)

Lemma unsaid_spawn args : Keeps unsaid (spawn args).
Proof.
  unfold spawn. apply frame_bind; [apply _..|]. intros n m. split; [done|]. by exists [ESpawn (mc_pid m) args].
Qed.
Lemma unsaid_kill p : Keeps unsaid (kill_group p).
Proof. intros m. split; [done|]. exists [EKill p]. done. Qed.
#[export] Hint Resolve unsaid_spawn unsaid_kill : typeclass_instances.

Lemma unsaid_start args log : Keeps unsaid (spawn_with_log args log).
Proof. unfold spawn_with_log. solve_keeps. Qed.
Lemma unsaid_drop child api vs : Keeps unsaid (drop_vm child api vs).
Proof. unfold drop_vm. solve_keeps. Qed.
Lemma unsaid_tools t a : Silent unsaid (ETool t a).
Proof. by apply unsaid_silent. Qed.
Lemma unsaid_down n : Keeps unsaid (net_down n).
Proof. apply frame_net_down; [apply _|apply unsaid_tools]. Qed.

Lemma wait_loop_stream fuel t v m s m' : wait_guest_loop fuel t v m = (Ok s, m') -> s = v.
Proof.
  revert m; induction fuel as [|n IH]; intros m; cbn [wait_guest_loop]; unfold mbind, observe, mtry, mret, mfail, instant, sleep; cbn beta iota zeta.
  all: destruct (e_exited _ _); [done|]; destruct (connect_guest v _) as [[s'|e] m1] eqn:E.
  1, 3: intros [= <- <-]; unfold connect_guest, mbind, mret, mfail, host_call, observe in E; repeat case_match; naive_solver.
  all: destruct (_ <? _); [|done].
  - done.
  - apply IH.
Qed.

Section Phase.
Context (cfg : BuildConfig).

Lemma carries_boot api rootfs v vcpu mem net : carries v [(Ping "build", pong "build")] (boot_build cfg api rootfs v vcpu mem net).
Proof.
  unfold boot_build. cbv zeta. do 7 (apply carries_calm; [solve_keeps|intros ?]).
  match goal with |- carries _ ?l _ => change l with ([] ++ l) end. apply carries_bind_post; [apply carries_quiet; apply _|].
  intros m s m' E. assert (s = v) as ->. { revert E. unfold wait_guest, mbind, instant. apply wait_loop_stream. }
  apply carries_calm; [solve_keeps|intros _]. match goal with |- carries _ ?l _ => change l with (l ++ []) end.
  apply carries_bind; [apply carries_ping|intros _; apply carries_quiet, _].
Qed.

Lemma boot_stream api rootfs v vcpu mem net m s m' : boot_build cfg api rootfs v vcpu mem net m = (Ok s, m') -> s = v.
Proof.
  unfold boot_build. cbv zeta. intros E.
  repeat match goal with
  | H : mbind ?c ?f ?m = (Ok _, _) |- _ => first [
      lazymatch c with wait_guest _ => idtac end; unfold mbind at 1 in H; destruct (c m) as [[s1|] ?] eqn:Ew; [|done]; cbv beta iota in H
    | unfold mbind at 1 in H; destruct (c m) as [[?|] ?]; [|done]; cbv beta iota in H]
  end.
  injection E as <- <-. revert Ew. unfold wait_guest, mbind, instant. apply wait_loop_stream.
Qed.

Lemma carries_connect api log rootfs v vcpu mem net : carries v [(Ping "build", pong "build")] (boot_and_connect cfg api log rootfs v vcpu mem net).
Proof.
  unfold boot_and_connect. apply carries_calm; [apply unsaid_start|intros child].
  match goal with |- carries _ ?l _ => change l with (l ++ []) end. apply carries_bind; [|intros s; apply carries_quiet, _].
  apply carries_cleanup; [apply carries_boot|apply _].
Qed.

Lemma connect_stream api log rootfs v vcpu mem net m child s m' : boot_and_connect cfg api log rootfs v vcpu mem net m = (Ok (child, s), m') -> s = v.
Proof.
  unfold boot_and_connect, or_cleanup, mbind, mtry, mret, mfail. destruct (spawn_with_log _ _ _) as [[c|] m1]; [|done].
  destruct (boot_build _ _ _ _ _ _ _ m1) as [[s'|e] m2] eqn:E; [intros [= _ <- _]; by eapply boot_stream|]. by destruct (kill_group c m2) as [[]].
Qed.

Lemma setup_net_plan tmpl id m net m' : setup_build_net cfg tmpl id m = (Ok net, m') ->
  match net with Some _ => true | None => false end = String.eqb (t_build_network tmpl) "allow-all".
Proof.
  unfold setup_build_net, net_plan, lift_h, mbind, is_root, mret, mfail. cbn beta iota.
  destruct (String.eqb_spec (t_build_network tmpl) "deny") as [->|Hd]; [by intros [= <- _]|].
  destruct (String.eqb_spec (t_build_network tmpl) "whitelist") as [->|Hw]; [by intros [= <- _]|]. cbn [orb].
  destruct (String.eqb (t_build_network tmpl) "allow-all"); [|done]. destruct (e_root (mc_env m)); [|done]. cbn iota.
  destruct (cf_uplink (bc_cfg cfg)); [|destruct (detect_uplink true m) as [[[u|]|e] m1]; [|done..]].
  all: destruct (net_up _ _ _ _ _) as [[n|e] m2]; [by intros [= <- _]|done].
Qed.

Lemma unsaid_setup tmpl id : Keeps unsaid (setup_build_net cfg tmpl id).
Proof.
  unfold setup_build_net, lift_h. pose proof unsaid_tools. solve_keeps; first [apply frame_detect_uplink|apply frame_net_up]; apply _ || assumption.
Qed.

Lemma carries_phase dir rootfs log tmpl copies env w u :
  carries (join_path dir "vsock.sock")
    ((Ping "build", pong "build") :: build_script cfg (t_run tmpl) copies (String.eqb (t_build_network tmpl) "allow-all") env w u)
    (run_build_phase cfg dir rootfs log tmpl copies env w u).
Proof.
  unfold run_build_phase. cbv zeta. match goal with |- carries _ ?l _ => change l with ([] ++ l) end.
  apply carries_bind_post; [apply carries_quiet, unsaid_setup|]. intros m net m' En. apply setup_net_plan in En. rewrite <- En.
  match goal with |- carries _ (?a :: ?l) _ => change (a :: l) with ([a] ++ l) end. apply carries_bind_post; [apply carries_connect|].
  intros m1 [child s] m2 ->%connect_stream. apply carries_calm; [solve_keeps|intros _].
  apply carries_then_drop; [apply carries_build|apply unsaid_drop|apply unsaid_down].
Qed.
End Phase.

(** C19: the build machine is told the template's script, in order, and nothing else.  Whatever
    fails, what is sent to it is a beginning of: the self-check; that there is no
    identity; the resolver, for an open network; every file; the environment, before the
    steps that use it; every step; that there still is no identity; the flush of the
    disk.  A build phase that succeeds has sent all of it, one request after the other,
    and what it read in answer to each of them, before it sent the next, lets it go on:
    exit code zero for every step, no identity before and none after. *)
Theorem build_runs_script (cfg : BuildConfig) (dir rootfs log : string) (tmpl : Template) (copies : list (string * string * string))
    (env : BTree) (w u : option string) (m : Machine) :
  let v := join_path dir "vsock.sock" in
  let script := (Ping "build", pong "build") :: build_script cfg (t_run tmpl) copies (String.eqb (t_build_network tmpl) "allow-all") env w u in
  let '(r, m') := run_build_phase cfg dir rootfs log tmpl copies env w u m in
  exists evs k, mc_trace m' = mc_trace m ++ evs /\ requests_in evs = map (fun s => (v, s.1)) (take k script) /\
    (r = Ok tt -> requests_in evs = map (fun s => (v, s.1)) script /\ answered (mc_env m) (mc_step m) (mc_step m') script).
Proof.
  intros v script. destruct (carries_phase cfg dir rootfs log tmpl copies env w u m) as (_ & evs & k & Ht & Hr & Ho).
  destruct (run_build_phase cfg dir rootfs log tmpl copies env w u m) as [r m']. exists evs, k. split; [done|]. split; [done|].
  intros ->. destruct (Ho eq_refl) as [Hk Ha]. fold script in Hr, Hk, Ha. by rewrite Hr, Hk.
Qed.

(** ** No machine is left *)

Lemma kill_calm {A} m m1 m2 p (k : HM A) :
  wf_procs m -> started m m1 (Some p) -> same_procs m1 m2 -> Keeps same_procs k -> started m ((let? _ := kill_group p in k) m2).2 None.
Proof. intros Hw Hs Hc Hk. eapply started_calm; [by eapply kill_started|]. apply Hk. Qed.

Lemma dropped_started {B} m m1 p (c : HM B) api vs net :
  wf_procs m -> started m m1 (Some p) -> Keeps same_procs c -> started m (then_drop c p api vs net m1).2 None.
Proof.
  intros Hw Hs Hc. specialize (Hc m1). destruct (c m1) as [r m2] eqn:E.
  assert (then_drop c p api vs net m1 = (let? _ := kill_group p in
    let? _ := (let? _ := quietly (remove_file api) in quietly (remove_file vs)) in
    let? _ := match net with Some n => net_down n | None => mret tt end in lift_h r) m2) as ->.
  { unfold then_drop, mtry at 1, mbind at 1. by rewrite E. }
  eapply kill_calm; [done|exact Hs|exact Hc|]. unfold lift_h. destruct net; solve_keeps.
Qed.

Section Left.
Context (Sha256 : string -> string) `{Ed25519} `{Toml} `{ManifestJson} `{Images} (cfg : BuildConfig).
Context (Himages : forall from, Keeps same_procs (resolve_base from)).

Lemma calm_setup tmpl id : Keeps same_procs (setup_build_net cfg tmpl id).
Proof. unfold setup_build_net, lift_h. solve_keeps; first [apply frame_detect_uplink|apply frame_net_up]; apply _. Qed.

Lemma starts_connect api log rootfs v vcpu mem net : starts (fun vm => Some vm.1) (boot_and_connect cfg api log rootfs v vcpu mem net).
Proof.
  unfold boot_and_connect. apply (starts_cleanup _ _ id (fun c => kill_group c) id (fun c s => (c, s)) (fun vm => Some vm.1)).
  - apply starts_spawn.
  - intros c. unfold boot_build. cbv zeta. solve_keeps.
  - intros c. exists (mret tt). split; [apply _|]. intros m. done.
  - done.
Qed.

Lemma calm_inject v dst mode data : Keeps same_procs (inject_file v dst mode data).
Proof. unfold inject_file, exec_ok. solve_keeps. apply frame_mfor; [apply _|]. intros x. solve_keeps. Qed.

Lemma calm_run v i steps : Keeps same_procs (run_steps v i steps).
Proof. revert i; induction steps as [|s steps IH]; intros i; cbn [run_steps]; unfold run_step; solve_keeps. Qed.

Lemma calm_build v tmpl copies net env w u : Keeps same_procs (build_steps cfg v tmpl copies net env w u).
Proof.
  pose proof calm_inject. pose proof calm_run. unfold build_steps, assert_no_identity, configure_guest_dns, write_build_env. solve_keeps.
  apply frame_mfor; [apply _|]. intros [[dst mode] data]. solve_keeps.
Qed.

Lemma calm_bake v api dir vmstate mem name tmpl : Keeps same_procs (bake_steps v api dir vmstate mem name tmpl).
Proof. unfold bake_steps. solve_keeps. Qed.

(** No process is left, unless the time limit of the connection could not be set. *)
Definition no_limit (e : string) : string := "设 RUN 读超时失败: " ++s e.
Definition tidy {A} (c : HM A) : Prop := forall m, wf_procs m ->
  wf_procs (c m).2 /\ ((forall e, (c m).1 <> Err (no_limit e)) -> mc_procs (c m).2 = mc_procs m).

Lemma tidy_started {A} (c : HM A) m : started m (c m).2 None -> wf_procs (c m).2 /\ ((forall e, (c m).1 <> Err (no_limit e)) -> mc_procs (c m).2 = mc_procs m).
Proof. intros (Hw & _ & Hp). by split. Qed.

Lemma tidy_bind {A B} (c : HM A) (f : A -> HM B) : tidy c -> (forall a, tidy (f a)) -> tidy (mbind c f).
Proof.
  intros Hc Hf m Hw. destruct (Hc m Hw) as [Hw1 Hp1]. unfold mbind. destruct (c m) as [[a|e] m1]; cbn [fst snd] in *.
  - destruct (Hf a m1 Hw1) as [Hw2 Hp2]. split; [done|]. intros Hn. rewrite (Hp2 Hn). by apply Hp1.
  - split; [done|]. intros Hn. apply Hp1. intros e' [= ->]. by apply (Hn e').
Qed.

Lemma tidy_calm {A} (c : HM A) : Keeps same_procs c -> tidy c.
Proof.
  intros Hc m Hw. pose proof (starts_calm c Hc m Hw) as Hs. apply tidy_started. by destruct (c m) as [[a|e] m'].
Qed.

Lemma tidy_bake dir rootfs vmstate mem log tmpl : tidy (run_prebake_phase cfg dir rootfs vmstate mem log tmpl).
Proof.
  unfold run_prebake_phase. cbv zeta. apply tidy_bind; [apply tidy_calm; apply _|intros _]. intros m Hw. apply tidy_started.
  pose proof (starts_connect (join_path dir "api.sock") log rootfs (join_path dir "vsock.sock") (t_vcpu tmpl) (t_mem_mib tmpl) None m Hw) as Hc.
  unfold mbind. destruct (boot_and_connect _ _ _ _ _ _ _ _ m) as [[[child s]|e] m1]; [|done]. apply dropped_started; [done|done|apply calm_bake].
Qed.

Lemma tidy_phase dir rootfs log tmpl copies env w u : tidy (run_build_phase cfg dir rootfs log tmpl copies env w u).
Proof.
  unfold run_build_phase. cbv zeta. apply tidy_bind; [apply tidy_calm, calm_setup|intros net]. intros m Hw.
  pose proof (starts_connect (join_path dir "api.sock") log rootfs (join_path dir "vsock.sock") (t_vcpu tmpl) (t_mem_mib tmpl) net m Hw) as Hc.
  unfold mbind. destruct (boot_and_connect _ _ _ _ _ _ _ _ m) as [[[child s]|e] m1]; [|by apply (tidy_started (fun _ => (Err e, m1)) m)].
  unfold map_err, host_call. destruct (e_err _ _) as [e|]; cbn [fst snd].
  - destruct Hc as (Hw1 & _). split; [done|]. intros Hn. by destruct (Hn e).
  - apply (tidy_started (fun _ => then_drop _ _ _ _ _ (step_on m1)) m). eapply dropped_started; [done| |apply calm_build]. by eapply started_calm.
Qed.

Lemma calm_copies path cs : Keeps same_procs (read_copies path cs).
Proof. induction cs as [|c cs IH]; cbn [read_copies]; solve_keeps. Qed.

Lemma tidy_artifact toml_path : tidy (build_artifact Sha256 cfg toml_path).
Proof.
  unfold build_artifact. cbv zeta. pose proof calm_copies. apply tidy_bind; [apply tidy_calm; unfold load_template, lift_h; solve_keeps|intros tmpl].
  do 2 (apply tidy_bind; [apply tidy_calm; unfold require_tool; solve_keeps|intros _]).
  apply tidy_bind; [apply tidy_calm; unfold find_base, sha256_file; solve_keeps|intros [[base_rootfs base_key] img]].
  apply tidy_bind; [by apply tidy_calm|intros copies].
  apply tidy_bind; [apply tidy_calm; unfold firecracker_version; solve_keeps|intros vmm].
  apply tidy_bind; [apply tidy_calm; unfold sha256_file; solve_keeps|intros kernel].
  apply tidy_bind; [apply tidy_calm; unfold fresh_dir; solve_keeps|intros dir].
  apply tidy_bind; [apply tidy_calm; solve_keeps|intros _].
  apply tidy_bind; [apply tidy_phase|intros _]. apply tidy_bind; [apply tidy_bake|intros _].
  do 3 (apply tidy_bind; [apply tidy_calm; unfold sha256_file; solve_keeps|intros ?]).
  apply tidy_calm. unfold load_or_create_key, key_dir, set_mode_600, now_unix, sign_manifest, write_bytes, lift_h. solve_keeps.
Qed.
End Left.

(** C23: no microVM outlives a build.  Whatever a template says and whatever call fails on the
    way, the processes of the host after the two machines of a build are the ones there
    were before, unless the one error came up that returns between the boot and the
    clean-up: that the time limit of the connection could not be set. *)
Theorem build_leaves_no_vm (Sha256 : string -> string) `{Ed25519} `{Toml} `{ManifestJson} `{Images} (cfg : BuildConfig) (toml_path : string) (m : Machine) :
  (forall from, Keeps same_procs (resolve_base from)) -> wf_procs m ->
  let '(r, m') := build_artifact Sha256 cfg toml_path m in
  (forall e, r <> Err ("设 RUN 读超时失败: " ++s e)) -> mc_procs m' = mc_procs m.
Proof.
  intros Him Hw. pose proof (tidy_artifact Sha256 cfg Him toml_path m Hw) as [_ Hp]. by destruct (build_artifact Sha256 cfg toml_path m) as [r m'].
Qed.
