(* ===== verification/BuildEnv.v ===== *)
(** * From the template's environment to the guest's commands

    [write_build_env] of build.rs writes the merged environment of a template into the
    image, in pieces of base64 that a shell puts together; [apply_env_file] of the guest
    agent reads it before every command.  Together they hand a command exactly the
    variables of the template. *)

From Stdlib Require Import ZArith Lia Bool List String Ascii Sorted.
From stdpp Require Import base tactics list gmap strings.
From S2P Require Oci.
From S2P Require Import Prelude RustStr Utf8 Text Json Auth Proto Base64 NetLive Build Envd.

Open Scope Z_scope.

(** ** The transport *)



(** The four indices of three bytes. *)
Lemma indices b0 b1 b2 : 0 <= b0 < 256 -> 0 <= b1 < 256 -> 0 <= b2 < 256 ->
  let n := or3 b0 b1 b2 in
  Z.land (Z.shiftr n 18) 63 = Z.shiftr b0 2 /\
  Z.land (Z.shiftr n 12) 63 = Z.lor (Z.shiftl (Z.land b0 3) 4) (Z.shiftr b1 4) /\
  Z.land (Z.shiftr n 6) 63 = Z.lor (Z.shiftl (Z.land b1 15) 2) (Z.shiftr b2 6) /\
  Z.land (Z.shiftr n 0) 63 = Z.land b2 63.
Proof.
  intros H0 H1 H2 n. unfold n. rewrite or3_add, !sextet_mod by lia. change 63 with (Z.ones 6). change 3 with (Z.ones 2). change 15 with (Z.ones 4).
  rewrite !Z.land_ones, !Z.shiftr_div_pow2 by lia. change (2 ^ 18) with 262144. change (2 ^ 16) with 65536. change (2 ^ 12) with 4096.
  change (2 ^ 8) with 256. change (2 ^ 6) with 64. change (2 ^ 4) with 16. change (2 ^ 2) with 4. change (2 ^ 0) with 1.
  rewrite (lor_add _ (b1 / 16) 4), (lor_add _ (b2 / 64) 2) by first [lia|split; [apply Z.div_pos; lia|apply Z.div_lt_upper_bound; lia]]. change (2 ^ 4) with 16. change (2 ^ 2) with 4.
  repeat split; Z.to_euclidean_division_equations; lia.
Qed.

(** The encoder of build.rs is the one of api.rs. *)
Lemma base64_same s : base64_encode s = b64_encode s.
Proof.
  induction s as [| | |a b c s IH] using three_bytes; cbn [base64_encode b64_encode]; cbv zeta; unfold sextet.
  - done.
  - pose proof (byte_val_range a). destruct (indices (byte_val a) 0 0) as (-> & -> & _); [lia..|]. done.
  - pose proof (byte_val_range a). pose proof (byte_val_range b). destruct (indices (byte_val a) (byte_val b) 0) as (-> & -> & -> & _); [lia..|]. done.
  - pose proof (byte_val_range a). pose proof (byte_val_range b). pose proof (byte_val_range c).
    destruct (indices (byte_val a) (byte_val b) (byte_val c)) as (-> & -> & -> & ->); [lia..|]. by rewrite IH.
Qed.

Lemma chunks_concat fuel n s : (0 < n)%nat -> (String.length s <= fuel)%nat -> String.concat "" (chunks_of fuel n s) = s.
Proof.
  intros Hn. revert s; induction fuel as [|k IH]; intros [|c s] Hl; [done|cbn in Hl; lia|done|]. cbn [chunks_of]. rewrite concat_cons, IH; [apply str_take_drop|].
  destruct n as [|n]; [lia|]. cbn [str_drop]. cbn [String.length] in Hl. rewrite str_drop_length. lia.
Qed.

Lemma chunks_spec fuel n s p : p ∈ chunks_of fuel n s -> (String.length p <= n)%nat /\ forall c, contains_char c s = false -> contains_char c p = false.
Proof.
  revert s; induction fuel as [|k IH]; intros [|d s]; cbn [chunks_of]; [by intros ?%not_elem_of_nil..|]. set (t := String d s). intros [->|Hin]%elem_of_cons.
  - split; [rewrite str_take_length; lia|]. intros c Hc. rewrite <- (str_take_drop n t), contains_char_app in Hc. by apply orb_false_iff in Hc as [? _].
  - destruct (IH _ Hin) as [Hl Hc]. split; [done|]. intros c Ht. apply Hc. rewrite <- (str_take_drop n t), contains_char_app in Ht. by apply orb_false_iff in Ht as [_ ?].
Qed.

Lemma sextet_not_quote n k : 0 <= k -> Ascii.eqb "'" (sextet n k) = false.
Proof. intros Hk. apply Ascii.eqb_neq. intros E. pose proof (sextet_val n k Hk) as Hv. by rewrite <- E in Hv. Qed.

Lemma b64_no_quote s : contains_char "'" (b64_encode s) = false.
Proof.
  induction s as [| | |a b c s IH] using three_bytes; cbn [b64_encode]; cbv zeta; [done|..]; cbn [contains_char]; rewrite !sextet_not_quote by done; done || apply IH.
Qed.

(** ** The file *)

(** A line that comes back as it was written. *)
Definition line_safe (l : string) : bool := negb (contains_char newline l) && String.eqb (trim l) l && negb (ends_with (String "013" "") l).

(** A variable that is no comment and none of the two settings. *)
Definition var_ok (k v : string) : bool :=
  line_safe (k ++s "=" ++s v) && negb (contains_char "=" k) && negb (starts_with "#" (k ++s "=" ++s v)) &&
  negb (String.eqb k "SL_WORKDIR") && negb (String.eqb k "SL_USER").

Lemma lines_cons l rest : line_safe l = true -> lines (l ++s String newline rest) = l :: lines rest.
Proof.
  unfold line_safe, ends_with. rewrite !andb_true_iff, !negb_true_iff. intros [[Hn _] Hr]. unfold lines. rewrite split_sep_app by done.
  destruct (split newline rest) as [|p ps] eqn:E; [by apply split_nonempty in E|]. cbn [chomp]. by destruct (strip_suffix (String "013" "") l).
Qed.

Lemma env_line_app k v rest : env_line k v ++s rest = (k ++s "=" ++s v) ++s String newline rest.
Proof. unfold env_line, lf. by rewrite !app_assoc_s. Qed.

Section Apply.
Context (genv : GuestEnv).

Lemma apply_var cmd k v : var_ok k v = true -> apply_line genv cmd (k ++s "=" ++s v) = mkCommand (cm_script cmd) (cm_env cmd ++ [(k, v)]) (cm_cwd cmd).
Proof.
  unfold var_ok, line_safe. rewrite !andb_true_iff, !negb_true_iff. intros [[[[[[_ Ht%String.eqb_eq] _] He] Hh] Hw] Hu]. unfold apply_line. rewrite Ht, Hh.
  replace (String.eqb (k ++s "=" ++s v) "") with false by by destruct k. cbn [orb].
  change ("=" ++s v) with (String "=" v). rewrite (proj2 (split_once_some "=" _ k v) (conj eq_refl He)), Hw, Hu. done.
Qed.

Lemma apply_vars env rest cmd : Forall (fun kv => var_ok kv.1 kv.2 = true) env ->
  fold_left (apply_line genv) (lines (String.concat "" (map (fun kv => env_line kv.1 kv.2) env) ++s rest)) cmd =
  fold_left (apply_line genv) (lines rest) (mkCommand (cm_script cmd) (cm_env cmd ++ env) (cm_cwd cmd)).
Proof.
  intros Hf. revert cmd; induction Hf as [|[k v] env Hkv Hf IH]; intros cmd; cbn [map]; [by rewrite app_nil_r; destruct cmd|].
  cbn [fst snd] in Hkv. rewrite concat_cons, app_assoc_s, env_line_app. cbn [fst snd].
  rewrite lines_cons by (unfold var_ok in Hkv; rewrite !andb_true_iff in Hkv; tauto). cbn [fold_left].
  rewrite apply_var by done. rewrite IH. cbn [cm_script cm_env cm_cwd]. by rewrite <- app_assoc.
Qed.

Definition cwd_of (w : option string) : option string :=
  match w with Some x => if negb (String.eqb x "") && gv_is_dir genv x then Some x else None | None => None end.

Lemma apply_workdir w rest cmd : cm_cwd cmd = None -> (forall x, w = Some x -> line_safe ("SL_WORKDIR=" ++s x) = true) ->
  fold_left (apply_line genv) (lines (match w with Some x => env_line "SL_WORKDIR" x | None => ""%string end ++s rest)) cmd =
  fold_left (apply_line genv) (lines rest) (mkCommand (cm_script cmd) (cm_env cmd) (cwd_of w)).
Proof.
  intros Hc Hw. destruct w as [x|]; [|cbn; by destruct cmd; cbn in *; subst]. specialize (Hw x eq_refl).
  rewrite env_line_app. change ("SL_WORKDIR" ++s "=" ++s x) with ("SL_WORKDIR=" ++s x). rewrite lines_cons by done. cbn [fold_left]. f_equal. unfold apply_line. unfold line_safe in Hw. rewrite !andb_true_iff in Hw. destruct Hw as [[_ ->%String.eqb_eq] _].
  assert (split_once "=" ("SL_WORKDIR=" ++s x) = Some ("SL_WORKDIR"%string, x)) as -> by by apply split_once_some.
  cbn -[cwd_of]. unfold cwd_of. destruct (negb _ && _); [done|]. by destruct cmd; cbn in *; subst.
Qed.

Lemma apply_user u cmd : (forall x, u = Some x -> line_safe ("SL_USER=" ++s x) = true) ->
  fold_left (apply_line genv) (lines (match u with Some x => env_line "SL_USER" x | None => ""%string end)) cmd = cmd.
Proof.
  intros Hu. destruct u as [x|]; [|done]. specialize (Hu x eq_refl).
  rewrite <- (app_nil_s (env_line "SL_USER" x)), env_line_app. change ("SL_USER" ++s "=" ++s x) with ("SL_USER=" ++s x). rewrite lines_cons by done. cbn [fold_left]. unfold apply_line. unfold line_safe in Hu. rewrite !andb_true_iff in Hu. destruct Hu as [[_ ->%String.eqb_eq] _].
  by assert (split_once "=" ("SL_USER=" ++s x) = Some ("SL_USER"%string, x)) as -> by by apply split_once_some.
Qed.
End Apply.

(** ** The merged environment *)

(** The representation of a [BTreeMap]: every key once, in order. *)
Definition btree_ok (m : BTree) : Prop := StronglySorted (fun a b => str_lt a b = true) m.*1.
Fixpoint btree_get (k : string) (m : BTree) : option string :=
  match m with [] => None | (k', v) :: m' => if String.eqb k k' then Some v else btree_get k m' end.

Lemma str_trichotomy a b : String.eqb a b = false -> str_lt a b = false -> str_lt b a = true.
Proof.
  intros Hn Hl. apply str_lt_compare. rewrite String.compare_antisym. destruct (a ?= b)%string eqn:E; [|by rewrite (proj2 (str_lt_compare a b) E) in Hl|done].
  apply String.compare_eq_iff in E. by apply String.eqb_neq in Hn.
Qed.

Lemma insert_keys k v m x : x ∈ (btree_insert k v m).*1 -> x = k \/ x ∈ m.*1.
Proof.
  induction m as [|[k' v'] m IH]; cbn [btree_insert fmap list_fmap]; [by intros ?%list_elem_of_singleton; left|].
  destruct (String.eqb_spec k k') as [->|]; [set_solver|]. destruct (str_lt k k'); cbn [fmap list_fmap fst]; set_solver.
Qed.

Lemma insert_ok k v m : btree_ok m -> btree_ok (btree_insert k v m).
Proof.
  unfold btree_ok. induction m as [|[k' v'] m IH]; cbn [btree_insert fmap list_fmap fst]; [intros _; by repeat constructor|]. intros Hs.
  inversion Hs as [|? ? Hs' Hf]; subst. destruct (String.eqb_spec k k') as [->|Hne]; [done|]. destruct (str_lt k k') eqn:El.
  - cbn [fmap list_fmap fst]. constructor; [done|]. constructor; [done|]. eapply Forall_impl; [exact Hf|]. intros x Hx. by eapply str_lt_trans.
  - cbn [fmap list_fmap fst]. constructor; [by apply IH|]. apply Forall_forall. intros x [->|Hx]%insert_keys.
    + apply str_trichotomy; [by apply String.eqb_neq|done].
    + rewrite Forall_forall in Hf. by apply Hf.
Qed.

Lemma get_insert k v m x : btree_get x (btree_insert k v m) = if String.eqb x k then Some v else btree_get x m.
Proof.
  induction m as [|[k' v'] m IH]; cbn [btree_insert btree_get]; [done|]. destruct (String.eqb_spec k k') as [->|Hne]; cbn [btree_get]; [by destruct (String.eqb x k')|].
  destruct (str_lt k k'); cbn [btree_get]; [done|]. rewrite IH. destruct (String.eqb_spec x k) as [Ex|]; [|done]. by rewrite Ex, (proj2 (String.eqb_neq k k')).
Qed.

Lemma get_app x l r : btree_get x (l ++ r) = match btree_get x l with Some v => Some v | None => btree_get x r end.
Proof. induction l as [|[k v] l IH]; cbn [app btree_get]; [done|]. by destruct (String.eqb x k). Qed.

Lemma insert_all l m : btree_ok m -> btree_ok (fold_left (fun m kv => btree_insert kv.1 kv.2 m) l m) /\
  forall x, btree_get x (fold_left (fun m kv => btree_insert kv.1 kv.2 m) l m) = match btree_get x (rev l) with Some v => Some v | None => btree_get x m end.
Proof.
  revert m; induction l as [|[k v] l IH]; intros m Hm; [done|]. cbn [fold_left fst snd]. destruct (IH (btree_insert k v m) (insert_ok k v m Hm)) as [Hs Hg].
  split; [done|]. intros x. rewrite Hg, get_insert. cbn [rev]. rewrite get_app. cbn [btree_get]. by destruct (btree_get x (rev l)), (String.eqb x k).
Qed.

Lemma get_sorted_rev m x : btree_ok m -> btree_get x (rev m) = btree_get x m.
Proof.
  intros Hm. induction m as [|[k v] m IH]; [done|]. inversion Hm as [|? ? Hm' Hf]; subst. cbn [rev btree_get]. rewrite get_app, IH by done. cbn [btree_get].
  destruct (String.eqb_spec x k) as [->|]; [|by destruct (btree_get x m)]. destruct (btree_get k m) as [w|] eqn:E; [|done]. exfalso.
  assert (k ∈ m.*1) as Hk.
  { clear -E. induction m as [|[k' v'] m IH]; [done|]. cbn [btree_get] in E. cbn [fmap list_fmap fst]. destruct (String.eqb_spec k k') as [->|]; [by left|right; by apply IH]. }
  rewrite Forall_forall in Hf. specialize (Hf k Hk). apply str_lt_compare in Hf. pose proof (String.compare_antisym k k) as Ha. by rewrite Hf in Ha.
Qed.

(**  the environment a template is built with is a map, and the template has the last word.
    The variables of the image, which may name one twice, and those of the template make
    a list with every name once, in order; a name has the template's value when the
    template gives one, else the image's last one, else none. *)
Theorem merged_env_is_map (img : option Image) (env : BTree) :
  btree_ok env ->
  btree_ok (merged_env img env) /\
  forall k, btree_get k (merged_env img env) =
    match btree_get k env with
    | Some v => Some v
    | None => match img with Some i => btree_get k (rev (Oci.oc_env (im_config i))) | None => None end
    end.
Proof.
  intros He. unfold merged_env. set (base := match img with Some i => Oci.oc_env (im_config i) | None => [] end).
  destruct (insert_all base []) as [Hb Gb]; [constructor|]. destruct (insert_all env _ Hb) as [Hs Gs]. split; [done|]. intros k.
  rewrite Gs, get_sorted_rev, Gb by done. destruct (btree_get k env); [done|]. unfold base. destruct img; [by destruct (btree_get k (rev _))|done].
Qed.

Lemma merged_env_is_map_witness :
  btree_get "PATH" (merged_env (Some (mkImg "docker.io/library/node:20" "sha256:00" "/cache/rootfs.ext4"
    (Oci.mkConfig [("PATH", "/bin"); ("LANG", "C"); ("PATH", "/usr/bin")]%string None None [] []))) [("HOME", "/root"); ("LANG", "C.UTF-8")]%string) = Some "/usr/bin"%string.
Proof.
  rewrite (proj2 (merged_env_is_map (Some (mkImg "docker.io/library/node:20" "sha256:00" "/cache/rootfs.ext4"
    (Oci.mkConfig [("PATH", "/bin"); ("LANG", "C"); ("PATH", "/usr/bin")]%string None None [] []))) [("HOME", "/root"); ("LANG", "C.UTF-8")]%string
    ltac:(repeat constructor))).
  reflexivity.
Defined.

(**  the variables of a template reach every command of the guest.  What a build writes for
    the merged environment goes to the guest in pieces of base64 that hold no quote and
    decode, put together, to the file; and the agent that reads this file before a
    command gives the command exactly these variables, and its working directory when
    there is such a directory, provided that every variable fits on a line: no line
    break in it, no blank at its ends, no name with an equals sign or of a setting. *)
Theorem build_env_reaches_commands (genv : GuestEnv) (env : BTree) (w u : option string) (files : gmap string string) (script : string) :
  let body := env_body env w u in
  let pieces := chunks_of (String.length (base64_encode body)) B64_CHUNK (base64_encode body) in
  Forall (fun kv => var_ok kv.1 kv.2 = true) env -> (forall x, w = Some x -> line_safe ("SL_WORKDIR=" ++s x) = true) ->
  (forall x, u = Some x -> line_safe ("SL_USER=" ++s x) = true) -> valid_utf8 body = true -> files !! ENV_FILE = Some body ->
  b64_decode (String.concat "" pieces) = Ok body /\ Forall (fun p => contains_char "'" p = false /\ (String.length p <= B64_CHUNK)%nat) pieces /\
  apply_env_file genv files (mkCommand script [] None) = mkCommand script env (cwd_of genv w).
Proof.
  intros body pieces He Hw Hu Hv Hf. split; [|split].
  - unfold pieces. rewrite chunks_concat by (unfold B64_CHUNK; lia). rewrite base64_same. apply decode_encode_clean.
  - apply Forall_forall. intros p Hp. destruct (chunks_spec _ _ _ p Hp) as [Hl Hc]. split; [|done]. apply Hc. rewrite base64_same. apply b64_no_quote.
  - unfold apply_env_file. rewrite Hf, Hv. unfold body, env_body.
    match goal with |- context [lines (?c ++s lf ++s ?r)] => change (lines (c ++s lf ++s r)) with (lines (c ++s String newline r)) end.
    rewrite lines_cons by reflexivity. cbn [fold_left]. rewrite apply_vars by done. rewrite apply_workdir by done. apply apply_user. done.
Qed.

Definition some_guest : GuestEnv :=
  mkGuestEnv (fun _ => None) (fun _ => []) (fun _ => Err "no shell"%string) (fun _ => true) (fun _ _ => Err "no socket"%string) (Err "no terminal"%string).

Lemma build_env_reaches_commands_witness :
  apply_env_file some_guest {[ENV_FILE := env_body [("LANG", "C.UTF-8"); ("PATH", "/usr/local/bin:/bin")]%string (Some "/app"%string) None]}
    (mkCommand "node -v" [] None) =
  mkCommand "node -v" [("LANG", "C.UTF-8"); ("PATH", "/usr/local/bin:/bin")]%string (Some "/app"%string).
Proof.
  refine (proj2 (proj2 (build_env_reaches_commands some_guest [("LANG", "C.UTF-8"); ("PATH", "/usr/local/bin:/bin")]%string (Some "/app"%string) None _ _ _ _ _ _ _))).
  - repeat constructor.
  - intros x [= <-]. vm_compute. reflexivity.
  - intros x [=].
  - vm_compute. reflexivity.
  - apply lookup_singleton_eq.
Defined.

(** A value with a line break is cut there, and what follows is a variable of its own; blanks
    at its end are lost. *)
Lemma value_with_line_break :
  apply_env_file some_guest {[ENV_FILE := env_body [("A"%string, "1" ++s String newline "B=2"); ("C", "x ")%string] None None]} (mkCommand "env" [] None) =
  mkCommand "env" [("A", "1"); ("B", "2"); ("C", "x")]%string None.
Proof. vm_compute. reflexivity. Qed.
