(* ===== verification/BuildPublish.v ===== *)
(** * What a build publishes

    The manifest of a build that succeeds is in the store under its name and version; its
    signature, in the directory of this name and version below the templates, verifies
    under the public key it names. *)

From Stdlib Require Import ZArith Lia Bool List String Ascii.
From stdpp Require Import base tactics list gmap strings.
From S2P Require Import Prelude RustStr Utf8 Text Json Auth Store Sqlite SqliteSpec Http HttpText FileTree Oci Proto Backend F64 Base64 Machine NetLive Restore Build BuildSafety.

Open Scope Z_scope.

(** ** Hex *)

Lemma hex_digit_val d : 0 <= d < 16 -> byte_val (hex_digit d) < 128 /\ hex_digit d <> "+"%char.
Proof.
  intros Hd. assert (forallb (fun d => (byte_val (hex_digit d) <? 128) && negb (Ascii.eqb (hex_digit d) "+")) (map Z.of_nat (seq 0 16)) = true) as Hf by reflexivity.
  rewrite forallb_forall in Hf. specialize (Hf d). rewrite andb_true_iff, negb_true_iff, Z.ltb_lt, Ascii.eqb_neq in Hf.
  apply Hf, in_map_iff. exists (Z.to_nat d). rewrite in_seq. lia.
Qed.

Lemma nibbles c : 0 <= byte_val c / 16 < 16 /\ 0 <= byte_val c mod 16 < 16 /\ byte_val c = byte_val c / 16 * 16 + byte_val c mod 16.
Proof. pose proof (byte_val_range c). Z.to_euclidean_division_equations. lia. Qed.

Lemma boundary_hex s : boundary (hex s) = true.
Proof.
  destruct s as [|c s]; [done|]. cbn [hex boundary]. destruct (hex_digit_val (byte_val c / 16)) as [Hv _]; [apply nibbles|].
  apply negb_true_iff, andb_false_iff. left. apply Z.leb_gt. done.
Qed.

Lemma radix_pair c : from_str_radix_16 (String (hex_digit (byte_val c / 16)) (String (hex_digit (byte_val c mod 16)) "")) = Some (byte_val c).
Proof.
  destruct (nibbles c) as (Hh & Hl & E). pose proof (byte_val_range c). unfold from_str_radix_16. rewrite (proj2 (Ascii.eqb_neq _ _)) by apply hex_digit_val, Hh.
  cbn [negb parse_hex_digits]. rewrite !hex_val_digit by done. rewrite (proj2 (Z.ltb_lt _ _)) by lia. rewrite (proj2 (Z.ltb_lt _ _)) by lia. f_equal. lia.
Qed.

Lemma unhex_slices_hex s : unhex_slices (hex s) = Some (Some s).
Proof.
  induction s as [|c s IH]; [done|]. cbn [hex unhex_slices]. change (String (hex_digit (byte_val c / 16)) (String (hex_digit (byte_val c mod 16)) (hex s))) with (hex (String c s)).
  rewrite !boundary_hex. cbn [andb]. rewrite radix_pair, IH. cbn. by rewrite byte_of_val.
Qed.

Lemma unhex_hex s : unhex (hex s) = Some (Some s).
Proof.
  unfold unhex. rewrite trim_id by apply hex_visible. rewrite hex_length.
  destruct (Nat.odd (2 * String.length s)) eqn:E; [|apply unhex_slices_hex]. apply Nat.odd_spec in E as [k Hk]. lia.
Qed.

(** ** Signatures *)

Class Ed25519Laws `{Ed25519} : Prop := {
  pk_length : forall k, String.length k = 32%nat -> String.length (public_key k) = 32%nat;
  sig_length : forall k msg, String.length k = 32%nat -> String.length (key_sign k msg) = 64%nat;
  pk_valid : forall k, String.length k = 32%nat -> vk_from_bytes (public_key k) = true;
  sign_verifies : forall k msg, String.length k = 32%nat -> vk_verify (public_key k) msg (key_sign k msg) = true
}.

Lemma verify_own `{Ed25519Laws} k msg : String.length k = 32%nat -> verify (hex (public_key k)) (hex (sign k msg)) msg = Some true.
Proof.
  intros Hk. unfold verify, unhex32, unhex64, unhex_n, sign. rewrite !unhex_hex. cbn [base.mbind option_bind].
  rewrite pk_length, sig_length by done. cbn [Nat.eqb base.mbind option_bind]. by rewrite pk_valid, sign_verifies.
Qed.

(** ** A build that succeeds *)

Lemma bind_ok {S E A B} (c : M S E A) (f : A -> M S E B) s b s' : mbind c f s = (Ok b, s') -> exists a s1, c s = (Ok a, s1) /\ f a s1 = (Ok b, s').
Proof. unfold mbind. destruct (c s) as [[a|e] s1]; [|done]. intros E'. by exists a, s1. Qed.

Ltac run_through H := repeat match type of H with mbind _ _ _ = _ => let E := fresh "E" in apply bind_ok in H as (? & ? & E & H) end.

Section Artifact.
Context (Sha256 : string -> string) `{Ed25519Laws} `{Toml} `{ManifestJson} `{Images} (cfg : BuildConfig).

Lemma loaded_key m k m' : load_or_create_key cfg m = (Ok k, m') -> String.length k = 32%nat.
Proof.
  unfold load_or_create_key. intros Hk. apply bind_ok in Hk as (dir & m1 & _ & Hk). apply bind_ok in Hk as (r & m2 & _ & Hk).
  destruct r as [b|e]; [destruct (Nat.eqb_spec (String.length b) 32); [by injection Hk as <-|done]|]. run_through Hk. injection Hk as <- _.
  unfold filled. rewrite str_take_length, app_length_s, be_bytes_length. lia.
Qed.

Definition checked (t : Template) : Prop := check_template t = Ok tt.

Lemma loaded_checked path m t m' : load_template path m = (Ok t, m') -> checked t.
Proof.
  unfold load_template. intros Hl. do 2 apply bind_ok in Hl as (? & ? & _ & Hl). apply bind_ok in Hl as ([] & ? & Ec & Hl).
  injection Hl as <- _. by injection Ec as Ec _.
Qed.

(** The host that answers is the same one all along. *)
Lemma park_later : ParkSilent later.
Proof. split; try apply _. intros m n procs. unfold later. cbn. repeat split; lia. Qed.
#[local] Existing Instance park_later.

Lemma later_prebake dir rootfs vmstate mem log tmpl : Keeps later (run_prebake_phase cfg dir rootfs vmstate mem log tmpl).
Proof.
  assert (forall p, Keeps later (kill_group p)) by (intros; apply frame_kill; apply _).
  unfold run_prebake_phase, boot_and_connect, boot_build, then_drop, bake_steps, lift_h. solve_keeps.
Qed.

Lemma keeps_env {A} (c : HM A) m x m' : Keeps later c -> c m = (x, m') -> mc_env m' = mc_env m.
Proof. intros Hc Hx. destruct (Hc m) as [He _]. by rewrite Hx in He. Qed.

Lemma file_at_written path c d : file_at (write_over path c d) path = Some c.
Proof.
  unfold file_at, write_over, put_new. destruct (d_names d !! path) as [i|] eqn:E; cbn [d_names d_data]; [rewrite E|rewrite lookup_insert_eq];
    cbn; by rewrite lookup_insert_eq.
Qed.

(** The directory of the build is the one of the name and version. *)
Lemma fresh_dir_ok name version m dir m' :
  fresh_dir name version m = (Ok dir, m') -> dir = e_canon (mc_env m') (out_dir name version).
Proof.
  unfold fresh_dir. intros Hd. do 3 apply bind_ok in Hd as (? & ? & _ & Hd). unfold abspath, because, map_err in Hd.
  destruct (mbind _ _ _) as [[x'|e] m2] eqn:E; [|done]. injection Hd as <- <-. do 2 apply bind_ok in E as (? & ? & _ & E).
  case_match; [|done]. by injection E as <- <-.
Qed.

(** Where the signature is. *)
Definition signature_file (m : Machine) (name version : string) : string := join_path (e_canon (mc_env m) (out_dir name version)) "manifest.sig".

Lemma artifact_ok toml_path m a m' : build_artifact Sha256 cfg toml_path m = (Ok a, m') ->
  exists t k d, checked t /\ String.length k = 32%nat /\ mf_name (ar_manifest a) = t_name t /\
    mf_version (ar_manifest a) = default (str_take 12 (hex (Sha256 d))) (t_version t) /\
    mf_pubkey_hex (ar_manifest a) = hex (public_key k) /\ ar_sig a = sign k (ar_bytes a) /\ to_vec_pretty (ar_manifest a) = Ok (ar_bytes a) /\
    file_at (mc_disk m') (signature_file m' (mf_name (ar_manifest a)) (mf_version (ar_manifest a))) = Some (hex (ar_sig a)).
Proof.
  unfold build_artifact. intros Ha. apply bind_ok in Ha as (t & m1 & Et & Ha). apply loaded_checked in Et.
  do 2 apply bind_ok in Ha as (? & ? & _ & Ha). apply bind_ok in Ha as ([[base_rootfs base_key] img] & ? & _ & Ha).
  do 3 apply bind_ok in Ha as (? & ? & _ & Ha). apply bind_ok in Ha as (dir & md & ->%fresh_dir_ok & Ha).
  set (version := default _ _) in *. set (dir := e_canon _ _) in *.
  apply bind_ok in Ha as (? & m3 & E3%keeps_env & Ha); [|apply _].
  apply bind_ok in Ha as (? & m4 & E4 & Ha). assert (mc_env m4 = mc_env m3) as E4'.
  { eassert (carries _ _ _) as Hp by apply carries_phase. destruct (Hp m3) as [He _]. by rewrite E4 in He. }
  apply bind_ok in Ha as (? & m5 & E5%keeps_env & Ha); [|apply later_prebake].
  do 3 (apply bind_ok in Ha as (? & ? & ?E%keeps_env & Ha); [|unfold sha256_file; solve_keeps]).
  apply bind_ok in Ha as (k & m6 & Ek & Ha). pose proof Ek as E6%keeps_env; [|unfold load_or_create_key, key_dir, set_mode_600; solve_keeps].
  apply loaded_key in Ek. apply bind_ok in Ha as (? & m7 & E7%keeps_env & Ha); [|apply _].
  unfold sign_manifest in Ha. apply bind_ok in Ha as (b & m8 & Eb & Ha). pose proof Eb as E8%keeps_env; [|unfold lift_h; solve_keeps].
  apply bind_ok in Ha as (? & m9 & E9%keeps_env & Ha); [|unfold write_bytes; solve_keeps].
  apply bind_ok in Ha as (? & m10 & E10 & Ha). pose proof E10 as E10'%keeps_env; [|unfold write_bytes; solve_keeps]. injection Ha as <- <-.
  exists t, k. eexists. cbn [ar_manifest ar_bytes ar_sig make_manifest mf_name mf_version mf_pubkey_hex]. split_and!; try done.
  - unfold map_err, lift_h in Eb. destruct (to_vec_pretty _); [by injection Eb as <- _|done].
  - fold version. unfold signature_file. assert (e_canon (mc_env m10) = e_canon (mc_env md)) as -> by congruence. fold dir.
    unfold write_bytes in E10. apply bind_ok in E10 as (? & ? & _ & E10). unfold on_disk in E10. injection E10 as _ <-. cbn [mc_disk set_disk].
    apply file_at_written.
Qed.
End Artifact.

(** ** Where it goes *)

(** A name that is one component of a path. *)
Definition one_name (s : string) : Prop := contains_char "/" s = false /\ piece s = [Normal s].

Lemma one_name_of s : contains_char "/" s = false -> s <> ""%string -> starts_with "." s = false -> one_name s.
Proof.
  intros Hs Hne Hd. split; [done|]. unfold piece. rewrite (proj2 (String.eqb_neq s "") Hne). cbn [orb].
  destruct (String.eqb_spec s ".") as [->|]; [done|]. by destruct (String.eqb_spec s "..") as [->|].
Qed.

Lemma valid_one_name s what : validate_name s what = Ok tt -> one_name s.
Proof.
  unfold validate_name. destruct (_ || _) eqn:E; [done|]. intros _. rewrite !orb_false_iff in E. destruct E as [[[[He Hs] _] _] Hd].
  apply one_name_of; [done|by apply String.eqb_neq|done].
Qed.

Lemma contains_take c n s : contains_char c s = false -> contains_char c (str_take n s) = false.
Proof. intros Hc. rewrite <- (str_take_drop n s), contains_char_app in Hc. by apply orb_false_iff in Hc as [? _]. Qed.

Lemma hash_one_name d : d <> ""%string -> one_name (str_take 12 (hex d)).
Proof.
  intros Hd. assert (contains_char "." (str_take 12 (hex d)) = false) as Hdot by (apply contains_take, hex_no_char, not_hex; vm_compute; by left).
  destruct d as [|c d]; [done|]. apply one_name_of; [apply contains_take, hex_no_char, not_hex; vm_compute; by left|done|].
  cbn [hex str_take] in *. unfold starts_with. cbn [strip_prefix contains_char] in *. apply orb_false_iff in Hdot as [-> _]. done.
Qed.

Lemma out_dir_components name version : one_name name -> one_name version ->
  components (out_dir name version) = [Normal "build"; Normal "templates"; Normal name; Normal version]%string.
Proof.
  intros [Hn Pn] [Hv Pv]. unfold components, out_dir, join_path.
  assert (split "/" ((TEMPLATES_ROOT ++s "/" ++s name) ++s "/" ++s version) = ["build"; "templates"; name; version]%string) as ->.
  { rewrite !app_assoc_s. change (TEMPLATES_ROOT ++s "/" ++s name ++s "/" ++s version) with ("build" ++s String "/" ("templates" ++s String "/" (name ++s String "/" version))).
    rewrite !split_sep_app by done. by rewrite split_no_sep. }
  cbn [map concat]. rewrite Pn, Pv. done.
Qed.

Lemma checked_names t : checked t -> one_name (t_name t) /\ forall v, t_version t = Some v -> one_name v.
Proof.
  unfold checked, check_template. destruct (validate_name (t_name t) "name") as [[]|] eqn:En; [|done]. intros Hc. split; [by eapply valid_one_name|].
  intros v Hv. rewrite Hv in Hc. destruct (negb _); [done|]. destruct (negb _); [done|]. destruct (_ <? _); [done|]. by eapply valid_one_name.
Qed.

Section Publish.
Context {St : Type} `{StoreLaws St}.

Lemma put_ok k v s x s' : inv s -> text (put k v None) s = (Ok x, s') -> inv s' /\ abs s' = a_write k v None (abs s).
Proof.
  intros Hi. unfold text. pose proof (put_meets k v None s Hi) as Hp. destruct (put k v None s) as [[rev|e] s1]; [|done].
  destruct Hp as (Hi' & (_ & Ha & _) & _). intros [= _ <-]. done.
Qed.

Lemma publish_ok a s s' : inv s -> publish a s = (Ok tt, s') ->
  abs s' = a_write (template_key (mf_name (ar_manifest a)) "latest") (mf_version (ar_manifest a)) None
             (a_write (template_key (mf_name (ar_manifest a)) (mf_version (ar_manifest a))) (ar_bytes a) None (abs s)).
Proof.
  intros Hi. unfold publish, mbind. destruct (text (put (template_key _ (mf_version _)) _ None) s) as [[x|e] s1] eqn:E1; [|done].
  destruct (put_ok _ _ _ _ _ Hi E1) as [Hi1 A1]. destruct (text (put (template_key _ "latest") _ None) s1) as [[y|e] s2] eqn:E2; [|done].
  destruct (put_ok _ _ _ _ _ Hi1 E2) as [_ A2]. intros [= <-]. by rewrite A2, A1.
Qed.
End Publish.

Lemma template_key_inj n v v' : template_key n v = template_key n v' -> v = v'.
Proof. unfold template_key. by intros E%app_inv_head_s%app_inv_head_s%app_inv_head_s. Qed.

(** Making the directory of the store and opening it leave the files as they are. *)
Definition same_files (m m' : Machine) : Prop :=
  mc_env m' = mc_env m /\ d_names (mc_disk m') = d_names (mc_disk m) /\ d_data (mc_disk m') = d_data (mc_disk m).

Lemma opened_files f m x m' : map_err f host_call m = (Ok x, m') -> same_files m m'.
Proof. unfold map_err, host_call. destruct (e_err _ _); [done|]. by intros [= _ <-]. Qed.

Lemma made_dir_files f path m x m' : map_err f (create_dir_all path) m = (Ok x, m') -> same_files m m'.
Proof. unfold map_err, create_dir_all, mbind, host_call, on_disk. destruct (e_err _ _); [done|]. by intros [= _ <-]. Qed.

(** C22: what a build publishes can be trusted.  When a build succeeds, the store has the
    version under the template's latest, and under its name and version the bytes of the
    manifest, but for a version that is itself [latest], which the check of names lets
    through and where the pointer replaces the manifest ([latest_version_collides]); the
    signature verifies over exactly these bytes under the key the manifest names, and is
    written beside it in the directory of this name and version; each of the two is one
    component of a path, so that this directory is one below the templates, whatever the
    template says; and no other key of the store has changed. *)
Theorem template_published (Sha256 : string -> string) `{Ed25519Laws} `{Toml} `{ManifestJson} `{Images} `{StoreLaws St} (cfg : BuildConfig)
    (toml_path : string) (m m' : Machine) (s s' : St) (a : Artifact) :
  (forall x, Sha256 x <> ""%string) -> inv s -> build Sha256 cfg toml_path (m, s) = (Ok a, (m', s')) ->
  let mf := ar_manifest a in
  to_vec_pretty mf = Ok (ar_bytes a) /\ verify (mf_pubkey_hex mf) (hex (ar_sig a)) (ar_bytes a) = Some true /\
  kv_value <$> a_kv (abs s') !! template_key (mf_name mf) "latest" = Some (mf_version mf) /\
  kv_value <$> a_kv (abs s') !! template_key (mf_name mf) (mf_version mf) =
    Some (if String.eqb (mf_version mf) "latest" then "latest"%string else ar_bytes a) /\
  (forall k, k <> template_key (mf_name mf) (mf_version mf) -> k <> template_key (mf_name mf) "latest" -> a_kv (abs s') !! k = a_kv (abs s) !! k) /\
  file_at (mc_disk m') (signature_file m' (mf_name mf) (mf_version mf)) = Some (hex (ar_sig a)) /\
  components (out_dir (mf_name mf) (mf_version mf)) = [Normal "build"; Normal "templates"; Normal (mf_name mf); Normal (mf_version mf)]%string.
Proof.
  intros Hsha Hi Hb mf. unfold build in Hb. destruct (mbind _ _ m) as [[a'|e] m1] eqn:Ea; [|done].
  apply bind_ok in Ea as (a2 & m2 & Ea & Ea'). apply bind_ok in Ea' as (? & m3 & E3 & Ea'). apply bind_ok in Ea' as (? & m4 & E4 & Ea'). injection Ea' as <- <-.
  destruct (publish a2 s) as [[[]|e] s1] eqn:Ep; [|done]. injection Hb as <- <- <-. pose proof (publish_ok _ _ _ Hi Ep) as Habs. fold mf in Habs.
  destruct (artifact_ok Sha256 cfg _ _ _ _ Ea) as (t & k & d & Hc & Hk & Hn & Hv & Hpk & Hsig & Hj & Hf). fold mf in Hn, Hv, Hpk, Hj, Hf.
  rewrite Habs. cbn [a_write a_kv]. split; [done|]. split; [rewrite Hpk, Hsig; by apply verify_own|]. split; [by rewrite lookup_insert_eq|].
  split; [|split; [|split]].
  - destruct (String.eqb_spec (mf_version mf) "latest") as [->|Hl]; [by rewrite lookup_insert_eq|].
    rewrite lookup_insert_ne, lookup_insert_eq by (intros E%template_key_inj; by apply Hl). done.
  - intros q Hq1 Hq2. by rewrite !lookup_insert_ne.
  - rewrite <- Hf. apply opened_files in E4. apply made_dir_files in E3. unfold signature_file, file_at. destruct E4 as (-> & -> & ->), E3 as (-> & -> & ->). done.
  - destruct (checked_names t Hc) as [Ht Hw]. rewrite Hn, Hv. apply out_dir_components; [done|]. destruct (t_version t) as [v|] eqn:Ev; [by apply Hw|]. by apply hash_one_name.
Qed.

(** ** A build to look at *)

Module RefBuild.
Definition pad64 (s : string) : string := str_take 64 (s ++s be_bytes 64 0).

#[export] Instance ed : Ed25519 := {
  public_key k := k;
  key_sign k msg := pad64 (k ++s msg);
  vk_from_bytes _ := true;
  vk_verify pk msg sig := String.eqb sig (pad64 (pk ++s msg))
}.

#[export] Instance ed_laws : Ed25519Laws.
Proof.
  split; cbn; [done| |done|by intros k msg _; apply String.eqb_refl].
  intros k msg _. unfold pad64. rewrite str_take_length, app_length_s, be_bytes_length. lia.
Qed.

Definition a_toml (version : option string) (net : string) : TemplateToml :=
  mkToml "hello" version (Some "/base.ext4"%string) (Some [("LANG", "C")]%string) None None (Some [mkCopy "app.js" "/app/app.js" None])
    (Some ["npm ci"]%string) None (Some net) None None (Some 256).

(** The text of the file is the version. *)
#[export] Instance toml : Toml := {
  from_toml text := Ok (a_toml (if String.eqb text "" then None else Some text) "deny")
}.
#[export] Instance manifest_json : ManifestJson := {
  to_vec_pretty mf := Ok (mf_name mf ++s "@" ++s mf_version mf ++s " " ++s mf_pubkey_hex mf)
}.
#[export] Instance images : Images := { resolve_base from := mret (BaseLocal from) }.

Definition sha (x : string) : string := "0123456789abcdef0123456789abcdef".

Definition disk : Disk :=
  mkDisk {["/kernel"%string := 0%nat; "/fc"%string := 1%nat; "/base.ext4"%string := 2%nat; "t/sandlocker.toml"%string := 3%nat; "t/app.js"%string := 4%nat;
           "t/pinned.toml"%string := 5%nat]}
         {[0%nat := "vmlinux"%string; 1%nat := "elf"%string; 2%nat := "ext4"%string; 3%nat := ""%string; 4%nat := "console.log(1)"%string; 5%nat := "latest"%string]}
         ∅ 6.
Definition machine (err : nat -> option string) : Machine := mkMachine (demo_env err true) 0 0 disk ∅ 0 (mkNet ∅ ∅ ∅ ∅ ∅) [].
Definition config : BuildConfig := mkBuildConfig demo_cfg "/base.ext4" None (Some "/root"%string) None.
End RefBuild.
Import RefBuild.

#[local] Notation demo_build := (build sha config "t/sandlocker.toml" (machine (fun _ => None), open_in_memory [])).

Lemma template_published_witness :
  exists a m' s', demo_build = (Ok a, (m', s')) /\ verify (mf_pubkey_hex (ar_manifest a)) (hex (ar_sig a)) (ar_bytes a) = Some true.
Proof.
  assert (is_ok demo_build.1 = true) as Hv by (vm_compute; reflexivity).
  destruct demo_build as [[a|e] [m' s']] eqn:E; [|discriminate Hv]. exists a, m', s'. split; [reflexivity|].
  apply (template_published sha config "t/sandlocker.toml" (machine (fun _ => None)) m' (open_in_memory []) s' a); [discriminate|exact init_wf|exact E].
Defined.

Lemma build_leaves_no_vm_witness :
  mc_procs (build_artifact sha config "t/sandlocker.toml" (machine (fun _ => None))).2 = ∅.
Proof.
  assert (match (build_artifact sha config "t/sandlocker.toml" (machine (fun _ => None))).1 with Ok _ => True | Err _ => False end) as Hr by (vm_compute; exact I).
  pose proof (build_leaves_no_vm sha config "t/sandlocker.toml" (machine (fun _ => None))) as Hv.
  destruct (build_artifact sha config "t/sandlocker.toml" (machine (fun _ => None))) as [[a|e] m']; [|destruct Hr].
  apply Hv; [intros from; apply _|intros p Hp; by apply not_elem_of_empty in Hp|discriminate].
Defined.

(** ** What the code does not rule out *)

(** A template whose version is [latest] overwrites its manifest with the pointer. *)
Lemma latest_version_collides :
  match build sha config "t/pinned.toml" (machine (fun _ => None), open_in_memory []) with
  | (Ok a, (_, s)) => kv_value <$> a_kv (abs s) !! template_key "hello" "latest" = Some "latest"%string /\ mf_version (ar_manifest a) = "latest"%string
  | _ => False
  end.
Proof. vm_compute. split; reflexivity. Qed.

(** A machine that cannot be started leaves the network of an open build behind. *)
Lemma failed_boot_leaves_network :
  let cfg := mkBuildConfig (Restore.mkConfig "/fc" "/kernel" (Some "eth0"%string)) "/base.ext4" None None None in
  let out_of_memory n := if (n <? 71)%nat then None else Some "cannot allocate memory"%string in
  let '(r, m) := run_build_phase cfg "/out" "/out/rootfs.ext4" "/out/log" (with_defaults (a_toml None "allow-all")) [] [] None None (machine out_of_memory) in
  is_ok r = false /\ mc_procs m = ∅ /\ bool_decide (ns_for "/out" ∈ n_spaces (mc_net m)) = true.
Proof. vm_compute. repeat split; reflexivity. Qed.

(** The list of hosts and the list of steps are not told apart in the input of the version. *)
Lemma build_input_ambiguous :
  let t w r := mkTemplate "hello" None None [] None None [] r None "whitelist" w 1 128 in
  forall base kernel vmm, build_input (t ["a"; "b"]%string ["c"]%string) base kernel vmm [] = build_input (t ["a"]%string ["b"; "c"]%string) base kernel vmm [].
Proof. intros t base kernel vmm. reflexivity. Qed.

(** A key that is not ASCII is a panic of the verifier, not a refusal. *)
Lemma verify_panics : verify (String "a" (String "195" (String "169" "b"))) "" "" = None.
Proof. vm_compute. reflexivity. Qed.
