(* ===== verification/Etcd.v ===== *)
(** * EtcdStore (crates/sl-store/src/etcd.rs)

    The etcd backend of the store: a client of etcd's HTTP/JSON gateway.  A
    method builds a JSON request ([json!]), posts its text, and reads the fields
    of the answer, in which keys and values are base64 and 64-bit numbers are
    text.  The server, [ureq], [serde_json] and the [base64] crate are not of
    the repository: they are the fields of the classes [GatewayJson],
    [Base64Crate] and [EtcdWorld], on whose state the methods run.  A reply that
    arrives in lines (watches, keep-alives) is the list of what each read
    gives; its end is the end of the stream. *)

From Stdlib Require Import ZArith Lia Bool List String Ascii.
From stdpp Require Import base tactics list gmap strings.
From S2P Require Import Prelude RustStr Utf8 Store Text.

Open Scope Z_scope.

(** ** Libraries *)

(** The documents the client writes. *)
Inductive doc : Type :=
| DStr (s : string)
| DBool (b : bool)
| DArr (ds : list doc)
| DObj (fs : list (string * doc)).

(** [d[k]] of an object. *)
Definition dget (d : doc) (k : string) : option doc :=
  match d with
  | DObj fs => option_map snd (List.find (fun f => String.eqb f.1 k) fs)
  | _ => None
  end.

(** [d[k] = v] of an object that has no such field. *)
Definition dset (d : doc) (k : string) (v : doc) : doc :=
  match d with
  | DObj fs => DObj (fs ++ [(k, v)])
  | _ => d
  end.

(** [serde_json]: the printer of documents, the parser, [v[k]] (Null where there
    is no such field) and the accessors. *)
Class GatewayJson : Type := {
  Value : Type;
  to_string : doc -> string;
  from_str : string -> result Value string;
  index : Value -> string -> Value;
  as_str : Value -> option string;
  vas_int : Value -> option Z;
  as_array : Value -> option (list Value);
  as_bool : Value -> option bool;
  value_text : Value -> string
}.

(** The engine [STANDARD] of [base64]. *)
Class Base64Crate : Type := {
  encode : string -> string;
  decode : string -> result string string
}.

(** An answer to a POST: a body, or what reading it failed with; a status
    outside 2xx with its body; or the transport error. *)
Inductive Exchange : Type :=
| Reply (body : result string string)
| Status (code : Z) (body : result string string)
| Transport (e : string).

(** What a [read_line] gives before the end of a stream. *)
Inductive LineRead : Type :=
| Line (s : string)
| TimedOut (e : string)
| ReadError (e : string).

(** The network and the server behind it.  A stream is opened with the agent's
    read timeout (milliseconds). *)
Class EtcdWorld (G : Type) : Type := {
  exchange : string -> string -> G -> Exchange * G;
  open_stream : option Z -> string -> string -> G -> result (list LineRead) string * G;
  spawn_watch : string -> G -> nat * G
}.

Section Client.
Context `{GatewayJson} `{Base64Crate} {G : Type} `{EtcdWorld G}.

Definition EM (A : Type) : Type := M G StoreError A.

(** ** Values *)

Definition unb64 (v : Value) : result string StoreError :=
  let s := match as_str v with Some s => s | None => ""%string end in
  match decode s with
  | Ok b => Ok b
  | Err e => Err (Backend ("base64 解码: " ++s e))
  end.

(** [as_i64] of the source: a number written as text, or as a number. *)
Definition as_int (v : Value) : Z :=
  match as_str v with
  | Some s => match parse_i64 s with Some n => n | None => 0 end
  | None => match vas_int v with Some n => n | None => 0 end
  end.

Definition zero_key : string := String "000" "".

(** The loop on the last byte; the bytes are in reverse. *)
Fixpoint range_end_loop (end_rev : list ascii) : string :=
  match end_rev with
  | [] => zero_key
  | last :: rest =>
      if byte_val last <? 255 then string_of_list_ascii (List.rev (byte_of (byte_val last + 1) :: rest))
      else range_end_loop rest
  end.

Definition range_end_for_prefix (prefix : string) : string :=
  match prefix with
  | EmptyString => zero_key
  | _ => range_end_loop (List.rev (list_ascii_of_string prefix))
  end.

(** [Result] threaded through pure code. *)
Definition rbind {A B E} (r : result A E) (f : A -> result B E) : result B E :=
  match r with Ok a => f a | Err e => Err e end.

Definition kv_from_json (v : Value) : result KeyValue StoreError :=
  rbind (unb64 (index v "key")) (fun key_bytes =>
  let key := from_utf8_lossy key_bytes in
  rbind (unb64 (index v "value")) (fun value =>
  let lease := as_int (index v "lease") in
  Ok (mkKv key value (as_int (index v "create_revision")) (as_int (index v "mod_revision"))
           (if lease =? 0 then None else Some lease)))).

(** ** Requests *)

(** The world is the server at the client's base URL. *)
Definition post (path : string) (body : doc) : EM Value :=
  fun g =>
    let '(x, g') := exchange path (to_string body) g in
    (match x with
     | Reply (Ok text) =>
         match from_str text with
         | Ok v => Ok v
         | Err e => Err (Backend (path ++s " 响应非 JSON: " ++s e))
         end
     | Reply (Err e) => Err (Backend (path ++s " 读响应: " ++s e))
     | Status code body =>
         let msg := match body with Ok m => m | Err _ => ""%string end in
         Err (Backend (path ++s " HTTP " ++s dec code ++s ": " ++s msg))
     | Transport e => Err (Backend (path ++s " 传输错误: " ++s e))
     end, g').

Definition post_stream (path : string) (body : doc) : EM (list LineRead) :=
  fun g =>
    let '(x, g') := open_stream (Some 10000) path (to_string body) g in
    (match x with
     | Ok lines => Ok lines
     | Err e => Err (Backend (path ++s " 传输: " ++s e))
     end, g').

Definition range_body (key : string) (range_end : option string) : doc :=
  match range_end with
  | Some e => DObj [("key", DStr (encode key)); ("range_end", DStr (encode e))]
  | None => DObj [("key", DStr (encode key))]
  end.

(** [Err] of pure code ends the method. *)
Definition lift {A} (r : result A StoreError) : EM A := fun g => (r, g).

(** [for kv in kvs { out.push(kv_from_json(kv)?) }] *)
Fixpoint kvs_from_json (vs : list Value) : result (list KeyValue) StoreError :=
  match vs with
  | [] => Ok []
  | v :: vs' => rbind (kv_from_json v) (fun kv => rbind (kvs_from_json vs') (fun l => Ok (kv :: l)))
  end.

(** The key and the end of the range of a prefix. *)
Definition prefix_span (prefix : string) : string * string :=
  match prefix with
  | EmptyString => (zero_key, zero_key)
  | _ => (prefix, range_end_for_prefix prefix)
  end.

(** ** Keys *)

Definition etcd_get (key : string) : EM (option KeyValue) :=
  let? resp := post "/v3/kv/range" (range_body key None) in
  match as_array (index resp "kvs") with
  | Some (kv :: _) => let? r := lift (kv_from_json kv) in mret (Some r)
  | _ => mret None
  end.

Definition etcd_list (prefix : string) : EM (list KeyValue) :=
  let '(key, e) := prefix_span prefix in
  let? resp := post "/v3/kv/range" (range_body key (Some e)) in
  match as_array (index resp "kvs") with
  | Some kvs => lift (kvs_from_json kvs)
  | None => mret []
  end.

Definition put_body (key value : string) (lease : option Z) : doc :=
  let body := DObj [("key", DStr (encode key)); ("value", DStr (encode value))] in
  match lease with
  | Some id => dset body "lease" (DStr (dec id))
  | None => body
  end.

Definition etcd_put (key value : string) (lease : option Z) : EM Z :=
  let? resp := post "/v3/kv/put" (put_body key value lease) in
  mret (as_int (index (index resp "header") "revision")).

Definition etcd_delete (key : string) : EM bool :=
  let? resp := post "/v3/kv/deleterange" (range_body key None) in
  mret (0 <? as_int (index resp "deleted")).

Definition compare_body (key : string) (expect_mod_rev : option Z) : doc :=
  match expect_mod_rev with
  | Some rev => DObj [("key", DStr (encode key)); ("target", DStr "MOD"); ("result", DStr "EQUAL");
                      ("mod_revision", DStr (dec rev))]
  | None => DObj [("key", DStr (encode key)); ("target", DStr "CREATE"); ("result", DStr "EQUAL");
                  ("create_revision", DStr "0")]
  end.

Definition txn_body (key : string) (expect_mod_rev : option Z) (value : string) (lease : option Z) : doc :=
  DObj [("compare", DArr [compare_body key expect_mod_rev]);
        ("success", DArr [DObj [("request_put", put_body key value lease)]]);
        ("failure", DArr [DObj [("request_range", DObj [("key", DStr (encode key))])]])].

(** The key a failed transaction brings back. *)
Definition txn_current (resp : Value) : option Value :=
  match as_array (index resp "responses") with
  | Some (r :: _) =>
      match as_array (index (index r "response_range") "kvs") with
      | Some (kv :: _) => Some kv
      | _ => None
      end
  | _ => None
  end.

Definition etcd_compare_and_swap (key : string) (expect_mod_rev : option Z) (value : string)
    (lease : option Z) : EM CasResult :=
  let? resp := post "/v3/kv/txn" (txn_body key expect_mod_rev value lease) in
  let revision := as_int (index (index resp "header") "revision") in
  let succeeded := match as_bool (index resp "succeeded") with Some b => b | None => false end in
  if succeeded then mret (mkCas true revision None)
  else
    let? current := match txn_current resp with
                    | Some v => let? kv := lift (kv_from_json v) in mret (Some kv)
                    | None => mret None
                    end in
    mret (mkCas false revision current).

(** ** Leases *)

Definition etcd_lease_grant (ttl_secs : Z) : EM Z :=
  let? resp := post "/v3/lease/grant" (DObj [("TTL", DStr (dec ttl_secs)); ("ID", DStr "0")]) in
  let id := as_int (index resp "ID") in
  if id =? 0 then mfail (Backend ("lease grant 未返回 ID: " ++s value_text resp)) else mret id.

(** The first line of a stream; a closed stream gives the empty line. *)
Definition first_line (lines : list LineRead) : result string StoreError :=
  match lines with
  | [] => Ok ""%string
  | Line s :: _ => Ok s
  | TimedOut e :: _ | ReadError e :: _ => Err (Backend ("keepalive 读帧: " ++s e))
  end.

Definition etcd_lease_keepalive (now id : Z) : EM Z :=
  let? lines := post_stream "/v3/lease/keepalive" (DObj [("ID", DStr (dec id))]) in
  let? line := lift (first_line lines) in
  match from_str (trim line) with
  | Err e => mfail (Backend ("keepalive 帧非 JSON: " ++s e))
  | Ok frame =>
      let ttl := as_int (index (index frame "result") "TTL") in
      if ttl <=? 0 then mfail (NoSuchLease id) else mret (i64_add now ttl)
  end.

Fixpoint attached_keys (vs : list Value) : list string :=
  match vs with
  | [] => []
  | v :: vs' => match unb64 v with
                | Ok b => from_utf8_lossy b :: attached_keys vs'
                | Err _ => attached_keys vs'
                end
  end.

Definition etcd_lease_revoke (id : Z) : EM (list string) :=
  let? ttl_resp := post "/v3/lease/timetolive" (DObj [("ID", DStr (dec id)); ("keys", DBool true)]) in
  let keys := match as_array (index ttl_resp "keys") with Some a => attached_keys a | None => [] end in
  let? _ := post "/v3/lease/revoke" (DObj [("ID", DStr (dec id))]) in
  mret keys.

Definition etcd_lease_sweep (now : Z) : EM (list string) := mret [].

(** ** Revisions and changes *)

Definition etcd_current_revision : EM Z :=
  let? resp := post "/v3/kv/range" (DObj [("key", DStr (encode "_sl_rev_probe")); ("count_only", DBool true)]) in
  mret (as_int (index (index resp "header") "revision")).

Definition event_kind (ev : Value) : EventKind :=
  match as_str (index ev "type") with
  | Some t => if String.eqb t "DELETE" then Delete else Put
  | None => Put
  end.

(** The loop on the events of one frame: what it appends, and whether the last
    revision was seen. *)
Fixpoint history_events (since target : Z) (evs : list Value) (out : list Event) (caught_up : bool)
    : result (list Event * bool) StoreError :=
  match evs with
  | [] => Ok (out, caught_up)
  | ev :: evs' =>
      let kv := index ev "kv" in
      let rev := as_int (index kv "mod_revision") in
      if (rev <=? since) || (target <? rev) then history_events since target evs' out caught_up
      else
        let kind := event_kind ev in
        rbind (unb64 (index kv "key")) (fun key_bytes =>
        let k := from_utf8_lossy key_bytes in
        rbind (if decide (kind = Delete) then Ok ""%string else unb64 (index kv "value")) (fun value =>
        history_events since target evs' (out ++ [mkEvent kind k value rev])
          (caught_up || (target <=? rev))))
  end.

(** [while !caught_up { .. }] on the reads of the stream. *)
Fixpoint history_loop (since target : Z) (lines : list LineRead) (out : list Event)
    : result (list Event) StoreError :=
  match lines with
  | [] | TimedOut _ :: _ => Ok out
  | ReadError e :: _ => Err (Backend ("watch 读帧: " ++s e))
  | Line line :: lines' =>
      match from_str (trim line) with
      | Err _ => history_loop since target lines' out
      | Ok frame =>
          match as_array (index (index frame "result") "events") with
          | None => history_loop since target lines' out
          | Some evs =>
              rbind (history_events since target evs out false) (fun '(out', caught_up) =>
              if caught_up : bool then Ok out' else history_loop since target lines' out')
          end
      end
  end.

(** [sort_by_key] (stable). *)
Fixpoint insert_event (e : Event) (l : list Event) : list Event :=
  match l with
  | [] => [e]
  | x :: l' => if ev_rev e <=? ev_rev x then e :: l else x :: insert_event e l'
  end.
Definition sort_events (l : list Event) : list Event := List.fold_right insert_event [] l.

Definition watch_body (key e : string) (start_revision : option Z) : doc :=
  let create_req := [("key", DStr (encode key)); ("range_end", DStr (encode e))] in
  DObj [("create_request",
         DObj (create_req ++ match start_revision with
                             | Some r => [("start_revision", DStr (dec r))]
                             | None => []
                             end))].

Definition etcd_changes_since (since : Z) (prefix : string) : EM (list Event) :=
  let? target := etcd_current_revision in
  if target <=? since then mret []
  else
    let '(key, e) := prefix_span prefix in
    let? lines := (fun g => let '(x, g') :=
                     open_stream (Some 1500) "/v3/watch" (to_string (watch_body key e (Some (i64_add since 1)))) g in
                   (match x with
                    | Ok lines => Ok lines
                    | Err e => Err (Backend ("watch(历史) 传输: " ++s e))
                    end, g')) in
    let? out := lift (history_loop since target lines []) in
    mret (sort_events out).

(** The thread of a watch: the events it sends while the receiver takes
    [room] of them. *)
Fixpoint forward_events (evs : list Value) (room : nat) : list Event * option nat :=
  match evs with
  | [] => ([], Some room)
  | ev :: evs' =>
      let kv := index ev "kv" in
      match unb64 (index kv "key") with
      | Err _ => forward_events evs' room
      | Ok b =>
          let kind := event_kind ev in
          let value := if decide (kind = Delete) then ""%string
                       else match unb64 (index kv "value") with Ok v => v | Err _ => ""%string end in
          let out := mkEvent kind (from_utf8_lossy b) value (as_int (index kv "mod_revision")) in
          match room with
          | O => ([], None)
          | S room' => let '(sent, rest) := forward_events evs' room' in (out :: sent, rest)
          end
      end
  end.

Fixpoint watch_thread (lines : list LineRead) (room : nat) : list Event :=
  match lines with
  | [] | TimedOut _ :: _ | ReadError _ :: _ => []
  | Line line :: lines' =>
      match from_str (trim line) with
      | Err _ => watch_thread lines' room
      | Ok frame =>
          match as_array (index (index frame "result") "events") with
          | None => watch_thread lines' room
          | Some evs =>
              let '(sent, rest) := forward_events evs room in
              sent ++ match rest with Some room' => watch_thread lines' room' | None => [] end
          end
      end
  end.

Definition etcd_watch (prefix : string) (g : G) : nat * G :=
  let '(key, e) := prefix_span prefix in
  spawn_watch (to_string (watch_body key e None)) g.

Definition etcd_compact (below : Z) : EM nat :=
  let? _ := post "/v3/kv/compaction" (DObj [("revision", DStr (dec below))]) in
  mret 0%nat.

(** [EtcdStore::connect] probes the server once. *)
Definition etcd_connect : EM unit :=
  let? _ := etcd_current_revision in mret tt.
End Client.

#[export] Instance etcd_store `{GatewayJson} `{Base64Crate} {G : Type} `{EtcdWorld G} : Store G := {|
  get := etcd_get;
  list_prefix := etcd_list;
  put := etcd_put;
  delete_key := etcd_delete;
  compare_and_swap := etcd_compare_and_swap;
  lease_grant := fun _ ttl => etcd_lease_grant ttl;
  lease_keepalive := etcd_lease_keepalive;
  lease_revoke := etcd_lease_revoke;
  lease_sweep := etcd_lease_sweep;
  current_revision := etcd_current_revision;
  changes_since := etcd_changes_since;
  watch := etcd_watch;
  compact := etcd_compact
|}.
