(* ===== verification/EtcdSpec.v ===== *)
(** * What the etcd client implements

    The documented behaviour of the server and of the libraries, as laws on the
    requests and answers of the gateway ([Base64Laws], [EtcdLaws]); and, from
    them, that the client's methods keep the contract of the store: a call that
    succeeds has exactly the effect of the trait's post-condition, a call that
    fails has that effect or none, and the history of a prefix is complete. *)

From Stdlib Require Import ZArith Lia Bool List String Ascii Sorting.Sorted.
From stdpp Require Import base tactics list gmap strings sorting.
From S2P Require Import Prelude RustStr Utf8 Store Text Etcd.

Open Scope Z_scope.

(** ** Prefixes and ranges *)

(** The range of a request: one key, or from [key] up to an end that is not in
    it; the end that is one zero byte stands for all keys from [key]. *)
Definition in_key_range (key : string) (e : option string) (k : string) : bool :=
  match e with
  | None => String.eqb k key
  | Some e => if String.eqb e zero_key then str_le key k else str_le key k && str_lt k e
  end.

Definition ustate_ok (st : ustate) : Prop :=
  match st with Between => True | InChar _ _ hi _ => hi <= 191 end.

Lemma ustart_ok c : ustate_ok (ustart c).2.
Proof. unfold ustart. repeat case_match; simpl; lia || done. Qed.

Lemma ustep_ok st c : ustate_ok st -> ustate_ok (ustep st c).2.
Proof.
  destruct st as [|acc lo hi more]; simpl; [intros _; apply ustart_ok|]. intros Hhi.
  destruct ((lo <=? byte_val c) && (byte_val c <=? hi)).
  - destruct more; simpl; [done|lia].
  - pose proof (ustart_ok c) as Ho. by destruct (ustart c).
Qed.

Lemma urun_ok s st : ustate_ok st -> ustate_ok (urun st s).2.
Proof.
  revert st; induction s as [|c s IH]; intros st Hst; cbn [urun]; [done|].
  pose proof (ustep_ok st c Hst) as H1. destruct (ustep st c) as [o st']. specialize (IH st' H1).
  by destruct (urun st' s).
Qed.

Lemma snoc_inj a b c d : snoc a c = snoc b d -> a = b /\ c = d.
Proof.
  unfold snoc. revert b; induction a as [|x a IH]; intros [|y b]; cbn [String.append].
  - by intros [= ->].
  - intros [= -> Hb]. by destruct b.
  - intros [= -> Ha]. by destruct a.
  - intros [= -> Hab]. by apply IH in Hab as [-> ->].
Qed.

(** No well-formed text ends in the byte 255. *)
Lemma valid_last q c : valid_utf8 (snoc q c) = true -> byte_val c < 255.
Proof.
  intros Hv%valid_utf8_urun. unfold snoc in Hv. rewrite urun_app in Hv.
  pose proof (urun_ok q Between I) as Hok. destruct (urun Between q) as [o st]. cbn [snd] in Hok.
  pose proof (byte_val_range c) as Hr. destruct (Z.eq_dec (byte_val c) 255) as [E|]; [exfalso|lia].
  assert (ustart c = (replacement, Between)) as Hs by (unfold ustart; rewrite E; done).
  cbn [urun] in Hv.
  assert (exists x, ustep st c = (x ++s replacement, Between)) as [x Hx].
  { destruct st as [|acc lo hi more]; cbn [ustep]; [by exists ""%string|]. simpl in Hok.
    destruct (Z.leb_spec (byte_val c) hi); [lia|]. rewrite andb_false_r, Hs. by exists replacement. }
  rewrite Hx in Hv. injection Hv as Hv. rewrite app_nil_s in Hv.
  set (h := String (byte_of 239) (String (byte_of 191) "")).
  change replacement with (snoc h (byte_of 189)) in Hv. unfold snoc in Hv.
  rewrite <- !app_assoc_s in Hv. apply (snoc_inj ((o ++s x) ++s h) q (byte_of 189) c) in Hv as [_ <-].
  by vm_compute in E.
Qed.

Lemma string_snoc s : s = ""%string \/ exists q c, s = snoc q c.
Proof.
  induction s as [|c s IH]; [by left|right]. destruct IH as [->|(q & d & ->)].
  - by exists ""%string, c.
  - by exists (String c q), d.
Qed.

Lemma list_ascii_snoc q c : list_ascii_of_string (snoc q c) = list_ascii_of_string q ++ [c].
Proof. unfold snoc. induction q as [|d q IH]; [done|]. cbn. by rewrite IH. Qed.

Lemma string_of_snoc l c : string_of_list_ascii (l ++ [c]) = snoc (string_of_list_ascii l) c.
Proof. induction l as [|d l IH]; [done|]. cbn. by rewrite IH. Qed.

(** The end of the range of a text that ends in [c]. *)
Lemma range_end_snoc q c :
  byte_val c < 255 -> range_end_for_prefix (snoc q c) = snoc q (byte_of (byte_val c + 1)).
Proof.
  intros Hc. unfold range_end_for_prefix. destruct (snoc q c) as [|x s] eqn:E.
  - by destruct q.
  - rewrite <- E, list_ascii_snoc, List.rev_app_distr. cbn [List.rev List.app range_end_loop].
    rewrite (proj2 (Z.ltb_lt _ _) Hc). cbn [List.rev]. rewrite List.rev_involutive, string_of_snoc.
    by rewrite string_of_list_ascii_of_string.
Qed.

(** A range request for a prefix selects the keys that start with it. *)
Lemma prefix_span_exact p k :
  valid_utf8 p = true -> k <> ""%string ->
  in_key_range (prefix_span p).1 (Some (prefix_span p).2) k = starts_with p k.
Proof.
  intros Hp Hk. destruct (string_snoc p) as [->|(q & c & ->)].
  - unfold starts_with. cbn. destruct k as [|x k]; [done|]. unfold zero_key. rewrite str_le_cons, str_le_nil.
    pose proof (byte_val_range x). change (byte_val "000") with 0.
    destruct (Z.ltb_spec 0 (byte_val x)), (Z.eqb_spec 0 (byte_val x)); done || lia.
  - apply valid_last in Hp as Hc. pose proof (byte_val_range c).
    assert (prefix_span (snoc q c) = (snoc q c, snoc q (byte_of (byte_val c + 1)))) as ->.
    { rewrite <- range_end_snoc by done. unfold prefix_span. destruct (snoc q c) eqn:E; [by destruct q|done]. }
    cbn [fst snd in_key_range]. destruct (String.eqb_spec (snoc q (byte_of (byte_val c + 1))) zero_key) as [E|_].
    + exfalso. apply (snoc_inj q "" _ "000"%char) in E as [_ E]. apply (f_equal byte_val) in E.
      rewrite byte_val_of in E by lia. change (byte_val "000") with 0 in E. lia.
    + apply prefix_between. by rewrite byte_val_of by lia.
Qed.

(** ** The laws of the libraries *)

Class Base64Laws `{Base64Crate} : Prop := {
  decode_encode : forall b, decode (encode b) = Ok b;
  encode_nil : encode "" = ""%string
}.

(** ** Requests, as the gateway reads them *)

Section Requests.
Context `{Base64Crate}.

Definition has_bytes (d : doc) (f b : string) : Prop := dget d f = Some (DStr (encode b)).
Definition has_int (d : doc) (f : string) (n : Z) : Prop := in_i64 n /\ dget d f = Some (DStr (dec n)).

Definition range_request (d : doc) (key : string) (e : option string) : Prop :=
  has_bytes d "key" key /\ dget d "count_only" = None /\
  match e with Some e => has_bytes d "range_end" e | None => dget d "range_end" = None end.

Definition count_request (d : doc) (key : string) : Prop :=
  has_bytes d "key" key /\ dget d "count_only" = Some (DBool true).

Definition put_request (d : doc) (k v : string) (l : option Z) : Prop :=
  has_bytes d "key" k /\ has_bytes d "value" v /\
  match l with Some id => has_int d "lease" id | None => dget d "lease" = None end.

(** The comparison of a transaction: the revision of the last change of the
    key, or that the key was never created. *)
Definition compare_request (d : doc) (k : string) (e : option Z) : Prop :=
  has_bytes d "key" k /\ dget d "result" = Some (DStr "EQUAL") /\
  match e with
  | Some r => dget d "target" = Some (DStr "MOD") /\ has_int d "mod_revision" r
  | None => dget d "target" = Some (DStr "CREATE") /\ has_int d "create_revision" 0
  end.

Definition txn_request (d : doc) (k : string) (e : option Z) (v : string) (l : option Z) : Prop :=
  exists c s f p q, dget d "compare" = Some (DArr [c]) /\ compare_request c k e /\
    dget d "success" = Some (DArr [s]) /\ dget s "request_put" = Some p /\ put_request p k v l /\
    dget d "failure" = Some (DArr [f]) /\ dget f "request_range" = Some q /\ range_request q k None.

Definition watch_request (d : doc) (key e : string) (start : Z) : Prop :=
  exists c, dget d "create_request" = Some c /\ has_bytes c "key" key /\ has_bytes c "range_end" e /\
            has_int c "start_revision" start.
End Requests.

(** ** Answers, as the gateway writes them

    Bytes are base64, 64-bit numbers are text; a field that has the default
    value of its type may be left out. *)

Section Answers.
Context `{GatewayJson} `{Base64Crate}.

Definition is_bytes (v : Value) (b : string) : Prop :=
  as_str v = Some (encode b) \/ (b = ""%string /\ as_str v = None).

Definition is_int (v : Value) (n : Z) : Prop :=
  as_str v = Some (dec n) \/ (as_str v = None /\ vas_int v = Some n) \/
  (n = 0 /\ as_str v = None /\ vas_int v = None).

Definition is_bool (v : Value) (b : bool) : Prop :=
  as_bool v = Some b \/ (b = false /\ as_bool v = None).

Definition is_list {A} (R : Value -> A -> Prop) (v : Value) (l : list A) : Prop :=
  (exists vs, as_array v = Some vs /\ Forall2 R vs l) \/ (l = [] /\ as_array v = None).

Definition is_kv (v : Value) (kv : KeyValue) : Prop :=
  is_bytes (index v "key") (kv_key kv) /\ is_bytes (index v "value") (kv_value kv) /\
  is_int (index v "create_revision") (kv_create kv) /\ is_int (index v "mod_revision") (kv_mod kv) /\
  is_int (index v "lease") (match kv_lease kv with Some id => id | None => 0 end).

Definition is_event (v : Value) (e : Event) : Prop :=
  let kv := index v "kv" in
  is_bytes (index kv "key") (ev_key e) /\ is_int (index kv "mod_revision") (ev_rev e) /\
  match ev_kind e with
  | Delete => as_str (index v "type") = Some "DELETE"%string /\ ev_value e = ""%string
  | Put => (as_str (index v "type") = Some "PUT"%string \/ as_str (index v "type") = None) /\
           is_bytes (index kv "value") (ev_value e)
  end.

Definition revision_is (v : Value) (n : Z) : Prop := is_int (index (index v "header") "revision") n.

(** The lines of a watch carry these events, until the stream ends, falls
    silent or breaks.  The events of one revision come in one line. *)
Inductive carries : list LineRead -> list Event -> Prop :=
| carries_end : carries [] []
| carries_silent e ls : carries (TimedOut e :: ls) []
| carries_broken e ls : carries (ReadError e :: ls) []
| carries_noise s e ls evs : from_str (trim s) = Err e -> carries ls evs -> carries (Line s :: ls) evs
| carries_frame s v es ls evs :
    from_str (trim s) = Ok v -> is_list is_event (index (index v "result") "events") es ->
    (forall x y, In x es -> In y evs -> ev_rev x < ev_rev y) ->
    carries ls evs -> carries (Line s :: ls) (es ++ evs).

Definition unbroken (ls : list LineRead) : Prop := forall e, ~ In (ReadError e) ls.
End Answers.

(** ** The laws of the server *)

(** The lease of a write exists. *)
Definition lease_known (l : option Z) (a : AStore) : Prop :=
  forall id, l = Some id -> is_Some (a_leases a !! id).

(** A transaction that compares the revision of a key that does not exist
    compares zero. *)
Definition compare_holds (e : option Z) (o : option KeyValue) : bool :=
  match e, o with
  | Some r, Some kv => kv_mod kv =? r
  | Some r, None => r =? 0
  | None, Some _ => false
  | None, None => true
  end.

(** A lease is revoked: its keys are deleted, at one revision. *)
Definition revoked (id : Z) (a a' : AStore) : Prop :=
  exists ks, NoDup ks /\
    (forall k, In k ks <-> exists kv, a_kv a !! k = Some kv /\ kv_lease kv = Some id) /\
    let rev := match ks with [] => a_rev a | _ => a_rev a + 1 end in
    a' = mkA rev (filter (fun p => kv_lease p.2 <> Some id) (a_kv a)) (delete id (a_leases a))
             (a_events a ++ map (fun k => mkEvent Delete k "" rev) ks).

(** The lease has a new expiry; its time to live, the other leases, the keys, the
    events and the revision are as they were. *)
Definition renewed (id : Z) (a a' : AStore) : Prop :=
  exists l l', a_leases a !! id = Some l /\ l_ttl l' = l_ttl l /\ a' = a_with_leases (<[id := l']> (a_leases a)) a.

(** A deletion has no value. *)
Definition bare_delete (e : Event) : Prop := ev_kind e = Delete -> ev_value e = ""%string.

Class EtcdView (G : Type) : Type := {
  view : G -> AStore;
  healthy_server : G -> Prop;
  compacted : G -> Z
}.

Section Serves.
Context `{GatewayJson} `{Base64Crate} {G : Type} `{EtcdWorld G} `{EtcdView G}.

(** The state of the server becomes [a]; its revisions are 64-bit. *)
Definition becomes (a : AStore) (g g' : G) : Prop :=
  view g' = a /\ a_rev a <= i64_max /\ compacted g' = compacted g.

(** [serves path d accepts commit answer]: a request is committed and answered,
    or it fails and is committed or not; a healthy server answers the requests
    it accepts. *)
Definition serves (path : string) (d : doc) (accepts : AStore -> Prop) (commit : G -> G -> Prop)
    (answer : G -> G -> Value -> Prop) : Prop :=
  forall g, a_rev (view g) <= i64_max ->
    let '(x, g') := exchange path (to_string d) g in
    let undecided := becomes (view g) g g' \/ commit g g' in
    (healthy_server g -> healthy_server g' /\
       (accepts (view g) -> exists text v, x = Reply (Ok text) /\ from_str text = Ok v)) /\
    match x with
    | Reply (Ok text) => match from_str text with
                         | Ok v => commit g g' /\ answer g g' v
                         | Err _ => undecided
                         end
    | _ => undecided
    end.
End Serves.

Class EtcdLaws (G : Type) `{GatewayJson} `{Base64Crate} `{EtcdWorld G} `{EtcdView G} : Prop := {
  range_law : forall d key e, range_request d key e ->
    serves "/v3/kv/range" d (fun _ => key <> ""%string) (fun g g' => becomes (view g) g g')
      (fun g _ v => revision_is v (a_rev (view g)) /\
         exists l, is_list is_kv (index v "kvs") l /\ sorted_by_key l /\
           forall kv, In kv l <-> a_kv (view g) !! kv_key kv = Some kv /\ in_key_range key e (kv_key kv) = true);
  count_law : forall d key, count_request d key ->
    serves "/v3/kv/range" d (fun _ => key <> ""%string) (fun g g' => becomes (view g) g g')
      (fun g _ v => revision_is v (a_rev (view g)));
  put_law : forall d k v l, put_request d k v l -> l <> Some 0 ->
    serves "/v3/kv/put" d
      (fun a => k <> ""%string /\ lease_known l a /\ a_rev a < i64_max)
      (fun g g' => k <> ""%string /\ lease_known l (view g) /\ becomes (a_write k v l (view g)) g g')
      (fun _ g' r => revision_is r (a_rev (view g')));
  delete_law : forall d k, range_request d k None ->
    serves "/v3/kv/deleterange" d (fun a => k <> ""%string /\ a_rev a < i64_max)
      (fun g g' => becomes (match a_kv (view g) !! k with Some _ => a_remove k (view g) | None => view g end) g g')
      (fun g _ r => is_int (index r "deleted") (match a_kv (view g) !! k with Some _ => 1 | None => 0 end));
  txn_law : forall d k e v l, txn_request d k e v l -> l <> Some 0 ->
    serves "/v3/kv/txn" d
      (fun a => k <> ""%string /\ lease_known l a /\ a_rev a < i64_max)
      (fun g g' => if compare_holds e (a_kv (view g) !! k)
                   then k <> ""%string /\ lease_known l (view g) /\ becomes (a_write k v l (view g)) g g'
                   else becomes (view g) g g')
      (fun g g' r => revision_is r (a_rev (view g')) /\
         is_bool (index r "succeeded") (compare_holds e (a_kv (view g) !! k)) /\
         (compare_holds e (a_kv (view g) !! k) = false ->
            exists x xs, as_array (index r "responses") = Some (x :: xs) /\
              is_list is_kv (index (index x "response_range") "kvs")
                (match a_kv (view g) !! k with Some kv => [kv] | None => [] end)));
  grant_law : forall d ttl, has_int d "TTL" ttl -> has_int d "ID" 0 ->
    serves "/v3/lease/grant" d
      (fun a => 0 < ttl /\ forall id, is_Some (a_leases a !! id) -> id < i64_max)
      (fun g g' => exists id l, 0 < id <= i64_max /\ a_leases (view g) !! id = None /\ ttl <= l_ttl l /\
                   becomes (a_with_leases (<[id := l]> (a_leases (view g))) (view g)) g g')
      (fun g g' r => exists id l, 0 < id <= i64_max /\ a_leases (view g) !! id = None /\ ttl <= l_ttl l /\
                   becomes (a_with_leases (<[id := l]> (a_leases (view g))) (view g)) g g' /\
                   is_int (index r "ID") id);
  timetolive_law : forall d id, has_int d "ID" id -> dget d "keys" = Some (DBool true) ->
    serves "/v3/lease/timetolive" d (fun _ => True) (fun g g' => becomes (view g) g g')
      (fun g _ r => exists ks, is_list is_bytes (index r "keys") ks /\ NoDup ks /\
         forall k, In k ks <-> exists kv, a_kv (view g) !! k = Some kv /\ kv_lease kv = Some id);
  revoke_law : forall d id, has_int d "ID" id ->
    serves "/v3/lease/revoke" d (fun a => is_Some (a_leases a !! id) /\ a_rev a < i64_max)
      (fun g g' => is_Some (a_leases (view g) !! id) /\
                   exists a', revoked id (view g) a' /\ becomes a' g g')
      (fun _ _ _ => True);
  (** a keep-alive renews the lease it names or does nothing; a healthy server
      answers with the time to live, zero for a lease that does not exist *)
  keepalive_law : forall d id g, has_int d "ID" id -> a_rev (view g) <= i64_max ->
    let '(x, g') := open_stream (Some 10000) "/v3/lease/keepalive" (to_string d) g in
    (becomes (view g) g g' \/ renewed id (view g) (view g') /\ becomes (view g') g g') /\
    (healthy_server g -> healthy_server g' /\
    exists line ls v, x = Ok (Line line :: ls) /\ from_str (trim line) = Ok v /\
      match a_leases (view g) !! id with
      | Some l => is_int (index (index v "result") "TTL") (l_ttl l) /\ renewed id (view g) (view g')
      | None => is_int (index (index v "result") "TTL") 0
      end);
  compact_law : forall d below, has_int d "revision" below ->
    serves "/v3/kv/compaction" d (fun _ => False)
      (fun g g' => view g' = view g /\ compacted g' = below)
      (fun _ _ _ => True);
  (** a watch from a revision that is not compacted replays the history of its
      range, then goes on with later events *)
  watch_law : forall d key e start g, watch_request d key e start -> compacted g < start ->
    a_rev (view g) <= i64_max -> Forall bare_delete (a_events (view g)) ->
    let '(x, g') := open_stream (Some 1500) "/v3/watch" (to_string d) g in
    becomes (view g) g g' /\ (healthy_server g -> healthy_server g') /\
    exists seen rest later,
      List.filter (fun v => (start <=? ev_rev v) && in_key_range key (Some e) (ev_key v)) (a_events (view g)) ++ later
        = seen ++ rest /\
      Forall (fun v => a_rev (view g) < ev_rev v <= i64_max) later /\
      match x with Ok ls => carries ls seen | Err _ => True end /\
      (healthy_server g -> rest = [] /\ exists ls, x = Ok ls /\ unbroken ls);
  (** a watch from a compacted revision is cancelled *)
  cancel_law : forall d key e start g, watch_request d key e start -> start < compacted g ->
    healthy_server g ->
    let '(x, g') := open_stream (Some 1500) "/v3/watch" (to_string d) g in
    exists ls, x = Ok ls /\ carries ls [] /\ unbroken ls
}.

(** ** States the client keeps the server in *)

Definition lease_ok (l : option Z) : Prop := forall id, l = Some id -> id <> 0 /\ in_i64 id.

Definition key_ok (k : string) : Prop := k <> ""%string /\ valid_utf8 k = true.

Record ewf (a : AStore) : Prop := {
  ewf_rev : 0 <= a_rev a <= i64_max;
  ewf_key : forall k kv, a_kv a !! k = Some kv -> kv_key kv = k /\ key_ok k;
  ewf_revs : forall k kv, a_kv a !! k = Some kv -> 0 < kv_create kv <= kv_mod kv /\ kv_mod kv <= a_rev a;
  ewf_lease : forall k kv, a_kv a !! k = Some kv -> lease_ok (kv_lease kv) /\ lease_known (kv_lease kv) a;
  ewf_sorted : StronglySorted Z.le (map ev_rev (a_events a));
  ewf_events : Forall (fun e => 0 < ev_rev e <= a_rev a /\ key_ok (ev_key e)) (a_events a);
  ewf_deletes : Forall bare_delete (a_events a)
}.

Lemma sorted_app_le l1 l2 (b : Z) :
  StronglySorted Z.le l1 -> StronglySorted Z.le l2 ->
  Forall (fun x => x <= b) l1 -> Forall (fun x => b <= x) l2 -> StronglySorted Z.le (l1 ++ l2).
Proof.
  intros H1 H2 F1 F2. induction H1 as [|x l1 H1 IH Hx]; cbn; [done|].
  inversion F1 as [|? ? Hxb F1']; subst. constructor; [auto|]. apply List.Forall_app. split; [done|].
  eapply List.Forall_impl; [|exact F2]. cbn. lia.
Qed.

Lemma Forall_map_rev (P : Z -> Prop) l : Forall (fun e => P (ev_rev e)) l -> Forall P (map ev_rev l).
Proof. induction 1; simpl; by constructor. Qed.

(** New events of the next revision. *)
Lemma events_extend a l :
  ewf a -> Forall (fun e => ev_rev e = a_rev a + 1 /\ key_ok (ev_key e)) l ->
  StronglySorted Z.le (map ev_rev (a_events a ++ l)) /\
  Forall (fun e => 0 < ev_rev e <= a_rev a + 1 /\ key_ok (ev_key e)) (a_events a ++ l).
Proof.
  intros Ha Hl. pose proof (ewf_rev _ Ha). split.
  - rewrite map_app. apply (sorted_app_le _ _ (a_rev a + 1)).
    + apply Ha.
    + clear -Hl. induction Hl as [|e l [He _] Hl IH]; simpl; constructor; [done|].
      apply Forall_map_rev. eapply List.Forall_impl; [|exact Hl]. cbn. lia.
    + apply Forall_map_rev. eapply List.Forall_impl; [|apply (ewf_events _ Ha)]. cbn. lia.
    + apply Forall_map_rev. eapply List.Forall_impl; [|exact Hl]. cbn. lia.
  - apply List.Forall_app. split.
    + eapply List.Forall_impl; [|apply (ewf_events _ Ha)]. cbn. intros e [? ?]. split; [lia|done].
    + eapply List.Forall_impl; [|exact Hl]. cbn. intros e [? ?]. split; [lia|done].
Qed.

Lemma a_write_ewf k v l a :
  ewf a -> key_ok k -> lease_ok l -> lease_known l a -> a_rev (a_write k v l a) <= i64_max ->
  ewf (a_write k v l a).
Proof.
  intros Ha Hk Hl Hlk Hr. pose proof (ewf_rev _ Ha) as H0.
  destruct (events_extend a [mkEvent Put k v (a_rev a + 1)] Ha ltac:(constructor; [done|constructor])) as [E1 E2].
  split; try done; [simpl in *; lia| | | |by apply List.Forall_app; split; [apply Ha|repeat constructor]];
    intros k' kv'; rewrite a_write_kv; destruct (decide (k = k')) as [<-|].
  - by intros [= <-].
  - apply (ewf_key _ Ha).
  - intros [= <-]. simpl. destruct (a_kv a !! k) as [kv|] eqn:E; [|lia].
    pose proof (ewf_revs _ Ha _ _ E). lia.
  - intros Hk'. pose proof (ewf_revs _ Ha _ _ Hk'). simpl. lia.
  - by intros [= <-].
  - apply (ewf_lease _ Ha).
Qed.

Lemma a_remove_ewf k a : ewf a -> key_ok k -> a_rev (a_remove k a) <= i64_max -> ewf (a_remove k a).
Proof.
  intros Ha Hk Hr. pose proof (ewf_rev _ Ha) as H0.
  destruct (events_extend a [mkEvent Delete k "" (a_rev a + 1)] Ha ltac:(constructor; [done|constructor])) as [E1 E2].
  split; try done; [simpl in *; lia| | | |by apply List.Forall_app; split; [apply Ha|repeat constructor]];
    intros k' kv'; simpl; intros [Hn Hk']%lookup_delete_Some.
  - by apply (ewf_key _ Ha).
  - pose proof (ewf_revs _ Ha _ _ Hk'). lia.
  - apply (ewf_lease _ Ha _ _ Hk').
Qed.

Lemma grant_ewf id l a : ewf a -> ewf (a_with_leases (<[id := l]> (a_leases a)) a).
Proof.
  intros Ha. split; try apply Ha. intros k kv Hk. destruct (ewf_lease _ Ha _ _ Hk) as [H1 H2]. split; [done|].
  intros i Hi. simpl. destruct (decide (id = i)) as [<-|]; [rewrite lookup_insert_eq; eauto|].
  rewrite lookup_insert_ne by done. auto.
Qed.

Lemma revoked_ewf id a a' : ewf a -> revoked id a a' -> a_rev a' <= i64_max -> ewf a'.
Proof.
  intros Ha (ks & Hnd & Hks & ->) Hr. pose proof (ewf_rev _ Ha) as H0. simpl in Hr.
  set (rev := match ks with [] => a_rev a | _ => a_rev a + 1 end) in *.
  assert (StronglySorted Z.le (map ev_rev (a_events a ++ map (fun k => mkEvent Delete k "" rev) ks)) /\
          Forall (fun e => 0 < ev_rev e <= rev /\ key_ok (ev_key e))
            (a_events a ++ map (fun k => mkEvent Delete k "" rev) ks)) as [E1 E2].
  { destruct ks as [|k0 ks0] eqn:Eks; subst rev; [rewrite app_nil_r; split; apply Ha|].
    rewrite <- Eks in *. apply events_extend; [done|]. apply List.Forall_map, List.Forall_forall. intros k Hk.
    split; [done|]. apply Hks in Hk as (kv & Hk & _). by apply (ewf_key _ Ha) in Hk as [_ ?]. }
  assert (a_rev a <= rev) as Hle by (subst rev; destruct ks; lia).
  assert (Forall bare_delete (a_events a ++ map (fun k => mkEvent Delete k "" rev) ks)) as E3.
  { apply List.Forall_app. split; [apply Ha|]. apply List.Forall_map, List.Forall_forall. by intros k _ _. }
  split; try done; [simpl; lia|..]; intros k kv; simpl; intros [Hk Hf]%map_lookup_filter_Some; simpl in Hf.
  - by apply (ewf_key _ Ha).
  - pose proof (ewf_revs _ Ha _ _ Hk). lia.
  - destruct (ewf_lease _ Ha _ _ Hk) as [H1 H2]. split; [done|]. intros i Hi. simpl.
    rewrite lookup_delete_ne by congruence. auto.
Qed.

(** ** Reading answers *)

Section Reading.
Context `{GatewayJson} `{Base64Laws}.

Lemma unb64_is v b : is_bytes v b -> unb64 v = Ok b.
Proof.
  unfold unb64. intros [->|[-> ->]]; [by rewrite decode_encode|].
  rewrite <- encode_nil at 1. by rewrite decode_encode.
Qed.

Lemma as_int_is v n : in_i64 n -> is_int v n -> as_int v = n.
Proof.
  intros Hn. unfold as_int. intros [->|[[-> ->]|(-> & -> & ->)]]; [by rewrite parse_i64_dec|done|done].
Qed.

(** What the client can read back. *)
Definition readable (kv : KeyValue) : Prop :=
  valid_utf8 (kv_key kv) = true /\ in_i64 (kv_create kv) /\ in_i64 (kv_mod kv) /\ lease_ok (kv_lease kv).

Lemma kv_from_json_is v kv : is_kv v kv -> readable kv -> kv_from_json v = Ok kv.
Proof.
  intros (Hk & Hv & Hc & Hm & Hl) (Ru & Rc & Rm & Rl). unfold kv_from_json.
  rewrite (unb64_is _ _ Hk), (unb64_is _ _ Hv), (as_int_is _ _ Rc Hc), (as_int_is _ _ Rm Hm). cbn [rbind].
  rewrite from_utf8_lossy_valid by done. destruct kv as [k x c m [id|]]; simpl in *.
  - destruct (Rl id eq_refl) as [Hnz Hi]. rewrite (as_int_is _ _ Hi Hl).
    by rewrite (proj2 (Z.eqb_neq id 0) Hnz).
  - by rewrite (as_int_is _ 0 ltac:(done) Hl).
Qed.

Lemma kvs_from_json_is vs l : Forall2 is_kv vs l -> Forall readable l -> kvs_from_json vs = Ok l.
Proof.
  induction 1 as [|v kv vs l Hv Hvs IH]; intros HF; [done|]. inversion HF; subst. cbn [kvs_from_json].
  rewrite (kv_from_json_is _ _ Hv) by done. cbn [rbind]. by rewrite IH.
Qed.

(** The first element of an array of at most one. *)
Lemma is_list_head {A} (R : Value -> A -> Prop) v l :
  is_list R v l ->
  match as_array v with
  | Some (x :: _) => exists y l', l = y :: l' /\ R x y
  | _ => l = []
  end.
Proof.
  intros [(vs & -> & HF)|[-> ->]]; [|done]. inversion HF; subst; eauto.
Qed.

Lemma attached_keys_is vs ks :
  Forall2 is_bytes vs ks -> Forall (fun k => valid_utf8 k = true) ks -> attached_keys vs = ks.
Proof.
  induction 1 as [|v k vs ks Hv Hvs IH]; intros HF; [done|]. inversion HF; subst. cbn [attached_keys].
  rewrite (unb64_is _ _ Hv), from_utf8_lossy_valid by done. by rewrite IH.
Qed.
End Reading.

Lemma ewf_readable a kv : ewf a -> a_kv a !! kv_key kv = Some kv -> readable kv.
Proof.
  intros Ha Hk. destruct (ewf_key _ Ha _ _ Hk) as [_ [_ Hu]]. pose proof (ewf_revs _ Ha _ _ Hk) as Hr.
  pose proof (ewf_rev _ Ha) as H0. destruct (ewf_lease _ Ha _ _ Hk) as [Hl _].
  unfold readable, in_i64, i64_min, i64_max in *. repeat split; try done; try lia; by apply Hl.
Qed.

Lemma in_i64_nonneg n : 0 <= n <= i64_max -> in_i64 n.
Proof. unfold in_i64, i64_min. lia. Qed.

Lemma ewf_rev_i64 a : ewf a -> in_i64 (a_rev a).
Proof. intros Ha. apply in_i64_nonneg, Ha. Qed.

(** ** Calls *)

Section Contract.
Context {G : Type} `{EtcdLaws G} `{!Base64Laws}.

Definition ok_server (g : G) : Prop := ewf (view g).

(** [atomic accepts m post]: a call that succeeds meets [post]; one that fails
    reports a backend error and has the effect of [post] or none; and a healthy
    server that accepts the request makes it succeed. *)
Definition atomic {A} (accepts : AStore -> Prop) (m : EM A) (post : AStore -> result A StoreError -> AStore -> Prop) : Prop :=
  forall g, ok_server g ->
    let '(r, g') := m g in
    ok_server g' /\ compacted g' = compacted g /\
    (healthy_server g -> healthy_server g' /\ (accepts (view g) -> exists x, r = Ok x)) /\
    match r with
    | Ok x => post (view g) (Ok x) (view g')
    | Err (Backend _) => view g' = view g \/ exists x, post (view g) (Ok x) (view g')
    | Err (NoSuchLease _) => False
    end.

Lemma post_serves path d accepts commit answer g :
  serves path d accepts commit answer -> a_rev (view g) <= i64_max ->
  let '(r, g') := post path d g in
  (healthy_server g -> healthy_server g' /\ (accepts (view g) -> exists v, r = Ok v)) /\
  match r with
  | Ok v => commit g g' /\ answer g g' v
  | Err (Backend _) => becomes (view g) g g' \/ commit g g'
  | Err (NoSuchLease _) => False
  end.
Proof.
  intros Hs Hr. specialize (Hs g Hr). unfold post. destruct (exchange path (to_string d) g) as [x g'].
  destruct Hs as [Hh Hx]. split.
  - intros Hg. destruct (Hh Hg) as [Hg' Ha]. split; [done|]. intros (text & v & -> & ->)%Ha. eauto.
  - destruct x as [[text|e]|code body|e]; try done. by destruct (from_str text).
Qed.

(** From the law of a request to the contract of a method that is one request. *)
Lemma atomic_post {A} path d accepts commit answer (k : Value -> EM A) (post' : AStore -> result A StoreError -> AStore -> Prop) :
  serves path d accepts commit answer ->
  (forall g g', ok_server g -> commit g g' ->
     ok_server g' /\ compacted g' = compacted g /\
     (view g' = view g \/ exists x, post' (view g) (Ok x) (view g'))) ->
  (forall g g' v, ok_server g -> commit g g' -> answer g g' v ->
     exists x, k v g' = (Ok x, g') /\ post' (view g) (Ok x) (view g')) ->
  atomic accepts (mbind (post path d) k) post'.
Proof.
  intros Hs Hc Hk g Hg. pose proof (post_serves _ _ _ _ _ g Hs (proj2 (ewf_rev _ Hg))) as Hp.
  unfold mbind. destruct (post path d g) as [[v|e] g'].
  - destruct Hp as [Hh [Hcm Han]]. destruct (Hk g g' v Hg Hcm Han) as (x & -> & Hx).
    destruct (Hc g g' Hg Hcm) as (Ho & He & _). split; [done|]. split; [done|]. split; [|done].
    intros Hhg. destruct (Hh Hhg) as [? _]. eauto.
  - destruct Hp as [Hh Hp]. destruct e as [e|i]; [|done].
    assert (ok_server g' /\ compacted g' = compacted g /\
            (view g' = view g \/ exists x, post' (view g) (Ok x) (view g'))) as (Ho & He & Hv).
    { destruct Hp as [(Hv & _ & Hcp)|Hcm].
      - split; [unfold ok_server; by rewrite Hv|]. auto.
      - destruct (Hc g g' Hg Hcm) as (Ho & He & Hx). auto. }
    split; [done|]. split; [done|]. split; [|done]. intros Hhg. destruct (Hh Hhg) as [Hhg' Ha].
    split; [done|]. intros [v Hv']%Ha. done.
Qed.

Lemma atomic_weaken {A} (accepts accepts' : AStore -> Prop) (m : EM A) post' :
  (forall a, accepts' a -> accepts a) -> atomic accepts m post' -> atomic accepts' m post'.
Proof.
  intros Ha Hm g Hg. specialize (Hm g Hg). destruct (m g) as [r g']. naive_solver.
Qed.

(** *** The requests of the client *)

Lemma range_body_request k e : range_request (range_body k e) k e.
Proof. by destruct e. Qed.

Lemma put_body_request k v l : lease_ok l -> put_request (put_body k v l) k v l.
Proof. intros Hl. destruct l as [id|]; [|done]. destruct (Hl id eq_refl). done. Qed.

Lemma compare_body_request k e : (forall r, e = Some r -> in_i64 r) -> compare_request (compare_body k e) k e.
Proof. intros He. destruct e as [r|]; [|done]. specialize (He r eq_refl). done. Qed.

Lemma txn_body_request k e v l :
  lease_ok l -> (forall r, e = Some r -> in_i64 r) -> txn_request (txn_body k e v l) k e v l.
Proof.
  intros Hl He.
  exists (compare_body k e), (DObj [("request_put"%string, put_body k v l)]),
    (DObj [("request_range"%string, DObj [("key"%string, DStr (encode k))])]),
    (put_body k v l), (DObj [("key"%string, DStr (encode k))]).
  repeat (split; [first [by apply compare_body_request | by apply put_body_request | done]|]). done.
Qed.

Lemma becomes_ok g g' : ok_server g -> becomes (view g) g g' -> ok_server g' /\ compacted g' = compacted g.
Proof. intros Hg (Hv & _ & Hc). unfold ok_server. by rewrite Hv. Qed.

(** *** The methods *)

Lemma get_atomic k : atomic (fun _ => k <> ""%string) (etcd_get k) (fun a => get_post a k).
Proof.
  eapply atomic_post; [apply range_law, range_body_request|..].
  - intros g g' Hg Hb. destruct (becomes_ok _ _ Hg Hb). destruct Hb as (-> & _).
    auto.
  - intros g g' v Hg (Hv & _) (_ & l & Hl & Hs & Hin). apply is_list_head in Hl.
    assert (forall kv, In kv l <-> a_kv (view g) !! k = Some kv) as Hk.
    { intros kv. rewrite Hin. cbn [in_key_range]. split.
      - intros [Ha Heq]. bool_prop. congruence.
      - intros Ha. destruct (ewf_key _ Hg _ _ Ha) as [Hkk _]. by rewrite Hkk, String.eqb_refl. }
    destruct (as_array (index v "kvs")) as [[|x xs]|] eqn:E.
    1, 3: subst l; exists None; split; [done|]; split; [done|]; destruct (a_kv (view g) !! k) as [kv|];
      [destruct (proj2 (Hk kv) eq_refl)|done].
    destruct Hl as (kv & l' & -> & Hkv). assert (a_kv (view g) !! k = Some kv) as Ha by (apply Hk; by left).
    destruct (ewf_key _ Hg _ _ Ha) as [Hkk _]. rewrite <- Hkk in Ha at 1.
    exists (Some kv). unfold mbind, lift. rewrite (kv_from_json_is _ _ Hkv) by by eapply ewf_readable.
    split; [done|]. split; [done|]. by rewrite <- Hkk, Ha.
Qed.

(** A listing, for every prefix. *)
Definition list_exact (a : AStore) (p : string) (r : result (list KeyValue) StoreError) (a' : AStore) : Prop :=
  a' = a /\ match r with
            | Ok l => sorted_by_key l /\
                (forall kv, In kv l <-> a_kv a !! kv_key kv = Some kv /\ starts_with p (kv_key kv) = true)
            | Err _ => True
            end.

Lemma list_atomic p :
  valid_utf8 p = true -> atomic (fun _ => True) (etcd_list p) (fun a => list_exact a p).
Proof.
  intros Hp. unfold etcd_list. destruct (prefix_span p) as [key e] eqn:Epr.
  assert (forall k, k <> ""%string -> in_key_range key (Some e) k = starts_with p k) as Hr.
  { intros k Hk. rewrite <- (prefix_span_exact p k Hp Hk). by rewrite Epr. }
  eapply atomic_weaken; [|eapply atomic_post; [apply range_law, range_body_request|..]].
  - intros a _. cbn. intros ->. unfold prefix_span in Epr. destruct p; by injection Epr.
  - intros g g' Hg Hb. destruct (becomes_ok _ _ Hg Hb). destruct Hb as (-> & _). auto.
  - intros g g' v Hg (Hv & _) (_ & l & Hl & Hs & Hin).
    assert (forall kv, In kv l <-> a_kv (view g) !! kv_key kv = Some kv /\ starts_with p (kv_key kv) = true) as Hin'.
    { intros kv. rewrite Hin. split; intros [Ha Hx]; destruct (ewf_key _ Hg _ _ Ha) as [_ [Hne _]];
        rewrite (Hr _ Hne) in *; done. }
    exists l. split; [|by split]. destruct Hl as [(vs & -> & HF)|[-> ->]]; [|done].
    unfold lift. rewrite (kvs_from_json_is _ _ HF); [done|]. apply List.Forall_forall. intros kv [Ha _]%Hin'.
    by eapply ewf_readable.
Qed.

Lemma put_atomic k v l :
  valid_utf8 k = true -> lease_ok l ->
  atomic (fun a => k <> ""%string /\ lease_known l a /\ a_rev a < i64_max) (etcd_put k v l) (fun a => put_post a k v l).
Proof.
  intros Hk Hl. assert (l <> Some 0) as Hnz by (intros ->; by destruct (Hl 0 eq_refl)).
  assert (forall g g', ok_server g ->
    k <> ""%string /\ lease_known l (view g) /\ becomes (a_write k v l (view g)) g g' ->
    ok_server g' /\ compacted g' = compacted g /\ put_post (view g) k v l (Ok (a_rev (view g'))) (view g')) as Hc.
  { intros g g' Hg (Hne & Hlk & Hv & Hr & Hcp). unfold ok_server. rewrite Hv.
    split; [by apply a_write_ewf|]. split; [done|]. by split. }
  eapply atomic_post; [by apply put_law, Hnz; apply put_body_request, Hl|..].
  - intros g g' Hg Hcm. destruct (Hc g g' Hg Hcm) as (H1' & H2' & H3'). eauto.
  - intros g g' r Hg Hcm Hr. destruct (Hc g g' Hg Hcm) as (Ho & _ & Hx). eexists. split; [|exact Hx].
    by rewrite (as_int_is _ _ (ewf_rev_i64 _ Ho) Hr).
Qed.

Lemma delete_atomic k :
  atomic (fun a => k <> ""%string /\ a_rev a < i64_max) (etcd_delete k) (fun a => delete_post a k).
Proof.
  assert (forall g g', ok_server g ->
    becomes (match a_kv (view g) !! k with Some _ => a_remove k (view g) | None => view g end) g g' ->
    ok_server g' /\ compacted g' = compacted g /\
    delete_post (view g) k (Ok (bool_decide (is_Some (a_kv (view g) !! k)))) (view g')) as Hc.
  { intros g g' Hg (Hv & Hr & Hcp). unfold ok_server, delete_post. rewrite Hv.
    destruct (a_kv (view g) !! k) as [kv|] eqn:E; [|done].
    split; [apply a_remove_ewf; try done; by apply (ewf_key _ Hg _ _ E)|]. done. }
  eapply atomic_post; [apply delete_law, range_body_request|..].
  - intros g g' Hg Hcm. destruct (Hc g g' Hg Hcm) as (H1' & H2' & H3'). eauto.
  - intros g g' r Hg Hcm Hr. destruct (Hc g g' Hg Hcm) as (_ & _ & Hx). eexists. split; [|exact Hx].
    cbn beta in Hr. destruct (a_kv (view g) !! k);
      [by rewrite (as_int_is _ 1 ltac:(done) Hr)|by rewrite (as_int_is _ 0 ltac:(done) Hr)].
Qed.

Lemma revision_atomic : atomic (fun _ => True) etcd_current_revision revision_post.
Proof.
  eapply atomic_weaken; [|eapply atomic_post; [by apply (count_law _ "_sl_rev_probe")|..]].
  - done.
  - intros g g' Hg Hb. destruct (becomes_ok _ _ Hg Hb). destruct Hb as (-> & _). auto.
  - intros g g' r Hg (-> & _) Hr. eexists. split; [done|]. split; [done|].
    by rewrite (as_int_is _ _ (ewf_rev_i64 _ Hg) Hr).
Qed.

(** The comparison of the server is that of the trait, for revisions a key can
    have. *)
Lemma compare_holds_mod e o :
  (forall r, e = Some r -> 0 < r) -> compare_holds e o = bool_decide (kv_mod <$> o = e).
Proof.
  intros He. destruct e as [r|], o as [kv|]; cbn.
  - destruct (Z.eqb_spec (kv_mod kv) r) as [->|]; symmetry; [by apply bool_decide_eq_true|].
    apply bool_decide_eq_false. congruence.
  - specialize (He r eq_refl). destruct (Z.eqb_spec r 0); [lia|]. done.
  - done.
  - done.
Qed.

Lemma cas_atomic k e v l :
  valid_utf8 k = true -> lease_ok l -> (forall r, e = Some r -> 0 < r <= i64_max) ->
  atomic (fun a => k <> ""%string /\ lease_known l a /\ a_rev a < i64_max)
    (etcd_compare_and_swap k e v l) (fun a => cas_post a k e v l).
Proof.
  intros Hk Hl He'. assert (forall r, e = Some r -> 0 < r) as He by (intros r Hr; by apply He').
  assert (l <> Some 0) as Hnz by (intros ->; by destruct (Hl 0 eq_refl)).
  assert (forall g g', ok_server g ->
    (if compare_holds e (a_kv (view g) !! k)
     then k <> ""%string /\ lease_known l (view g) /\ becomes (a_write k v l (view g)) g g'
     else becomes (view g) g g') ->
    ok_server g' /\ compacted g' = compacted g /\
    cas_post (view g) k e v l
      (Ok (mkCas (compare_holds e (a_kv (view g) !! k)) (a_rev (view g'))
             (if compare_holds e (a_kv (view g) !! k) then None else a_kv (view g) !! k))) (view g')) as Hc.
  { intros g g' Hg Hcm. unfold cas_post. cbn [cas_succeeded cas_revision cas_current]. rewrite <- compare_holds_mod by done.
    destruct (compare_holds e (a_kv (view g) !! k)).
    - destruct Hcm as (Hne & Hlk & Hv & Hr & Hcp). unfold ok_server. rewrite Hv.
      split; [by apply a_write_ewf|]. done.
    - destruct (becomes_ok _ _ Hg Hcm). destruct Hcm as (Hv & _). by rewrite Hv. }
  eapply atomic_post; [apply txn_law, Hnz; apply txn_body_request; [done|];
    intros r Hr; apply in_i64_nonneg; specialize (He' r Hr); lia|..].
  - intros g g' Hg Hcm. destruct (Hc g g' Hg Hcm) as (H1' & H2' & H3'). eauto.
  - intros g g' r Hg Hcm (Hr & Hb & Hcur). destruct (Hc g g' Hg Hcm) as (Ho & _ & Hx). eexists. split; [|exact Hx].
    rewrite (as_int_is _ _ (ewf_rev_i64 _ Ho) Hr).
    assert (match as_bool (index r "succeeded") with Some b => b | None => false end
            = compare_holds e (a_kv (view g) !! k)) as -> by (by destruct Hb as [->|[-> ->]]).
    destruct (compare_holds e (a_kv (view g) !! k)) eqn:Ec; [done|].
    destruct (Hcur eq_refl) as (x & xs & Hresp & Hl'). unfold txn_current. rewrite Hresp.
    apply is_list_head in Hl'. destruct (as_array (index (index x "response_range") "kvs")) as [[|y ys]|].
    + by destruct (a_kv (view g) !! k).
    + destruct Hl' as (kv & l' & Heq & Hkv). destruct (a_kv (view g) !! k) as [kv'|] eqn:Ek; [|done].
      injection Heq as -> <-. destruct (ewf_key _ Hg _ _ Ek) as [Hkk _]. rewrite <- Hkk in Ek at 1.
      unfold mbind, lift. rewrite (kv_from_json_is _ _ Hkv (ewf_readable _ _ Hg Ek)). done.
    + by destruct (a_kv (view g) !! k).
Qed.
End Contract.
