(* ===== verification/EtcdHistory.v ===== *)
(** * Leases and histories on etcd

    The lease methods of the etcd client and the replay of the history of a
    prefix from a stream of frames: what the client has after the stream fell
    silent is the history up to the revision it asked for. *)

From Stdlib Require Import ZArith Lia Bool List String Ascii Sorting.Sorted.
From stdpp Require Import base tactics list gmap strings sorting.
From S2P Require Import Prelude RustStr Utf8 Store Text Etcd EtcdSpec.

Open Scope Z_scope.

(** ** Frames *)

Definition in_window (since target : Z) (e : Event) : bool :=
  negb ((ev_rev e <=? since) || (target <? ev_rev e)).

(** An event whose revision the client reads, and whose key it reads when the
    revision is in the window. *)
Definition legible (target : Z) (e : Event) : Prop :=
  in_i64 (ev_rev e) /\ (ev_rev e <= target -> valid_utf8 (ev_key e) = true).

Section Frames.
Context `{GatewayJson} `{Base64Laws}.
Variables since target : Z.

Lemma event_read v e : is_event v e -> ev_rev e <= target -> legible target e ->
  as_int (index (index v "kv") "mod_revision") = ev_rev e /\ event_kind v = ev_kind e /\
  exists b, unb64 (index (index v "kv") "key") = Ok b /\ from_utf8_lossy b = ev_key e /\
    (if decide (event_kind v = Delete) then Ok ""%string else unb64 (index (index v "kv") "value"))
      = Ok (ev_value e).
Proof.
  intros (Hk & Hr & Hkind) Ht (Hi & Hu). split; [by apply as_int_is|].
  assert (event_kind v = ev_kind e) as Hek.
  { unfold event_kind. destruct (ev_kind e); [destruct Hkind as [[->| ->] _]|destruct Hkind as [-> _]]; done. }
  split; [done|]. exists (ev_key e). split; [by apply unb64_is|]. split; [by apply from_utf8_lossy_valid, Hu|].
  rewrite Hek. destruct (ev_kind e).
  - rewrite decide_False by done. by apply unb64_is, Hkind.
  - rewrite decide_True by done. by destruct Hkind as [_ ->].
Qed.

Lemma history_events_is vs es out cu :
  Forall2 is_event vs es -> Forall (legible target) es ->
  history_events since target vs out cu =
    Ok (out ++ List.filter (in_window since target) es,
        cu || existsb (fun e => target <=? ev_rev e) (List.filter (in_window since target) es)).
Proof.
  intros HF. revert out cu. induction HF as [|v e vs es Hv HF IH]; intros out cu HL.
  - cbn. by rewrite app_nil_r, orb_false_r.
  - inversion HL as [|? ? He HL']; subst. cbn [history_events List.filter].
    rewrite (as_int_is _ _ (proj1 He) (proj1 (proj2 Hv))). assert (in_window since target e = negb ((ev_rev e <=? since) || (target <? ev_rev e))) as -> by done.
    destruct ((ev_rev e <=? since) || (target <? ev_rev e)) eqn:Ew; cbn [negb]; [by apply IH|].
    apply orb_false_iff in Ew as [_ Ht]. apply Z.ltb_ge in Ht.
    destruct (event_read v e Hv Ht He) as (_ & Hek & b & -> & Hb & Hval). cbn [rbind]. rewrite Hval. cbn [rbind].
    rewrite IH by done. rewrite Hek, Hb. cbn [existsb]. rewrite <- app_assoc, orb_assoc. by destruct e.
Qed.

Lemma filter_none {A} (f : A -> bool) l : (forall x, In x l -> f x = false) -> List.filter f l = [].
Proof.
  induction l as [|x l IH]; intros Hf; [done|]. cbn. rewrite Hf by by left. apply IH. intros y Hy. apply Hf. by right.
Qed.

(** The loop returns the events of the window, or the error that broke the
    stream. *)
Lemma history_loop_is ls evs out :
  carries ls evs -> Forall (legible target) evs ->
  history_loop since target ls out = Ok (out ++ List.filter (in_window since target) evs) \/
  ((exists e, history_loop since target ls out = Err (Backend e)) /\ ~ unbroken ls).
Proof.
  intros Hc. revert out. induction Hc as [|e ls|e ls|s e ls evs Hp Hc IH|s v es ls evs Hp Hl Hlt Hc IH]; intros out HL.
  - left. cbn. by rewrite app_nil_r.
  - left. cbn. by rewrite app_nil_r.
  - right. cbn. split; [eauto|]. intros Hu. apply (Hu e). by left.
  - cbn [history_loop]. rewrite Hp. destruct (IH out HL) as [->|[Hx Hu]]; [by left|right]. split; [done|].
    intros Hub. apply Hu. intros e' Hin. apply (Hub e'). by right.
  - apply List.Forall_app in HL as [HL1 HL2]. cbn [history_loop]. rewrite Hp, List.filter_app, app_assoc.
    assert (forall o, (exists e, history_loop since target ls o = Err (Backend e)) /\ ~ unbroken ls ->
      (exists e, history_loop since target ls o = Err (Backend e)) /\ ~ unbroken (Line s :: ls)) as Hrest.
    { intros o [Hx Hu]. split; [done|]. intros Hub. apply Hu. intros e' Hin. apply (Hub e'). by right. }
    destruct Hl as [(vs & -> & HF)|[-> ->]].
    2: { cbn [List.filter]. rewrite app_nil_r. destruct (IH out HL2) as [->|Hx]; [by left|right; by apply Hrest]. }
    rewrite (history_events_is _ _ _ _ HF HL1). cbn [rbind orb].
    destruct (existsb _ _) eqn:Ecu.
    + left. apply existsb_exists in Ecu as (x & [Hx _]%filter_In & Hge%Z.leb_le).
      rewrite (filter_none _ evs); [by rewrite app_nil_r|]. intros y Hy. specialize (Hlt x y Hx Hy).
      unfold in_window. rewrite (proj2 (Z.ltb_lt target (ev_rev y))) by lia. by rewrite orb_true_r.
    + destruct (IH (out ++ List.filter (in_window since target) es) HL2) as [->|Hx]; [by left|right; by apply Hrest].
Qed.
End Frames.

(** ** Sorting *)

Lemma sort_events_sorted l : StronglySorted Z.le (map ev_rev l) -> sort_events l = l.
Proof.
  induction l as [|e l IH]; [done|]. cbn [map]. intros Hs. apply StronglySorted_inv in Hs as [Hs Hx].
  unfold sort_events in *. cbn [List.fold_right]. rewrite IH by done. destruct l as [|x l]; [done|]. cbn [insert_event].
  inversion Hx; subst. by rewrite (proj2 (Z.leb_le _ _)).
Qed.

Lemma sorted_filter_rev f l :
  StronglySorted Z.le (map ev_rev l) -> StronglySorted Z.le (map ev_rev (List.filter f l)).
Proof.
  induction l as [|e l IH]; [done|]. cbn [map List.filter]. intros Hs. apply StronglySorted_inv in Hs as [Hs Hx].
  destruct (f e); [|auto]. cbn [map]. constructor; [auto|]. rewrite List.Forall_forall in *. intros z Hz.
  apply Hx. apply in_map_iff in Hz as (y & <- & [Hy _]%filter_In). by apply in_map.
Qed.

Lemma sorted_prefix l1 l2 : StronglySorted Z.le (map ev_rev (l1 ++ l2)) -> StronglySorted Z.le (map ev_rev l1).
Proof.
  induction l1 as [|e l1 IH]; [constructor|]. cbn. intros Hs. apply StronglySorted_inv in Hs as [Hs Hx].
  constructor; [auto|]. rewrite map_app in Hx. by apply List.Forall_app in Hx as [? _].
Qed.

Lemma filter_filter {A} (f g : A -> bool) l : List.filter f (List.filter g l) = List.filter (fun x => g x && f x) l.
Proof.
  induction l as [|x l IH]; [done|]. cbn. destruct (g x); cbn; [|done]. by rewrite IH.
Qed.

(** ** Methods *)

Section Methods.
Context {G : Type} `{EtcdLaws G} `{!Base64Laws}.

(** A lease that did not exist, with at least the time to live that was asked
    for; the rest of the store is as it was. *)
Definition grant_effect (ttl : Z) (a : AStore) (r : result Z StoreError) (a' : AStore) : Prop :=
  match r with
  | Ok id => 0 < id /\ a_leases a !! id = None /\
             exists l, ttl <= l_ttl l /\ a' = a_with_leases (<[id := l]> (a_leases a)) a
  | Err _ => False
  end.

Lemma grant_atomic ttl : in_i64 ttl -> 
  atomic (fun a => 0 < ttl /\ forall id, is_Some (a_leases a !! id) -> id < i64_max)
    (etcd_lease_grant ttl) (grant_effect ttl).
Proof.
  intros Httl. eapply atomic_post; [by apply (grant_law _ ttl)|..].
  - intros g g' Hg (id & l & Hid & Hf & Ht & Hv & _ & Hc). unfold ok_server. rewrite Hv.
    split; [by apply grant_ewf|]. split; [done|]. right. exists id. repeat split; [lia|done|by exists l].
  - intros g g' r Hg _ (id & l & Hid & Hf & Ht & (Hv & _) & Hr).
    exists id. cbv zeta. rewrite (as_int_is _ id) by (done || apply in_i64_nonneg; lia).
    rewrite (proj2 (Z.eqb_neq id 0)) by lia. split; [done|]. rewrite Hv. repeat split; [lia|done|by exists l].
Qed.

(** The keys attached to a lease, in some order. *)
Definition attached (id : Z) (a : AStore) (ks : list string) : Prop :=
  NoDup ks /\ forall k, In k ks <-> exists kv, a_kv a !! k = Some kv /\ kv_lease kv = Some id.

Lemma timetolive_atomic id : in_i64 id ->
  atomic (fun _ => True)
    (let? r := post "/v3/lease/timetolive" (DObj [("ID"%string, DStr (dec id)); ("keys"%string, DBool true)]) in
     mret (match as_array (index r "keys") with Some a => attached_keys a | None => [] end))
    (fun a r a' => a' = a /\ match r with Ok ks => attached id a ks | Err _ => False end).
Proof.
  intros Hid. eapply atomic_post; [by apply (timetolive_law _ id)|..].
  - intros g g' Hg Hb. destruct (becomes_ok _ _ Hg Hb). destruct Hb as (-> & _). auto.
  - intros g g' r Hg (Hv & _) (ks & Hks & Hnd & Hin). exists ks. split; [|by split].
    destruct Hks as [(vs & -> & HF)|[-> ->]]; [|done]. rewrite (attached_keys_is _ _ HF); [done|].
    apply List.Forall_forall. intros k (kv & Hk & _)%Hin. apply (ewf_key _ Hg _ _ Hk).
Qed.

Lemma revoke_atomic id : in_i64 id ->
  atomic (fun a => is_Some (a_leases a !! id) /\ a_rev a < i64_max)
    (let? _ := post "/v3/lease/revoke" (DObj [("ID"%string, DStr (dec id))]) in mret tt)
    (fun a _ a' => revoked id a a').
Proof.
  intros Hid. eapply atomic_post; [by apply (revoke_law _ id)|..].
  - intros g g' Hg (_ & a' & Hr & Hv & Hm & Hc). unfold ok_server. rewrite Hv.
    split; [by eapply revoked_ewf|]. split; [done|]. right. by exists tt.
  - intros g g' r Hg (_ & a' & Hr & Hv & _) _. exists tt. by rewrite Hv.
Qed.

Definition revoke_effect (id : Z) (a : AStore) (r : result (list string) StoreError) (a' : AStore) : Prop :=
  revoked id a a' /\ match r with Ok ks => attached id a ks | Err _ => False end.

Lemma lease_revoke_atomic id : in_i64 id ->
  atomic (fun a => is_Some (a_leases a !! id) /\ a_rev a < i64_max) (etcd_lease_revoke id) (revoke_effect id).
Proof.
  intros Hid g Hg. pose proof (timetolive_atomic id Hid g Hg) as H1'. unfold etcd_lease_revoke. unfold mbind at 1 in H1'.
  unfold mbind at 1. destruct (post "/v3/lease/timetolive" _ g) as [[v|e] g1].
  2: { destruct H1' as (Ho & Hc & Hh & Hp). destruct e as [e|i]; [|done].
       split; [done|]. split; [done|]. split.
       - intros Hhg. destruct (Hh Hhg) as [? Hx]. split; [done|]. intros _. destruct (Hx I) as [? [=]].
       - left. destruct Hp as [?|[x [? _]]]; done. }
  cbn [mret] in H1'. destruct H1' as (Ho & Hc & Hh & Hv & Hat). rewrite <- Hv, <- Hc in *.
  pose proof (revoke_atomic id Hid g1 Ho) as H2'. unfold mbind in H2' |- *.
  destruct (post "/v3/lease/revoke" _ g1) as [[w|e] g2]; cbn [mret] in H2' |- *;
    destruct H2' as (Ho2 & Hc2 & Hh2 & Hp2); (split; [done|]); (split; [done|]).
  - split; [|by split]. intros Hhg. split; [by apply Hh2, Hh|]. eauto.
  - split; [intros Hhg; split; [by apply Hh2, Hh|]|].
    + intros Ha. destruct (Hh2 (proj1 (Hh Hhg))) as [_ Hx]. destruct (Hx Ha) as [? [=]].
    + destruct e as [e|i]; [|done]. destruct Hp2 as [->|[_ Hr]]; [by left|right]. by eexists.
Qed.

(** ** The history of a prefix *)

Definition history (since : Z) (p : string) (a : AStore) : list Event :=
  List.filter (fun e => (since <? ev_rev e) && starts_with p (ev_key e)) (a_events a).

Lemma watch_body_request key e start : in_i64 start -> watch_request (watch_body key e (Some start)) key e start.
Proof. intros Hs. eexists. split; [done|]. done. Qed.

(** The events a watch replays, cut at the revision the client asked for. *)
Lemma window_history g since key e p later :
  ok_server g ->
  (forall k, k <> ""%string -> in_key_range key (Some e) k = starts_with p k) ->
  Forall (fun v => a_rev (view g) < ev_rev v <= i64_max) later ->
  List.filter (in_window since (a_rev (view g)))
    (List.filter (fun v => (since + 1 <=? ev_rev v) && in_key_range key (Some e) (ev_key v)) (a_events (view g)) ++ later)
  = history since p (view g).
Proof.
  intros Hg Hr Hlat. rewrite List.filter_app, filter_filter.
  rewrite (filter_none _ later), app_nil_r.
  - apply filter_ext_in. intros x Hx. pose proof (ewf_events _ Hg) as HF. rewrite List.Forall_forall in HF.
    destruct (HF x Hx) as [Hrev [Hne _]]. rewrite (Hr _ Hne). unfold in_window.
    rewrite (proj2 (Z.ltb_ge (a_rev (view g)) (ev_rev x))) by lia. rewrite orb_false_r.
    destruct (Z.leb_spec (since + 1) (ev_rev x)), (Z.leb_spec (ev_rev x) since), (Z.ltb_spec since (ev_rev x));
      cbn; try lia; by rewrite ?andb_true_r.
  - intros x Hx. rewrite List.Forall_forall in Hlat. specialize (Hlat x Hx). unfold in_window.
    rewrite (proj2 (Z.ltb_lt _ (ev_rev x))) by lia. by rewrite orb_true_r.
Qed.

Lemma replay_legible g f later :
  ok_server g -> Forall (fun v => a_rev (view g) < ev_rev v <= i64_max) later ->
  Forall (legible (a_rev (view g))) (List.filter f (a_events (view g)) ++ later).
Proof.
  intros Hg Hlat. pose proof (ewf_rev _ Hg). apply List.Forall_app. split.
  - apply List.Forall_forall. intros x [Hx _]%filter_In. pose proof (ewf_events _ Hg) as HF.
    rewrite List.Forall_forall in HF. destruct (HF x Hx) as [Hrev [_ Hu]].
    split; [apply in_i64_nonneg; lia|done].
  - eapply List.Forall_impl; [|exact Hlat]. cbn. intros x Hx. split; [apply in_i64_nonneg; lia|lia].
Qed.

Lemma history_sorted since p g : ok_server g -> StronglySorted Z.le (map ev_rev (history since p (view g))).
Proof. intros Hg. apply sorted_filter_rev, Hg. Qed.

(** A history that has nothing. *)
Lemma history_none since p g : ok_server g -> a_rev (view g) <= since -> history since p (view g) = [].
Proof.
  intros Hg Hs. apply filter_none. intros x Hx. pose proof (ewf_events _ Hg) as HF. rewrite List.Forall_forall in HF.
  destruct (HF x Hx) as [Hrev _]. by rewrite (proj2 (Z.ltb_ge since (ev_rev x))) by lia.
Qed.

(** What [changes_since] may return: the history, or the start of it when the
    server was not healthy. *)
Definition replayed (since : Z) (p : string) (g : G) (r : result (list Event) StoreError) : Prop :=
  match r with
  | Ok l => exists rest, history since p (view g) = l ++ rest /\ (healthy_server g -> rest = [])
  | Err (Backend _) => ~ healthy_server g
  | Err (NoSuchLease _) => False
  end.

Lemma replay_result since key e p g x seen rest later :
  ok_server g ->
  (forall k, k <> ""%string -> in_key_range key (Some e) k = starts_with p k) ->
  List.filter (fun v => (since + 1 <=? ev_rev v) && in_key_range key (Some e) (ev_key v)) (a_events (view g)) ++ later
    = seen ++ rest ->
  Forall (fun v => a_rev (view g) < ev_rev v <= i64_max) later ->
  carries x seen -> (healthy_server g -> rest = [] /\ unbroken x) ->
  replayed since p g (match history_loop since (a_rev (view g)) x [] with
                      | Ok out => Ok (sort_events out)
                      | Err err => Err err
                      end).
Proof.
  intros Hg Hr Heq Hlat Hc Hh.
  pose proof (window_history g since key e p later Hg Hr Hlat) as Hw. rewrite Heq, List.filter_app in Hw.
  pose proof (replay_legible g (fun v => (since + 1 <=? ev_rev v) && in_key_range key (Some e) (ev_key v)) later Hg Hlat) as HL. rewrite Heq in HL. apply List.Forall_app in HL as [HL _].
  destruct (history_loop_is since (a_rev (view g)) x seen [] Hc HL) as [->|[[err ->] Hu]].
  - cbn [app]. pose proof (history_sorted since p g Hg) as Hs. rewrite <- Hw in Hs.
    rewrite sort_events_sorted by by eapply sorted_prefix. cbn [replayed]. rewrite <- Hw.
    eexists. split; [done|]. intros [-> _]%Hh. done.
  - intros Hhg. destruct (Hh Hhg) as [_ Hub]. by apply Hu.
Qed.

Lemma changes_since_replays since p g :
  valid_utf8 p = true -> in_i64 since -> ok_server g -> compacted g <= since ->
  let '(r, g') := etcd_changes_since since p g in
  view g' = view g /\ compacted g' = compacted g /\ (healthy_server g -> healthy_server g') /\ replayed since p g r.
Proof.
  intros Hp Hsi Hg Hcp. pose proof (revision_atomic g Hg) as H1'. unfold etcd_changes_since. unfold mbind at 1.
  destruct (etcd_current_revision g) as [[target|e] g1]; destruct H1' as (Ho & Hc & Hh & Hx).
  2: { destruct e as [e|i]; [|done]. split; [by destruct Hx as [?|[z [? _]]]|]. split; [done|].
       split; [intros Hhg; by destruct (Hh Hhg)|]. intros Hhg. destruct (Hh Hhg) as [_ Ha]. destruct (Ha I) as [? [=]]. }
  destruct Hx as [Hv ->]. destruct (Z.leb_spec (a_rev (view g)) since) as [Hle|Hlt].
  - split; [done|]. split; [done|]. split; [intros Hhg; by destruct (Hh Hhg)|]. exists []. by rewrite history_none.
  - destruct (prefix_span p) as [key e] eqn:Epr.
    assert (forall k, k <> ""%string -> in_key_range key (Some e) k = starts_with p k) as Hr.
    { intros k Hk. rewrite <- (prefix_span_exact p k Hp Hk). by rewrite Epr. }
    pose proof (ewf_rev _ Hg) as Hrev.
    assert (in_i64 (since + 1)) as Hs1 by (unfold in_i64, i64_min, i64_max in *; lia).
    rewrite i64_add_id by done.
    pose proof (watch_law (watch_body key e (Some (since + 1))) key e (since + 1) g1 (watch_body_request _ _ _ Hs1)
                  ltac:(rewrite Hc; lia) ltac:(rewrite Hv; lia) ltac:(rewrite Hv; apply Hg)) as Hw.
    unfold mbind. destruct (open_stream (Some 1500) "/v3/watch" _ g1) as [x g2].
    destruct Hw as (Hb & Hh2 & seen & rest & later & Heq & Hlat & Hca & Hhx). rewrite Hv in *.
    destruct Hb as (Hv2 & _ & Hc2). unfold lift, mret.
    destruct x as [ls|err].
    + pose proof (replay_result since key e p g ls seen rest later Hg Hr Heq Hlat Hca) as Hres.
      destruct (history_loop since (a_rev (view g)) ls []);
        (split; [congruence|]); (split; [congruence|]); (split; [by intros [Hg1 _]%Hh; auto|]); apply Hres;
        (intros [Hg1 _]%Hh; destruct (Hhx Hg1) as [-> (ls' & [= <-] & Hub)]; done).
    + split; [congruence|]. split; [congruence|]. split; [by intros [Hg1 _]%Hh; auto|].
      intros [Hg1 _]%Hh. destruct (Hhx Hg1) as [_ (ls' & [=] & _)].
Qed.

(** What a keep-alive does: on any server it renews the lease or changes nothing;
    a healthy one renews a lease that exists and answers with its new expiry, and
    a lease that does not exist is [NoSuchLease]. *)
Definition keepalive_effect (now id : Z) (g : G) (r : result Z StoreError) (g' : G) : Prop :=
  ok_server g' /\ compacted g' = compacted g /\ (view g' = view g \/ renewed id (view g) (view g')) /\
  (healthy_server g -> healthy_server g' /\
   match a_leases (view g) !! id with
   | Some l => renewed id (view g) (view g') /\ (0 < l_ttl l <= i64_max -> r = Ok (i64_add now (l_ttl l)))
   | None => view g' = view g /\ r = Err (NoSuchLease id)
   end).

Lemma renewed_ewf id a a' : ewf a -> renewed id a a' -> ewf a'.
Proof. intros Ha (l & l' & _ & _ & ->). by apply grant_ewf. Qed.

Lemma keepalive_works now id g :
  in_i64 id -> ok_server g ->
  let '(r, g') := etcd_lease_keepalive now id g in keepalive_effect now id g r g'.
Proof.
  intros Hid Hg. unfold etcd_lease_keepalive, post_stream, mbind.
  pose proof (keepalive_law (DObj [("ID"%string, DStr (dec id))]) id g (conj Hid eq_refl) (proj2 (ewf_rev _ Hg))) as Hk.
  destruct (open_stream (Some 10000) _ _ g) as [x g']. destruct Hk as [Hb Hk].
  assert (ok_server g' /\ compacted g' = compacted g /\ (view g' = view g \/ renewed id (view g) (view g'))) as (K1 & K2 & K3).
  { unfold ok_server. destruct Hb as [(Hv & _ & Hc)|[Hr (_ & _ & Hc)]].
    - rewrite Hv. split; [exact Hg|]. split; [done|by left].
    - split; [by eapply renewed_ewf|]. split; [done|by right]. }
  assert (forall r : result Z StoreError, (healthy_server g -> healthy_server g' /\
    match a_leases (view g) !! id with
    | Some l => renewed id (view g) (view g') /\ (0 < l_ttl l <= i64_max -> r = Ok (i64_add now (l_ttl l)))
    | None => view g' = view g /\ r = Err (NoSuchLease id)
    end) -> keepalive_effect now id g r g') as Hfin by (intros r Hh; by split).
  assert (a_leases (view g) !! id = None -> view g' = view g) as Hnone
    by (intros Hn; destruct K3 as [?|(l & l' & Hl & _)]; [done|congruence]).
  destruct x as [ls|e]; [|apply Hfin; intros Hh; by destruct (Hk Hh) as (_ & line & ls & v & [=] & _)].
  unfold lift. destruct (first_line ls) as [line|e] eqn:Ef.
  2: { apply Hfin. intros Hh. destruct (Hk Hh) as (_ & line & ls' & v & [= ->] & _). discriminate Ef. }
  destruct (from_str (trim line)) as [v|e] eqn:Ev.
  2: { apply Hfin. intros Hh. destruct (Hk Hh) as (_ & line' & ls' & v & [= ->] & Hp & _). injection Ef as <-. congruence. }
  assert (healthy_server g -> healthy_server g' /\
    match a_leases (view g) !! id with
    | Some l => is_int (index (index v "result") "TTL") (l_ttl l) /\ renewed id (view g) (view g')
    | None => is_int (index (index v "result") "TTL") 0
    end) as Hkv.
  { intros Hh. destruct (Hk Hh) as (? & line' & ls' & v' & [= ->] & Hp & Hm). injection Ef as <-.
    split; [done|]. assert (v' = v) as -> by congruence. exact Hm. }
  assert (forall r : result Z StoreError, r = (if as_int (index (index v "result") "TTL") <=? 0 then Err (NoSuchLease id)
            else Ok (i64_add now (as_int (index (index v "result") "TTL")))) -> keepalive_effect now id g r g') as Hend.
  { intros r ->. apply Hfin. intros Hh. destruct (Hkv Hh) as [? Hm]. split; [done|]. destruct (a_leases (view g) !! id) as [l|].
    - destruct Hm as [Hi Hr]. split; [done|]. intros Ht. rewrite (as_int_is _ _ (in_i64_nonneg (l_ttl l) ltac:(lia)) Hi).
      by rewrite (proj2 (Z.leb_gt (l_ttl l) 0)) by lia.
    - split; [by apply Hnone|]. by rewrite (as_int_is _ 0 ltac:(done) Hm). }
  destruct (as_int (index (index v "result") "TTL") <=? 0); by apply Hend.
Qed.
End Methods.
