(* ===== verification/EtcdRef.v ===== *)
(** * A server that obeys the laws of the gateway

    An instance of the interfaces of [Etcd] and of their laws: documents as
    strings of bits, the base64 of the API, and a server that answers from an
    abstract store, or not at all while it is down. *)

From Stdlib Require Import ZArith Lia Bool List String Ascii Sorting.Sorted.
From stdpp Require Import base tactics list gmap strings sorting countable.
From S2P Require Import Prelude RustStr Utf8 Store Sqlite SqliteSpec StoreTheorems Text Base64 HttpText Etcd EtcdSpec EtcdHistory.

Open Scope Z_scope.

(** ** Documents as text *)

Fixpoint doc_tree (d : doc) : gen_tree string :=
  match d with
  | DStr s => GenNode 0 [GenLeaf s]
  | DBool b => GenNode (if b then 1 else 2) []
  | DArr ds => GenNode 3 (map doc_tree ds)
  | DObj fs => GenNode 4 (map (fun f => GenNode 5 [GenLeaf f.1; doc_tree f.2]) fs)
  end.

Fixpoint tree_doc (t : gen_tree string) : option doc :=
  match t with
  | GenNode 0 [GenLeaf s] => Some (DStr s)
  | GenNode 1 [] => Some (DBool true)
  | GenNode 2 [] => Some (DBool false)
  | GenNode 3 ts =>
      let fix docs ts := match ts with
                         | [] => Some []
                         | t :: ts' => match tree_doc t, docs ts' with
                                       | Some d, Some ds => Some (d :: ds)
                                       | _, _ => None
                                       end
                         end in
      option_map DArr (docs ts)
  | GenNode 4 ts =>
      let fix fields ts := match ts with
                           | [] => Some []
                           | GenNode 5 [GenLeaf k; t] :: ts' =>
                               match tree_doc t, fields ts' with
                               | Some d, Some fs => Some ((k, d) :: fs)
                               | _, _ => None
                               end
                           | _ => None
                           end in
      option_map DObj (fields ts)
  | _ => None
  end.

Lemma tree_doc_tree d : tree_doc (doc_tree d) = Some d.
Proof.
  revert d. fix IH 1. intros [s|b|ds|fs]; [done|by destruct b|..]; cbn [doc_tree tree_doc].
  - induction ds as [|d ds IHds]; [done|]. cbn [map]. rewrite IH.
    match type of IHds with option_map _ ?x = _ => destruct x as [ds'|] end; [|done].
    by injection IHds as ->.
  - induction fs as [|[k d] fs IHfs]; [done|]. cbn [map fst snd]. rewrite IH.
    match type of IHfs with option_map _ ?x = _ => destruct x as [fs'|] end; [|done].
    by injection IHfs as ->.
Qed.

Fixpoint pos_bits (p : positive) : string :=
  match p with
  | xH => ""
  | xO p' => String "0" (pos_bits p')
  | xI p' => String "1" (pos_bits p')
  end.

Fixpoint bits_pos (s : string) : positive :=
  match s with
  | EmptyString => xH
  | String c s' => if Ascii.eqb c "0" then xO (bits_pos s') else xI (bits_pos s')
  end.

Lemma bits_pos_bits p : bits_pos (pos_bits p) = p.
Proof. induction p as [p IH|p IH|]; cbn; by rewrite ?IH. Qed.

Lemma pos_bits_visible p : visible (pos_bits p) = true.
Proof. induction p as [p IH|p IH|]; cbn; done. Qed.

Definition doc_text (d : doc) : string := pos_bits (countable.encode (doc_tree d)).
Definition text_doc (s : string) : option doc :=
  match countable.decode (A := gen_tree string) (bits_pos s) with Some t => tree_doc t | None => None end.

Lemma text_doc_text d : text_doc (doc_text d) = Some d.
Proof. unfold text_doc, doc_text. rewrite bits_pos_bits, countable.decode_encode. apply tree_doc_tree. Qed.

Module RefEtcd.

#[export] Instance ref_json : GatewayJson := {|
  Value := option doc;
  to_string := doc_text;
  from_str := fun s => match text_doc s with Some d => Ok (Some d) | None => Err "not a document"%string end;
  index := fun v k => match v with Some d => dget d k | None => None end;
  as_str := fun v => match v with Some (DStr s) => Some s | _ => None end;
  vas_int := fun _ => None;
  as_array := fun v => match v with Some (DArr ds) => Some (map Some ds) | _ => None end;
  as_bool := fun v => match v with Some (DBool b) => Some b | _ => None end;
  value_text := fun v => match v with Some d => doc_text d | None => "null"%string end
|}.

#[export] Instance ref_base64 : Base64Crate := {| encode := b64_encode; decode := b64_decode |}.

#[export] Instance ref_base64_laws : Base64Laws.
Proof. split; [exact decode_encode_clean|done]. Qed.

(** ** The server *)

Record Ref : Type := mkRef { r_view : AStore; r_compacted : Z; r_up : bool }.

#[export] Instance ref_view : EtcdView Ref := {|
  view := r_view; healthy_server := fun g => r_up g = true; compacted := r_compacted |}.

Definition with_view (g : Ref) (a : AStore) : Ref := mkRef a (r_compacted g) (r_up g).

Definition gbytes (d : doc) (f : string) : option string :=
  match dget d f with
  | Some (DStr s) => match b64_decode s with Ok b => Some b | Err _ => None end
  | _ => None
  end.
Definition gint (d : doc) (f : string) : option Z :=
  match dget d f with Some (DStr s) => parse_i64 s | _ => None end.

Definition header (a : AStore) : string * doc := ("header"%string, DObj [("revision"%string, DStr (dec (a_rev a)))]).

Definition kv_doc (kv : KeyValue) : doc :=
  DObj [("key", DStr (b64_encode (kv_key kv))); ("value", DStr (b64_encode (kv_value kv)));
        ("create_revision", DStr (dec (kv_create kv))); ("mod_revision", DStr (dec (kv_mod kv)));
        ("lease", DStr (dec (match kv_lease kv with Some id => id | None => 0 end)))]%string.

Definition event_doc (e : Event) : doc :=
  DObj [("type", DStr (match ev_kind e with Delete => "DELETE" | Put => "PUT" end));
        ("kv", DObj [("key", DStr (b64_encode (ev_key e))); ("value", DStr (b64_encode (ev_value e)));
                     ("mod_revision", DStr (dec (ev_rev e)))])]%string.

Definition in_order (key : string) (e : option string) (a : AStore) : list KeyValue :=
  merge_sort kv_le
    (map snd (map_to_list (filter (fun p => p.1 = kv_key p.2 /\ in_key_range key e p.1 = true) (a_kv a)))).

Definition known (l : option Z) (a : AStore) : bool :=
  match l with Some id => bool_decide (is_Some (a_leases a !! id)) | None => true end.

(** A write of a key, refused when the key is empty, the lease unknown or the
    revisions exhausted. *)
Definition written (k v : string) (l : option Z) (a : AStore) : option AStore :=
  if String.eqb k "" || negb (known l a) || (i64_max <=? a_rev a) then None else Some (a_write k v l a).

Definition serve_range (d : doc) (g : Ref) : option (doc * Ref) :=
  match gbytes d "key" with
  | Some key =>
      if String.eqb key "" then None
      else match dget d "count_only" with
           | Some _ => Some (DObj [header (r_view g)], g)
           | None => Some (DObj [header (r_view g);
                                 ("kvs"%string, DArr (map kv_doc (in_order key (gbytes d "range_end") (r_view g))))], g)
           end
  | None => None
  end.

Definition serve_put (d : doc) (g : Ref) : option (doc * Ref) :=
  match gbytes d "key", gbytes d "value" with
  | Some k, Some v =>
      match written k v (gint d "lease") (r_view g) with
      | Some a' => Some (DObj [header a'], with_view g a')
      | None => None
      end
  | _, _ => None
  end.

Definition serve_delete (d : doc) (g : Ref) : option (doc * Ref) :=
  match gbytes d "key" with
  | Some k =>
      if String.eqb k "" || (i64_max <=? a_rev (r_view g)) then None
      else match a_kv (r_view g) !! k with
           | Some _ => Some (DObj [("deleted"%string, DStr "1")], with_view g (a_remove k (r_view g)))
           | None => Some (DObj [], g)
           end
  | None => None
  end.

Definition serve_txn (d : doc) (g : Ref) : option (doc * Ref) :=
  match dget d "compare", dget d "success" with
  | Some (DArr [c]), Some (DArr [s]) =>
      match dget s "request_put" with
      | Some p =>
          match gbytes p "key", gbytes p "value" with
          | Some k, Some v =>
              let e := match dget c "target" with
                       | Some (DStr t) => if String.eqb t "MOD" then gint c "mod_revision" else None
                       | _ => None
                       end in
              if compare_holds e (a_kv (r_view g) !! k) then
                match written k v (gint p "lease") (r_view g) with
                | Some a' => Some (DObj [header a'; ("succeeded"%string, DBool true)], with_view g a')
                | None => None
                end
              else
                let kvs := match a_kv (r_view g) !! k with Some kv => [kv_doc kv] | None => [] end in
                Some (DObj [header (r_view g);
                            ("responses"%string, DArr [DObj [("response_range"%string, DObj [("kvs"%string, DArr kvs)])]])], g)
          | _, _ => None
          end
      | None => None
      end
  | _, _ => None
  end.

(** An unused lease id, above every other one. *)
Definition next_lease (a : AStore) : Z := 1 + List.fold_right Z.max 0 (map fst (map_to_list (a_leases a))).

Definition serve_grant (d : doc) (g : Ref) : option (doc * Ref) :=
  match gint d "TTL" with
  | Some ttl =>
      let id := next_lease (r_view g) in
      if (ttl <=? 0) || (i64_max <? id) then None
      else Some (DObj [("ID"%string, DStr (dec id)); ("TTL"%string, DStr (dec ttl))],
                 with_view g (a_with_leases (<[id := mkLease ttl ttl]> (a_leases (r_view g))) (r_view g)))
  | None => None
  end.

Definition keys_of (id : Z) (a : AStore) : list string :=
  map fst (map_to_list (filter (fun p => kv_lease p.2 = Some id) (a_kv a))).

Definition serve_timetolive (d : doc) (g : Ref) : option (doc * Ref) :=
  match gint d "ID" with
  | Some id => Some (DObj [("keys"%string, DArr (map (fun k => DStr (b64_encode k)) (keys_of id (r_view g))))], g)
  | None => None
  end.

Definition without_lease (id : Z) (a : AStore) : AStore :=
  let ks := keys_of id a in
  let rev := match ks with [] => a_rev a | _ => a_rev a + 1 end in
  mkA rev (filter (fun p => kv_lease p.2 <> Some id) (a_kv a)) (delete id (a_leases a))
      (a_events a ++ map (fun k => mkEvent Delete k "" rev) ks).

Definition serve_revoke (d : doc) (g : Ref) : option (doc * Ref) :=
  match gint d "ID" with
  | Some id =>
      if bool_decide (is_Some (a_leases (r_view g) !! id)) && (a_rev (r_view g) <? i64_max)
      then Some (DObj [], with_view g (without_lease id (r_view g)))
      else None
  | None => None
  end.

Definition serve_compact (d : doc) (g : Ref) : option (doc * Ref) :=
  match gint d "revision" with
  | Some r => Some (DObj [], mkRef (r_view g) r (r_up g))
  | None => None
  end.

Definition handlers : list (string * (doc -> Ref -> option (doc * Ref))) :=
  [("/v3/kv/range", serve_range); ("/v3/kv/put", serve_put); ("/v3/kv/deleterange", serve_delete);
   ("/v3/kv/txn", serve_txn); ("/v3/lease/grant", serve_grant); ("/v3/lease/timetolive", serve_timetolive);
   ("/v3/lease/revoke", serve_revoke); ("/v3/kv/compaction", serve_compact)]%string.

Definition handle (path : string) (d : doc) (g : Ref) : option (doc * Ref) :=
  match List.find (fun h => String.eqb h.1 path) handlers with
  | Some (_, h) => h d g
  | None => None
  end.

Definition serve (path text : string) (g : Ref) : Exchange * Ref :=
  if r_up g then
    match text_doc text with
    | Some d => match handle path d g with
                | Some (r, g') => (Reply (Ok (doc_text r)), g')
                | None => (Status 400 (Ok ""%string), g)
                end
    | None => (Status 400 (Ok ""%string), g)
    end
  else (Transport "connection refused", g).

(** A watch: the history in one frame, then silence; nothing from a compacted
    revision. *)
Definition serve_watch (d : doc) (g : Ref) : list LineRead :=
  match dget d "create_request" with
  | Some c =>
      match gbytes c "key", gbytes c "range_end", gint c "start_revision" with
      | Some key, Some e, Some start =>
          if start <? r_compacted g then []
          else
            [Line (doc_text (DObj [("result"%string,
               DObj [("events"%string, DArr (map event_doc (List.filter
                 (fun v => (start <=? ev_rev v) && in_key_range key (Some e) (ev_key v)) (a_events (r_view g)))))])]));
             TimedOut "timed out"]
      | _, _, _ => []
      end
  | None => []
  end.

Definition serve_keepalive (d : doc) (g : Ref) : list LineRead :=
  match gint d "ID" with
  | Some id =>
      let ttl := match a_leases (r_view g) !! id with Some l => l_ttl l | None => 0 end in
      [Line (doc_text (DObj [("result"%string, DObj [("TTL"%string, DStr (dec ttl))])]))]
  | None => []
  end.

Definition serve_stream (path text : string) (g : Ref) : result (list LineRead) string * Ref :=
  (if r_up g then
     match text_doc text with
     | Some d => if String.eqb path "/v3/watch" then Ok (serve_watch d g) else Ok (serve_keepalive d g)
     | None => Err "bad request"%string
     end
   else Err "connection refused"%string, g).

#[export] Instance ref_world : EtcdWorld Ref := {|
  exchange := serve; open_stream := fun _ => serve_stream; spawn_watch := fun _ g => (O, g) |}.

(** ** The laws *)

Lemma gbytes_has d f b : has_bytes d f b -> gbytes d f = Some b.
Proof. unfold has_bytes, gbytes. intros ->. cbn. unfold b64_decode. by rewrite decode_encode_clean. Qed.

Lemma gint_has d f n : has_int d f n -> gint d f = Some n.
Proof. unfold has_int, gint. intros [Hn ->]. by apply parse_i64_dec. Qed.

Lemma becomes_same g : a_rev (view g) <= i64_max -> becomes (view g) g g.
Proof. done. Qed.

Lemma serves_ref path d accepts commit answer :
  (forall g, a_rev (view g) <= i64_max ->
     match handle path d g with
     | Some (r, g') => r_up g' = r_up g /\ commit g g' /\ answer g g' (Some r)
     | None => ~ accepts (view g)
     end) ->
  serves path d accepts commit answer.
Proof.
  intros Hh g Hr. specialize (Hh g Hr). cbn [exchange ref_world serve].
  unfold serve. destruct (r_up g) eqn:Eup; cbn [to_string ref_json].
  - rewrite text_doc_text. destruct (handle path d g) as [[r g']|].
    + destruct Hh as (Hu & Hc & Ha). cbn [from_str ref_json]. rewrite text_doc_text.
      split; [|done]. intros _. split; [by cbn; rewrite Hu|]. intros _.
      exists (doc_text r), (Some r). by rewrite text_doc_text.
    + split; [|by left]. intros _. split; [done|]. by intros ?%Hh.
  - split; [|by left]. cbn. by rewrite Eup.
Qed.

Lemma written_spec k v l a :
  a_rev a <= i64_max ->
  match written k v l a with
  | Some a' => a' = a_write k v l a /\ k <> ""%string /\ lease_known l a /\ a_rev a' <= i64_max
  | None => ~ (k <> ""%string /\ lease_known l a /\ a_rev a < i64_max)
  end.
Proof.
  intros Hr. assert (known l a = true <-> lease_known l a) as Hk.
  { unfold known, lease_known. destruct l as [id|]; [|done]. rewrite bool_decide_eq_true. naive_solver. }
  unfold written. destruct (String.eqb_spec k ""); [naive_solver|]. destruct (known l a) eqn:E; cbn [orb negb].
  - destruct (Z.leb_spec i64_max (a_rev a)); [lia|]. split; [done|]. split; [done|]. split; [by apply Hk|].
    cbn. lia.
  - intros (_ & Hl%Hk & _). congruence.
Qed.

Lemma in_order_spec key e a :
  sorted_by_key (in_order key e a) /\
  forall kv, In kv (in_order key e a) <-> a_kv a !! kv_key kv = Some kv /\ in_key_range key e (kv_key kv) = true.
Proof.
  unfold in_order. set (m := filter _ (a_kv a)).
  pose proof (merge_sort_Permutation kv_le (map snd (map_to_list m))) as Hp. split.
  - apply sorted_strict; [apply StronglySorted_merge_sort; apply _|]. rewrite Hp.
    assert (map kv_key (map snd (map_to_list m)) = map fst (map_to_list m)) as ->.
    { rewrite map_map. apply map_ext_in. intros [k kv] Hin. cbn.
      apply list_elem_of_In, elem_of_map_to_list, map_lookup_filter_Some in Hin as [_ [Hk _]]. by cbn in Hk. }
    apply NoDup_fst_map_to_list.
  - intros kv. rewrite <- !list_elem_of_In, Hp, list_elem_of_In, in_map_iff. split.
    + intros ([k kv'] & <- & Hin). cbn.
      apply list_elem_of_In, elem_of_map_to_list, map_lookup_filter_Some in Hin as [Hl [Hk Hr]]. cbn in *. by subst k.
    + intros [Hl Hr]. exists (kv_key kv, kv). split; [done|].
      by apply list_elem_of_In, elem_of_map_to_list, map_lookup_filter_Some.
Qed.

Lemma is_int_dec v n : v = Some (DStr (dec n)) -> is_int v n.
Proof. intros ->. by left. Qed.

Lemma is_kv_doc kv : is_kv (Some (kv_doc kv)) kv.
Proof. repeat split; by left. Qed.

Lemma is_list_docs {A} (R : Value -> A -> Prop) (f : A -> doc) l :
  (forall x, In x l -> R (Some (f x) : @Value ref_json) x) -> is_list R (Some (DArr (map f l)) : @Value ref_json) l.
Proof.
  intros HR. left. exists (map Some (map f l)). split; [done|].
  induction l as [|x l IH]; constructor; [apply HR; by left|]. apply IH. intros y Hy. apply HR. by right.
Qed.

Lemma keys_of_spec id a :
  NoDup (keys_of id a) /\
  forall k, In k (keys_of id a) <-> exists kv, a_kv a !! k = Some kv /\ kv_lease kv = Some id.
Proof.
  split; [apply NoDup_fst_map_to_list|]. intros k. unfold keys_of. rewrite in_map_iff. split.
  - intros ([k' kv] & <- & Hin). apply list_elem_of_In, elem_of_map_to_list, map_lookup_filter_Some in Hin. by exists kv.
  - intros (kv & Hk). exists (k, kv). split; [done|].
    by apply list_elem_of_In, elem_of_map_to_list, map_lookup_filter_Some.
Qed.

Lemma fold_max_le l x : In x l -> x <= List.fold_right Z.max 0 l.
Proof. induction l as [|y l IH]; [done|]. cbn. intros [->|Hx]; [lia|]. specialize (IH Hx). lia. Qed.

Lemma fold_max_bound l b : 0 <= b -> (forall x, In x l -> x <= b) -> 0 <= List.fold_right Z.max 0 l <= b.
Proof.
  intros Hb. induction l as [|y l IH]; intros HF; cbn; [lia|]. pose proof (HF y ltac:(by left)).
  assert (0 <= List.fold_right Z.max 0 l <= b) by (apply IH; intros x Hx; apply HF; by right). lia.
Qed.

Lemma in_leases a id : In id (map fst (map_to_list (a_leases a))) <-> is_Some (a_leases a !! id).
Proof.
  rewrite in_map_iff. split.
  - intros ([i l] & <- & Hin). apply list_elem_of_In, elem_of_map_to_list in Hin. by exists l.
  - intros [l Hl]. exists (id, l). split; [done|]. by apply list_elem_of_In, elem_of_map_to_list.
Qed.

Lemma next_lease_spec a :
  0 < next_lease a /\ a_leases a !! next_lease a = None /\
  ((forall id, is_Some (a_leases a !! id) -> id < i64_max) -> next_lease a <= i64_max).
Proof.
  unfold next_lease. set (l := map fst (map_to_list (a_leases a))).
  assert (0 <= List.fold_right Z.max 0 l) as H0 by (clear; induction l; cbn; lia).
  split; [lia|]. split.
  - destruct (a_leases a !! _) as [x|] eqn:E; [|done]. exfalso.
    assert (In (1 + List.fold_right Z.max 0 l) l) as Hin by (by apply in_leases; exists x).
    apply fold_max_le in Hin. lia.
  - intros Hb. assert (0 <= List.fold_right Z.max 0 l <= i64_max - 1); [|lia].
    apply fold_max_bound; [done|]. intros x Hx%in_leases. specialize (Hb x Hx). lia.
Qed.

Lemma ref_range d key e :
  range_request d key e ->
  serves "/v3/kv/range" d (fun _ => key <> ""%string) (fun g g' => becomes (view g) g g')
    (fun g _ v => revision_is v (a_rev (view g)) /\
       exists l, is_list is_kv (index v "kvs") l /\ sorted_by_key l /\
         forall kv, In kv l <-> a_kv (view g) !! kv_key kv = Some kv /\ in_key_range key e (kv_key kv) = true).
Proof.
  intros (Hk & Hc & He). apply serves_ref. intros g Hr. cbn -[dget]. unfold serve_range.
  rewrite (gbytes_has _ _ _ Hk), Hc.
  assert (gbytes d "range_end" = e) as ->.
  { destruct e as [e|]; [by apply gbytes_has|]. unfold gbytes. by rewrite He. }
  destruct (String.eqb_spec key ""); [naive_solver|]. split; [done|]. split; [done|]. split; [by apply is_int_dec|].
  exists (in_order key e (r_view g)). split; [|apply in_order_spec]. apply (is_list_docs is_kv kv_doc).
  intros kv _. apply is_kv_doc.
Qed.

Lemma ref_count d key :
  count_request d key ->
  serves "/v3/kv/range" d (fun _ => key <> ""%string) (fun g g' => becomes (view g) g g')
    (fun g _ v => revision_is v (a_rev (view g))).
Proof.
  intros (Hk & Hc). apply serves_ref. intros g Hr. cbn -[dget]. unfold serve_range.
  rewrite (gbytes_has _ _ _ Hk), Hc. destruct (String.eqb_spec key ""); [naive_solver|].
  split; [done|]. split; [done|]. by apply is_int_dec.
Qed.

Lemma put_request_reads d k v l :
  put_request d k v l -> gbytes d "key" = Some k /\ gbytes d "value" = Some v /\ gint d "lease" = l.
Proof.
  intros (Hk & Hv & Hl). rewrite (gbytes_has _ _ _ Hk), (gbytes_has _ _ _ Hv). split; [done|]. split; [done|].
  destruct l as [id|]; [by apply gint_has|]. unfold gint. by rewrite Hl.
Qed.

Lemma ref_put d k v l :
  put_request d k v l -> l <> Some 0 ->
  serves "/v3/kv/put" d
    (fun a => k <> ""%string /\ lease_known l a /\ a_rev a < i64_max)
    (fun g g' => k <> ""%string /\ lease_known l (view g) /\ becomes (a_write k v l (view g)) g g')
    (fun _ g' r => revision_is r (a_rev (view g'))).
Proof.
  intros (Hk & Hv & Hl)%put_request_reads _. apply serves_ref. intros g Hr. cbn -[dget]. unfold serve_put.
  rewrite Hk, Hv, Hl. pose proof (written_spec k v l (r_view g) Hr) as Hw.
  destruct (written k v l (r_view g)) as [a'|]; [|done]. destruct Hw as (-> & Hne & Hlk & Hm).
  split; [done|]. split; [done|]. by apply is_int_dec.
Qed.

Lemma ref_delete d k :
  range_request d k None ->
  serves "/v3/kv/deleterange" d (fun a => k <> ""%string /\ a_rev a < i64_max)
    (fun g g' => becomes (match a_kv (view g) !! k with Some _ => a_remove k (view g) | None => view g end) g g')
    (fun g _ r => is_int (index r "deleted") (match a_kv (view g) !! k with Some _ => 1 | None => 0 end)).
Proof.
  intros (Hk & _ & _). apply serves_ref. intros g Hr. cbn -[dget]. unfold serve_delete. rewrite (gbytes_has _ _ _ Hk).
  destruct (String.eqb_spec k ""); [naive_solver|]. cbn [orb].
  destruct (Z.leb_spec i64_max (a_rev (r_view g))); [naive_solver lia|].
  destruct (a_kv (r_view g) !! k); (split; [done|]).
  - split; [unfold becomes; cbn; split; [done|]; split; [lia|done]|]. by left.
  - split; [done|]. by right; right.
Qed.

Lemma compare_request_reads c k e :
  compare_request c k e ->
  match dget c "target" with
  | Some (DStr t) => if String.eqb t "MOD" then gint c "mod_revision" else None
  | _ => None
  end = e.
Proof.
  intros (_ & _ & He). destruct e as [r|]; destruct He as [-> Hr]; [|done]. by apply gint_has.
Qed.

Lemma ref_txn d k e v l :
  txn_request d k e v l -> l <> Some 0 ->
  serves "/v3/kv/txn" d
    (fun a => k <> ""%string /\ lease_known l a /\ a_rev a < i64_max)
    (fun g g' => if compare_holds e (a_kv (view g) !! k)
                 then k <> ""%string /\ lease_known l (view g) /\ becomes (a_write k v l (view g)) g g'
                 else becomes (view g) g g')
    (fun g g' r => revision_is r (a_rev (view g')) /\
       is_bool (index r "succeeded") (compare_holds e (a_kv (view g) !! k)) /\
       (compare_holds e (a_kv (view g) !! k) = false ->
          exists x xs, as_array (index r "responses") = Some (x :: xs) /\
            is_list is_kv (index (index x "response_range") "kvs")
              (match a_kv (view g) !! k with Some kv => [kv] | None => [] end))).
Proof.
  intros (c & s & f & p & q & Hc & Hcr & Hs & Hp & (Hk & Hv & Hl)%put_request_reads & _) _.
  apply serves_ref. intros g Hr. cbn -[dget]. unfold serve_txn.
  rewrite Hc, Hs, Hp, Hk, Hv, Hl, (compare_request_reads _ _ _ Hcr). cbv zeta.
  destruct (compare_holds e (a_kv (r_view g) !! k)) eqn:Ec.
  - pose proof (written_spec k v l (r_view g) Hr) as Hw.
    destruct (written k v l (r_view g)) as [a'|]; [|done]. destruct Hw as (-> & Hne & Hlk & Hm).
    split; [done|].
    split; [done|]. split; [by apply is_int_dec|]. by split; [left|].
  - split; [done|]. split; [done|]. split; [by apply is_int_dec|].
    split; [by right|]. intros _. eexists _, _. split; [reflexivity|]. cbn.
    assert (match a_kv (r_view g) !! k with Some kv => [kv_doc kv] | None => [] end
            = map kv_doc (match a_kv (r_view g) !! k with Some kv => [kv] | None => [] end)) as ->
      by by destruct (a_kv (r_view g) !! k).
    apply (is_list_docs is_kv kv_doc). intros kv _. apply is_kv_doc.
Qed.

Lemma ref_grant d ttl :
  has_int d "TTL" ttl -> has_int d "ID" 0 ->
  serves "/v3/lease/grant" d
    (fun a => 0 < ttl /\ forall id, is_Some (a_leases a !! id) -> id < i64_max)
    (fun g g' => exists id l, 0 < id <= i64_max /\ a_leases (view g) !! id = None /\ ttl <= l_ttl l /\
                 becomes (a_with_leases (<[id := l]> (a_leases (view g))) (view g)) g g')
    (fun g g' r => exists id l, 0 < id <= i64_max /\ a_leases (view g) !! id = None /\ ttl <= l_ttl l /\
                 becomes (a_with_leases (<[id := l]> (a_leases (view g))) (view g)) g g' /\
                 is_int (index r "ID") id).
Proof.
  intros Ht _. apply serves_ref. intros g Hr. cbn -[dget]. unfold serve_grant. rewrite (gint_has _ _ _ Ht). cbv zeta.
  destruct (next_lease_spec (r_view g)) as (Hp & Hn & Hb).
  destruct (Z.leb_spec ttl 0); [naive_solver lia|].
  destruct (Z.ltb_spec i64_max (next_lease (r_view g))); cbn [orb].
  { intros [_ Hids]. specialize (Hb Hids). lia. }
  split; [done|]. split.
  - exists (next_lease (r_view g)), (mkLease ttl ttl). split; [done|]. split; [done|]. split; [cbn; lia|done].
  - exists (next_lease (r_view g)), (mkLease ttl ttl). split; [done|]. split; [done|]. split; [cbn; lia|]. split; [done|]. by apply is_int_dec.
Qed.

Lemma ref_timetolive d id :
  has_int d "ID" id -> dget d "keys" = Some (DBool true) ->
  serves "/v3/lease/timetolive" d (fun _ => True) (fun g g' => becomes (view g) g g')
    (fun g _ r => exists ks, is_list is_bytes (index r "keys") ks /\ NoDup ks /\
       forall k, In k ks <-> exists kv, a_kv (view g) !! k = Some kv /\ kv_lease kv = Some id).
Proof.
  intros Hid _. apply serves_ref. intros g Hr. cbn -[dget]. unfold serve_timetolive. rewrite (gint_has _ _ _ Hid).
  split; [done|]. split; [done|]. exists (keys_of id (r_view g)). split; [|apply keys_of_spec].
  apply (is_list_docs is_bytes (fun k => DStr (b64_encode k))). intros k _. by left.
Qed.

Lemma ref_revoke d id :
  has_int d "ID" id ->
  serves "/v3/lease/revoke" d (fun a => is_Some (a_leases a !! id) /\ a_rev a < i64_max)
    (fun g g' => is_Some (a_leases (view g) !! id) /\
                 exists a', revoked id (view g) a' /\ becomes a' g g')
    (fun _ _ _ => True).
Proof.
  intros Hid. apply serves_ref. intros g Hr. cbn -[dget]. unfold serve_revoke. rewrite (gint_has _ _ _ Hid).
  case_bool_decide as Hl; cbn [andb]; [|naive_solver].
  destruct (Z.ltb_spec (a_rev (r_view g)) i64_max); [|naive_solver lia].
  split; [done|]. split; [|done]. split; [done|]. exists (without_lease id (r_view g)). split.
  - exists (keys_of id (r_view g)). destruct (keys_of_spec id (r_view g)). done.
  - unfold becomes. cbn. split; [done|]. split; [|done]. destruct (keys_of id (r_view g)); lia.
Qed.

Lemma ref_compact d below :
  has_int d "revision" below ->
  serves "/v3/kv/compaction" d (fun _ => False)
    (fun g g' => view g' = view g /\ compacted g' = below) (fun _ _ _ => True).
Proof.
  intros Hb. apply serves_ref. intros g Hr. cbn -[dget]. unfold serve_compact. by rewrite (gint_has _ _ _ Hb).
Qed.

Lemma from_line d : from_str (trim (doc_text d)) = Ok (Some d : @Value ref_json).
Proof. rewrite trim_id by apply pos_bits_visible. cbn. by rewrite text_doc_text. Qed.

Lemma watch_request_reads d key e start :
  watch_request d key e start ->
  exists c, dget d "create_request" = Some c /\ gbytes c "key" = Some key /\ gbytes c "range_end" = Some e /\
            gint c "start_revision" = Some start.
Proof.
  intros (c & Hc & Hk & He & Hs). exists c. split; [done|]. split; [by apply gbytes_has|].
  split; [by apply gbytes_has|by apply gint_has].
Qed.

Lemma is_event_doc e : bare_delete e -> is_event (Some (event_doc e) : @Value ref_json) e.
Proof.
  intros Hb. split; [by left|]. split; [by left|]. unfold bare_delete in Hb. cbn. destruct (ev_kind e).
  - split; by left.
  - auto.
Qed.

#[export] Instance ref_laws : EtcdLaws Ref.
Proof.
  split.
  - exact ref_range.
  - exact ref_count.
  - exact ref_put.
  - exact ref_delete.
  - exact ref_txn.
  - exact ref_grant.
  - exact ref_timetolive.
  - exact ref_revoke.
  - intros d id g Hid Hr. cbn -[dget]. unfold serve_stream. split; [by left|]. intros Hh.
    rewrite Hh, text_doc_text. cbn -[dget trim doc_text].
    unfold serve_keepalive. rewrite (gint_has _ _ _ Hid). split; [done|]. eexists _, _, _. split; [reflexivity|].
    split; [apply from_line|]. destruct (a_leases (r_view g) !! id) as [l|] eqn:E; [|by apply is_int_dec].
    split; [by apply is_int_dec|]. exists l, l. split; [done|]. split; [done|]. rewrite insert_id by done.
    by destruct g as [[] ? ?].
  - exact ref_compact.
  - intros d key e start g (c & Hc & Hk & He & Hs)%watch_request_reads Hcp Hr Hbd. cbn -[dget]. unfold serve_stream.
    set (evs := List.filter _ _). destruct (r_up g) eqn:Eup.
    + rewrite text_doc_text. cbn -[dget trim doc_text]. unfold serve_watch. rewrite Hc, Hk, He, Hs.
      cbn in Hcp. rewrite (proj2 (Z.ltb_ge start (r_compacted g))) by lia. fold evs.
      split; [done|]. split; [done|]. exists evs, [], []. rewrite !app_nil_r. split; [done|]. split; [constructor|].
      split.
      * rewrite <- (app_nil_r evs). eapply carries_frame; [apply from_line| |done|constructor].
        apply (is_list_docs is_event event_doc). intros x [Hx _]%filter_In. apply is_event_doc.
        rewrite List.Forall_forall in Hbd. by apply Hbd.
      * intros _. split; [done|]. eexists. split; [done|]. by intros e' [?|[?|[]]].
    + split; [done|]. split; [done|]. exists [], evs, []. rewrite app_nil_r. by repeat split.
  - intros d key e start g (c & Hc & Hk & He & Hs)%watch_request_reads Hcp Hh. cbn -[dget]. unfold serve_stream.
    cbn in Hh, Hcp. rewrite Hh, text_doc_text. cbn -[dget trim doc_text]. unfold serve_watch. rewrite Hc, Hk, He, Hs.
    rewrite (proj2 (Z.ltb_lt start (r_compacted g))) by lia. exists []. split; [done|]. split; [constructor|]. by intros e' [].
Qed.
End RefEtcd.
