(* ===== verification/EtcdClaims.v ===== *)
(** * The store on etcd

    The theorems about the etcd client: that its calls keep the contract of the
    store, that the history of a prefix is replayed, that a watch forwards the
    events of its stream, and that the migration of a store to etcd copies it;
    each used on the server of [EtcdRef].  At the end, where the client and the
    trait differ. *)

From Stdlib Require Import ZArith Lia Bool List String Ascii.
From stdpp Require Import base tactics list gmap strings.
From S2P Require Import Prelude RustStr Utf8 Store Sqlite SqliteSpec StoreTheorems Text Etcd EtcdSpec EtcdHistory EtcdRef.

Open Scope Z_scope.

(** ** A server with two keys *)

Module EtcdDemo.
Import RefEtcd.

Definition demo_store : AStore :=
  a_write "node/b" "" None (a_remove "gone" (a_write "node/a" "10.0.0.1" None (a_write "gone" "x" None a_empty))).
Definition demo : Ref := mkRef demo_store 0 true.

Lemma a_empty_ewf : ewf a_empty.
Proof. split; simpl; try done; try (intros *; rewrite lookup_empty; done); constructor. Qed.

Lemma demo_ok : ok_server demo.
Proof.
  unfold ok_server. cbn [view ref_view r_view demo]. unfold demo_store.
  assert (forall k, k <> ""%string -> valid_utf8 k = true -> key_ok k) as Hk by (by split).
  assert (lease_ok None) as Hl by (intros id [=]).
  assert (forall a, lease_known None a) as Hn by (intros a id [=]).
  repeat first [apply a_write_ewf; [|apply Hk; [discriminate|vm_compute; reflexivity]|exact Hl|apply Hn|vm_compute; discriminate]
               |apply a_remove_ewf; [|apply Hk; [discriminate|vm_compute; reflexivity]|vm_compute; discriminate]].
  exact a_empty_ewf.
Qed.

Lemma demo_healthy : healthy_server demo.
Proof. reflexivity. Qed.
End EtcdDemo.
Import RefEtcd.

(** ** The contract *)



(** ** Histories *)

(** C17: [changes_since] replays the history from a revision that the server
    has not compacted ([compacted g <= since]; [compacted_history_lost] is
    about the others).  The client opens a watch from the revision after
    [since], reads frames until it has seen the current revision or the stream
    falls silent, and sorts: on a healthy server it returns exactly the events after [since] whose key has the prefix, in order,
    deletions included, whatever the frames and whatever came later; on any
    server what it returns is the start of that history, and the server is left
    as it was. *)
Theorem history_replayed {G : Type} `{EtcdLaws G} `{!Base64Laws} (since : Z) (p : string) (g : G) :
  valid_utf8 p = true -> in_i64 since -> ok_server g -> compacted g <= since ->
  let '(r, g') := etcd_changes_since since p g in
  view g' = view g /\ compacted g' = compacted g /\ (healthy_server g -> healthy_server g') /\
  match r with
  | Ok l => exists rest, history since p (view g) = l ++ rest /\ (healthy_server g -> rest = [])
  | Err (Backend _) => ~ healthy_server g
  | Err (NoSuchLease _) => False
  end.
Proof. exact (changes_since_replays since p g). Qed.

Lemma history_replayed_witness :
  exists g', etcd_changes_since 1 "" EtcdDemo.demo =
    (Ok [mkEvent Put "node/a" "10.0.0.1" 2; mkEvent Delete "gone" "" 3; mkEvent Put "node/b" "" 4], g').
Proof.
  pose proof (history_replayed 1 ""%string EtcdDemo.demo eq_refl ltac:(by vm_compute) EtcdDemo.demo_ok
                ltac:(by vm_compute)) as Hr.
  destruct (etcd_changes_since 1 "" EtcdDemo.demo) as [r g']. destruct Hr as (_ & _ & _ & Hr). exists g'.
  destruct r as [l|[e|i]].
  - destruct Hr as (rest & Hl & Hh). rewrite (Hh EtcdDemo.demo_healthy), app_nil_r in Hl. rewrite <- Hl. f_equal.
  - exfalso. by apply Hr.
  - destruct Hr.
Defined.

(** ** Watches *)

Section Watches.
Context `{GatewayJson} `{Base64Laws}.

Lemma forward_events_is vs es room target :
  Forall2 is_event vs es -> Forall (fun e => legible target e /\ ev_rev e <= target) es ->
  forward_events vs room =
    (List.firstn room es, if (length es <=? room)%nat then Some (room - length es)%nat else None).
Proof.
  intros HF. revert room. induction HF as [|v e vs es Hv HF IH]; intros room HL.
  - cbn [forward_events length]. rewrite firstn_nil. cbn. by rewrite Nat.sub_0_r.
  - inversion HL as [|? ? [He Ht] HL']; subst. cbn [forward_events].
    destruct (event_read target v e Hv Ht He) as (Hrev & Hek & b & -> & Hb & Hval).
    rewrite Hb, Hrev, Hek in *. destruct room as [|room]; [done|]. rewrite IH by done. cbn [List.firstn length Nat.leb Nat.sub].
    f_equal. f_equal. destruct e as [kind k x rev]; cbn in *. f_equal.
    destruct (decide (kind = Delete)); [by injection Hval|by rewrite Hval].
Qed.

(** A watch sends the events of its stream in order, as many as the receiver
    takes. *)
Theorem watch_forwards ls evs room target :
  carries ls evs -> Forall (fun e => legible target e /\ ev_rev e <= target) evs ->
  watch_thread ls room = List.firstn room evs.
Proof.
  intros Hc. revert room. induction Hc as [|e ls|e ls|s e ls evs Hp Hc IH|s v es ls evs Hp Hl Hlt Hc IH]; intros room HL;
    cbn [watch_thread]; try by rewrite firstn_nil.
  - rewrite Hp. by apply IH.
  - apply List.Forall_app in HL as [HL1 HL2]. rewrite Hp. destruct Hl as [(vs & -> & HF)|[-> ->]]; [|by apply IH].
    rewrite (forward_events_is _ _ _ _ HF HL1). rewrite firstn_app. f_equal.
    destruct (Nat.leb_spec (length es) room); [by apply IH|].
    replace (room - length es)%nat with O by lia. done.
Qed.
End Watches.

(** ** Migration *)

Section Migration.
Context {S G : Type} `{StoreLaws S} `{EtcdLaws G} `{!Base64Laws}.

Definition storable (kv : KeyValue) : Prop := key_ok (kv_key kv).

Lemma copy_one_etcd kv (s : S) (g : G) :
  ok_server g -> healthy_server g -> storable kv -> a_rev (view g) < i64_max ->
  exists g', copy_one kv (s, g) = (Ok tt, (s, g')) /\ ok_server g' /\ healthy_server g' /\
             view g' = a_write (kv_key kv) (kv_value kv) None (view g).
Proof.
  intros Hg Hh [Hne Hu] Hr. unfold copy_one, mbind, on_snd. cbn [put etcd_store fst snd].
  pose proof (put_atomic (kv_key kv) (kv_value kv) None Hu ltac:(by intros id [=]) g Hg) as Hp.
  destruct (etcd_put (kv_key kv) (kv_value kv) None g) as [r g']. destruct Hp as (Ho & _ & Hx & Hp).
  destruct (Hx Hh) as [Hh' Ha]. destruct Ha as [rev ->]; [split; [done|]; split; [by intros id [=]|done]|].
  destruct Hp as (_ & Hv & _). exists g'. auto.
Qed.

Lemma copy_all_etcd kvs (s : S) (g : G) :
  ok_server g -> healthy_server g -> Forall storable kvs ->
  a_rev (view g) + Z.of_nat (length kvs) <= i64_max ->
  exists g', mfor kvs copy_one (s, g) = (Ok tt, (s, g')) /\ ok_server g' /\ healthy_server g' /\
             view g' = copied kvs (view g).
Proof.
  revert g; induction kvs as [|kv kvs IH]; intros g Hg Hh HF Hr; [by exists g|].
  inversion HF; subst. cbn [length] in Hr. cbn [mfor]. unfold mbind at 1.
  destruct (copy_one_etcd kv s g Hg Hh) as (g1 & -> & Ho1 & Hh1 & Hv1); [done|lia|].
  destruct (IH g1 Ho1 Hh1) as (g2 & -> & Ho2 & Hh2 & Hv2); [done|rewrite Hv1; cbn; lia|].
  exists g2. rewrite Hv2, Hv1. auto.
Qed.
End Migration.

(**  Migration to etcd copies the whole store.  From any healthy store
    whose keys are text and not empty, [migrate_all] to a healthy etcd with
    revisions left returns the number of keys; afterwards etcd holds every key of
    the source with its value, without a lease, and its other keys as before. *)
Theorem migrate_to_etcd {S G : Type} `{StoreLaws S} `{EtcdLaws G} `{!Base64Laws} (s : S) (g : G) :
  inv s -> healthy s -> ok_server g -> healthy_server g ->
  (forall k kv, a_kv (abs s) !! k = Some kv -> key_ok k) ->
  a_rev (view g) + Z.of_nat (size (a_kv (abs s))) <= i64_max ->
  exists s' g', migrate_all (s, g) = (Ok (size (a_kv (abs s))), (s', g')) /\ abs s' = abs s /\
    ok_server g' /\ healthy_server g' /\
    (forall k, values (view g') !! k = match values (abs s) !! k with
                                       | Some v => Some v
                                       | None => values (view g) !! k
                                       end) /\
    (forall k kv kv', a_kv (abs s) !! k = Some kv -> a_kv (view g') !! k = Some kv' -> kv_lease kv' = None).
Proof.
  intros Hs Hhs Hg Hhg Hkeys Hr. destruct (list_all_found s Hs Hhs) as (kvs & s' & Hl & Ha & Hnd & Hfind & Hlen).
  unfold migrate_all, mbind at 1, on_fst; simpl. rewrite Hl.
  unfold mbind. change (mfor kvs _ (s', g)) with (mfor kvs copy_one (s', g)).
  destruct (copy_all_etcd kvs s' g Hg Hhg) as (g' & -> & Ho & Hh & Hv); [|by rewrite Hlen|].
  - apply List.Forall_forall. intros kv Hin. unfold storable.
    destruct (a_kv (abs s) !! kv_key kv) as [kv'|] eqn:E; [by eapply Hkeys|].
    rewrite <- Hfind in E. apply find_none with (x := kv) in E; [|done]. by rewrite String.eqb_refl in E.
  - exists s', g'. rewrite Hv, <- Hlen. split; [done|]. split; [done|]. split; [done|]. split; [done|].
    by apply copied_values.
Qed.

Lemma migrate_to_etcd_witness :
  exists s' g', migrate_all (cas_demo, EtcdDemo.demo) = (Ok 1%nat, (s', g')) /\
    values (view g') !! "k"%string = Some "a"%string /\ values (view g') !! "node/a"%string = Some "10.0.0.1"%string.
Proof.
  destruct (migrate_to_etcd cas_demo EtcdDemo.demo) as (s' & g' & H1 & _ & _ & _ & H2 & _).
  - apply store_after_inv.
  - constructor.
  - exact EtcdDemo.demo_ok.
  - exact EtcdDemo.demo_healthy.
  - intros k kv Hk. assert (a_kv (abs cas_demo) = {[ "k"%string := mkKv "k" "a" 1 1 None ]}) as Hm by (vm_compute; reflexivity).
    rewrite Hm in Hk. apply lookup_singleton_Some in Hk as [<- _]. split; [discriminate|vm_compute; reflexivity].
  - by vm_compute.
  - exists s', g'. split; [exact H1|]. split; [exact (H2 "k"%string)|exact (H2 "node/a"%string)].
Defined.

(** ** Where the client and the trait differ *)

Section Differences.
Context {G : Type} `{EtcdLaws G} `{!Base64Laws}.

(** A write with a lease that does not exist is a backend error; SqliteStore
    reports [NoSuchLease]. *)
Theorem put_unknown_lease k v id (g : G) :
  valid_utf8 k = true -> in_i64 id -> id <> 0 -> ok_server g -> a_leases (view g) !! id = None ->
  exists e, (etcd_put k v (Some id) g).1 = Err (Backend e) /\ view (etcd_put k v (Some id) g).2 = view g.
Proof.
  intros Hk Hi Hz Hg Hn.
  pose proof (put_atomic k v (Some id) Hk ltac:(by intros i [= <-]) g Hg) as Hp.
  destruct (etcd_put k v (Some id) g) as [[rev|[e|i]] g']; destruct Hp as (_ & _ & _ & Hp); [| |done].
  - destruct Hp as (Hl & _). destruct (Hl id eq_refl) as [l Hl']. congruence.
  - exists e. split; [done|]. destruct Hp as [?|(rev & Hl & _)]; [done|]. destruct (Hl id eq_refl) as [l Hl']. congruence.
Qed.

(** Revoking a lease that does not exist is a backend error; SqliteStore deletes
    nothing and succeeds. *)
Theorem revoke_unknown_lease id (g : G) :
  in_i64 id -> ok_server g -> healthy_server g -> a_leases (view g) !! id = None ->
  exists e, (etcd_lease_revoke id g).1 = Err (Backend e).
Proof.
  intros Hi Hg Hh Hn. unfold etcd_lease_revoke, mbind at 1.
  pose proof (post_serves _ _ _ _ _ g
    (timetolive_law (DObj [("ID"%string, DStr (dec id)); ("keys"%string, DBool true)]) id (conj Hi eq_refl) eq_refl)
    (proj2 (ewf_rev _ Hg))) as Hp.
  destruct (post "/v3/lease/timetolive" _ g) as [[v|e] g1].
  - destruct Hp as [_ [(Hv & Hr & _) _]].
    pose proof (post_serves _ _ _ _ _ g1 (revoke_law (DObj [("ID"%string, DStr (dec id))]) id (conj Hi eq_refl))) as Hq.
    unfold mbind. destruct (post "/v3/lease/revoke" _ g1) as [[w|[e|i]] g2]; cbn [fst].
    + destruct Hq as [_ [[[l Hl] _] _]]; [by rewrite Hv; apply Hg|]. rewrite Hv in Hl. congruence.
    + by exists e.
    + destruct Hq as [_ []]; by rewrite Hv; apply Hg.
  - destruct Hp as [Hx _]. destruct (Hx Hh) as [_ Ha]. destruct (Ha I) as [? [=]].
Qed.

(** A swap that expects revision zero writes a key that does not exist; for the
    trait no key has that revision, and SqliteStore refuses. *)
Theorem cas_zero_writes k v (g : G) :
  key_ok k -> ok_server g -> healthy_server g -> a_rev (view g) < i64_max -> a_kv (view g) !! k = None ->
  exists g' rev, etcd_compare_and_swap k (Some 0) v None g = (Ok (mkCas true rev None), g') /\
                 view g' = a_write k v None (view g).
Proof.
  intros [Hne Hu] Hg Hh Hr Hn. unfold etcd_compare_and_swap, mbind at 1.
  assert (lease_ok None) as Hl by (by intros id [=]).
  pose proof (post_serves _ _ _ _ _ g
    (txn_law _ k (Some 0) v None (txn_body_request k (Some 0) v None Hl ltac:(by intros r [= <-])) ltac:(done))
    (proj2 (ewf_rev _ Hg))) as Hp.
  destruct (post "/v3/kv/txn" _ g) as [[r|e] g'].
  - destruct Hp as [_ [Hc (_ & Hb & _)]]. rewrite Hn in Hc, Hb. cbn in Hc, Hb. destruct Hc as (_ & _ & Hv & _).
    destruct Hb as [->|[[=] _]]. eexists _, _. split; [reflexivity|done].
  - destruct Hp as [Hx _]. destruct (Hx Hh) as [_ Ha].
    destruct Ha as [? [=]]. split; [done|]. split; [by intros id [=]|done].
Qed.

(** A replay from below the compacted revision finds the watch cancelled, takes
    the end of the stream for the end of the history, and returns no event and
    no error, whatever the store still has; SqliteStore returns the events it
    kept. *)
Theorem compacted_history_lost since p (g : G) :
  valid_utf8 p = true -> in_i64 since -> ok_server g -> healthy_server g ->
  since + 1 < compacted g -> since < a_rev (view g) ->
  exists g', etcd_changes_since since p g = (Ok [], g').
Proof.
  intros Hp Hsi Hg Hh Hcp Hlt. unfold etcd_changes_since, mbind at 1. pose proof (revision_atomic g Hg) as Hr.
  destruct (etcd_current_revision g) as [r g1]. destruct Hr as (Ho & Hc & Hx & Hr). destruct (Hx Hh) as [Hh1 Ha].
  destruct (Ha I) as [target ->]. destruct Hr as [Hv ->]. rewrite (proj2 (Z.leb_gt _ since)) by lia.
  destruct (prefix_span p) as [key e]. pose proof (ewf_rev _ Hg) as Hrev.
  assert (in_i64 (since + 1)) as Hs1 by (unfold in_i64, i64_min, i64_max in *; lia). rewrite i64_add_id by done.
  pose proof (cancel_law _ key e (since + 1) g1 (watch_body_request key e _ Hs1) ltac:(by rewrite Hc) Hh1) as Hw.
  unfold mbind. destruct (open_stream (Some 1500) "/v3/watch" _ g1) as [x g2]. destruct Hw as (ls & -> & Hca & Hub).
  exists g2. unfold lift.
  destruct (history_loop_is since (a_rev (view g)) ls [] [] Hca ltac:(constructor)) as [->|[_ Hu]]; [done|].
  by destruct (Hu Hub).
Qed.
End Differences.

(** The last three revisions of the demonstration store, compacted at 3. *)
Lemma compacted_history_lost_witness :
  (exists g', etcd_changes_since 1 "node/" (mkRef EtcdDemo.demo_store 3 true) = (Ok [], g')) /\
  history 1 "node/" EtcdDemo.demo_store = [mkEvent Put "node/a" "10.0.0.1" 2; mkEvent Put "node/b" "" 4].
Proof.
  split; [|by vm_compute].
  apply (compacted_history_lost 1 "node/"%string (mkRef EtcdDemo.demo_store 3 true)).
  - vm_compute; reflexivity.
  - by vm_compute.
  - exact EtcdDemo.demo_ok.
  - reflexivity.
  - by vm_compute.
  - by vm_compute.
Defined.
