(* ===== verification/Trace.v ===== *)
(** * Traces and the log sink (crates/sl-node/src/trace.rs, logsink.rs)

    The trace context and its W3C text, spans, the bounded queue of finished
    spans with its counter of dropped ones, one turn of the exporting thread, and
    the OTLP/JSON text of a batch; the switch of the log sink.  Random bytes and
    the time are arguments; whether a post succeeds is the argument of the turn. *)

From Stdlib Require Import ZArith Lia Bool List String Ascii.
From stdpp Require Import base tactics list strings.
From S2P Require Import Prelude RustStr Utf8 Text Auth Http HttpText.

Open Scope Z_scope.

(** ** Contexts *)

Record SpanCtx : Type := mkCtx { trace_id : string; span_id : string }.

Definition all_bytes (f : ascii -> bool) (s : string) : bool := forallb f (list_ascii_of_string s).
Definition is_zero_byte (c : ascii) : bool := byte_val c =? 0.
Definition is_zero_digit (c : ascii) : bool := Ascii.eqb c "0".
Definition is_hexdigit (c : ascii) : bool :=
  let b := byte_val c in
  ((48 <=? b) && (b <=? 57)) || ((97 <=? b) && (b <=? 102)) || ((65 <=? b) && (b <=? 70)).
Fixpoint to_lowercase (s : string) : string :=
  match s with String c s' => String (to_ascii_lowercase c) (to_lowercase s') | EmptyString => "" end.

(** [b[n - 1] = 1] *)
Fixpoint set_last (s : string) : string :=
  match s with
  | EmptyString => ""
  | String _ EmptyString => String (byte_of 1) ""
  | String c s' => String c (set_last s')
  end.

(** [b] is what [host_random] filled the buffer with. *)
Definition rand_hex (b : string) : string := hex (if all_bytes is_zero_byte b then set_last b else b).

Definition ctx_root (b16 b8 : string) : SpanCtx := mkCtx (rand_hex b16) (rand_hex b8).

Definition to_traceparent (c : SpanCtx) : string := "00-" ++s trace_id c ++s "-" ++s span_id c ++s "-01".

Definition from_traceparent (s : string) : option SpanCtx :=
  match split "-" (trim s) with
  | ver :: tid :: sid :: _flags :: _ =>
      if negb (String.eqb ver "00") || negb (String.length tid =? 32)%nat || negb (String.length sid =? 16)%nat then None
      else if negb (all_bytes is_hexdigit tid && all_bytes is_hexdigit sid) then None
      else if all_bytes is_zero_digit tid || all_bytes is_zero_digit sid then None
      else Some (mkCtx (to_lowercase tid) (to_lowercase sid))
  | _ => None
  end.

(** ** Spans and the exporter *)

Inductive SpanKind : Type := Server | Client | Internal.
Definition span_kind_code (k : SpanKind) : Z := match k with Server => 2 | Client => 3 | Internal => 1 end.

Record Span : Type := mkSpan {
  sp_ctx : SpanCtx; sp_parent : option string; sp_name : string; sp_kind : SpanKind;
  sp_start_ns : Z; sp_attrs : list (string * string); sp_noop : bool
}.

Record Finished : Type := mkFinished {
  fi_ctx : SpanCtx; fi_parent : option string; fi_name : string; fi_kind : SpanKind;
  fi_start_ns : Z; fi_end_ns : Z; fi_attrs : list (string * string); fi_error : option string
}.

Definition QUEUE_MAX : nat := Z.to_nat 4096.
Definition BATCH_MAX : nat := Z.to_nat 256.

(** The statics of the module: each is set once. *)
Record Tracing : Type := mkTracing {
  tr_q : list Finished; tr_dropped : Z; tr_endpoint : option (option string); tr_node : option string
}.

Definition set_queue (q : list Finished) (t : Tracing) : Tracing := mkTracing q (tr_dropped t) (tr_endpoint t) (tr_node t).
Definition count_dropped (n : Z) (t : Tracing) : Tracing :=
  mkTracing (tr_q t) (u64_add (tr_dropped t) n) (tr_endpoint t) (tr_node t).

Definition push_span (s : Finished) (t : Tracing) : Tracing :=
  if (QUEUE_MAX <=? length (tr_q t))%nat then count_dropped 1 t else set_queue (tr_q t ++ [s]) t.

Definition enabled (t : Tracing) : bool :=
  match tr_endpoint t with Some (Some _) => true | _ => false end.

(** [OnceLock::set] keeps the first value. *)
Definition once {A} (o : option A) (a : A) : option A := match o with Some x => Some x | None => Some a end.

Definition traces_url (e : string) : string :=
  let e := repeat_strip (String.length e) (strip_suffix "/") e in
  if ends_with "/v1/traces" e then e else e ++s "/v1/traces".

Definition trace_init (endpoint : option string) (node_id : string) (t : Tracing) : Tracing :=
  mkTracing (tr_q t) (tr_dropped t) (once (tr_endpoint t) (option_map traces_url endpoint)) (once (tr_node t) node_id).

Definition span_start (b16 b8 : string) (now : Z) (name : string) (kind : SpanKind) (parent : option SpanCtx)
    (t : Tracing) : Span :=
  let noop := negb (enabled t) in
  let ctx := match parent with
             | Some p => mkCtx (trace_id p) (if noop then "" else rand_hex b8)
             | None => if noop then mkCtx "" "" else ctx_root b16 b8
             end in
  mkSpan ctx (option_map span_id parent) name kind (if noop then 0 else now) [] noop.

Definition span_attr (k v : string) (s : Span) : Span :=
  if sp_noop s then s
  else mkSpan (sp_ctx s) (sp_parent s) (sp_name s) (sp_kind s) (sp_start_ns s) (sp_attrs s ++ [(k, v)]) (sp_noop s).

Definition span_end (now : Z) (err : option string) (s : Span) (t : Tracing) : Tracing :=
  if sp_noop s then t
  else push_span (mkFinished (sp_ctx s) (sp_parent s) (sp_name s) (sp_kind s) (sp_start_ns s) now (sp_attrs s) err) t.

Definition child_segment (b8 : string) (parent : SpanCtx) (name : string) (at_ns dur_ms : Z) (t : Tracing) : Z * Tracing :=
  if negb (enabled t) then (at_ns, t)
  else
    let e := at_ns + dur_ms * 1000000 in
    (e, push_span (mkFinished (mkCtx (trace_id parent) (rand_hex b8)) (Some (span_id parent)) name Internal at_ns e
                [("sandlocker.segment_from_duration", "true")]%string None) t).

(** ** The text of a batch *)

Definition hex4 (c : ascii) : string := "00" ++s hex (String c "").

Definition jchar (c : ascii) : string :=
  if Ascii.eqb c "034" then String "\" (String "034" "")
  else if Ascii.eqb c "\" then String "\" (String "\" "")
  else if Ascii.eqb c "010" then String "\" (String "n" "")
  else if Ascii.eqb c "013" then String "\" (String "r" "")
  else if Ascii.eqb c "009" then String "\" (String "t" "")
  else if byte_val c <? 32 then String "\" (String "u" (hex4 c))
  else String c "".

Fixpoint jbody (s : string) : string :=
  match s with String c s' => jchar c ++s jbody s' | EmptyString => "" end.

Definition jstr (s : string) : string := String "034" (jbody s ++s String "034" "").

(** A name as the field names and the constants of the format strings have it. *)
Definition qstr (s : string) : string := String "034" (s ++s String "034" "").

(** The items of a list with commas between them. *)
Fixpoint commas (l : list string) : string :=
  match l with
  | [] => ""
  | [x] => x
  | x :: l' => x ++s "," ++s commas l'
  end.

Definition attr_json (kv : string * string) : string :=
  "{" ++s qstr "key" ++s ":" ++s jstr kv.1 ++s "," ++s qstr "value" ++s ":{" ++s qstr "stringValue" ++s ":" ++s jstr kv.2 ++s "}}".

Definition span_json (s : Finished) : string :=
  let parent := match fi_parent s with Some p => p | None => ""%string end in
  let status := match fi_error s with
                | Some m => "," ++s qstr "status" ++s ":{" ++s qstr "code" ++s ":2," ++s qstr "message" ++s ":" ++s jstr m ++s "}"
                | None => ""%string
                end in
  "{" ++s qstr "traceId" ++s ":" ++s qstr (trace_id (fi_ctx s)) ++s "," ++s qstr "spanId" ++s ":" ++s qstr (span_id (fi_ctx s))
  ++s "," ++s qstr "parentSpanId" ++s ":" ++s qstr parent ++s "," ++s qstr "name" ++s ":" ++s jstr (fi_name s)
  ++s "," ++s qstr "kind" ++s ":" ++s dec (span_kind_code (fi_kind s))
  ++s "," ++s qstr "startTimeUnixNano" ++s ":" ++s qstr (dec (fi_start_ns s))
  ++s "," ++s qstr "endTimeUnixNano" ++s ":" ++s qstr (dec (fi_end_ns s))
  ++s "," ++s qstr "attributes" ++s ":[" ++s commas (map attr_json (fi_attrs s)) ++s "]" ++s status ++s "}".

Definition PKG_VERSION : string := "0.1.0".

Definition encode_batch (batch : list Finished) (t : Tracing) : string :=
  let spans := commas (map span_json batch) in
  let node := match tr_node t with Some n => n | None => ""%string end in
  "{" ++s qstr "resourceSpans" ++s ":[{" ++s qstr "resource" ++s ":{" ++s qstr "attributes" ++s ":["
  ++s "{" ++s qstr "key" ++s ":" ++s qstr "service.name" ++s "," ++s qstr "value" ++s ":{" ++s qstr "stringValue" ++s ":" ++s qstr "sandlocker" ++s "}},"
  ++s "{" ++s qstr "key" ++s ":" ++s qstr "service.version" ++s "," ++s qstr "value" ++s ":{" ++s qstr "stringValue" ++s ":" ++s qstr PKG_VERSION ++s "}},"
  ++s "{" ++s qstr "key" ++s ":" ++s qstr "service.instance.id" ++s "," ++s qstr "value" ++s ":{" ++s qstr "stringValue" ++s ":" ++s jstr node ++s "}}]},"
  ++s qstr "scopeSpans" ++s ":[{" ++s qstr "scope" ++s ":{" ++s qstr "name" ++s ":" ++s qstr "sl-node" ++s "}," ++s qstr "spans" ++s ":[" ++s spans ++s "]}]}]}".

(** One turn of the exporting thread: the batch it takes, and what is left once
    its post has succeeded or not. *)
Definition take_batch (t : Tracing) : list Finished * Tracing :=
  let n := Nat.min (length (tr_q t)) BATCH_MAX in
  (List.firstn n (tr_q t), set_queue (List.skipn n (tr_q t)) t).

Definition settle (post_ok : bool) (batch : list Finished) (t : Tracing) : Tracing :=
  if post_ok then t else count_dropped (Z.of_nat (length batch)) t.

Definition export_turn (post_ok : bool) (t : Tracing) : option (string * string) * Tracing :=
  let url := match tr_endpoint t with Some (Some u) => u | _ => ""%string end in
  let '(batch, t') := take_batch t in
  match batch with
  | [] => (None, t')
  | _ => (Some (url, encode_batch batch t'), settle post_ok batch t')
  end.

(** ** The log sink *)

Definition sink_init (url : option string) (sink : option (option string)) : option (option string) := once sink url.

(** What [emit] posts in the background. *)
Definition forward_event (event_json : string) (sink : option (option string)) : option (string * string) :=
  match sink with
  | Some (Some url) => Some (url, event_json)
  | _ => None
  end.

(** ** Contexts survive their text *)

Definition lower_hex (c : ascii) : bool := is_hexdigit c && Ascii.eqb (to_ascii_lowercase c) c.

Definition valid_id (n : nat) (s : string) : Prop :=
  String.length s = n /\ all_bytes lower_hex s = true /\ all_bytes is_zero_digit s = false.
Definition valid_ctx (c : SpanCtx) : Prop := valid_id 32 (trace_id c) /\ valid_id 16 (span_id c).

Lemma all_bytes_impl (f g : ascii -> bool) s :
  (forall c, f c = true -> g c = true) -> all_bytes f s = true -> all_bytes g s = true.
Proof. unfold all_bytes. rewrite !forallb_forall. auto. Qed.

Lemma all_bytes_cons f c s : all_bytes f (String c s) = f c && all_bytes f s.
Proof. reflexivity. Qed.

Lemma hexdigit_visible c : is_hexdigit c = true -> visible_char c = true.
Proof. destruct c as [[] [] [] [] [] [] [] []]; vm_compute; congruence. Qed.

Lemma hexdigit_lower c : is_hexdigit c = true -> lower_hex (to_ascii_lowercase c) = true.
Proof. destruct c as [[] [] [] [] [] [] [] []]; vm_compute; congruence. Qed.

Lemma hexdigit_zero c : is_hexdigit c = true -> is_zero_digit (to_ascii_lowercase c) = is_zero_digit c.
Proof. destruct c as [[] [] [] [] [] [] [] []]; vm_compute; congruence. Qed.

Lemma lower_hexdigit c : lower_hex c = true -> is_hexdigit c = true.
Proof. unfold lower_hex. by intros [? _]%andb_true_iff. Qed.

Lemma lower_no_dash c : lower_hex c = true -> Ascii.eqb "-" c = false.
Proof. destruct c as [[] [] [] [] [] [] [] []]; vm_compute; congruence. Qed.

Lemma lower_hex_text s :
  all_bytes lower_hex s = true -> visible s = true /\ contains_char "-" s = false /\ to_lowercase s = s.
Proof.
  induction s as [|c s IH]; [done|]. rewrite all_bytes_cons, andb_true_iff. intros [Hc Hs].
  destruct (IH Hs) as (Hv & Hd & Hl). cbn [contains_char to_lowercase]. rewrite visible_cons, Hv, Hd, Hl.
  rewrite (hexdigit_visible c) by by apply lower_hexdigit. rewrite lower_no_dash by done.
  unfold lower_hex in Hc. apply andb_true_iff in Hc as [_ ->%Ascii.eqb_eq]. done.
Qed.

Lemma to_lowercase_id n s :
  String.length s = n -> all_bytes is_hexdigit s = true -> all_bytes is_zero_digit s = false -> valid_id n (to_lowercase s).
Proof.
  intros Hl Hh Hz. assert (String.length (to_lowercase s) = String.length s /\
    all_bytes lower_hex (to_lowercase s) = true /\
    all_bytes is_zero_digit (to_lowercase s) = all_bytes is_zero_digit s) as (H1 & H2 & H3).
  { clear Hl Hz. induction s as [|c s IH]; [done|]. rewrite all_bytes_cons, andb_true_iff in Hh. destruct Hh as [Hc Hs].
    destruct (IH Hs) as (I1 & I2 & I3). cbn [to_lowercase String.length]. rewrite !all_bytes_cons, I1, I2, I3.
    by rewrite hexdigit_lower, hexdigit_zero. }
  split; [congruence|]. split; [done|congruence].
Qed.

Lemma hex_lower s : all_bytes lower_hex (hex s) = true.
Proof.
  assert (forall d, 0 <= d < 16 -> lower_hex (hex_digit d) = true) as Hd.
  { intros d Hd. assert (d = 0 \/ d = 1 \/ d = 2 \/ d = 3 \/ d = 4 \/ d = 5 \/ d = 6 \/ d = 7 \/ d = 8 \/ d = 9 \/ d = 10 \/
      d = 11 \/ d = 12 \/ d = 13 \/ d = 14 \/ d = 15) as Hc by lia. destruct_or? Hc; subst d; by vm_compute. }
  induction s as [|c s IH]; [done|]. cbn [hex]. pose proof (byte_val_range c).
  rewrite !all_bytes_cons, IH, !Hd; [done|apply Z.mod_pos_bound; lia|].
  split; [apply Z.div_pos; lia|apply Z.div_lt_upper_bound; lia].
Qed.

Lemma hex_digits_nonzero c :
  is_zero_byte c = false ->
  is_zero_digit (hex_digit (byte_val c / 16)) && is_zero_digit (hex_digit (byte_val c mod 16)) = false.
Proof. destruct c as [[] [] [] [] [] [] [] []]; vm_compute; congruence. Qed.

(** The hex of bytes that are not all zero is not all zeros. *)
Lemma hex_nonzero s : all_bytes is_zero_byte s = false -> all_bytes is_zero_digit (hex s) = false.
Proof.
  induction s as [|c s IH]; [done|]. cbn [hex]. rewrite !all_bytes_cons, andb_assoc, !(andb_false_iff _ (all_bytes _ _)).
  intros [Hc|Hs]; [left; by apply hex_digits_nonzero|right; by apply IH].
Qed.

Lemma set_last_length s : String.length (set_last s) = String.length s.
Proof. induction s as [|c [|d s] IH]; [done|done|]. cbn [set_last String.length] in *. by rewrite IH. Qed.

Lemma set_last_nonzero s : s <> ""%string -> all_bytes is_zero_byte (set_last s) = false.
Proof.
  induction s as [|c [|d s] IH]; [done|by vm_compute|]. intros _.
  change (set_last (String c (String d s))) with (String c (set_last (String d s))).
  rewrite all_bytes_cons, IH by done. by rewrite andb_false_r.
Qed.

Lemma rand_hex_valid b n : String.length b = n -> (0 < n)%nat -> valid_id (2 * n) (rand_hex b).
Proof.
  intros Hl Hn. unfold rand_hex. destruct (all_bytes is_zero_byte b) eqn:E.
  - split; [rewrite hex_length, set_last_length; lia|]. split; [apply hex_lower|].
    apply hex_nonzero, set_last_nonzero. intros ->. simpl in Hl. lia.
  - split; [rewrite hex_length; lia|]. split; [apply hex_lower|by apply hex_nonzero].
Qed.

Lemma traceparent_parses c : valid_ctx c -> from_traceparent (to_traceparent c) = Some c.
Proof.
  intros [(Lt & Ht & Zt) (Ls & Hs & Zs)]. destruct (lower_hex_text _ Ht) as (Vt & Dt & Ct).
  destruct (lower_hex_text _ Hs) as (Vs & Ds & Cs). unfold from_traceparent, to_traceparent.
  rewrite trim_id by by rewrite !visible_app, Vt, Vs.
  change ("00-" ++s ?x)%string with ("00" ++s String "-" x)%string. rewrite split_sep_app by done.
  change ("-" ++s ?x)%string with (String "-" x). rewrite split_sep_app by done.
  change ("-01")%string with (String "-" "01"). rewrite split_sep_app by done. cbn [split String.eqb negb orb].
  rewrite Lt, Ls, Nat.eqb_refl, Nat.eqb_refl. cbn [negb orb]. change (String.eqb "00" "00") with true. cbn [negb orb].
  rewrite (all_bytes_impl lower_hex is_hexdigit _ lower_hexdigit Ht), (all_bytes_impl lower_hex is_hexdigit _ lower_hexdigit Hs).
  rewrite Zt, Zs. cbn. rewrite Ct, Cs. by destruct c.
Qed.

Lemma traceparent_valid s c : from_traceparent s = Some c -> valid_ctx c.
Proof.
  unfold from_traceparent. destruct (split "-" (trim s)) as [|ver [|tid [|sid [|fl rest]]]]; try done.
  destruct (String.eqb ver "00"); [|done]. destruct (Nat.eqb_spec (String.length tid) 32) as [Lt|]; [|done].
  destruct (Nat.eqb_spec (String.length sid) 16) as [Ls|]; [|done]. cbn [negb orb].
  destruct (all_bytes is_hexdigit tid) eqn:Ht; [|done]. destruct (all_bytes is_hexdigit sid) eqn:Hs; [|done]. cbn [negb andb].
  destruct (all_bytes is_zero_digit tid) eqn:Zt; [done|]. destruct (all_bytes is_zero_digit sid) eqn:Zs; [done|].
  intros [= <-]. split; by apply to_lowercase_id.
Qed.

(** ** A trace across nodes *)

(** A request that is passed on by nodes: each starts a span from the text of the
    context it was given. *)
Record Hop : Type := mkHop { h_b16 : string; h_b8 : string; h_now : Z; h_name : string; h_kind : SpanKind; h_tracing : Tracing }.

Definition hop_span (tp : string) (h : Hop) : Span :=
  span_start (h_b16 h) (h_b8 h) (h_now h) (h_name h) (h_kind h) (from_traceparent tp) (h_tracing h).

Fixpoint hops (c : SpanCtx) (hs : list Hop) : list Span :=
  match hs with
  | [] => []
  | h :: hs' => let sp := hop_span (to_traceparent c) h in sp :: hops (sp_ctx sp) hs'
  end.

Fixpoint linked_spans (c : SpanCtx) (l : list Span) : Prop :=
  match l with
  | [] => True
  | sp :: l' => trace_id (sp_ctx sp) = trace_id c /\ sp_parent sp = Some (span_id c) /\ valid_ctx (sp_ctx sp) /\
                linked_spans (sp_ctx sp) l'
  end.

Definition traced (h : Hop) : Prop :=
  String.length (h_b16 h) = 16%nat /\ String.length (h_b8 h) = 8%nat /\ enabled (h_tracing h) = true.

(** A span of a traced node has a context that can be passed on. *)
Lemma hop_valid tp h : traced h -> valid_ctx (sp_ctx (hop_span tp h)).
Proof.
  intros (H16 & H8 & He). unfold hop_span, span_start. rewrite He. cbn [negb sp_ctx].
  pose proof (rand_hex_valid (h_b8 h) 8 H8 ltac:(lia)) as V8.
  pose proof (rand_hex_valid (h_b16 h) 16 H16 ltac:(lia)) as V16.
  destruct (from_traceparent tp) as [c|] eqn:E; [|by split]. apply traceparent_valid in E as [Ht _]. by split.
Qed.

Lemma untraced_context c h :
  enabled (h_tracing h) = false -> from_traceparent (to_traceparent (sp_ctx (hop_span c h))) = None.
Proof.
  intros He. unfold hop_span, span_start. rewrite He. cbn [negb sp_ctx].
  destruct (from_traceparent c) as [p|] eqn:E; [|by vm_compute].
  apply traceparent_valid in E as [(Lt & Ht & _) _]. destruct (lower_hex_text _ Ht) as (Vt & Dt & _).
  unfold to_traceparent. cbn [trace_id span_id]. unfold from_traceparent.
  rewrite trim_id by by rewrite !visible_app, Vt.
  change ("00-" ++s ?x)%string with ("00" ++s String "-" x)%string. rewrite split_sep_app by done.
  change ("-" ++s ?x)%string with (String "-" x). rewrite split_sep_app by done.
  cbn. rewrite Lt. done.
Qed.

(**  A trace follows a request across nodes.  Whatever number of nodes
    with tracing a request passes, each handing on only the W3C text of its
    span, every span has the trace id of the first context, the span before it
    as its parent, and a context that can be handed on; the context of a node
    without tracing, and a text that is not well-formed, start a new trace at the
    next node. *)
Theorem trace_follows_request (c : SpanCtx) (hs : list Hop) :
  valid_ctx c -> Forall traced hs ->
  linked_spans c (hops c hs) /\
  (forall tp h, traced h -> from_traceparent tp = None ->
     sp_parent (hop_span tp h) = None /\ valid_ctx (sp_ctx (hop_span tp h))) /\
  (forall tp h, enabled (h_tracing h) = false ->
     from_traceparent (to_traceparent (sp_ctx (hop_span tp h))) = None).
Proof.
  intros Hc HF. split; [|split].
  - revert c Hc. induction HF as [|h hs Hh HF IH]; intros c Hc; [done|]. cbn [hops linked_spans].
    pose proof (hop_valid (to_traceparent c) h Hh) as Hv. split; [|split; [|split; [done|by apply IH]]].
    + unfold hop_span, span_start. by rewrite traceparent_parses by done.
    + unfold hop_span, span_start. by rewrite traceparent_parses by done.
  - intros tp h Hh Hn. split; [|by apply hop_valid]. unfold hop_span, span_start. by rewrite Hn.
  - intros tp h. apply untraced_context.
Qed.

(** ** Every span is accounted for *)

Inductive TraceOp : Type :=
| Ended (s : Finished)
| Take
| Posted (ok : bool).

(** The exporter, the batch its thread is posting, and what was delivered. *)
Record Exported : Type := mkExported { x_tracing : Tracing; x_flight : list Finished; x_done : list Finished }.

Definition trace_step (o : TraceOp) (x : Exported) : Exported :=
  match o with
  | Ended s => mkExported (push_span s (x_tracing x)) (x_flight x) (x_done x)
  | Take => match x_flight x with
            | [] => let '(batch, t') := take_batch (x_tracing x) in mkExported t' batch (x_done x)
            | _ => x
            end
  | Posted ok => mkExported (settle ok (x_flight x) (x_tracing x)) [] (if ok then x_done x ++ x_flight x else x_done x)
  end.

Definition trace_run (os : list TraceOp) (x : Exported) : Exported := fold_left (fun x o => trace_step o x) os x.

Definition ended_spans (os : list TraceOp) : list Finished :=
  List.flat_map (fun o => match o with Ended s => [s] | _ => [] end) os.

Record accounted (pushed : list Finished) (x : Exported) : Prop := {
  ac_queue : (length (tr_q (x_tracing x)) <= QUEUE_MAX)%nat;
  ac_flight : (length (x_flight x) <= BATCH_MAX)%nat;
  ac_order : sublist (x_done x ++ x_flight x ++ tr_q (x_tracing x)) pushed;
  ac_count : exists lost, tr_dropped (x_tracing x) = as_u64 (Z.of_nat lost) /\
    length pushed = (length (x_done x) + length (x_flight x) + length (tr_q (x_tracing x)) + lost)%nat
}.

Lemma as_u64_add a b : u64_add (as_u64 a) b = as_u64 (a + b).
Proof. unfold u64_add, as_u64. by rewrite Zplus_mod_idemp_l. Qed.

Lemma step_accounted pushed x o :
  accounted pushed x -> accounted (pushed ++ ended_spans [o]) (trace_step o x).
Proof.
  intros [Hq Hf Ho (lost & Hd & Hc)]. destruct o as [s| |ok]; cbn [ended_spans List.flat_map List.app trace_step].
  - unfold push_span. destruct (Nat.leb_spec QUEUE_MAX (length (tr_q (x_tracing x)))).
    + split; cbn; try done; [by apply sublist_inserts_r|]. exists (S lost). rewrite Hd, as_u64_add.
      rewrite length_app, Hc. cbn. split; [f_equal; lia|lia].
    + split; cbn; try done.
      * rewrite length_app. cbn. lia.
      * rewrite !app_assoc in *. by apply sublist_app.
      * exists lost. rewrite !length_app, Hc. cbn. split; [done|lia].
  - rewrite app_nil_r. destruct (x_flight x) as [|s l] eqn:Ef; [|by split; rewrite ?Ef; eauto].
    unfold take_batch. set (n := Nat.min _ _). assert (n <= length (tr_q (x_tracing x)))%nat by (subst n; lia).
    split; cbn.
    + rewrite length_skipn. lia.
    + rewrite length_firstn. subst n. lia.
    + rewrite List.firstn_skipn. exact Ho.
    + exists lost. rewrite length_firstn, length_skipn. split; [done|]. cbn in Hc. lia.
  - rewrite app_nil_r. destruct ok; cbn [settle].
    + split; cbn; try done; [lia|by rewrite <- app_assoc|]. exists lost. rewrite length_app. split; [done|lia].
    + split; cbn; try done; [lia| |].
      * etrans; [|exact Ho]. apply sublist_app; [done|]. by apply sublist_inserts_l.
      * exists (lost + length (x_flight x))%nat. rewrite Hd, as_u64_add. split; [f_equal; lia|lia].
Qed.

(**  Every finished span is accounted for.  However spans end while the
    exporting thread takes batches and its posts succeed or fail, the queue and
    the batch stay within their bounds, the spans delivered, in flight and queued
    are some of the finished ones in their order, each once, and all others are
    counted as dropped (modulo 2^64). *)
Theorem spans_accounted (os : list TraceOp) (endpoint : option (option string)) (node : option string) :
  accounted (ended_spans os) (trace_run os (mkExported (mkTracing [] 0 endpoint node) [] [])).
Proof.
  induction os as [|o os IH] using rev_ind.
  - split; cbn; try done; [lia|lia|]. by exists O.
  - unfold trace_run, ended_spans in *. rewrite fold_left_app, List.flat_map_app. apply (step_accounted _ _ o IH).
Qed.

(** Two nodes. *)
Definition demo_hop (b : string) : Hop :=
  mkHop (b ++s b) b 5 "relay" Client (mkTracing [] 0 (Some (Some "http://collector:4318/v1/traces"%string)) None).

Lemma trace_follows_request_witness :
  linked_spans (ctx_root "0123456789abcdef" "01234567") (hops (ctx_root "0123456789abcdef" "01234567") [demo_hop "abcdefgh"; demo_hop "ABCDEFGH"]).
Proof.
  apply (trace_follows_request (ctx_root "0123456789abcdef" "01234567") [demo_hop "abcdefgh"; demo_hop "ABCDEFGH"]).
  - split; [apply (rand_hex_valid _ 16)|apply (rand_hex_valid _ 8)]; done || lia.
  - repeat constructor.
Defined.

(** ** String literals *)

(** A reader of the JSON string literals of the escapes above. *)
Definition hex_value (c : ascii) : option Z :=
  let b := byte_val c in
  if (48 <=? b) && (b <=? 57) then Some (b - 48) else if (97 <=? b) && (b <=? 102) then Some (b - 87) else None.

Definition unescape (c : ascii) : option ascii :=
  if Ascii.eqb c "n" then Some "010"%char else if Ascii.eqb c "r" then Some "013"%char
  else if Ascii.eqb c "t" then Some "009"%char
  else if Ascii.eqb c "034" || Ascii.eqb c "\" then Some c else None.

Fixpoint read_body_json (s : string) : option (string * string) :=
  match s with
  | String c r =>
      if Ascii.eqb c "034" then Some (""%string, r)
      else if Ascii.eqb c "\" then
        match r with
        | String "u" (String a (String b (String x (String y r')))) =>
            match hex_value x, hex_value y with
            | Some p, Some q =>
                if String.eqb (String a (String b "")) "00"
                then option_map (fun '(t, rest) => (String (byte_of (16 * p + q)) t, rest)) (read_body_json r')
                else None
            | _, _ => None
            end
        | String d r' =>
            match unescape d with
            | Some e => option_map (fun '(t, rest) => (String e t, rest)) (read_body_json r')
            | None => None
            end
        | EmptyString => None
        end
      else if byte_val c <? 32 then None
      else option_map (fun '(t, rest) => (String c t, rest)) (read_body_json r)
  | EmptyString => None
  end.

Definition read_jstr (s : string) : option (string * string) :=
  match s with String c r => if Ascii.eqb c "034" then read_body_json r else None | EmptyString => None end.

Lemma jchar_reads c s : read_body_json (jchar c ++s s) = option_map (fun '(t, rest) => (String c t, rest)) (read_body_json s).
Proof. destruct c as [[] [] [] [] [] [] [] []]; reflexivity. Qed.

(** Whatever text a span, an attribute or an error has, its literal is read
    back as this text. *)
Theorem jstr_reads_back s rest : read_jstr (jstr s ++s rest) = Some (s, rest).
Proof.
  unfold jstr, read_jstr. cbn [String.append]. rewrite Ascii.eqb_refl, app_assoc_s. cbn [String.append].
  induction s as [|c s IH]; [reflexivity|]. cbn [jbody]. rewrite app_assoc_s, jchar_reads, IH. done.
Qed.

(** Flags that are not hex, and further fields, are accepted. *)
Theorem flags_not_checked :
  from_traceparent "00-4bf92f3577b34da6a3ce929d0e0e4736-00f067aa0ba902b7-zz-more" =
    Some (mkCtx "4bf92f3577b34da6a3ce929d0e0e4736" "00f067aa0ba902b7").
Proof. by vm_compute. Qed.
