(* ===== verification/Cli.v ===== *)
(** * The command line client (crates/sandlocker/src/main.rs)

    The arguments, the sub-commands, the HTTP client they use and what they
    print.  A command runs on the outside world (a class: the network, the
    program [sl-node] beside it), and on its two output streams; the requests it
    makes, answered or not, are logged.  [serde_json]'s printer and the rest of its values are
    parameters. *)

From Stdlib Require Import ZArith Lia Bool List String Ascii.
From stdpp Require Import base tactics list strings.
From S2P Require Import Prelude RustStr Utf8 Json Proto Snapcrypt Backend Text Http.

Open Scope Z_scope.

Definition DEFAULT_ADDR : string := "127.0.0.1:7878".

(** ** Arguments *)

Record Opts : Type := mkOpts { o_addr : string; o_json : bool }.

(** The loop of [parse_global] before the sub-command; what follows it is passed
    on. *)
Fixpoint global_loop (args : list string) (addr : string) (json : bool) : result (Opts * list string) string :=
  match args with
  | [] => Ok (mkOpts addr json, [])
  | a :: rest =>
      if String.eqb a "--addr" then
        match rest with
        | v :: rest' => global_loop rest' v json
        | [] => Err "--addr 缺少参数值"%string
        end
      else if String.eqb a "--json" then global_loop rest addr true
      else Ok (mkOpts addr json, args)
  end.

(** [env] is the variable SANDLOCKER_ADDR. *)
Definition parse_global (env : option string) (args : list string) : result (Opts * list string) string :=
  global_loop args (match env with Some a => a | None => DEFAULT_ADDR end) false.

(** The first [flag value] is taken out; a flag that is last stays. *)
Fixpoint take_flag (flag : string) (args : list string) : option string * list string :=
  match args with
  | [] => (None, [])
  | a :: rest =>
      if String.eqb a flag then
        match rest with
        | v :: rest' => (Some v, rest')
        | [] => (None, args)
        end
      else let '(v, rest') := take_flag flag rest in (v, a :: rest')
  end.

Fixpoint split_double_dash (args : list string) : list string * list string :=
  match args with
  | [] => ([], [])
  | a :: rest =>
      if String.eqb a "--" then ([], rest)
      else let '(head, cmd) := split_double_dash rest in (a :: head, cmd)
  end.

(** ** The world *)

(** A connection: refused, lost while the request is written, or what its reads
    return. *)
Inductive Talk : Type :=
| NoConnect (e : string)
| NoWrite (e : string)
| Answer (rs : Reads).

Class CliWorld (W : Type) : Type := {
  talk : string -> string -> W -> Talk * W;
  sl_node : W -> result string string;
  run_program : list string -> W -> result (option Z) string * W
}.

(** What the client uses of serde_json besides [SerdeJson]: the printer, the
    elements of an array, and the text of a value that is not a string. *)
Class CliJson `{SerdeJson} : Type := {
  print_json : json -> string;
  elements : Value -> option (list Value);
  is_null : Value -> bool;
  display : Value -> string
}.

Record Cli (W : Type) : Type := mkCli { cl_world : W; cl_out : string; cl_err : string; cl_sent : list (string * string) }.
Arguments mkCli {W}. Arguments cl_world {W}. Arguments cl_out {W}. Arguments cl_err {W}. Arguments cl_sent {W}.

Section Client.
Context `{CliJson} {W : Type} `{CliWorld W}.

Definition CM (A : Type) : Type := M (Cli W) string A.

Definition print (s : string) : CM unit :=
  fun c => (Ok tt, mkCli (cl_world c) (cl_out c ++s s) (cl_err c) (cl_sent c)).
Definition eprint (s : string) : CM unit :=
  fun c => (Ok tt, mkCli (cl_world c) (cl_out c) (cl_err c ++s s) (cl_sent c)).
Definition println (s : string) : CM unit := print (s ++s String LF "").
Definition eprintln (s : string) : CM unit := eprint (s ++s String LF "").

(** ** HTTP *)

Definition cli_request_text (method path body ctype : string) : string :=
  method ++s " " ++s path ++s " HTTP/1.1" ++s CRLF ++s "Host: localhost" ++s CRLF ++s "Accept: */*" ++s CRLF ++s
  "Content-Type: " ++s ctype ++s CRLF ++s "Content-Length: " ++s dec (Z.of_nat (String.length body)) ++s CRLF ++s
  "Connection: close" ++s CRLF2 ++s body.

Definition cli_parse_response (buf : string) : result (Z * string) string :=
  match find_crlfcrlf buf with
  | None => Err "响应无完整 header"%string
  | Some sep =>
      let line := from_utf8_lossy (first_line (str_take sep buf)) in
      match (c ← split_whitespace line !! 1%nat; parse_uint 65535 c) with
      | None => Err ("状态行无法解析: " ++s debug_str line)
      | Some code => Ok (code, from_utf8_lossy (str_drop (sep + 4) buf))
      end
  end.

Definition cli_response (rs : Reads) : result (Z * string) string :=
  match read_head "读响应头失败" "响应未含完整 header（连接过早关闭）" None "" rs with
  | Err e => Err e
  | Ok (head_end, buf, rs') =>
      match read_body "读响应体失败" (wanted head_end (str_take head_end buf)) buf rs' with
      | Err e => Err e
      | Ok buf => cli_parse_response buf
      end
  end.

Definition http (addr method path : string) (body : option string) (ctype : string) : CM (Z * string) :=
  fun c =>
    let text := cli_request_text method path (match body with Some b => b | None => ""%string end) ctype in
    let '(t, w') := talk addr text (cl_world c) in
    let c' := mkCli w' (cl_out c) (cl_err c) (cl_sent c ++ [(method, path)]) in
    (match t with
     | NoConnect e => Err ("连守护失败 " ++s addr ++s ": " ++s e ++s "（是否已 `sandlocker up`？）")
     | NoWrite e => Err ("写请求失败: " ++s e)
     | Answer rs => cli_response rs
     end, c').

(** ** JSON *)

Definition json_str (text key : string) : option string :=
  v ← from_slice text; x ← vget v key; vas_str x.

Definition json_array_objects (text : string) : list Value :=
  match from_slice text with
  | Some v => match elements v with Some a => a | None => [] end
  | None => []
  end.

Definition obj_field (v : Value) (key : string) : option string :=
  f ← vget v key;
  match vas_str f with
  | Some s => Some s
  | None => if is_null f then None else Some (display f)
  end.

Definition opt_num (s : option string) : option Z := x ← s; parse_i64 x.

(** A [Map] has its fields in the order of their names. *)
Definition build_create_body (template : string) (ttl idle : option string) : string :=
  print_json (JObj (match opt_num idle with Some i => [("idle"%string, JNum i)] | None => [] end
    ++ [("template"%string, JStr template)]
    ++ match opt_num ttl with Some t => [("ttl"%string, JNum t)] | None => [] end)).

Definition lift_opt {A} (o : option A) (e : string) : CM A :=
  match o with Some a => mret a | None => mfail e end.

(** ** Sub-commands *)

(** The message of a parse error has no text of the parser: the interface of
    serde_json reports none. *)
Definition exec_once (addr id : string) (cmdv : list string) : CM (Z * string * string) :=
  let cmd := join " " cmdv in
  let body := print_json (JObj [("cmd"%string, JStr cmd)]) in
  let? r := http addr "POST" ("/v1/sandboxes/" ++s id ++s "/exec") (Some body) "application/json" in
  let '(code, resp) := r in
  if negb (code =? 200) then mfail ("exec 失败（HTTP " ++s dec code ++s "）: " ++s resp)
  else
    match from_slice resp with
    | None => mfail "exec 响应非 JSON"%string
    | Some v =>
        let exit := as_i32 (match (x ← vget v "exit_code"; vas_i64 x) with Some n => n | None => -1 end) in
        let out := match (x ← vget v "stdout"; vas_str x) with Some s => s | None => ""%string end in
        let err := match (x ← vget v "stderr"; vas_str x) with Some s => s | None => ""%string end in
        mret (exit, out, err)
    end.

Definition cmd_run (opts : Opts) (sub : list string) : CM Z :=
  let '(head, cmdv) := split_double_dash sub in
  let '(ttl, head) := take_flag "--ttl" head in
  let '(idle, head) := take_flag "--idle" head in
  let? template := lift_opt (List.hd_error head) "用法: sandlocker run <template> [--ttl N --idle N] -- <cmd...>" in
  match cmdv with
  | [] => mfail "缺少要执行的命令（`-- <cmd...>`）"%string
  | _ =>
      let body := build_create_body template ttl idle in
      let? r := http (o_addr opts) "POST" "/v1/sandboxes" (Some body) "application/json" in
      let '(code, resp) := r in
      if negb (code =? 201) then mfail ("创建沙箱失败（HTTP " ++s dec code ++s "）: " ++s resp)
      else
        let? id := lift_opt (json_str resp "id") ("创建响应无 id: " ++s resp) in
        let? result := mtry (exec_once (o_addr opts) id cmdv) in
        let? _ := mtry (http (o_addr opts) "DELETE" ("/v1/sandboxes/" ++s id) None "application/json") in
        match result with
        | Err e => mfail e
        | Ok (exit, out, err) =>
            let? _ := print out in
            let? _ := eprint err in
            mret exit
        end
  end.

(** The number of characters: bytes that do not continue one. *)
Definition char_count (s : string) : nat :=
  length (List.filter (fun c => negb ((128 <=? byte_val c) && (byte_val c <? 192))) (list_ascii_of_string s)).
Definition spaces (n : nat) : string := string_of_list_ascii (repeat " "%char n).
Definition pad_right (w : nat) (s : string) : string := s ++s spaces (w - char_count s).
Definition pad_left (w : nat) (s : string) : string := spaces (w - char_count s) ++s s.

Definition ps_row (id state tpl ttl : string) : string :=
  pad_right 26 id ++s " " ++s pad_right 10 state ++s " " ++s pad_right 16 tpl ++s " " ++s pad_left 10 ttl.

Definition or_else (d : string) (o : option string) : string := match o with Some s => s | None => d end.

Definition cmd_ps (opts : Opts) : CM Z :=
  let? r := http (o_addr opts) "GET" "/v1/sandboxes" None "application/json" in
  let '(code, resp) := r in
  if negb (code =? 200) then mfail ("列举失败（HTTP " ++s dec code ++s "）: " ++s resp)
  else if o_json opts then let? _ := println resp in mret 0
  else
    let? _ := println (ps_row "ID" "STATE" "TEMPLATE" "TTL_DDL") in
    let? _ := mfor (json_array_objects resp) (fun obj =>
      println (ps_row (or_else "" (obj_field obj "id")) (or_else "-" (obj_field obj "state"))
                 (or_else "-" (obj_field obj "template")) (or_else "-" (obj_field obj "ttl_deadline")))) in
    mret 0.

Definition cmd_exec (opts : Opts) (sub : list string) : CM Z :=
  let '(head, cmdv) := split_double_dash sub in
  let? id := lift_opt (List.hd_error head) "用法: sandlocker exec <id> -- <cmd...>" in
  match cmdv with
  | [] => mfail "缺少要执行的命令（`-- <cmd...>`）"%string
  | _ =>
      let? r := exec_once (o_addr opts) id cmdv in
      let '(exit, out, err) := r in
      let? _ := print out in
      let? _ := eprint err in
      mret exit
  end.

(** [a.get(1).ok_or("缺 guest-port")?.parse::<u32>()] *)
Definition guest_port (args : list string) : CM Z :=
  let? gp := lift_opt (args !! 1%nat) "缺 guest-port" in
  lift_opt (parse_uint (2 ^ 32 - 1) gp) "guest-port 非数字".

Definition cli_expose_body (gp : Z) (host_port bind : option string) : string :=
  print_json (JObj (
    match bind with Some b => [("bind"%string, JStr b)] | None => [] end
    ++ match (s ← host_port; parse_uint 65535 s) with Some p => [("host_port"%string, JNum p)] | None => [] end
    ++ [("port"%string, JNum gp)])).

Definition cmd_expose (opts : Opts) (sub : list string) : CM Z :=
  let '(host_port, a) := take_flag "--host-port" sub in
  let '(bind, a) := take_flag "--bind" a in
  let? id := lift_opt (List.hd_error a) "用法: sandlocker expose <id> <guest-port> [--host-port N] [--bind ADDR]" in
  let? gp := guest_port a in
  let? r := http (o_addr opts) "POST" ("/v1/sandboxes/" ++s id ++s "/expose") (Some (cli_expose_body gp host_port bind)) "application/json" in
  let '(code, resp) := r in
  if negb (code =? 201) then mfail ("expose 失败（HTTP " ++s dec code ++s "）: " ++s resp)
  else
    let? _ := println (if o_json opts then resp else or_else resp (json_str resp "url")) in
    mret 0.

Definition cmd_unexpose (opts : Opts) (sub : list string) : CM Z :=
  let? id := lift_opt (List.hd_error sub) "用法: sandlocker unexpose <id> <guest-port>" in
  let? gp := guest_port sub in
  let? r := http (o_addr opts) "DELETE" ("/v1/sandboxes/" ++s id ++s "/expose/" ++s dec gp) None "application/json" in
  let '(code, resp) := r in
  if negb (code =? 204) then mfail ("unexpose 失败（HTTP " ++s dec code ++s "）: " ++s resp) else mret 0.

Definition cmd_logs (opts : Opts) (sub : list string) : CM Z :=
  let? id := lift_opt (List.hd_error sub) "用法: sandlocker logs <id>" in
  let? r := http (o_addr opts) "GET" ("/v1/sandboxes/" ++s id ++s "/logs") None "text/plain" in
  let '(code, resp) := r in
  if negb (code =? 200) then mfail ("取日志失败（HTTP " ++s dec code ++s "）: " ++s resp)
  else let? _ := print resp in mret 0.

Definition snapshot_usage : string :=
  "用法: sandlocker snapshot ls [--json]" ++s String LF "（M1：模板=预烘焙快照；pause/resume/fork 运行时快照属 M2）".

Definition cmd_snapshot (opts : Opts) (sub : list string) : CM Z :=
  match sub with
  | a :: _ =>
      if String.eqb a "ls" then
        let? r := http (o_addr opts) "GET" "/v1/templates" None "application/json" in
        let '(code, resp) := r in
        if negb (code =? 200) then mfail ("列快照失败（HTTP " ++s dec code ++s "）: " ++s resp)
        else if o_json opts then let? _ := println resp in mret 0
        else
          let? _ := println (pad_right 20 "TEMPLATE" ++s " " ++s pad_right 16 "VERSION") in
          let? _ := mfor (json_array_objects resp) (fun obj =>
            println (pad_right 20 (or_else "" (obj_field obj "name")) ++s " " ++s
                     pad_right 16 (or_else "" (obj_field obj "version")))) in
          mret 0
      else let? _ := eprintln snapshot_usage in mret 2
  | [] => let? _ := eprintln snapshot_usage in mret 2
  end.

(** ** The node's program *)

(** [current_exe], its directory and [sl-node] in it are the world's. *)
Definition locate_sl_node : CM string := fun c => (sl_node (cl_world c), c).

Definition program_status (what : string) (argv : list string) : CM (option Z) :=
  fun c =>
    let '(r, w') := run_program argv (cl_world c) in
    (match r with Ok code => Ok code | Err e => Err (what ++s ": " ++s e) end,
     mkCli w' (cl_out c) (cl_err c) (cl_sent c)).

Definition opt_arg (name : string) (v : option string) : list string :=
  match v with Some x => [name; x] | None => [] end.

Definition cmd_up (opts : Opts) (sub : list string) : CM Z :=
  let '(db, a) := take_flag "--db" sub in
  let '(template_root, a) := take_flag "--template-root" a in
  let '(run_root, a) := take_flag "--run-root" a in
  let '(tick, a) := take_flag "--tick-secs" a in
  let? exe := locate_sl_node in
  let? status := program_status "起守护失败" ([exe; "--serve"; "--addr"; o_addr opts]%string
    ++ opt_arg "--store" db ++ opt_arg "--template-root" template_root ++ opt_arg "--run-root" run_root
    ++ opt_arg "--tick-secs" tick) in
  mret (match status with Some code => code | None => 0 end).

Definition cmd_build (sub : list string) : CM Z :=
  let? file := lift_opt (List.hd_error sub) "用法: sandlocker build <file.sandlocker.toml> [--json]" in
  let? exe := locate_sl_node in
  let? status := program_status "起构建失败" ([exe; "--build"; file]%string
    ++ if existsb (String.eqb "--json") sub then ["--json"%string] else []) in
  mret (match status with Some code => code | None => 1 end).

(** ** Dispatch *)

(** The text of [usage] is a constant. *)
Context (usage_text : string).
Definition print_usage : CM unit := eprint usage_text.

(** [Ok(code) => code], [Err(e) => { eprintln!("错误: {e}"); 1 }] *)
Definition exit_code (m : CM Z) : CM Z :=
  let? r := mtry m in
  match r with
  | Ok code => mret code
  | Err e => let? _ := eprintln ("错误: " ++s e) in mret 1
  end.

Definition cli_run (env : option string) (args : list string) : CM Z :=
  match parse_global env args with
  | Err e => let? _ := eprintln e in mret 2
  | Ok (opts, []) => let? _ := print_usage in mret 2
  | Ok (opts, cmd :: sub) =>
      if String.eqb cmd "up" then exit_code (cmd_up opts sub)
      else if String.eqb cmd "build" then exit_code (cmd_build sub)
      else if String.eqb cmd "run" then exit_code (cmd_run opts sub)
      else if String.eqb cmd "ps" then exit_code (cmd_ps opts)
      else if String.eqb cmd "exec" then exit_code (cmd_exec opts sub)
      else if String.eqb cmd "expose" then exit_code (cmd_expose opts sub)
      else if String.eqb cmd "unexpose" then exit_code (cmd_unexpose opts sub)
      else if String.eqb cmd "logs" then exit_code (cmd_logs opts sub)
      else if String.eqb cmd "snapshot" then exit_code (cmd_snapshot opts sub)
      else if String.eqb cmd "help" || String.eqb cmd "-h" || String.eqb cmd "--help" then let? _ := print_usage in mret 0
      else
        let? _ := eprintln ("未知子命令: " ++s cmd) in
        let? _ := print_usage in
        mret 2
  end.
End Client.
