(* ===== verification/CliSafety.v ===== *)
(** * The client and the node

    That the requests the command line client writes are those the node reads,
    and the responses the node writes those the client reads, however the bytes
    arrive; that every sub-command reaches its route; and that [run] destroys the
    sandbox it created whatever its command did. *)

From Stdlib Require Import ZArith Lia Bool List String Ascii.
From stdpp Require Import base tactics list strings.
From S2P Require Import Prelude RustStr Utf8 Json Proto Snapcrypt Backend Text Http HttpText Routes Cli.

Open Scope Z_scope.

(** ** Headers of any lines *)

Fixpoint crlf_lines (l : list string) : string :=
  match l with
  | [] => ""
  | [x] => x
  | x :: l' => x ++s CRLF ++s crlf_lines l'
  end.

(** A line of a header: not empty, and without a carriage return. *)
Definition header_line (x : string) : Prop := x <> ""%string /\ contains_char CR x = false.

Lemma crlf_lines_cons x y l : crlf_lines (x :: y :: l) = x ++s CRLF ++s crlf_lines (y :: l).
Proof. reflexivity. Qed.

Lemma split_crlf_lines x l : Forall header_line (x :: l) -> split_crlf (crlf_lines (x :: l)) = x :: l.
Proof.
  revert x. induction l as [|y l IH]; intros x HF; inversion HF as [|? ? [_ Hx] HF']; subst.
  - by apply split_crlf_none.
  - rewrite crlf_lines_cons, split_crlf_app by done. by rewrite IH.
Qed.

Lemma find_crlf_step x t :
  header_line x -> find_crlfcrlf (CRLF ++s x ++s t) = (fun k => 2 + (String.length x + k))%nat <$> find_crlfcrlf (t).
Proof.
  intros [Hne Hx]. destruct x as [|c x]; [done|]. change (String c x ++s t) with (String c (x ++s t)).
  rewrite find_line by (intros ->; discriminate Hx). change (String c (x ++s t)) with (String c x ++s t).
  rewrite find_skip by done. by destruct (find_crlfcrlf t).
Qed.

Lemma find_crlf_lines x l body :
  Forall header_line (x :: l) ->
  find_crlfcrlf (crlf_lines (x :: l) ++s CRLF2 ++s body) = Some (String.length (crlf_lines (x :: l))).
Proof.
  intros HF. inversion HF as [|? ? [_ Hx] HF']; subst. clear HF.
  assert (forall l, Forall header_line l ->
    find_crlfcrlf ((match l with [] => ""%string | _ => CRLF ++s crlf_lines l end) ++s CRLF2 ++s body) =
    Some (String.length (match l with [] => ""%string | _ => CRLF ++s crlf_lines l end))) as Hl.
  { clear. intros l HF. induction HF as [|y l Hy HF IH]; [reflexivity|].
    assert (CRLF ++s crlf_lines (y :: l) = CRLF ++s y ++s (match l with [] => ""%string | _ => CRLF ++s crlf_lines l end)) as ->.
    { destruct l; [by rewrite app_nil_s|done]. }
    rewrite !app_assoc_s, find_crlf_step, IH by done. cbn [fmap option_fmap option_map]. f_equal.
    rewrite !app_length_s. simpl. lia. }
  assert (crlf_lines (x :: l) = x ++s (match l with [] => ""%string | _ => CRLF ++s crlf_lines l end)) as ->
    by (destruct l; [by rewrite app_nil_s|done]).
  rewrite app_assoc_s, find_skip, Hl by done. cbn [fmap option_fmap option_map]. by rewrite app_length_s.
Qed.

Lemma first_line_lines x y l :
  contains_char LF x = false -> first_line (crlf_lines (x :: y :: l)) = x ++s String CR "".
Proof.
  intros Hx. unfold first_line. rewrite crlf_lines_cons.
  rewrite (proj2 (split_once_some LF _ (x ++s String CR "") (crlf_lines (y :: l)))); [done|].
  split; [by rewrite app_assoc_s|]. rewrite contains_char_app, Hx. done.
Qed.

Lemma is_ascii_lines l : Forall (fun x => is_ascii x = true) l -> is_ascii (crlf_lines l) = true.
Proof.
  induction 1 as [|x l Hx HF IH]; [done|]. destruct l as [|y l]; [done|].
  rewrite crlf_lines_cons, !is_ascii_app, Hx, IH. done.
Qed.

(** The header lines of a text with a name before the colon. *)
Lemma header_value_other name k v :
  contains_char ":" k = false -> eq_ignore_ascii_case (trim k) name = false ->
  header_value name (k ++s String ":" v) = None.
Proof.
  intros Hk Hn. unfold header_value. rewrite (proj2 (split_once_some ":" _ k v) (conj eq_refl Hk)).
  change ((if eq_ignore_ascii_case (trim k) name then Some (trim v) else None) = None). by rewrite Hn.
Qed.

Lemma header_value_this n :
  0 <= n -> header_value "content-length" ("Content-Length: " ++s dec n) = Some (dec n).
Proof.
  intros Hn. unfold header_value.
  rewrite (proj2 (split_once_some ":" ("Content-Length: " ++s dec n) "Content-Length" (" " ++s dec n)) (conj eq_refl eq_refl)).
  change (Some (trim (" " ++s dec n)) = Some (dec n)). by rewrite trim_visible by (by apply dec_visible).
Qed.

(** The length of the first header that has one. *)
Lemma content_length_lines before n after :
  Forall header_line (before ++ ("Content-Length: " ++s dec n)%string :: after) ->
  Forall (fun x => is_ascii x = true) (before ++ ("Content-Length: " ++s dec n)%string :: after) ->
  Forall (fun x => header_value "content-length" x = None) before -> 0 <= n <= u64_max ->
  content_length (crlf_lines (before ++ ("Content-Length: " ++s dec n)%string :: after)) = n.
Proof.
  intros HF HA HB Hn. unfold content_length, extract_header.
  rewrite from_utf8_lossy_valid by by apply is_ascii_valid, is_ascii_lines.
  assert (split_crlf (crlf_lines (before ++ ("Content-Length: " ++s dec n)%string :: after))
          = before ++ ("Content-Length: " ++s dec n)%string :: after) as ->.
  { destruct before; by apply split_crlf_lines. }
  assert (first_some (header_value "content-length") (before ++ ("Content-Length: " ++s dec n)%string :: after) = Some (dec n)) as ->.
  { clear HF HA. induction HB as [|x l Hx HB IH]; cbn [List.app first_some]; [by rewrite header_value_this by lia|]. by rewrite Hx. }
  cbn [default]. by rewrite parse_uint_dec by lia.
Qed.

(** A first line of a request does not read as a length. *)
Lemma request_line_no_length m rest :
  visible m = true -> match m with String c _ => Ascii.eqb (to_ascii_lowercase c) "c" = false | EmptyString => False end ->
  header_value "content-length" (m ++s rest) = None.
Proof.
  intros Hv Hc. destruct m as [|c m]; [done|]. unfold header_value.
  destruct (split_once ":" (String c m ++s rest)) as [[k v]|] eqn:E; [|done]. apply split_once_some in E as [E _].
  destruct k as [|d k]; [reflexivity|]. injection E as <- _. rewrite visible_cons, andb_true_iff in Hv. destruct Hv as [Hv _].
  destruct (trim_first c k Hv) as [y Ey].
  change ((if eq_ignore_ascii_case (trim (String c k)) "content-length" then Some (trim v) else None) = None).
  rewrite Ey. cbn [eq_ignore_ascii_case]. change (to_ascii_lowercase "c") with "c"%char. by rewrite Hc.
Qed.

(** The first two words of a line. *)
Lemma two_words a b rest :
  visible a = true -> a <> ""%string -> visible b = true -> b <> ""%string ->
  exists ws, split_whitespace (a ++s " " ++s b ++s " " ++s rest) = a :: b :: ws.
Proof.
  intros Ha Ha0 Hb Hb0. change (a ++s " " ++s b ++s " " ++s rest) with (a ++s String " " (b ++s String " " rest)).
  unfold split_whitespace. rewrite app_length_s. destruct a as [|c a']; [done|]. cbn [String.length Nat.add].
  rewrite words_cons by done. rewrite app_length_s. destruct b as [|d b']; [done|]. cbn [String.length Nat.add]. rewrite Nat.add_succ_r.
  rewrite words_cons by done. eauto.
Qed.

(** ** Requests and responses *)

Definition cli_lines (m p ctype : string) (n : Z) : list string :=
  [m ++s " " ++s p ++s " HTTP/1.1"; "Host: localhost"; "Accept: */*"; "Content-Type: " ++s ctype;
   "Content-Length: " ++s dec n; "Connection: close"]%string.

Definition node_lines (code : Z) (ctype : string) (n : Z) : list string :=
  ["HTTP/1.1 " ++s dec code ++s " " ++s reason code; "Content-Type: " ++s ctype;
   "Content-Length: " ++s dec n; "Connection: close"]%string.

Lemma cli_request_lines m p body ctype :
  cli_request_text m p body ctype = crlf_lines (cli_lines m p ctype (Z.of_nat (String.length body))) ++s CRLF2 ++s body.
Proof. unfold cli_request_text, cli_lines. cbn [crlf_lines]. by rewrite !app_assoc_s. Qed.

Lemma response_lines code ctype body :
  response_text code ctype body = crlf_lines (node_lines code ctype (Z.of_nat (String.length body))) ++s CRLF2 ++s body.
Proof. unfold response_text, node_lines. cbn [crlf_lines]. by rewrite !app_assoc_s. Qed.

(** Text that may stand in a header. *)
Definition header_text (s : string) : Prop := is_ascii s = true /\ contains_char CR s = false.

Lemma app_header_line a b : a <> ""%string -> contains_char CR a = false -> contains_char CR b = false -> header_line (a ++s b).
Proof.
  intros Ha H1 H2. split; [by destruct a|]. by rewrite contains_char_app, H1, H2.
Qed.

Lemma visible_header s : visible s = true -> header_text s.
Proof. intros Hs. split; [by apply visible_ascii|by apply visible_no_char]. Qed.

Lemma reason_header code : header_text (reason code) /\ contains_char LF (reason code) = false.
Proof. unfold reason. repeat case_match; by repeat split. Qed.

Section Request.
Context (m p ctype body : string).
Context (Hm : visible m = true) (Hc : match m with String c _ => Ascii.eqb (to_ascii_lowercase c) "c" = false | EmptyString => False end).
Context (Hp : visible p = true) (Hp0 : p <> ""%string) (Ht : header_text ctype).

Lemma cli_lines_ok n : 0 <= n ->
  Forall header_line (cli_lines m p ctype n) /\ Forall (fun x => is_ascii x = true) (cli_lines m p ctype n).
Proof.
  intros Hn. destruct (visible_header _ Hm) as [Am Cm], (visible_header _ Hp) as [Ap Cp], Ht as [At Ct].
  destruct (visible_header _ (dec_visible n Hn)) as [An Cn].
  assert (m <> ""%string) as Hm0 by (intros ->; done).
  split; unfold cli_lines.
  - constructor; [split; [by destruct m|by rewrite !contains_char_app, Cm, Cp]|].
    do 2 (constructor; [by split|]). do 2 (constructor; [by apply app_header_line|]). constructor; [by split|constructor].
  - constructor; [by rewrite !is_ascii_app, Am, Ap|]. do 2 (constructor; [done|]).
    constructor; [by rewrite is_ascii_app, At|]. constructor; [by rewrite is_ascii_app, An|]. by constructor.
Qed.

Lemma cli_request_line n : parse_request_line (crlf_lines (cli_lines m p ctype n)) = Ok (m, p).
Proof.
  unfold parse_request_line, cli_lines. destruct (visible_header _ Hm) as [Am _], (visible_header _ Hp) as [Ap _].
  assert (m <> ""%string) as Hm0 by (intros ->; done).
  rewrite first_line_lines by by rewrite !contains_char_app, (visible_no_char LF m), (visible_no_char LF p).
  rewrite from_utf8_lossy_valid by (apply is_ascii_valid; by rewrite !is_ascii_app, Am, Ap).
  rewrite !app_assoc_s. change (" HTTP/1.1" ++s String CR "") with (" " ++s ("HTTP/1.1" ++s String CR "")).
  destruct (two_words m p ("HTTP/1.1" ++s String CR "")) as [ws ->]; done.
Qed.

Lemma cli_request_read rs :
  let n := Z.of_nat (String.length body) in
  Z.of_nat (String.length (cli_request_text m p body ctype)) < 2 ^ 64 ->
  (String.length (crlf_lines (cli_lines m p ctype n)) + 3 + 1024 <= HEADER_LIMIT)%nat ->
  brings 1024 rs (cli_request_text m p body ctype) ->
  exists key tp, read_request rs = Ok (mkRequest m p key tp body).
Proof.
  intros n H64 Hlim Hb. rewrite cli_request_lines in *. destruct (cli_lines_ok n ltac:(lia)) as [HL HA].
  eexists _, _. apply request_arrives; [by apply find_crlf_lines|apply cli_request_line| |done|done|done].
  assert (n <= u64_max) by (rewrite !app_length_s in H64; unfold u64_max; lia).
  apply (content_length_lines [m ++s " " ++s p ++s " HTTP/1.1"; "Host: localhost"; "Accept: */*"; "Content-Type: " ++s ctype]%string
           n ["Connection: close"%string]); [done|done| |lia].
  constructor; [by apply request_line_no_length|]. do 2 (constructor; [reflexivity|]).
  constructor; [by apply (header_value_other _ "Content-Type")|constructor].
Qed.
End Request.

Lemma node_response_read code ctype body n rs :
  0 <= code <= 65535 -> header_text ctype -> valid_utf8 body = true ->
  Z.of_nat (String.length (response_text code ctype body)) < 2 ^ 64 ->
  brings n rs (response_text code ctype body) ->
  cli_response rs = Ok (code, body).
Proof.
  intros Hcode [At Ct] Hu H64 Hb. rewrite response_lines in *. set (k := Z.of_nat (String.length body)) in *.
  destruct (reason_header code) as [[Ar Cr] Lr]. destruct (visible_header _ (dec_visible code ltac:(lia))) as [Ac Cc].
  destruct (visible_header _ (dec_visible k ltac:(lia))) as [Ak Ck].
  assert (Forall header_line (node_lines code ctype k)) as HL.
  { constructor; [apply app_header_line; [done|done|by rewrite !contains_char_app, Cc, Cr]|].
    do 2 (constructor; [by apply app_header_line|]). constructor; [by split|constructor]. }
  assert (Forall (fun x => is_ascii x = true) (node_lines code ctype k)) as HA.
  { constructor; [by rewrite !is_ascii_app, Ac, Ar|]. constructor; [by rewrite is_ascii_app, At|].
    constructor; [by rewrite is_ascii_app, Ak|]. by constructor. }
  assert (content_length (crlf_lines (node_lines code ctype k)) = k) as Hlen.
  { assert (k <= u64_max) by (rewrite !app_length_s in H64; unfold u64_max; lia).
    apply (content_length_lines ["HTTP/1.1 " ++s dec code ++s " " ++s reason code; "Content-Type: " ++s ctype]%string k
             ["Connection: close"%string]); [done|done| |lia].
    constructor; [by apply (request_line_no_length "HTTP/1.1")|].
    constructor; [by apply (header_value_other _ "Content-Type")|constructor]. }
  assert (find_crlfcrlf (crlf_lines (node_lines code ctype k) ++s CRLF2 ++s body)
          = Some (String.length (crlf_lines (node_lines code ctype k)))) as Hfind by exact (find_crlf_lines _ _ body HL).
  destruct (message_arrives "读响应头失败" "响应未含完整 header（连接过早关闭）" None "读响应体失败" n rs
              (crlf_lines (node_lines code ctype k)) body Hfind Hlen H64 I Hb) as (buf & rs' & Er & Ht & Eb).
  unfold cli_response. rewrite Er, Ht, Eb. unfold cli_parse_response.
  rewrite Hfind.
  rewrite str_take_exact, drop_head, (from_utf8_lossy_valid body) by done.
  unfold node_lines. rewrite first_line_lines.
  2: { rewrite !contains_char_app, (visible_no_char LF (dec code)), Lr by (done || apply dec_visible; lia). done. }
  rewrite from_utf8_lossy_valid by (apply is_ascii_valid; by rewrite !is_ascii_app, Ac, Ar).
  rewrite !app_assoc_s. change ("HTTP/1.1 " ++s ?x) with ("HTTP/1.1" ++s " " ++s x).
  destruct (two_words "HTTP/1.1" (dec code) (reason code ++s String CR "")) as [ws ->]; try done.
  - apply dec_visible. lia.
  - intros E. pose proof (dec_nonempty code) as Hd. rewrite E in Hd. simpl in Hd. lia.
  - cbn. by rewrite parse_uint_dec by lia.
Qed.

(** C10: the client and the node understand each other.  For every method the
    client uses, every visible path, header text and body, the node reads from
    the client's bytes, however the network cuts them, the method, the path and
    exactly the body; and for every response the node writes with text as its
    body, the client reads its code and exactly its body. *)
Theorem cli_talks_to_node (m p ctype body : string) (code : Z) (rtype rbody : string) (n : nat) (reqs resps : Reads) :
  In m ["GET"; "POST"; "DELETE"]%string -> visible p = true -> p <> ""%string -> header_text ctype ->
  Z.of_nat (String.length (cli_request_text m p body ctype)) < 2 ^ 64 ->
  (String.length (crlf_lines (cli_lines m p ctype (Z.of_nat (String.length body)))) + 3 + 1024 <= HEADER_LIMIT)%nat ->
  brings 1024 reqs (cli_request_text m p body ctype) ->
  0 <= code <= 65535 -> header_text rtype -> valid_utf8 rbody = true ->
  Z.of_nat (String.length (response_text code rtype rbody)) < 2 ^ 64 ->
  brings n resps (response_text code rtype rbody) ->
  (exists key tp, read_request reqs = Ok (mkRequest m p key tp body)) /\ cli_response resps = Ok (code, rbody).
Proof.
  intros Hm Hp Hp0 Ht H64 Hlim Hb Hc Hr Hu H64' Hb'. split; [|by eapply node_response_read].
  apply (cli_request_read m p ctype body); try done.
  - by destruct Hm as [<-|[<-|[<-|[]]]].
  - by destruct Hm as [<-|[<-|[<-|[]]]].
Qed.

Lemma cli_talks_to_node_witness :
  (exists key tp, read_request [Ok "GET /v1/sand"%string;
      Ok (str_drop 12 (cli_request_text "GET" "/v1/sandboxes" "" "application/json"))] = Ok (mkRequest "GET" "/v1/sandboxes" key tp "")) /\
  cli_response [Ok (response_text 200 "application/json" "[]")] = Ok (200, "[]"%string).
Proof.
  apply (cli_talks_to_node "GET" "/v1/sandboxes" "application/json" "" 200 "application/json" "[]" 4096
           [Ok "GET /v1/sand"%string; Ok (str_drop 12 (cli_request_text "GET" "/v1/sandboxes" "" "application/json"))]
           [Ok (response_text 200 "application/json" "[]")]).
  - by left.
  - vm_compute. reflexivity.
  - discriminate.
  - split; vm_compute; reflexivity.
  - vm_compute. reflexivity.
  - apply Nat.leb_le. vm_compute. reflexivity.
  - eexists [_; _]. split; [reflexivity|]. split; [|vm_compute; reflexivity].
    repeat (apply List.Forall_cons; [split; [discriminate|apply Nat.leb_le; vm_compute; reflexivity]|]). apply List.Forall_nil.
  - lia.
  - split; vm_compute; reflexivity.
  - vm_compute. reflexivity.
  - vm_compute. reflexivity.
  - eexists [_]. split; [reflexivity|]. split; [|vm_compute; reflexivity].
    repeat (apply List.Forall_cons; [split; [discriminate|apply Nat.leb_le; vm_compute; reflexivity]|]). apply List.Forall_nil.
Defined.

(** ** What the sub-commands send *)

(** The routes of requests. *)
Definition routes (l : list (string * string)) : list Route := map (fun r => parse_route r.1 r.2) l.

Lemma sandbox_path id rest :
  segment_ok id = true -> Forall (fun s => segment_ok s = true) rest ->
  segments ("/v1/sandboxes/" ++s join "/" (id :: rest)) = "v1"%string :: "sandboxes"%string :: id :: rest.
Proof.
  intros Hid HF. apply (segments_path ("v1" :: "sandboxes" :: id :: rest)%string); [done|]. cbn [forallb]. rewrite Hid. cbn.
  apply forallb_forall. rewrite List.Forall_forall in HF. exact HF.
Qed.

Lemma route_exec id : segment_ok id = true -> parse_route "POST" ("/v1/sandboxes/" ++s id ++s "/exec") = ExecRoute id.
Proof.
  intros Hid. unfold parse_route.
  pose proof (sandbox_path id ["exec"%string] Hid ltac:(by repeat constructor)) as Hs. cbn [join] in Hs. by rewrite Hs.
Qed.

Lemma route_delete id : segment_ok id = true -> parse_route "DELETE" ("/v1/sandboxes/" ++s id) = DeleteSandbox id.
Proof.
  intros Hid. unfold parse_route.
  pose proof (sandbox_path id [] Hid ltac:(by repeat constructor)) as Hs. cbn [join] in Hs. by rewrite Hs.
Qed.

Lemma route_logs id : segment_ok id = true -> parse_route "GET" ("/v1/sandboxes/" ++s id ++s "/logs") = Logs id.
Proof.
  intros Hid. unfold parse_route.
  pose proof (sandbox_path id ["logs"%string] Hid ltac:(by repeat constructor)) as Hs. cbn [join] in Hs. by rewrite Hs.
Qed.

Lemma route_expose id : segment_ok id = true -> parse_route "POST" ("/v1/sandboxes/" ++s id ++s "/expose") = Expose id.
Proof.
  intros Hid. unfold parse_route.
  pose proof (sandbox_path id ["expose"%string] Hid ltac:(by repeat constructor)) as Hs. cbn [join] in Hs. by rewrite Hs.
Qed.

Lemma dec_segment n : 0 <= n -> segment_ok (dec n) = true.
Proof.
  intros Hn. unfold segment_ok. rewrite !dec_no_char by done. rewrite !andb_true_r. apply negb_true_iff, String.eqb_neq.
  intros E. pose proof (dec_nonempty n) as Hd. rewrite E in Hd. simpl in Hd. lia.
Qed.

Lemma route_unexpose id gp : segment_ok id = true -> 0 <= gp < 2 ^ 32 ->
  parse_route "DELETE" ("/v1/sandboxes/" ++s id ++s "/expose/" ++s dec gp) = Unexpose id gp.
Proof.
  intros Hid Hg. unfold parse_route.
  assert (segments ("/v1/sandboxes/" ++s id ++s "/expose/" ++s dec gp) = ["v1"; "sandboxes"; id; "expose"; dec gp]%string) as ->.
  { apply (sandbox_path id ["expose"%string; dec gp] Hid). constructor; [done|]. constructor; [apply dec_segment; lia|done]. }
  cbn. by rewrite parse_uint_dec by lia.
Qed.

Section Commands.
Context `{CliJson} {W : Type} `{CliWorld W}.

(** A computation makes these requests and prints nothing. *)
Lemma http_sends addr m p body ctype (c : Cli W) :
  let '(r, c') := http addr m p body ctype c in
  cl_sent c' = cl_sent c ++ [(m, p)] /\ cl_out c' = cl_out c /\ cl_err c' = cl_err c.
Proof. unfold http. by destruct (talk addr _ (cl_world c)). Qed.

Lemma exec_sends addr id cmdv (c : Cli W) :
  let '(r, c') := exec_once addr id cmdv c in
  cl_sent c' = cl_sent c ++ [("POST", "/v1/sandboxes/" ++s id ++s "/exec")]%string /\
  cl_out c' = cl_out c /\ cl_err c' = cl_err c.
Proof.
  unfold exec_once. unfold mbind. set (body := Some _).
  pose proof (http_sends addr "POST" ("/v1/sandboxes/" ++s id ++s "/exec") body "application/json" c) as Hs.
  destruct (http addr "POST" _ body "application/json" c) as [[[code resp]|e] c']; [|done].
  destruct (negb (code =? 200)); [done|]. by destruct (from_slice resp).
Qed.

(** C18: what is run is burnt.  Whatever the arguments, the network and the command do,
    [sandlocker run] is one of three runs.  Without a template or a command it makes no
    request and fails.  When the creation is not answered, is answered with another
    status than 201, or with a 201 that names no sandbox, that was its only request and
    it fails.  Otherwise, with the sandbox the node answered, it makes two requests more:
    it executes the command in this sandbox and then, also when the execution failed,
    destroys it; on the node these are the routes of this sandbox.  What is printed and
    returned is the output and the exit code of that command, and nothing is printed
    otherwise. *)
Theorem run_burns (opts : Opts) (sub : list string) (c : Cli W) :
  let '(head, cmdv) := split_double_dash sub in
  let '(ttl, head1) := take_flag "--ttl" head in
  let '(idle, head2) := take_flag "--idle" head1 in
  let '(r, c') := cmd_run opts sub c in
  ((head2 = [] \/ cmdv = []) /\ c' = c /\ exists e, r = Err e) \/
  exists template rest created c1, head2 = template :: rest /\ cmdv <> [] /\
    http (o_addr opts) "POST" "/v1/sandboxes" (Some (build_create_body template ttl idle)) "application/json" c = (created, c1) /\
    ((c' = c1 /\ cl_sent c' = cl_sent c ++ [("POST", "/v1/sandboxes")]%string /\ cl_out c' = cl_out c /\ cl_err c' = cl_err c /\
      (exists e, r = Err e) /\
      match created with Err _ => True | Ok (code, resp) => code <> 201 \/ json_str resp "id" = None end) \/
     (exists resp id, created = Ok (201, resp) /\ json_str resp "id" = Some id /\
      cl_sent c' = cl_sent c ++ [("POST", "/v1/sandboxes"); ("POST", "/v1/sandboxes/" ++s id ++s "/exec"); ("DELETE", "/v1/sandboxes/" ++s id)]%string /\
      (segment_ok id = true ->
       routes [("POST", "/v1/sandboxes"); ("POST", "/v1/sandboxes/" ++s id ++s "/exec"); ("DELETE", "/v1/sandboxes/" ++s id)]%string =
         [CreateSandbox; ExecRoute id; DeleteSandbox id]) /\
      match (exec_once (o_addr opts) id cmdv c1).1 with
      | Ok (exit, out, err) => r = Ok exit /\ cl_out c' = cl_out c ++s out /\ cl_err c' = cl_err c ++s err
      | Err e => r = Err e /\ cl_out c' = cl_out c /\ cl_err c' = cl_err c
      end)).
Proof.
  unfold cmd_run. destruct (split_double_dash sub) as [head cmdv].
  destruct (take_flag "--ttl" head) as [ttl head1]. destruct (take_flag "--idle" head1) as [idle head2].
  destruct head2 as [|template rest]; cbn [List.hd_error lift_opt]; unfold mbind at 1; cbn [mret mfail]; [left; eauto|].
  destruct cmdv as [|c0 cmdv]; [left; unfold mfail; eauto|]. set (body := build_create_body _ _ _). unfold mbind at 1.
  pose proof (http_sends (o_addr opts) "POST" "/v1/sandboxes" (Some body) "application/json" c) as Hc.
  destruct (http (o_addr opts) "POST" "/v1/sandboxes" (Some body) "application/json" c) as [[[code resp]|e] c1] eqn:Ehttp;
    destruct Hc as (Hs1 & Ho1 & He1).
  2: { right. exists template, rest, (Err e), c1. do 3 (split; [done|]). left. eauto 8. }
  destruct (Z.eqb_spec code 201) as [->|]; cbn [negb].
  2: { right. exists template, rest, (Ok (code, resp)), c1. do 3 (split; [done|]). left. unfold mfail. eauto 8. }
  destruct (json_str resp "id") as [id|] eqn:Eid; cbn [lift_opt]; unfold mbind at 1; cbn [mret mfail].
  2: { right. exists template, rest, (Ok (201, resp)), c1. do 3 (split; [done|]). left. eauto 8. }
  unfold mbind at 1, mtry at 1. pose proof (exec_sends (o_addr opts) id (c0 :: cmdv) c1) as Hx.
  destruct (exec_once (o_addr opts) id (c0 :: cmdv) c1) as [rx c2] eqn:Ex. destruct Hx as (Hs2 & Ho2 & He2).
  unfold mbind at 1, mtry at 1.
  pose proof (http_sends (o_addr opts) "DELETE" ("/v1/sandboxes/" ++s id) None "application/json" c2) as Hd.
  destruct (http (o_addr opts) "DELETE" _ None "application/json" c2) as [rd c3]. destruct Hd as (Hs3 & Ho3 & He3).
  assert (cl_sent c3 = cl_sent c ++ [("POST", "/v1/sandboxes"); ("POST", "/v1/sandboxes/" ++s id ++s "/exec"); ("DELETE", "/v1/sandboxes/" ++s id)]%string) as Hs.
  { by rewrite Hs3, Hs2, Hs1, <- !app_assoc. }
  destruct rx as [[[exit out] err]|e]; right; exists template, rest, (Ok (201, resp)), c1; do 3 (split; [done|]); right; exists resp, id;
    rewrite Ex; cbn [fst print eprint mbind mret mfail cl_out cl_err cl_sent]; do 2 (split; [done|]); (split; [exact Hs|]);
    (split; [intros Hid; unfold routes; cbn [map fst snd]; by rewrite route_exec, route_delete|]); (split; [done|]);
    cbn; by rewrite Ho3, Ho2, Ho1, He3, He2, He1.
Qed.

(** A command makes no request, or one for this route. *)
Definition routed (R : Route) (m : CM (W := W) Z) : Prop :=
  forall c, let '(r, c') := m c in exists reqs, cl_sent c' = cl_sent c ++ reqs /\ (reqs = [] \/ routes reqs = [R]).

Lemma routed_none R (m : CM (W := W) Z) : (forall c, cl_sent (m c).2 = cl_sent c) -> routed R m.
Proof. intros Hm c. specialize (Hm c). destruct (m c) as [r c']. exists []. rewrite app_nil_r. auto. Qed.

(** What only prints makes no request. *)
Definition silent {A} (m : CM (W := W) A) : Prop := forall c, cl_sent (m c).2 = cl_sent c.

Lemma silent_bind {A B} (m : CM (W := W) A) (f : A -> CM (W := W) B) : silent m -> (forall a, silent (f a)) -> silent (mbind m f).
Proof.
  intros Hm Hf c. specialize (Hm c). unfold mbind. destruct (m c) as [[a|e] c']; [|done]. simpl in Hm. rewrite <- Hm. apply Hf.
Qed.

Lemma silent_for {A} (xs : list A) (body : A -> CM (W := W) unit) : (forall x, silent (body x)) -> silent (mfor xs body).
Proof. intros Hb. induction xs as [|x xs IH]; [by intros c|]. cbn [mfor]. by apply silent_bind. Qed.

Lemma routed_http R addr m p body ctype (k : Z * string -> CM (W := W) Z) :
  parse_route m p = R -> (forall x, silent (k x)) -> routed R (mbind (http addr m p body ctype) k).
Proof.
  intros HR Hk c. pose proof (http_sends addr m p body ctype c) as Hs. unfold mbind.
  destruct (http addr m p body ctype c) as [[x|e] c1]; destruct Hs as (Hs & _).
  - specialize (Hk x c1). destruct (k x c1) as [r c2]. exists [(m, p)]. simpl in Hk. rewrite Hk, Hs.
    split; [done|]. right. unfold routes. cbn. by rewrite HR.
  - exists [(m, p)]. split; [done|]. right. unfold routes. cbn. by rewrite HR.
Qed.

Lemma routed_opt {A} R (o : option A) e (k : A -> CM (W := W) Z) :
  (forall a, o = Some a -> routed R (k a)) -> routed R (mbind (lift_opt o e) k).
Proof.
  intros Hk. destruct o as [a|]; [by apply Hk|]. by apply routed_none.
Qed.

Ltac silently :=
  repeat first [ progress intros | done | apply silent_bind | apply silent_for
               | match goal with |- context [let '_ := ?x in _] => destruct x end
               | match goal with |- context [if ?b then _ else _] => destruct b end
               | match goal with |- context [match ?o with _ => _ end] => destruct o end ].

(** Every sub-command that names a sandbox asks the node for its own route of
    that sandbox, and for nothing else. *)
Theorem commands_routed (opts : Opts) (id : string) (gp : Z) (sub sub' : list string) :
  segment_ok id = true -> id <> "--"%string -> 0 <= gp < 2 ^ 32 ->
  List.hd_error (take_flag "--bind" (take_flag "--host-port" sub).2).2 = Some id ->
  routed ListSandboxes (cmd_ps opts) /\ routed ListTemplates (cmd_snapshot opts sub') /\
  routed (ExecRoute id) (cmd_exec opts (id :: sub')) /\ routed (Logs id) (cmd_logs opts (id :: sub')) /\
  routed (Expose id) (cmd_expose opts sub) /\ routed (Unexpose id gp) (cmd_unexpose opts (id :: dec gp :: sub')).
Proof.
  intros Hid Hdd Hgp Hexp. split; [|split; [|split; [|split; [|split]]]].
  - apply routed_http; [reflexivity|]. intros [code resp]. silently.
  - unfold cmd_snapshot. destruct sub' as [|a sub']; [apply routed_none; silently|].
    destruct (String.eqb a "ls"); [|apply routed_none; silently].
    apply routed_http; [reflexivity|]. intros [code resp]. silently.
  - unfold cmd_exec. cbn [split_double_dash]. rewrite (proj2 (String.eqb_neq _ _) Hdd).
    destruct (split_double_dash sub') as [head cmdv]. apply routed_opt. intros a [= <-].
    destruct cmdv as [|c0 cmdv]; [by apply routed_none|]. intros c. unfold mbind at 1.
    pose proof (exec_sends (o_addr opts) id (c0 :: cmdv) c) as Hx.
    destruct (exec_once (o_addr opts) id (c0 :: cmdv) c) as [[[[exit out] err]|e] c1]; destruct Hx as (Hs & _);
      cbn; eexists; (split; [exact Hs|]); right; unfold routes; cbn [map fst snd]; by rewrite route_exec.
  - unfold cmd_logs. apply routed_opt. intros a [= <-]. apply routed_http; [by apply route_logs|]. intros [code resp]. silently.
  - unfold cmd_expose. destruct (take_flag "--host-port" sub) as [hp a]. cbn [snd] in Hexp.
    destruct (take_flag "--bind" a) as [bind b]. cbn [snd] in Hexp. apply routed_opt. rewrite Hexp. intros x [= <-].
    unfold guest_port. intros c. rewrite mbind_assoc. revert c. apply routed_opt. intros g _. apply routed_opt. intros n _.
    apply routed_http; [by apply route_expose|]. intros [code resp]. silently.
  - unfold cmd_unexpose. apply routed_opt. intros x [= <-]. unfold guest_port. intros c. rewrite mbind_assoc. revert c.
    apply routed_opt. intros g [= <-]. apply routed_opt. intros n Hn. rewrite parse_uint_dec in Hn by lia. injection Hn as <-.
    apply routed_http; [by apply route_unexpose|]. intros [code resp]. silently.
Qed.

(** ** Arguments that have no effect *)

(** [--json] after [ps], and [--addr] after [up], are in the usage text and are
    ignored. *)
Theorem ps_json_ignored usage_text env (c : Cli W) :
  cli_run usage_text env ["ps"; "--json"]%string c = cli_run usage_text env ["ps"]%string c.
Proof. reflexivity. Qed.

Theorem up_addr_ignored usage_text env addr (c : Cli W) :
  negb (existsb (String.eqb addr) ["--db"; "--template-root"; "--run-root"; "--tick-secs"]%string) = true ->
  cli_run usage_text env ["up"; "--addr"; addr]%string c = cli_run usage_text env ["up"]%string c.
Proof.
  cbn [existsb]. rewrite !orb_false_r, !negb_orb, !andb_true_iff, !negb_true_iff. intros (H1' & H2' & H3' & H4').
  unfold cli_run. cbn. unfold cmd_up. cbn [take_flag]. rewrite H1'. cbn. rewrite H2'. cbn. rewrite H3'. cbn. by rewrite H4'.
Qed.

(** A lifetime that is not a number is left out of the request. *)
Theorem bad_ttl_dropped template idle : build_create_body template (Some "5m"%string) idle = build_create_body template None idle.
Proof. reflexivity. Qed.

(** The bounds between arguments are lost. *)
Theorem argument_bounds_lost addr id :
  exec_once (W := W) addr id ["sh"; "-c"; "echo a"]%string = exec_once addr id ["sh"; "-c"; "echo"; "a"]%string.
Proof. reflexivity. Qed.
End Commands.
