(* ===== verification/NodeMain.v ===== *)
(** * The command line of the node (crates/sl-node/src/lib.rs)

    [Config], the reading of the arguments ([parse_args]), the choice of the
    mode and the exit code ([cli_main]), the transport of the data plane that a
    configuration asks for ([gw_tls_opts]) and the configuration of a run inside
    another mode ([clone_paths]).  A configuration is a value for each of its
    fields; the fields are enumerated by their types.  The theorems say which
    arguments are read and what they set, that nothing is switched on unless it
    is asked for, and which mode runs. *)

From Stdlib Require Import ZArith Lia Bool List String Ascii.
From stdpp Require Import base tactics list gmap strings.
From S2P Require Import Prelude RustStr Json Backend.

Open Scope Z_scope.

(** ** The configuration *)

Inductive Boot : Type := ConfigFile | Api | Jailer.

Inductive PathField : Type :=
  | P_kernel | P_rootfs | P_fc_bin | P_jailer_bin | P_workdir | P_gvisor_bin.

Inductive OptField : Type :=
  | O_cmd | O_snap_create | O_snap_load | O_clone_entropy | O_build | O_store | O_orch_reconcile
  | O_orch_bench | O_serve_addr | O_template_root | O_run_root | O_uplink | O_net_live_reconcile | O_oci_pull
  | O_oci_out | O_pool_bench | O_pool_template | O_gvisor_reconcile | O_abi_contract | O_q5_reconcile
  | O_gw_addr | O_gw_reconcile | O_pty_reconcile | O_exec_stream_reconcile | O_net_egress_reconcile
  | O_expose_reconcile | O_etcd | O_gw_node_endpoint | O_gw_url | O_gw_tls_cert | O_gw_tls_key | O_gw_tls_ca
  | O_gw_tls_name | O_exec_bench | O_snap_kms_key | O_snap_kms_init | O_org | O_project | O_scope
  | O_log_sink | O_otlp_endpoint.

Inductive NumField : Type :=
  | N_cycles | N_hold_secs | N_jail_uid | N_jail_gid | N_tick_secs | N_pool_size | N_hot_size | N_gw_pool
  | N_gw_max_streams | N_vcpus | N_mem_mib | N_max_sandboxes | N_max_vcpus | N_max_mem | N_max_storage
  | N_sched_overcommit.

Inductive FlagField : Type :=
  | F_netns | F_json | F_dmthin_reconcile | F_nftfw_reconcile | F_thin | F_serve | F_net_live
  | F_net_gate_reconcile | F_gvisor | F_expose_allow_public | F_store_contract | F_cluster_init
  | F_election_reconcile | F_node_reclaim_reconcile | F_cluster_reconcile | F_gw_cluster_reconcile
  | F_gw_insecure | F_gw_dataplane_reconcile | F_snapcrypt_reconcile | F_require_auth | F_apikey_create
  | F_auth_reconcile | F_quota_set | F_quota_reconcile | F_retention_reconcile | F_sched_reconcile
  | F_otlp_reconcile.

#[global] Instance Boot_eq_dec : EqDecision Boot.
Proof. solve_decision. Defined.
#[global] Instance PathField_eq_dec : EqDecision PathField.
Proof. solve_decision. Defined.
#[global] Instance OptField_eq_dec : EqDecision OptField.
Proof. solve_decision. Defined.
#[global] Instance NumField_eq_dec : EqDecision NumField.
Proof. solve_decision. Defined.
#[global] Instance FlagField_eq_dec : EqDecision FlagField.
Proof. solve_decision. Defined.

Record Config : Type := mkConfig {
  c_boot : Boot;
  c_path : PathField -> string;
  c_opt : OptField -> option string;
  c_num : NumField -> Z;
  c_flag : FlagField -> bool
}.

(** [cfg.field = v] *)
Definition upd {F V : Type} `{EqDecision F} (g : F -> V) (f : F) (v : V) : F -> V :=
  fun x => if decide (x = f) then v else g x.

Definition set_boot (b : Boot) (c : Config) : Config := mkConfig b (c_path c) (c_opt c) (c_num c) (c_flag c).
Definition set_path (f : PathField) (v : string) (c : Config) : Config :=
  mkConfig (c_boot c) (upd (c_path c) f v) (c_opt c) (c_num c) (c_flag c).
Definition set_opt (f : OptField) (v : string) (c : Config) : Config :=
  mkConfig (c_boot c) (c_path c) (upd (c_opt c) f (Some v)) (c_num c) (c_flag c).
Definition set_num (f : NumField) (v : Z) (c : Config) : Config :=
  mkConfig (c_boot c) (c_path c) (c_opt c) (upd (c_num c) f v) (c_flag c).
Definition set_flag (f : FlagField) (v : bool) (c : Config) : Config :=
  mkConfig (c_boot c) (c_path c) (c_opt c) (c_num c) (upd (c_flag c) f v).

Definition u32_max : Z := 2 ^ 32 - 1.

(** The environment of the process: its variables and its user. *)
Record Env : Type := mkEnv { env_var : string -> option string; getuid : Z; getgid : Z }.

Definition env_u32 (e : Env) (key : string) : option Z := v ← env_var e key; parse_uint u32_max v.

Definition default_path (f : PathField) : string :=
  match f with
  | P_kernel => "build/kernel/vmlinux"
  | P_rootfs => "build/rootfs/rootfs.ext4"
  | P_fc_bin => "build/firecracker/firecracker"
  | P_jailer_bin => "build/firecracker/jailer"
  | P_workdir => "build/run"
  | P_gvisor_bin => "runsc"
  end.

Definition default_num (e : Env) (f : NumField) : Z :=
  match f with
  | N_jail_uid => default (getuid e) (env_u32 e "SUDO_UID")
  | N_jail_gid => default (getgid e) (env_u32 e "SUDO_GID")
  | N_tick_secs => 5
  | N_pool_size => 2
  | N_gw_pool => 8
  | N_gw_max_streams => 256
  | N_vcpus => 1
  | N_mem_mib => 128
  | N_sched_overcommit => 1
  | _ => 0
  end.

(** The value [parse_args] starts from. *)
Definition default_config (e : Env) : Config :=
  mkConfig Api default_path (fun _ => None) (default_num e)
           (fun f => match f with F_netns => true | _ => false end).

(** ** The arguments *)

(** What a number that does not read as one does. *)
Inductive Bad : Type := OrExit (msg : string) | OrDefault (v : Z).

Inductive Action : Type :=
| APath (f : PathField)
| AOpt (f : OptField)
| ANum (f : NumField) (max : Z) (bad : Bad)
| ABoot
| AFlag (f : FlagField) (v : bool)
| ANothing.

(** The arms of the [match] of [parse_args]. *)
Definition arms : list (string * Action) :=
  [("--kernel", APath P_kernel);
   ("--rootfs", APath P_rootfs);
   ("--fc", APath P_fc_bin);
   ("--jailer", APath P_jailer_bin);
   ("--workdir", APath P_workdir);
   ("--boot", ABoot);
   ("--uid", ANum N_jail_uid u32_max (OrExit "--uid 需整数"));
   ("--gid", ANum N_jail_gid u32_max (OrExit "--gid 需整数"));
   ("--cmd", AOpt O_cmd);
   ("--snap-create", AOpt O_snap_create);
   ("--snap-load", AOpt O_snap_load);
   ("--clone-entropy-check", AOpt O_clone_entropy);
   ("--dmthin-reconcile", AFlag F_dmthin_reconcile true);
   ("--nftfw-reconcile", AFlag F_nftfw_reconcile true);
   ("--net-gate-reconcile", AFlag F_net_gate_reconcile true);
   ("--net-live-reconcile", AOpt O_net_live_reconcile);
   ("--net-live", AFlag F_net_live true);
   ("--uplink", AOpt O_uplink);
   ("--thin", AFlag F_thin true);
   ("--oci-pull", AOpt O_oci_pull);
   ("--oci-out", AOpt O_oci_out);
   ("--build", AOpt O_build);
   ("--store", AOpt O_store);
   ("--orch-reconcile", AOpt O_orch_reconcile);
   ("--orch-bench", AOpt O_orch_bench);
   ("--pool-bench", AOpt O_pool_bench);
   ("--pool-size", ANum N_pool_size u64_max (OrExit "--pool-size 需整数"));
   ("--pool-template", AOpt O_pool_template);
   ("--hot-size", ANum N_hot_size u64_max (OrExit "--hot-size 需整数"));
   ("--gvisor", AFlag F_gvisor true);
   ("--gvisor-bin", APath P_gvisor_bin);
   ("--gvisor-reconcile", AOpt O_gvisor_reconcile);
   ("--abi-contract", AOpt O_abi_contract);
   ("--q5-reconcile", AOpt O_q5_reconcile);
   ("--gw-addr", AOpt O_gw_addr);
   ("--exec-bench", AOpt O_exec_bench);
   ("--vcpus", ANum N_vcpus u32_max (OrDefault 1));
   ("--mem-mib", ANum N_mem_mib u32_max (OrDefault 128));
   ("--snap-kms-key", AOpt O_snap_kms_key);
   ("--snap-kms-init", AOpt O_snap_kms_init);
   ("--snapcrypt-reconcile", AFlag F_snapcrypt_reconcile true);
   ("--gw", AOpt O_gw_node_endpoint);
   ("--gw-url", AOpt O_gw_url);
   ("--gw-pool", ANum N_gw_pool u64_max (OrDefault 8));
   ("--gw-max-streams", ANum N_gw_max_streams u64_max (OrDefault 256));
   ("--gw-tls-cert", AOpt O_gw_tls_cert);
   ("--gw-tls-key", AOpt O_gw_tls_key);
   ("--gw-tls-ca", AOpt O_gw_tls_ca);
   ("--gw-tls-name", AOpt O_gw_tls_name);
   ("--gw-insecure", AFlag F_gw_insecure true);
   ("--gw-dataplane-reconcile", AFlag F_gw_dataplane_reconcile true);
   ("--gw-reconcile", AOpt O_gw_reconcile);
   ("--pty-reconcile", AOpt O_pty_reconcile);
   ("--exec-stream-reconcile", AOpt O_exec_stream_reconcile);
   ("--net-egress-reconcile", AOpt O_net_egress_reconcile);
   ("--expose-reconcile", AOpt O_expose_reconcile);
   ("--expose-allow-public", AFlag F_expose_allow_public true);
   ("--store-contract", AFlag F_store_contract true);
   ("--etcd", AOpt O_etcd);
   ("--cluster-init", AFlag F_cluster_init true);
   ("--election-reconcile", AFlag F_election_reconcile true);
   ("--node-reclaim-reconcile", AFlag F_node_reclaim_reconcile true);
   ("--cluster-reconcile", AFlag F_cluster_reconcile true);
   ("--gw-cluster-reconcile", AFlag F_gw_cluster_reconcile true);
   ("--require-auth", AFlag F_require_auth true);
   ("--apikey-create", AFlag F_apikey_create true);
   ("--org", AOpt O_org);
   ("--project", AOpt O_project);
   ("--scope", AOpt O_scope);
   ("--auth-reconcile", AFlag F_auth_reconcile true);
   ("--quota-set", AFlag F_quota_set true);
   ("--max-sandboxes", ANum N_max_sandboxes u64_max (OrDefault 0));
   ("--max-vcpus", ANum N_max_vcpus u64_max (OrDefault 0));
   ("--max-mem", ANum N_max_mem u64_max (OrDefault 0));
   ("--max-storage", ANum N_max_storage u64_max (OrDefault 0));
   ("--quota-reconcile", AFlag F_quota_reconcile true);
   ("--retention-reconcile", AFlag F_retention_reconcile true);
   ("--sched-reconcile", AFlag F_sched_reconcile true);
   ("--otlp-reconcile", AFlag F_otlp_reconcile true);
   ("--sched-overcommit", ANum N_sched_overcommit u32_max (OrExit "--sched-overcommit 需正整数"));
   ("--log-sink", AOpt O_log_sink);
   ("--otlp-endpoint", AOpt O_otlp_endpoint);
   ("--serve", AFlag F_serve true);
   ("--addr", AOpt O_serve_addr);
   ("--tick-secs", ANum N_tick_secs u64_max (OrExit "--tick-secs 需整数"));
   ("--template-root", AOpt O_template_root);
   ("--run-root", AOpt O_run_root);
   ("--no-netns", AFlag F_netns false);
   ("--json", AFlag F_json true);
   ("--hold-secs", ANum N_hold_secs u64_max (OrExit "--hold-secs 需整数"));
   ("--cycles", ANum N_cycles u64_max (OrExit "--cycles 需整数"));
   ("run", ANothing)]%string.

Definition arm (a : string) : option Action :=
  snd <$> List.find (fun p => String.eqb (fst p) a) arms.

(** The configuration with an argument's value, or the line that is printed
    before the process exits. *)
Definition apply_value (act : Action) (v : string) (c : Config) : result Config string :=
  match act with
  | APath f => Ok (set_path f v c)
  | AOpt f => Ok (set_opt f v c)
  | ANum f max bad =>
      match parse_uint max v, bad with
      | Some n, _ => Ok (set_num f n c)
      | None, OrExit msg => Err msg
      | None, OrDefault d => Ok (set_num f d c)
      end
  | ABoot =>
      if String.eqb v "api" then Ok (set_boot Api c)
      else if String.eqb v "config-file" then Ok (set_boot ConfigFile c)
      else if String.eqb v "jailer" then Ok (set_boot Jailer c)
      else Err ("--boot 取值 api|config-file|jailer，得到 " ++s debug_str v)
  | AFlag f b => Ok (set_flag f b c)
  | ANothing => Ok c
  end.

Definition takes_value (act : Action) : bool :=
  match act with AFlag _ _ | ANothing => false | _ => true end.

Definition USAGE : string :=
  "用法: sl-node [run] [--boot api|config-file|jailer] [--kernel P] [--rootfs P] [--fc P] [--jailer P] [--workdir P] [--cmd " ++s quoted "命令" ++s
  "] [--snap-create DIR] [--snap-load DIR] [--clone-entropy-check DIR] [--dmthin-reconcile] [--nftfw-reconcile] [--net-gate-reconcile] [--net-live-reconcile 模板DIR] [--net-live] [--uplink IFACE] [--thin] [--oci-pull ref|archive] [--oci-out PATH] [--build sandlocker.toml] [--store DIR] [--orch-reconcile 模板DIR] [--orch-bench 模板DIR] [--pool-bench 模板DIR] [--gvisor-reconcile 模板DIR] [--abi-contract 模板DIR] [--q5-reconcile 模板DIR] [--gw-reconcile 模板DIR] [--pty-reconcile 模板DIR] [--exec-stream-reconcile 模板DIR] [--net-egress-reconcile 模板DIR] [--serve] [--gw-addr host:port] [--addr host:port] [--tick-secs N] [--template-root DIR] [--run-root DIR] [--pool-size N] [--pool-template NAME] [--hot-size N] [--gvisor] [--gvisor-bin PATH] [--no-netns] [--uid N] [--gid N] [--cycles N] [--json] [--hold-secs N]".

(** The process goes on with a configuration, or prints and exits with 2. *)
Inductive Parsed : Type := Continue (c : Config) | Exit (lines : list string).

Fixpoint parse_loop (args : list string) (c : Config) : Parsed :=
  match args with
  | [] => Continue c
  | a :: rest =>
      match arm a with
      | None => Exit ["未知参数: " ++s a; USAGE]
      | Some act =>
          if takes_value act then
            match rest with
            | [] => Exit ["缺少 " ++s a ++s " 的参数值"]
            | v :: rest' =>
                match apply_value act v c with
                | Ok c' => parse_loop rest' c'
                | Err msg => Exit [msg]
                end
            end
          else match apply_value act "" c with
               | Ok c' => parse_loop rest c'
               | Err msg => Exit [msg]
               end
      end
  end.

(** The jailer runs without the network. *)
Definition settle (c : Config) : Config :=
  if decide (c_boot c = Jailer) then (if c_flag c F_netns then set_flag F_netns false c else c) else c.

Definition parse_args (e : Env) (args : list string) : Parsed :=
  match parse_loop args (default_config e) with
  | Continue c => Continue (settle c)
  | Exit lines => Exit lines
  end.

(** The configuration of a run inside [--cycles] and [--thin]. *)
Definition clone_paths (c : Config) : Config :=
  mkConfig (c_boot c)
    (fun f => match f with P_gvisor_bin => "runsc"%string | _ => c_path c f end)
    (fun f => match f with O_uplink => c_opt c O_uplink | _ => None end)
    (fun f => match f with
              | N_jail_uid | N_jail_gid => c_num c f
              | N_tick_secs => 5 | N_pool_size => 2 | N_gw_pool => 8 | N_gw_max_streams => 256
              | N_vcpus => 1 | N_mem_mib => 128 | N_sched_overcommit => 1
              | _ => 0
              end)
    (fun f => match f with F_netns | F_net_live => c_flag c f | _ => false end).

(** ** The transport of the data plane *)

Record TlsOpts : Type := mkTls { tls_cert : string; tls_key : string; tls_ca : string; server_name : string }.

Definition gw_tls_opts (c : Config) : result (option TlsOpts) string :=
  match c_opt c O_gw_tls_cert, c_opt c O_gw_tls_key, c_opt c O_gw_tls_ca with
  | Some cert, Some key, Some ca =>
      Ok (Some (mkTls cert key ca (default "sandlocker-gw"%string (c_opt c O_gw_tls_name))))
  | None, None, None =>
      if c_flag c F_gw_insecure then Ok None
      else Err "数据面传输须给全 --gw-tls-cert/--gw-tls-key/--gw-tls-ca（集群内 mTLS），或显式 --gw-insecure 走明文（仅限本机对账/开发）"%string
  | _, _, _ => Err "数据面传输须给全 --gw-tls-cert/--gw-tls-key/--gw-tls-ca（集群内 mTLS），或显式 --gw-insecure 走明文（仅限本机对账/开发）"%string
  end.

(** ** The modes *)

(** What selects a mode: a flag, an option with its value, a number of cycles;
    [TRun] is the mode without one. *)
Inductive Trigger : Type :=
| TFlag (f : FlagField)
| TOpt (f : OptField)
| TCycles
| TRun.

(** The mode's argument when the configuration selects it. *)
Definition selects (c : Config) (t : Trigger) : option string :=
  match t with
  | TFlag f => if c_flag c f then Some ""%string else None
  | TOpt f => c_opt c f
  | TCycles => if 0 <? c_num c N_cycles then Some ""%string else None
  | TRun => Some ""%string
  end.

(** What the process prints after a mode: on success, before the error, and
    after it. *)
Record Row : Type := mkRow {
  on : Trigger;
  ok_lines : Config -> string -> list string;
  fail_line : string;
  hint_lines : Config -> string -> list string
}.

Definition quiet (c : Config) (arg : string) : list string := [].
Definition says (line : string) (c : Config) (arg : string) : list string := [line].
Definition unless_json (line : string) (c : Config) (arg : string) : list string :=
  if c_flag c F_json then [] else [line].

(** The checks and benchmarks of the node's parts, in the order of [cli_main]. *)
Definition gate_rows : list Row :=
  [mkRow (TFlag F_nftfw_reconcile) quiet "[nftfw] Q7 对账 FAIL: " quiet;
   mkRow (TFlag F_net_gate_reconcile) quiet "[netlive] net_gate 对账 FAIL: " quiet;
   mkRow (TOpt O_net_live_reconcile) quiet "[netlive] net_live 真 VM 对账 FAIL: " quiet;
   mkRow (TOpt O_orch_reconcile) quiet "[orch] Q9 对账 FAIL: " quiet;
   mkRow (TOpt O_orch_bench) quiet "[orch] Q2 bench FAIL: " quiet;
   mkRow (TOpt O_exec_bench) quiet "[exec-bench] FAIL: " quiet;
   mkRow (TOpt O_pool_bench) quiet "[pool] M2-Q2 pool-bench FAIL: " quiet;
   mkRow (TOpt O_gvisor_reconcile) quiet "[gvisor] M2-Q4 gvisor-reconcile FAIL: " quiet;
   mkRow (TOpt O_abi_contract) quiet "[abi] 硬出口② abi-contract FAIL: " quiet;
   mkRow (TOpt O_q5_reconcile) quiet "[q5] M2-Q5 q5-reconcile FAIL: " quiet;
   mkRow (TOpt O_gw_reconcile) quiet "[gw] M2-Q6 gw-reconcile FAIL: " quiet;
   mkRow (TOpt O_pty_reconcile) quiet "[pty] M2-Q7 pty-reconcile FAIL: " quiet;
   mkRow (TOpt O_exec_stream_reconcile) quiet "[exec-stream] exec-stream-reconcile FAIL: " quiet;
   mkRow (TOpt O_net_egress_reconcile) quiet "[egress] net-egress-reconcile FAIL: " quiet;
   mkRow (TOpt O_expose_reconcile) quiet "[expose] expose-reconcile FAIL: " quiet]%string.

(** The modes on the metadata store and on keys. *)
Definition store_rows : list Row :=
  [mkRow (TFlag F_store_contract) (says "[store] M3-Q1 store-contract PASS") "[store] M3-Q1 store-contract FAIL: " quiet;
   mkRow (TFlag F_election_reconcile) (says "[election] M3-Q2 election-reconcile PASS") "[election] M3-Q2 election-reconcile FAIL: " quiet;
   mkRow (TFlag F_apikey_create) quiet "[apikey] 创建失败: " quiet;
   mkRow (TFlag F_quota_set) quiet "[quota] 设置失败: " quiet;
   mkRow (TFlag F_quota_reconcile) (says "[quota] M3-Q4 quota-reconcile PASS") "[quota] M3-Q4 quota-reconcile FAIL: " quiet;
   mkRow (TFlag F_retention_reconcile) (says "[retention] M3-Q7 retention-reconcile PASS") "[retention] M3-Q7 retention-reconcile FAIL: " quiet;
   mkRow (TFlag F_otlp_reconcile) (says "[otlp] M3-Q5 otlp-reconcile PASS") "[otlp] M3-Q5 otlp-reconcile FAIL: " quiet;
   mkRow (TFlag F_sched_reconcile) (says "[sched] M3-Q10 sched-reconcile PASS") "[sched] M3-Q10 sched-reconcile FAIL: " quiet;
   mkRow (TFlag F_auth_reconcile) (says "[auth] M3-Q4 auth-reconcile PASS") "[auth] M3-Q4 auth-reconcile FAIL: " quiet;
   mkRow (TOpt O_snap_kms_init) (fun _ p => ["[snapcrypt] 根密钥已生成: " ++s p ++s "（0600；丢失即所有快照不可解，请备份）"]) "[snapcrypt] 生成根密钥失败: " quiet;
   mkRow (TFlag F_snapcrypt_reconcile) (says "[snapcrypt] M3 W9 snapcrypt-reconcile PASS") "[snapcrypt] M3 W9 snapcrypt-reconcile FAIL: " quiet;
   mkRow (TFlag F_gw_dataplane_reconcile) (says "[gw-dataplane] M3 W5 余项 gw-dataplane-reconcile PASS") "[gw-dataplane] M3 W5 余项 gw-dataplane-reconcile FAIL: " quiet;
   mkRow (TFlag F_gw_cluster_reconcile) (says "[gw-cluster] M3 W5 gw-cluster-reconcile PASS") "[gw-cluster] M3 W5 gw-cluster-reconcile FAIL: " quiet;
   mkRow (TFlag F_cluster_reconcile) (says "[cluster] M3 W4 cluster-reconcile PASS") "[cluster] M3 W4 cluster-reconcile FAIL: " quiet;
   mkRow (TFlag F_node_reclaim_reconcile) (says "[reclaim] M3-Q2 node-reclaim-reconcile PASS") "[reclaim] M3-Q2 node-reclaim-reconcile FAIL: " quiet;
   mkRow (TFlag F_cluster_init) quiet "[cluster-init] FAIL: " quiet]%string.

(** The daemon, storage, builds and snapshots, and the single run. *)
Definition node_rows : list Row :=
  [mkRow (TFlag F_serve) quiet "[sandlocker] 守护退出: " quiet;
   mkRow (TFlag F_dmthin_reconcile) quiet "[dmthin] Q5 对账 FAIL: " quiet;
   mkRow (TCycles) (fun c _ => ["[sl-node] W4 对账 PASS：" ++s dec (c_num c N_cycles) ++s " 轮 create/destroy 后无残留（进程/tap/socket）"]) "[sl-node] W4 对账 FAIL: " quiet;
   mkRow (TFlag F_thin) (unless_json "[sl-node] W3 thin PASS：FC 挂 dm-thin CoW 盘为 rootfs，exec 链路正常，销毁无残留") "[sl-node] W3 thin FAIL: " quiet;
   mkRow (TOpt O_build) quiet "[sl-node] 模板构建 FAIL: " quiet;
   mkRow (TOpt O_oci_pull) quiet "[oci] --oci-pull FAIL: " quiet;
   mkRow (TOpt O_snap_create) quiet "[sl-node] 快照 create FAIL: " (fun _ dir => ["[sl-node] 排查：查看 " ++s dir ++s "/console.log"]);
   mkRow (TOpt O_snap_load) quiet "[sl-node] 快照 load FAIL: " (fun _ dir => ["[sl-node] 排查：查看 " ++s dir ++s "/console.load.log"]);
   mkRow (TOpt O_clone_entropy) quiet "[sl-node] 克隆熵回归 FAIL: " (fun _ dir => ["[sl-node] 排查：查看 " ++s dir ++s "/console.load.log"]);
   mkRow TRun (unless_json "[sl-node] W4 demo PASS：沙箱有独立 netns/eth0（出口天然为零），exec 链路正常") "[sl-node] W4 demo FAIL: "
     (fun c _ => ["[sl-node] 排查：查看 " ++s c_path c P_workdir ++s "/console.log（guest 串口 + sl-envd 日志）"])]%string.

Definition rows : list Row := gate_rows ++ store_rows ++ node_rows.

Fixpoint select (c : Config) (rs : list Row) : option (Row * string) :=
  match rs with
  | [] => None
  | r :: rs' => match selects c (on r) with Some arg => Some (r, arg) | None => select c rs' end
  end.

(** How the process ended: its exit code, what it printed, and the mode it ran. *)
Record Ended : Type := mkEnded {
  code : Z;
  stdout : list string;
  stderr : list string;
  ran : option (Trigger * string)
}.

Definition position (a : string) (l : list string) : option nat := fst <$> list_find (fun x => x = a) l.

Section Main.
(** How each mode ends on a configuration, and the exit code of the probe. *)
Context (drive : Trigger -> string -> Config -> result unit string) (probe : string -> Z).

Definition dispatch (c : Config) : Ended :=
  match select c rows with
  | None => mkEnded 0 [] [] None
  | Some (r, arg) =>
      match drive (on r) arg c with
      | Ok _ => mkEnded 0 (ok_lines r c arg) [] (Some (on r, arg))
      | Err e => mkEnded 1 [] ((fail_line r ++s e) :: hint_lines r c arg) (Some (on r, arg))
      end
  end.

Definition cli_main (e : Env) (raw : list string) : Ended :=
  match position "--fw-probe" raw with
  | Some i => mkEnded (probe (default ""%string (raw !! (i + 1)%nat))) [] [] None
  | None =>
      match parse_args e (List.tl raw) with
      | Exit lines => mkEnded 2 [] lines None
      | Continue c => dispatch c
      end
  end.
End Main.

(** ** What the arguments mean *)

(** A setting: an argument with its value, if it takes one. *)
Definition Setting : Type := string * option string.
Definition words (s : Setting) : list string := fst s :: option_list (snd s).

Definition accepts (act : Action) (v : string) : bool :=
  match act with
  | ANum _ max (OrExit _) => bool_decide (is_Some (parse_uint max v))
  | ABoot => String.eqb v "api" || String.eqb v "config-file" || String.eqb v "jailer"
  | _ => true
  end.

Definition valid (s : Setting) : bool :=
  match arm (fst s), snd s with
  | Some act, Some v => takes_value act && accepts act v
  | Some act, None => negb (takes_value act)
  | None, _ => false
  end.

(** What a setting gives to a field. *)
Definition path_given (f : PathField) (s : Setting) : option string :=
  match arm (fst s) with Some (APath g) => if decide (g = f) then snd s else None | _ => None end.
Definition opt_given (f : OptField) (s : Setting) : option string :=
  match arm (fst s) with Some (AOpt g) => if decide (g = f) then snd s else None | _ => None end.
Definition num_given (f : NumField) (s : Setting) : option Z :=
  match arm (fst s) with
  | Some (ANum g max bad) =>
      if decide (g = f) then
        v ← snd s;
        match parse_uint max v, bad with Some n, _ => Some n | None, OrDefault d => Some d | None, OrExit _ => None end
      else None
  | _ => None
  end.
Definition flag_given (f : FlagField) (s : Setting) : option bool :=
  match arm (fst s) with Some (AFlag g b) => if decide (g = f) then Some b else None | _ => None end.
Definition boot_given (s : Setting) : option Boot :=
  match arm (fst s) with
  | Some ABoot =>
      v ← snd s;
      if String.eqb v "api" then Some Api else if String.eqb v "config-file" then Some ConfigFile
      else if String.eqb v "jailer" then Some Jailer else None
  | _ => None
  end.

(** The last setting of a field counts; a field without one keeps its default. *)
Definition given {V} (g : Setting -> option V) (ss : list Setting) (d : V) : V := default d (last (omap g ss)).

Record means (e : Env) (ss : list Setting) (c : Config) : Prop := {
  m_boot : c_boot c = given boot_given ss Api;
  m_path : forall f, c_path c f = given (path_given f) ss (default_path f);
  m_opt : forall f, c_opt c f = last (omap (opt_given f) ss);
  m_num : forall f, c_num c f = given (num_given f) ss (default_num e f);
  m_flag : forall f, f <> F_netns -> c_flag c f = given (flag_given f) ss false;
  m_netns : c_flag c F_netns = given (flag_given F_netns) ss true && negb (bool_decide (c_boot c = Jailer))
}.

Definition effect (c : Config) (s : Setting) : Config :=
  match arm (fst s) with
  | Some act => match apply_value act (default ""%string (snd s)) c with Ok c' => c' | Err _ => c end
  | None => c
  end.

Lemma accepts_ok act v c : accepts act v = true -> exists c', apply_value act v c = Ok c'.
Proof.
  destruct act as [f|f|f max [msg|d]| |f b|]; cbn; intros Ha; eauto.
  - apply bool_decide_eq_true in Ha as [n ->]. eauto.
  - destruct (parse_uint max v); eauto.
  - destruct (String.eqb v "api"), (String.eqb v "config-file"), (String.eqb v "jailer"); cbn in *; eauto; done.
Qed.

Lemma applied_accepts act v c c' : apply_value act v c = Ok c' -> accepts act v = true.
Proof.
  destruct act as [f|f|f max [msg|d]| |f b|]; cbn; try done.
  - destruct (parse_uint max v); [|done]. intros _. apply bool_decide_eq_true_2. eauto.
  - by destruct (String.eqb v "api"), (String.eqb v "config-file"), (String.eqb v "jailer").
Qed.

(** Valid settings are read one after the other. *)
Lemma parse_words ss c :
  Forall (fun s => valid s = true) ss -> parse_loop (flat_map words ss) c = Continue (fold_left effect ss c).
Proof.
  intros Hv. revert c. induction Hv as [|[a o] ss Hs Hss IH]; intros c; [done|]. cbn [flat_map fold_left].
  unfold valid in Hs. unfold effect at 2. cbn [fst snd words] in *. destruct (arm a) as [act|] eqn:Ea; [|by destruct o].
  destruct o as [v|].
  - change (words (a, Some v)) with [a; v]. cbn [app parse_loop]. rewrite Ea.
    apply andb_true_iff in Hs as [Ht Hacc]. rewrite Ht. destruct (accepts_ok act v c Hacc) as [c' E].
    cbn [default from_option id]. rewrite E. apply IH.
  - change (words (a, None)) with [a]. cbn [app parse_loop]. rewrite Ea, (proj1 (negb_true_iff _) Hs).
    destruct act; try done; cbn; apply IH.
Qed.

(** Nothing else is read. *)
Lemma parse_only_words n args c c' :
  (length args <= n)%nat -> parse_loop args c = Continue c' ->
  exists ss, Forall (fun s => valid s = true) ss /\ args = flat_map words ss /\ c' = fold_left effect ss c.
Proof.
  revert args c. induction n as [|n IH]; intros [|a rest] c Hn Hp; cbn in Hn; try lia.
  1,2: injection Hp as <-; by exists [].
  cbn [parse_loop] in Hp. destruct (arm a) as [act|] eqn:Ea; [|done]. destruct (takes_value act) eqn:Et.
  - destruct rest as [|v rest]; [done|]. destruct (apply_value act v c) as [c1|] eqn:Ev; [|done]. cbn in Hn.
    destruct (IH rest c1 ltac:(lia) Hp) as (ss & Hv & -> & ->). exists ((a, Some v) :: ss). split; [constructor; [|done]|].
    + unfold valid. cbn [fst snd]. by rewrite Ea, Et, (applied_accepts _ _ _ _ Ev).
    + split; [done|]. cbn [fold_left]. f_equal. unfold effect. cbn [fst snd default from_option id]. by rewrite Ea, Ev.
  - destruct (apply_value act "" c) as [c1|] eqn:Ev; [|done].
    destruct (IH rest c1 ltac:(lia) Hp) as (ss & Hv & -> & ->). exists ((a, None) :: ss). split; [constructor; [|done]|].
    + unfold valid. cbn [fst snd]. by rewrite Ea, Et.
    + split; [done|]. cbn [fold_left]. f_equal. unfold effect. cbn [fst snd default from_option id]. by rewrite Ea, Ev.
Qed.

(** ** Each field *)

Lemma given_snoc {V} (g : Setting -> option V) ss s d :
  given g (ss ++ [s]) d = default (given g ss d) (g s).
Proof.
  unfold given. rewrite omap_app. cbn. destruct (g s) as [v|]; cbn; [by rewrite last_snoc|by rewrite app_nil_r].
Qed.

Lemma last_omap_snoc {V} (g : Setting -> option V) ss s :
  last (omap g (ss ++ [s])) = match g s with Some v => Some v | None => last (omap g ss) end.
Proof. rewrite omap_app. cbn. destruct (g s) as [v|]; cbn; [by rewrite last_snoc|by rewrite app_nil_r]. Qed.

(** One setting changes the fields it gives a value to, and no other. *)
Lemma effect_fields c s :
  valid s = true ->
  c_boot (effect c s) = default (c_boot c) (boot_given s) /\
  (forall f, c_path (effect c s) f = default (c_path c f) (path_given f s)) /\
  (forall f, c_opt (effect c s) f = match opt_given f s with Some v => Some v | None => c_opt c f end) /\
  (forall f, c_num (effect c s) f = default (c_num c f) (num_given f s)) /\
  (forall f, c_flag (effect c s) f = default (c_flag c f) (flag_given f s)).
Proof.
  destruct s as [a o]. unfold valid, effect, boot_given, path_given, opt_given, num_given, flag_given. cbn [fst snd].
  destruct (arm a) as [act|]; [|by destruct o]. destruct o as [v|]; intros Hv.
  - apply andb_true_iff in Hv as [Ht Hv]. destruct act as [g|g|g max [msg|d]| |g b|]; try done; cbn in *.
    1,2: repeat split; intros f; unfold upd; repeat case_decide; by subst.
    + apply bool_decide_eq_true in Hv as [n ->]. cbn. repeat split; intros f; unfold upd; repeat case_decide; by subst.
    + destruct (parse_uint max v); cbn; repeat split; intros f; unfold upd; repeat case_decide; by subst.
    + by destruct (String.eqb v "api"), (String.eqb v "config-file"), (String.eqb v "jailer").
  - destruct act as [g|g|g max bad| |g b|]; try done; cbn; repeat split; intros f; unfold upd; repeat case_decide; by subst.
Qed.

Lemma fold_fields e ss :
  Forall (fun s => valid s = true) ss ->
  let c := fold_left effect ss (default_config e) in
  c_boot c = given boot_given ss Api /\
  (forall f, c_path c f = given (path_given f) ss (default_path f)) /\
  (forall f, c_opt c f = last (omap (opt_given f) ss)) /\
  (forall f, c_num c f = given (num_given f) ss (default_num e f)) /\
  (forall f, c_flag c f = given (flag_given f) ss (match f with F_netns => true | _ => false end)).
Proof.
  induction ss as [|s ss IH] using rev_ind; intros Hv; [done|]. apply Forall_app in Hv as [Hv Hs].
  apply Forall_cons in Hs as [Hs _]. cbv zeta in *. rewrite fold_left_app. cbn [fold_left].
  destruct (IH Hv) as (I1 & I2 & I3 & I4 & I5). destruct (effect_fields (fold_left effect ss (default_config e)) s Hs) as (E1 & E2 & E3 & E4 & E5).
  split; [by rewrite E1, I1, given_snoc|]. split; [intros f; by rewrite E2, I2, given_snoc|].
  split; [intros f; rewrite E3, I3, last_omap_snoc; by destruct (opt_given f s)|].
  split; intros f; [by rewrite E4, I4, given_snoc|by rewrite E5, I5, given_snoc].
Qed.

Lemma settle_means e ss : Forall (fun s => valid s = true) ss -> means e ss (settle (fold_left effect ss (default_config e))).
Proof.
  intros Hv. destruct (fold_fields e ss Hv) as (F1 & F2 & F3 & F4 & F5). cbv zeta in *.
  set (c := fold_left effect ss (default_config e)) in *. unfold settle.
  destruct (decide (c_boot c = Jailer)) as [Hj|Hj]; [destruct (c_flag c F_netns) eqn:En|]; split; cbn; try done.
  - intros f Hf. unfold upd. rewrite decide_False by done. rewrite F5. by destruct f.
  - by rewrite Hj, andb_false_r.
  - intros f Hf. rewrite F5. by destruct f.
  - rewrite <- (F5 F_netns), En. by rewrite Hj.
  - intros f Hf. rewrite F5. by destruct f.
  - rewrite (F5 F_netns), bool_decide_eq_false_2 by done. by rewrite andb_true_r.
Qed.

(** C25: [parse_args] reads the arguments of the node.  Every list of settings,
    written out word by word, is read, and the configuration has for each field
    the last value given to it, or its default (the network is off under the
    jailer in any case); and a configuration comes only from a list of
    settings, so that every other argument list ends the process. *)
Theorem arguments_read (e : Env) :
  (forall ss, Forall (fun s => valid s = true) ss ->
     exists c, parse_args e (flat_map words ss) = Continue c /\ means e ss c) /\
  (forall args c, parse_args e args = Continue c ->
     exists ss, Forall (fun s => valid s = true) ss /\ args = flat_map words ss /\ means e ss c).
Proof.
  unfold parse_args. split.
  - intros ss Hv. rewrite parse_words by done. eexists. split; [done|]. by apply settle_means.
  - intros args c Hp. destruct (parse_loop args (default_config e)) as [c0|] eqn:E; [|done]. injection Hp as <-.
    destruct (parse_only_words (length args) args _ _ ltac:(lia) E) as (ss & Hv & -> & ->).
    exists ss. split; [done|]. split; [done|]. by apply settle_means.
Qed.

(** ** Nothing unasked *)

Lemma arm_in a act : arm a = Some act -> In (a, act) arms.
Proof.
  unfold arm. destruct (List.find _ arms) as [[a' act']|] eqn:E; [|done]. cbn. intros [= ->].
  apply find_some in E as [Hin Ha]. apply String.eqb_eq in Ha. cbn in Ha. by subst.
Qed.

Lemma last_in {A} (l : list A) x : last l = Some x -> In x l.
Proof. intros Hl. apply list_elem_of_In. by apply last_Some_elem_of. Qed.

(** A field that does not have its default was set by a setting. *)
Lemma given_by {V} (g : Setting -> option V) ss (d v : V) : given g ss d = v -> d <> v -> exists s, In s ss /\ g s = Some v.
Proof.
  unfold given. destruct (last (omap g ss)) as [x|] eqn:E; cbn; intros Hx Hd; [|done]. subst x.
  apply last_in, list_elem_of_In, list_elem_of_omap in E as (s & Hs & Hg). exists s. by rewrite <- list_elem_of_In.
Qed.

Lemma word_in ss s : In s ss -> In (fst s) (flat_map words ss).
Proof. intros Hs. apply in_flat_map. exists s. split; [done|]. by left. Qed.

(** The word that switches a flag on. *)
Definition flag_word (f : FlagField) : option string :=
  fst <$> List.find (fun p => match snd p with AFlag g true => bool_decide (g = f) | _ => false end) arms.

Lemma flag_given_word f s : flag_given f s = Some true -> flag_word f = Some (fst s).
Proof.
  unfold flag_given. destruct (arm (fst s)) as [[| | | |g b|]|] eqn:E; try done. case_decide as Hg; [|done]. intros [= ->]. subst g.
  apply arm_in in E. generalize (fst s) E. clear. intros a Hin.
  unfold arms in Hin. cbn [In] in Hin.
  repeat destruct Hin as [Hin|Hin]; try (injection Hin as <- <-; reflexivity); try discriminate Hin; destruct Hin.
Qed.

(** ** The transport that was asked for *)








Definition some_env : Env := mkEnv (fun _ => None) 1000 1000.


(** A mode that was selected was asked for by a setting; the last value of its
    option is its argument. *)
Definition asked (ss : list Setting) (t : Trigger) (arg : string) : Prop :=
  match t with
  | TFlag f => exists a o, In (a, o) ss /\ flag_word f = Some a
  | TOpt f => last (omap (opt_given f) ss) = Some arg
  | TCycles => exists a v n, In (a, Some v) ss /\ parse_uint u64_max v = Some n /\ 0 < n
  | TRun => True
  end.

Lemma cycles_given s n : num_given N_cycles s = Some n -> exists a v, s = (a, Some v) /\ parse_uint u64_max v = Some n.
Proof.
  unfold num_given. destruct s as [a o]. cbn [fst snd]. destruct (arm a) as [[| |g max bad| | |]|] eqn:E; try done.
  case_decide as Hg; [|done]. subst g. apply arm_in in E. unfold arms in E. cbn [In] in E.
  destruct o as [v|]; [|done]. intros Hn. exists a, v. split; [done|].
  repeat destruct E as [E|E]; try discriminate E; [|by destruct E]. injection E as <- <- <-. cbn in Hn.
  by destruct (parse_uint u64_max v).
Qed.

Lemma selected_asked e ss c t arg :
  means e ss c -> t <> TFlag F_netns -> selects c t = Some arg -> asked ss t arg.
Proof.
  intros [_ _ Mo Mn Mf _] Hn Hs. destruct t as [f|f| |]; cbn in *; [| | |done].
  - destruct (c_flag c f) eqn:E; [|done]. rewrite Mf in E by (intros ->; done).
    apply given_by in E as ([a o] & Hin & Hg); [|done]. exists a, o. split; [done|]. exact (flag_given_word _ _ Hg).
  - by rewrite <- Mo.
  - destruct (0 <? c_num c N_cycles) eqn:E; [|done]. apply Z.ltb_lt in E. rewrite Mn in E.
    destruct (Z.eq_dec (given (num_given N_cycles) ss (default_num e N_cycles)) 0) as [Hz|Hz]; [rewrite Hz in E; lia|].
    destruct (given_by _ ss _ _ eq_refl (not_eq_sym Hz)) as (s & Hin & Hg).
    destruct (cycles_given _ _ Hg) as (a & v & -> & Hv). by exists a, v, (given (num_given N_cycles) ss (default_num e N_cycles)).
Qed.

Lemma select_on c rs r arg : select c rs = Some (r, arg) -> In r rs /\ selects c (on r) = Some arg.
Proof.
  induction rs as [|r0 rs IH]; [done|]. cbn. destruct (selects c (on r0)) as [a|] eqn:E.
  - intros [= <- <-]. split; [by left|done].
  - intros Hs. destruct (IH Hs) as [Hin Hr]. split; [by right|done].
Qed.

(** No mode runs that was not asked for by a word of the command line, the
    single run apart. *)
Lemma nothing_unasked drive probe (e : Env) (prog : string) (args : list string) t arg :
  ran (cli_main drive probe e (prog :: args)) = Some (t, arg) ->
  exists ss, args = flat_map words ss /\ asked ss t arg.
Proof.
  unfold cli_main. destruct (position _ _); [done|]. cbn [List.tl]. unfold parse_args.
  destruct (parse_loop args (default_config e)) as [c0|ls] eqn:Ep; [|done].
  destruct (parse_only_words (length args) args _ _ ltac:(lia) Ep) as (ss & Hv & Ha & ->). intros Hr. exists ss. split; [done|].
  unfold dispatch in Hr. destruct (select _ rows) as [[r a]|] eqn:Es; [|done].
  apply select_on in Es as [Hin Hsel].
  assert (on r = t /\ a = arg) as [Ht ->].
  { revert Hr. cbv zeta. destruct (drive (on r) a _); cbn; by intros [= -> ->]. }
  subst t. eapply selected_asked; [by apply settle_means| |exact Hsel]. intros Hn.
  assert (Forall (fun r' => on r' <> TFlag F_netns) rows) as Hall by (by repeat constructor).
  by eapply (proj1 (List.Forall_forall _ _) Hall).
Qed.

(** ** Findings *)

(** A limit that does not read as a number is no limit: a typing error in
    [--max-sandboxes] lifts the quota instead of being refused. *)
Lemma typo_lifts_quota :
  match parse_args some_env ["--quota-set"; "--project"; "p"; "--max-sandboxes"; "1O"]%string with
  | Continue c => c_num c N_max_sandboxes = 0 /\ selects c (TFlag F_quota_set) = Some ""%string
  | Exit _ => False
  end.
Proof. vm_compute. by split. Qed.

(** The runs of [--cycles] and [--thin] do not have the size that was asked for. *)
Lemma clone_drops_size (c : Config) : c_num (clone_paths c) N_vcpus = 1 /\ c_num (clone_paths c) N_mem_mib = 128.
Proof. done. Qed.

(** An argument that is missing its value takes the next argument for it. *)
Lemma value_swallows_flag :
  match parse_args some_env ["--serve"; "--etcd"; "--require-auth"]%string with
  | Continue c => c_flag c F_require_auth = false /\ c_opt c O_etcd = Some "--require-auth"%string
  | Exit _ => False
  end.
Proof. vm_compute. by split. Qed.

(** TLS needs three of the four arguments, not all of them. *)
Lemma tls_name_optional :
  match parse_args some_env ["--gw-tls-cert"; "c"; "--gw-tls-key"; "k"; "--gw-tls-ca"; "a"]%string with
  | Continue c => gw_tls_opts c = Ok (Some (mkTls "c" "k" "a" "sandlocker-gw"))
  | Exit _ => False
  end.
Proof. reflexivity. Qed.
