(* ===== verification/GwMain.v ===== *)
(** * The gateway program (crates/sl-node/src/bin/sandlocker-gw.rs and [gw_serve] of dataplane.rs)

    The arguments of sandlocker-gw, what it refuses, and how it starts: the secret it
    shares with the replicas, the certificates, the listener for the nodes and the one
    for the clients.  The theorem: nodes are accepted without certificates only when the
    operator asked for it by name. *)

From Stdlib Require Import ZArith Lia Bool List String Ascii.
From stdpp Require Import base tactics list option strings.
From S2P Require Import Prelude RustStr Store NodeMain.

Open Scope Z_scope.

Record GwArgs : Type := mkGwArgs {
  g_bind : string;
  g_node_bind : string;
  g_etcd : option string;
  g_cert : option string;
  g_key : option string;
  g_ca : option string;
  g_insecure : bool;
  g_take_wait : Z;
  g_max_idle : Z
}.

Definition gw_defaults : GwArgs := mkGwArgs "0.0.0.0:7879" "0.0.0.0:7880" None None None None false 2000 300.

(** How the program ends before it serves: the lines on standard error and the status. *)
Inductive GwEnd : Type :=
| Usage (before : list string)
| Refused (line : string)
| StartFailed (line : string).

(** Taking the value of an argument, and what the argument does with it. *)
Definition gw_arm (arg : string) : option (string -> GwArgs -> GwArgs) :=
  match arg with
  | "--bind" => Some (fun v g => mkGwArgs v (g_node_bind g) (g_etcd g) (g_cert g) (g_key g) (g_ca g) (g_insecure g) (g_take_wait g) (g_max_idle g))
  | "--node-bind" => Some (fun v g => mkGwArgs (g_bind g) v (g_etcd g) (g_cert g) (g_key g) (g_ca g) (g_insecure g) (g_take_wait g) (g_max_idle g))
  | "--etcd" => Some (fun v g => mkGwArgs (g_bind g) (g_node_bind g) (Some v) (g_cert g) (g_key g) (g_ca g) (g_insecure g) (g_take_wait g) (g_max_idle g))
  | "--tls-cert" => Some (fun v g => mkGwArgs (g_bind g) (g_node_bind g) (g_etcd g) (Some v) (g_key g) (g_ca g) (g_insecure g) (g_take_wait g) (g_max_idle g))
  | "--tls-key" => Some (fun v g => mkGwArgs (g_bind g) (g_node_bind g) (g_etcd g) (g_cert g) (Some v) (g_ca g) (g_insecure g) (g_take_wait g) (g_max_idle g))
  | "--tls-ca" => Some (fun v g => mkGwArgs (g_bind g) (g_node_bind g) (g_etcd g) (g_cert g) (g_key g) (Some v) (g_insecure g) (g_take_wait g) (g_max_idle g))
  | "--take-wait-ms" => Some (fun v g => mkGwArgs (g_bind g) (g_node_bind g) (g_etcd g) (g_cert g) (g_key g) (g_ca g) (g_insecure g) (default 2000 (parse_uint u64_max v)) (g_max_idle g))
  | "--max-idle-secs" => Some (fun v g => mkGwArgs (g_bind g) (g_node_bind g) (g_etcd g) (g_cert g) (g_key g) (g_ca g) (g_insecure g) (g_take_wait g) (default 300 (parse_uint u64_max v)))
  | _ => None
  end%string.

Definition set_insecure (g : GwArgs) : GwArgs :=
  mkGwArgs (g_bind g) (g_node_bind g) (g_etcd g) (g_cert g) (g_key g) (g_ca g) true (g_take_wait g) (g_max_idle g).

Fixpoint gw_args (args : list string) (g : GwArgs) : result GwArgs GwEnd :=
  match args with
  | [] => Ok g
  | a :: rest =>
      match gw_arm a with
      | Some set => match rest with v :: rest' => gw_args rest' (set v g) | [] => Err (Usage []) end
      | None =>
          if String.eqb a "--insecure" then gw_args rest (set_insecure g)
          else if String.eqb a "-h" || String.eqb a "--help" then Err (Usage [])
          else Err (Usage ["未知参数: " ++s a])
      end
  end.

Definition gw_tls (g : GwArgs) : result (option TlsOpts) GwEnd :=
  match g_cert g, g_key g, g_ca g with
  | Some c, Some k, Some a => Ok (Some (mkTls c k a ""))
  | None, None, None =>
      if g_insecure g then Ok None else Err (Refused "[sandlocker-gw] 须给全 --tls-cert/--tls-key/--tls-ca（集群内 mTLS），或显式 --insecure")
  | _, _, _ => Err (Refused "[sandlocker-gw] 须给全 --tls-cert/--tls-key/--tls-ca（集群内 mTLS），或显式 --insecure")
  end.

(** What the gateway meets when it starts: the store at an end point, the secret kept in
    it, the certificates of a configuration, and the address a listener gets. *)
Record GwWorld : Type := mkGwWorld {
  gw_open : string -> result unit string;
  gw_secret : result unit string;
  gw_server_ctx : TlsOpts -> result unit string;
  gw_listen : string -> result string string;
  gw_local : string -> result string string
}.

(** A gateway that serves: where, and whether nodes need a certificate. *)
Record Serving : Type := mkServing { sv_client : string; sv_node : string; sv_mtls : bool; sv_lines : list string; sv_take_wait : Z; sv_max_idle : Z }.

Section Serve.
Context (w : GwWorld).

(** The first listener stays open while the second one is tried; the process ends then. *)
Definition gw_serve (ep : string) (tls : option TlsOpts) (g : GwArgs) : result Serving string :=
  match gw_open w ep with
  | Err e => Err e
  | Ok _ =>
  match gw_secret w with
  | Err e => Err e
  | Ok _ =>
  match (match tls with Some t => gw_server_ctx w t | None => Ok tt end) with
  | Err e => Err e
  | Ok _ =>
  match gw_listen w (g_node_bind g) with
  | Err e => Err ("bind 节点接入 " ++s g_node_bind g ++s " 失败: " ++s e)
  | Ok l =>
  match gw_local w l with
  | Err e => Err ("取节点端口失败: " ++s e)
  | Ok node_addr =>
      let ready := match tls with
                   | Some _ => "[sandlocker-gw] 节点接入就绪 " ++s node_addr ++s "（mTLS，强制客户端证书）"
                   | None => "[sandlocker-gw][WARN] 节点接入就绪 " ++s node_addr ++s "（**明文**，仅限本机对账/开发）"
                   end in
      match gw_listen w (g_bind g) with
      | Err e => Err ("bind 客户端 " ++s g_bind g ++s " 失败: " ++s e)
      | Ok l' =>
          match gw_local w l' with
          | Err e => Err ("取客户端端口失败: " ++s e)
          | Ok client_addr =>
              match gw_open w ep with
              | Err e => Err e
              | Ok _ => Ok (mkServing client_addr node_addr (match tls with Some _ => true | None => false end)
                              [ready; "[sandlocker-gw] 数据面就绪 http://" ++s client_addr ++s "（一次性 HMAC 签名 URL；/gw/*）"]
                              (g_take_wait g) (g_max_idle g))
              end
          end
      end
  end end end end end.

Definition gw_main (args : list string) : result Serving GwEnd :=
  match gw_args args gw_defaults with
  | Err e => Err e
  | Ok g =>
      match gw_tls g with
      | Err e => Err e
      | Ok tls =>
          match g_etcd g with
          | None => Err (Refused "[sandlocker-gw] 须给 --etcd <endpoint>：网关按 etcd 的 sandbox/<sid>/node 映射转发")
          | Some ep =>
              match gw_serve ep tls g with
              | Err e => Err (StartFailed ("[sandlocker-gw] 启动失败: " ++s e))
              | Ok s => Ok s
              end
          end
      end
  end.
End Serve.

(** ** No silent plaintext *)

Lemma gw_arm_insecure a set v g : gw_arm a = Some set -> g_insecure (set v g) = g_insecure g.
Proof. unfold gw_arm. repeat (case_match; try done); by intros [= <-]. Qed.

Lemma insecure_named args g g' : gw_args args g = Ok g' -> g_insecure g' = true -> g_insecure g = true \/ In "--insecure"%string args.
Proof.
  remember (length args) as n eqn:En. assert (Hn : (length args <= n)%nat) by lia. clear En. revert args g Hn.
  induction n as [|n IH]; intros [|a rest] g Hn; cbn [gw_args length] in *; try lia; [by intros [= <-] ?; left..|].
  destruct (gw_arm a) as [set|] eqn:Ea.
  - destruct rest as [|v rest]; [done|]. intros Hg Hi. destruct (IH rest (set v g) ltac:(cbn in Hn; lia) Hg Hi) as [H|H].
    + left. by rewrite (gw_arm_insecure a set v g Ea) in H.
    + right. by do 2 right.
  - destruct (String.eqb_spec a "--insecure") as [->|_]; [intros; right; by left|]. case_match; done.
Qed.

Lemma serves_as_told w ep tls g s : gw_serve w ep tls g = Ok s ->
  sv_mtls s = (match tls with Some _ => true | None => false end) /\
  (forall t, tls = Some t -> gw_server_ctx w t = Ok tt).
Proof. unfold gw_serve. intros Hs. repeat (case_match; try done); simplify_eq; (split; [done|]); intros t0 [=]; subst; by destruct_or?; match goal with u : unit |- _ => destruct u end. Qed.

(**  A gateway that serves either checks the certificates of the nodes with the files
    it was given, which could be loaded, or was told --insecure by name and given no
    certificate at all; without an etcd it does not serve. *)
Theorem gateway_fails_closed (w : GwWorld) (args : list string) (s : Serving) :
  gw_main w args = Ok s ->
  exists g, gw_args args gw_defaults = Ok g /\ g_etcd g <> None /\
    ((sv_mtls s = true /\ exists c k a, g_cert g = Some c /\ g_key g = Some k /\ g_ca g = Some a /\ gw_server_ctx w (mkTls c k a "") = Ok tt) \/
     (sv_mtls s = false /\ In "--insecure"%string args /\ g_cert g = None /\ g_key g = None /\ g_ca g = None)).
Proof.
  unfold gw_main. destruct (gw_args args gw_defaults) as [g|e] eqn:Eg; [|done]. destruct (gw_tls g) as [tls|e] eqn:Et; [|done].
  destruct (g_etcd g) as [ep|] eqn:Ee; [|done]. destruct (gw_serve w ep tls g) as [s'|e] eqn:Es; [|done]. intros [= ->].
  apply serves_as_told in Es as [Em Hc]. exists g. split; [done|]. split; [by rewrite Ee|]. unfold gw_tls in Et.
  destruct (g_cert g) as [c|], (g_key g) as [k|], (g_ca g) as [a|]; try done.
  - injection Et as <-. left. split; [done|]. exists c, k, a. by split_and!; [..|apply Hc].
  - destruct (g_insecure g) eqn:Ei; [|done]. injection Et as <-. right. split; [done|].
    destruct (insecure_named _ _ _ Eg Ei) as [?|Hin]; [done|]. by split_and!.
Qed.

Definition fine_world : GwWorld := mkGwWorld (fun _ => Ok tt) (Ok tt) (fun _ => Ok tt) (fun a => Ok a) (fun a => Ok a).

Lemma gateway_fails_closed_witness :
  exists s, gw_main fine_world ["--etcd"; "http://e:2379"; "--insecure"]%string = Ok s /\ sv_mtls s = false /\
    (exists g, gw_args ["--etcd"; "http://e:2379"; "--insecure"]%string gw_defaults = Ok g /\ g_etcd g <> None).
Proof.
  eexists. split; [vm_compute; reflexivity|]. split; [reflexivity|].
  destruct (gateway_fails_closed fine_world ["--etcd"; "http://e:2379"; "--insecure"]%string _ (eq_refl _)) as (g & Hg & He & _).
  exists g. split; [exact Hg|exact He].
Defined.

(** The name of a file that is missing its value is taken from the next argument: the
    gateway is refused for the wrong reason, but it does not start without certificates. *)
Lemma swallowed_insecure_refused :
  gw_main fine_world ["--etcd"; "http://e:2379"; "--tls-ca"; "--insecure"]%string =
    Err (Refused "[sandlocker-gw] 须给全 --tls-cert/--tls-key/--tls-ca（集群内 mTLS），或显式 --insecure").
Proof. reflexivity. Qed.
