(* ===== verification/Nftfw.v ===== *)
(** * The packet filter of a sandbox (crates/sl-node/src/nftfw.rs)

    The rule set of a sandbox as the text that is handed to [nft], the commands
    that open and close destinations in it, and the handle [Sandbox].  [nft] is
    the class [Host]; what the code relies on is [NftLaws]: the documented
    meaning of the statements the file uses, on the rule sets of each network
    namespace.  The theorems are about packets: what a sandbox may reach after
    [ensure] and any sequence of changes. *)

From Stdlib Require Import ZArith Lia Bool List String Ascii.
From stdpp Require Import base tactics list gmap strings.
From S2P Require Import Prelude RustStr Utf8 Json Backend Text HttpText.

Open Scope Z_scope.

(** ** Rule sets *)

Inductive Rule : Type :=
| CtAccept
| AllowRule (ips ports : string).

(** A base chain: the hook it is attached to, whether its policy drops, and its
    rules in order. *)
Record Chain : Type := mkChain { ch_hook : string; ch_drop : bool; ch_rules : list Rule }.

Record Table : Type := mkTable { t_sets : gmap string (gset string); t_chains : gmap string Chain }.

Notation Rules := (gmap string Table).
Definition no_table : Table := mkTable ∅ ∅.

(** *** Packets *)

Record Packet : Type := mkPacket {
  pk_established : bool;
  pk_tcp : bool;
  pk_daddr : string;
  pk_dport : Z
}.

Definition in_set (t : Table) (s x : string) : bool := bool_decide (x ∈ default ∅ (t_sets t !! s)).

Definition rule_matches (t : Table) (p : Packet) (r : Rule) : bool :=
  match r with
  | CtAccept => pk_established p
  | AllowRule ips ports => in_set t ips (pk_daddr p) && (pk_tcp p && in_set t ports (dec (pk_dport p)))
  end.

Definition chain_accepts (t : Table) (p : Packet) (c : Chain) : bool :=
  existsb (rule_matches t p) (ch_rules c) || negb (ch_drop c).

(** Every base chain of the table at the hook accepts the packet. *)
Definition passes (hook : string) (t : Table) (p : Packet) : bool :=
  forallb (fun c => negb (String.eqb (ch_hook c) hook) || chain_accepts t p c) (map snd (map_to_list (t_chains t))).

(** *** The statements of a script *)

Inductive Ctx : Type := Top | InTable (t : string) | InChain (t c : string).

Fixpoint untab (s : string) : string :=
  match s with String "009" s' => untab s' | _ => s end.

Definition tokens (line : string) : list string :=
  List.filter (fun w => negb (String.eqb w "")) (split " " (untab line)).

Definition the_table (t : string) (rs : Rules) : Table := default no_table (rs !! t).

Definition on_chain (t c : string) (f : Chain -> Chain) (rs : Rules) : Rules :=
  let tb := the_table t rs in
  let ch := default (mkChain "" false []) (t_chains tb !! c) in
  <[t := mkTable (t_sets tb) (<[c := f ch]> (t_chains tb))]> rs.

(** The meaning of one line of a script, for the statements that are used. *)
Definition line_step (ws : list string) (st : Ctx * Rules) : option (Ctx * Rules) :=
  let '(ctx, rs) := st in
  match ctx, ws with
  | _, [] => Some (ctx, rs)
  | Top, ["add"; "table"; "inet"; t] => Some (Top, <[t := the_table t rs]> rs)
  | Top, ["delete"; "table"; "inet"; t] => match rs !! t with Some _ => Some (Top, delete t rs) | None => None end
  | Top, ["table"; "inet"; t; "{"] => Some (InTable t, <[t := the_table t rs]> rs)
  | InTable t, ["set"; s; "{"; "type"; _; "}"] =>
      let tb := the_table t rs in
      Some (ctx, <[t := mkTable (<[s := default ∅ (t_sets tb !! s)]> (t_sets tb)) (t_chains tb)]> rs)
  | InTable t, ["chain"; c; "{"] => Some (InChain t c, on_chain t c (fun ch => ch) rs)
  | InTable _, ["}"] => Some (Top, rs)
  | InChain t c, ["type"; "filter"; "hook"; h; "priority"; "0;"; "policy"; "drop;"] =>
      Some (ctx, on_chain t c (fun ch => mkChain h true (ch_rules ch)) rs)
  | InChain t c, ["ct"; "state"; "established,related"; "accept"] =>
      Some (ctx, on_chain t c (fun ch => mkChain (ch_hook ch) (ch_drop ch) (ch_rules ch ++ [CtAccept])) rs)
  | InChain t c, ["ip"; "daddr"; String "@" a; "tcp"; "dport"; String "@" b; "accept"] =>
      Some (ctx, on_chain t c (fun ch => mkChain (ch_hook ch) (ch_drop ch) (ch_rules ch ++ [AllowRule a b])) rs)
  | InChain t _, ["}"] => Some (InTable t, rs)
  | _, _ => None
  end%string.

Definition apply_script (script : string) (rs : Rules) : option Rules :=
  let run := fold_left (fun st line => st ≫= line_step (tokens line)) (split "010" script) (Some (Top, rs)) in
  match run with Some (Top, rs') => Some rs' | _ => None end.

(** *** The commands *)

Inductive Cmd : Type :=
| AddElement (t s x : string)
| DeleteElement (t s x : string)
| DeleteTable (t : string)
| ListTable (t : string).

Definition cmd_args (c : Cmd) : list string :=
  match c with
  | AddElement t s x => ["add"; "element"; "inet"; t; s; "{ " ++s x ++s " }"]
  | DeleteElement t s x => ["delete"; "element"; "inet"; t; s; "{ " ++s x ++s " }"]
  | DeleteTable t => ["delete"; "table"; "inet"; t]
  | ListTable t => ["list"; "table"; "inet"; t]
  end%string.

(** What a command does, or [None] when [nft] refuses it. *)
Definition cmd_effect (c : Cmd) (rs : Rules) : option Rules :=
  match c with
  | AddElement t s x =>
      tb ← rs !! t; xs ← t_sets tb !! s;
      Some (<[t := mkTable (<[s := {[x]} ∪ xs]> (t_sets tb)) (t_chains tb)]> rs)
  | DeleteElement t s x =>
      tb ← rs !! t; xs ← t_sets tb !! s;
      if decide (x ∈ (xs : gset string)) then Some (<[t := mkTable (<[s := xs ∖ {[x]}]> (t_sets tb)) (t_chains tb)]> rs) else None
  | DeleteTable t => _ ← rs !! t; Some (delete t rs)
  | ListTable t => _ ← rs !! t; Some rs
  end.

(** Elements that are written as [nft] itself writes them: an address of four
    bytes, a port. *)
Definition is_ipv4 (x : string) : Prop :=
  exists a b c d, 0 <= a < 256 /\ 0 <= b < 256 /\ 0 <= c < 256 /\ 0 <= d < 256 /\
    x = dec a ++s "." ++s dec b ++s "." ++s dec c ++s "." ++s dec d.
Definition is_port (x : string) : Prop := exists p, 0 <= p < 65536 /\ x = dec p.

Definition literal (c : Cmd) : Prop :=
  match c with AddElement _ _ x | DeleteElement _ _ x => is_ipv4 x \/ is_port x | _ => True end.

(** ** Running commands *)

Record Output : Type := mkOut { out_ok : bool; out_code : option Z; out_stdout : string; out_stderr : string }.

(** How a command that is fed through its standard input fails to run. *)
Inductive CmdError : Type :=
| SpawnFailed (e : string)
| NoStdin
| WriteFailed (e : string)
| WaitFailed (e : string).

Class Host (W : Type) : Type := {
  output : list string -> W -> result Output string * W;
  piped : list string -> string -> W -> result Output CmdError * W
}.

Section Driver.
Context {W : Type} {Ho : Host W}.

Record FwCfg : Type := mkFw { fw_table : string; fw_root : bool; fw_netns : option string; hook_forward : bool }.

Definition hook_of (forward : bool) : string := if forward then "forward" else "output".

Definition LF : string := String "010" "".
Definition TAB : string := String "009" "".

Definition ensure_script (table : string) (forward : bool) : string :=
  let hook := hook_of forward in
  "add table inet " ++s table ++s LF ++s
  "delete table inet " ++s table ++s LF ++s
  "table inet " ++s table ++s " {" ++s LF ++s
  TAB ++s "set allow4 { type ipv4_addr; }" ++s LF ++s
  TAB ++s "set allowport { type inet_service; }" ++s LF ++s
  TAB ++s "chain egress {" ++s LF ++s
  TAB ++s TAB ++s "type filter hook " ++s hook ++s " priority 0; policy drop;" ++s LF ++s
  TAB ++s TAB ++s "ct state established,related accept" ++s LF ++s
  TAB ++s TAB ++s "ip daddr @allow4 tcp dport @allowport accept" ++s LF ++s
  TAB ++s "}" ++s LF ++s
  "}" ++s LF.

Definition nft_base (root : bool) (netns : option string) : list string :=
  match root, netns with
  | true, None => ["nft"]
  | true, Some ns => ["ip"; "netns"; "exec"; ns; "nft"]
  | false, None => ["sudo"; "-n"; "nft"]
  | false, Some ns => ["sudo"; "-n"; "ip"; "netns"; "exec"; ns; "nft"]
  end%string.

Definition debug_code (c : option Z) : string :=
  match c with Some n => "Some(" ++s dec n ++s ")" | None => "None" end.

Definition nft_run (root : bool) (netns : option string) (args : list string) : M W string string :=
  fun w => let '(r, w') := output (nft_base root netns ++ args) w in
    (match r with
     | Err e => Err ("执行 nft 失败: " ++s e)
     | Ok out =>
         if out_ok out then Ok (trim (from_utf8_lossy (out_stdout out)))
         else Err ("nft " ++s debug_list args ++s " 失败（code=" ++s debug_code (out_code out) ++s "）: "
                   ++s trim (from_utf8_lossy (out_stderr out)))
     end, w').

Definition nft_apply (root : bool) (netns : option string) (script : string) : M W string unit :=
  fun w => let '(r, w') := piped (nft_base root netns ++ ["-f"; "-"]%string) script w in
    (match r with
     | Err (SpawnFailed e) => Err ("spawn nft 失败: " ++s e)
     | Err NoStdin => Err "拿不到 nft stdin"%string
     | Err (WriteFailed e) => Err ("写 nft 脚本失败: " ++s e)
     | Err (WaitFailed e) => Err ("等 nft 失败: " ++s e)
     | Ok out =>
         if out_ok out then Ok tt
         else Err ("nft -f - 失败（code=" ++s debug_code (out_code out) ++s "）: "
                   ++s trim (from_utf8_lossy (out_stderr out)) ++s LF ++s "--- 脚本 ---" ++s LF ++s script)
     end, w').

(** *** The handle of a table *)

Record Sandbox : Type := mkSandbox { sb_table : string; sb_root : bool; sb_netns : option string }.

Definition ensure (cfg : FwCfg) : M W string Sandbox :=
  let t := fw_table cfg in
  let script := ensure_script t (hook_forward cfg) in
  let? _ := nft_apply (fw_root cfg) (fw_netns cfg) script in
  mret (mkSandbox t (fw_root cfg) (fw_netns cfg)).

Definition add_allow (sb : Sandbox) (ip : string) (port : Z) : M W string unit :=
  let ns := sb_netns sb in
  let? _ := nft_run (sb_root sb) ns ["add"; "element"; "inet"; sb_table sb; "allow4"; "{ " ++s ip ++s " }"]%string in
  let? _ := nft_run (sb_root sb) ns ["add"; "element"; "inet"; sb_table sb; "allowport"; "{ " ++s dec port ++s " }"]%string in
  mret tt.

Definition remove_allow (sb : Sandbox) (ip : string) (port : Z) : M W string unit :=
  let ns := sb_netns sb in
  let? _ := nft_run (sb_root sb) ns ["delete"; "element"; "inet"; sb_table sb; "allow4"; "{ " ++s ip ++s " }"]%string in
  let? _ := nft_run (sb_root sb) ns ["delete"; "element"; "inet"; sb_table sb; "allowport"; "{ " ++s dec port ++s " }"]%string in
  mret tt.

Definition list_ruleset (sb : Sandbox) : M W string string :=
  nft_run (sb_root sb) (sb_netns sb) ["list"; "table"; "inet"; sb_table sb]%string.

Definition teardown (sb : Sandbox) : M W string unit :=
  let? _ := nft_run (sb_root sb) (sb_netns sb) ["delete"; "table"; "inet"; sb_table sb]%string in
  mret tt.

Definition exists_ (sb : Sandbox) : M W string bool :=
  fun w => let '(r, w') := list_ruleset sb w in (Ok (is_ok r), w').
End Driver.

(** ** What [nft] does *)

Definition succeeded {E} (r : result Output E) : Prop := exists o, r = Ok o /\ out_ok o = true.

(** A run in a namespace: a success has the effect, a refusal has none, other
    namespaces are untouched; where [nft] can be run, what it accepts succeeds. *)
Record performs {W E : Type} (rules : W -> option string -> Rules) (can : W -> Prop) (ns : option string)
    (m : W -> result Output E * W) (effect : Rules -> option Rules) : Prop := {
  pf_ok : forall w r w', m w = (r, w') -> succeeded r -> effect (rules w ns) = Some (rules w' ns);
  pf_refused : forall w o w', m w = (Ok o, w') -> out_ok o = false -> rules w' ns = rules w ns;
  pf_other : forall w r w' ns', m w = (r, w') -> ns' <> ns -> rules w' ns' = rules w ns';
  pf_can : forall w r w', m w = (r, w') -> can w -> can w' /\ (is_Some (effect (rules w ns)) -> succeeded r)
}.

Class NftLaws (W : Type) {Ho : Host W} : Type := {
  rules : W -> option string -> Rules;
  (** [nft] is installed and may be run there with these rights *)
  can_run : bool -> option string -> W -> Prop;
  (** a command that could not be started changes nothing *)
  output_error : forall argv w e w', output argv w = (Err e, w') -> forall ns, rules w' ns = rules w ns;
  script_law : forall root ns script, (forall rs, is_Some (apply_script script rs)) ->
    performs rules (can_run root ns) ns (piped (nft_base root ns ++ ["-f"; "-"]%string) script) (apply_script script);
  cmd_law : forall root ns c, literal c ->
    performs rules (can_run root ns) ns (output (nft_base root ns ++ cmd_args c)) (cmd_effect c)
}.

(** ** The table that [ensure] makes *)

Definition plain (t : string) : Prop := visible t = true /\ t <> ""%string.

Definition fresh_table (hook : string) : Table :=
  mkTable (<["allowport"%string := ∅]> {["allow4"%string := ∅]})
          {["egress"%string := mkChain hook true [CtAccept; AllowRule "allow4" "allowport"]]}.

Lemma the_table_insert t x rs : the_table t (<[t := x]> rs) = x.
Proof. unfold the_table. by rewrite lookup_insert_eq. Qed.

Lemma on_chain_insert t c f x rs :
  on_chain t c f (<[t := x]> rs) =
    <[t := mkTable (t_sets x) (<[c := f (default (mkChain "" false []) (t_chains x !! c))]> (t_chains x))]> rs.
Proof. unfold on_chain. by rewrite the_table_insert, insert_insert_eq. Qed.

(** The lines of the script. *)
Lemma ensure_lines t fw :
  plain t ->
  split "010" (ensure_script t fw) =
    ["add table inet " ++s t; "delete table inet " ++s t; "table inet " ++s t ++s " {";
     TAB ++s "set allow4 { type ipv4_addr; }"; TAB ++s "set allowport { type inet_service; }";
     TAB ++s "chain egress {"; TAB ++s TAB ++s "type filter hook " ++s hook_of fw ++s " priority 0; policy drop;";
     TAB ++s TAB ++s "ct state established,related accept";
     TAB ++s TAB ++s "ip daddr @allow4 tcp dport @allowport accept"; TAB ++s "}"; "}"; ""]%string.
Proof.
  intros [Hv _]. assert (contains_char "010" t = false) as Hn by (by apply visible_no_char).
  assert (forall a b, contains_char "010" a = false -> split "010" (a ++s LF ++s b) = a :: split "010" b) as Hs.
  { intros a b Ha. exact (split_sep_app "010" a b Ha). }
  transitivity (split "010" (("add table inet " ++s t) ++s LF ++s ("delete table inet " ++s t) ++s LF ++s
    ("table inet " ++s t ++s " {") ++s LF ++s String.concat LF
    [TAB ++s "set allow4 { type ipv4_addr; }"; TAB ++s "set allowport { type inet_service; }";
     TAB ++s "chain egress {"; TAB ++s TAB ++s "type filter hook " ++s hook_of fw ++s " priority 0; policy drop;";
     TAB ++s TAB ++s "ct state established,related accept";
     TAB ++s TAB ++s "ip daddr @allow4 tcp dport @allowport accept"; TAB ++s "}"; "}"; ""]%string)).
  { f_equal. unfold ensure_script. rewrite !app_assoc_s. destruct fw; reflexivity. }
  rewrite !Hs.
  - by destruct fw.
  - cbn. by rewrite contains_char_app, Hn.
  - cbn. by rewrite Hn.
  - cbn. by rewrite Hn.
Qed.

Lemma split_three a b c x :
  contains_char " " a = false -> contains_char " " b = false -> contains_char " " c = false ->
  split " " (a ++s String " " (b ++s String " " (c ++s String " " x))) = a :: b :: c :: split " " x.
Proof. intros Ha Hb Hc. by rewrite !split_sep_app. Qed.

Lemma kept_word t : plain t -> negb (String.eqb t "") = true.
Proof. intros [_ Hn]. by apply negb_true_iff, String.eqb_neq. Qed.

Lemma tokens_table t :
  plain t ->
  tokens ("add table inet " ++s t) = ["add"; "table"; "inet"; t]%string /\
  tokens ("delete table inet " ++s t) = ["delete"; "table"; "inet"; t]%string /\
  tokens ("table inet " ++s t ++s " {") = ["table"; "inet"; t; "{"]%string.
Proof.
  intros Hp. assert (contains_char " " t = false) as Hn by (by apply visible_no_char; [|apply Hp]).
  unfold tokens. split; [|split].
  - change (untab ("add table inet " ++s t)) with ("add" ++s String " " ("table" ++s String " " ("inet" ++s String " " t))).
    rewrite split_three, split_no_sep by done. cbn. by rewrite kept_word.
  - change (untab ("delete table inet " ++s t)) with ("delete" ++s String " " ("table" ++s String " " ("inet" ++s String " " t))).
    rewrite split_three, split_no_sep by done. cbn. by rewrite kept_word.
  - change (untab ("table inet " ++s t ++s " {")) with ("table" ++s String " " ("inet" ++s String " " (t ++s String " " "{"))).
    rewrite split_three by done. cbn. by rewrite kept_word.
Qed.

Lemma ensure_applies t fw (rs : Rules) :
  plain t -> apply_script (ensure_script t fw) rs = Some (<[t := fresh_table (hook_of fw)]> rs).
Proof.
  intros Hp. unfold apply_script. rewrite ensure_lines by done. destruct (tokens_table t Hp) as (T1 & T2 & T3).
  cbn [fold_left base.mbind option_bind]. rewrite T1. cbn [line_step base.mbind option_bind]. rewrite T2.
  cbn [line_step base.mbind option_bind]. rewrite lookup_insert_eq. cbn [base.mbind option_bind]. rewrite T3.
  cbn [line_step base.mbind option_bind]. rewrite delete_insert_eq.
  assert (the_table t (delete t rs) = no_table) as -> by (unfold the_table; by rewrite lookup_delete_eq).
  assert (<[t := no_table]> (delete t rs) = <[t := no_table]> rs) as -> by apply insert_delete_eq.
  destruct fw; cbn -[insert lookup on_chain the_table]; rewrite !the_table_insert, !insert_insert_eq;
    cbn -[insert lookup on_chain the_table]; rewrite !on_chain_insert; cbn -[insert lookup]; rewrite ?insert_insert_eq; reflexivity.
Qed.

(** The table of a sandbox with these addresses and ports open. *)
Record gated (hook : string) (ips ports : gset string) (t : Table) : Prop := {
  g_ips : t_sets t !! "allow4"%string = Some ips;
  g_ports : t_sets t !! "allowport"%string = Some ports;
  g_chains : t_chains t = {["egress"%string := mkChain hook true [CtAccept; AllowRule "allow4" "allowport"]]}
}.

Lemma fresh_gated hook : gated hook ∅ ∅ (fresh_table hook).
Proof. by split. Qed.

Lemma gated_passes hook ips ports t p :
  gated hook ips ports t ->
  passes hook t p = pk_established p || (bool_decide (pk_daddr p ∈ ips) && (pk_tcp p && bool_decide (dec (pk_dport p) ∈ ports))).
Proof.
  intros [Hi Hp Hc]. unfold passes. rewrite Hc, map_to_list_singleton. cbn. rewrite String.eqb_refl. cbn.
  unfold chain_accepts. cbn. unfold in_set. rewrite Hi, Hp. cbn. by rewrite !orb_false_r, andb_true_r.
Qed.

(** ** Changes *)

Inductive Change : Type := Allow (ip : string) (port : Z) | Withdraw (ip : string) (port : Z).

Definition proper (c : Change) : Prop :=
  match c with Allow ip port | Withdraw ip port => is_ipv4 ip /\ 0 <= port < 65536 end.

Section Filter.
Context {W : Type} {Ho : Host W} {La : NftLaws W}.

Definition change (sb : Sandbox) (c : Change) : M W string unit :=
  match c with Allow ip port => add_allow sb ip port | Withdraw ip port => remove_allow sb ip port end.

(** The changes one after the other, whatever each of them answers. *)
Definition changes (sb : Sandbox) (cs : list Change) (w : W) : W :=
  fold_left (fun w c => snd (change sb c w)) cs w.

Lemma nft_run_cmd root ns c w :
  literal c ->
  let '(r, w') := nft_run root ns (cmd_args c) w in
  ((is_ok r = true /\ cmd_effect c (rules w ns) = Some (rules w' ns)) \/ (is_ok r = false /\ rules w' ns = rules w ns)) /\
  (forall ns', ns' <> ns -> rules w' ns' = rules w ns') /\
  (can_run root ns w -> can_run root ns w' /\ (is_Some (cmd_effect c (rules w ns)) -> is_ok r = true)).
Proof.
  intros Hl. unfold nft_run. destruct (cmd_law root ns c Hl) as [P1 P2 P3 P4].
  destruct (output (nft_base root ns ++ cmd_args c) w) as [[o|e] w'] eqn:E.
  - split; [|split].
    + destruct (out_ok o) eqn:Eo; [left; split; [done|]; eapply P1; [exact E|by exists o]|right; split; [done|]; by eapply P2].
    + intros ns' Hn. by eapply P3.
    + intros Hc. destruct (P4 _ _ _ E Hc) as [Hc' Hs]. split; [done|]. intros He. destruct (Hs He) as (o' & [= <-] & ->). done.
  - split; [right; split; [done|]; by eapply output_error|]. split; [intros ns' _; by eapply output_error|].
    intros Hc. destruct (P4 _ _ _ E Hc) as [Hc' Hs]. split; [done|]. intros He. by destruct (Hs He) as (o' & [=] & _).
Qed.

(** A gate: the addresses and the ports that are open. *)
Notation Gate := (gset string * gset string)%type.

Definition opened (c : Change) : Gate :=
  match c with Allow ip port => ({[ip]}, {[dec port]}) | Withdraw _ _ => (∅, ∅) end.

(** The gate after a change that succeeded. *)
Definition gate_after (c : Change) (g : Gate) : Gate :=
  match c with
  | Allow ip port => ({[ip]} ∪ g.1, {[dec port]} ∪ g.2)
  | Withdraw ip port => (g.1 ∖ {[ip]}, g.2 ∖ {[dec port]})
  end.

(** The two commands of a change. *)
Definition first_cmd (t : string) (c : Change) : Cmd :=
  match c with Allow ip _ => AddElement t "allow4" ip | Withdraw ip _ => DeleteElement t "allow4" ip end.
Definition second_cmd (t : string) (c : Change) : Cmd :=
  match c with Allow _ port => AddElement t "allowport" (dec port) | Withdraw _ port => DeleteElement t "allowport" (dec port) end.

Lemma change_cmds sb c w :
  change sb c w = (let? _ := nft_run (sb_root sb) (sb_netns sb) (cmd_args (first_cmd (sb_table sb) c)) in
                   let? _ := nft_run (sb_root sb) (sb_netns sb) (cmd_args (second_cmd (sb_table sb) c)) in mret tt) w.
Proof. by destruct c. Qed.

(** The table under the handle has the gate. *)
Definition holds_gate (sb : Sandbox) (hook : string) (g : Gate) (w : W) : Prop :=
  exists t, rules w (sb_netns sb) !! sb_table sb = Some t /\ gated hook g.1 g.2 t.

Lemma gate_same sb hook g w w' :
  rules w' (sb_netns sb) = rules w (sb_netns sb) -> holds_gate sb hook g w -> holds_gate sb hook g w'.
Proof. intros E (t & Ht & G). exists t. by rewrite E. Qed.

Lemma first_gate sb hook c g w w' :
  holds_gate sb hook g w ->
  cmd_effect (first_cmd (sb_table sb) c) (rules w (sb_netns sb)) = Some (rules w' (sb_netns sb)) ->
  holds_gate sb hook ((gate_after c g).1, g.2) w'.
Proof.
  intros (t & Ht & [G1 G2 G3]) He. destruct c; cbn in He; rewrite Ht in He; cbn in He; rewrite G1 in He; cbn in He;
    try (case_decide; [|done]); injection He as He; eexists; (rewrite <- He, lookup_insert_eq; split; [done|]);
    (split; cbn; [by rewrite lookup_insert_eq|by rewrite lookup_insert_ne|done]).
Qed.

Lemma second_gate sb hook c g w w' :
  holds_gate sb hook g w ->
  cmd_effect (second_cmd (sb_table sb) c) (rules w (sb_netns sb)) = Some (rules w' (sb_netns sb)) ->
  holds_gate sb hook (g.1, (gate_after c g).2) w'.
Proof.
  intros (t & Ht & [G1 G2 G3]) He. destruct c; cbn in He; rewrite Ht in He; cbn in He; rewrite G2 in He; cbn in He;
    try (case_decide; [|done]); injection He as He; eexists; (rewrite <- He, lookup_insert_eq; split; [done|]);
    (split; cbn; [by rewrite lookup_insert_ne|by rewrite lookup_insert_eq|done]).
Qed.

(** The table under the handle is the only one that may differ. *)
Definition only_own (sb : Sandbox) (w w' : W) : Prop :=
  forall ns t, (ns, t) <> (sb_netns sb, sb_table sb) -> rules w' ns !! t = rules w ns !! t.

#[local] Instance only_own_preorder sb : PreOrder (only_own sb).
Proof. split; [by intros w ns t _|]. intros w1 w2 w3 H1 H2 ns t Hn. by rewrite H2, H1. Qed.

Definition cmd_table (c : Cmd) : string :=
  match c with AddElement t _ _ | DeleteElement t _ _ | DeleteTable t | ListTable t => t end.

Lemma cmd_own c rs rs' t : cmd_effect c rs = Some rs' -> t <> cmd_table c -> rs' !! t = rs !! t.
Proof.
  intros He Ht. destruct c as [u s x|u s x|u|u]; cbn in *; destruct (rs !! u) as [tb|]; cbn in He; try done.
  - destruct (t_sets tb !! s); cbn in He; [|done]. injection He as <-. by rewrite lookup_insert_ne.
  - destruct (t_sets tb !! s); cbn in He; [|done]. destruct (decide _); [|done]. injection He as <-. by rewrite lookup_insert_ne.
  - injection He as <-. by rewrite lookup_delete_ne.
  - by injection He as <-.
Qed.

Lemma run_own sb c w :
  literal c -> cmd_table c = sb_table sb -> only_own sb w (nft_run (sb_root sb) (sb_netns sb) (cmd_args c) w).2.
Proof.
  intros Hl Hc. pose proof (nft_run_cmd (sb_root sb) (sb_netns sb) c w Hl) as H1.
  destruct (nft_run _ _ (cmd_args c) w) as [r w']. destruct H1 as (E1 & O1 & _). intros ns t Hn. cbn.
  destruct (decide (ns = sb_netns sb)) as [->|Hns]; [|by rewrite O1].
  destruct E1 as [[_ E1]|[_ E1]]; [|by rewrite E1]. eapply cmd_own; [exact E1|]. congruence.
Qed.

(** What a change does to the gate where [nft] can be run: closing an address
    that is not open does nothing, and closing a port that is not open has
    closed the address before it fails. *)
Definition gate_next (c : Change) (g : Gate) : Gate :=
  match c with Allow _ _ => gate_after c g | Withdraw ip _ => if decide (ip ∈ g.1) then gate_after c g else g end.
Definition gate_ok (c : Change) (g : Gate) : bool :=
  match c with Allow _ _ => true | Withdraw ip port => bool_decide (ip ∈ g.1) && bool_decide (dec port ∈ g.2) end.

(** One change: what it opens at most, what it does when it succeeds, and exactly
    what it does where [nft] can be run. *)
Record changed (sb : Sandbox) (hook : string) (c : Change) (g : Gate) (w : W) (r : result unit string) (w' : W) (g' : Gate) : Prop := {
  ch_gate : holds_gate sb hook g' w';
  ch_ips : g'.1 ⊆ g.1 ∪ (opened c).1;
  ch_ports : g'.2 ⊆ g.2 ∪ (opened c).2;
  ch_done : r = Ok tt -> g' = gate_after c g;
  ch_other : only_own sb w w';
  ch_can : can_run (sb_root sb) (sb_netns sb) w ->
    can_run (sb_root sb) (sb_netns sb) w' /\ g' = gate_next c g /\ is_ok r = gate_ok c g
}.

Lemma first_applies sb hook g w c :
  holds_gate sb hook g w ->
  (is_Some (cmd_effect (first_cmd (sb_table sb) c) (rules w (sb_netns sb))) <->
   match c with Allow _ _ => True | Withdraw ip _ => ip ∈ g.1 end).
Proof.
  intros (t & Ht & [G1 G2 G3]). destruct c; cbn; rewrite Ht; cbn; rewrite G1; cbn; [by split; eauto|].
  destruct (decide _) as [Hx|Hx]; [by split; eauto|]. split; [by intros [? [=]]|]. intros Hin. by destruct (Hx Hin).
Qed.

Lemma second_applies sb hook g w c :
  holds_gate sb hook g w ->
  (is_Some (cmd_effect (second_cmd (sb_table sb) c) (rules w (sb_netns sb))) <->
   match c with Allow _ _ => True | Withdraw _ port => dec port ∈ g.2 end).
Proof.
  intros (t & Ht & [G1 G2 G3]). destruct c; cbn; rewrite Ht; cbn; rewrite G2; cbn; [by split; eauto|].
  destruct (decide _) as [Hx|Hx]; [by split; eauto|]. split; [by intros [? [=]]|]. intros Hin. by destruct (Hx Hin).
Qed.

Lemma proper_literal t c : proper c -> literal (first_cmd t c) /\ literal (second_cmd t c).
Proof. destruct c as [ip port|ip port]; intros []; cbn; split; (by left) || (right; by exists port). Qed.

(** The first command was refused. *)
Lemma change_refused sb hook c g w w1 m :
  holds_gate sb hook g w -> rules w1 (sb_netns sb) = rules w (sb_netns sb) -> only_own sb w w1 ->
  (can_run (sb_root sb) (sb_netns sb) w -> can_run (sb_root sb) (sb_netns sb) w1 /\
     ~ is_Some (cmd_effect (first_cmd (sb_table sb) c) (rules w (sb_netns sb)))) ->
  changed sb hook c g w (Err m) w1 g.
Proof.
  intros Hg E1 O1 C1. split; [by eapply gate_same|set_solver|set_solver|done|done|].
  intros Hc. destruct (C1 Hc) as [Hc1 Hs]. split; [done|]. rewrite (first_applies _ _ _ _ _ Hg) in Hs.
  destruct c as [ip port|ip port]; [by destruct Hs|]. cbn. by rewrite decide_False, bool_decide_eq_false_2.
Qed.

(** The first command was accepted, and the second refused or accepted. *)
Lemma change_second sb hook c g w w1 w2 (r : result unit string) :
  holds_gate sb hook ((gate_after c g).1, g.2) w1 -> only_own sb w w2 ->
  (if is_ok r then cmd_effect (second_cmd (sb_table sb) c) (rules w1 (sb_netns sb)) = Some (rules w2 (sb_netns sb))
   else rules w2 (sb_netns sb) = rules w1 (sb_netns sb)) ->
  match c with Allow _ _ => True | Withdraw ip _ => ip ∈ g.1 end ->
  (can_run (sb_root sb) (sb_netns sb) w -> can_run (sb_root sb) (sb_netns sb) w2 /\
     (is_ok r = true <-> is_Some (cmd_effect (second_cmd (sb_table sb) c) (rules w1 (sb_netns sb))))) ->
  exists g', changed sb hook c g w r w2 g'.
Proof.
  intros Hg1 O E2 Hin C. destruct r as [[]|m]; cbn in E2.
  - exists (gate_after c g). pose proof (second_gate _ _ _ _ _ _ Hg1 E2) as Hg2.
    split; [by destruct c|destruct c; cbn; set_solver|destruct c; cbn; set_solver|done|done|].
    intros Hc. destruct (C Hc) as [Hc2 Hs]. split; [done|]. rewrite (second_applies _ _ _ _ _ Hg1) in Hs.
    destruct c as [ip port|ip port]; [done|]. cbn in *. rewrite decide_True by done. split; [done|].
    by rewrite !bool_decide_eq_true_2 by (try done; by apply Hs).
  - exists ((gate_after c g).1, g.2). split; [by eapply gate_same|destruct c; cbn; set_solver|set_solver|done|done|].
    intros Hc. destruct (C Hc) as [Hc2 Hs]. split; [done|]. rewrite (second_applies _ _ _ _ _ Hg1) in Hs.
    destruct c as [ip port|ip port]; [by discriminate (proj2 Hs I)|]. cbn in *. rewrite decide_True by done.
    assert (dec port ∉ g.2) as Hn by (intros Hn; by discriminate (proj2 Hs Hn)).
    rewrite (bool_decide_eq_false_2 (dec port ∈ g.2)), andb_false_r by done. split; [|done]. f_equal. set_solver.
Qed.

Lemma change_gate sb hook c g w :
  proper c -> holds_gate sb hook g w ->
  let '(r, w') := change sb c w in exists g', changed sb hook c g w r w' g'.
Proof.
  intros Hp Hg. rewrite change_cmds. unfold mbind. destruct (proper_literal (sb_table sb) c Hp) as [L1 L2].
  pose proof (nft_run_cmd (sb_root sb) (sb_netns sb) _ w L1) as H1.
  pose proof (run_own sb _ w L1 ltac:(by destruct c)) as W1.
  destruct (nft_run _ _ (cmd_args (first_cmd (sb_table sb) c)) w) as [r1 w1]. destruct H1 as (E1 & _ & C1). cbn in W1.
  destruct E1 as [[Hr1 E1]|[Hr1 E1]]; destruct r1 as [x|m]; try done.
  - pose proof (first_gate _ _ _ _ _ _ Hg E1) as Hg1.
    pose proof (nft_run_cmd (sb_root sb) (sb_netns sb) _ w1 L2) as H2.
    pose proof (run_own sb _ w1 L2 ltac:(by destruct c)) as W2.
    destruct (nft_run _ _ (cmd_args (second_cmd (sb_table sb) c)) w1) as [r2 w2]. destruct H2 as (E2 & _ & C2). cbn in W2.
    assert (match c with Allow _ _ => True | Withdraw ip _ => ip ∈ g.1 end) as Hin
      by (apply (first_applies _ _ _ _ c Hg); eauto).
    assert (only_own sb w w2) as O by (by etransitivity).
    destruct r2 as [y|m]; (eapply change_second; [exact Hg1|exact O| |exact Hin|]; cbn).
    1,3: by destruct E2 as [[? ?]|[? ?]].
    all: intros Hc; destruct (C1 Hc) as [Hc1 _]; destruct (C2 Hc1) as [Hc2 Hs]; split; [done|]; split; try done; try (intros; by apply Hs).
    intros _. destruct E2 as [[_ E2]|[? _]]; [eauto|done].
  - exists g. apply change_refused; try done. intros Hc. destruct (C1 Hc) as [Hc1 Hs]. split; [done|]. intros He. by specialize (Hs He).
Qed.

Lemma ensure_gate cfg w sb w1 :
  plain (fw_table cfg) -> ensure cfg w = (Ok sb, w1) ->
  sb = mkSandbox (fw_table cfg) (fw_root cfg) (fw_netns cfg) /\
  holds_gate sb (hook_of (hook_forward cfg)) (∅, ∅) w1 /\
  only_own sb w w1.
Proof.
  intros Hp He. unfold ensure, mbind, nft_apply in He. set (fw := hook_forward cfg) in *.
  assert (forall rs, is_Some (apply_script (ensure_script (fw_table cfg) fw) rs)) as Hs by (intros rs; rewrite ensure_applies; eauto).
  destruct (script_law (fw_root cfg) (fw_netns cfg) _ Hs) as [P1 _ P3 _].
  destruct (piped _ (ensure_script (fw_table cfg) fw) w) as [[o|[]] w'] eqn:E; cbn in He; try done.
  destruct (out_ok o) eqn:Eo; [|done]. injection He as <- <-.
  specialize (P1 _ _ _ E (ex_intro _ o (conj eq_refl Eo))). rewrite ensure_applies in P1 by done. injection P1 as P1.
  split; [done|]. split.
  2:{ intros ns t Hn. destruct (decide (ns = fw_netns cfg)) as [->|Hns]; [|by erewrite P3].
      rewrite <- P1. apply lookup_insert_ne. intros <-. by apply Hn. }
  exists (fresh_table (hook_of fw)). cbn. rewrite <- P1, lookup_insert_eq. split; [done|]. apply fresh_gated.
Qed.

(** Everything that any of the changes opens. *)
Definition opened_all (cs : list Change) : Gate := (⋃ (map (fun c => (opened c).1) cs), ⋃ (map (fun c => (opened c).2) cs)).

Lemma changes_gate sb hook cs g w :
  Forall proper cs -> holds_gate sb hook g w ->
  exists g', holds_gate sb hook g' (changes sb cs w) /\ g'.1 ⊆ g.1 ∪ (opened_all cs).1 /\ g'.2 ⊆ g.2 ∪ (opened_all cs).2 /\
    only_own sb w (changes sb cs w).
Proof.
  intros Hp. revert g w. induction Hp as [|c cs Hc Hcs IH]; intros g w Hg.
  - exists g. split; [done|]. cbn. set_solver.
  - cbn [changes fold_left]. pose proof (change_gate sb hook c g w Hc Hg) as H1. destruct (change sb c w) as [r w1].
    destruct H1 as (g1 & [A1 A2 A3 _ A5 _]). destruct (IH g1 w1 A1) as (g2 & B1 & B2 & B3 & B4).
    exists g2. split; [done|]. cbn in *. split; [set_solver|]. split; [set_solver|]. by etransitivity.
Qed.

(** C12: a sandbox reaches nothing that was not opened.  After [ensure], and
    after any sequence of calls of [add_allow] and [remove_allow], whatever
    each of them answered, the sandbox's table is in place, and a packet that
    does not belong to an established connection passes it only when it is TCP
    to an address and to a port that some [add_allow] named.  Every other table,
    of the same network namespace and of every other one, is as it was before
    [ensure]. *)
Theorem only_opened_passes (cfg : FwCfg) (w : W) (sb : Sandbox) (w1 : W) (cs : list Change) (p : Packet) :
  plain (fw_table cfg) -> ensure cfg w = (Ok sb, w1) -> Forall proper cs ->
  exists t, rules (changes sb cs w1) (fw_netns cfg) !! fw_table cfg = Some t /\
    (passes (hook_of (hook_forward cfg)) t p = true -> pk_established p = false ->
       pk_tcp p = true /\ (exists port, In (Allow (pk_daddr p) port) cs) /\
       exists ip port, In (Allow ip port) cs /\ dec port = dec (pk_dport p)) /\
    (forall ns t', (ns, t') <> (fw_netns cfg, fw_table cfg) -> rules (changes sb cs w1) ns !! t' = rules w ns !! t').
Proof.
  intros Hp He Hcs. destruct (ensure_gate cfg w sb w1 Hp He) as (-> & Hg & Hoth).
  destruct (changes_gate _ _ cs _ _ Hcs Hg) as (g & (t & Ht & G) & S1 & S2 & O). exists t. split; [done|]. split.
  - rewrite (gated_passes _ _ _ _ _ G). intros Hpass Hnew. rewrite Hnew in Hpass. cbn in Hpass.
    apply andb_true_iff in Hpass as [H1 [H2 H3]%andb_true_iff]. apply bool_decide_eq_true in H1, H3.
    apply S1 in H1. apply S2 in H3. cbn in H1, H3. split; [done|].
    rewrite union_empty_l_L in H1, H3. split.
    + apply elem_of_union_list in H1 as (X & HX & Hx). apply list_elem_of_In, in_map_iff in HX as ([ip port|] & <- & Hin);
        [|by apply not_elem_of_empty in Hx]. cbn in Hx. apply elem_of_singleton in Hx as ->. by exists port.
    + apply elem_of_union_list in H3 as (X & HX & Hx). apply list_elem_of_In, in_map_iff in HX as ([ip port|] & <- & Hin);
        [|by apply not_elem_of_empty in Hx]. cbn in Hx. apply elem_of_singleton in Hx. by exists ip, port.
  - intros ns t' Hn. by rewrite O, Hoth.
Qed.

(** *** What is open, from the history of the changes *)

(** The changes are listed with the latest first.  An address is open when the
    latest change that names it opened it. *)
Fixpoint ip_open (h : list Change) (ip : string) : bool :=
  match h with
  | [] => false
  | Allow i _ :: h' => bool_decide (i = ip) || ip_open h' ip
  | Withdraw i _ :: h' => negb (bool_decide (i = ip)) && ip_open h' ip
  end.

(** A port is open when the latest change that names it opened it; a withdrawal
    counts only when its address was open. *)
Fixpoint port_open (h : list Change) (port : Z) : bool :=
  match h with
  | [] => false
  | Allow _ q :: h' => bool_decide (q = port) || port_open h' port
  | Withdraw i q :: h' => negb (ip_open h' i && bool_decide (q = port)) && port_open h' port
  end.

(** An opening succeeds; a withdrawal succeeds when its address and its port are
    open. *)
Definition answer_of (h : list Change) (c : Change) : bool :=
  match c with Allow _ _ => true | Withdraw ip port => ip_open h ip && port_open h port end.
Fixpoint answers (h cs : list Change) : list bool :=
  match cs with [] => [] | c :: cs' => answer_of h c :: answers (c :: h) cs' end.

(** The changes one after the other, with what each of them answered. *)
Fixpoint run_changes (sb : Sandbox) (cs : list Change) (w : W) : list bool * W :=
  match cs with
  | [] => ([], w)
  | c :: cs' =>
      let '(r, w1) := change sb c w in
      let '(rs, w2) := run_changes sb cs' w1 in (is_ok r :: rs, w2)
  end.

Definition gate_of (h : list Change) (g : Gate) : Prop :=
  (forall ip, ip ∈ g.1 <-> ip_open h ip = true) /\
  (forall port, 0 <= port -> (dec port ∈ g.2 <-> port_open h port = true)).

Lemma gate_of_ok h g c : proper c -> gate_of h g -> gate_ok c g = answer_of h c.
Proof.
  intros Hp [G1 G2]. destruct c as [ip port|ip port]; [done|]. cbn in *. destruct Hp as [_ Hp]. specialize (G1 ip).
  specialize (G2 port ltac:(lia)). f_equal; case_bool_decide; symmetry; solve [tauto | apply not_true_is_false; tauto].
Qed.

Lemma gate_of_next h g c : proper c -> gate_of h g -> gate_of (c :: h) (gate_next c g).
Proof.
  intros Hp [G1 G2]. destruct c as [ip port|ip port]; destruct Hp as [_ Hp]; split; cbn -[dec].
  - intros x. rewrite elem_of_union, elem_of_singleton, orb_true_iff, bool_decide_eq_true, G1. naive_solver.
  - intros q Hq. rewrite elem_of_union, elem_of_singleton, orb_true_iff, bool_decide_eq_true, G2 by done.
    split; intros [E|E]; auto; left; [symmetry; apply dec_inj; [lia|lia|done]|by subst].
  - intros x. rewrite andb_true_iff, negb_true_iff, bool_decide_eq_false, <- G1. case_decide; [cbn; set_solver|].
    split; [|tauto]. intros Hx. split; [|done]. by intros ->.
  - intros q Hq. rewrite andb_true_iff, negb_true_iff, andb_false_iff, bool_decide_eq_false, <- G2 by done. specialize (G1 ip).
    case_decide as Hi; cbn -[dec].
    + rewrite elem_of_difference, elem_of_singleton. rewrite (proj1 G1 Hi). split.
      * intros [H1 H2]. split; [right; by intros ->|done].
      * intros [[?|H1] H2]; [done|]. split; [done|]. intros E. apply H1. symmetry. apply dec_inj; [lia|lia|done].
    + split; [|tauto]. intros Hx. split; [|done]. left. apply not_true_is_false. tauto.
Qed.

Lemma runs_all sb hook cs h g w :
  Forall proper cs -> can_run (sb_root sb) (sb_netns sb) w -> holds_gate sb hook g w -> gate_of h g ->
  let '(rs, w') := run_changes sb cs w in
  rs = answers h cs /\ can_run (sb_root sb) (sb_netns sb) w' /\
  exists g', holds_gate sb hook g' w' /\ gate_of (rev cs ++ h) g'.
Proof.
  intros Hp. revert h g w. induction Hp as [|c cs Hc Hcs IH]; intros h g w Hw Hg Hh; [by cbn; eauto|].
  cbn [run_changes answers rev]. pose proof (change_gate sb hook c g w Hc Hg) as H1. destruct (change sb c w) as [r w1].
  destruct H1 as (g1 & [A1 _ _ _ _ A6]). destruct (A6 Hw) as (Hw1 & -> & Hr).
  specialize (IH (c :: h) _ w1 Hw1 A1 (gate_of_next _ _ _ Hc Hh)). destruct (run_changes sb cs w1) as [rs w2].
  destruct IH as (-> & Hw2 & Hg2). rewrite Hr, (gate_of_ok h g c) by done. rewrite <- app_assoc. by split.
Qed.

(** C24: exactly what is open passes, and the table goes.  On a host where [nft]
    can be run, after [ensure] and any sequence of openings and withdrawals:
    every opening succeeds, and a withdrawal exactly when its address and its
    port are open; a packet passes the table exactly when it belongs to an
    established connection or is TCP to an open address and to an open port,
    where an address is open when the latest change that names it opened it,
    and a port likewise, but for withdrawals of an address that was not open,
    which do nothing.  So closing a destination also closes its port for the
    other addresses.  [teardown] succeeds, and the table is gone. *)
Theorem opened_passes (cfg : FwCfg) (w : W) (sb : Sandbox) (w1 : W) (cs : list Change) :
  plain (fw_table cfg) -> ensure cfg w = (Ok sb, w1) -> can_run (fw_root cfg) (fw_netns cfg) w1 -> Forall proper cs ->
  let '(rs, w2) := run_changes sb cs w1 in
  rs = answers [] cs /\
  (exists t, rules w2 (fw_netns cfg) !! fw_table cfg = Some t /\
     forall p, 0 <= pk_dport p ->
       (passes (hook_of (hook_forward cfg)) t p = true <->
        pk_established p = true \/
        (pk_tcp p = true /\ ip_open (rev cs) (pk_daddr p) = true /\ port_open (rev cs) (pk_dport p) = true))) /\
  let '(r3, w3) := teardown sb w2 in
  r3 = Ok tt /\ rules w3 (fw_netns cfg) !! fw_table cfg = None /\ (exists_ sb w3).1 = Ok false.
Proof.
  intros Hp He Hc Hl. destruct (ensure_gate cfg w sb w1 Hp He) as (-> & Hg & _).
  assert (gate_of [] (∅, ∅)) as Hno by (split; intros; cbn; set_solver).
  pose proof (runs_all (mkSandbox (fw_table cfg) (fw_root cfg) (fw_netns cfg)) _ cs _ _ _ Hl Hc Hg Hno) as H1.
  destruct (run_changes _ cs w1) as [rs w2]. destruct H1 as (-> & Hc2 & g & (t & Ht & G) & [G1 G2]). rewrite app_nil_r in G1, G2.
  split; [done|]. cbn [fst snd sb_netns sb_table] in *. split.
  - exists t. split; [done|]. intros p Hd. rewrite (gated_passes _ _ _ _ _ G), <- G1, <- G2 by done.
    rewrite orb_true_iff, !andb_true_iff, !bool_decide_eq_true. tauto.
  - unfold teardown, mbind. pose proof (nft_run_cmd (fw_root cfg) (fw_netns cfg) (DeleteTable (fw_table cfg)) w2 I) as H3.
    cbn [sb_root sb_netns sb_table cmd_args] in *.
    destruct (nft_run _ _ ["delete"; "table"; "inet"; fw_table cfg]%string w2) as [r3 w3]. destruct H3 as (E3 & _ & C3).
    destruct (C3 Hc2) as [Hc3 Hs]. cbn [cmd_effect] in *. rewrite Ht in *. cbn in Hs, E3. specialize (Hs ltac:(eauto)).
    destruct r3 as [x|]; [|done]. destruct E3 as [[_ E3]|[? _]]; [|done]. injection E3 as E3. split; [done|]. rewrite <- E3.
    split; [apply lookup_delete_eq|]. unfold exists_, list_ruleset. cbn [sb_root sb_netns sb_table].
    pose proof (nft_run_cmd (fw_root cfg) (fw_netns cfg) (ListTable (fw_table cfg)) w3 I) as H4. cbn [cmd_args] in H4.
    destruct (nft_run _ _ ["list"; "table"; "inet"; fw_table cfg]%string w3) as [r4 w4]. destruct H4 as (E4 & _ & _).
    cbn [cmd_effect] in E4. rewrite <- E3, lookup_delete_eq in E4. cbn in E4. destruct E4 as [[_ E4]|[E4 _]]; [done|]. cbn. by rewrite E4.
Qed.

(** Closing one destination closes others: the addresses and the ports are two
    independent sets, and closing takes the port out of the set. *)
Lemma withdraw_cuts_others cfg w sb w1 ip ip' port :
  plain (fw_table cfg) -> ensure cfg w = (Ok sb, w1) -> is_ipv4 ip -> is_ipv4 ip' -> 0 <= port < 65536 ->
  let w2 := changes sb [Allow ip port; Allow ip' port] w1 in
  let '(r, w3) := remove_allow sb ip port w2 in
  r = Ok tt ->
  exists t, rules w3 (fw_netns cfg) !! fw_table cfg = Some t /\
    passes (hook_of (hook_forward cfg)) t (mkPacket false true ip' port) = false.
Proof.
  intros Hp He Hi Hi' Hport w2. destruct (ensure_gate cfg w sb w1 Hp He) as (-> & Hg & _).
  assert (Forall proper [Allow ip port; Allow ip' port]) as Hcs by (apply Forall_cons; split; [done|]; apply Forall_cons; by split).
  destruct (changes_gate _ _ _ _ _ Hcs Hg) as (g & G2 & _).
  fold w2 in G2. pose proof (change_gate _ _ (Withdraw ip port) g w2 (conj Hi Hport) G2) as H3. cbn [change] in H3.
  destruct (remove_allow _ ip port w2) as [r w3]. destruct H3 as (g3 & [(t & Ht & Hgt) _ _ H3 _ _]). intros ->.
  exists t. split; [done|]. rewrite (gated_passes _ _ _ _ _ Hgt), (H3 eq_refl). cbn.
  rewrite (bool_decide_eq_false_2 (dec port ∈ _)) by set_solver. by rewrite andb_false_r.
Qed.
End Filter.

(** ** A host that obeys the laws *)

(** The rule sets of the namespaces, and an [nft] that runs what the laws speak
    of. *)
Definition RefHost : Type := option string -> Rules.

Definition nft_call (argv : list string) : option (option string * list string) :=
  match argv with
  | "nft" :: args => Some (None, args)
  | "ip" :: "netns" :: "exec" :: ns :: "nft" :: args => Some (Some ns, args)
  | "sudo" :: "-n" :: "nft" :: args => Some (None, args)
  | "sudo" :: "-n" :: "ip" :: "netns" :: "exec" :: ns :: "nft" :: args => Some (Some ns, args)
  | _ => None
  end%string.

Definition braced (x : string) : option string := y ← strip_prefix "{ " x; strip_suffix " }" y.

Definition read_cmd (args : list string) : option Cmd :=
  match args with
  | ["add"; "element"; "inet"; t; s; x] => AddElement t s <$> braced x
  | ["delete"; "element"; "inet"; t; s; x] => DeleteElement t s <$> braced x
  | ["delete"; "table"; "inet"; t] => Some (DeleteTable t)
  | ["list"; "table"; "inet"; t] => Some (ListTable t)
  | _ => None
  end%string.

Definition refused : Output := mkOut false (Some 1) "" "Error".

Definition take_effect (ns : option string) (eff : option Rules) (w : RefHost) : Output * RefHost :=
  match eff with
  | Some rs => (mkOut true (Some 0) "" "", fun n => if decide (n = ns) then rs else w n)
  | None => (refused, w)
  end.

#[global] Instance ref_host : Host RefHost := {
  output := fun argv w =>
    match nft_call argv with
    | Some (ns, args) =>
        match read_cmd args with
        | Some c => let '(o, w') := take_effect ns (cmd_effect c (w ns)) w in (Ok o, w')
        | None => (Ok refused, w)
        end
    | None => (Err "No such file or directory"%string, w)
    end;
  piped := fun argv script w =>
    match nft_call argv with
    | Some (ns, _) => let '(o, w') := take_effect ns (apply_script script (w ns)) w in (Ok o, w')
    | None => (Err (SpawnFailed "No such file or directory"), w)
    end
}.

Lemma nft_call_base root ns args : nft_call (nft_base root ns ++ args) = Some (ns, args).
Proof. by destruct root, ns. Qed.

Lemma read_cmd_args c : read_cmd (cmd_args c) = Some c.
Proof.
  destruct c as [t s x|t s x|t|t]; cbn [cmd_args read_cmd]; [| |done..]; unfold braced; rewrite strip_prefix_app; cbn [base.mbind option_bind];
    by rewrite strip_suffix_app.
Qed.

Lemma performs_effect {E} ns (m : RefHost -> result Output E * RefHost) effect :
  (forall w, m w = (let '(o, w') := take_effect ns (effect (w ns)) w in (Ok o, w'))) ->
  performs (fun w n => w n) (fun _ => True) ns m effect.
Proof.
  intros Hm. split; intros w; intros; rewrite Hm in *; unfold take_effect in *; destruct (effect (w ns)) as [rs|]; simplify_eq/=.
  - by rewrite decide_True.
  - by destruct H0 as (o & [= <-] & [=]).
  - done.
  - by rewrite decide_False.
  - done.
  - split; [done|]. intros _. by eexists.
  - split; [done|]. by intros [? ?].
Qed.

#[global] Program Instance ref_laws : NftLaws RefHost := {|
  rules := fun w ns => w ns; can_run := fun _ _ _ => True
|}.
Next Obligation.
  intros argv w e w'. cbn. destruct (nft_call argv) as [[ns args]|]; [|by intros [= <- <-]].
  destruct (read_cmd args) as [c|]; [|done]. by destruct (take_effect ns (cmd_effect c (w ns)) w).
Qed.
Next Obligation. intros root ns script _. apply performs_effect. intros w. cbn. by rewrite nft_call_base. Qed.
Next Obligation. intros root ns c _. apply performs_effect. intros w. cbn. by rewrite nft_call_base, read_cmd_args. Qed.

Definition some_fw : FwCfg := mkFw "sl_fw_1" true (Some "sl-1"%string) true.
Definition some_sb : Sandbox := mkSandbox "sl_fw_1" true (Some "sl-1"%string).
Definition no_rules : RefHost := fun _ => ∅.
Definition ensured : RefHost := (ensure some_fw no_rules).2.

Lemma ensured_eq : ensure some_fw no_rules = (Ok some_sb, ensured).
Proof.
  unfold ensured, ensure, mbind, nft_apply. cbn -[apply_script ensure_script]. rewrite ensure_applies; [done|]. by vm_compute.
Qed.

Lemma some_ipv4 : is_ipv4 "10.0.0.5".
Proof. exists 10, 0, 0, 5. repeat split; lia. Qed.

Lemma only_opened_passes_witness :
  exists t, rules (changes some_sb [Allow "10.0.0.5" 443; Withdraw "10.0.0.5" 80] ensured) (Some "sl-1"%string) !! "sl_fw_1"%string = Some t /\
    (passes "forward" t (mkPacket false true "10.0.0.9" 443) = true -> exists port, In (Allow "10.0.0.9" port) [Allow "10.0.0.5" 443; Withdraw "10.0.0.5" 80]).
Proof.
  destruct (only_opened_passes some_fw no_rules some_sb ensured [Allow "10.0.0.5" 443; Withdraw "10.0.0.5" 80]
              (mkPacket false true "10.0.0.9" 443)) as (t & Ht & Hp & _).
  - split; [reflexivity|discriminate].
  - exact ensured_eq.
  - apply Forall_cons; split; [split; [exact some_ipv4|lia]|]. apply Forall_cons; split; [split; [exact some_ipv4|lia]|constructor].
  - exists t. split; [exact Ht|]. intros H. exact (proj1 (proj2 (Hp H eq_refl))).
Defined.

Definition some_changes : list Change := [Allow "10.0.0.5" 443; Allow "10.0.0.6" 443; Withdraw "10.0.0.5" 443]%string.

Lemma opened_passes_witness :
  let '(rs, w2) := run_changes some_sb some_changes ensured in
  rs = [true; true; true] /\
  exists t, rules w2 (Some "sl-1"%string) !! "sl_fw_1"%string = Some t /\
    ~ passes "forward" t (mkPacket false true "10.0.0.6" 443) = true.
Proof.
  pose proof (opened_passes some_fw no_rules some_sb ensured some_changes) as H.
  destruct (run_changes some_sb some_changes ensured) as [rs w2].
  destruct H as (H1 & (t & Ht & H2) & _).
  - split; [reflexivity|discriminate].
  - exact ensured_eq.
  - exact I.
  - assert (is_ipv4 "10.0.0.6") by (exists 10, 0, 0, 6; repeat split; lia).
    apply Forall_cons; split; [split; [exact some_ipv4|lia]|]. apply Forall_cons; split; [split; [done|lia]|].
    apply Forall_cons; split; [split; [exact some_ipv4|lia]|constructor].
  - split; [exact H1|]. exists t. split; [exact Ht|]. intros Hp. apply H2 in Hp; [|cbn; lia]. destruct Hp as [Hp|(_ & _ & Hp)]; discriminate Hp.
Defined.
