(* ===== verification/SelfCheck.v ===== *)
(** * The self checks of the node on its store (crates/sl-node/src/lib.rs)

    The modes [--election-reconcile], [--retention-reconcile],
    [--sched-reconcile], [--quota-reconcile], [--auth-reconcile],
    [--cluster-reconcile] and [--node-reclaim-reconcile]: each runs a script of
    assertions over the store, on etcd when it is asked for and on a temporary
    SQLite file otherwise.  The scripts are programs over the class [Store]; the
    theorems say that on the temporary file each of them ends in PASS, and the
    script about keys does so on every lawful store. *)

From Stdlib Require Import ZArith Lia Bool List String Ascii.
From stdpp Require Import base tactics list gmap strings sorting.
From S2P Require Import Prelude RustStr Utf8 Json Store Sqlite SqliteSpec StoreTheorems Backend.
From S2P Require Import Cluster Election Quota Sched Auth Retention AuditLog.

Open Scope Z_scope.

(** [want!(c, m)] *)
Definition want {S} (c : bool) (m : string) : M S string unit := if c then mret tt else mfail m.

Definition is_some {A} (o : option A) : bool := match o with Some _ => true | None => false end.

(** [let _ = m;] *)
Definition ignore {S E A} (m : M S E A) : M S E unit := let? _ := mtry m in mret tt.

Section Checks.
Context {S : Type} {St : Store S}.

(** [for kv in store.list(pfx)? { let _ = store.delete(&kv.key); }] *)
Definition wipe (pfx : string) : M S string unit :=
  let? kvs := text (list_prefix pfx) in
  mfor kvs (fun kv => ignore (text (delete_key (kv_key kv)))).

(** [for kv in store.list(pfx)? { store.delete(&kv.key)?; }] *)
Definition wipe_strict (pfx : string) : M S string unit :=
  let? kvs := text (list_prefix pfx) in
  mfor kvs (fun kv => let? _ := text (delete_key (kv_key kv)) in mret tt).

(** *** Election *)

(** Two participants, each with a handle on the one store. *)
Definition by_a {A} (m : EM S A) : M (S * Election * Election) string A :=
  fun st => let '(s, a, b) := st in
            let '(r, (s', a')) := m (s, a) in (err_text r, (s', a', b)).
Definition by_b {A} (m : EM S A) : M (S * Election * Election) string A :=
  fun st => let '(s, a, b) := st in
            let '(r, (s', b')) := m (s, b) in (err_text r, (s', a, b')).
Definition leaders : M (S * Election * Election) string (bool * bool) :=
  fun st => let '(s, a, b) := st in (Ok (is_leader a, is_leader b), st).

Definition election_asserts (now : Z) : M (S * Election * Election) string unit :=
  let? w := by_a (try_campaign now) in
  let? _ := want w "A 应当选" in
  let? w := by_b (try_campaign now) in
  let? _ := want (negb w) "B 应落败（A 持有）" in
  let? l := leaders in
  let? _ := want (l.1 && negb l.2) "任一时刻至多一个 leader" in
  let? w := by_a (try_campaign now) in
  let? _ := want w "A 续租应仍为 leader" in
  let? w := by_b (try_campaign now) in
  let? _ := want (negb w) "B 仍应落败" in
  let? _ := by_a resign in
  let? l := leaders in
  let? _ := want (negb l.1) "A resign 后应非 leader" in
  let? w := by_b (try_campaign now) in
  let? _ := want w "A 让位后 B 应夺主" in
  let? w := by_a (try_campaign now) in
  let? _ := want (negb w) "此时 A 应落败（B 持有）" in
  let? l := leaders in
  let? _ := want (l.2 && negb l.1) "至多一个 leader（换 B）" in
  by_b resign.

(** *** Replicas *)

(** Two handles on the one back end. *)
Definition cluster_asserts (now : Z) : M S string unit :=
  let? _ := wipe_strict "node/" in
  let? _ := wipe_strict "sandbox/" in
  let? _ := text (register_node now "repA" "a" 30) in
  let? l := text (lease_grant now 30) in
  let? _ := text (put "sandbox/s1/meta" (render (JObj [("id"%string, JStr "s1")])) (Some l)) in
  let? _ := text (put (sandbox_node_key "s1") "repA" (Some l)) in
  let? live := text live_nodes in
  let? _ := want (existsb (String.eqb "repA") live) "B 应见到 A 注册的节点 repA（跨副本共享）" in
  let? o := text (get "sandbox/s1/meta") in
  let? _ := want (is_some o) "B 应见到 A 创建的沙箱 s1（跨副本共享）" in
  let? kvs := text (list_prefix "node/") in
  let ids := omap kv_lease kvs in
  let? _ := mfor ids (fun id => let? _ := text (lease_revoke id) in mret tt) in
  let? live := text live_nodes in
  let? _ := want (bool_decide (live = [])) "repA 撤心跳后应无存活节点" in
  let? reclaimed := text (reclaim_orphans (Some "repB"%string)) in
  let? _ := want (bool_decide (reclaimed = ["s1"%string])) "B 作 leader 应回收失联 repA 的 s1" in
  let? o := text (get "sandbox/s1/meta") in
  let? _ := want (negb (is_some o)) "s1 应跨副本同步消失" in
  wipe_strict "sandbox/".

Definition put_leased (k v : string) (l : Z) : M S string unit :=
  let? _ := text (put k v (Some l)) in mret tt.

Definition node_reclaim_asserts (now : Z) : M S string unit :=
  let? _ := wipe_strict "node/" in
  let? _ := wipe_strict "sandbox/" in
  let? la := text (register_node now "node-a" "a" 30) in
  let? lb := text (register_node now "node-b" "b" 30) in
  let? live := text live_nodes in
  let? _ := want (Nat.eqb (length live) 2) "两节点应存活" in
  let? l1 := text (lease_grant now 30) in
  let? _ := put_leased "sandbox/s1/meta" "{}" l1 in
  let? _ := put_leased (sandbox_node_key "s1") "node-a" l1 in
  let? l2 := text (lease_grant now 30) in
  let? _ := put_leased "sandbox/s2/meta" "{}" l2 in
  let? _ := put_leased (sandbox_node_key "s2") "node-b" l2 in
  let? r := text (reclaim_orphans None) in
  let? _ := want (bool_decide (r = [])) "都存活时不应回收" in
  let? _ := text (lease_revoke la) in
  let? live := text live_nodes in
  let? _ := want (bool_decide (live = ["node-b"%string])) "仅 B 存活" in
  let? r := text (reclaim_orphans None) in
  let? _ := want (bool_decide (r = ["s1"%string])) "应只回收失联 A 的 s1" in
  let? o := text (get "sandbox/s1/meta") in
  let? _ := want (negb (is_some o)) "s1 应被清" in
  let? o := text (get "sandbox/s2/meta") in
  let? _ := want (is_some o) "s2 应保留" in
  let? _ := text (lease_revoke lb) in
  let? r := text (reclaim_orphans (Some "node-b"%string)) in
  let? _ := want (bool_decide (r = [])) "护栏应保住自身 s2" in
  let? o := text (get "sandbox/s2/meta") in
  let? _ := want (is_some o) "护栏后 s2 仍在" in
  let? _ := wipe_strict "node/" in
  wipe_strict "sandbox/".

(** *** API keys *)

(** [r1] .. [r4] are the random bytes of the four keys. *)
Definition auth_asserts (Sha256 : string -> string) (r1 r2 r3 r4 : string) : M S string unit :=
  let find token := lookup_key Sha256 token in
  let found (o : option ApiKeyRecord) : M S string ApiKeyRecord :=
    match o with Some k => mret k | None => mfail "called `Option::unwrap()` on a `None` value"%string end in
  let? _ := wipe "apikey/" in
  let? ro := create_key Sha256 r1 "acme" "projA" ReadOnly in
  let? rw := create_key Sha256 r2 "acme" "projA" ReadWrite in
  let? bd := create_key Sha256 r3 "acme" "projA" Build in
  let? rwb := create_key Sha256 r4 "acme" "projB" ReadWrite in
  let? o := find ro in
  let? _ := want (is_some o) "有效 key 应查到" in
  let? o := find "bad-token"%string in
  let? _ := want (negb (is_some o)) "无效 key 应无记录" in
  let? o := find ro in let? ro_r := found o in
  let? _ := want (allows (k_scope ro_r) OpRead && negb (allows (k_scope ro_r) OpWrite)) "readonly 应只读" in
  let? o := find rw in let? rw_r := found o in
  let? _ := want (allows (k_scope rw_r) OpWrite && negb (allows (k_scope rw_r) OpBuild)) "readwrite 不应允许 build" in
  let? o := find bd in let? bd_r := found o in
  let? _ := want (allows (k_scope bd_r) OpBuild && allows (k_scope bd_r) OpWrite) "build 应全能" in
  let? o := find rwb in let? rwb_r := found o in
  let? _ := want (String.eqb (k_project rw_r) "projA" && String.eqb (k_project rwb_r) "projB") "项目归属应各自独立" in
  let? _ := want (negb (String.eqb (k_project rw_r) (k_project rwb_r))) "跨项目 key 项目应不同" in
  wipe "apikey/".
End Checks.

#[global] Instance Pin_eq_dec : EqDecision Pin.
Proof. solve_decision. Defined.

Section JsonChecks.
Context {S : Type} {St : Store S} {Js : SerdeJson}.

Definition no_limits : Limits := mkLimits 0 0 0 0.

(** [m.unwrap_err()] *)
Definition unwrap_err {A} (m : M S string A) : M S string string :=
  let? r := mtry m in
  match r with Err e => mret e | Ok _ => mfail "called `Result::unwrap_err()` on an `Ok` value"%string end.

Definition sized_meta (vcpus mem : Z) : string := render (JObj [("vcpus"%string, JNum vcpus); ("mem_mib"%string, JNum mem)]).

(** *** Retention *)

Definition retention_asserts (iter : gmap string (Z * option Z) -> list (string * (Z * option Z))) : M S string unit :=
  let? _ := wipe "sandbox/" in
  let? _ := wipe "quota/" in
  let now := 2000000 in
  let pin := mkPin "t1" "6.6.10" "1.7.0" in
  let? _ := set_pin "sb1" pin None in
  let? p := get_pin "sb1" in
  let? _ := want (bool_decide (p = Some pin)) "版本钉往返不符" in
  let? _ := want (match check_compat pin "6.6.10" "1.7.0" [] with CompatOk => true | _ => false end) "精确匹配应 Ok" in
  let? _ := want (match check_compat pin "6.6.11" "1.7.0" ["6.6.10"%string] with OldKernelWarn => true | _ => false end) "N-1 应警告" in
  let? _ := want (match check_compat pin "6.6.10" "1.8.0" [] with Incompatible _ => true | _ => false end) "VMM 不符应拒" in
  let? _ := want (match check_compat pin "6.6.11" "1.7.0" [] with Incompatible _ => true | _ => false end) "内核越界应拒" in
  let? _ := text (put "sandbox/exp/meta" "{}" None) in
  let? _ := text (put "sandbox/exp/state" "paused" None) in
  let? _ := set_retention "exp" (now - 1) None in
  let? _ := text (put "sandbox/keep/state" "paused" None) in
  let? _ := set_retention "keep" (now + 3600) None in
  let? gced := gc_expired iter now in
  let? _ := want (bool_decide (gced = ["exp"%string])) "应只 GC 过期的 exp" in
  let? o := text (get "sandbox/exp/meta") in
  let? _ := want (negb (is_some o)) "exp 应被 GC" in
  let? o := text (get "sandbox/keep/state") in
  let? _ := want (is_some o) "未过期 keep 应留" in
  let? _ := set_limits "projA" (mkLimits 0 0 0 1024) in
  let? _ := text (put "sandbox/s1/meta" (sized_meta 1 128) None) in
  let? _ := text (put "sandbox/s1/project" "projA" None) in
  let? _ := set_size "s1" 600 None in
  let? r := mtry (check "projA" 0 0 400) in
  let? _ := want (is_ok r) "1000<=1024 应放行" in
  let? e := unwrap_err (check "projA" 0 0 500) in
  let? _ := want (starts_with QUOTA_EXCEEDED e) "1100>1024 应超限" in
  let? _ := wipe "sandbox/" in
  wipe "quota/".

(** *** Placement *)

(** One turn of the loop: survey, place, and write the sandbox down. *)
Definition place_one (placed : list string) (i : Z) : M S string (list string) :=
  let? nodes := survey in
  match place nodes 2 2048 "sc-a" default_policy with
  | None => mfail ("第 " ++s dec i ++s " 个沙箱无处可放（不该发生）")
  | Some target =>
      let sid := "sc-s" ++s dec i in
      let? _ := text (put ("sandbox/" ++s sid ++s "/meta") (sized_meta 2 2048) None) in
      let? _ := text (put (sandbox_node_key sid) target None) in
      mret (placed ++ [target])
  end.

(** The usage a survey reports for a node. *)
Definition node_has (nodes : list NodeLoad) (id : string) : M S string unit :=
  match List.find (fun n => String.eqb (n_id n) id) nodes with
  | None => mfail ("盘点里缺 " ++s id)
  | Some n => want ((n_sandboxes n =? 2) && (n_used_mem_mib n =? 4096) && (n_used_vcpus n =? 4)) 
      (id ++s " 用量应为 2 台/4c/4096M，实得 " ++s dec (n_sandboxes n) ++s "/" ++s dec (n_used_vcpus n) ++s "c/" ++s dec (n_used_mem_mib n) ++s "M")
  end.

Definition three : list string := ["sc-a"; "sc-b"; "sc-c"]%string.

Definition sched_asserts (now : Z) : M S string unit :=
  let? _ := wipe "sandbox/" in
  let? _ := wipe "node/" in
  let? _ := mfor three (fun id =>
    let? _ := text (register_node now id (cap_to_json (mkCap id 8 8192)) 3600) in mret tt) in
  let? _ := text (register_node now "sc-legacy" (render (JObj [("addr"%string, JStr "old")])) 3600) in
  let? placed := mfold place_one [0; 1; 2; 3; 4; 5] [] in
  let? _ := want (Nat.eqb (length (remove_dups placed)) 3) ("6 个沙箱应铺到 3 个节点上，实得 " ++s debug_list placed ++s "（闭环没闭上？）") in
  let? _ := mfor three (fun id =>
    let n := length (List.filter (String.eqb id) placed) in
    want (Nat.eqb n 2) (id ++s " 应分到 2 个，实得 " ++s dec (Z.of_nat n) ++s "（" ++s debug_list placed ++s "）")) in
  let? _ := want (negb (existsb (String.eqb "sc-legacy") placed)) "未自报容量的节点不该被选中" in
  let? nodes := survey in
  let? _ := mfor three (node_has nodes) in
  let? _ := want (negb (is_some (place nodes 1 8192 "sc-a" default_policy))) "放不下时应返回 None" in
  let? _ := want (is_some (place nodes 1 8192 "sc-a" (mkPolicy 2))) "超售后应放得下" in
  let? _ := ignore (text (delete_key (node_key "sc-b"))) in
  let? nodes := survey in
  let? _ := want (negb (existsb (fun n => String.eqb (n_id n) "sc-b") nodes)) "失联节点应从盘点里消失" in
  let? _ := want (negb (bool_decide (place nodes 2 512 "sc-a" default_policy = Some "sc-b"%string))) "失联节点不该再被选中" in
  let? _ := wipe "sandbox/" in
  wipe "node/".

(** *** Quotas and the audit log *)

Definition put_sb (id proj : string) (vcpu mem : Z) : M S string unit :=
  let? _ := text (put ("sandbox/" ++s id ++s "/meta")
                      (render (JObj [("id"%string, JStr id); ("vcpus"%string, JNum vcpu); ("mem_mib"%string, JNum mem)])) None) in
  let? _ := text (put ("sandbox/" ++s id ++s "/project") proj None) in
  mret tt.

Definition quota_part : M S string unit :=
  let? _ := wipe "sandbox/" in
  let? _ := wipe "quota/" in
  let? _ := wipe "audit/" in
  let? _ := set_limits "projA" (mkLimits 2 0 0 0) in
  let? r := mtry (check "projA" 1 128 0) in
  let? _ := want (is_ok r) "空项目应可建" in
  let? _ := put_sb "s1" "projA" 1 128 in
  let? _ := put_sb "s2" "projA" 1 128 in
  let? e := unwrap_err (check "projA" 1 128 0) in
  let? _ := want (starts_with QUOTA_EXCEEDED e) "超限应 QUOTA_EXCEEDED" in
  let? _ := mfor ["sandbox/s2/meta"; "sandbox/s2/project"]%string (fun k => let? _ := text (delete_key k) in mret tt) in
  let? r := mtry (check "projA" 1 128 0) in
  let? _ := want (is_ok r) "删后应可再建" in
  let? r := mtry (check "projB" 100 100000 0) in
  want (is_ok r) "projB 未设配额应不限".

Fixpoint contains_str (p s : string) : bool :=
  starts_with p s || match s with String _ s' => contains_str p s' | EmptyString => false end.

(** The state holds the sequence number of the audit log too. *)
Definition quota_asserts (now : Z) : M (S * Z) string unit :=
  let? _ := on_fst quota_part in
  let? _ := record now "projA" "create_sandbox" "s1" 201 in
  let? _ := record now "projA" "delete_sandbox" "s2" 204 in
  let? entries := on_fst audit_list in
  let? _ := want (Nat.eqb (length entries) 2) "应两条审计" in
  let? _ := want (match entries with
                  | e0 :: e1 :: _ => contains_str "create_sandbox" e0 && contains_str "delete_sandbox" e1
                  | _ => false
                  end) "审计有序" in
  on_fst (let? _ := wipe "sandbox/" in let? _ := wipe "quota/" in wipe "audit/").
End JsonChecks.

(** ** The modes *)

Section Modes.
(** The build, the connection to etcd and the temporary file, which is new. *)
Context {G : Type} {Sg : Store G} {Js : SerdeJson}.
Context (cluster : bool) (connect : string -> result G StoreError) (open_temp : result SqliteStore StoreError).

(** The etcd at the end point when there is one, a temporary SQLite file
    otherwise; a check that passes prints its line. *)
Definition on_store (etcd : option string) (refused : string -> string)
    (on_etcd : G -> result unit string) (etcd_line : string -> string)
    (on_file : SqliteStore -> result unit string) (file_line : string) : result (list string) string :=
  match etcd with
  | Some ep =>
      if cluster then
        match connect ep with
        | Err e => Err (store_error_display e)
        | Ok g => match on_etcd g with Ok _ => Ok [etcd_line ep] | Err m => Err m end
        end
      else Err (refused ep)
  | None =>
      match open_temp with
      | Err e => Err (store_error_display e)
      | Ok s => match on_file s with Ok _ => Ok [file_line] | Err m => Err m end
      end
  end.

Definition needs_cluster (mode ep : string) : string := mode ++s " --etcd " ++s ep ++s " 需以 `--features cluster` 构建".

Definition run_election_reconcile (now : Z) (etcd : option string) : result (list string) string :=
  let a := new_election "node-a" 30 in
  let b := new_election "node-b" 30 in
  on_store etcd (needs_cluster "--election-reconcile")
    (fun g => let g' := (delete_key LEADER_KEY g).2 in (election_asserts now (g', a, b)).1)
    (fun ep => "[election] EtcdStore(" ++s ep ++s ") 双竞选者：单 leader + resign failover + 无双主 PASS")
    (fun s => (election_asserts now (s, a, b)).1)
    "[election] SqliteStore(file) 双竞选者：单 leader + resign failover + 无双主 PASS".

Definition run_retention_reconcile iter (etcd : option string) : result (list string) string :=
  on_store etcd (needs_cluster "--retention-reconcile")
    (fun g => (retention_asserts iter g).1)
    (fun ep => "[retention] EtcdStore(" ++s ep ++s ") 保留期 GC + 版本兼容矩阵 + 存储配额 PASS")
    (fun s => (retention_asserts iter s).1)
    "[retention] SqliteStore(file) 保留期 GC + 版本兼容矩阵 + 存储配额 PASS".

Definition run_sched_reconcile (now : Z) (etcd : option string) : result (list string) string :=
  on_store etcd (needs_cluster "--sched-reconcile")
    (fun g => (sched_asserts now g).1)
    (fun ep => "[sched] EtcdStore(" ++s ep ++s ") 盘点→选点→落账→再盘点闭环 + 容量准入 + 失联退出 PASS")
    (fun s => (sched_asserts now s).1)
    "[sched] SqliteStore(file) 盘点→选点→落账→再盘点闭环 + 容量准入 + 失联退出 PASS".

Definition run_quota_reconcile (now seq : Z) (etcd : option string) : result (list string) string :=
  on_store etcd (needs_cluster "--quota-reconcile")
    (fun g => (quota_asserts now (g, seq)).1)
    (fun ep => "[quota] EtcdStore(" ++s ep ++s ") 配额+审计：超限拒 / 删后可建 / 项目隔离 / 审计 append 可查 PASS")
    (fun s => (quota_asserts now (s, seq)).1)
    "[quota] SqliteStore(file) 配额+审计：超限拒 / 删后可建 / 项目隔离 / 审计 append 可查 PASS".

Definition run_auth_reconcile (Sha256 : string -> string) (r1 r2 r3 r4 : string) (etcd : option string) : result (list string) string :=
  on_store etcd (needs_cluster "--auth-reconcile")
    (fun g => (auth_asserts Sha256 r1 r2 r3 r4 g).1)
    (fun ep => "[auth] EtcdStore(" ++s ep ++s ") 鉴权：key 有效性 + 作用域层级 + 项目隔离 PASS")
    (fun s => (auth_asserts Sha256 r1 r2 r3 r4 s).1)
    "[auth] SqliteStore(file) 鉴权：key 有效性 + 作用域层级 + 项目隔离 PASS".

Definition run_cluster_reconcile (now : Z) (etcd : option string) : result (list string) string :=
  on_store etcd (needs_cluster "--cluster-reconcile")
    (fun g => (cluster_asserts now g).1)
    (fun ep => "[cluster] EtcdStore(" ++s ep ++s ") 跨副本：A 写 B 见 + 失联回收跨副本同步 PASS")
    (fun s => (cluster_asserts now s).1)
    "[cluster] SqliteStore(file) 两句柄共享：A 写 B 见 + 失联回收同步 PASS".

Definition run_node_reclaim_reconcile (now : Z) (etcd : option string) : result (list string) string :=
  on_store etcd (needs_cluster "--node-reclaim-reconcile")
    (fun g => (node_reclaim_asserts now g).1)
    (fun ep => "[reclaim] EtcdStore(" ++s ep ++s ") 节点失联回收：心跳 + 孤儿回收 + 存活不动 + 护栏 PASS")
    (fun s => (node_reclaim_asserts now s).1)
    "[reclaim] SqliteStore(file) 节点失联回收：心跳 + 孤儿回收 + 存活不动 + 护栏 PASS".
End Modes.

(** ** The check of the keys, on every lawful store *)

Section Keys.
Context {S : Type} {St : Store S} {La : StoreLaws S} (Sha256 : string -> string).

(** The loop of [wipe] on a healthy store. *)
Lemma wipe_loop l (s : S) :
  inv s -> healthy s ->
  wp (mfor l (fun kv => ignore (text (delete_key (kv_key kv))))) s (fun r s' => r = Ok tt /\ inv s' /\ healthy s' /\
    forall k, a_kv (abs s') !! k = if decide (k ∈ map kv_key l) then None else a_kv (abs s) !! k).
Proof.
  revert s. induction l as [|kv l IH]; intros s Hs Hh; cbn [mfor]; [by apply wp_ret|].
  apply wp_bind. unfold ignore at 1. apply wp_bind, wp_try, wp_text.
  eapply wp_meets_healthy; [apply delete_meets|done|done| |by intros ? ? ? ? []].
  intros b s1 Hs1 Hh1 [Hb Ha]. apply wp_ret. cbv beta iota. eapply wp_mono; [|by apply IH].
  intros r s' (-> & Hs' & Hh' & Hl). split; [done|]. split; [done|]. split; [done|]. intros k. rewrite Hl.
  assert (a_kv (abs s1) !! k = if decide (kv_key kv = k) then None else a_kv (abs s) !! k) as ->.
  { rewrite Ha, Hb. case_bool_decide as Hd; cbn.
    - destruct (decide (kv_key kv = k)) as [<-|]; [by rewrite lookup_delete_eq|by rewrite lookup_delete_ne].
    - destruct (decide (kv_key kv = k)) as [<-|]; [|done]. by apply eq_None_not_Some. }
  cbn [map]. destruct (decide (kv_key kv = k)), (decide (k ∈ map kv_key l)), (decide (k ∈ kv_key kv :: map kv_key l)) as [Hd|Hd];
    rewrite elem_of_cons in Hd; naive_solver.
Qed.

Lemma wp_wipe p (s : S) (Q : result unit string -> S -> Prop) :
  good_prefix p -> inv s -> healthy s ->
  (forall s', inv s' -> healthy s' -> (forall k, starts_with p k = true -> a_kv (abs s') !! k = None) -> Q (Ok tt) s') ->
  wp (wipe p) s Q.
Proof.
  intros Hp Hs Hh HQ. unfold wipe. apply wp_bind, wp_text.
  eapply wp_meets_healthy; [apply list_meets|done|done| |by intros ? ? ? ? []].
  intros l s1 Hs1 Hh1 [Ha Hl]. destruct (Hl Hp) as [_ Hin]. cbn [err_text]. eapply wp_mono; [|by apply wipe_loop].
  intros r s' (-> & Hs' & Hh' & Hk). apply HQ; [done..|]. intros k Hpk. rewrite Hk. case_decide as Hd; [done|].
  apply eq_None_not_Some. intros [kv Hkv]. apply Hd. rewrite Ha in Hkv.
  pose proof (awf_key _ (inv_awf _ Hs) _ _ Hkv) as <-. apply list_elem_of_In, in_map. by apply Hin.
Qed.

Lemma wp_create random org project scope (s : S) (Q : result string string -> S -> Prop) :
  inv s -> healthy s ->
  (forall s', inv s' -> healthy s' ->
     abs s' = a_write (key_store_key Sha256 (hex random)) (encode (mkKey org project scope)) None (abs s) -> Q (Ok (hex random)) s') ->
  wp (create_key Sha256 random org project scope) s Q.
Proof.
  intros Hs Hh HQ. unfold create_key. apply wp_bind, wp_text.
  eapply wp_meets_healthy; [apply put_meets|done|done| |by intros ? ? ? ? [? _]].
  intros rev s' Hs' Hh' (_ & Ha & _). apply wp_ret. by apply HQ.
Qed.

Lemma wp_lookup token (s : S) (Q : result (option ApiKeyRecord) string -> S -> Prop) :
  inv s -> healthy s ->
  (forall s', inv s' -> healthy s' -> abs s' = abs s ->
     Q (Ok (match a_kv (abs s) !! key_store_key Sha256 token with Some kv => decode (kv_value kv) | None => None end)) s') ->
  wp (lookup_key Sha256 token) s Q.
Proof.
  intros Hs Hh HQ. unfold lookup_key. apply wp_bind, wp_text.
  eapply wp_meets_healthy; [apply (get_meets (key_store_key Sha256 token))|done|done| |by intros ? ? ? ? []].
  intros o s' Hs' Hh' [Ha ->]. apply wp_ret. by apply HQ.
Qed.

Lemma key_neq t t' : Sha256 t <> Sha256 t' -> key_store_key Sha256 t <> key_store_key Sha256 t'.
Proof. unfold key_store_key. intros Hn Heq%(app_inv_head_s "apikey/")%hex_inj. done. Qed.

(** A new key is found under its token, and no other token finds it. *)
Lemma own_key t org project scope a :
  plain_name org -> plain_name project ->
  match a_kv (a_write (key_store_key Sha256 t) (encode (mkKey org project scope)) None a) !! key_store_key Sha256 t with
  | Some kv => decode (kv_value kv) | None => None end = Some (mkKey org project scope).
Proof. intros H1 H2. rewrite a_write_kv, decide_True by done. cbn [kv_value]. by apply decode_encode. Qed.

Lemma other_key t t' v a :
  Sha256 t <> Sha256 t' -> a_kv (a_write (key_store_key Sha256 t) v None a) !! key_store_key Sha256 t' = a_kv a !! key_store_key Sha256 t'.
Proof. intros Hn. by rewrite a_write_kv, decide_False by by apply key_neq. Qed.

Lemma wp_want b m (s : S) (Q : result unit string -> S -> Prop) : b = true -> Q (Ok tt) s -> wp (want b m) s Q.
Proof. by intros ->. Qed.

(** The self check of the keys passes on every healthy lawful store, whatever
    keys it holds, when the hashes of the five tokens differ. *)
Theorem auth_check_passes (r1 r2 r3 r4 : string) (s : S) :
  inv s -> healthy s ->
  NoDup [Sha256 (hex r1); Sha256 (hex r2); Sha256 (hex r3); Sha256 (hex r4); Sha256 "bad-token"] ->
  (auth_asserts Sha256 r1 r2 r3 r4 s).1 = Ok tt.
Proof.
  intros Hs Hh Hnd. rewrite !NoDup_cons in Hnd. destruct Hnd as (N1 & N2 & N3 & N4 & _).
  set (h1 := Sha256 (hex r1)) in *. set (h2 := Sha256 (hex r2)) in *. set (h3 := Sha256 (hex r3)) in *.
  set (h4 := Sha256 (hex r4)) in *. set (h5 := Sha256 "bad-token") in *.
  assert (h1 <> h2 /\ h1 <> h3 /\ h1 <> h4 /\ h1 <> h5 /\ h2 <> h3 /\ h2 <> h4 /\ h2 <> h5 /\ h3 <> h4 /\ h3 <> h5 /\ h4 <> h5)
    as (N12 & N13 & N14 & N15 & N23 & N24 & N25 & N34 & N35 & N45) by (repeat split; set_solver).
  assert (wp (auth_asserts Sha256 r1 r2 r3 r4) s (fun r _ => r = Ok tt)) as G; [|exact G].
  unfold auth_asserts. cbv zeta. apply wp_bind, wp_wipe; [by apply (good_prefix_slash "apikey")|done..|]. intros s0 H0 I0 C0. cbv beta iota.
  apply wp_bind, wp_create; [done..|]. intros s1 H1 I1 E1. apply wp_bind, wp_create; [done..|]. intros s2 H2 I2 E2.
  apply wp_bind, wp_create; [done..|]. intros s3 H3 I3 E3. apply wp_bind, wp_create; [done..|]. intros s4 H4 I4 E4. cbv beta iota.
  set (val t := match a_kv (abs s4) !! key_store_key Sha256 t with Some kv => decode (kv_value kv) | None => None end).
  assert (val (hex r1) = Some (mkKey "acme" "projA" ReadOnly) /\ val (hex r2) = Some (mkKey "acme" "projA" ReadWrite) /\
          val (hex r3) = Some (mkKey "acme" "projA" Build) /\ val (hex r4) = Some (mkKey "acme" "projB" ReadWrite) /\
          val "bad-token"%string = None) as (V1 & V2 & V3 & V4 & V5).
  { unfold val. split; [|split; [|split; [|split]]].
    - by rewrite E4, other_key, E3, other_key, E2, other_key, E1, own_key.
    - by rewrite E4, other_key, E3, other_key, E2, own_key.
    - by rewrite E4, other_key, E3, own_key.
    - by rewrite E4, own_key.
    - rewrite E4, other_key, E3, other_key, E2, other_key, E1, other_key, C0; done. }
  assert (forall s' t (K : option ApiKeyRecord -> M S string unit), inv s' -> healthy s' -> abs s' = abs s4 ->
    (forall s'', inv s'' -> healthy s'' -> abs s'' = abs s4 -> wp (K (val t)) s'' (fun r _ => r = Ok tt)) ->
    wp (mbind (lookup_key Sha256 t) K) s' (fun r _ => r = Ok tt)) as Hfind.
  { intros s' t K J1 J2 J3 HK. apply wp_bind, wp_lookup; [done..|]. intros s'' J4 J5 J6. rewrite J3. apply HK; [done..|]. by rewrite J6. }
  apply Hfind; [done..|]. intros s5 J1 J2 J3. rewrite V1. apply wp_bind, wp_want; [done|].
  apply Hfind; [done..|]. clear J1 J2 J3. intros s6 J1 J2 J3. rewrite V5. apply wp_bind, wp_want; [done|].
  apply Hfind; [done..|]. clear J1 J2 J3. intros s7 J1 J2 J3. rewrite V1. apply wp_bind, wp_ret. apply wp_bind, wp_want; [done|].
  apply Hfind; [done..|]. clear J1 J2 J3. intros s8 J1 J2 J3. rewrite V2. apply wp_bind, wp_ret. apply wp_bind, wp_want; [done|].
  apply Hfind; [done..|]. clear J1 J2 J3. intros s9 J1 J2 J3. rewrite V3. apply wp_bind, wp_ret. apply wp_bind, wp_want; [done|].
  apply Hfind; [done..|]. clear J1 J2 J3. intros sA J1 J2 J3. rewrite V4. apply wp_bind, wp_ret.
  apply wp_bind, wp_want; [done|]. apply wp_bind, wp_want; [done|].
  by apply wp_wipe; [apply (good_prefix_slash "apikey")|..].
Qed.
End Keys.

(** ** The checks on the temporary file *)

Import RefJson.

Lemma election_check now : (election_asserts now (open_in_memory [], new_election "node-a" 30, new_election "node-b" 30)).1 = Ok tt.
Proof. vm_compute. reflexivity. Qed.
Lemma cluster_check now : (cluster_asserts now (open_in_memory [])).1 = Ok tt.
Proof. vm_compute. reflexivity. Qed.
Lemma node_reclaim_check now : (node_reclaim_asserts now (open_in_memory [])).1 = Ok tt.
Proof. vm_compute. reflexivity. Qed.
Lemma sched_check now : (sched_asserts now (open_in_memory [])).1 = Ok tt.
Proof. vm_compute. reflexivity. Qed.
Lemma retention_check : (retention_asserts map_to_list (open_in_memory [])).1 = Ok tt.
Proof. vm_compute. reflexivity. Qed.
Lemma quota_check_run : (quota_asserts 1700000000 (open_in_memory [], 0)).1 = Ok tt.
Proof. vm_compute. reflexivity. Qed.

(**  the node's self checks pass.  On the new temporary SQLite file that the
    modes use without [--etcd], the checks of the election, of the replicas, of
    the reclamation of lost nodes, of the placement, of the retention, of the
    quotas with the audit log, and of the API keys (for tokens whose hashes
    differ) all end with their PASS line, at any time on the clock. *)
Theorem self_checks_pass {G : Type} {Sg : Store G} (cluster : bool) (connect : string -> result G StoreError)
    (now : Z) (Sha256 : string -> string) (r1 r2 r3 r4 : string) :
  NoDup [Sha256 (hex r1); Sha256 (hex r2); Sha256 (hex r3); Sha256 (hex r4); Sha256 "bad-token"] ->
  let file := Ok (open_in_memory []) in
  is_ok (run_election_reconcile cluster connect file now None) = true /\
  is_ok (run_cluster_reconcile cluster connect file now None) = true /\
  is_ok (run_node_reclaim_reconcile cluster connect file now None) = true /\
  is_ok (run_sched_reconcile cluster connect file now None) = true /\
  is_ok (run_retention_reconcile cluster connect file map_to_list None) = true /\
  is_ok (run_quota_reconcile cluster connect file 1700000000 0 None) = true /\
  is_ok (run_auth_reconcile cluster connect file Sha256 r1 r2 r3 r4 None) = true.
Proof.
  intros Hnd file. unfold run_election_reconcile, run_cluster_reconcile, run_node_reclaim_reconcile, run_sched_reconcile,
    run_retention_reconcile, run_quota_reconcile, run_auth_reconcile, on_store, file.
  rewrite election_check, cluster_check, node_reclaim_check, sched_check, retention_check, quota_check_run.
  rewrite (auth_check_passes Sha256 r1 r2 r3 r4 (open_in_memory [])); [done|apply (store_after_inv [])..|done].
Qed.

Lemma self_checks_pass_witness :
  is_ok (run_auth_reconcile (G := SqliteStore) true (fun _ => Err (Backend "down"%string)) (Ok (open_in_memory []))
           (fun t => t) "1" "2" "3" "4" None) = true.
Proof.
  destruct (self_checks_pass (G := SqliteStore) true (fun _ => Err (Backend "down"%string)) 0 (fun t => t) "1" "2" "3" "4")
    as (_ & _ & _ & _ & _ & _ & H); [|exact H].
  repeat (apply NoDup_cons; split; [vm_compute; set_solver|]). apply NoDup_nil. exact I.
Defined.
