(* ===== verification/NodeStore.v ===== *)
(** * The modes of the node on its store (crates/sl-node/src/lib.rs)

    [--store-contract], [--quota-set], [--apikey-create] and [--cluster-init]:
    which store a configuration names, what a mode does to it and what it
    prints.  The stores are the SQLite files by path and the etcd servers by
    end point. *)

From Stdlib Require Import ZArith Lia Bool List String Ascii.
From stdpp Require Import base tactics list gmap strings sorting.
From S2P Require Import Prelude RustStr Utf8 Json Store Sqlite SqliteSpec StoreTheorems.
From S2P Require Import Quota Auth Contract NodeMain.

Open Scope Z_scope.

Section Modes.
Context {G : Type} {Sg : Store G} {Rg : Receives G} {Js : SerdeJson}.

(** Whether the build has the cluster feature, and the errors of opening. *)
Context (cluster : bool) (connect open : string -> option StoreError).

Record World : Type := mkWorld { files : string -> SqliteStore; servers : string -> G }.

Definition on_server {A} (ep : string) (act : M G string A) : M World string A :=
  fun w => match connect ep with
           | Some e => (Err (store_error_display e), w)
           | None => let '(r, g) := act (servers w ep) in (r, mkWorld (files w) (upd (servers w) ep g))
           end.

Definition on_file {A} (path : string) (act : M SqliteStore string A) : M World string A :=
  fun w => match open path with
           | Some e => (Err (store_error_display e), w)
           | None => let '(r, s) := act (files w path) in (r, mkWorld (upd (files w) path s) (servers w))
           end.

(** A method of the store that [open_store_for] opens. *)
Definition on_store_for {A} (c : Config) (act : forall S, Store S -> M S string A) : M World string A :=
  match c_opt c O_etcd with
  | Some ep =>
      if cluster then on_server ep (act G Sg)
      else mfail ("--etcd " ++s ep ++s " 需以 `--features cluster` 构建")
  | None => on_file (default "build/templates/sl.db"%string (c_opt c O_store)) (act SqliteStore SqliteStore_Store)
  end.

Definition required (o : option string) (msg : string) : M World string string :=
  match o with Some x => mret x | None => mfail msg end.

Definition config_limits (c : Config) : Limits :=
  mkLimits (c_num c N_max_sandboxes) (c_num c N_max_vcpus) (c_num c N_max_mem) (c_num c N_max_storage).

Definition run_quota_set (c : Config) : M World string (list string) :=
  let? project := required (c_opt c O_project) "--quota-set 需 --project <项目>" in
  let l := config_limits c in
  let? _ := on_store_for c (fun S St => @set_limits S St project l) in
  mret ["项目 " ++s project ++s " 配额已设：max_sandboxes=" ++s dec (max_sandboxes l) ++s " max_vcpus=" ++s dec (max_vcpus l)
        ++s " max_mem_mib=" ++s dec (max_mem_mib l) ++s " max_storage_mib=" ++s dec (max_storage_mib l) ++s "（0=不限）"].

Definition run_apikey_create (Sha256 : string -> string) (random : string) (c : Config) : M World string (list string) :=
  let? org := required (c_opt c O_org) "--apikey-create 需 --org <组织>" in
  let? project := required (c_opt c O_project) "--apikey-create 需 --project <项目>" in
  let scope_s := default "readwrite"%string (c_opt c O_scope) in
  match scope_from_str scope_s with
  | None => mfail "--scope 取值 readonly|readwrite|build"%string
  | Some scope =>
      let? token := on_store_for c (fun S St => @create_key Sha256 S St random org project scope) in
      mret ["API Key 已创建（token 仅此一次显示，请妥善保存）："%string;
            "  org=" ++s org ++s "  project=" ++s project ++s "  scope=" ++s scope_s;
            "  token=" ++s token;
            "用法：curl -H 'Authorization: Bearer " ++s token ++s "' http://<daemon-addr>/v1/sandboxes"]
  end.

Definition run_cluster_init (c : Config) : M World string (list string) :=
  if negb cluster then mfail "--cluster-init 需以 `--features cluster` 构建 sl-node（当前未启用该特性）"%string
  else
    let? src_path := required (c_opt c O_store) "--cluster-init 需 --store <sqlite 路径>" in
    let? ep := required (c_opt c O_etcd) "--cluster-init 需 --etcd <endpoint>" in
    fun w =>
      match open src_path, connect ep with
      | Some e, _ => (Err (store_error_display e), w)
      | None, Some e => (Err (store_error_display e), w)
      | None, None =>
          let '(r, (s, g)) := text migrate_all (files w src_path, servers w ep) in
          let w' := mkWorld (upd (files w) src_path s) (upd (servers w) ep g) in
          (match r with
           | Ok n => Ok ["[cluster-init] 迁移完成：" ++s dec (Z.of_nat n) ++s " 键  SQLite(" ++s src_path ++s ") → etcd(" ++s ep ++s ")";
                         "[cluster-init] 注意：这是停机迁移事件（ADR-17）——迁移期间不应有在跑沙箱或并发写入。"%string]
           | Err m => Err m
           end, w')
      end.

(** [contract::run_all] on a store at a time, with the delays of its clock. *)
Definition contract_on {S} {St : Store S} {Re : Receives S} (s : S) (t : Z) (ds : list Z) : result unit ContractError :=
  fst (run_all (mkRun s t ds)).

(** A failure of the suite, or of opening a store. *)
Inductive ContractEnd : Type :=
| Passed (lines : list string)
| Broken (e : ContractError)
| NotRun (msg : string).

(** The suite on a store in memory, on a temporary file, and on etcd when it is
    asked for; [open_mem] and [open_tmp] are the errors of opening the first two. *)
Definition run_store_contract (open_mem open_tmp : option StoreError) (w : World) (t : Z) (ds : list Z) (c : Config) : ContractEnd :=
  match open_mem with
  | Some e => NotRun (store_error_display e)
  | None =>
      match contract_on (open_in_memory []) t ds, open_tmp with
      | Err e, _ => Broken e
      | Ok _, Some e => NotRun (store_error_display e)
      | Ok _, None =>
          match contract_on (open_in_memory []) t ds with
          | Err e => Broken e
          | Ok _ =>
              let lines := ["[store] SqliteStore(in-memory) 契约 PASS"; "[store] SqliteStore(file) 契约 PASS"]%string in
              match c_opt c O_etcd with
              | None => Passed lines
              | Some ep =>
                  if negb cluster then NotRun ("--etcd " ++s ep ++s " 需以 `--features cluster` 构建 sl-node（当前未启用该特性）")
                  else match connect ep with
                       | Some e => NotRun (store_error_display e)
                       | None => match contract_on (servers w ep) t ds with
                                 | Err e => Broken e
                                 | Ok _ => Passed (lines ++ ["[store] EtcdStore(" ++s ep ++s ") 契约 PASS"])
                                 end
                       end
              end
          end
      end
  end.
End Modes.
Arguments World : clear implicits.

(** [--store-contract] passes without [--etcd]. *)
Theorem store_contract_passes {G : Type} {Sg : Store G} {Rg : Receives G} cluster connect (w : World G) t ds c :
  0 <= t <= 10 ^ 17 -> Forall (fun d => 0 <= d) ds -> fold_right Z.add 0 ds <= 3590000 -> c_opt c O_etcd = None ->
  exists lines, run_store_contract cluster connect None None w t ds c = Passed lines.
Proof.
  intros Ht Hf Hd He. assert (contract_on (open_in_memory []) t ds = Ok tt) as Hc.
  { assert (@good SqliteStore _ wired_laws (open_in_memory [])) as Hg.
    { split; [split; [apply (store_after_inv [])|by split; constructor]|apply (store_after_inv [])]. }
    pose proof (@run_all_passes SqliteStore _ wired_laws _ wired_watch_laws (10 ^ 17 + 3590000) (10 ^ 17) (open_in_memory []) t ds
                  ltac:(lia) ltac:(by vm_compute) Hg ltac:(split; [done|lia|done|lia])) as Hp.
    unfold wp in Hp. unfold contract_on. by destruct Hp as [-> _]. }
  unfold run_store_contract. rewrite Hc, He. eauto.
Qed.

(** ** Findings *)

Import RefJson.

Definition two_full : World SqliteStore :=
  mkWorld (fun _ => store_after
    [OPut "quota/p" (render (limits_json (mkLimits 2 0 0 0))) None;
     OPut "sandbox/s1/meta" "{}" None; OPut "sandbox/s1/project" "p" None;
     OPut "sandbox/s2/meta" "{}" None; OPut "sandbox/s2/project" "p" None]) (fun _ => open_in_memory []).

(** A typing error in [--max-sandboxes] writes a quota without a limit: the
    project that was full may create sandboxes again. *)
Lemma typo_unlimits_project :
  match parse_args some_env ["--quota-set"; "--project"; "p"; "--max-sandboxes"; "2O"]%string with
  | Exit _ => False
  | Continue c =>
      is_ok (check "p" 1 128 0 (files two_full "build/templates/sl.db"%string)).1 = false /\
      let '(r, w') := run_quota_set false (fun _ => None) (fun _ => None) c two_full in
      is_ok r = true /\ is_ok (check "p" 1 128 0 (files w' "build/templates/sl.db"%string)).1 = true
  end.
Proof. vm_compute. done. Qed.

(** A scope that is spelled wrong is refused before the store is opened. *)
Lemma bad_scope_refused {G} {Sg : Store G} cluster connect open Sha256 random c org project (w : World G) :
  c_opt c O_org = Some org -> c_opt c O_project = Some project -> scope_from_str (default "readwrite"%string (c_opt c O_scope)) = None ->
  run_apikey_create cluster connect open Sha256 random c w = (Err "--scope 取值 readonly|readwrite|build"%string, w).
Proof. intros Ho Hp Hs. unfold run_apikey_create, mbind, required. rewrite Ho, Hp. cbn. by rewrite Hs. Qed.
